(* ===== verification/_CoqProject ===== *)
-Q . S2P
Prelude.v
GoText.v
GoTime.v
Redact.v
RedactSpec.v
TaskIds.v
Store.v
Hoare.v
Execution.v
Guards.v
Claims.v
Handoff.v
Disposition.v
Confirmation.v
Workflows.v
Updates.v
Legacy.v
Leases.v
Lifecycle.v
Evolution.v
Protocol.v
Samples.v
Traces.v
Safety.v
Contracts.v
Results.v
Decisions.v
Helpers.v
Reinstall.v
LeaseSafety.v
Rollout.v
GoNet.v
Orders.v
Gateway.v
GatewaySpec.v
Landing.v
LandingSpec.v
Networking.v
NetworkingSpec.v
Json.v
Routes.v
RoutesSpec.v
GrantRoutesSpec.v
RouteJournal.v
Ingress.v
IngressSpec.v
Desired.v
DesiredSpec.v
Migration.v
Notifier.v
TaskClaims.v
Dispatch.v
DispatchSpec.v
ClaimSafety.v
DeskRefinement.v
Envelope.v
Runner.v
Wire.v
WireSpec.v
RunnerSpec.v
EndToEnd.v
Transfer.v
Session.v
Admin.v
AdminSpec.v
Vault.v
Rotation.v
VaultSpec.v
RotationSpec.v
Enrollment.v
EnrollmentSpec.v
EnrollmentHistory.v
AuditTrail.v
Replacement.v
Tailscale.v
TailscaleSpec.v
Teardown.v
TeardownSpec.v
