(* ===== verification/Prelude.v ===== *)
(** * Verification of the Vastora control plane

    Vastora is a control plane: a Center (internal/center) keeps the desired state
    of a fleet in an SQLite database, and an Agent on every node pulls tasks from
    it, executes them on the host and reports.  Executing a task twice, or on behalf
    of a machine that was replaced, damages the node, so every task passes through
    the execution protocol of internal/center/execution.go: the Center offers a
    one-use permission with a lease, the Agent's current process starts it, reports
    steps and a sealed result, and the result is committed together with the
    business row it belongs to.  What cannot be decided stays unresolved, fences the
    Agent, and waits for an operator.

    The development models the protocol, every other workflow of the Center that
    writes its tables, the dispatcher that selects the next task of an Agent and waits
    for it, the business rows the protocol moves and the updates of the Agents; the
    channel that carries an assignment and its report, the Agent's process at the other
    end of it (internal/agent) and the two of them together; how a machine becomes an
    Agent, is replaced by another one and is given up with the installation; the administrators that
    drive the Center, its sealed secrets and what of them it shows, and the redaction of
    every error text that leaves a component.
    Beside the protocol it models what the tasks carry: the desired state of gateways
    (internal/gateway), landing exits with the routes of their clients
    (internal/landing) and node networks (internal/networking), which Center and Agent
    both validate, and how the Center constructs, queues, claims and settles the
    desired states of gateways, node listeners and tunnels.

    ** Conventions

    - The database is a record of tables ([Store.Store]); a table is a list of rows
      in insertion order or a finite map.  A statement [UPDATE .. WHERE ..] is
      [sql_update] with the row count [sql_affected]; a query of one row is
      [sql_row].  The audit triggers of the schema run in [update_executions] and
      [insert_execution].
    - An operation is a function [Store -> Store * res A] ([Store.M]): the store it
      leaves and its result or error.  [transaction] restores the store on an error.
      Operations that the source runs outside a transaction keep their partial
      effects.
    - Instants are nanoseconds since 1970 in [Z]; the columns hold the texts of
      [time.RFC3339Nano] and are compared as texts, as SQLite does.  The clock, the
      random identifiers and the outcomes of lookups in tables that are not
      modelled are arguments.
    - Sealing, JSON, hashing and version comparison are the type class
      [Execution.Libraries], with the laws the code relies on (opening a sealed text
      with its label gives it back; decoding an encoded task gives it back).
      [Samples] implements the class, so that every law is satisfiable and the
      examples run.  The components that use more of the libraries declare it the same
      way: [Envelope.Crypto] (X25519, HKDF and AES-GCM), [Admin.PasswordHash],
      [Runner.SecretsCodec], [Vault.SecretCodec], [Enrollment.EnrollmentCodec] (JSON,
      URLs and certificates), [Wire.AgentCodec] (the Agent's strict decoder, of which
      it is only assumed that an accepted document has the identifier, kind, attempt and
      revision that were encoded).

    ** Files

    - [Prelude]: results, strings, SQL statements on lists, sorting, tactics.
    - [GoText], [GoTime]: decimal numbers, RFC 3339 times, their order.
    - [Redact], [RedactSpec]: redact.go: regular expressions with a leftmost matcher, the
      patterns of secrets and the bound on a text, and what is left of a token.
    - [TaskIds]: the task identifiers that carry a revision (landing_proxy_tasks.go,
      landing_server.go, node_listeners.go, orchestration.go, tunnel.go,
      deployment_tasks.go).
    - [Store]: the schema (execution.go) and the store monad; [Hoare]: weakest
      preconditions for it.
    - [Execution]: sessions, offers, steps, leases, results (execution.go,
      agent_reconnect_execution.go); [Guards]: the statements guarded by one row.
    - [Claims]: pause control, fences, authorisation (execution_claim_control.go,
      execution_superseded.go, agent_update_tasks.go, execution.go).
    - [Handoff]: host helpers (execution_update_handoff.go,
      agent_decommission_tasks.go, execution_decommission_step.go,
      tailscale_update_tasks.go).
    - [Disposition], [Confirmation]: operator decisions and retained results
      (execution_disposition.go, execution_helper_disposition.go,
      execution_projection.go, execution_confirmation.go).
    - [Workflows]: completion, with what follows its commit and can still fail, and the
      workflows that release executions
      (agent_grpc_actions.go, os_reinstall_*.go, xray_configuration_recovery.go,
      agent_update_recovery.go, agent_reinstall_*.go, meridian_management.go).
    - [Legacy]: archived receipts (execution_legacy_*.go,
      controlplane/legacy_receipt.go).
    - [Leases]: business leases (tasks.go).
    - [Updates]: Agent updates and rollouts (agent_update_tasks.go,
      agent_update_scope.go).
    - [Lifecycle], [Evolution], [Protocol]: what any operation may do to a row, that
      each one does no more, and the transition system with its invariant.
    - [Samples], [Traces]: a concrete implementation and concrete runs.
    - [Safety], [Contracts], [Results], [Decisions], [Helpers], [Reinstall],
      [LeaseSafety], [Rollout]: the theorems about the Center.
    - [GoNet]: net.ParseIP, net/netip and host names; [Orders]: strict weak orders
      and the uniqueness of sorting.
    - [Gateway], [GatewaySpec]: gateway/model.go and its theorems.
    - [Landing], [LandingSpec]: landing (quota.go, policy.go, grants.go, address.go,
      server.go, egress_addresses.go, state.go) and its theorems.
    - [Networking], [NetworkingSpec]: networking (model.go, public_egress.go,
      public_helper.go) and its theorem.
    - [Json]: JSON values; [Routes]: the routing settings of Xray (landing/routes.go,
      grant_routes.go, state.go); [RoutesSpec], [GrantRoutesSpec]: what becomes of a
      connection under the prepared settings; [RouteJournal]: writing and undoing them.
    - [Ingress], [IngressSpec]: the states constructed for gateways, node listeners and
      tunnels (orchestration.go, system_gateway.go, node_listeners.go, tunnel.go,
      publication_routes.go).
    - [Desired], [DesiredSpec]: their tables (queueing, claims, results, reconciliation,
      the removal of gateways, the restoration of a listener and the migration of gateways
      to listeners: orchestration.go, node_listeners.go,
      tunnel.go, topology.go, store_agent.go, deployment_tasks.go,
      agent_reinstall_listener.go); [Migration]: the end
      of the migration and two tasks that do not come.
    - [Notifier]: change_notifier.go and the waiting claim (deployment_tasks.go).
    - [TaskClaims]: the claim of each task table (one function per file of
      internal/center that keeps such a table); [Dispatch]: claimNextTask and
      claimExecutionTask (deployment_tasks.go, execution_claim.go,
      agent_reinstall_preparation.go, agent_reinstall_listener.go,
      agent_reinstall_runtime.go), with the claim of application commands and the
      restoration of a runtime (application_command_tasks.go, agent_reinstall_runtime.go);
      [DispatchSpec], [ClaimSafety]: what a claim may do and deliver; [DeskRefinement]: the claims of [TaskClaims] and [Desired] agree.
    - [Envelope]: the encrypted assignment (controlplane/crypto.go); [Runner]: the
      Agent's task runner as an interactive program (agent/task_runner.go,
      agent/execution.go); [Wire], [WireSpec]: the handlers and statuses between them
      (agent_grpc.go, agent_grpc_actions.go, control_plane_crypto.go,
      agent/center_grpc.go); [RunnerSpec]: one run against any answers; [EndToEnd]: any
      number of runs against the Center, with lost and replayed messages.
    - [Transfer]: old receipts handed over to the Center (agent/legacy_receipt_export.go,
      agent/legacy_receipt_transfer.go); [Session]: the loop of the Agent and the streams
      of the Center (agent/task_runner.go, agent_grpc.go).
    - [Admin], [AdminSpec]: administrators, their sessions and the throttling of guesses
      (store_auth.go, session_renewal.go, server_setup_auth.go, server.go).
    - [Vault], [VaultSpec]: sealed secrets and their one-time delivery (store_secrets.go,
      secret_delivery.go, deployment_config.go); [Rotation], [RotationSpec]: the rotation
      of the credentials of an application (application_credentials.go).
    - [Enrollment]: tokens, their exchange and repetition, revocation, deactivation and
      removal of nodes, replacement of machines (store_agent.go, agent_install.go,
      agent_enrollment_status.go, agent_reinstall_operation.go,
      agent_reinstall_network.go, agent_removal.go, agent_delete.go, topology.go,
      setup.go, platform.go); [EnrollmentSpec]: the effect of each operation;
      [EnrollmentHistory]: runs of the Center with what it answered; [Replacement]: the
      old machine and the new one; [AuditTrail]: the events of executions, with the deletion
      of nodes.
    - [Tailscale], [TailscaleSpec]: updates of Tailscale on the nodes
      (tailscale_update_tasks.go, tailscalehost/compatibility.go,
      tailscalehost/update_task.go, tailscalehost/update_status.go, the expiry of their
      leases in store_agent.go).
    - [Teardown], [TeardownSpec]: the teardown of a whole installation
      (decommission.go, agent_decommission_tasks.go).

    ** What is proved

    - For every reachable database ([Protocol.reachable]: any interleaving of the
      operations, with arbitrary changes of the other tables in between): one live
      permission per Agent, one execution per task attempt; and for every life of a Center,
      with deletions of nodes ([AuditTrail.lived]), a complete audit trail.
    - For every future of a database: a permission is started once, a replaced
      session is refused whatever an Agent asks for under it (the detached helper of an
      update goes on under the execution it was handed), states do not go back, decisions and received
      evidence do not change, an armed reinstallation is never granted again, a
      consumed helper step is never admitted again.
    - For single operations: the exact conditions and effects of registration,
      retirement, authorisation, claims control, renewal, decisions, confirmation,
      completion and lease recovery, on success and on refusal.  A decision names the
      row it changes by table, identifier or revision, node and attempt.  A completion
      that returns an error kept the evidence only, or had already committed the result
      and failed in what follows.
    - For Agent updates: one active update per Agent whatever is queued, claimed or
      completed; what a queued and a completed update imply; the rollout status.
    - For the desired states: gateway validation decides a declarative
      well-formedness, the configuration hash is canonical (except for layer-4
      routes that share an identifier, which validation admits), a traffic plan is
      one exact ledger that stays closed once consumed, access rules are normalised
      to their union, validated landing peers are unambiguous, and a validated
      network profile only uses addresses of the host, apart from loopback and the
      verified public address of a host behind NAT.
    - For the dispatcher: a claim moves the database along steps of the protocol and
      delivers only a task that was admissible, with its row leased in that attempt and
      one offer stored; a waiting claim does not miss work committed before it sleeps.
    - For routes: a forced inbound has no direct fallback, an identity of a grant leaves
      only through its exit, prepared settings are written over known settings only and
      can be undone.  The semantics of a connection is the first matching rule of Xray,
      with a second pass over the resolved addresses under IPIfNonMatch; the matching of
      a single field and the resolution are the interface [RoutesSpec.Xray].  What only
      the second pass rejects is not kept for a forced inbound
      ([RoutesSpec.resolved_rejection_is_lost]).
    - For ingress: the constructed states are valid and serve exactly the selected
      entries; a public route to the Center is one of the system routes for installers,
      binaries and the callback, or a publication that stores the Center as its endpoint;
      a result is recorded only for the claim that was issued with the present content,
      within the life of its row (a gateway that is selected again counts from one);
      a queued listener converges.
    - For Center and Agents together: a permission is executed at most once whatever
      the network does, every host operation was authorised by the Center for that
      machine, a run ends in one report that says what happened, an assignment opens to
      what was sealed and for nobody else.
    - For administrators and secrets: guesses are throttled and sessions end, a one-time
      result is shown to one operation until it is acknowledged and not after, a finished
      rotation is the credential that is installed.
    - For enrolment: in every run a token is exchanged for one identity, the same request
      gets the same answer for a day, an agent is let in with its latest credential only;
      a machine is replaced only as authorised, by one with another key, after the
      private identity of the old one was seen to be gone; what a heartbeat writes into
      the row of the agent itself (the addresses of landing exits) stays.
    - For Tailscale: one node of the fleet is updated at a time, to a newer supported
      release, and an update is believed only when the node reports the version.
    - For the teardown, with every fact read off an answer of the database or of a node:
      applications are uninstalled in the order of their priorities,
      all of them before a node is asked to clean itself or given up; it succeeds only
      when every node but the Center's own host has acknowledged its cleanup or is
      recorded for a manual one.
    - For errors: a text that leaves through [SafeError] carries no token of the
      recognised forms and is bounded.

    ** Bounds

    Lease theorems hold for instants in the years 0 to 9999 ([representable]), in
    which RFC 3339 has four-digit years, and are sharp to one second: the texts drop
    trailing zeros of the fraction, so the textual order is chronological between
    seconds and not within one.  Loops run over lists;
    the only fuel is that of the texts ([trim_bytes], [ndigits]: the length of the
    text and twenty digits; the loops of [Redact] over a text: its length and one more).

    The loops of [GoNet] that read an IPv6 address have eight rounds, one for each
    group, as in the source; counters of traffic are [int64] with the wrap-around
    written out ([Landing.wrap64]).

    ** Not modelled

    The encodings of the transport (HTTP, protobuf, TLS) and the pages of the web
    interface, the cryptographic primitives, what a task does on a host (processes, files,
    containers), heartbeats (observations of a node on itself that many components
    store), and the planning of applications and of the Meridian workflows.  Of the
    replacement of a machine, the reads of the plan outside the tables of the model, and
    of a removal, its dependencies, its retry and its later steps are parameters or left
    out.  Deleting a node also deletes its executions and their events: it is not a step of
    [Protocol.step], so the theorems about every future of a database are about operations
    that do not delete the node; those about enrolment, the desired states and the audit
    trail include its deletion.  Of the dispatcher, the checks of the payload of an
    application command that depend on its kind, the refresh of landing sources and the
    retirement of endpoint aliases are parameters that keep to their tables.  The projection of the other results into their business
    rows is an arbitrary operation that leaves executions and sessions alone.  Of the
    partial unique indexes of the business tables, only that of [agent_updates] is
    modelled, since only there the development inserts rows.  Of CreateDeployment only
    the parts that concern credentials are modelled.  The texts of errors built
    with a format are those of the format without its arguments in the desired-state
    files, [Tailscale] and [Teardown].  Of the teardown, the lists of applications and
    nodes it reads and the answer of CreateDeployment are arguments, and the column
    delete_data is left out.  What could be added, in this order: the queueing and the projections of the
    other kinds of task, the payloads of application commands, the Meridian workflows. *)
From stdpp Require Export base tactics option list strings gmap sorting.
From Stdlib Require Export ZArith Lia Permutation.

#[global] Open Scope Z_scope.
#[global] Open Scope stdpp_scope.

(** ** Results of fallible Go functions

    A Go function returning [(T, error)] is modelled by [res T]: [Ok v] for a
    nil error and [Err m] for an error whose text is [m].  The sentinel errors
    of the sources are string constants, so that [errors.Is] is equality. *)
Inductive res (A : Type) : Type :=
| Ok (a : A)
| Err (e : string).
Arguments Ok {A} a.
Arguments Err {A} e.

#[global] Instance res_eq_dec {A} `{EqDecision A} : EqDecision (res A).
Proof. solve_decision. Defined.

Definition rbind {A B} (m : res A) (k : A → res B) : res B :=
  match m with Ok a => k a | Err e => Err e end.

(** [guard_err b e] is the idiom [if b { return errors.New(e) }]. *)
Definition guard_err (b : bool) (e : string) : res unit :=
  if b then Err e else Ok tt.

Definition is_ok {A} (m : res A) : bool :=
  match m with Ok _ => true | Err _ => false end.

(** [p != nil]. *)
Definition is_Some_b {A} (o : option A) : bool :=
  match o with Some _ => true | None => false end.

Declare Scope go_scope.
Delimit Scope go_scope with go.
#[global] Open Scope go_scope.

Notation "'let!' x ':=' m 'in' k" := (rbind m (fun x => k))
  (at level 10, x pattern, m at level 100, k at level 200) : go_scope.
Notation "m ';;!' k" := (rbind m (fun _ => k))
  (at level 199, right associativity) : go_scope.

(** Boolean equality of strings, the [==] of Go on strings. *)
Notation "a =?s b" := (String.eqb a b) (at level 70, no associativity) : go_scope.
Notation "a <?s b" := (String.ltb a b) (at level 70, no associativity) : go_scope.
Notation "a <=?s b" := (String.leb a b) (at level 70, no associativity) : go_scope.

(** ** Automation shared by the components *)
Create HintDb vastora discriminated.
#[global] Hint Constants Opaque : vastora.
Create Rewrite HintDb vastora_rw.

(** Split every hypothesis on a boolean conjunction, disjunction or negation
    and turn the boolean tests on strings and integers into propositions. *)
Ltac bool_prop :=
  repeat match goal with
  | H : (_ && _)%bool = true |- _ => apply andb_prop in H; destruct H
  | H : (_ || _)%bool = false |- _ => apply orb_false_elim in H; destruct H
  | H : negb _ = true |- _ => apply negb_true_iff in H
  | H : negb _ = false |- _ => apply negb_false_iff in H
  | H : String.eqb _ _ = true |- _ => apply String.eqb_eq in H
  | H : String.eqb _ _ = false |- _ => apply String.eqb_neq in H
  | H : Z.eqb _ _ = true |- _ => apply Z.eqb_eq in H
  | H : Z.eqb _ _ = false |- _ => apply Z.eqb_neq in H
  | H : Z.ltb _ _ = true |- _ => apply Z.ltb_lt in H
  | H : Z.ltb _ _ = false |- _ => apply Z.ltb_ge in H
  | H : Z.leb _ _ = true |- _ => apply Z.leb_le in H
  | H : Z.leb _ _ = false |- _ => apply Z.leb_gt in H
  | H : bool_decide _ = true |- _ => apply bool_decide_eq_true in H
  | H : bool_decide _ = false |- _ => apply bool_decide_eq_false in H
  end.

(** Case on the scrutinee of the first [match] or [if] of a hypothesis. *)
Ltac step_match H :=
  match type of H with
  | context [match ?x with _ => _ end] => destruct x eqn:?
  end.

(** Follow the successful branches of a chain of early returns. *)
Ltac run_ok H :=
  unfold rbind, guard_err in H;
  repeat (step_match H; try discriminate H);
  try (injection H as H).

(** ** Strings *)

Definition str_len (s : string) : Z := Z.of_nat (String.length s).

(** The UTF-8 encodings of the runes for which [unicode.IsSpace] holds. *)
Definition space_seqs : list (list nat) :=
  [[9]; [10]; [11]; [12]; [13]; [32]; [194; 133]; [194; 160]; [225; 154; 128];
   [226; 128; 128]; [226; 128; 129]; [226; 128; 130]; [226; 128; 131];
   [226; 128; 132]; [226; 128; 133]; [226; 128; 134]; [226; 128; 135];
   [226; 128; 136]; [226; 128; 137]; [226; 128; 138]; [226; 128; 168];
   [226; 128; 169]; [226; 128; 175]; [226; 129; 159]; [227; 128; 128]]%nat.

Definition bytes_of (s : string) : list nat :=
  map Ascii.nat_of_ascii (String.list_ascii_of_string s).
Definition string_of_bytes (l : list nat) : string :=
  String.string_of_list_ascii (map Ascii.ascii_of_nat l).

Fixpoint strip_seq (p l : list nat) : option (list nat) :=
  match p, l with
  | [], _ => Some l
  | a :: p', b :: l' => if Nat.eqb a b then strip_seq p' l' else None
  | _ :: _, [] => None
  end.

Fixpoint strip_any (ps : list (list nat)) (l : list nat) : option (list nat) :=
  match ps with
  | [] => None
  | p :: ps' => match strip_seq p l with Some r => Some r | None => strip_any ps' l end
  end.

Fixpoint trim_bytes (fuel : nat) (ps : list (list nat)) (l : list nat) : list nat :=
  match fuel with
  | O => l
  | S n => match strip_any ps l with Some r => trim_bytes n ps r | None => l end
  end.

(** [strings.TrimSpace]. *)
Definition trim_space (s : string) : string :=
  let l := bytes_of s in
  let l1 := trim_bytes (length l) space_seqs l in
  let r := reverse l1 in
  string_of_bytes (reverse (trim_bytes (length r) (map (@reverse nat) space_seqs) r)).

(** The letters A to Z are folded. *)
Definition fold_ascii (c : nat) : nat := if Nat.leb 65 c && Nat.leb c 90 then (c + 32)%nat else c.

(** [strings.ToLower], up to the non-ASCII part of the result: the Kelvin sign
    and the dotted capital I are the only non-ASCII runes with an ASCII
    lower-case mapping; other non-ASCII bytes are left as they are. *)
Fixpoint lower_bytes (l : list nat) : list nat :=
  match l with
  | 226%nat :: 132%nat :: 170%nat :: l' => 107%nat :: lower_bytes l'
  | 196%nat :: 176%nat :: l' => 105%nat :: lower_bytes l'
  | c :: l' => (if Nat.leb 65 c && Nat.leb c 90 then (c + 32)%nat else c) :: lower_bytes l'
  | [] => []
  end.
Definition to_lower (s : string) : string := string_of_bytes (lower_bytes (bytes_of s)).

Definition has_prefix (p s : string) : bool := String.prefix p s.
Definition has_suffix (p s : string) : bool :=
  String.prefix (String.rev p) (String.rev s).

(** [strings.ContainsAny] for a set of ASCII characters. *)
Fixpoint contains_any (s : string) (chars : list Ascii.ascii) : bool :=
  match s with
  | EmptyString => false
  | String c s' => existsb (Ascii.eqb c) chars || contains_any s' chars
  end.

(** [strings.Contains]. *)
Fixpoint contains (s p : string) : bool :=
  String.prefix p s ||
  match s with EmptyString => false | String _ s' => contains s' p end.

Definition str_in (s : string) (l : list string) : bool := existsb (String.eqb s) l.

Lemma str_in_spec s l : str_in s l = true ↔ s ∈ l.
Proof.
  unfold str_in. rewrite existsb_exists. setoid_rewrite list_elem_of_In.
  split.
  - intros (x & Hx & E). by apply String.eqb_eq in E as ->.
  - intros H. exists s. by rewrite String.eqb_refl.
Qed.

Lemma eqb_refl_s s : (s =?s s) = true.
Proof. apply String.eqb_refl. Qed.

Lemma compare_refl_s s : (s ?= s)%string = Eq.
Proof.
  induction s as [|c s IH]; simpl; [done|].
  unfold Ascii.compare. by rewrite N.compare_refl.
Qed.

Lemma ltb_irrefl_s s : (s <?s s) = false.
Proof. unfold String.ltb. by rewrite compare_refl_s. Qed.

Lemma leb_ltb_s s t : (s <=?s t) = negb (t <?s s).
Proof.
  unfold String.leb, String.ltb. rewrite (String.compare_antisym t s).
  by destruct (s ?= t)%string.
Qed.

Lemma ltb_trans_s a b c : (a <?s b) = true → (b <?s c) = true → (a <?s c) = true.
Proof.
  unfold String.ltb. revert b c.
  induction a as [|x a IH]; intros [|y b] [|z c]; simpl; try done.
  unfold Ascii.compare.
  destruct (N.compare_spec (Ascii.N_of_ascii x) (Ascii.N_of_ascii y)) as [E1|E1|E1],
    (N.compare_spec (Ascii.N_of_ascii y) (Ascii.N_of_ascii z)) as [E2|E2|E2]; try done;
    intros H1 H2;
    destruct (N.compare_spec (Ascii.N_of_ascii x) (Ascii.N_of_ascii z)) as [E3|E3|E3];
    try done; try (by exfalso; lia).
  eauto.
Qed.

Lemma leb_trans_s a b c : (a <=?s b) = true → (b <=?s c) = true → (a <=?s c) = true.
Proof.
  intros H1 H2. apply Is_true_true. apply Is_true_true in H1, H2.
  change (String.le a c). by transitivity b.
Qed.

Lemma ltb_eq_s a b : (a <?s b) = false → (b <?s a) = false → a = b.
Proof.
  unfold String.ltb. rewrite (String.compare_antisym b a).
  destruct (a ?= b)%string eqn:E; simpl; try done.
  intros _ _. by apply String.compare_eq_iff.
Qed.

Lemma nltb_trans_s a b c : (a <?s b) = false → (b <?s c) = false → (a <?s c) = false.
Proof.
  intros H1 H2. apply negb_true_iff. rewrite <- leb_ltb_s.
  apply leb_trans_s with b; rewrite leb_ltb_s; by apply negb_true_iff.
Qed.

(** ** SQL tables

    A table is the list of its rows in rowid order.  [sql_update] is an
    [UPDATE ... SET ... WHERE ...]; [sql_affected] is the [RowsAffected] of it,
    which counts the rows the [WHERE] clause selects. *)
Section Sql.
Context {A : Type}.

Definition sql_update (wh : A → bool) (set_row : A → A) (t : list A) : list A :=
  map (λ r, if wh r then set_row r else r) t.

Definition sql_select (wh : A → bool) (t : list A) : list A := List.filter wh t.

Definition sql_affected (wh : A → bool) (t : list A) : Z :=
  Z.of_nat (length (sql_select wh t)).

Definition sql_exists (wh : A → bool) (t : list A) : bool := existsb wh t.

(** The first row the [WHERE] clause selects, as [QueryRow ... Scan]. *)
Definition sql_row (wh : A → bool) (t : list A) : option A := List.find wh t.

Lemma sql_update_length wh f t : length (sql_update wh f t) = length t.
Proof. apply length_map. Qed.

Lemma sql_update_lookup wh f t i :
  sql_update wh f t !! i = (λ r, if wh r then f r else r) <$> t !! i.
Proof. unfold sql_update. apply list_lookup_fmap. Qed.

Lemma sql_exists_spec wh t : sql_exists wh t = true ↔ ∃ r, r ∈ t ∧ wh r = true.
Proof.
  unfold sql_exists. rewrite existsb_exists. by setoid_rewrite list_elem_of_In.
Qed.

Lemma sql_exists_false wh t : sql_exists wh t = false ↔ ∀ r, r ∈ t → wh r = false.
Proof.
  rewrite <- not_true_iff_false, sql_exists_spec. split.
  - intros H r Hr. apply not_true_iff_false. naive_solver.
  - naive_solver congruence.
Qed.

Lemma sql_row_spec wh t r : sql_row wh t = Some r → r ∈ t ∧ wh r = true.
Proof. intros H. apply find_some in H. by rewrite list_elem_of_In. Qed.

Lemma sql_row_none wh t : sql_row wh t = None → ∀ r, r ∈ t → wh r = false.
Proof.
  intros H r Hr. apply list_elem_of_In in Hr. eapply find_none; eauto.
Qed.

Lemma sql_affected_0 wh t :
  sql_affected wh t = 0 ↔ ∀ r, r ∈ t → wh r = false.
Proof.
  rewrite <- sql_exists_false. unfold sql_affected, sql_exists.
  induction t as [|a t IH]; simpl; [done|]. destruct (wh a); simpl; [|done]. split; lia || done.
Qed.

Lemma sql_update_none wh f t :
  (∀ r, r ∈ t → wh r = false) → sql_update wh f t = t.
Proof.
  intros H. unfold sql_update. induction t as [|a t IH]; simpl; [done|].
  rewrite H by left. f_equal. apply IH. intros r Hr. apply H. by right.
Qed.

Lemma elem_of_sql_update wh f t r' :
  r' ∈ sql_update wh f t ↔ ∃ r, r ∈ t ∧ r' = if wh r then f r else r.
Proof.
  unfold sql_update. rewrite list_elem_of_In, in_map_iff.
  setoid_rewrite list_elem_of_In. naive_solver.
Qed.
End Sql.

#[export] Hint Rewrite @sql_update_length : vastora_rw.

(** A key column [k] the update leaves alone keeps its uniqueness. *)
Lemma sql_update_key {A K} (k : A → K) wh f (t : list A) :
  (∀ r, k (f r) = k r) → map k (sql_update wh f t) = map k t.
Proof.
  intros H. unfold sql_update. rewrite map_map. apply map_ext. intros r.
  by destruct (wh r).
Qed.

Lemma nodup_key_eq {A K} (k : A → K) (t : list A) r1 r2 :
  NoDup (map k t) → r1 ∈ t → r2 ∈ t → k r1 = k r2 → r1 = r2.
Proof.
  intros Hnd H1 H2 E.
  apply list_elem_of_lookup in H1 as [i Hi], H2 as [j Hj].
  assert (i = j) as ->; [|congruence].
  eapply NoDup_lookup; [apply Hnd|..].
  - rewrite list_lookup_fmap, Hi. done.
  - rewrite list_lookup_fmap, Hj. simpl. by rewrite E.
Qed.

(** ** Sorting

    [sort.Slice] is specified by its documentation only: the result is a
    permutation of the slice in which no later element is less than an earlier
    one; it is not stable.  The class states this contract, the components use
    it, and [merge_sorter] is an implementation. *)
Class SliceSorter := {
  slice_sort : ∀ {A : Type}, (A → A → bool) → list A → list A;
  slice_sort_perm : ∀ {A} (less : A → A → bool) l, slice_sort less l ≡ₚ l;
  slice_sort_sorted : ∀ {A} (less : A → A → bool) l,
    (∀ x, less x x = false) →
    (∀ x y z, less x y = true → less y z = true → less x z = true) →
    (∀ x y z, less x y = false → less y z = false → less x z = false) →
    StronglySorted (λ x y, less y x = false) (slice_sort less l)
}.

Definition sort_rel {A} (less : A → A → bool) (x y : A) : Prop := less y x = false.

#[global] Instance sort_rel_dec {A} (less : A → A → bool) : RelDecision (sort_rel less).
Proof. intros x y. unfold sort_rel. apply _. Defined.

#[global] Program Instance merge_sorter : SliceSorter := {|
  slice_sort A less l := merge_sort (sort_rel less) l
|}.
Next Obligation. intros. apply merge_sort_Permutation. Qed.
Next Obligation.
  intros A less l Hirr Htr Hntr. apply StronglySorted_merge_sort.
  - intros x y z H1 H2. unfold sort_rel in *. eauto.
  - intros x y. unfold sort_rel. destruct (less y x) eqn:E; [right|by left].
    apply not_true_iff_false. intros E'. pose proof (Htr _ _ _ E E') as H.
    by rewrite Hirr in H.
Qed.

(** Two lawful sorts of permutations of one list agree when [less] separates
    the elements of the list. *)
Lemma sorted_perm_unique {A} (less : A → A → bool) (l1 l2 : list A) :
  l1 ≡ₚ l2 →
  StronglySorted (sort_rel less) l1 → StronglySorted (sort_rel less) l2 →
  (∀ x y, x ∈ l1 → y ∈ l1 → less x y = false → less y x = false → x = y) →
  l1 = l2.
Proof.
  revert l2. induction l1 as [|a l1 IH]; intros l2 Hp Hs1 Hs2 Hsep.
  { symmetry. by apply Permutation_nil. }
  destruct l2 as [|b l2]; [by apply Permutation_nil_r in Hp|].
  inversion_clear Hs1 as [|?? Hs1' Ha]. inversion_clear Hs2 as [|?? Hs2' Hb].
  assert (a = b) as ->.
  { assert (a ∈ b :: l2) as Hin by (rewrite <- Hp; left).
    assert (b ∈ a :: l1) as Hin' by (rewrite Hp; left).
    apply elem_of_cons in Hin as [|Hin]; [done|].
    apply elem_of_cons in Hin' as [|Hin']; [done|].
    rewrite Forall_forall in Ha, Hb.
    apply Hsep; [by left|by right|by apply Hb|by apply Ha]. }
  f_equal. apply IH; eauto using Permutation_cons_inv.
  intros x y Hx Hy. apply Hsep; by right.
Qed.
