(* ===== verification/GoText.v ===== *)
(** * Decimal text

    The parts of Go's packages fmt and strconv the sources use on integers:
    fixed-width and [%d] formatting, and [strconv.ParseInt(_, 10, 64)]. *)
From S2P Require Import Prelude.

Definition digit (n : Z) : Ascii.ascii := Ascii.ascii_of_N (Z.to_N (48 + n)).

Fixpoint digits (w : nat) (n : Z) : string :=
  match w with
  | O => ""
  | S w' => digits w' (n / 10) +:+ String (digit (n mod 10)) ""
  end.

(** ** Decimal text of int64 values: [%d] and [strconv.ParseInt(_, 10, 64)] *)
Definition int64_max : Z := 9223372036854775807.

Fixpoint ndigits (fuel : nat) (n : Z) : nat :=
  match fuel with
  | O => 1%nat
  | S f => if n <? 10 then 1%nat else S (ndigits f (n / 10))
  end.

Definition decimal (n : Z) : string :=
  if n <? 0 then "-" +:+ digits (ndigits 20 (- n)) (- n) else digits (ndigits 20 n) n.

Definition digit_value (c : Ascii.ascii) : option Z :=
  let v := Z.of_N (Ascii.N_of_ascii c) - 48 in
  if (0 <=? v) && (v <=? 9) then Some v else None.

Fixpoint parse_digits (acc : Z) (s : string) : option Z :=
  match s with
  | EmptyString => Some acc
  | String c s' => match digit_value c with Some v => parse_digits (10 * acc + v) s' | None => None end
  end.

Definition parse_unsigned (s : string) : option Z :=
  if s =?s "" then None else parse_digits 0 s.

Definition minus_char : Ascii.ascii := Ascii.ascii_of_nat 45.
Definition plus_char : Ascii.ascii := Ascii.ascii_of_nat 43.

Definition parse_int64 (s : string) : option Z :=
  match s with
  | EmptyString => None
  | String c s' =>
      let '(neg, body) :=
        if Ascii.eqb c minus_char then (true, s')
        else if Ascii.eqb c plus_char then (false, s') else (false, s) in
      match parse_unsigned body with
      | None => None
      | Some v =>
          if neg then (if v <=? int64_max + 1 then Some (- v) else None)
          else (if v <=? int64_max then Some v else None)
      end
  end.

(** ** The order of fixed-width texts *)
Lemma compare_app (a1 a2 b1 b2 : string) :
  String.length a1 = String.length a2 →
  ((a1 +:+ b1) ?= (a2 +:+ b2))%string =
  match (a1 ?= a2)%string with Eq => (b1 ?= b2)%string | c => c end.
Proof.
  revert a2. induction a1 as [|x a1 IH]; intros [|y a2] H; simpl in *; try done.
  change (String.app (String x a1) b1) with (String x (String.app a1 b1)).
  change (String.app (String y a2) b2) with (String y (String.app a2 b2)).
  simpl. destruct (Ascii.compare x y); try done. apply IH. lia.
Qed.

Lemma length_app_s (a b : string) :
  String.length (a +:+ b) = (String.length a + String.length b)%nat.
Proof.
  induction a as [|x a IH]; [done|].
  change (String.app (String x a) b) with (String x (String.app a b)). simpl. by rewrite IH.
Qed.

Lemma digits_length w n : String.length (digits w n) = w.
Proof.
  revert n. induction w as [|w IH]; intros n; simpl; [done|].
  rewrite length_app_s, IH. simpl. lia.
Qed.

Lemma digit_compare a b :
  0 <= a < 10 → 0 <= b < 10 → Ascii.compare (digit a) (digit b) = (a ?= b).
Proof.
  intros Ha Hb. unfold Ascii.compare, digit. rewrite !Ascii.N_ascii_embedding by lia.
  rewrite Z2N.inj_compare by lia.
  destruct (Z.compare_spec a b), (Z.compare_spec (48 + a) (48 + b)); lia || done.
Qed.

Lemma digits_compare w a b :
  0 <= a < 10 ^ Z.of_nat w → 0 <= b < 10 ^ Z.of_nat w →
  (digits w a ?= digits w b)%string = (a ?= b).
Proof.
  revert a b. induction w as [|w IH]; intros a b Ha Hb.
  { simpl in *. replace a with b by lia. by rewrite Z.compare_refl. }
  rewrite Nat2Z.inj_succ, Z.pow_succ_r in Ha, Hb by lia.
  cbn [digits]. rewrite compare_app by (by rewrite !digits_length).
  rewrite IH by (split; [apply Z.div_pos|apply Z.div_lt_upper_bound]; lia).
  simpl. rewrite digit_compare by (apply Z.mod_pos_bound; lia).
  pose proof (Z.div_mod a 10). pose proof (Z.div_mod b 10).
  pose proof (Z.mod_pos_bound a 10). pose proof (Z.mod_pos_bound b 10).
  destruct (Z.compare_spec (a / 10) (b / 10)), (Z.compare_spec (a mod 10) (b mod 10)),
    (Z.compare_spec a b); lia || done.
Qed.


(** ** Reading back *)
Lemma digit_value_digit v : 0 <= v < 10 → digit_value (digit v) = Some v.
Proof.
  intros Hv. unfold digit_value, digit. rewrite Ascii.N_ascii_embedding by lia.
  rewrite Z2N.id by lia. replace (48 + v - 48) with v by lia.
  by rewrite (proj2 (Z.leb_le 0 v)), (proj2 (Z.leb_le v 9)) by lia.
Qed.

Lemma app_cons_s (x : Ascii.ascii) (a b : string) :
  String x a +:+ b = String x (a +:+ b).
Proof. done. Qed.

Lemma app_nil_s (s : string) : s +:+ "" = s.
Proof. induction s as [|c s IH]; [done|]. by rewrite !app_cons_s, IH. Qed.

Lemma app_assoc_s (a b c : string) : (a +:+ b) +:+ c = a +:+ (b +:+ c).
Proof. induction a as [|x a IH]; [done|]. by rewrite !app_cons_s, IH. Qed.

Lemma has_prefix_app p s : has_prefix p (p +:+ s) = true.
Proof.
  unfold has_prefix. induction p as [|c p IH]; [by destruct s|].
  rewrite app_cons_s. cbn. destruct (Ascii.ascii_dec c c); [done|congruence].
Qed.

Lemma parse_digits_digits w n acc rest :
  0 <= n < 10 ^ Z.of_nat w →
  parse_digits acc (digits w n +:+ rest) = parse_digits (acc * 10 ^ Z.of_nat w + n) rest.
Proof.
  revert n acc rest. induction w as [|w IH]; intros n acc rest Hn.
  { simpl in *. f_equal. lia. }
  rewrite Nat2Z.inj_succ, Z.pow_succ_r in Hn by lia.
  cbn [digits]. rewrite app_assoc_s, IH
    by (split; [apply Z.div_pos|apply Z.div_lt_upper_bound]; lia).
  rewrite app_cons_s. cbn [parse_digits].
  rewrite digit_value_digit by (apply Z.mod_pos_bound; lia).
  f_equal. rewrite Nat2Z.inj_succ, Z.pow_succ_r by lia.
  pose proof (Z.div_mod n 10). lia.
Qed.

Lemma ndigits_bound fuel n :
  0 <= n < 10 ^ (Z.of_nat fuel + 1) → n < 10 ^ Z.of_nat (ndigits fuel n).
Proof.
  revert n. induction fuel as [|f IH]; intros n Hn; [simpl in *; lia|].
  cbn [ndigits]. destruct (Z.ltb_spec n 10); [simpl; lia|].
  rewrite (Nat2Z.inj_succ (ndigits f (n / 10))), Z.pow_succ_r by lia.
  rewrite Nat2Z.inj_succ in Hn.
  replace (Z.succ (Z.of_nat f) + 1) with (Z.succ (Z.of_nat f + 1)) in Hn by lia.
  rewrite Z.pow_succ_r in Hn by lia.
  assert (n / 10 < 10 ^ Z.of_nat (ndigits f (n / 10))) as H'.
  { apply IH. split; [apply Z.div_pos|apply Z.div_lt_upper_bound]; lia. }
  pose proof (Z.div_mod n 10). pose proof (Z.mod_pos_bound n 10). lia.
Qed.

Lemma ndigits_pos fuel n : ∃ k, ndigits fuel n = S k.
Proof. destruct fuel; cbn; [by eexists|]. destruct (n <? 10); by eexists. Qed.

Lemma decimal_digits n : 0 <= n → decimal n = digits (ndigits 20 n) n.
Proof. intros H. unfold decimal. by rewrite (proj2 (Z.ltb_ge n 0)). Qed.

Lemma digit_not_sign v :
  0 <= v < 10 → Ascii.eqb (digit v) minus_char = false ∧ Ascii.eqb (digit v) plus_char = false.
Proof.
  intros Hv. split; apply Ascii.eqb_neq; intros E; apply (f_equal Ascii.N_of_ascii) in E;
    unfold digit in E; rewrite Ascii.N_ascii_embedding in E by lia.
  - change (Ascii.N_of_ascii minus_char) with 45%N in E. lia.
  - change (Ascii.N_of_ascii plus_char) with 43%N in E. lia.
Qed.

(** The first character of a non-empty digit text is a digit. *)
Lemma digits_head w n :
  0 <= n < 10 ^ Z.of_nat (S w) →
  ∃ v s, 0 <= v < 10 ∧ digits (S w) n = String (digit v) s.
Proof.
  revert n. induction w as [|w IH]; intros n Hn.
  { exists (n mod 10), "". split; [apply Z.mod_pos_bound; lia|done]. }
  destruct (IH (n / 10)) as (v & s & Hv & E).
  { rewrite (Nat2Z.inj_succ (S w)), Z.pow_succ_r in Hn by lia.
    split; [apply Z.div_pos|apply Z.div_lt_upper_bound]; lia. }
  exists v, (s +:+ String (digit (n mod 10)) ""). split; [done|].
  remember (S w) as w'. cbn [digits]. by rewrite E.
Qed.

(** [strconv.ParseInt] reads back what [%d] writes. *)
Lemma parse_int64_decimal n : 0 <= n <= int64_max → parse_int64 (decimal n) = Some n.
Proof.
  intros Hn. unfold int64_max in Hn. rewrite decimal_digits by lia.
  pose proof (ndigits_bound 20 n) as Hb.
  assert (0 <= n < 10 ^ Z.of_nat (ndigits 20 n)) as Hr by (split; [lia|apply Hb; lia]).
  destruct (ndigits_pos 20 n) as [k Hk]. rewrite Hk in *.
  destruct (digits_head k n Hr) as (v & s & Hv & E). rewrite E.
  cbn [parse_int64]. destruct (digit_not_sign v Hv) as [-> ->].
  assert (parse_unsigned (String (digit v) s) = Some n) as ->.
  { unfold parse_unsigned. rewrite <- E.
    assert ((digits (S k) n =?s "") = false) as -> by (by rewrite E).
    rewrite <- (app_nil_s (digits (S k) n)), parse_digits_digits by done. reflexivity. }
  rewrite (proj2 (Z.leb_le n int64_max)); [done|unfold int64_max; lia].
Qed.
