(* ===== verification/GoTime.v ===== *)
(** * Timestamps of the Center database

    The Center stores every instant as the text Go's
    [t.UTC().Format(time.RFC3339Nano)] gives, and compares these texts inside
    SQL ([expires_at>?]).  This file models an instant as the number of
    nanoseconds since the Unix epoch, defines the text exactly, and proves how
    far the order of the texts agrees with the order of the instants. *)
From S2P Require Import Prelude GoText.

(** ** Durations (the constants of Go's package time, in nanoseconds) *)
Definition second : Z := 1000000000.
Definition minute : Z := 60 * second.
Definition hour : Z := 60 * minute.
Definition day : Z := 24 * hour.

(** ** The proleptic Gregorian calendar

    Years are counted from March, so that the leap day is the last of its
    year; [days_before y] is the number of days from 0000-03-01 to the first
    of March of year [y]. *)
Definition days_before (y : Z) : Z := 365 * y + y / 4 - y / 100 + y / 400.

Definition march_year (z : Z) : Z :=
  let g := 400 * z / 146097 in
  if z <? days_before g then g - 1
  else if days_before (g + 1) <=? z then g + 1 else g.

Record civil_date := mk_civil { c_year : Z; c_month : Z; c_day : Z }.

(** Day 0 of [civil] is 1970-01-01, day 719468 after 0000-03-01. *)
Definition civil (n : Z) : civil_date :=
  let z := n + 719468 in
  let y := march_year z in
  let doy := z - days_before y in
  let mp := (5 * doy + 2) / 153 in
  let d := doy - (153 * mp + 2) / 5 + 1 in
  if mp <? 10 then mk_civil y (mp + 3) d else mk_civil (y + 1) (mp - 9) d.

(** ** The text of an instant *)
(** Drop the trailing zeros of a fraction. *)
Fixpoint trim_zeros (s : string) : string :=
  match s with
  | EmptyString => ""
  | String c s' =>
      match trim_zeros s' with
      | EmptyString => if Ascii.eqb c (digit 0) then "" else String c ""
      | r => String c r
      end
  end.

Definition fraction (ns : Z) : string :=
  if ns =? 0 then "" else "." +:+ trim_zeros (digits 9 ns).

(** The part of the text before the fraction, for the instant [s] seconds after
    the epoch: [2006-01-02T15:04:05]. *)
Definition stamp (s : Z) : string :=
  let c := civil (s / 86400) in
  let r := s mod 86400 in
  digits 4 (c_year c) +:+ "-" +:+ digits 2 (c_month c) +:+ "-" +:+ digits 2 (c_day c) +:+
  "T" +:+ digits 2 (r / 3600) +:+ ":" +:+ digits 2 (r / 60 mod 60) +:+ ":" +:+ digits 2 (r mod 60).

(** [time.Time.Format(time.RFC3339Nano)] of an instant in UTC whose year has
    at most four digits. *)
Definition rfc3339nano (t : Z) : string :=
  stamp (t / second) +:+ fraction (t mod second) +:+ "Z".

(** Instants of the years 0000 to 9999, for which the year takes four digits. *)
Definition representable (t : Z) : Prop :=
  -62167219200 * second <= t < 253402300800 * second.

Example rfc3339nano_epoch : rfc3339nano 0 = "1970-01-01T00:00:00Z".
Proof. reflexivity. Qed.
Example rfc3339nano_leap :
  rfc3339nano (951827696 * second + 120000000) = "2000-02-29T12:34:56.12Z".
Proof. reflexivity. Qed.
Example rfc3339nano_newyear :
  rfc3339nano (1767225599 * second + 999999999) = "2025-12-31T23:59:59.999999999Z".
Proof. reflexivity. Qed.

(** ** Calendar lemmas *)
#[local] Ltac div_lia := Z.div_mod_to_equations; lia.

Lemma days_before_bounds y :
  146097 * y - 1200 <= 400 * days_before y <= 146097 * y + 600.
Proof. unfold days_before. div_lia. Qed.

Lemma days_before_step y : 365 <= days_before (y + 1) - days_before y <= 366.
Proof. unfold days_before. div_lia. Qed.

Lemma days_before_mono a b : a <= b → days_before a <= days_before b.
Proof.
  intros H. pattern b. apply Zlt_lower_bound_ind with (z := a); [|done].
  intros x IH Hx. destruct (decide (x = a)) as [->|]; [done|].
  pose proof (days_before_step (x - 1)). replace (x - 1 + 1) with x in * by lia.
  specialize (IH (x - 1)). lia.
Qed.

(** [march_year] is the year whose days include day [z]. *)
Lemma march_year_spec z :
  days_before (march_year z) <= z < days_before (march_year z + 1).
Proof.
  unfold march_year. set (g := 400 * z / 146097).
  assert (146097 * g <= 400 * z < 146097 * (g + 1)) as Hg by (unfold g; div_lia).
  pose proof (days_before_bounds g). pose proof (days_before_bounds (g - 1)).
  pose proof (days_before_bounds (g + 1)). pose proof (days_before_bounds (g + 1 + 1)).
  destruct (Z.ltb_spec z (days_before g)).
  { replace (g - 1 + 1) with g by lia. pose proof (days_before_step (g - 1)).
    replace (g - 1 + 1) with g in * by lia. lia. }
  destruct (Z.leb_spec (days_before (g + 1)) z); [|lia].
  pose proof (days_before_step (g + 1)). lia.
Qed.

Lemma march_year_mono a b : a <= b → march_year a <= march_year b.
Proof.
  intros H. pose proof (march_year_spec a). pose proof (march_year_spec b).
  destruct (Z.le_gt_cases (march_year a) (march_year b)) as [|Hgt]; [done|].
  pose proof (days_before_mono (march_year b + 1) (march_year a)). lia.
Qed.

(** Months since year 0 and day of the month: the order of the calendar. *)
Definition month_index (c : civil_date) : Z := 12 * c_year c + c_month c - 1.

Lemma civil_bounds n : 1 <= c_month (civil n) <= 12 ∧ 1 <= c_day (civil n) <= 31.
Proof.
  unfold civil. pose proof (march_year_spec (n + 719468)) as Hy.
  pose proof (days_before_step (march_year (n + 719468))) as Hs.
  set (y := march_year (n + 719468)) in *. set (z := n + 719468) in *.
  destruct (Z.ltb_spec ((5 * (z - days_before y) + 2) / 153) 10); simpl; div_lia.
Qed.

Lemma civil_order a b :
  a < b →
  month_index (civil a) < month_index (civil b) ∨
  month_index (civil a) = month_index (civil b) ∧ c_day (civil a) < c_day (civil b).
Proof.
  intros Hab. unfold civil, month_index.
  pose proof (march_year_spec (a + 719468)) as Ha.
  pose proof (march_year_spec (b + 719468)) as Hb.
  pose proof (march_year_mono (a + 719468) (b + 719468)) as Hm.
  pose proof (days_before_step (march_year (a + 719468))) as Hsa.
  pose proof (days_before_step (march_year (b + 719468))) as Hsb.
  set (ya := march_year (a + 719468)) in *. set (yb := march_year (b + 719468)) in *.
  set (da := a + 719468 - days_before ya). set (db := b + 719468 - days_before yb).
  assert (0 <= da <= 365) by (unfold da; lia).
  assert (0 <= db <= 365) by (unfold db; lia).
  assert (ya < yb ∨ ya = yb ∧ da < db) as Hcase.
  { destruct (decide (ya = yb)) as [E|E]; [right|left; lia].
    split; [done|]. unfold da, db. rewrite E. lia. }
  clearbody da db.
  assert (0 <= (5 * da + 2) / 153 <= 11) by div_lia.
  assert (0 <= (5 * db + 2) / 153 <= 11) by div_lia.
  destruct (Z.ltb_spec ((5 * da + 2) / 153) 10), (Z.ltb_spec ((5 * db + 2) / 153) 10);
    simpl; (destruct Hcase as [|[-> ?]]; [left; lia|]; div_lia).
Qed.

Lemma civil_year_bounds s :
  -62167219200 <= s < 253402300800 → 0 <= c_year (civil (s / 86400)) <= 9999.
Proof.
  intros Hs. assert (-719528 <= s / 86400 < 2932897) as Hn by div_lia.
  set (n := s / 86400) in *. clearbody n.
  assert (month_index (civil (-719528)) = 0) as Hlo by reflexivity.
  assert (month_index (civil 2932896) = 119999) as Hhi by reflexivity.
  pose proof (civil_bounds n) as [Hmo _].
  assert (0 <= month_index (civil n) <= 119999) as Hmi.
  { split.
    - destruct (decide (n = -719528)) as [->|]; [by rewrite Hlo|].
      destruct (civil_order (-719528) n); lia.
    - destruct (decide (n = 2932896)) as [->|]; [by rewrite Hhi|].
      destruct (civil_order n 2932896); lia. }
  unfold month_index in Hmi. lia.
Qed.

(** The text before the fraction has a fixed width. *)
Lemma stamp_length s : String.length (stamp s) = 19%nat.
Proof. unfold stamp. rewrite !length_app_s, !digits_length. done. Qed.

Lemma lex_lt (a b : Z) c : a < b → match a ?= b with Eq => c | r => r end = Lt.
Proof. intros H. by rewrite (proj2 (Z.compare_lt_iff a b)). Qed.

Lemma lex_le (a b : Z) c :
  a <= b → (a = b → c = Lt) → match a ?= b with Eq => c | r => r end = Lt.
Proof.
  intros H Hc. destruct (Z.compare_spec a b); [auto|done|lia].
Qed.

(** Later seconds have later texts. *)
Lemma stamp_order s1 s2 :
  -62167219200 <= s1 → s2 < 253402300800 → s1 < s2 →
  (stamp s1 ?= stamp s2)%string = Lt.
Proof.
  intros H1 H2 Hlt. unfold stamp.
  pose proof (civil_year_bounds s1) as Hy1. pose proof (civil_year_bounds s2) as Hy2.
  pose proof (civil_bounds (s1 / 86400)) as Hb1. pose proof (civil_bounds (s2 / 86400)) as Hb2.
  assert (s1 / 86400 < s2 / 86400 ∨ s1 / 86400 = s2 / 86400 ∧ s1 mod 86400 < s2 mod 86400)
    as Hday by div_lia.
  pose proof (civil_order (s1 / 86400) (s2 / 86400)) as Hord. unfold month_index in Hord.
  assert (0 <= s1 mod 86400 < 86400) as Hr1 by (apply Z.mod_pos_bound; lia).
  assert (0 <= s2 mod 86400 < 86400) as Hr2 by (apply Z.mod_pos_bound; lia).
  set (r1 := s1 mod 86400) in *. set (r2 := s2 mod 86400) in *.
  set (c1 := civil (s1 / 86400)) in *. set (c2 := civil (s2 / 86400)) in *.
  assert (c_year c1 = c_year c2 ∧ c_month c1 = c_month c2 ∧ c_day c1 = c_day c2 ∧ r1 < r2 ∨
    s1 / 86400 < s2 / 86400) as Hsame.
  { destruct Hday as [|[E ?]]; [by right|left]. unfold c1, c2. by rewrite E. }
  clearbody c1 c2 r1 r2.
  rewrite !compare_app by (by rewrite ?length_app_s, ?digits_length).
  rewrite !digits_compare by (simpl; div_lia). simpl.
  repeat (apply lex_le; [div_lia|intros ?]).
  apply Z.compare_lt_iff. div_lia.
Qed.

Lemma representable_seconds t :
  representable t → -62167219200 <= t / second < 253402300800.
Proof. unfold representable, second. div_lia. Qed.

Lemma rfc3339nano_lt t1 t2 :
  representable t1 → representable t2 → t1 / second < t2 / second →
  (rfc3339nano t1 <?s rfc3339nano t2) = true.
Proof.
  intros H1%representable_seconds H2%representable_seconds Hlt.
  unfold String.ltb, rfc3339nano.
  rewrite compare_app by (by rewrite !stamp_length).
  by rewrite stamp_order by lia.
Qed.

(** The converse: an earlier text is not later by a whole second or more. *)
Lemma rfc3339nano_lt_inv t1 t2 :
  representable t1 → representable t2 →
  (rfc3339nano t1 <?s rfc3339nano t2) = true → t1 / second <= t2 / second.
Proof.
  intros H1 H2 Hlt. destruct (Z.le_gt_cases (t1 / second) (t2 / second)) as [|Hgt]; [done|].
  pose proof (rfc3339nano_lt t2 t1 H2 H1 Hgt) as Hlt'.
  pose proof (ltb_trans_s _ _ _ Hlt Hlt') as Hc. by rewrite ltb_irrefl_s in Hc.
Qed.

Lemma second_div_le t1 t2 : t1 / second <= t2 / second → t1 < t2 + second.
Proof. unfold second. div_lia. Qed.

Lemma second_div_lt t1 t2 : t1 + second <= t2 → t1 / second < t2 / second.
Proof. unfold second. div_lia. Qed.

(** ** Reading a stored instant

    [time.Parse(time.RFC3339Nano, _)], by its RFC 3339 path: fixed-width date
    and time, an optional fraction of which nine digits count, and [Z] or a
    numeric offset. *)
Definition is_leap (y : Z) : bool :=
  (y mod 4 =? 0) && (negb (y mod 100 =? 0) || (y mod 400 =? 0)).

Definition days_in (m y : Z) : Z :=
  if m =? 2 then (if is_leap y then 29 else 28)
  else if (m =? 4) || (m =? 6) || (m =? 9) || (m =? 11) then 30 else 31.

Definition days_from_civil (c : civil_date) : Z :=
  let '(y, mp) := if c_month c <=? 2 then (c_year c - 1, c_month c + 9)
                  else (c_year c, c_month c - 3) in
  days_before y + (153 * mp + 2) / 5 + c_day c - 1 - 719468.

(** Exactly [w] digits. *)
Fixpoint take_digits (w : nat) (acc : Z) (s : string) : option (Z * string) :=
  match w, s with
  | O, _ => Some (acc, s)
  | S w', String c s' =>
      match digit_value c with Some v => take_digits w' (10 * acc + v) s' | None => None end
  | S _, EmptyString => None
  end.

Definition in_range (lo hi v : Z) : bool := (lo <=? v) && (v <=? hi).

Definition take_range (w : nat) (lo hi : Z) (s : string) : option (Z * string) :=
  match take_digits w 0 s with
  | Some (v, s') => if in_range lo hi v then Some (v, s') else None
  | None => None
  end.

Definition take_char (c : Ascii.ascii) (s : string) : option string :=
  match s with
  | String d s' => if Ascii.eqb c d then Some s' else None
  | EmptyString => None
  end.

(** The value of a fraction whose first digit weighs [k] nanoseconds. *)
Fixpoint scan_fraction (k : Z) (s : string) : Z * string :=
  match s with
  | String c s' =>
      match digit_value c with
      | Some v => let '(a, r) := scan_fraction (k / 10) s' in (v * k + a, r)
      | None => (0, s)
      end
  | EmptyString => (0, s)
  end.

Definition char_of (n : nat) : Ascii.ascii := Ascii.ascii_of_nat n.

Definition take_fraction (s : string) : Z * string :=
  match s with
  | String p (String c s') =>
      if Ascii.eqb p (char_of 46) && is_Some_b (digit_value c)
      then scan_fraction 100000000 (String c s') else (0, s)
  | _ => (0, s)
  end.

(** The offset from UTC in seconds. *)
Definition take_zone (s : string) : option Z :=
  if s =?s "Z" then Some 0 else
  match s with
  | String sign s1 =>
      if negb (Ascii.eqb sign plus_char || Ascii.eqb sign minus_char) then None else
      match take_range 2 0 23 s1 with
      | Some (hr, s2) =>
          match take_char (char_of 58) s2 ≫= take_range 2 0 59 with
          | Some (mm, "") =>
              let off := (hr * 60 + mm) * 60 in
              Some (if Ascii.eqb sign minus_char then - off else off)
          | _ => None
          end
      | None => None
      end
  | EmptyString => None
  end.

Definition parse_rfc3339 (s : string) : option Z :=
  '(y, s) ← take_range 4 0 9999 s;
  s ← take_char (char_of 45) s;
  '(mo, s) ← take_range 2 1 12 s;
  s ← take_char (char_of 45) s;
  '(d, s) ← take_range 2 1 (days_in mo y) s;
  s ← take_char (char_of 84) s;
  '(h, s) ← take_range 2 0 23 s;
  s ← take_char (char_of 58) s;
  '(mi, s) ← take_range 2 0 59 s;
  s ← take_char (char_of 58) s;
  '(sec, s) ← take_range 2 0 59 s;
  let '(ns, s) := take_fraction s in
  off ← take_zone s;
  Some ((days_from_civil (mk_civil y mo d) * 86400 + h * 3600 + mi * 60 + sec - off) * second + ns).

Example parse_offset :
  parse_rfc3339 "2000-02-29T12:34:56.12+01:00" = Some (951824096 * second + 120000000).
Proof. reflexivity. Qed.
Example parse_rejects : parse_rfc3339 "1999-02-29T12:34:56Z" = None.
Proof. reflexivity. Qed.

Lemma take_digits_digits w j n acc rest :
  0 <= n < 10 ^ Z.of_nat w →
  take_digits (w + j) acc (digits w n +:+ rest) =
  take_digits j (acc * 10 ^ Z.of_nat w + n) rest.
Proof.
  revert j n acc rest. induction w as [|w IH]; intros j n acc rest Hn.
  { change (digits 0 n +:+ rest) with rest. cbn in *. f_equal. lia. }
  rewrite Nat2Z.inj_succ, Z.pow_succ_r in Hn by lia.
  cbn [digits]. rewrite app_assoc_s, app_cons_s.
  replace (S w + j)%nat with (w + S j)%nat by lia.
  rewrite IH by (split; [apply Z.div_pos|apply Z.div_lt_upper_bound]; lia).
  cbn [take_digits]. rewrite digit_value_digit by (apply Z.mod_pos_bound; lia).
  f_equal. rewrite Nat2Z.inj_succ, Z.pow_succ_r by lia.
  pose proof (Z.div_mod n 10). lia.
Qed.

Lemma take_range_digits w lo hi n rest :
  0 <= n < 10 ^ Z.of_nat w → lo <= n <= hi →
  take_range w lo hi (digits w n +:+ rest) = Some (n, rest).
Proof.
  intros Hn Hr. unfold take_range, in_range.
  replace (take_digits w) with (take_digits (w + 0)) by (f_equal; lia).
  rewrite take_digits_digits by done. cbn [take_digits]. rewrite Z.mul_0_l, Z.add_0_l.
  by rewrite (proj2 (Z.leb_le lo n)), (proj2 (Z.leb_le n hi)) by lia.
Qed.

Lemma days_in_month m y : 28 <= days_in m y <= 31.
Proof. unfold days_in. destruct (is_leap y); repeat case_match; lia. Qed.

(** The day of the month never exceeds the length of the month. *)
Lemma civil_day_in_month n : c_day (civil n) <= days_in (c_month (civil n)) (c_year (civil n)).
Proof.
  unfold civil. pose proof (march_year_spec (n + 719468)) as Hy.
  pose proof (days_before_step (march_year (n + 719468))) as Hs.
  set (y := march_year (n + 719468)) in *. set (z := n + 719468) in *. clearbody y z.
  assert (days_before (y + 1) - days_before y = if is_leap (y + 1) then 366 else 365) as Hl.
  { unfold is_leap, days_before.
    destruct (Z.eqb_spec ((y + 1) mod 4) 0), (Z.eqb_spec ((y + 1) mod 100) 0),
      (Z.eqb_spec ((y + 1) mod 400) 0); cbn [andb orb negb]; div_lia. }
  set (doy := z - days_before y) in *.
  assert (0 <= doy < if is_leap (y + 1) then 366 else 365) as Hd by (unfold doy; lia).
  clearbody doy. clear -Hd.
  assert (0 <= (5 * doy + 2) / 153 <= 11) as Hmp by (destruct (is_leap (y + 1)); div_lia).
  set (mp := (5 * doy + 2) / 153) in *.
  assert (153 * mp <= 5 * doy + 2 < 153 * (mp + 1)) as Hb by (unfold mp; div_lia). clearbody mp.
  assert (doy <= 365) as Hle by (destruct (is_leap (y + 1)); lia).
  destruct (Z.ltb_spec mp 10); cbn [c_day c_month c_year].
  - assert (mp = 0 ∨ mp = 1 ∨ mp = 2 ∨ mp = 3 ∨ mp = 4 ∨ mp = 5 ∨ mp = 6 ∨ mp = 7 ∨ mp = 8 ∨
      mp = 9) as Hc by lia.
    destruct_or! Hc; subst mp;
      first [change (days_in _ y) with 31 | change (days_in _ y) with 30]; div_lia.
  - assert (mp = 10 ∨ mp = 11) as [-> | ->] by lia.
    + change (days_in _ _) with 31. div_lia.
    + change (days_in (11 - 9) (y + 1)) with (if is_leap (y + 1) then 29 else 28).
      destruct (is_leap (y + 1)); div_lia.
Qed.

Lemma days_from_civil_civil n : days_from_civil (civil n) = n.
Proof.
  unfold civil. pose proof (march_year_spec (n + 719468)) as Hy.
  pose proof (days_before_step (march_year (n + 719468))) as Hs.
  set (y := march_year (n + 719468)) in *.
  assert (0 <= (5 * (n + 719468 - days_before y) + 2) / 153 <= 11) as Hmp by div_lia.
  set (mp := (5 * (n + 719468 - days_before y) + 2) / 153) in *. clearbody mp.
  unfold days_from_civil.
  destruct (Z.ltb_spec mp 10); cbn [c_day c_month c_year].
  - rewrite (proj2 (Z.leb_gt (mp + 3) 2)) by lia.
    replace (mp + 3 - 3) with mp by lia. lia.
  - rewrite (proj2 (Z.leb_le (mp - 9) 2)) by lia.
    replace (mp - 9 + 9) with mp by lia. replace (y + 1 - 1) with y by lia. lia.
Qed.

Fixpoint all_digits (s : string) : Prop :=
  match s with
  | EmptyString => True
  | String c s' => (∃ v, digit_value c = Some v) ∧ all_digits s'
  end.

Lemma all_digits_app s t : all_digits s → all_digits t → all_digits (s +:+ t).
Proof. induction s as [|c s IH]; [done|]. rewrite app_cons_s. cbn. naive_solver. Qed.

Lemma all_digits_digits w n : all_digits (digits w n).
Proof.
  revert n. induction w as [|w IH]; intros n; [done|]. cbn [digits].
  apply all_digits_app; [done|]. cbn. split; [|done].
  exists (n mod 10). apply digit_value_digit. apply Z.mod_pos_bound. lia.
Qed.

(** Trailing zeros weigh nothing in a fraction. *)
Lemma scan_fraction_trim k s :
  all_digits s → scan_fraction k (trim_zeros s +:+ "Z") = scan_fraction k (s +:+ "Z").
Proof.
  revert k. induction s as [|x s IH]; intros k; [done|]. intros [[v Hv] Hd]. cbn [trim_zeros].
  destruct (trim_zeros s) as [|y r] eqn:E.
  - assert (scan_fraction (k / 10) (s +:+ "Z") = (0, "Z")) as Hs by (by rewrite <- IH).
    destruct (Ascii.eqb x (digit 0)) eqn:Ex.
    + apply Ascii.eqb_eq in Ex as ->. rewrite app_cons_s. cbn [scan_fraction].
      change (digit_value (digit 0)) with (Some 0). by rewrite Hs.
    + rewrite !app_cons_s. cbn [scan_fraction]. by rewrite Hv, Hs.
  - rewrite !app_cons_s. cbn [scan_fraction]. rewrite Hv.
    by rewrite <- IH, app_cons_s.
Qed.

(** The value of [digits (S w) n] read as a fraction whose last digit weighs [u]. *)
Lemma scan_fraction_digits w u n r a z :
  0 <= n < 10 ^ Z.of_nat (S w) → scan_fraction (u / 10) r = (a, z) →
  scan_fraction (u * 10 ^ Z.of_nat w) (digits (S w) n +:+ r) = (n * u + a, z).
Proof.
  revert u n r a z. induction w as [|w IH]; intros u n r a z Hn Hr.
  { change (digits 1 n +:+ r) with (String (digit (n mod 10)) r).
    change (10 ^ Z.of_nat 0) with 1. cbn in Hn. rewrite Z.mul_1_r, Z.mod_small by lia.
    cbn [scan_fraction]. by rewrite digit_value_digit, Hr by lia. }
  rewrite (Nat2Z.inj_succ (S w)), Z.pow_succ_r in Hn by lia.
  remember (S w) as w' eqn:Hw. cbn [digits]. rewrite app_assoc_s, app_cons_s. subst w'.
  replace (u * 10 ^ Z.of_nat (S w)) with (10 * u * 10 ^ Z.of_nat w)
    by (rewrite Nat2Z.inj_succ, Z.pow_succ_r; lia).
  rewrite (IH _ _ _ (n mod 10 * u + a) z).
  - f_equal. pose proof (Z.div_mod n 10). nia.
  - split; [apply Z.div_pos|apply Z.div_lt_upper_bound]; lia.
  - rewrite Z.mul_comm, Z.div_mul by lia. cbn [scan_fraction].
    rewrite digit_value_digit by (apply Z.mod_pos_bound; lia).
    change ("" +:+ r) with r. by rewrite Hr.
Qed.

Lemma take_fraction_fraction ns :
  0 <= ns < second → take_fraction (fraction ns +:+ "Z") = (ns, "Z").
Proof.
  intros Hns. unfold fraction, second in *. destruct (Z.eqb_spec ns 0) as [->|Hnz]; [done|].
  assert (∀ u, scan_fraction (u * 10 ^ Z.of_nat 8) (digits 9 ns +:+ "Z") = (ns * u, "Z")) as Hv.
  { intros u. rewrite (scan_fraction_digits 8 u ns "Z" 0 "Z"); [f_equal; lia| |done].
    change (10 ^ Z.of_nat 9) with 1000000000. lia. }
  destruct (digits_head 8 ns) as (v & s & Hvr & Ed).
  { change (10 ^ Z.of_nat 9) with 1000000000. lia. }
  assert (∃ r, trim_zeros (digits 9 ns) = String (digit v) r) as [r Er].
  { rewrite Ed. cbn [trim_zeros]. destruct (trim_zeros s) as [|y r] eqn:E; [|by eexists].
    destruct (Ascii.eqb (digit v) (digit 0)) eqn:Ex; [|by eexists].
    exfalso. apply Hnz. specialize (Hv 1). rewrite <- scan_fraction_trim, Ed in Hv by apply all_digits_digits.
    cbn [trim_zeros] in Hv. rewrite E, Ex in Hv. cbn in Hv. injection Hv as Hv. lia. }
  rewrite app_assoc_s. change ("." +:+ (trim_zeros (digits 9 ns) +:+ "Z"))
    with (String (char_of 46) (trim_zeros (digits 9 ns) +:+ "Z")).
  specialize (Hv 1). rewrite <- scan_fraction_trim in Hv by apply all_digits_digits.
  rewrite Er, app_cons_s in *. cbn [take_fraction].
  rewrite digit_value_digit by done. change (Ascii.eqb (char_of 46) (char_of 46)) with true.
  cbn [andb is_Some_b]. rewrite Z.mul_1_l, Z.mul_1_r in Hv. exact Hv.
Qed.

Lemma take_char_app c rest : take_char c (String c "" +:+ rest) = Some rest.
Proof. rewrite app_cons_s. cbn [take_char]. by rewrite Ascii.eqb_refl. Qed.

(** Every stored instant is read back exactly. *)
Lemma parse_rfc3339nano t : representable t → parse_rfc3339 (rfc3339nano t) = Some t.
Proof.
  intros Ht%representable_seconds. unfold rfc3339nano, stamp, parse_rfc3339.
  set (s := t / second) in *. set (n := s / 86400). set (r := s mod 86400).
  assert (0 <= r < 86400) as Hr by (apply Z.mod_pos_bound; lia).
  pose proof (civil_year_bounds s Ht) as Hy. pose proof (civil_bounds n) as [Hm Hd].
  pose proof (civil_day_in_month n) as Hdm. fold n in Hy.
  rewrite !app_assoc_s.
  repeat (rewrite take_range_digits by (first [lia|simpl; div_lia|div_lia]);
          cbn [mbind option_bind]; try (rewrite take_char_app; cbn [mbind option_bind])).
  rewrite take_fraction_fraction by (apply Z.mod_pos_bound; done).
  change (take_zone "Z") with (Some 0). cbn [mbind option_bind]. f_equal.
  assert (days_from_civil (mk_civil (c_year (civil n)) (c_month (civil n)) (c_day (civil n))) = n)
    as ->.
  { rewrite <- (days_from_civil_civil n) at 4. by destruct (civil n). }
  transitivity (s * second + t mod second).
  - do 2 f_equal. unfold n, r. div_lia.
  - pose proof (Z.div_mod t second). unfold s, second in *. lia.
Qed.

(** A stored instant is never the empty text, which stands for no instant. *)
Lemma rfc3339nano_nonempty t : rfc3339nano t ≠ "".
Proof.
  intros E. apply (f_equal String.length) in E. unfold rfc3339nano in E.
  rewrite !length_app_s in E. simpl in E. lia.
Qed.
