(* ===== verification/Redact.v ===== *)
(** * Redaction of errors

    internal/controlplane/redact.go: what Center and Agent do to the text of an error
    before it is stored or sent.  The regular expressions are values of [regex] with the
    leftmost-first semantics of package regexp, written as the list of the ways to match
    in the order of preference.  Texts are bytes: every class of the patterns contains
    either all bytes above 127 or none, so that runes need not be decoded. *)
From Stdlib Require Import Ascii.
From S2P Require Import Prelude GoText.

(** ** Regular expressions *)
Module Regexp.

(** [Many lazy min f] is [f{min,}], or [f{min,}?]; [Boundary] is [\b]. *)
Inductive regex :=
| Empty
| Chars (f : nat → bool)
| Many (lazy : bool) (min : nat) (f : nat → bool)
| Cat (a b : regex)
| Alt (a b : regex)
| Boundary.

(** A position in a text: the bytes before it, the last one first, and those after it. *)
Definition position : Type := list nat * list nat.

Definition word (c : nat) : bool :=
  (Nat.leb 65 c && Nat.leb c 90) || (Nat.leb 97 c && Nat.leb c 122) || (Nat.leb 48 c && Nat.leb c 57) || Nat.eqb c 95.

Definition word_at (l : list nat) : bool := match l with c :: _ => word c | [] => false end.
Definition boundary (z : position) : bool := xorb (word_at (fst z)) (word_at (snd z)).

(** The ends of [f*] from a position, the shortest first. *)
Fixpoint many_ends (f : nat → bool) (before after : list nat) : list position :=
  (before, after) ::
  match after with
  | c :: after' => if f c then many_ends f (c :: before) after' else []
  | [] => []
  end.

(** The ends of the matches from a position, the preferred one first. *)
Fixpoint run (r : regex) (z : position) : list position :=
  match r with
  | Empty => [z]
  | Chars f => match snd z with c :: a => if f c then [(c :: fst z, a)] else [] | [] => [] end
  | Many lazy min f =>
      let ends := drop min (many_ends f (fst z) (snd z)) in
      if lazy then ends else reverse ends
  | Cat a b => flat_map (run b) (run a z)
  | Alt a b => run a z ++ run b z
  | Boundary => if boundary z then [z] else []
  end.

(** A pattern [(keep)drop]. *)
Record pattern := mk_pattern { pt_keep : regex; pt_drop : regex }.

(** The match that begins at a position: the end of its group and of the whole. *)
Definition match_at (p : pattern) (z : position) : option (position * position) :=
  head (flat_map (λ k, map (pair k) (run (pt_drop p) k)) (run (pt_keep p) z)).

(** The text between two positions. *)
Definition between (z k : position) : list nat :=
  reverse (take (length (fst k) - length (fst z)) (fst k)).

Definition mark : list nat := bytes_of "[redacted]".

(** [pattern.ReplaceAllString(value, "${1}[redacted]")]: a match consumes at least one
    byte, so that the length of the text and one more round suffice. *)
Fixpoint replace_from (fuel : nat) (p : pattern) (z : position) : list nat :=
  match fuel with
  | O => snd z
  | S n =>
      match match_at p z with
      | Some (k, d) => between z k ++ mark ++ replace_from n p d
      | None => match snd z with
                | c :: a => c :: replace_from n p (c :: fst z, a)
                | [] => []
                end
      end
  end.

Definition replace_all (p : pattern) (l : list nat) : list nat := replace_from (S (length l)) p ([], l).

(** ** The patterns *)

Definition is_char (c : ascii) (b : nat) : bool := Nat.eqb b (nat_of_ascii c).
Definition one_of (s : string) (b : nat) : bool := existsb (Nat.eqb b) (bytes_of s).
(** [\s]. *)
Definition blank (b : nat) : bool := existsb (Nat.eqb b) [9; 10; 12; 13; 32]%nat.
Definition none_of (s : string) (b : nat) : bool := negb (one_of s b || blank b).
Definition optional (r : regex) : regex := Alt r Empty.

(** A letter under [(?i)]: the long s and the Kelvin sign fold to ASCII letters. *)
Definition folded (c : ascii) : regex :=
  let letter := Chars (λ b, Nat.eqb (fold_ascii b) (nat_of_ascii c)) in
  if Ascii.eqb c "s" then Alt letter (Cat (Chars (Nat.eqb 197)) (Chars (Nat.eqb 191)))
  else if Ascii.eqb c "k" then Alt letter (Cat (Chars (Nat.eqb 226)) (Cat (Chars (Nat.eqb 132)) (Chars (Nat.eqb 170))))
  else letter.

Fixpoint text_fold (s : string) (rest : regex) : regex :=
  match s with "" => rest | String c s' => Cat (folded c) (text_fold s' rest) end.
Fixpoint text (s : string) (rest : regex) : regex :=
  match s with "" => rest | String c s' => Cat (Chars (is_char c)) (text s' rest) end.

Definition quote_char : ascii := ascii_of_nat 34.
Definition quote : regex := optional (Chars (λ b, Nat.eqb b 34 || Nat.eqb b 39)).
Definition joined : regex := optional (Chars (one_of "_ -")).

Definition bearer_pattern : pattern :=
  mk_pattern
    (text_fold "authorization" (Cat (Many false 0 blank) (Cat (Chars (is_char ":"))
       (Cat (Many false 0 blank) (text_fold "bearer" (Many false 1 blank))))))
    (Many false 1 (none_of "")).

Definition secret_names : regex :=
  Alt (text_fold "access" (Cat joined (text_fold "token" Empty)))
  (Alt (text_fold "auth" (Cat joined (text_fold "key" Empty)))
  (Alt (text_fold "api" (Cat joined (text_fold "key" Empty)))
  (Alt (text_fold "credential" Empty)
  (Alt (text_fold "token" Empty)
  (Alt (text_fold "password" Empty)
  (Alt (text_fold "secret" Empty)
  (Alt (text_fold "private" (Cat joined (text_fold "key" Empty)))
  (Alt (text_fold "session" Empty)
       (text_fold "cookie" Empty))))))))).

Definition named_pattern : pattern :=
  mk_pattern
    (Cat quote (Cat secret_names (Cat quote (Cat (Many false 0 blank) (Cat (Chars (one_of ":="))
       (Cat (Many false 0 blank) quote))))))
    (Many false 1 (none_of (String quote_char "',};"))).

Definition userinfo_pattern : pattern :=
  mk_pattern (text_fold "http" (Cat (optional (folded "s")) (text "://" Empty)))
    (Cat (Many false 1 (none_of "/@")) (Chars (is_char "@"))).

Definition query_pattern : pattern :=
  mk_pattern (Cat (Chars (one_of "?&")) (Cat (Many false 1 (none_of "=&")) (Chars (is_char "="))))
    (Many false 1 (none_of "&")).

Definition pem_pattern : pattern :=
  mk_pattern Empty
    (text "-----BEGIN " (Cat (Many false 1 (λ b, negb (is_char "-" b))) (text "-----"
      (Cat (Many true 0 (λ b, negb (Nat.eqb b 10)))
        (text "-----END " (Cat (Many false 1 (λ b, negb (is_char "-" b))) (text "-----" Empty))))))).

Definition token_char (b : nat) : bool := word b || is_char "-" b.
Definition token_pattern : pattern :=
  mk_pattern Empty (Cat Boundary (Cat (Many false 32 token_char) Boundary)).

Definition controlPlaneSecretPatterns : list pattern :=
  [bearer_pattern; named_pattern; userinfo_pattern; query_pattern; pem_pattern; token_pattern].

(** ** [SafeError] *)

(** [strings.Fields]; [cur] is the field that was begun, reversed. *)
Fixpoint split_fields (fuel : nat) (cur l : list nat) : list (list nat) :=
  let close rest := match cur with [] => rest | _ => reverse cur :: rest end in
  match fuel with
  | O => close []
  | S n =>
      match strip_any space_seqs l with
      | Some r => close (split_fields n [] r)
      | None => match l with c :: l' => split_fields n (c :: cur) l' | [] => close [] end
      end
  end.

Definition fields (l : list nat) : list (list nat) := split_fields (S (length l)) [] l.

(** [strings.Join(_, " ")]. *)
Fixpoint join_fields (l : list (list nat)) : list nat :=
  match l with
  | [] => []
  | [x] => x
  | x :: l' => x ++ 32%nat :: join_fields l'
  end.

Definition redact (l : list nat) : list nat :=
  fold_left (λ v p, replace_all p v) controlPlaneSecretPatterns l.

End Regexp.

Definition SafeError (value : string) : string :=
  let v := Regexp.redact (Regexp.join_fields (Regexp.fields (bytes_of (trim_space value)))) in
  string_of_bytes (take 512 v).

#[global] Opaque SafeError.
