(* ===== verification/TaskIds.v ===== *)
(** * Identifiers of revisioned tasks

    A desired-state task is named after its node and revision
    ([landing-proxy-<node>-r<revision>] and the like), and the revision is read
    back from the name: landing_proxy_tasks.go, landing_server.go,
    node_listeners.go, orchestration.go, tunnel.go and deployment_tasks.go. *)
From S2P Require Import Prelude GoText.

(** [strings.LastIndex] of a two-character marker: the text before the last
    occurrence and the text after it. *)
Fixpoint split_last (m1 m2 : Ascii.ascii) (s : string) : option (string * string) :=
  match s with
  | EmptyString => None
  | String c s' =>
      match split_last m1 m2 s' with
      | Some (a, b) => Some (String c a, b)
      | None =>
          match s' with
          | String d s'' => if Ascii.eqb c m1 && Ascii.eqb d m2 then Some ("", s'') else None
          | EmptyString => None
          end
      end
  end.

Definition char_r : Ascii.ascii := Ascii.ascii_of_nat 114.
Definition char_g : Ascii.ascii := Ascii.ascii_of_nat 103.

(** [fmt.Sprintf("<prefix>%s-<m>%d", node, revision)]. *)
Definition task_id (prefix : string) (m : Ascii.ascii) (nodeID : string) (revision : Z) : string :=
  prefix +:+ nodeID +:+ String minus_char (String m (decimal revision)).

(** The inverse.  [strict] is the comparison [<=] of the marker's position with
    the length of the prefix; without it the comparison is [<]. *)
Definition task_revision (prefix : string) (m : Ascii.ascii) (strict : bool) (id : string)
    : option Z :=
  match split_last minus_char m id with
  | None => None
  | Some (before, after) =>
      if negb (has_prefix prefix id)
         || (if strict then str_len before <=? str_len prefix else str_len before <? str_len prefix)
      then None
      else match parse_int64 after with
           | Some r => if 0 <? r then Some r else None
           | None => None
           end
  end.

Definition landingProxyTaskID : string → Z → string := task_id "landing-proxy-" char_r.
Definition landingProxyTaskRevision : string → option Z :=
  task_revision "landing-proxy-" char_r true.
Definition landingServerTaskID : string → Z → string := task_id "landing-server-" char_r.
Definition landingServerTaskRevision : string → option Z :=
  task_revision "landing-server-" char_r true.
Definition nodeListenerTaskID : string → Z → string := task_id "node-listener-" char_r.
Definition nodeListenerTaskRevision : string → option Z :=
  task_revision "node-listener-" char_r false.
Definition gatewayRouteTaskID : string → Z → string := task_id "gateway-route-" char_r.
Definition gatewayTaskRevision : string → option Z := task_revision "gateway-route-" char_r false.
Definition tunnelTaskID : string → Z → string := task_id "tunnel-" char_r.
Definition tunnelTaskRevision : string → option Z := task_revision "tunnel-" char_r true.
Definition gatewayComponentTaskID : string → Z → string := task_id "gateway-component-" char_g.
Definition gatewayComponentTaskGeneration : string → option Z :=
  task_revision "gateway-component-" char_g false.

Example landing_id_example :
  landingProxyTaskID "edge-r1" 42 = "landing-proxy-edge-r1-r42" ∧
  landingProxyTaskRevision "landing-proxy-edge-r1-r42" = Some 42 ∧
  landingProxyTaskRevision "landing-proxy-r7" = None.
Proof. repeat split. Qed.

(** ** Reading an identifier back *)
Lemma split_last_app m1 m2 a s x y :
  split_last m1 m2 s = Some (x, y) → split_last m1 m2 (a +:+ s) = Some (a +:+ x, y).
Proof.
  intros H. induction a as [|c a IH]; [done|]. rewrite !app_cons_s. cbn [split_last].
  by rewrite IH.
Qed.

(** No digit is a marker character. *)
Lemma split_last_digits m s :
  (∃ w n, s = digits w n) → split_last minus_char m s = None.
Proof.
  intros (w & n & ->).
  enough (∀ s, (∀ c, c ∈ String.list_ascii_of_string s → ∃ v, 0 <= v < 10 ∧ c = digit v) →
    split_last minus_char m s = None) as H.
  { apply H. clear. revert n. induction w as [|w IH]; intros n c Hc; [by apply not_elem_of_nil in Hc|].
    cbn [digits] in Hc. revert Hc.
    assert (∀ a b, String.list_ascii_of_string (a +:+ b) =
      String.list_ascii_of_string a ++ String.list_ascii_of_string b) as Happ.
    { intros a b. induction a as [|x a IHa]; [done|]. rewrite app_cons_s. cbn. by rewrite IHa. }
    rewrite Happ, elem_of_app. intros [Hc|Hc]; [by apply IH in Hc|].
    cbn in Hc. apply list_elem_of_singleton in Hc as ->.
    exists (n mod 10). split; [apply Z.mod_pos_bound; lia|done]. }
  clear. induction s as [|c s IH]; intros Hs; [done|]. cbn [split_last].
  rewrite IH by (intros d Hd; apply Hs; by right). destruct s as [|d s]; [done|].
  destruct (Hs c) as (v & Hv & ->); [by left|].
  destruct (digit_not_sign v Hv) as [-> _]. done.
Qed.

Lemma str_len_app a b : str_len (a +:+ b) = str_len a + str_len b.
Proof.
  unfold str_len. induction a as [|c a IH]; [done|]. rewrite app_cons_s. cbn [String.length].
  lia.
Qed.

Lemma task_revision_task_id prefix m strict node r :
  Ascii.eqb m minus_char = false → (strict = true → node ≠ "") → 0 < r <= int64_max →
  task_revision prefix m strict (task_id prefix m node r) = Some r.
Proof.
  intros Hm Hnode Hr. unfold task_revision, task_id.
  assert (split_last minus_char m (prefix +:+ node +:+ String minus_char (String m (decimal r))) =
    Some (prefix +:+ node, decimal r)) as ->.
  { rewrite <- app_assoc_s. erewrite split_last_app; [by rewrite app_nil_s|].
    rewrite decimal_digits by lia. cbn [split_last].
    rewrite (split_last_digits m (digits _ _)) by eauto.
    rewrite !Ascii.eqb_refl. cbn [andb]. rewrite Hm.
    by destruct (digits (ndigits 20 r) r) eqn:E. }
  rewrite has_prefix_app. cbn [negb orb].
  assert ((if strict then str_len (prefix +:+ node) <=? str_len prefix
           else str_len (prefix +:+ node) <? str_len prefix) = false) as ->.
  { rewrite str_len_app. destruct strict.
    - apply Z.leb_gt. destruct node as [|c node]; [by destruct Hnode|]. unfold str_len. cbn. lia.
    - apply Z.ltb_ge. unfold str_len. lia. }
  rewrite parse_int64_decimal by lia. by rewrite (proj2 (Z.ltb_lt 0 r)) by lia.
Qed.

(** Task identifiers round trip: for every non-empty node name and every
    positive int64 revision, each family of desired-state task identifiers is
    read back to the revision it was formatted with. *)
Theorem task_ids_round_trip (node : string) (r : Z) :
  node ≠ "" → 0 < r <= int64_max →
  landingProxyTaskRevision (landingProxyTaskID node r) = Some r ∧
  landingServerTaskRevision (landingServerTaskID node r) = Some r ∧
  nodeListenerTaskRevision (nodeListenerTaskID node r) = Some r ∧
  gatewayTaskRevision (gatewayRouteTaskID node r) = Some r ∧
  tunnelTaskRevision (tunnelTaskID node r) = Some r ∧
  gatewayComponentTaskGeneration (gatewayComponentTaskID node r) = Some r.
Proof. intros Hn Hr. repeat split; by apply task_revision_task_id. Qed.

Lemma task_ids_round_trip_witness :
  landingProxyTaskRevision (landingProxyTaskID "edge-r1" 9223372036854775807)
  = Some 9223372036854775807.
Proof. apply (task_ids_round_trip "edge-r1" 9223372036854775807); [done|unfold int64_max; lia]. Defined.
