(* ===== verification/Store.v ===== *)
(** * The Center database

    The tables of the Center's SQLite database that the execution protocol
    reads and writes, the row types of internal/center/execution.go
    ([executionSchemaSQL]) and of the business task tables, and the small
    state-and-error monad in which the operations are written.  A table is the
    list of its rows in rowid order; SQLite's own failures (disk, lock) are not
    modelled.  A transaction whose operation returns an error is rolled back. *)
From S2P Require Import Prelude GoTime.

(** ** task_executions and its audit trigger *)
Inductive exec_state := Offered | Running | HelperRunning | Succeeded | Failed | Unknown.

#[global] Instance exec_state_eq_dec : EqDecision exec_state.
Proof. solve_decision. Defined.

Definition state_eqb (a b : exec_state) : bool := bool_decide (a = b).
Definition state_in (a : exec_state) (l : list exec_state) : bool := existsb (state_eqb a) l.

Lemma state_in_spec a l : state_in a l = true ↔ a ∈ l.
Proof.
  unfold state_in, state_eqb. rewrite existsb_exists. setoid_rewrite list_elem_of_In.
  split.
  - intros (x & Hx & ->%bool_decide_eq_true). done.
  - intros H. exists a. by rewrite bool_decide_eq_true.
Qed.

Record task_execution := mk_execution {
  te_id : string;
  te_agent_id : string;
  te_task_id : string;
  te_kind : string;
  te_attempt : Z;
  te_session_id : string;
  te_digest : string;
  te_sealed_task : string;
  te_sealed_result : string;
  te_state : exec_state;
  te_phase : string;
  te_last_error : string;
  te_expires_at : string;
  te_created_at : string;
  te_updated_at : string;
  te_disposition : string;
  te_disposition_note : string;
  te_disposition_actor : string;
  te_disposed_at : string;
  te_identity_retired_at : string
}.

#[global] Instance task_execution_eq_dec : EqDecision task_execution.
Proof. solve_decision. Defined.

(** Column assignments, one per [SET] list of the sources. *)
Definition set_state (s : exec_state) (r : task_execution) : task_execution :=
  {| te_id := te_id r; te_agent_id := te_agent_id r; te_task_id := te_task_id r; te_kind :=
     te_kind r; te_attempt := te_attempt r; te_session_id := te_session_id r; te_digest :=
     te_digest r; te_sealed_task := te_sealed_task r; te_sealed_result := te_sealed_result r;
     te_state := s; te_phase := te_phase r; te_last_error := te_last_error r; te_expires_at :=
     te_expires_at r; te_created_at := te_created_at r; te_updated_at := te_updated_at r;
     te_disposition := te_disposition r; te_disposition_note := te_disposition_note r;
     te_disposition_actor := te_disposition_actor r; te_disposed_at := te_disposed_at r;
     te_identity_retired_at := te_identity_retired_at r |}.

Definition set_phase (p : string) (r : task_execution) : task_execution :=
  {| te_id := te_id r; te_agent_id := te_agent_id r; te_task_id := te_task_id r; te_kind :=
     te_kind r; te_attempt := te_attempt r; te_session_id := te_session_id r; te_digest :=
     te_digest r; te_sealed_task := te_sealed_task r; te_sealed_result := te_sealed_result r;
     te_state := te_state r; te_phase := p; te_last_error := te_last_error r; te_expires_at :=
     te_expires_at r; te_created_at := te_created_at r; te_updated_at := te_updated_at r;
     te_disposition := te_disposition r; te_disposition_note := te_disposition_note r;
     te_disposition_actor := te_disposition_actor r; te_disposed_at := te_disposed_at r;
     te_identity_retired_at := te_identity_retired_at r |}.

Definition set_last_error (e : string) (r : task_execution) : task_execution :=
  {| te_id := te_id r; te_agent_id := te_agent_id r; te_task_id := te_task_id r; te_kind :=
     te_kind r; te_attempt := te_attempt r; te_session_id := te_session_id r; te_digest :=
     te_digest r; te_sealed_task := te_sealed_task r; te_sealed_result := te_sealed_result r;
     te_state := te_state r; te_phase := te_phase r; te_last_error := e; te_expires_at :=
     te_expires_at r; te_created_at := te_created_at r; te_updated_at := te_updated_at r;
     te_disposition := te_disposition r; te_disposition_note := te_disposition_note r;
     te_disposition_actor := te_disposition_actor r; te_disposed_at := te_disposed_at r;
     te_identity_retired_at := te_identity_retired_at r |}.

Definition set_expires_at (t : string) (r : task_execution) : task_execution :=
  {| te_id := te_id r; te_agent_id := te_agent_id r; te_task_id := te_task_id r; te_kind :=
     te_kind r; te_attempt := te_attempt r; te_session_id := te_session_id r; te_digest :=
     te_digest r; te_sealed_task := te_sealed_task r; te_sealed_result := te_sealed_result r;
     te_state := te_state r; te_phase := te_phase r; te_last_error := te_last_error r;
     te_expires_at := t; te_created_at := te_created_at r; te_updated_at := te_updated_at r;
     te_disposition := te_disposition r; te_disposition_note := te_disposition_note r;
     te_disposition_actor := te_disposition_actor r; te_disposed_at := te_disposed_at r;
     te_identity_retired_at := te_identity_retired_at r |}.

Definition set_updated_at (t : string) (r : task_execution) : task_execution :=
  {| te_id := te_id r; te_agent_id := te_agent_id r; te_task_id := te_task_id r; te_kind :=
     te_kind r; te_attempt := te_attempt r; te_session_id := te_session_id r; te_digest :=
     te_digest r; te_sealed_task := te_sealed_task r; te_sealed_result := te_sealed_result r;
     te_state := te_state r; te_phase := te_phase r; te_last_error := te_last_error r;
     te_expires_at := te_expires_at r; te_created_at := te_created_at r; te_updated_at := t;
     te_disposition := te_disposition r; te_disposition_note := te_disposition_note r;
     te_disposition_actor := te_disposition_actor r; te_disposed_at := te_disposed_at r;
     te_identity_retired_at := te_identity_retired_at r |}.

Definition set_sealed_result (b : string) (r : task_execution) : task_execution :=
  {| te_id := te_id r; te_agent_id := te_agent_id r; te_task_id := te_task_id r; te_kind :=
     te_kind r; te_attempt := te_attempt r; te_session_id := te_session_id r; te_digest :=
     te_digest r; te_sealed_task := te_sealed_task r; te_sealed_result := b; te_state :=
     te_state r; te_phase := te_phase r; te_last_error := te_last_error r; te_expires_at :=
     te_expires_at r; te_created_at := te_created_at r; te_updated_at := te_updated_at r;
     te_disposition := te_disposition r; te_disposition_note := te_disposition_note r;
     te_disposition_actor := te_disposition_actor r; te_disposed_at := te_disposed_at r;
     te_identity_retired_at := te_identity_retired_at r |}.

Definition set_disposition (action note actor stamp : string) (r : task_execution) : task_execution :=
  {| te_id := te_id r; te_agent_id := te_agent_id r; te_task_id := te_task_id r; te_kind :=
     te_kind r; te_attempt := te_attempt r; te_session_id := te_session_id r; te_digest :=
     te_digest r; te_sealed_task := te_sealed_task r; te_sealed_result := te_sealed_result r;
     te_state := te_state r; te_phase := te_phase r; te_last_error := te_last_error r;
     te_expires_at := te_expires_at r; te_created_at := te_created_at r; te_updated_at :=
     te_updated_at r; te_disposition := action; te_disposition_note := note;
     te_disposition_actor := actor; te_disposed_at := stamp; te_identity_retired_at :=
     te_identity_retired_at r |}.

Definition set_identity_retired_at (t : string) (r : task_execution) : task_execution :=
  {| te_id := te_id r; te_agent_id := te_agent_id r; te_task_id := te_task_id r; te_kind :=
     te_kind r; te_attempt := te_attempt r; te_session_id := te_session_id r; te_digest :=
     te_digest r; te_sealed_task := te_sealed_task r; te_sealed_result := te_sealed_result r;
     te_state := te_state r; te_phase := te_phase r; te_last_error := te_last_error r;
     te_expires_at := te_expires_at r; te_created_at := te_created_at r; te_updated_at :=
     te_updated_at r; te_disposition := te_disposition r; te_disposition_note :=
     te_disposition_note r; te_disposition_actor := te_disposition_actor r; te_disposed_at :=
     te_disposed_at r; te_identity_retired_at := t |}.

Record execution_event := mk_event {
  ev_execution_id : string;
  ev_phase : string;
  ev_state : exec_state;
  ev_actor : string;
  ev_created_at : string
}.

(** Trigger [execution_insert_audit]. *)
Definition execution_insert_audit (new : task_execution) : execution_event :=
  mk_event (te_id new) (te_phase new) (te_state new) (te_agent_id new) (te_updated_at new).

(** Trigger [execution_update_audit]: fires for a row whose state, phase,
    disposition or retirement stamp changes. *)
Definition execution_update_audit (old new : task_execution) : list execution_event :=
  if negb (state_eqb (te_state old) (te_state new))
     || negb (te_phase old =?s te_phase new)
     || negb (te_disposition old =?s te_disposition new)
     || negb (te_identity_retired_at old =?s te_identity_retired_at new)
  then [mk_event (te_id new) (te_phase new) (te_state new)
          (if negb (te_disposition_actor new =?s "") then te_disposition_actor new
           else te_agent_id new)
          (te_updated_at new)]
  else [].

(** ** Business task tables

    The task tables share the columns the execution protocol uses: an identity
    ([id], or the owning node and revision for the desired-state tables), the
    owning Agent, the attempt, a state and a lease.  A row carries its table
    and the union of these columns; [tr_agent_id] is [agent_id], [node_id] or
    [gateway_node_id], [tr_revision] is [desired_revision], [generation] or
    [revision], [tr_state] is [state] or [status] and [tr_error] is [error] or
    [last_error], as the table names them. *)
Inductive business_table :=
| tailscale_update_tasks
| node_site_tasks
| os_reinstall_tasks
| node_security_tasks
| ip_quality_checks
| node_diagnostic_checks
| xray_configuration_recoveries
| deployments
| application_adoptions
| application_maintenance
| application_commands
| agent_updates
| agent_decommissions
| landing_proxy_states
| landing_server_states
| gateway_states
| gateway_components
| node_listener_states
| cloudflare_tunnels.

#[global] Instance business_table_eq_dec : EqDecision business_table.
Proof. solve_decision. Defined.

Record task_row := mk_task_row {
  tr_table : business_table;
  tr_id : string;
  tr_agent_id : string;
  tr_revision : Z;
  tr_applied_revision : Z;
  tr_attempt : Z;
  tr_state : string;
  tr_lease_expires_at : string;
  tr_error : string;
  tr_updated_at : string;
  tr_reconciliation_required : bool;
  tr_reconciliation_requested : bool;
  tr_application_id : string;
  tr_deployment_id : string;
  tr_kind : string;
  tr_target_version : string;
  tr_callback_token_hash : string;
  tr_encrypted_backup : string;
  tr_sealed_network : string;
  tr_encrypted_access : string;
  tr_backup_digest : string;
  tr_prepared_digest : string;
  tr_gateway_node_id : string;
  tr_created_at : string
}.

Definition set_tr_state (s : string) (r : task_row) : task_row :=
  {| tr_table := tr_table r; tr_id := tr_id r; tr_agent_id := tr_agent_id r; tr_revision :=
     tr_revision r; tr_applied_revision := tr_applied_revision r; tr_attempt := tr_attempt r;
     tr_state := s; tr_lease_expires_at := tr_lease_expires_at r; tr_error := tr_error r;
     tr_updated_at := tr_updated_at r; tr_reconciliation_required := tr_reconciliation_required
     r; tr_reconciliation_requested := tr_reconciliation_requested r; tr_application_id :=
     tr_application_id r; tr_deployment_id := tr_deployment_id r; tr_kind := tr_kind r;
     tr_target_version := tr_target_version r; tr_callback_token_hash := tr_callback_token_hash
     r; tr_encrypted_backup := tr_encrypted_backup r; tr_sealed_network := tr_sealed_network r;
     tr_encrypted_access := tr_encrypted_access r; tr_backup_digest := tr_backup_digest r;
     tr_prepared_digest := tr_prepared_digest r; tr_gateway_node_id := tr_gateway_node_id r;
     tr_created_at := tr_created_at r |}.

Definition set_tr_lease (t : string) (r : task_row) : task_row :=
  {| tr_table := tr_table r; tr_id := tr_id r; tr_agent_id := tr_agent_id r; tr_revision :=
     tr_revision r; tr_applied_revision := tr_applied_revision r; tr_attempt := tr_attempt r;
     tr_state := tr_state r; tr_lease_expires_at := t; tr_error := tr_error r; tr_updated_at :=
     tr_updated_at r; tr_reconciliation_required := tr_reconciliation_required r;
     tr_reconciliation_requested := tr_reconciliation_requested r; tr_application_id :=
     tr_application_id r; tr_deployment_id := tr_deployment_id r; tr_kind := tr_kind r;
     tr_target_version := tr_target_version r; tr_callback_token_hash := tr_callback_token_hash
     r; tr_encrypted_backup := tr_encrypted_backup r; tr_sealed_network := tr_sealed_network r;
     tr_encrypted_access := tr_encrypted_access r; tr_backup_digest := tr_backup_digest r;
     tr_prepared_digest := tr_prepared_digest r; tr_gateway_node_id := tr_gateway_node_id r;
     tr_created_at := tr_created_at r |}.

Definition set_tr_error (e : string) (r : task_row) : task_row :=
  {| tr_table := tr_table r; tr_id := tr_id r; tr_agent_id := tr_agent_id r; tr_revision :=
     tr_revision r; tr_applied_revision := tr_applied_revision r; tr_attempt := tr_attempt r;
     tr_state := tr_state r; tr_lease_expires_at := tr_lease_expires_at r; tr_error := e;
     tr_updated_at := tr_updated_at r; tr_reconciliation_required := tr_reconciliation_required
     r; tr_reconciliation_requested := tr_reconciliation_requested r; tr_application_id :=
     tr_application_id r; tr_deployment_id := tr_deployment_id r; tr_kind := tr_kind r;
     tr_target_version := tr_target_version r; tr_callback_token_hash := tr_callback_token_hash
     r; tr_encrypted_backup := tr_encrypted_backup r; tr_sealed_network := tr_sealed_network r;
     tr_encrypted_access := tr_encrypted_access r; tr_backup_digest := tr_backup_digest r;
     tr_prepared_digest := tr_prepared_digest r; tr_gateway_node_id := tr_gateway_node_id r;
     tr_created_at := tr_created_at r |}.

Definition set_tr_updated (t : string) (r : task_row) : task_row :=
  {| tr_table := tr_table r; tr_id := tr_id r; tr_agent_id := tr_agent_id r; tr_revision :=
     tr_revision r; tr_applied_revision := tr_applied_revision r; tr_attempt := tr_attempt r;
     tr_state := tr_state r; tr_lease_expires_at := tr_lease_expires_at r; tr_error := tr_error
     r; tr_updated_at := t; tr_reconciliation_required := tr_reconciliation_required r;
     tr_reconciliation_requested := tr_reconciliation_requested r; tr_application_id :=
     tr_application_id r; tr_deployment_id := tr_deployment_id r; tr_kind := tr_kind r;
     tr_target_version := tr_target_version r; tr_callback_token_hash := tr_callback_token_hash
     r; tr_encrypted_backup := tr_encrypted_backup r; tr_sealed_network := tr_sealed_network r;
     tr_encrypted_access := tr_encrypted_access r; tr_backup_digest := tr_backup_digest r;
     tr_prepared_digest := tr_prepared_digest r; tr_gateway_node_id := tr_gateway_node_id r;
     tr_created_at := tr_created_at r |}.

Definition set_tr_attempt (n : Z) (r : task_row) : task_row :=
  {| tr_table := tr_table r; tr_id := tr_id r; tr_agent_id := tr_agent_id r; tr_revision :=
     tr_revision r; tr_applied_revision := tr_applied_revision r; tr_attempt := n; tr_state :=
     tr_state r; tr_lease_expires_at := tr_lease_expires_at r; tr_error := tr_error r;
     tr_updated_at := tr_updated_at r; tr_reconciliation_required := tr_reconciliation_required
     r; tr_reconciliation_requested := tr_reconciliation_requested r; tr_application_id :=
     tr_application_id r; tr_deployment_id := tr_deployment_id r; tr_kind := tr_kind r;
     tr_target_version := tr_target_version r; tr_callback_token_hash := tr_callback_token_hash
     r; tr_encrypted_backup := tr_encrypted_backup r; tr_sealed_network := tr_sealed_network r;
     tr_encrypted_access := tr_encrypted_access r; tr_backup_digest := tr_backup_digest r;
     tr_prepared_digest := tr_prepared_digest r; tr_gateway_node_id := tr_gateway_node_id r;
     tr_created_at := tr_created_at r |}.

Definition set_tr_reconciliation (required requested : bool) (r : task_row) : task_row :=
  {| tr_table := tr_table r; tr_id := tr_id r; tr_agent_id := tr_agent_id r; tr_revision :=
     tr_revision r; tr_applied_revision := tr_applied_revision r; tr_attempt := tr_attempt r;
     tr_state := tr_state r; tr_lease_expires_at := tr_lease_expires_at r; tr_error := tr_error
     r; tr_updated_at := tr_updated_at r; tr_reconciliation_required := required;
     tr_reconciliation_requested := requested; tr_application_id := tr_application_id r;
     tr_deployment_id := tr_deployment_id r; tr_kind := tr_kind r; tr_target_version :=
     tr_target_version r; tr_callback_token_hash := tr_callback_token_hash r;
     tr_encrypted_backup := tr_encrypted_backup r; tr_sealed_network := tr_sealed_network r;
     tr_encrypted_access := tr_encrypted_access r; tr_backup_digest := tr_backup_digest r;
     tr_prepared_digest := tr_prepared_digest r; tr_gateway_node_id := tr_gateway_node_id r;
     tr_created_at := tr_created_at r |}.

Definition set_tr_callback (h : string) (r : task_row) : task_row :=
  {| tr_table := tr_table r; tr_id := tr_id r; tr_agent_id := tr_agent_id r; tr_revision :=
     tr_revision r; tr_applied_revision := tr_applied_revision r; tr_attempt := tr_attempt r;
     tr_state := tr_state r; tr_lease_expires_at := tr_lease_expires_at r; tr_error := tr_error
     r; tr_updated_at := tr_updated_at r; tr_reconciliation_required :=
     tr_reconciliation_required r; tr_reconciliation_requested := tr_reconciliation_requested r;
     tr_application_id := tr_application_id r; tr_deployment_id := tr_deployment_id r; tr_kind
     := tr_kind r; tr_target_version := tr_target_version r; tr_callback_token_hash := h;
     tr_encrypted_backup := tr_encrypted_backup r; tr_sealed_network := tr_sealed_network r;
     tr_encrypted_access := tr_encrypted_access r; tr_backup_digest := tr_backup_digest r;
     tr_prepared_digest := tr_prepared_digest r; tr_gateway_node_id := tr_gateway_node_id r;
     tr_created_at := tr_created_at r |}.

(** The recovery artifact of a reinstallation. *)
Definition set_tr_backup (backup access digest network : string) (r : task_row) : task_row :=
  {| tr_table := tr_table r; tr_id := tr_id r; tr_agent_id := tr_agent_id r; tr_revision :=
     tr_revision r; tr_applied_revision := tr_applied_revision r; tr_attempt := tr_attempt r;
     tr_state := tr_state r; tr_lease_expires_at := tr_lease_expires_at r; tr_error := tr_error
     r; tr_updated_at := tr_updated_at r; tr_reconciliation_required :=
     tr_reconciliation_required r; tr_reconciliation_requested := tr_reconciliation_requested r;
     tr_application_id := tr_application_id r; tr_deployment_id := tr_deployment_id r; tr_kind
     := tr_kind r; tr_target_version := tr_target_version r; tr_callback_token_hash :=
     tr_callback_token_hash r; tr_encrypted_backup := backup; tr_sealed_network := network;
     tr_encrypted_access := access; tr_backup_digest := digest; tr_prepared_digest :=
     tr_prepared_digest r; tr_gateway_node_id := tr_gateway_node_id r; tr_created_at :=
     tr_created_at r |}.

Definition set_tr_prepared (d : string) (r : task_row) : task_row :=
  {| tr_table := tr_table r; tr_id := tr_id r; tr_agent_id := tr_agent_id r; tr_revision :=
     tr_revision r; tr_applied_revision := tr_applied_revision r; tr_attempt := tr_attempt r;
     tr_state := tr_state r; tr_lease_expires_at := tr_lease_expires_at r; tr_error := tr_error
     r; tr_updated_at := tr_updated_at r; tr_reconciliation_required :=
     tr_reconciliation_required r; tr_reconciliation_requested := tr_reconciliation_requested r;
     tr_application_id := tr_application_id r; tr_deployment_id := tr_deployment_id r; tr_kind
     := tr_kind r; tr_target_version := tr_target_version r; tr_callback_token_hash :=
     tr_callback_token_hash r; tr_encrypted_backup := tr_encrypted_backup r; tr_sealed_network
     := tr_sealed_network r; tr_encrypted_access := tr_encrypted_access r; tr_backup_digest :=
     tr_backup_digest r; tr_prepared_digest := d; tr_gateway_node_id := tr_gateway_node_id r;
     tr_created_at := tr_created_at r |}.

(** ** Other rows *)
Record agent_row := mk_agent {
  ag_id : string;
  ag_status : string;
  ag_credential_hash : string;
  ag_credential_revoked_at : string;
  ag_version : string;
  ag_last_seen_at : string;
  ag_remote_update_supported : bool;
  ag_name : string;
  ag_runtime_recovery : string;
  ag_public_key : string;                      (* x25519_public_key *)
  ag_operating_system : string;
  ag_architecture : string;
  ag_applied_installations : Z;
  ag_enrolled_at : string;
  ag_site_id : string;
  ag_roles_json : string;
  ag_capabilities_json : string;
  ag_gateway_healthy : bool;
  ag_runtime_generation : Z;
  ag_tailscale_ownership : string;
  ag_public_egress : list string               (* address, bind address, mode, observed at *)
}.

Record application_row := mk_application {
  ap_id : string; ap_status : string; ap_updated_at : string; ap_node_id : string;
  ap_runtime_generation : Z
}.

Record node_site_row := mk_node_site {
  ns_application_id : string; ns_revision : Z; ns_state : string; ns_error : string;
  ns_updated_at : string
}.

Record control_event := mk_control_event {
  ce_paused : bool; ce_actor : string; ce_created_at : string
}.

Record task_event := mk_task_event {
  tv_task_id : string; tv_agent_id : string; tv_kind : string; tv_revision : Z;
  tv_event : string; tv_message : string; tv_created_at : string
}.

(** Rows of the tables that mirror the state of a task: [routes], keyed by the
    gateway node, [three_x_ui_nodes], keyed by the worker application, and
    [application_resources], keyed by the application. *)
Inductive side_table := routes | three_x_ui_nodes | application_resources.

#[global] Instance side_table_eq_dec : EqDecision side_table.
Proof. solve_decision. Defined.

Record side_row := mk_side {
  sd_table : side_table; sd_key : string; sd_revision : Z; sd_status : string; sd_error : string;
  sd_updated_at : string
}.

(** [agent_reinstall_operations]: the replacement of the machine of an Agent. *)
Record reinstall_row := mk_reinstall {
  ro_id : string;
  ro_agent_id : string;
  ro_authorized_by : string;
  ro_plan_revision : string;
  ro_plan_json : string;
  ro_previous_fingerprint : string;
  ro_replacement_fingerprint : string;
  ro_private_identity_json : string;
  ro_private_isolation : string;
  ro_attempt : Z;
  ro_state : string;
  ro_enrollment_token_hash : option string;
  ro_sealed_enrollment : option string;
  ro_last_error : string;
  ro_created_at : string;
  ro_updated_at : string
}.

(** The tables of the enrolment of machines.  A BLOB is the text of its bytes. *)
Record token_row := mk_token {                 (* agent_enrollment_tokens *)
  tk_hash : string;
  tk_site_id : string;
  tk_name : string;
  tk_center_url : string;
  tk_roles_json : string;
  tk_capabilities_json : string;
  tk_bootstrap_secret_id : option string;
  tk_ca_fingerprint : string;
  tk_ca_certificate_pem : string;
  tk_target_agent_id : option string;
  tk_expires_at : string;
  tk_used_at : option string
}.

Record enrollment_row := mk_enrollment_row {   (* agent_enrollment_operations *)
  eo_token_hash : string;
  eo_operation_id : string;
  eo_request_hash : string;
  eo_agent_id : string;
  eo_response_secret_id : string;
  eo_expires_at : string;
  eo_created_at : string
}.

Record sealed_row := mk_sealed { sl_id : string; sl_sealed : string }.   (* secrets *)

Record Registry := mk_registry {
  rg_tokens : list token_row;
  rg_operations : list enrollment_row;
  rg_secrets : list sealed_row;
  rg_sites : gset string;                      (* the active sites *)
  rg_removals : gset string;                   (* agent_removals: the agents *)
  rg_candidates : list (string * string);      (* agent_network_candidates: agent, address *)
  rg_peers : gmap string (string * string);    (* agent_private_peer_capabilities: key, address *)
  rg_profiles : gmap string (option string);   (* agent_network_profiles: the profile as JSON, when
                                                  the row decodes *)
  rg_profile_recoveries : gmap string (string * string)   (* public key, profile JSON *)
}.

(** ** The database *)
Record Store := mk_store {
  agents : list agent_row;
  admins : gset string;
  sessions : gmap string string;               (* agent_execution_sessions: agent, session *)
  session_history : gset (string * string);    (* agent_execution_session_history *)
  executions : list task_execution;
  execution_events : list execution_event;
  claim_control : option string;               (* settings['execution_claim_control'] *)
  claim_control_events : list control_event;
  tasks : list task_row;
  task_events : list task_event;
  applications : list application_row;
  node_sites : list node_site_row;
  reinstall_operations : list reinstall_row;
  update_recoveries : gmap string string;      (* settings['agent-update-recovery:<id>'] *)
  side_rows : list side_row;
  registry : Registry
}.

Definition with_sessions (m : gmap string string) (st : Store) : Store :=
  {| agents := agents st; admins := admins st; sessions := m; session_history := session_history
     st; executions := executions st; execution_events := execution_events st; claim_control :=
     claim_control st; claim_control_events := claim_control_events st; tasks := tasks st;
     task_events := task_events st; applications := applications st; node_sites := node_sites
     st; reinstall_operations := reinstall_operations st; update_recoveries := update_recoveries
     st; side_rows := side_rows st;
     registry := registry st |}.

Definition with_history (h : gset (string * string)) (st : Store) : Store :=
  {| agents := agents st; admins := admins st; sessions := sessions st; session_history := h;
     executions := executions st; execution_events := execution_events st; claim_control :=
     claim_control st; claim_control_events := claim_control_events st; tasks := tasks st;
     task_events := task_events st; applications := applications st; node_sites := node_sites
     st; reinstall_operations := reinstall_operations st; update_recoveries := update_recoveries
     st; side_rows := side_rows st;
     registry := registry st |}.

Definition with_executions (l : list task_execution) (ev : list execution_event) (st : Store) : Store :=
  {| agents := agents st; admins := admins st; sessions := sessions st; session_history :=
     session_history st; executions := l; execution_events := execution_events st ++ ev;
     claim_control := claim_control st; claim_control_events := claim_control_events st; tasks
     := tasks st; task_events := task_events st; applications := applications st; node_sites :=
     node_sites st; reinstall_operations := reinstall_operations st; update_recoveries :=
     update_recoveries st; side_rows := side_rows st;
     registry := registry st |}.

Definition with_claim_control (v : option string) (ev : list control_event) (st : Store) : Store :=
  {| agents := agents st; admins := admins st; sessions := sessions st; session_history :=
     session_history st; executions := executions st; execution_events := execution_events st;
     claim_control := v; claim_control_events := claim_control_events st ++ ev; tasks := tasks
     st; task_events := task_events st; applications := applications st; node_sites :=
     node_sites st; reinstall_operations := reinstall_operations st; update_recoveries :=
     update_recoveries st; side_rows := side_rows st;
     registry := registry st |}.

Definition with_tasks (l : list task_row) (st : Store) : Store :=
  {| agents := agents st; admins := admins st; sessions := sessions st; session_history :=
     session_history st; executions := executions st; execution_events := execution_events st;
     claim_control := claim_control st; claim_control_events := claim_control_events st; tasks
     := l; task_events := task_events st; applications := applications st; node_sites :=
     node_sites st; reinstall_operations := reinstall_operations st; update_recoveries :=
     update_recoveries st; side_rows := side_rows st;
     registry := registry st |}.

Definition with_task_event (e : task_event) (st : Store) : Store :=
  {| agents := agents st; admins := admins st; sessions := sessions st; session_history :=
     session_history st; executions := executions st; execution_events := execution_events st;
     claim_control := claim_control st; claim_control_events := claim_control_events st; tasks
     := tasks st; task_events := task_events st ++ [e]; applications := applications st;
     node_sites := node_sites st; reinstall_operations := reinstall_operations st;
     update_recoveries := update_recoveries st; side_rows := side_rows st;
     registry := registry st |}.

Definition with_applications (l : list application_row) (st : Store) : Store :=
  {| agents := agents st; admins := admins st; sessions := sessions st; session_history :=
     session_history st; executions := executions st; execution_events := execution_events st;
     claim_control := claim_control st; claim_control_events := claim_control_events st; tasks
     := tasks st; task_events := task_events st; applications := l; node_sites := node_sites st;
     reinstall_operations := reinstall_operations st; update_recoveries := update_recoveries st;
     side_rows := side_rows st;
     registry := registry st |}.

Definition with_node_sites (l : list node_site_row) (st : Store) : Store :=
  {| agents := agents st; admins := admins st; sessions := sessions st; session_history :=
     session_history st; executions := executions st; execution_events := execution_events st;
     claim_control := claim_control st; claim_control_events := claim_control_events st; tasks
     := tasks st; task_events := task_events st; applications := applications st; node_sites :=
     l; reinstall_operations := reinstall_operations st; update_recoveries := update_recoveries
     st; side_rows := side_rows st;
     registry := registry st |}.

Definition with_update_recoveries (m : gmap string string) (st : Store) : Store :=
  {| agents := agents st; admins := admins st; sessions := sessions st; session_history :=
     session_history st; executions := executions st; execution_events := execution_events st;
     claim_control := claim_control st; claim_control_events := claim_control_events st; tasks
     := tasks st; task_events := task_events st; applications := applications st; node_sites :=
     node_sites st; reinstall_operations := reinstall_operations st; update_recoveries := m;
     side_rows := side_rows st;
     registry := registry st |}.

Definition with_side_rows (l : list side_row) (st : Store) : Store :=
  {| agents := agents st; admins := admins st; sessions := sessions st; session_history :=
     session_history st; executions := executions st; execution_events := execution_events st;
     claim_control := claim_control st; claim_control_events := claim_control_events st; tasks
     := tasks st; task_events := task_events st; applications := applications st; node_sites :=
     node_sites st; reinstall_operations := reinstall_operations st; update_recoveries :=
     update_recoveries st; side_rows := l; registry := registry st |}.

Definition with_agents (l : list agent_row) (st : Store) : Store :=
  {| agents := l; admins := admins st; sessions := sessions st; session_history :=
     session_history st; executions := executions st; execution_events := execution_events st;
     claim_control := claim_control st; claim_control_events := claim_control_events st; tasks
     := tasks st; task_events := task_events st; applications := applications st; node_sites :=
     node_sites st; reinstall_operations := reinstall_operations st; update_recoveries :=
     update_recoveries st; side_rows := side_rows st;
     registry := registry st |}.

Definition with_reinstalls (l : list reinstall_row) (st : Store) : Store :=
  {| agents := agents st; admins := admins st; sessions := sessions st; session_history :=
     session_history st; executions := executions st; execution_events := execution_events st;
     claim_control := claim_control st; claim_control_events := claim_control_events st; tasks
     := tasks st; task_events := task_events st; applications := applications st; node_sites :=
     node_sites st; reinstall_operations := l; update_recoveries := update_recoveries st;
     side_rows := side_rows st;
     registry := registry st |}.

Definition with_registry (g : Registry) (st : Store) : Store :=
  {| agents := agents st; admins := admins st; sessions := sessions st; session_history :=
     session_history st; executions := executions st; execution_events := execution_events st;
     claim_control := claim_control st; claim_control_events := claim_control_events st; tasks
     := tasks st; task_events := task_events st; applications := applications st; node_sites :=
     node_sites st; reinstall_operations := reinstall_operations st; update_recoveries :=
     update_recoveries st; side_rows := side_rows st; registry := g |}.

Definition empty_registry : Registry := mk_registry [] [] [] ∅ ∅ [] ∅ ∅ ∅.

(** ** Operations on the database

    [M A] is an operation that reads and changes the database and returns an
    [A] or an error. *)
Definition M (A : Type) : Type := Store → Store * res A.

Definition ok {A} (a : A) : M A := λ st, (st, Ok a).
Definition fail {A} (e : string) : M A := λ st, (st, Err e).
Definition bindM {A B} (m : M A) (k : A → M B) : M B :=
  λ st, match m st with
        | (st', Ok a) => k a st'
        | (st', Err e) => (st', Err e)
        end.
Definition query {A} (f : Store → A) : M A := λ st, (st, Ok (f st)).
Definition lift {A} (r : res A) : M A := λ st, (st, r).
Definition fail_if (b : bool) (e : string) : M unit := if b then fail e else ok tt.

(** [BeginTx ... defer tx.Rollback() ... tx.Commit()]. *)
Definition transaction {A} (m : M A) : M A :=
  λ st, match m st with
        | (st', Ok a) => (st', Ok a)
        | (_, Err e) => (st, Err e)
        end.

Notation "'do!' x ':=' m 'in' k" := (bindM m (fun x => k))
  (at level 10, x pattern, m at level 100, k at level 200) : go_scope.
Notation "m ';;;' k" := (bindM m (fun _ => k))
  (at level 199, right associativity) : go_scope.

(** [UPDATE task_executions SET .. WHERE ..] with its audit trigger; the result
    is [RowsAffected]. *)
Definition update_executions (wh : task_execution → bool)
    (set_row : task_execution → task_execution) : M Z :=
  λ st,
    (with_executions (sql_update wh set_row (executions st))
       (concat (map (λ r, if wh r then execution_update_audit r (set_row r) else [])
                  (executions st))) st,
     Ok (sql_affected wh (executions st))).

Definition insert_execution (r : task_execution) : M unit :=
  λ st,
    if sql_exists (λ x, te_id x =?s te_id r) (executions st)
       || sql_exists (λ x, (te_task_id x =?s te_task_id r) && (te_attempt x =? te_attempt r))
            (executions st)
    then (st, Err "UNIQUE constraint failed")
    else (with_executions (executions st ++ [r]) [execution_insert_audit r] st, Ok tt).

Definition update_tasks (wh : task_row → bool) (set_row : task_row → task_row) : M Z :=
  λ st, (with_tasks (sql_update wh set_row (tasks st)) st, Ok (sql_affected wh (tasks st))).

(** [EXISTS(SELECT 1 FROM agent_execution_sessions WHERE agent_id=? AND session_id=?)]. *)
Definition session_current (st : Store) (agentID sessionID : string) : bool :=
  match sessions st !! agentID with
  | Some s => s =?s sessionID
  | None => false
  end.

Definition is_admin (st : Store) (adminID : string) : bool := bool_decide (adminID ∈ admins st).

(** Updates of the other tables. *)
Definition update_side (wh : side_row → bool) (set_row : side_row → side_row) : M unit :=
  λ st, (with_side_rows (sql_update wh set_row (side_rows st)) st, Ok tt).

Definition update_applications (wh : application_row → bool)
    (set_row : application_row → application_row) : M unit :=
  λ st, (with_applications (sql_update wh set_row (applications st)) st, Ok tt).

Definition set_application_status (status now : string) (a : application_row) : application_row :=
  mk_application (ap_id a) status now (ap_node_id a) (ap_runtime_generation a).

Definition set_side_status (status now : string) (r : side_row) : side_row :=
  mk_side (sd_table r) (sd_key r) (sd_revision r) status (sd_error r) now.
