(* ===== verification/Hoare.v ===== *)
(** * Outcomes of database operations

    A small program logic for the operations of Store.v: [wp m st Q] says that
    when [m] succeeds from [st] its final state and value satisfy [Q], and
    [unchanged m st] that when it fails the database is as before.  [wp_step]
    walks through an operation one statement at a time. *)
From S2P Require Import Prelude Store.

Definition wp {A} (m : M A) (st : Store) (Q : Store → A → Prop) : Prop :=
  ∀ st' a, m st = (st', Ok a) → Q st' a.

Definition unchanged {A} (m : M A) (st : Store) : Prop := ∀ st' e, m st = (st', Err e) → st' = st.

(** An operation that only reads. *)
Definition reads {A} (m : M A) : Prop := ∀ st, fst (m st) = st.

Section Rules.
Context {A B : Type}.
Implicit Types (m : M A) (k : A → M B) (Q : Store → A → Prop) (R : Store → B → Prop).

Lemma wp_ok a st Q : Q st a → wp (ok a) st Q.
Proof. intros H ?? E. unfold ok in E. by simplify_eq. Qed.
Lemma wp_fail e st Q : wp (fail e) st Q.
Proof. intros ?? E. discriminate E. Qed.
Lemma wp_mono m st Q Q' : wp m st Q → (∀ st' a, Q st' a → Q' st' a) → wp m st Q'.
Proof. intros H HQ ?? E. eauto. Qed.
Lemma wp_bind m k st R : wp m st (λ st' a, wp (k a) st' R) → wp (bindM m k) st R.
Proof.
  intros H st' b E. unfold bindM in E. destruct (m st) as [st1 [a|]] eqn:Em; [|discriminate].
  by apply (H st1 a Em).
Qed.
Lemma wp_query (f : Store → A) k st R : wp (k (f st)) st R → wp (bindM (query f) k) st R.
Proof. intros H. exact H. Qed.
Lemma wp_read (f : Store → res A) k st R :
  (∀ a, f st = Ok a → wp (k a) st R) → wp (bindM (λ st, (st, f st)) k) st R.
Proof. intros H. apply wp_bind. intros ?? E. simplify_eq. auto. Qed.
Lemma wp_lift (r : res A) k st R :
  (∀ a, r = Ok a → wp (k a) st R) → wp (bindM (lift r) k) st R.
Proof. intros H. apply (wp_read (λ _, r)). exact H. Qed.
Lemma wp_transaction m st Q : wp m st Q → wp (transaction m) st Q.
Proof.
  intros H st' a E. unfold transaction in E. destruct (m st) as [st1 []] eqn:Em; [|discriminate].
  apply H. by simplify_eq.
Qed.
Lemma wp_reads m st : reads m → wp m st (λ st' _, st' = st).
Proof. intros H st' a E. specialize (H st). by rewrite E in H. Qed.

Lemma unchanged_transaction m st : unchanged (transaction m) st.
Proof.
  intros st' e E. unfold transaction in E. destruct (m st) as [st1 []]; [discriminate|].
  by simplify_eq.
Qed.
Lemma unchanged_reads m st : reads m → unchanged m st.
Proof. intros H st' e E. specialize (H st). by rewrite E in H. Qed.
Lemma unchanged_bind m k st :
  reads m → (∀ a, unchanged (k a) st) → unchanged (bindM m k) st.
Proof.
  intros Hm Hk st' e E. unfold bindM in E. specialize (Hm st).
  destruct (m st) as [st1 [a|]]; simpl in Hm; subst; [by eapply Hk|by simplify_eq].
Qed.

Lemma reads_ok (a : A) : reads (ok a). Proof. done. Qed.
Lemma reads_fail e : reads (@fail A e). Proof. done. Qed.
Lemma reads_query (f : Store → A) : reads (query f). Proof. done. Qed.
Lemma reads_lift (r : res A) : reads (lift r). Proof. done. Qed.
Lemma reads_at (f : Store → res A) : reads (λ st, (st, f st)). Proof. done. Qed.
Lemma reads_bind m k : reads m → (∀ a, reads (k a)) → reads (bindM m k).
Proof.
  intros Hm Hk st. unfold bindM. specialize (Hm st). destruct (m st) as [st1 [a|]]; simpl in *; subst;
  [apply Hk|done].
Qed.
End Rules.

Lemma wp_fail_if {B} b e (k : unit → M B) st R :
  (b = false → wp (k tt) st R) → wp (bindM (fail_if b e) k) st R.
Proof. intros H. apply wp_bind. destruct b; [apply wp_fail|]. apply wp_ok. auto. Qed.
Lemma wp_fail_if_last b e st R : (b = false → R st tt) → wp (fail_if b e) st R.
Proof. intros H. destruct b; [apply wp_fail|]. apply wp_ok. auto. Qed.
Lemma reads_fail_if b e : reads (fail_if b e).
Proof. intros st. by destruct b. Qed.

Lemma wp_update_executions {B} wh f (k : Z → M B) st R :
  wp (k (sql_affected wh (executions st))) (fst (update_executions wh f st)) R →
  wp (bindM (update_executions wh f) k) st R.
Proof. intros H. exact H. Qed.
Lemma wp_update_executions_at {B} wh f (k : Z → M B) st R :
  wp (k (sql_affected (wh st) (executions st))) (fst (update_executions (wh st) f st)) R →
  wp (bindM (λ st, update_executions (wh st) f st) k) st R.
Proof. intros H. exact H. Qed.
Lemma wp_update_tasks {B} wh f (k : Z → M B) st R :
  wp (k (sql_affected wh (tasks st))) (fst (update_tasks wh f st)) R →
  wp (bindM (update_tasks wh f) k) st R.
Proof. intros H. exact H. Qed.

#[export] Hint Resolve reads_ok reads_fail reads_query reads_lift reads_at reads_fail_if : vastora.

(** One statement of an operation. *)
Ltac wp_step :=
  lazymatch goal with
  | |- wp (transaction _) _ _ => apply wp_transaction
  | |- wp (bindM (query _) _) _ _ => apply wp_query
  | |- wp (bindM (fail_if _ _) _) _ _ => apply wp_fail_if; intros ?
  | |- wp (bindM (lift _) _) _ _ => apply wp_lift; intros ? ?
  | |- wp (bindM (λ st, (st, @?f st)) _) _ _ => apply (wp_read f); intros ? ?
  | |- wp (bindM (update_executions _ _) _) _ _ => apply wp_update_executions
  | |- wp (bindM (λ st, update_executions (@?w st) _ st) _) _ _ => apply (wp_update_executions_at w)
  | |- wp (bindM (update_tasks _ _) _) _ _ => apply wp_update_tasks
  | |- wp (bindM (bindM _ _) _) _ _ => apply wp_bind
  | |- wp (fail_if _ _) _ _ => apply wp_fail_if_last; intros ?
  | |- wp (fail _) _ _ => apply wp_fail
  | |- wp (ok _) _ _ => apply wp_ok
  | |- wp (match ?x with _ => _ end) _ _ => destruct x eqn:?
  end.

(** A failed operation whose writes are all in one transaction. *)
Ltac unchanged_step :=
  lazymatch goal with
  | |- unchanged (transaction _) _ => apply unchanged_transaction
  | |- unchanged (bindM _ _) _ => apply unchanged_bind; [solve [auto with vastora]|intros ?]
  | |- unchanged (match ?x with _ => _ end) _ => destruct x
  | |- unchanged _ _ => apply unchanged_reads; solve [auto with vastora]
  end.
