(* ===== verification/Execution.v ===== *)
(** * The execution protocol (internal/center/execution.go)

    One-use, leased permissions for Agent tasks: a process registers a session,
    the Center persists an offered execution, the process starts it once, steps
    and renews it under its lease, and delivers one result which is projected
    and finalised.  Each operation below is the operation of the same name of
    the Center's [Store]; the instant [s.now()] is an argument. *)
From S2P Require Import Prelude Redact GoTime Store.

(** ** Agent tasks

    The fields of [AgentTask] the protocol inspects.  An optional sub-structure
    is represented by its JSON text; [at_rest] stands for the fields that are
    only carried. *)
Record AgentTask := mk_task {
  at_id : string;
  at_kind : string;
  at_attempt : Z;
  at_revision : Z;
  at_application_id : string;
  at_reconcile : bool;
  at_meridian_acceptance : option string;
  at_senulun_reporting : option string;
  at_senulun_rotation : option string;
  at_senulun_inspection : option string;
  at_senulun_restore : option string;
  at_maintenance_action : option string;   (* PackageMaintenance.Action *)
  at_client_action : option string;        (* ClientCommand.Action *)
  at_node_command_worker : option string;  (* NodeCommand.WorkerApplicationID *)
  at_rest : string
}.

#[global] Instance AgentTask_eq_dec : EqDecision AgentTask.
Proof. solve_decision. Defined.

Record executionResultEvidence := mk_evidence {
  evd_result : string;
  evd_succeeded : bool;
  evd_unknown : bool;
  evd_generation : option Z
}.

(** [senulun.InspectionTask] and its [Validate]; [seen] is the map of the loop. *)
Record InspectionTask := mk_inspection {
  ip_application_id : string; ip_deployment_id : string; ip_enrollment_ids : list string
}.
Definition MaxInspectionEnrollments : Z := 64.

Fixpoint enrollments_valid (seen l : list string) : bool :=
  match l with
  | [] => true
  | id :: l' =>
      if (id =?s "") || (128 <? str_len id)
         || contains_any id [Ascii.ascii_of_nat 13; Ascii.ascii_of_nat 10; Ascii.ascii_of_nat 0]
         || negb (trim_space id =?s id) || str_in id seen
      then false else enrollments_valid (id :: seen) l'
  end.

Definition inspection_task_valid (task : InspectionTask) : bool :=
  if (ip_application_id task =?s "") || (ip_deployment_id task =?s "")
     || (Z.of_nat (length (ip_enrollment_ids task)) =? 0)
     || (MaxInspectionEnrollments <? Z.of_nat (length (ip_enrollment_ids task)))
  then false else enrollments_valid [] (ip_enrollment_ids task).

(** ** Libraries the protocol calls

    Authenticated encryption under the Center key (package secret over AES-GCM),
    JSON, SHA-256 and semantic
    versions.  The laws are the documented round trips. *)
Class Libraries := {
  seal : string → string → string;              (* additional data, plaintext *)
  unseal : string → string → option string;
  unseal_seal : ∀ ad x, unseal ad (seal ad x) = Some x;
  json_valid : string → bool;
  task_json : AgentTask → string;
  task_of_json : string → option AgentTask;
  task_of_task_json : ∀ t, task_of_json (task_json t) = Some t;
  evidence_json : executionResultEvidence → string;
  evidence_of_json : string → option executionResultEvidence;
  evidence_of_evidence_json : ∀ e, json_valid (evd_result e) = true →
    ∃ r, json_valid r = true ∧
      evidence_of_json (evidence_json e) =
      Some (mk_evidence r (evd_succeeded e) (evd_unknown e) (evd_generation e));
  sha256_hex : string → string;
  token_hash : string → string;
  inspection_of_json : string → option InspectionTask;
  semver_valid : string → bool;
  semver_compare : string → string → Z
}.

(** ** Constants and errors *)
Definition taskLeaseDuration : Z := 5 * minute.
Definition helperLeaseDuration : Z := 30 * minute.
Definition ExecutionProtocol : Z := 2.
Definition errExecutionBlocked : string := "center: execution requires operator verification".
Definition errExecutionAuthorization : string :=
  "center: execution authorization is no longer valid".
Definition errStaleTaskLease : string := "center: task lease is stale or expired".
Definition errNoRows : string := "sql: no rows in result set".

(** [expires_at>?]: the lease test, made on the stored texts. *)
Definition unexpired (expires_at : string) (now : Z) : bool := rfc3339nano now <?s expires_at.

(** [expires_at<=?]. *)
Definition lapsed (expires_at : string) (now : Z) : bool := expires_at <=?s rfc3339nano now.

(** The lease granted at [now]. *)
Definition lease (now d : Z) : string := rfc3339nano (now + d).

(** The rows that fence an Agent: not disposed and not succeeded. *)
Definition unresolved (r : task_execution) : bool :=
  (te_disposition r =?s "") && negb (state_eqb (te_state r) Succeeded).

(** A single-row statement authorises its caller only when it changed a row. *)
Definition expect_one (n : Z) (e : string) : M unit := fail_if (negb (n =? 1)) e.

(** The idiom of the protocol: an [UPDATE] whose [WHERE] clause is the
    authorisation, refused with [e] unless [RowsAffected] is one. *)
Definition guarded (wh : Store → task_execution → bool) (f : task_execution → task_execution)
    (e : string) : M unit :=
  do! n := (λ st, update_executions (wh st) f st) in expect_one n e.

(** [message[:1024]] after redaction. *)
Definition truncate_message (s : string) : string :=
  if 1024 <? str_len s then String.substring 0 1024 s else s.

Section Protocol.
Context {L : Libraries}.

(** ** Sessions *)

(** [authenticateAgentInQuery]. *)
Definition authenticateAgent (agentID credential : string) : M unit :=
  do! row := query (λ st, sql_row (λ a, (ag_id a =?s agentID) && (ag_status a =?s "active")
                                   && (ag_credential_revoked_at a =?s "")) (agents st)) in
  match row with
  | None => fail "center: agent authentication failed"
  | Some a =>
      fail_if (negb (ag_credential_hash a =?s token_hash credential))
        "center: agent authentication failed"
  end.

Definition space_chars : list Ascii.ascii := map Ascii.ascii_of_nat [32; 13; 10; 9]%nat.

(** The transaction of [RegisterExecutionSession]; the opportunistic recovery
    of retained results that follows it is [recoverReceivedExecutionResults]. *)
Definition RegisterExecutionSession (agentID credential sessionID : string) (protocol now : Z)
    : M unit :=
  if negb (protocol =? ExecutionProtocol) || (str_len sessionID <? 24)
     || (128 <? str_len sessionID) || contains_any sessionID space_chars
  then fail errExecutionAuthorization
  else transaction (
    authenticateAgent agentID credential ;;;
    do! current := query (λ st, default "" (sessions st !! agentID)) in
    if current =?s sessionID then ok tt else
    do! seen := query (λ st, bool_decide ((agentID, sessionID) ∈ session_history st)) in
    fail_if seen errExecutionAuthorization ;;;
    (λ st, (with_history ({[ (agentID, sessionID) ]} ∪ session_history st) st, Ok tt)) ;;;
    update_executions
      (λ r, (te_agent_id r =?s agentID) && negb (te_session_id r =?s sessionID)
            && (te_disposition r =?s "") && state_in (te_state r) [Offered; Running])
      (λ r, set_updated_at (rfc3339nano now)
              (set_last_error "Agent process changed; verify the previous execution"
                 (set_state Unknown r))) ;;;
    (λ st, (with_sessions (<[agentID := sessionID]> (sessions st)) st, Ok tt))).

(** A reconnect grant starts a new machine identity (agent_reconnect_execution.go). *)
Definition retireAgentExecutionIdentity (agentID now : string) : M unit :=
  (λ st, (with_sessions (delete agentID (sessions st)) st, Ok tt)) ;;;
  update_executions
    (λ r, (te_agent_id r =?s agentID) && (te_disposition r =?s "")
          && negb (state_eqb (te_state r) Succeeded) && (te_identity_retired_at r =?s ""))
    (λ r, let active := state_in (te_state r) [Offered; Running; HelperRunning] in
          set_last_error
            (if active && (te_last_error r =?s "")
             then "Agent identity replaced; inspect the previous machine execution"
             else te_last_error r)
            (set_state (if active then Unknown else te_state r)
               (set_updated_at now (set_identity_retired_at now r)))) ;;;
  ok tt.

(** ** Steps of a running execution *)

(** [StopExecution]. *)
Definition StopExecution (agentID sessionID id : string) (unknown : bool) (taskError : string)
    (now : Z) : M unit :=
  guarded
    (λ st r, (te_id r =?s id) && (te_agent_id r =?s agentID) && (te_session_id r =?s sessionID)
          && state_in (te_state r) [Offered; Running] && negb (te_phase r =?s "result_received")
          && (te_disposition r =?s "") && session_current st agentID sessionID)
    (λ r, set_updated_at (rfc3339nano now)
            (set_last_error (truncate_message (SafeError taskError))
               (set_state (if unknown then Unknown else Failed) r)))
    errExecutionAuthorization.

Definition tunnel_message : string :=
  "center: Cloudflare Tunnel origin configuration was not confirmed; explicit recovery required".

(** [StartExecution].  [tunnel] is the outcome of [prepareTunnelExecution],
    called after the offer is consumed; on failure the execution is stopped at
    [stop_now], and the returned error is the message (which the source joins
    with the error of the stop, if any). *)
Definition StartExecution (agentID sessionID id digest : string) (now : Z)
    (tunnel : res unit) (stop_now : Z) : M unit :=
  guarded
    (λ st r, (te_id r =?s id) && (te_agent_id r =?s agentID) && (te_session_id r =?s sessionID)
          && (te_digest r =?s digest) && state_eqb (te_state r) Offered
          && (te_disposition r =?s "") && unexpired (te_expires_at r) now
          && session_current st agentID sessionID)
    (λ r, set_expires_at (lease now taskLeaseDuration)
            (set_updated_at (rfc3339nano now) (set_phase "started" (set_state Running r))))
    errExecutionAuthorization ;;;
  match tunnel with
  | Ok _ => ok tt
  | Err _ => λ st, (fst (StopExecution agentID sessionID id true tunnel_message stop_now st),
                    Err tunnel_message)
  end.

(** [CheckExecutionStep]. *)
Definition CheckExecutionStep (agentID sessionID id phase : string) (now : Z) : M unit :=
  if negb (str_in phase ["prepare"; "apply"; "persist"; "report"; "handoff"])
  then fail "center: invalid execution phase"
  else
  guarded
    (λ st r, (te_id r =?s id) && (te_agent_id r =?s agentID) && (te_session_id r =?s sessionID)
          && state_eqb (te_state r) Running && negb (te_phase r =?s "result_received")
          && (te_disposition r =?s "") && unexpired (te_expires_at r) now
          && session_current st agentID sessionID
          && (negb (te_kind r =?s "node.os-reinstall")
              || ((te_phase r =?s "started") && (phase =?s "apply"))))
    (λ r, set_expires_at (lease now taskLeaseDuration)
            (set_updated_at (rfc3339nano now) (set_phase phase r)))
    errExecutionAuthorization.

(** [RenewExecution]. *)
Definition RenewExecution (agentID sessionID id : string) (now : Z) : M unit :=
  guarded
    (λ st r, (te_id r =?s id) && (te_agent_id r =?s agentID) && (te_session_id r =?s sessionID)
          && state_eqb (te_state r) Running && negb (te_phase r =?s "result_received")
          && (te_disposition r =?s "") && unexpired (te_expires_at r) now
          && session_current st agentID sessionID)
    (λ r, set_updated_at (rfc3339nano now) (set_expires_at (lease now taskLeaseDuration) r))
    errExecutionAuthorization.

(** [StoreExecutionResult].  The three parameters [?=0], [?=1] and [?=0] of the
    statement are [hostUpdateHelper], [hostUpdateHelper] and [succeeded]. *)
Definition StoreExecutionResult (agentID sessionID id result : string)
    (succeeded unknown : bool) (taskError : string) (generation : option Z)
    (hostUpdateHelper : bool) (now : Z) : M unit :=
  if negb (json_valid result) || (2097152 <? str_len result)
  then fail "center: invalid execution result"
  else
  let sealed := seal ("execution-result:" +:+ id)
                  (evidence_json (mk_evidence result succeeded unknown generation)) in
  guarded
    (λ st r, (te_id r =?s id) && (te_agent_id r =?s agentID) && (te_session_id r =?s sessionID)
          && ((negb hostUpdateHelper && state_eqb (te_state r) Running)
              || (hostUpdateHelper && (te_kind r =?s "agent.update")
                  && state_eqb (te_state r) HelperRunning))
          && negb (te_phase r =?s "result_received") && (te_disposition r =?s "")
          && unexpired (te_expires_at r) now
          && (negb (state_eqb (te_state r) HelperRunning) || negb succeeded
              || (te_phase r =?s "start"))
          && (state_eqb (te_state r) HelperRunning || session_current st agentID sessionID))
    (λ r, set_updated_at (rfc3339nano now)
            (set_last_error (truncate_message (SafeError taskError))
               (set_phase "result_received" (set_sealed_result sealed r))))
    errExecutionAuthorization.

(** [task.SenulunInspection.Validate() == nil] for the field as JSON. *)
Definition inspection_valid (i : string) : bool :=
  match inspection_of_json i with Some t => inspection_task_valid t | None => false end.

(** [executionFailureCanReleaseFence]: the read-only operations. *)
Definition executionFailureCanReleaseFence (task : AgentTask) : bool :=
  if (at_kind task =?s "application.maintenance")
     && bool_decide (at_maintenance_action task = Some "logs") then true
  else if (at_kind task =?s "application.command")
     && match at_senulun_inspection task with Some i => inspection_valid i | None => false end
  then true
  else if negb (at_kind task =?s "application.command") then false
  else match at_client_action task with
       | None => false
       | Some a => (a =?s "list") || (a =?s "list_inbounds")
       end.

Definition evidence_state (succeeded unknown : bool) : exec_state :=
  if unknown then Unknown else if succeeded then Succeeded else Failed.

(** [finalizeExecution], run inside the projection's transaction.  The clock is
    read at [disposed_now] for the disposition and at [now] for the update. *)
Definition finalizeExecution (agentID sessionID id : string) (disposed_now now : Z) : M unit :=
  do! row := query (λ st, sql_row
    (λ r, (te_id r =?s id) && (te_agent_id r =?s agentID) && (te_session_id r =?s sessionID)
          && state_in (te_state r) [Running; HelperRunning]
          && (te_phase r =?s "result_received") && (te_disposition r =?s "")) (executions st)) in
  match row with
  | None => fail errExecutionAuthorization
  | Some r0 =>
  match unseal ("execution-result:" +:+ id) (te_sealed_result r0) with
  | None => fail "center: execution result evidence is invalid"
  | Some raw =>
  match evidence_of_json raw with
  | None => fail "center: execution result evidence is invalid"
  | Some evidence =>
  let state := evidence_state (evd_succeeded evidence) (evd_unknown evidence) in
  match unseal ("execution-task:" +:+ id) (te_sealed_task r0) ≫= task_of_json with
  | None => fail "center: execution task evidence is invalid"
  | Some task =>
  let release := state_eqb state Failed && executionFailureCanReleaseFence task in
  guarded
    (λ st r, (te_id r =?s id) && (te_agent_id r =?s agentID) && (te_session_id r =?s sessionID)
          && state_in (te_state r) [Running; HelperRunning]
          && (te_phase r =?s "result_received") && (te_disposition r =?s "")
          && unexpired (te_expires_at r) now
          && (state_eqb (te_state r) HelperRunning || session_current st agentID sessionID))
    (λ r, set_updated_at (rfc3339nano now)
            (set_disposition
               (if release then "read-only-failure" else "")
               (if release then "Read-only operation failed without changing node state" else "")
               (if release then "system" else "")
               (if release then rfc3339nano disposed_now else "")
               (set_phase "reported" (set_state state r))))
    errExecutionAuthorization
  end end end end.

End Protocol.
