(* ===== verification/Guards.v ===== *)
(** * Single-row authorised statements

    Most operations of the protocol are one [UPDATE] whose [WHERE] clause is
    their authorisation, followed by the test that it changed one row.  The
    lemmas of this file turn such an operation into its guard and its effect. *)
From S2P Require Import Prelude GoTime Store Hoare Execution.

Lemma with_executions_nil st : with_executions (executions st) [] st = st.
Proof. destruct st. unfold with_executions. simpl. by rewrite app_nil_r. Qed.

Lemma update_executions_none wh f st :
  (∀ r, r ∈ executions st → wh r = false) → update_executions wh f st = (st, Ok 0).
Proof.
  intros H. unfold update_executions. rewrite sql_update_none by done.
  rewrite (proj2 (sql_affected_0 _ _)) by done.
  assert (concat (map (λ r, if wh r then execution_update_audit r (f r) else []) (executions st)) = [])
    as ->; [|by rewrite with_executions_nil].
  induction (executions st) as [|r l IH]; [done|]. simpl. rewrite H by left. simpl.
  apply IH. intros r' Hr'. apply H. by right.
Qed.

(** No row passes the guard: the operation is refused and changes nothing. *)
Lemma guarded_refused wh f e st :
  (∀ r, r ∈ executions st → wh st r = false) → guarded wh f e st = (st, Err e).
Proof. intros H. unfold guarded, bindM. by rewrite update_executions_none. Qed.

Lemma sql_affected_1 {A} (wh : A → bool) l : sql_affected wh l = 1 → ∃ r, r ∈ l ∧ wh r = true.
Proof.
  intros H. apply sql_exists_spec. destruct (sql_exists wh l) eqn:E; [done|].
  rewrite sql_exists_false in E. apply sql_affected_0 in E. lia.
Qed.

(** The operation succeeds: a row passed the guard, and the statement is applied. *)
Lemma guarded_ok wh f e st st' u :
  guarded wh f e st = (st', Ok u) →
  st' = fst (update_executions (wh st) f st) ∧ ∃ r, r ∈ executions st ∧ wh st r = true.
Proof.
  unfold guarded, bindM, expect_one, fail_if. simpl.
  destruct (sql_affected (wh st) (executions st) =? 1) eqn:E; simpl; intros H; [|discriminate].
  bool_prop. apply sql_affected_1 in E. unfold ok in H. by simplify_eq.
Qed.

(** The operation has only these two outcomes when its guard names an execution. *)
Lemma sql_affected_unique {A K} (key : A → K) (wh : A → bool) l r :
  NoDup (map key l) → r ∈ l → wh r = true → (∀ x, wh x = true → key x = key r) →
  sql_affected wh l = 1.
Proof.
  intros Hnd Hr Hw Hk. unfold sql_affected, sql_select.
  induction l as [|x l IH]; [by apply not_elem_of_nil in Hr|].
  simpl in *. apply NoDup_cons in Hnd as [Hx Hnd]. apply elem_of_cons in Hr as [->|Hr].
  - rewrite Hw. simpl. assert (List.filter wh l = []) as ->; [|done].
    clear IH. induction l as [|y l IH]; [done|]. simpl in *.
    destruct (wh y) eqn:Ey; [exfalso; apply Hx; rewrite <- (Hk y Ey); left|].
    apply IH; [intros Hi; apply Hx; by right|by apply NoDup_cons in Hnd as [_ ?]].
  - destruct (wh x) eqn:Ex; [|auto]. exfalso. apply Hx. rewrite (Hk x Ex).
    apply list_elem_of_fmap. eauto.
Qed.

Lemma guarded_authorized wh f e st r :
  NoDup (map te_id (executions st)) → r ∈ executions st → wh st r = true →
  (∀ x, wh st x = true → te_id x = te_id r) →
  guarded wh f e st = (fst (update_executions (wh st) f st), Ok tt).
Proof.
  intros Hnd Hr Hw Hk. unfold guarded, bindM, expect_one, fail_if. simpl.
  by rewrite (sql_affected_unique te_id _ _ r) by done.
Qed.

(** Every failed single-row operation leaves the database as it was. *)
Lemma guarded_unchanged (wh : Store → task_execution → bool) f e st id :
  NoDup (map te_id (executions st)) → (∀ r, wh st r = true → te_id r = id) →
  unchanged (guarded wh f e) st.
Proof.
  intros Hnd Hk st' e' H. destruct (sql_exists (wh st) (executions st)) eqn:E.
  - apply sql_exists_spec in E as (r & Hr & Hw).
    rewrite (guarded_authorized _ _ _ _ r) in H; [discriminate|done..|].
    intros x Hx. by rewrite (Hk x), (Hk r).
  - rewrite sql_exists_false in E. rewrite guarded_refused in H by done. by simplify_eq.
Qed.

(** The rows of the updated table. *)
Lemma update_executions_row (wh : task_execution → bool) f st r :
  r ∈ executions st → (if wh r then f r else r) ∈ executions (fst (update_executions wh f st)).
Proof. intros Hr. simpl. apply elem_of_sql_update. eauto. Qed.

Lemma update_executions_other (wh : task_execution → bool) f st r' :
  r' ∈ executions (fst (update_executions wh f st)) →
  ∃ r, r ∈ executions st ∧ r' = if wh r then f r else r.
Proof. simpl. apply elem_of_sql_update. Qed.

Lemma wp_guarded {B} wh f e (k : unit → M B) st R :
  (∀ r, r ∈ executions st → wh st r = true → wp (k tt) (fst (update_executions (wh st) f st)) R) →
  wp (bindM (guarded wh f e) k) st R.
Proof. intros H. apply wp_bind. intros st' [] (-> & r & Hr & Hw)%guarded_ok. by apply (H r). Qed.

Lemma wp_guarded_last wh f e st R :
  (∀ r, r ∈ executions st → wh st r = true → R (fst (update_executions (wh st) f st)) tt) →
  wp (guarded wh f e) st R.
Proof. intros H st' [] (-> & r & Hr & Hw)%guarded_ok. by apply (H r). Qed.

Ltac wp_guard :=
  lazymatch goal with
  | |- wp (bindM (guarded _ _ _) _) _ _ => apply wp_guarded; intros ? ? ?
  | |- wp (guarded _ _ _) _ _ => apply wp_guarded_last; intros ? ? ?
  end.

(** The row that passed the guard, and what became of it. *)
Lemma guarded_effect wh f e st st' u :
  guarded wh f e st = (st', Ok u) →
  ∃ r, r ∈ executions st ∧ wh st r = true ∧ f r ∈ executions st'.
Proof.
  intros (-> & r & Hr & Hw)%guarded_ok. exists r. split; [done|]. split; [done|].
  pose proof (update_executions_row (wh st) f st r Hr) as H. by rewrite Hw in H.
Qed.
