(* ===== verification/Claims.v ===== *)
(** * Claiming work: the pause control, the fence and the authorisation

    internal/center/execution_claim_control.go, the unresolved-execution tests
    of agent_update_tasks.go, execution_superseded.go, and the two entry points
    of execution.go that let an Agent claim a task: [executionClaimAllowed] and
    [persistExecutionAuthorization]. *)
From S2P Require Import Prelude GoText GoTime TaskIds Store Execution.

(** ** Superseded landing failures (execution_superseded.go) *)

Record supersededLandingExecution := mk_superseded {
  sl_id : string; sl_agent_id : string; sl_kind : string; sl_task_id : string;
  sl_attempt : Z; sl_desired_revision : Z; sl_current_attempt : Z
}.

Definition landing_table (kind : string) : option business_table :=
  if kind =?s "landing.proxy.apply" then Some landing_proxy_states
  else if kind =?s "landing.server.apply" then Some landing_server_states else None.

(** The joined query of one landing kind. *)
Definition superseded_rows (kind : string) (table : business_table) (st : Store)
    : list supersededLandingExecution :=
  concat (map (λ e,
    if (te_kind e =?s kind) && (te_disposition e =?s "") && state_eqb (te_state e) Failed
       && (te_phase e =?s "reported")
    then map (λ s, mk_superseded (te_id e) (te_agent_id e) (te_kind e) (te_task_id e)
                     (te_attempt e) (tr_revision s) (tr_attempt s))
           (sql_select (λ s, bool_decide (tr_table s = table)
                             && (tr_agent_id s =?s te_agent_id e)) (tasks st))
    else []) (executions st)).

Definition superseded_candidates (agentID : string) (st : Store) : list supersededLandingExecution :=
  sql_select (λ c, (agentID =?s "") || (sl_agent_id c =?s agentID))
    (superseded_rows "landing.proxy.apply" landing_proxy_states st ++
     superseded_rows "landing.server.apply" landing_server_states st).

(** The revision a candidate's task identifier names, when it is well formed. *)
Definition candidate_revision (c : supersededLandingExecution) : option Z :=
  if sl_kind c =?s "landing.proxy.apply" then
    match landingProxyTaskRevision (sl_task_id c) with
    | Some r => if sl_task_id c =?s landingProxyTaskID (sl_agent_id c) r then Some r else None
    | None => None
    end
  else if sl_kind c =?s "landing.server.apply" then
    match landingServerTaskRevision (sl_task_id c) with
    | Some r => if sl_task_id c =?s landingServerTaskID (sl_agent_id c) r then Some r else None
    | None => None
    end
  else None.

(** A newer revision, or a newer attempt of the same revision, exists. *)
Definition candidate_superseded (c : supersededLandingExecution) : bool :=
  match candidate_revision c with
  | None => false
  | Some revision =>
      negb ((sl_desired_revision c <? revision)
            || ((revision =? sl_desired_revision c) && (sl_current_attempt c <=? sl_attempt c)))
  end.

Definition superseded_note (c : supersededLandingExecution) : string :=
  "Superseded by landing revision " +:+ decimal (sl_desired_revision c) +:+
  " attempt " +:+ decimal (sl_current_attempt c).

Fixpoint dispose_candidates (now : string) (l : list supersededLandingExecution) (disposed : Z)
    : M Z :=
  match l with
  | [] => ok disposed
  | c :: l' =>
      if negb (candidate_superseded c) then dispose_candidates now l' disposed
      else
        do! n := update_executions
          (λ r, (te_id r =?s sl_id c) && (te_disposition r =?s "") && state_eqb (te_state r) Failed)
          (λ r, set_updated_at now (set_disposition "superseded" (superseded_note c) "system" now r)) in
        fail_if (negb (n =? 1))
          ("center: superseded landing execution " +:+ sl_id c +:+ " changed during recovery") ;;;
        dispose_candidates now l' (disposed + n)
  end.

Definition disposeSupersededLandingExecutionFailures (agentID now : string) : M Z :=
  do! candidates := query (superseded_candidates agentID) in
  dispose_candidates now candidates 0.

Definition recoverSupersededLandingExecutionFailures (now : Z) : M unit :=
  transaction (disposeSupersededLandingExecutionFailures "" (rfc3339nano now) ;;; ok tt).

(** ** The claim pause (execution_claim_control.go) *)
Record ExecutionClaimControl := mk_control {
  cc_paused : bool; cc_actor : string; cc_updated_at : string
}.

(** The setting is stored as JSON text and read by three decoders: SQLite's
    [json_valid]/[json_type], [json.Unmarshal] into the struct, and
    [json.Unmarshal] into a map whose raw [paused] member is compared. *)
Class ControlCodec := {
  control_encode : ExecutionClaimControl → string;
  control_decode : string → option ExecutionClaimControl;
  control_paused_raw : string → option string;
  control_type_false : string → bool;
  control_decode_encode : ∀ c, control_decode (control_encode c) = Some c;
  control_paused_raw_encode : ∀ c,
    control_paused_raw (control_encode c) = Some (if cc_paused c then "true" else "false");
  control_type_false_encode : ∀ c, control_type_false (control_encode c) = negb (cc_paused c)
}.

Section Control.
Context {C : ControlCodec}.

(** Unknown or malformed controls fail closed. *)
Definition executionClaimsPaused (st : Store) : bool :=
  match claim_control st with
  | None => false
  | Some value => negb (control_type_false value)
  end.

(** Both Go decoders accept the text and [paused] is a literal boolean. *)
Definition control_read (raw : string) : res ExecutionClaimControl :=
  match control_decode raw, control_paused_raw raw with
  | Some c, Some p =>
      if (p =?s "true") || (p =?s "false") then Ok c
      else Err "center: invalid execution claim control"
  | _, _ => Err "center: invalid execution claim control"
  end.

Definition migration_owned (c : ExecutionClaimControl) : bool :=
  has_prefix "migration:" (trim_space (cc_actor c)).

(** The pair of the Go results: the flag, which is [true] on an error. *)
Definition agentUpdateRolloutPaused (st : Store) : bool * res unit :=
  match claim_control st with
  | None => (false, Ok tt)
  | Some raw =>
      match control_read raw with
      | Err e => (true, Err e)
      | Ok control => (cc_paused control && negb (migration_owned control), Ok tt)
      end
  end.

Definition releaseMigrationExecutionPause (now : Z) : M unit :=
  transaction (
    do! value := query claim_control in
    match value with
    | None => ok tt
    | Some raw =>
        do! control := lift (control_read raw) in
        if negb (cc_paused control) || negb (migration_owned control) then ok tt
        else
          let updated := control_encode (mk_control false "system:agent-rollout" (rfc3339nano now)) in
          λ st, if bool_decide (claim_control st = Some raw)
                then (with_claim_control (Some updated)
                        [mk_control_event false "system:agent-rollout" (rfc3339nano now)] st, Ok tt)
                else (st, Ok tt)
    end).

Definition readExecutionClaimControl (st : Store) : res ExecutionClaimControl :=
  match claim_control st with
  | None => Ok (mk_control false "" "")
  | Some raw => control_read raw
  end.

Definition SetExecutionClaimControl (adminID : string) (paused : bool) (now : Z) : M unit :=
  transaction (
    do! admin := query (λ st, is_admin st adminID) in
    fail_if (negb admin) "center: administrator authorization required" ;;;
    λ st, (with_claim_control
             (Some (control_encode (mk_control paused adminID (rfc3339nano now))))
             [mk_control_event paused adminID (rfc3339nano now)] st, Ok tt)).

End Control.

(** ** The fence (agent_update_tasks.go) *)
Section Fence.
Context {L : Libraries}.

Definition normal_version (v : string) : string :=
  let t := trim_space v in
  "v" +:+ (if has_prefix "v" t then String.substring 1 (String.length t - 1) t else t).

Definition agentUpdateFailureSuperseded (currentVersion failedTarget : string) : bool :=
  let current := normal_version currentVersion in
  let failed := normal_version failedTarget in
  semver_valid current && semver_valid failed && (0 <=? semver_compare current failed).

Definition active (r : task_execution) : bool :=
  state_in (te_state r) [Offered; Running; HelperRunning].

(** [COALESCE(update_task.target_version,'')] of the left join. *)
Definition update_target (st : Store) (r : task_execution) : string :=
  if te_kind r =?s "agent.update" then
    match sql_row (λ t, bool_decide (tr_table t = agent_updates) && (tr_id t =?s te_task_id r)
                        && (tr_agent_id t =?s te_agent_id r)) (tasks st) with
    | Some t => tr_target_version t
    | None => ""
    end
  else "".

Definition agent_unresolved (agentID : string) (st : Store) : list task_execution :=
  sql_select (λ r, (te_agent_id r =?s agentID) && unresolved r) (executions st).

(** One row of the loop of [unresolvedExecutionBlocksAgentUpdate]. *)
Definition blocks_update (st : Store) (currentVersion : string) (r : task_execution) : bool :=
  active r || (te_kind r =?s "agent.decommission")
  || ((te_kind r =?s "agent.update")
      && negb (agentUpdateFailureSuperseded currentVersion (update_target st r))).

Definition unresolvedExecutionBlocksAgentUpdate (agentID currentVersion : string) (st : Store)
    : bool :=
  existsb (blocks_update st currentVersion) (agent_unresolved agentID st).

(** One row of the loop of [unresolvedExecutionBlocksAgentWork]. *)
Definition blocks_work (st : Store) (currentVersion : string) (r : task_execution) : bool :=
  negb ((te_kind r =?s "agent.update") && negb (active r)
        && agentUpdateFailureSuperseded currentVersion (update_target st r)).

Definition unresolvedExecutionBlocksAgentWork (agentID currentVersion : string) (st : Store)
    : bool :=
  existsb (blocks_work st currentVersion) (agent_unresolved agentID st).

Definition agentReinstallBlocked (st : Store) (agentID : string) : bool :=
  sql_exists (λ o, (ro_agent_id o =?s agentID)
                   && negb (str_in (ro_state o) ["superseded"; "completed"]))
    (reinstall_operations st).

(** [SELECT version FROM agents WHERE id=?]. *)
Definition agent_version (agentID : string) (st : Store) : res string :=
  match sql_row (λ a, ag_id a =?s agentID) (agents st) with
  | Some a => Ok (ag_version a)
  | None => Err errNoRows
  end.

End Fence.

(** ** Claiming (execution.go) *)

(** The outcomes of the queries of the machine-reinstall workflow that
    [executionClaimAllowed] makes: the pending recovery task of the Agent
    ([pendingAgentReinstallTask]) and the validation of each kind of it. *)
Record ReinstallReads := mk_reinstall_reads {
  rr_pending : res string;
  rr_listener : res unit;
  rr_runtime : res unit;
  rr_current : res unit;
  rr_preparation : res unit
}.

(** The outcomes of the queries [persistExecutionAuthorization] makes on the
    recovery tables.  An expected task is given by its JSON text. *)
Record AuthorizationReads := mk_authorization_reads {
  rd_command_blocked : bool;                    (* reinstallCommandTargetBlocked *)
  rd_is_acceptance : bool;
  rd_acceptance : res string;
  rd_is_reporting : bool;
  rd_reporting : res string;
  rd_is_rotation : bool;
  rd_rotation : res string;
  rd_is_inspection : bool;
  rd_inspection : res string;
  rd_preparation : res bool;
  rd_preparation_task : res string;
  rd_restored_monitor : res (option string);
  rd_current_restore : res (option string);
  rd_runtime : res (option string);
  rd_listener : res (option string);
  rd_update_allowed : bool                      (* agentUpdateAllowed *)
}.

Record ExecutionAuthorization := mk_authorization {
  au_id : string; au_protocol : Z; au_digest : string
}.

Section Claim.
Context {L : Libraries} {C : ControlCodec}.

Definition tailscale_pending (st : Store) (agentID : string) : bool :=
  sql_exists (λ t, bool_decide (tr_table t = tailscale_update_tasks) && (tr_agent_id t =?s agentID)
                   && (tr_state t =?s "awaiting_decision")) (tasks st).

Definition update_pending (st : Store) (agentID : string) : bool :=
  sql_exists (λ t, bool_decide (tr_table t = agent_updates) && (tr_agent_id t =?s agentID)
                   && (tr_state t =?s "pending")) (tasks st).

Definition xray_recovery_pending (st : Store) (agentID : string) : bool :=
  sql_exists (λ t, bool_decide (tr_table t = xray_configuration_recoveries)
                   && (tr_agent_id t =?s agentID) && (tr_state t =?s "pending")) (tasks st).

(** The branch of an Agent that is being reinstalled: only its one pending
    recovery task may be claimed. *)
Definition reinstall_claim (agentID : string) (reads : ReinstallReads) : M unit :=
  do! id := lift (rr_pending reads) in
  do! version := (λ st, (st, agent_version agentID st)) in
  lift (if has_prefix "node-listener-" id then rr_listener reads
        else if has_prefix "reinstall-runtime-" id then rr_runtime reads
        else if has_prefix "reinstall-current-" id then rr_current reads
        else rr_preparation reads) ;;;
  do! unresolved_work := query (unresolvedExecutionBlocksAgentWork agentID version) in
  fail_if unresolved_work errExecutionBlocked.

(** The expiry of outstanding permissions that a claim performs. *)
Definition expire_executions (agentID : string) (now : Z) : M Z :=
  update_executions
    (λ r, (te_agent_id r =?s agentID) && (te_disposition r =?s "")
          && state_in (te_state r) [Offered; Running; HelperRunning] && lapsed (te_expires_at r) now)
    (λ r, set_updated_at (rfc3339nano now)
            (set_last_error "Execution authorization expired; manual verification required"
               (set_state Unknown r))).

(** Whether unresolved executions keep the Agent from claiming anything. *)
Definition claim_fenced (agentID : string) : M bool :=
  do! blocked := query (λ st, sql_exists (λ r, (te_agent_id r =?s agentID) && unresolved r)
                                (executions st)) in
  if negb blocked then ok false else
  do! version := (λ st, (st, agent_version agentID st)) in
  do! pending := query (λ st, update_pending st agentID) in
  do! ordinaryWorkBlocked := query (unresolvedExecutionBlocksAgentWork agentID version) in
  do! explicitRecovery := query (λ st, xray_recovery_pending st agentID) in
  do! executionBlocked := query (unresolvedExecutionBlocksAgentUpdate agentID version) in
  let independentAgentUpdate :=
    ordinaryWorkBlocked && negb explicitRecovery && pending && negb executionBlocked in
  ok (ordinaryWorkBlocked && negb explicitRecovery && negb independentAgentUpdate).

(** [executionClaimAllowed].  The verdict is returned after the commit, so the
    expiry and the disposal of superseded failures persist when it refuses. *)
Definition executionClaimAllowed (agentID sessionID : string) (reads : ReinstallReads) (now : Z)
    : M unit :=
  do! fenced := transaction (
    do! paused := query executionClaimsPaused in
    fail_if paused errExecutionBlocked ;;;
    do! current := query (λ st, session_current st agentID sessionID) in
    fail_if (negb current) errExecutionAuthorization ;;;
    do! tailscale := query (λ st, tailscale_pending st agentID) in
    if tailscale then ok false else
    do! reinstall := query (λ st, agentReinstallBlocked st agentID) in
    if reinstall then reinstall_claim agentID reads ;;; ok false else
    expire_executions agentID now ;;;
    disposeSupersededLandingExecutionFailures agentID (rfc3339nano now) ;;;
    claim_fenced agentID) in
  fail_if fenced errExecutionBlocked.

(** A command that must be the exact one the recovery workflow issued: the
    business row and the task field come together, the field is the expected
    task, and a [one_use] command is a first attempt that does not reconcile. *)
Definition bound_command (task : AgentTask) (is_kind one_use : bool) (field : option string)
    (expected : res string) : res unit :=
  match is_kind, field with
  | false, None => Ok tt
  | true, Some actual =>
      if one_use && (negb (at_attempt task =? 1) || at_reconcile task)
      then Err errExecutionAuthorization
      else let! e := expected in guard_err (negb (e =?s actual)) errExecutionAuthorization
  | _, _ => Err errExecutionAuthorization
  end.

(** A recovery task, when there is one, must be this task byte for byte. *)
Definition bound_task (expected : option string) (actual : string) : res unit :=
  match expected with
  | None => Ok tt
  | Some e => guard_err (negb (e =?s actual)) errExecutionAuthorization
  end.

(** The guards of [persistExecutionAuthorization] up to the recovery tasks;
    the result tells whether the task is one of the recovery workflow. *)
Definition recovery_guards (task : AgentTask) (rd : AuthorizationReads) : res bool :=
  let command := at_kind task =?s "application.command" in
  guard_err (command && rd_command_blocked rd) errExecutionBlocked ;;!
  bound_command task (command && rd_is_acceptance rd) true (at_meridian_acceptance task)
    (rd_acceptance rd) ;;!
  bound_command task (command && rd_is_reporting rd) true (at_senulun_reporting task)
    (rd_reporting rd) ;;!
  bound_command task (command && rd_is_rotation rd) true (at_senulun_rotation task)
    (rd_rotation rd) ;;!
  bound_command task (command && rd_is_inspection rd) false (at_senulun_inspection task)
    (rd_inspection rd) ;;!
  let! preparation := rd_preparation rd in
  (if preparation then
     let! expected := rd_preparation_task rd in
     guard_err (negb (task_json task =?s expected)) errExecutionAuthorization
   else Ok tt) ;;!
  let! restoredMonitor := rd_restored_monitor rd in
  let! currentRestore := rd_current_restore rd in
  bound_task currentRestore (task_json task) ;;!
  (match restoredMonitor, at_senulun_restore task with
   | None, None => Ok tt
   | None, Some _ => guard_err (negb (is_Some_b currentRestore)) errExecutionAuthorization
   | Some _, None => Err errExecutionAuthorization
   | Some expected, Some _ => guard_err (negb (task_json task =?s expected)) errExecutionAuthorization
   end) ;;!
  let! runtime := rd_runtime rd in
  bound_task runtime (task_json task) ;;!
  let! listener := rd_listener rd in
  bound_task listener (task_json task) ;;!
  Ok (preparation || is_Some_b runtime || is_Some_b listener || is_Some_b restoredMonitor
      || is_Some_b currentRestore).

(** The fence on the kind of task: an Agent update is fenced by active work and
    unresolved host helpers, an explicit configuration recovery by nothing,
    every other task by all unresolved work. *)
Definition kind_fence (agentID : string) (task : AgentTask) (rd : AuthorizationReads) : M unit :=
  if at_kind task =?s "agent.update" then
    fail_if (negb (rd_update_allowed rd)) errExecutionBlocked ;;;
    do! version := (λ st, (st, agent_version agentID st)) in
    do! blocked := query (unresolvedExecutionBlocksAgentUpdate agentID version) in
    fail_if blocked errExecutionBlocked
  else if negb (at_kind task =?s "xray.configuration.inspect")
          && negb (at_kind task =?s "xray.configuration.apply") then
    do! version := (λ st, (st, agent_version agentID st)) in
    do! blocked := query (unresolvedExecutionBlocksAgentWork agentID version) in
    fail_if blocked errExecutionBlocked
  else ok tt.

(** The offered row of a new execution; [id] is the random identifier. *)
Definition offered_execution (agentID sessionID id : string) (task : AgentTask) (now : Z)
    : task_execution :=
  {| te_id := id; te_agent_id := agentID; te_task_id := at_id task; te_kind := at_kind task;
     te_attempt := at_attempt task; te_session_id := sessionID;
     te_digest := sha256_hex (task_json task);
     te_sealed_task := seal ("execution-task:" +:+ id) (task_json task);
     te_sealed_result := ""; te_state := Offered; te_phase := "authorized"; te_last_error := "";
     te_expires_at := lease now taskLeaseDuration; te_created_at := rfc3339nano now;
     te_updated_at := rfc3339nano now; te_disposition := ""; te_disposition_note := "";
     te_disposition_actor := ""; te_disposed_at := ""; te_identity_retired_at := "" |}.

(** [persistExecutionAuthorization], inside the claim's transaction. *)
Definition persistExecutionAuthorization (agentID sessionID id : string) (task : AgentTask)
    (rd : AuthorizationReads) (now : Z) : M ExecutionAuthorization :=
  fail_if ((at_id task =?s "") || (at_attempt task <=? 0)) errExecutionAuthorization ;;;
  do! recovery := lift (recovery_guards task rd) in
  do! reinstall := query (λ st, agentReinstallBlocked st agentID) in
  fail_if (reinstall && negb recovery) errExecutionBlocked ;;;
  do! paused := query executionClaimsPaused in
  fail_if paused errExecutionBlocked ;;;
  kind_fence agentID task rd ;;;
  do! current := query (λ st, session_current st agentID sessionID) in
  if current then
    insert_execution (offered_execution agentID sessionID id task now) ;;;
    ok (mk_authorization id ExecutionProtocol (sha256_hex (task_json task)))
  else fail errExecutionBlocked.

End Claim.
