(* ===== verification/Handoff.v ===== *)
(** * Host helpers: transfer of a running execution to a detached helper

    execution_update_handoff.go, agent_decommission_tasks.go,
    execution_decommission_step.go and the handoff and observation of
    tailscale_update_tasks.go.  A helper outlives the Agent process, so its
    execution leaves the session fence ([helper_running]) and each of its steps
    consumes the preceding phase. *)
From S2P Require Import Prelude GoText Redact GoTime Store Execution.

Definition agentConnectedMaxAge : Z := 45 * second.

Definition agentDecommissionTaskID (agentID : string) : string := "agent-decommission-" +:+ agentID.

(** [recordTaskEvent] (tasks.go), at the instant [now]. *)
Definition recordTaskEvent (taskID agentID kind : string) (revision : Z) (event message : string)
    (now : Z) : M unit :=
  let m := trim_space message in
  let m := if 1024 <? str_len m then String.substring 0 1024 m else m in
  λ st, (with_task_event (mk_task_event taskID agentID kind revision event m (rfc3339nano now)) st,
         Ok tt).

(** SQLite's [LIKE]: [%] matches any text, [_] any character, and ASCII letters
    match whatever their case. *)
Definition fold_case (c : Ascii.ascii) : nat :=
  let n := Ascii.nat_of_ascii c in if Nat.leb 65 n && Nat.leb n 90 then (n + 32)%nat else n.

Fixpoint sql_like (p : list Ascii.ascii) : list Ascii.ascii → bool :=
  match p with
  | [] => λ s, match s with [] => true | _ => false end
  | c :: p' =>
      if Nat.eqb (Ascii.nat_of_ascii c) 37 then
        fix any s := sql_like p' s || match s with [] => false | _ :: s' => any s' end
      else λ s,
        match s with
        | [] => false
        | d :: s' => (Nat.eqb (Ascii.nat_of_ascii c) 95 || Nat.eqb (fold_case c) (fold_case d))
                     && sql_like p' s'
        end
  end.

Definition like (s pattern : string) : bool :=
  sql_like (String.list_ascii_of_string pattern) (String.list_ascii_of_string s).

Section Handoff.
Context {L : Libraries}.

(** ** The Agent update helper *)

Definition is_update_row (taskID agentID : string) (attempt : Z) (t : task_row) : bool :=
  bool_decide (tr_table t = agent_updates) && (tr_id t =?s taskID) && (tr_agent_id t =?s agentID)
  && (tr_attempt t =? attempt).

(** [beginAgentUpdateExecution]: consumes the handoff phase and the business
    lease in one transaction. *)
Definition beginAgentUpdateExecution (agentID credential taskID : string) (attempt : Z)
    (executionID sessionID : string) (now : Z) : M unit :=
  authenticateAgent agentID credential ;;;
  fail_if ((executionID =?s "") || (sessionID =?s "") || (attempt <=? 0))
    errExecutionAuthorization ;;;
  transaction (
    guarded
      (λ st r, (te_id r =?s executionID) && (te_agent_id r =?s agentID) && (te_task_id r =?s taskID)
            && (te_attempt r =? attempt) && (te_session_id r =?s sessionID)
            && (te_kind r =?s "agent.update") && state_eqb (te_state r) Running
            && (te_phase r =?s "handoff") && (te_disposition r =?s "")
            && unexpired (te_expires_at r) now && session_current st agentID sessionID)
      (λ r, set_expires_at (lease now helperLeaseDuration)
              (set_updated_at (rfc3339nano now) (set_phase "helper" (set_state HelperRunning r))))
      errExecutionAuthorization ;;;
    do! m := update_tasks
      (λ t, is_update_row taskID agentID attempt t && (tr_state t =?s "running")
            && unexpired (tr_lease_expires_at t) now)
      (λ t, set_tr_updated (rfc3339nano now) (set_tr_lease "" (set_tr_state "installing" t))) in
    expect_one m errStaleTaskLease).

Definition helper_previous (phase : string) : option string :=
  if phase =?s "stop" then Some "helper"
  else if phase =?s "backup" then Some "stop"
  else if phase =?s "preserve" then Some "backup"
  else if phase =?s "install" then Some "preserve"
  else if phase =?s "start" then Some "install"
  else None.

(** [CheckUpdateHelperStep]. *)
Definition CheckUpdateHelperStep (agentID sessionID executionID phase : string) (now : Z) : M unit :=
  match helper_previous phase with
  | None => fail errExecutionAuthorization
  | Some previous =>
      guarded
        (λ _ r, (te_id r =?s executionID) && (te_agent_id r =?s agentID)
              && (te_session_id r =?s sessionID) && (te_kind r =?s "agent.update")
              && state_eqb (te_state r) HelperRunning && (te_phase r =?s previous)
              && (te_disposition r =?s "") && unexpired (te_expires_at r) now)
        (λ r, set_updated_at (rfc3339nano now) (set_phase phase r))
        errExecutionAuthorization
  end.

(** An Agent heard from within [agentConnectedMaxAge]. *)
Definition recently_seen (lastSeen : string) (now : Z) : bool :=
  match parse_rfc3339 lastSeen with
  | Some seen => now - agentConnectedMaxAge <? seen
  | None => false
  end.

(** [UpdateHelperObserved]: the joined query, then the observation. *)
Definition UpdateHelperObserved (agentID sessionID executionID : string) (now : Z) (st : Store)
    : res bool :=
  match sql_row (λ e, (te_id e =?s executionID) && (te_agent_id e =?s agentID)
                      && (te_session_id e =?s sessionID) && (te_kind e =?s "agent.update")
                      && state_eqb (te_state e) HelperRunning && (te_phase e =?s "start")
                      && (te_disposition e =?s "") && unexpired (te_expires_at e) now)
          (executions st) with
  | None => Err errExecutionAuthorization
  | Some e =>
      match sql_row (λ u, is_update_row (te_task_id e) (te_agent_id e) (te_attempt e) u
                          && (tr_state u =?s "installing")) (tasks st),
            sql_row (λ a, ag_id a =?s te_agent_id e) (agents st) with
      | Some u, Some a =>
          Ok (ag_remote_update_supported a && (ag_version a =?s tr_target_version u)
              && recently_seen (ag_last_seen_at a) now)
      | _, _ => Err errExecutionAuthorization
      end
  end.

(** ** The decommission helper *)

Definition is_decommission_row (agentID : string) (t : task_row) : bool :=
  bool_decide (tr_table t = agent_decommissions) && (tr_agent_id t =?s agentID).

(** [beginAgentDecommission]. *)
Definition beginAgentDecommission (agentID credential taskID : string) (expectedAttempt : Z)
    (executionID sessionID : string) (now : Z) : M unit :=
  fail_if (negb (taskID =?s agentDecommissionTaskID agentID) || (expectedAttempt <=? 0))
    errStaleTaskLease ;;;
  authenticateAgent agentID credential ;;;
  fail_if ((executionID =?s "") || (sessionID =?s "")) errExecutionAuthorization ;;;
  transaction (
    guarded
      (λ st r, (te_id r =?s executionID) && (te_agent_id r =?s agentID) && (te_task_id r =?s taskID)
            && (te_attempt r =? expectedAttempt) && (te_session_id r =?s sessionID)
            && (te_kind r =?s "agent.decommission") && state_eqb (te_state r) Running
            && (te_phase r =?s "handoff") && (te_disposition r =?s "")
            && unexpired (te_expires_at r) now && session_current st agentID sessionID)
      (λ r, set_expires_at (lease now helperLeaseDuration)
              (set_updated_at (rfc3339nano now) (set_phase "cleanup" (set_state HelperRunning r))))
      errExecutionAuthorization ;;;
    do! m := update_tasks
      (λ t, is_decommission_row agentID t && (tr_state t =?s "running")
            && (tr_attempt t =? expectedAttempt) && unexpired (tr_lease_expires_at t) now)
      (λ t, set_tr_updated (rfc3339nano now) (set_tr_lease "" (set_tr_state "cleaning" t))) in
    expect_one m errStaleTaskLease ;;;
    recordTaskEvent taskID agentID "agent.decommission" 1 "claimed"
      ("persistent host cleanup helper started attempt " +:+ decimal expectedAttempt) now).

(** The text of a consumed cleanup step. *)
Definition cleanup_phase (sequence : Z) (phase : string) : string :=
  "cleanup:" +:+ decimal sequence +:+ ":" +:+ phase.

(** The phases a step may follow: the initial one for the first step, any phase
    of the preceding sequence number otherwise, and never a finished cleanup. *)
Definition cleanup_follows (sequence : Z) (phase : string) : bool :=
  ((phase =?s (if sequence =? 1 then "cleanup" else ""))
   || like phase ("cleanup:" +:+ decimal (sequence - 1) +:+ ":%"))
  && negb (like phase "cleanup:%:done").

(** [AuthorizeDecommissionStep]. *)
Definition AuthorizeDecommissionStep (taskID token : string) (attempt sequence : Z)
    (phase : string) (now : Z) : M unit :=
  fail_if ((token =?s "") || (attempt <=? 0) || (sequence <=? 0) || (1024 <? sequence))
    errExecutionAuthorization ;;;
  fail_if (negb (str_in phase ["command"; "runtime"; "files"; "cancel-update"; "done"]))
    errExecutionAuthorization ;;;
  transaction (
    do! row := query (λ st, sql_row
      (λ t, bool_decide (tr_table t = agent_decommissions)
            && (agentDecommissionTaskID (tr_agent_id t) =?s taskID) && (tr_attempt t =? attempt)
            && (tr_state t =?s "cleaning")) (tasks st)) in
    match row with
    | None => fail errExecutionAuthorization
    | Some t =>
        fail_if (negb (tr_callback_token_hash t =?s token_hash token)) errExecutionAuthorization ;;;
        guarded
          (λ _ r, (te_agent_id r =?s tr_agent_id t) && (te_task_id r =?s taskID)
                && (te_attempt r =? attempt) && (te_kind r =?s "agent.decommission")
                && state_eqb (te_state r) HelperRunning && (te_disposition r =?s "")
                && unexpired (te_expires_at r) now && cleanup_follows sequence (te_phase r))
          (λ r, set_updated_at (rfc3339nano now) (set_phase (cleanup_phase sequence phase) r))
          errExecutionAuthorization
    end).

Definition callback_error : string := "center: invalid Agent host cleanup callback".

(** [completeAgentDecommissionCallback]; [result] is the JSON text of the
    attempt and the redacted error. *)
Definition completeAgentDecommissionCallback (taskID token : string) (expectedAttempt : Z)
    (taskError result : string) (now : Z) : M unit :=
  let taskID := trim_space taskID in
  let token := trim_space token in
  fail_if ((taskID =?s "") || (token =?s "") || (expectedAttempt <=? 0)) callback_error ;;;
  transaction (
    do! row := query (λ st, sql_row
      (λ t, bool_decide (tr_table t = agent_decommissions)
            && (agentDecommissionTaskID (tr_agent_id t) =?s taskID)) (tasks st)) in
    match row with
    | None => fail callback_error
    | Some t =>
        fail_if (negb (tr_attempt t =? expectedAttempt) || negb (tr_state t =?s "cleaning")
                 || negb (tr_callback_token_hash t =?s token_hash token)) callback_error ;;;
        let failed := negb (taskError =?s "") in
        let taskError := if failed then SafeError taskError else taskError in
        do! execution := query (λ st, sql_row
          (λ r, (te_agent_id r =?s tr_agent_id t) && (te_task_id r =?s taskID)
                && (te_attempt r =? expectedAttempt) && (te_kind r =?s "agent.decommission")
                && state_eqb (te_state r) HelperRunning
                && ((te_phase r =?s "cleanup") || like (te_phase r) "cleanup:%")
                && (te_disposition r =?s "") && unexpired (te_expires_at r) now) (executions st)) in
        match execution with
        | None => fail errExecutionAuthorization
        | Some e =>
            fail_if ((taskError =?s "") && negb (has_suffix ":done" (te_phase e)))
              errExecutionAuthorization ;;;
            let phase := if negb (taskError =?s "") then te_phase e
                         else if failed then "cleanup" else "completed" in
            let evidence := evidence_json (mk_evidence result (taskError =?s "")
                              (negb (taskError =?s "")) None) in
            guarded
              (λ _ r, (te_id r =?s te_id e) && state_eqb (te_state r) HelperRunning
                    && (te_phase r =?s te_phase e) && (te_disposition r =?s "")
                    && unexpired (te_expires_at r) now)
              (λ r, set_updated_at (rfc3339nano now)
                      (set_sealed_result (seal ("execution-result:" +:+ te_id e) evidence)
                         (set_last_error taskError
                            (set_phase phase (set_state (if failed then Unknown else Succeeded) r)))))
              errExecutionAuthorization ;;;
            do! m := update_tasks
              (λ d, is_decommission_row (tr_agent_id t) d && (tr_state d =?s "cleaning")
                    && (tr_attempt d =? expectedAttempt))
              (λ d, set_tr_updated (rfc3339nano now)
                      (set_tr_error taskError
                         (set_tr_lease "" (set_tr_state (if failed then "failed" else "succeeded") d)))) in
            fail_if (negb (m =? 1)) "center: Agent host cleanup task is stale" ;;;
            recordTaskEvent (agentDecommissionTaskID (tr_agent_id t)) (tr_agent_id t)
              "agent.decommission" 1 (if failed then "failed" else "succeeded") taskError now
        end
    end).

(** ** The Tailscale update helper *)

(** [beginTailscaleUpdate]. *)
Definition beginTailscaleUpdate (agentID credential taskID executionID sessionID : string)
    (attempt now : Z) : M unit :=
  transaction (
    authenticateAgent agentID credential ;;;
    guarded
      (λ st r, (te_id r =?s executionID) && (te_agent_id r =?s agentID) && (te_task_id r =?s taskID)
            && (te_attempt r =? attempt) && (te_session_id r =?s sessionID)
            && (te_kind r =?s "tailscale.update") && state_eqb (te_state r) Running
            && (te_phase r =?s "handoff") && (te_disposition r =?s "")
            && unexpired (te_expires_at r) now && session_current st agentID sessionID)
      (λ r, set_expires_at (lease now helperLeaseDuration)
              (set_updated_at (rfc3339nano now) (set_phase "start" (set_state HelperRunning r))))
      errExecutionAuthorization ;;;
    do! m := update_tasks
      (λ t, bool_decide (tr_table t = tailscale_update_tasks) && (tr_id t =?s taskID)
            && (tr_agent_id t =?s agentID) && (tr_attempt t =? attempt)
            && (tr_state t =?s "running") && unexpired (tr_lease_expires_at t) now)
      (λ t, set_tr_updated (rfc3339nano now)
              (set_tr_error "" (set_tr_lease "" (set_tr_state "awaiting_decision" t)))) in
    expect_one m errStaleTaskLease ;;;
    recordTaskEvent taskID agentID "tailscale.update" 1 "claimed"
      "Waiting for the update service and reconnect" now).

End Handoff.
