(* ===== verification/Disposition.v ===== *)
(** * Operator decisions on unresolved executions

    execution_disposition.go, execution_helper_disposition.go,
    execution_projection.go and execution_confirmation.go: re-execution,
    abandonment, and confirmation of a retained result.  A decision touches one
    execution and one exact business attempt, in one transaction. *)
From S2P Require Import Prelude GoText Redact GoTime TaskIds Store Execution Claims Handoff.

Record ExecutionDisposition := mk_disposition {
  di_action : string; di_execution_stopped : bool; di_note : string
}.

(** A business statement: the rows it selects and what it assigns. *)
Record statement := mk_statement {
  sm_where : Store → task_row → bool;
  sm_set : task_row → task_row
}.

Definition run_statement (s : statement) : M Z :=
  λ st, update_tasks (sm_where s st) (sm_set s) st.

(** The two shapes of identity: a task row by [id], and a desired-state row by
    node and revision; both are bound to the attempt. *)
Definition by_id (table : business_table) (task : AgentTask) (agentID : string)
    (from : list string) (t : task_row) : bool :=
  bool_decide (tr_table t = table) && (tr_id t =?s at_id task) && (tr_agent_id t =?s agentID)
  && (tr_attempt t =? at_attempt task) && str_in (tr_state t) from.

Definition by_revision (table : business_table) (task : AgentTask) (agentID : string)
    (from : list string) (t : task_row) : bool :=
  bool_decide (tr_table t = table) && (tr_agent_id t =?s agentID)
  && (tr_revision t =? at_revision task) && (tr_attempt t =? at_attempt task)
  && str_in (tr_state t) from.

Definition open_states : list string := ["running"; "failed"; "pending"].
Definition open_statuses : list string := ["applying"; "failed"; "pending"].

(** [SET state=..,lease_expires_at='',error=..,updated_at=now]. *)
Definition close_task (state error now : string) (t : task_row) : task_row :=
  set_tr_updated now (set_tr_error error (set_tr_lease "" (set_tr_state state t))).

(** The desired-state tables keep their error column. *)
Definition close_status (status now : string) (t : task_row) : task_row :=
  set_tr_updated now (set_tr_lease "" (set_tr_state status t)).

Definition task_statement (table : business_table) (task : AgentTask) (agentID state error now : string)
    : statement :=
  mk_statement (λ _, by_id table task agentID open_states) (close_task state error now).

Definition status_statement (table : business_table) (task : AgentTask) (agentID status now : string)
    : statement :=
  mk_statement (λ _, by_revision table task agentID open_statuses) (close_status status now).

Definition clear_reconciliation (s : statement) : statement :=
  mk_statement (sm_where s) (λ t, set_tr_reconciliation false false (sm_set s t)).

Definition clear_required (s : statement) : statement :=
  mk_statement (sm_where s)
    (λ t, set_tr_reconciliation false (tr_reconciliation_requested t) (sm_set s t)).

Definition diagnostic_kinds : list string :=
  ["node.network-quality"; "node.return-route"; "node.international-bandwidth"; "node.host-profile";
   "meridian.link-bandwidth"; "meridian.link-bandwidth-server"].

(** The desired-state table of a revisioned kind. *)
Definition status_table (kind : string) : option business_table :=
  if kind =?s "landing.proxy.apply" then Some landing_proxy_states
  else if kind =?s "landing.server.apply" then Some landing_server_states
  else if kind =?s "gateway.routes.apply" then Some gateway_states
  else if kind =?s "gateway.component.apply" then Some gateway_components
  else if kind =?s "node.listener.apply" then Some node_listener_states
  else if kind =?s "tunnel.state.apply" then Some cloudflare_tunnels
  else None.

(** An attempt that obtained a boot grant, by its audit events. *)
Definition boot_granted (st : Store) (t : task_row) : bool :=
  existsb (λ e, (te_task_id e =?s tr_id t) && (te_agent_id e =?s tr_agent_id t)
                && (te_attempt e =? tr_attempt t)
                && existsb (λ ev, (ev_execution_id ev =?s te_id e)
                                  && ((ev_phase ev =?s "reinstall_armed")
                                      || state_eqb (ev_state ev) HelperRunning))
                     (execution_events st)) (executions st).

(** [executionAbandonStatement]. *)
Definition executionAbandonStatement (task : AgentTask) (agentID now : string) : res statement :=
  let k := at_kind task in
  let closed table error := task_statement table task agentID "failed" error now in
  if k =?s "node.os-reinstall" then
    Ok (mk_statement
          (λ st t, bool_decide (tr_table t = os_reinstall_tasks) && (tr_id t =?s at_id task)
                   && (tr_agent_id t =?s agentID) && (tr_attempt t =? at_attempt task)
                   && ((tr_state t =?s "failed")
                       || ((tr_state t =?s "unknown") && (str_len (tr_encrypted_backup t) =? 0)
                           && (str_len (tr_sealed_network t) =? 0)))
                   && negb (boot_granted st t))
          (close_status "cancelled" now))
  else if k =?s "tailscale.update" then
    Ok (task_statement tailscale_update_tasks task agentID "abandoned"
          "abandoned after operator review" now)
  else if k =?s "node.site.certificate" then
    Ok (closed node_site_tasks "Abandoned; inspect recovered website state")
  else if k =?s "node.security" then
    Ok (closed node_security_tasks "abandoned; inspect host rollback state")
  else if k =?s "node.ip-quality" then Ok (closed ip_quality_checks "abandoned")
  else if str_in k diagnostic_kinds then Ok (closed node_diagnostic_checks "abandoned")
  else if (k =?s "xray.configuration.inspect") || (k =?s "xray.configuration.apply") then
    Ok (closed xray_configuration_recoveries "abandoned")
  else if k =?s "application.apply" then
    Ok (clear_reconciliation (closed deployments "Abandoned by operator"))
  else if k =?s "application.adopt" then Ok (closed application_adoptions "Abandoned by operator")
  else if k =?s "application.maintenance" then
    Ok (clear_required (closed application_maintenance
          "Abandoned by operator; retained instance evidence requires verification"))
  else if k =?s "application.command" then
    Ok (clear_reconciliation (closed application_commands "Abandoned by operator"))
  else match status_table k with
       | Some table => Ok (status_statement table task agentID "failed" now)
       | None => Err "center: this execution requires its dedicated resolution workflow"
       end.

(** [executionRequeueStatement]. *)
Definition executionRequeueStatement (task : AgentTask) (agentID now : string) : res statement :=
  let k := at_kind task in
  let requeued table := task_statement table task agentID "pending" "" now in
  if k =?s "node.site.certificate" then
    Err "center: inspect the restored website after abandoning the uncertain execution; request a fresh revision"
  else if k =?s "tailscale.update" then
    Err "center: inspect the Tailscale update before issuing a fresh operation"
  else if k =?s "node.security" then
    Err "center: inspect the host security checkpoint before issuing a fresh operation"
  else if k =?s "application.maintenance" then
    Err "center: uncertain package maintenance cannot be replayed; inspect retained resource and backup evidence"
  else if k =?s "node.ip-quality" then Ok (requeued ip_quality_checks)
  else if str_in k diagnostic_kinds then Ok (requeued node_diagnostic_checks)
  else if (k =?s "xray.configuration.inspect") || (k =?s "xray.configuration.apply") then
    Ok (requeued xray_configuration_recoveries)
  else if k =?s "application.apply" then Ok (clear_reconciliation (requeued deployments))
  else if k =?s "application.adopt" then Ok (requeued application_adoptions)
  else if k =?s "application.command" then Ok (clear_reconciliation (requeued application_commands))
  else if k =?s "agent.update" then
    Ok (mk_statement (λ _, by_id agent_updates task agentID (open_states ++ ["installing"]))
          (close_task "pending" "" now))
  else if k =?s "agent.decommission" then
    Ok (mk_statement
          (λ _ t, is_decommission_row agentID t && (tr_attempt t =? at_attempt task)
                  && str_in (tr_state t) (open_states ++ ["cleaning"]))
          (λ t, set_tr_callback "" (close_task "pending" "" now t)))
  else match status_table k with
       | Some table => Ok (status_statement table task agentID "pending" now)
       | None => Err "center: unsupported execution kind"
       end.

Section Dispositions.
Context {L : Libraries}.

(** The evidence of an execution: the task sealed under its identifier, which
    must be the task the row names. *)
Definition execution_task (r : task_execution) : option AgentTask :=
  unseal ("execution-task:" +:+ te_id r) (te_sealed_task r) ≫= task_of_json.

Definition evidence_matches (r : task_execution) (task : AgentTask) : bool :=
  (at_id task =?s te_task_id r) && (at_kind task =?s te_kind r) && (at_attempt task =? te_attempt r).

(** The final statement of a decision. *)
Definition record_disposition (id action note actor now : string) : M unit :=
  guarded
    (λ _ r, (te_id r =?s id) && (te_disposition r =?s "") && state_in (te_state r) [Failed; Unknown])
    (λ r, set_updated_at now (set_disposition action (SafeError note) actor now r))
    errExecutionAuthorization.

Definition note_invalid (note : string) : bool := (trim_space note =?s "") || (1024 <? str_len note).

(** The follow-up of a decision on the website and application rows. *)
Definition disposition_followup (kind action taskID now : string) : M unit :=
  (if (kind =?s "node.site.certificate") && (action =?s "abandon") then
     λ st, (with_node_sites (sql_update
              (λ s, existsb (λ t, bool_decide (tr_table t = node_site_tasks) && (tr_id t =?s taskID)
                                  && (tr_application_id t =?s ns_application_id s)) (tasks st))
              (λ s, mk_node_site (ns_application_id s) (ns_revision s) "action_required"
                      "Abandoned; inspect recovered website state" now) (node_sites st)) st, Ok tt)
   else ok tt) ;;;
  (if kind =?s "application.apply" then
     λ st, (with_applications (sql_update
              (λ a, existsb (λ t, bool_decide (tr_table t = deployments) && (tr_id t =?s taskID)
                                  && (tr_application_id t =?s ap_id a)) (tasks st))
              (set_application_status (if action =?s "abandon" then "failed" else "pending") now)
              (applications st)) st, Ok tt)
   else ok tt).

(** [disposeTaskExecution].  [command_blocked] is the outcome of
    [reinstallCommandTargetBlocked] for the row. *)
Definition disposeTaskExecution (executionID adminID : string) (input : ExecutionDisposition)
    (command_blocked : bool) (now : Z) : M unit :=
  fail_if (negb (di_execution_stopped input) || note_invalid (di_note input))
    "center: confirm the previous execution stopped and record the verification before reexecution" ;;;
  transaction (
    do! admin := query (λ st, is_admin st adminID) in
    fail_if (negb admin) "center: administrator authorization required" ;;;
    do! row := query (λ st, sql_row (λ r, te_id r =?s executionID) (executions st)) in
    match row with
    | None => fail errNoRows
    | Some r =>
        fail_if (negb (state_in (te_state r) [Failed; Unknown]) || negb (te_disposition r =?s ""))
          "center: execution is not unresolved" ;;;
        fail_if (negb (te_identity_retired_at r =?s "") && (di_action input =?s "reexecute"))
          "center: previous machine identity was retired; create a new recovery task from reviewed intent" ;;;
        fail_if ((te_kind r =?s "application.command") && (di_action input =?s "reexecute")
                 && command_blocked) errExecutionBlocked ;;;
        match unseal ("execution-task:" +:+ executionID) (te_sealed_task r) with
        | None => fail "center: execution evidence cannot be verified"
        | Some raw =>
        match task_of_json raw with
        | None => fail "center: execution evidence does not match its identity"
        | Some task =>
            fail_if (negb (evidence_matches r task))
              "center: execution evidence does not match its identity" ;;;
            let stamp := rfc3339nano now in
            do! s := lift (if di_action input =?s "abandon"
                           then executionAbandonStatement task (te_agent_id r) stamp
                           else executionRequeueStatement task (te_agent_id r) stamp) in
            do! changed := run_statement s in
            do! missing := query (λ st,
              (changed =? 0) && (di_action input =?s "abandon")
              && (te_kind r =?s "application.command")
              && negb (sql_exists (λ t, bool_decide (tr_table t = application_commands)
                                        && (tr_id t =?s te_task_id r)) (tasks st))) in
            fail_if (negb (changed =? 1) && negb missing)
              "center: task changed; verify its current state" ;;;
            disposition_followup (te_kind r) (di_action input) (te_task_id r) stamp ;;;
            record_disposition executionID (di_action input) (di_note input) adminID stamp
        end end
    end).

Definition ReexecuteExecution (executionID adminID : string) (input : ExecutionDisposition)
    (command_blocked : bool) (now : Z) : M unit :=
  if negb (di_action input =?s "reexecute") then fail errExecutionAuthorization
  else disposeTaskExecution executionID adminID input command_blocked now.

Definition AbandonExecution (executionID adminID : string) (input : ExecutionDisposition)
    (command_blocked : bool) (now : Z) : M unit :=
  if negb (di_action input =?s "abandon") then fail errExecutionAuthorization
  else disposeTaskExecution executionID adminID input command_blocked now.

(** ** Host helpers (execution_helper_disposition.go) *)

Definition helper_unresolved (id : string) (r : task_execution) : bool :=
  (te_id r =?s id) && str_in (te_kind r) ["agent.update"; "agent.decommission"]
  && state_in (te_state r) [Failed; Unknown] && (te_disposition r =?s "").

(** The target version must be observed online to confirm an Agent update. *)
Definition update_observed (r : task_execution) (seen_now : Z) (st : Store) : res unit :=
  match sql_row (is_update_row (te_task_id r) (te_agent_id r) (te_attempt r)) (tasks st),
        sql_row (λ a, ag_id a =?s te_agent_id r) (agents st) with
  | Some u, Some a =>
      guard_err (negb (ag_version a =?s tr_target_version u)
                 || negb (recently_seen (ag_last_seen_at a) seen_now))
        "center: target version must be observed online before confirming completion"
  | _, _ => Err errExecutionAuthorization
  end.

(** The business statement of a helper decision. *)
Definition helper_statement (r : task_execution) (state message now : string) : statement :=
  if te_kind r =?s "agent.decommission" then
    mk_statement
      (λ _ t, is_decommission_row (te_agent_id r) t && (tr_attempt t =? te_attempt r)
              && str_in (tr_state t) ["failed"; "cleaning"; "running"])
      (λ t, set_tr_callback "" (close_task state message now t))
  else
    mk_statement
      (λ _ t, is_update_row (te_task_id r) (te_agent_id r) (te_attempt r) t
              && str_in (tr_state t) ["failed"; "installing"; "running"])
      (close_task state message now).

(** [DisposeHelperExecution].  The clock is read at [seen_now] for the
    observation and at [now] for the records. *)
Definition DisposeHelperExecution (id adminID : string) (input : ExecutionDisposition)
    (seen_now now : Z) : M unit :=
  fail_if (negb (str_in (di_action input) ["confirm-completed"; "abandon"])
           || negb (di_execution_stopped input) || note_invalid (di_note input))
    "center: confirm stopped execution and record verification" ;;;
  transaction (
    do! admin := query (λ st, is_admin st adminID) in
    fail_if (negb admin) "center: administrator authorization required" ;;;
    do! row := query (λ st, sql_row (helper_unresolved id) (executions st)) in
    match row with
    | None => fail errExecutionAuthorization
    | Some r =>
        let confirmed := di_action input =?s "confirm-completed" in
        fail_if (negb (te_identity_retired_at r =?s "") && confirmed)
          "center: replacement machine observations cannot confirm the previous machine's helper execution" ;;;
        (if confirmed && (te_kind r =?s "agent.update")
         then (λ st, (st, update_observed r seen_now st)) else ok tt) ;;;
        do! n := run_statement (helper_statement r (if confirmed then "succeeded" else "failed")
                   (if confirmed then "" else "Abandoned by operator") (rfc3339nano now)) in
        expect_one n errExecutionAuthorization ;;;
        record_disposition id (di_action input) (di_note input) adminID (rfc3339nano now)
    end).

End Dispositions.
