(* ===== verification/Confirmation.v ===== *)
(** * Projection of retained results

    execution_projection.go and execution_confirmation.go, and the recovery
    loops of execution.go that use them.  A result that reached the Center
    before its Agent disappeared is applied to the business tables only when
    the evidence supports it and the exact business attempt is still open. *)
From S2P Require Import Prelude GoText GoTime TaskIds Store Execution Claims Handoff Disposition.

Definition LegacyExportKind : string := "meridian.legacy.export".
Definition errRetainedExecutionNotRecoverable : string :=
  "center: retained execution result requires operator verification".

(** The task table of a kind identified by its task [id]. *)
Definition id_table (kind : string) : option business_table :=
  if kind =?s "tailscale.update" then Some tailscale_update_tasks
  else if kind =?s "node.site.certificate" then Some node_site_tasks
  else if kind =?s "node.os-reinstall" then Some os_reinstall_tasks
  else if kind =?s "node.security" then Some node_security_tasks
  else if kind =?s "node.ip-quality" then Some ip_quality_checks
  else if str_in kind diagnostic_kinds then Some node_diagnostic_checks
  else if (kind =?s "xray.configuration.inspect") || (kind =?s "xray.configuration.apply")
  then Some xray_configuration_recoveries
  else if kind =?s "application.apply" then Some deployments
  else if kind =?s "application.adopt" then Some application_adoptions
  else if kind =?s "application.maintenance" then Some application_maintenance
  else if kind =?s "application.command" then Some application_commands
  else if kind =?s "agent.update" then Some agent_updates
  else None.

Definition id_row (table : business_table) (taskID agentID : string) (attempt : Z) (t : task_row)
    : bool :=
  bool_decide (tr_table t = table) && (tr_id t =?s taskID) && (tr_agent_id t =?s agentID)
  && (tr_attempt t =? attempt).

Definition node_row (table : business_table) (agentID : string) (attempt : Z) (t : task_row) : bool :=
  bool_decide (tr_table t = table) && (tr_agent_id t =?s agentID) && (tr_attempt t =? attempt).

Definition row_state (o : option task_row) : res string :=
  match o with Some t => Ok (tr_state t) | None => Err errNoRows end.

(** The state column of the business row of an execution, as the switch of
    [validateExecutionProjection] selects it. *)
Definition projection_state (r : task_execution) (succeeded : bool) (st : Store) : res string :=
  let kind := te_kind r in
  let landing table revision :=
    match sql_row (node_row table (te_agent_id r) (te_attempt r)) (tasks st) with
    | None => Err errNoRows
    | Some t =>
        if succeeded then
          match revision with
          | None => Err "center: invalid landing task revision"
          | Some rev => Ok (if rev <=? tr_applied_revision t then "ready" else tr_state t)
          end
        else Ok (tr_state t)
    end in
  match id_table kind with
  | Some table =>
      row_state (sql_row (id_row table (te_task_id r) (te_agent_id r) (te_attempt r)) (tasks st))
  | None =>
      if kind =?s "agent.decommission" then
        row_state (sql_row (node_row agent_decommissions (te_agent_id r) (te_attempt r)) (tasks st))
      else if kind =?s "landing.proxy.apply" then
        if succeeded && negb (is_Some_b (landingProxyTaskRevision (te_task_id r)))
        then Err "center: invalid landing proxy task revision"
        else landing landing_proxy_states (landingProxyTaskRevision (te_task_id r))
      else if kind =?s "landing.server.apply" then
        if succeeded && negb (is_Some_b (landingServerTaskRevision (te_task_id r)))
        then Err "center: invalid landing server task revision"
        else landing landing_server_states (landingServerTaskRevision (te_task_id r))
      else match status_table kind with
           | Some table =>
               row_state (sql_row (node_row table (te_agent_id r) (te_attempt r)) (tasks st))
           | None => Err "center: unsupported execution projection"
           end
  end.

(** A legacy export that the Center could not import. *)
Definition import_failure (r : task_execution) (st : Store) : bool :=
  match sql_row (id_row application_commands (te_task_id r) (te_agent_id r) (te_attempt r)) (tasks st)
  with
  | Some c =>
      (tr_kind c =?s LegacyExportKind)
      && (has_prefix "center: Meridian import failed:" (tr_error c)
          || (tr_error c =?s "center: Agent returned an invalid Meridian legacy export"))
  | None => false
  end.

(** [validateExecutionProjection]. *)
Definition validateExecutionProjection (id : string) (succeeded : bool) (st : Store) : res unit :=
  match sql_row (λ r, te_id r =?s id) (executions st) with
  | None => Err errNoRows
  | Some r =>
      let! state := projection_state r succeeded st in
      if succeeded && str_in state ["succeeded"; "awaiting_decision"; "ready"; "stopped"]
         || negb succeeded && (state =?s "failed") then Ok tt
      else if negb succeeded && (te_kind r =?s "node.os-reinstall") && (state =?s "unknown")
      then Ok tt
      else if succeeded && (te_kind r =?s "application.command") && (state =?s "failed")
              && import_failure r st
      then Ok tt
      else Err "center: execution result does not match the business projection"
  end.

Section Retained.
Context {L : Libraries}.

(** [retainedResultSupportsConfirmation]. *)
Definition retainedResultSupportsConfirmation (kind : string) (e : executionResultEvidence) : bool :=
  if negb (evd_succeeded e) || evd_unknown e || negb (json_valid (evd_result e)) then false
  else if kind =?s "application.apply" then is_Some_b (evd_generation e)
  else str_in kind ["node.site.certificate"; "application.maintenance"; "application.adopt";
                    "application.command"; "landing.server.apply"; "landing.proxy.apply";
                    "gateway.routes.apply"; "gateway.component.apply"; "node.listener.apply";
                    "tunnel.state.apply"].

(** Rows of [table] for the same application inserted after [t]. *)
Fixpoint newer_rows (t : task_row) (l : list task_row) : list task_row :=
  match l with
  | [] => []
  | x :: l' => if bool_decide (tr_table x = tr_table t) && (tr_id x =?s tr_id t) then l'
               else newer_rows t l'
  end.

Definition newer_in (table : business_table) (t : task_row) (st : Store) : bool :=
  existsb (λ x, bool_decide (tr_table x = table) && (tr_application_id x =?s tr_application_id t))
    (newer_rows t (tasks st)).

(** A deployment of the application after the one the maintenance belongs to. *)
Definition newer_deployment (t : task_row) (st : Store) : bool :=
  match sql_row (λ d, bool_decide (tr_table d = deployments) && (tr_id d =?s tr_deployment_id t))
          (tasks st) with
  | None => false
  | Some d => existsb (λ x, bool_decide (tr_table x = deployments)
                            && (tr_application_id x =?s tr_application_id t))
                (newer_rows d (tasks st))
  end.

Definition reopen (state : string) (t : task_row) : task_row := set_tr_state state t.
Definition reopen_states : list string := ["running"; "failed"].
Definition reopen_statuses : list string := ["applying"; "failed"].

(** The identifier a revisioned task must have. *)
Definition expected_task_id (kind agentID : string) (revision : Z) : string :=
  if kind =?s "landing.server.apply" then landingServerTaskID agentID revision
  else if kind =?s "landing.proxy.apply" then landingProxyTaskID agentID revision
  else if kind =?s "gateway.routes.apply" then gatewayRouteTaskID agentID revision
  else if kind =?s "gateway.component.apply" then gatewayComponentTaskID agentID revision
  else if kind =?s "node.listener.apply" then nodeListenerTaskID agentID revision
  else tunnelTaskID agentID revision.

(** [executionConfirmationStatement]: reopens the exact attempt, and never one
    that a newer task of the application has replaced. *)
Definition executionConfirmationStatement (task : AgentTask) (agentID : string) : res statement :=
  let k := at_kind task in
  let guarded table (g : Store → task_row → bool) :=
    Ok (mk_statement (λ st t, by_id table task agentID reopen_states t && g st t) (reopen "running")) in
  if k =?s "node.site.certificate" then
    guarded node_site_tasks
      (λ st t, existsb (λ s, (ns_application_id s =?s tr_application_id t)
                             && (ns_revision s =? tr_revision t)) (node_sites st))
  else if k =?s "application.maintenance" then
    guarded application_maintenance
      (λ st t, negb (newer_in application_maintenance t st) && negb (newer_deployment t st))
  else if k =?s "application.adopt" then guarded application_adoptions (λ _ _, true)
  else if k =?s "application.command" then
    guarded application_commands (λ st t, negb (newer_in application_commands t st))
  else if k =?s "application.apply" then
    guarded deployments (λ st t, negb (newer_in deployments t st))
  else match status_table k with
       | None => Err "center: this execution requires its dedicated resolution workflow"
       | Some table =>
           if (at_revision task <=? 0)
              || negb (at_id task =?s expected_task_id k agentID (at_revision task))
           then Err errExecutionAuthorization
           else Ok (mk_statement (λ _, by_revision table task agentID reopen_statuses)
                      (reopen "applying"))
       end.

Record retainedExecutionResolution := mk_resolution {
  re_admin : string; re_note : string; re_automatic : bool
}.

(** The error of an inadmissible step: automatic recovery has one of its own. *)
Definition retained_error (automatic : bool) (e : string) : string :=
  if automatic then errRetainedExecutionNotRecoverable else e.

Definition retained_row (id : string) (automatic : bool) (r : task_execution) : bool :=
  (te_id r =?s id)
  && (if automatic then state_eqb (te_state r) Unknown && (te_phase r =?s "result_received")
      else state_in (te_state r) [Failed; Unknown])
  && (te_disposition r =?s "") && (te_identity_retired_at r =?s "").

(** The final statement: automatic recovery completes the execution, an
    operator's decision disposes of it. *)
Definition retained_commit (id : string) (re : retainedExecutionResolution) (now : Z) : M unit :=
  (λ st, (st, validateExecutionProjection id true st)) ;;;
  if re_automatic re then
    guarded
      (λ _ r, (te_id r =?s id) && (te_disposition r =?s "") && state_eqb (te_state r) Unknown
            && (te_phase r =?s "result_received"))
      (λ r, set_updated_at (rfc3339nano now)
              (set_last_error "" (set_phase "reported" (set_state Succeeded r))))
      errExecutionAuthorization
  else record_disposition id "confirm-completed" (re_note re) (re_admin re) (rfc3339nano now).

(** [projectRetainedExecutionResult].  [project] is the projection of the kind
    on the business tables (application, landing, gateway, listener, tunnel and
    website projections), which ends in the commit. *)
Definition projectRetainedExecutionResult (id : string) (re : retainedExecutionResolution)
    (project : AgentTask → executionResultEvidence → M unit) (now : Z) : M unit :=
  let auto := re_automatic re in
  transaction (
    do! admin := query (λ st, auto || is_admin st (re_admin re)) in
    fail_if (negb admin) "center: administrator authorization required" ;;;
    do! row := query (λ st, sql_row (retained_row id auto) (executions st)) in
    match row with
    | None => fail (retained_error auto errExecutionAuthorization)
    | Some r =>
    match unseal ("execution-task:" +:+ id) (te_sealed_task r) with
    | None => fail (retained_error auto "center: execution evidence cannot be verified")
    | Some taskRaw =>
    match task_of_json taskRaw with
    | None => fail (retained_error auto errExecutionAuthorization)
    | Some task =>
        fail_if (negb (evidence_matches r task)) (retained_error auto errExecutionAuthorization) ;;;
        match unseal ("execution-result:" +:+ id) (te_sealed_result r) with
        | None => fail (retained_error auto "center: retained completion evidence is required")
        | Some resultRaw =>
        match evidence_of_json resultRaw with
        | None => fail (retained_error auto "center: retained result does not prove completion; verify or replace the missing evidence before confirming")
        | Some evidence =>
            fail_if (negb (retainedResultSupportsConfirmation (te_kind r) evidence))
              (retained_error auto "center: retained result does not prove completion; verify or replace the missing evidence before confirming") ;;;
            do! s := lift (executionConfirmationStatement task (te_agent_id r)) in
            do! n := run_statement s in
            fail_if (negb (n =? 1)) "center: application task changed; verify its current state" ;;;
            project task evidence ;;;
            retained_commit id re now
        end end
    end end end).

(** [ConfirmExecution]. *)
Definition ConfirmExecution (id adminID : string) (input : ExecutionDisposition)
    (project : AgentTask → executionResultEvidence → M unit) (now : Z) : M unit :=
  fail_if (negb (di_action input =?s "confirm-completed") || negb (di_execution_stopped input)
           || note_invalid (di_note input)) "center: confirm stopped execution and record verification" ;;;
  projectRetainedExecutionResult id (mk_resolution adminID (di_note input) false) project now.

(** [ORDER BY created_at,id]. *)
Definition created_before (a b : task_execution) : bool :=
  if te_created_at a =?s te_created_at b then te_id a <?s te_id b
  else te_created_at a <?s te_created_at b.

Definition ordered_ids (wh : task_execution → bool) (st : Store) : list string :=
  map te_id (slice_sort created_before (sql_select wh (executions st))).

Definition automatic_resolution : retainedExecutionResolution := mk_resolution "" "" true.

(** The recovery loop: a failed projection is logged and skipped. *)
Fixpoint project_each (ids : list string) (project : AgentTask → executionResultEvidence → M unit)
    (now : Z) (st : Store) : Store :=
  match ids with
  | [] => st
  | id :: ids' =>
      project_each ids' project now
        (fst (projectRetainedExecutionResult id automatic_resolution project now st))
  end.

(** [recoverReceivedExecutionResults]. *)
Definition recoverReceivedExecutionResults (agentID : string)
    (project : AgentTask → executionResultEvidence → M unit) (now : Z) : M unit :=
  λ st, (project_each
           (ordered_ids (λ r, (te_agent_id r =?s agentID) && state_eqb (te_state r) Unknown
                              && (te_phase r =?s "result_received") && (te_disposition r =?s "")
                              && (te_identity_retired_at r =?s "")) st) project now st, Ok tt).

(** The executions whose received result outlived the lease. *)
Definition expired_received (now : Z) (r : task_execution) : bool :=
  (te_disposition r =?s "") && (te_identity_retired_at r =?s "")
  && state_in (te_state r) [Running; HelperRunning; Unknown]
  && (te_phase r =?s "result_received") && negb (te_expires_at r =?s "")
  && lapsed (te_expires_at r) now.

(** [recoverExpiredReceivedExecutionResults]. *)
Definition recoverExpiredReceivedExecutionResults
    (project : AgentTask → executionResultEvidence → M unit) (now : Z) : M unit :=
  do! ids := query (ordered_ids (expired_received now)) in
  match ids with
  | [] => ok tt
  | _ =>
      do! changed := update_executions (expired_received now)
        (λ r, set_updated_at (rfc3339nano now)
                (set_last_error "Execution authorization expired; retained result pending recovery"
                   (set_state Unknown r))) in
      fail_if (negb (changed =? Z.of_nat (length ids)))
        "center: expired execution set changed during startup recovery" ;;;
      (λ st, (project_each ids project now st, Ok tt))
  end.

(** ** Views of executions (execution.go) *)
Record ExecutionView := mk_view {
  vw_id : string; vw_agent_id : string; vw_task_id : string; vw_kind : string; vw_attempt : Z;
  vw_state : exec_state; vw_phase : string; vw_last_error : string; vw_updated_at : string;
  vw_disposition : string; vw_can_confirm : bool
}.

(** [scanExecutionView]. *)
Definition scanExecutionView (r : task_execution) : ExecutionView :=
  mk_view (te_id r) (te_agent_id r) (te_task_id r) (te_kind r) (te_attempt r) (te_state r)
    (te_phase r) (te_last_error r) (te_updated_at r) (te_disposition r)
    ((te_identity_retired_at r =?s "") && (te_disposition r =?s "")
     && state_in (te_state r) [Failed; Unknown] && negb (te_sealed_result r =?s "")
     && match unseal ("execution-result:" +:+ te_id r) (te_sealed_result r) with
        | None => false
        | Some raw =>
            match evidence_of_json raw with
            | None => false
            | Some e => retainedResultSupportsConfirmation (te_kind r) e
            end
        end).

Definition list_condition (filter : string) : option (task_execution → bool) :=
  if filter =?s "all" then Some (λ _, true)
  else if filter =?s "attention" then
    Some (λ r, (te_disposition r =?s "") && state_in (te_state r) [Failed; Unknown])
  else if filter =?s "running" then
    Some (λ r, (te_disposition r =?s "") && state_in (te_state r) [Offered; Running; HelperRunning])
  else None.

Record ExecutionPage := mk_page { pg_executions : list ExecutionView; pg_next_cursor : Z }.

(** Rows with their rowids, counted from 1. *)
Fixpoint with_rowids (n : Z) (l : list task_execution) : list (Z * task_execution) :=
  match l with
  | [] => []
  | r :: l' => (n, r) :: with_rowids (n + 1) l'
  end.

(** The rows of a page query, latest first. *)
Definition page_rows (before : Z) (wh : task_execution → bool) (st : Store)
    : list (Z * task_execution) :=
  take 101 (reverse (List.filter (λ p, wh (snd p) && (negb (0 <? before) || (fst p <? before)))
                       (with_rowids 1 (executions st)))).

(** [ListExecutions]. *)
Definition ListExecutions (before : Z) (filter : string) (st : Store) : res ExecutionPage :=
  if before <? 0 then Err "center: invalid execution cursor" else
  match list_condition filter with
  | None => Err "center: invalid execution filter"
  | Some wh =>
      let rows := page_rows before wh st in
      Ok (mk_page (map (λ p, scanExecutionView (snd p)) (take 100 rows))
            (if (100 <? Z.of_nat (length rows)) then default 0 (fst <$> (rows !! 99%nat)) else 0))
  end.

(** [TaskExecution]: the latest attempt only. *)
Definition TaskExecution (taskID : string) (st : Store) : res ExecutionView :=
  match slice_sort (λ a b, te_attempt b <? te_attempt a)
          (sql_select (λ r, te_task_id r =?s taskID) (executions st)) with
  | [] => Err errNoRows
  | r :: _ => Ok (scanExecutionView r)
  end.

End Retained.
