(* ===== verification/Workflows.v ===== *)
(** * Workflows that write executions

    The other writers of [task_executions] in internal/center: completion of a
    task (agent_grpc_actions.go), the Tailscale update (tailscale_update_tasks.go),
    the operating-system reinstallation (os_reinstall_backup.go,
    os_reinstall_reconnect.go), the Xray configuration recovery
    (xray_configuration_recovery.go), the recovery of a failed Agent update
    (agent_update_recovery.go), the isolation and settlement of a reinstalled
    machine's work (agent_reinstall_work.go, agent_reinstall_local_work.go) and the
    execution part of the Glivela endpoint recovery (meridian_management.go).
    Evidence that other packages verify (archives, network plans, reports) enters
    as the outcome of its verification. *)
From S2P Require Import Prelude GoText Redact GoTime TaskIds Store Execution Claims Handoff Disposition.
From S2P Require Import Confirmation.

Section Workflows.
Context {L : Libraries}.

(** ** Completion of a task *)

(** The [commit] closure of [CompleteTask]. *)
Definition commit_projection (agentID sessionID executionID : string) (succeeded : bool)
    (disposed_now now : Z) : M unit :=
  (λ st, (st, validateExecutionProjection executionID succeeded st)) ;;;
  finalizeExecution agentID sessionID executionID disposed_now now.

Record TaskResult := mk_task_result {
  rt_execution_id : string; rt_session_id : string; rt_host_update_helper : bool;
  rt_attempt : Z; rt_succeeded : bool; rt_error : string; rt_result : string;
  rt_reconciliation_required : bool; rt_generation : option Z
}.

Definition errTaskResult : string := "task result could not be finalized".

(** [CompleteTask], from the authenticated and decoded request on; its gRPC status
    errors are the errors they report.  The received result is committed on its own; [project] is
    the projection of the kind ([completeTaskWithDisposition]), whose
    transaction ends in the commit, and [follow_up] what the kind does after its commit
    (cleaning publications up, queueing the next state), whose error is reported although
    the result stays committed.  A projection that ends without its commit is one that
    fails with [errExecutionAuthorization]. *)
Definition CompleteTask (agentID taskID : string) (value : TaskResult) (project follow_up : M unit)
    (now disposed_now final_now : Z) : M unit :=
  do! matches := query (λ st, sql_exists
    (λ r, (te_id r =?s rt_execution_id value) && (te_agent_id r =?s agentID)
          && (te_task_id r =?s taskID) && (te_attempt r =? rt_attempt value)
          && (te_session_id r =?s rt_session_id value)) (executions st)) in
  fail_if (negb matches) errExecutionAuthorization ;;;
  let result := if rt_result value =?s "" then "{}" else rt_result value in
  StoreExecutionResult agentID (rt_session_id value) (rt_execution_id value) result
    (rt_succeeded value) (rt_reconciliation_required value) (rt_error value) (rt_generation value)
    (rt_host_update_helper value) now ;;;
  transaction (
    project ;;;
    commit_projection agentID (rt_session_id value) (rt_execution_id value) (rt_succeeded value)
      disposed_now final_now) ;;;
  follow_up.

(** ** Tailscale update *)

Definition tailscale_row (id agentID : string) (t : task_row) : bool :=
  bool_decide (tr_table t = tailscale_update_tasks) && (tr_id t =?s id) && (tr_agent_id t =?s agentID).

(** [time.Parse] of the lease, and [expiry.After(now)]. *)
Definition lease_after (lease : string) (now : Z) : bool :=
  match parse_rfc3339 lease with Some expiry => now <? expiry | None => false end.

(** [completeTailscaleUpdate]. *)
Definition completeTailscaleUpdate (commit : M unit) (agentID id : string) (attempt : Z)
    (succeeded : bool) (taskError : string) (uncertain : bool) (now : Z) : M unit :=
  transaction (
    do! row := query (λ st, sql_row (λ t, tailscale_row id agentID t && (tr_attempt t =? attempt))
                              (tasks st)) in
    match row with
    | None => fail errStaleTaskLease
    | Some t =>
        fail_if (negb (tr_state t =?s "running") || negb (lease_after (tr_lease_expires_at t) now))
          errStaleTaskLease ;;;
        fail_if succeeded "center: Tailscale update must be verified after helper handoff" ;;;
        let message :=
          if uncertain then "Update dispatch outcome is uncertain; inspect the node before retrying"
          else if negb (trim_space taskError =?s "") then SafeError taskError
          else "Update preflight failed; inspect the node before retrying" in
        do! _ := update_tasks (λ t, bool_decide (tr_table t = tailscale_update_tasks) && (tr_id t =?s id))
          (λ t, set_tr_updated (rfc3339nano now)
                  (set_tr_lease "" (set_tr_error message (set_tr_state "failed" t)))) in
        recordTaskEvent id agentID "tailscale.update" 1 "failed" message now ;;;
        commit
    end).

Record UpdateObservation := mk_observation {
  ob_task_id : string; ob_unit_valid : bool; ob_state : string; ob_installed_version : string;
  ob_running_version : string
}.

(** [reconcileTailscaleUpdate], inside the heartbeat's transaction; [ob_unit_valid]
    is [tailscalehost.UpdateUnitName(taskID) != ""]. *)
Definition reconcileTailscaleUpdate (agentID : string) (observation : option UpdateObservation)
    (now disposed_now final_now : Z) : M unit :=
  match observation with
  | None => ok tt
  | Some ob =>
  if negb (ob_unit_valid ob) then ok tt else
  do! row := query (λ st, sql_row (λ t, tailscale_row (ob_task_id ob) agentID t
                                        && (tr_state t =?s "awaiting_decision")) (tasks st)) in
  match row with
  | None => ok tt
  | Some t =>
  let target := tr_target_version t in
  let done := (ob_state ob =?s "succeeded") && (ob_installed_version ob =?s target)
              && (ob_running_version ob =?s target) in
  let failed := ob_state ob =?s "failed" in
  if negb done && negb failed then ok tt else
  let state := if failed then "failed" else "succeeded" in
  let message := if failed then "Package update failed; inspect the node before retrying" else "" in
  do! execution := query (λ st, sql_row
    (λ r, (te_agent_id r =?s agentID) && (te_task_id r =?s ob_task_id ob)
          && (te_kind r =?s "tailscale.update") && state_eqb (te_state r) HelperRunning
          && (te_phase r =?s "start") && (te_disposition r =?s "")
          && unexpired (te_expires_at r) now) (executions st)) in
  match execution with
  | None => ok tt
  | Some e =>
  let sealed := seal ("execution-result:" +:+ te_id e)
                  (evidence_json (mk_evidence "{}" (state =?s "succeeded") false None)) in
  guarded
    (λ _ r, (te_id r =?s te_id e) && (te_agent_id r =?s agentID) && (te_task_id r =?s ob_task_id ob)
          && (te_attempt r =? te_attempt e) && state_eqb (te_state r) HelperRunning
          && (te_phase r =?s "start") && (te_disposition r =?s ""))
    (λ r, set_updated_at (rfc3339nano now)
            (set_last_error message (set_phase "result_received" (set_sealed_result sealed r))))
    errExecutionAuthorization ;;;
  do! m := update_tasks
    (λ t, tailscale_row (ob_task_id ob) agentID t && (tr_attempt t =? te_attempt e)
          && (tr_state t =?s "awaiting_decision"))
    (λ t, set_tr_updated (rfc3339nano now) (set_tr_error message (set_tr_state state t))) in
  expect_one m errStaleTaskLease ;;;
  commit_projection agentID (te_session_id e) (te_id e) (state =?s "succeeded") disposed_now final_now ;;;
  recordTaskEvent (ob_task_id ob) agentID "tailscale.update" 1 state message now
  end end end.

(** [handleAcknowledgeTailscaleUpdate], after the request is authenticated and
    decoded. *)
Definition acknowledgeTailscaleUpdate (agentID taskID adminID : string) (confirmStopped : bool)
    (note : string) (now : Z) : M unit :=
  fail_if (negb confirmStopped || (trim_space note =?s "") || (500 <? str_len note))
    "center: confirm the update stopped and record the review" ;;;
  transaction (
    let stamp := rfc3339nano now in
    do! n := update_tasks
      (λ t, tailscale_row taskID agentID t
            && ((tr_state t =?s "failed")
                || (str_in (tr_state t) ["awaiting_decision"; "pending"]
                    && (tr_updated_at t <?s rfc3339nano (now - 20 * minute)))))
      (λ t, set_tr_updated stamp (set_tr_error "Reviewed by administrator" (set_tr_state "abandoned" t))) in
    fail_if (negb (n =? 1)) "center: update is not eligible for review" ;;;
    let safeNote := SafeError (trim_space note) in
    do! _ := update_executions
      (λ r, (te_task_id r =?s taskID) && (te_agent_id r =?s agentID)
            && (te_kind r =?s "tailscale.update") && (te_disposition r =?s "")
            && state_in (te_state r) [Failed; Unknown; HelperRunning])
      (λ r, set_updated_at stamp
              (set_disposition "abandon" safeNote adminID stamp
                 (set_state (if state_eqb (te_state r) HelperRunning then Unknown else te_state r) r))) in
    recordTaskEvent taskID agentID "tailscale.update" 1 "failed"
      ("Reviewed by administrator: " +:+ safeNote) now).

(** ** Reinstallation of the operating system *)

Definition osReinstallKind : string := "node.os-reinstall".

(** The row of the reinstallation task of an execution, as the joined queries
    of os_reinstall_backup.go select it. *)
Definition reinstall_join (agentID sessionID executionID phase state : string) (now : Z) (st : Store)
    : option task_row :=
  match sql_row (λ e, (te_id e =?s executionID) && (te_agent_id e =?s agentID)
                      && (te_session_id e =?s sessionID) && (te_kind e =?s osReinstallKind)
                      && state_eqb (te_state e) Running && (te_phase e =?s phase)
                      && (te_disposition e =?s "") && unexpired (te_expires_at e) now
                      && session_current st agentID sessionID
                      && sql_exists (λ a, (ag_id a =?s agentID) && (ag_status a =?s "active")
                                          && (ag_credential_revoked_at a =?s "")) (agents st))
          (executions st) with
  | None => None
  | Some e =>
      sql_row (λ q, bool_decide (tr_table q = os_reinstall_tasks) && (tr_id q =?s te_task_id e)
                    && (tr_agent_id q =?s agentID) && (tr_attempt q =? te_attempt e)
                    && (tr_state q =?s state) && (tr_attempt q =? 1)
                    && unexpired (tr_lease_expires_at q) now) (tasks st)
  end.

(** The execution and task rows a reinstallation step moves. *)
Definition reinstall_execution (agentID taskID sessionID executionID phase : string) (now : Z)
    (st : Store) (r : task_execution) : bool :=
  (te_id r =?s executionID) && (te_agent_id r =?s agentID) && (te_task_id r =?s taskID)
  && (te_session_id r =?s sessionID) && (te_kind r =?s osReinstallKind)
  && state_eqb (te_state r) Running && (te_phase r =?s phase) && (te_disposition r =?s "")
  && unexpired (te_expires_at r) now && session_current st agentID sessionID.

Definition reinstall_task (taskID agentID state : string) (now : Z) (t : task_row) : bool :=
  bool_decide (tr_table t = os_reinstall_tasks) && (tr_id t =?s taskID) && (tr_agent_id t =?s agentID)
  && (tr_state t =?s state) && (tr_attempt t =? 1) && unexpired (tr_lease_expires_at t) now.

Record BackupEvidence := mk_backup {
  be_ciphertext : string; be_access_ciphertext : string; be_digest : string
}.

Definition MaxBackupBytes : Z := 600 * 1024.
Definition backup_rejected : string := "center: reinstall backup evidence rejected".

(** [RecordOSReinstallBackup].  [artifact_digest] is [recovery.Digest]; [verify]
    is the verification of the archive, the access snapshot and the network plan
    against the reviewed task, which yields the plan to be sealed; [durable] is
    the outcome of the storage check. *)
Definition RecordOSReinstallBackup (agentID sessionID executionID : string)
    (evidence : BackupEvidence) (artifact_digest : string → string)
    (verify : task_row → res string) (durable : bool) (query_now now : Z) : M unit :=
  fail_if ((agentID =?s "") || (sessionID =?s "") || (executionID =?s "")
           || (str_len (be_ciphertext evidence) =? 0)
           || (MaxBackupBytes <? str_len (be_ciphertext evidence))
           || (str_len (be_access_ciphertext evidence) =? 0)
           || (700 * 1024 <? str_len (be_ciphertext evidence) + str_len (be_access_ciphertext evidence))
           || negb (be_digest evidence =?s artifact_digest (be_ciphertext evidence))) backup_rejected ;;;
  do! row := query (reinstall_join agentID sessionID executionID "apply" "running" query_now) in
  match row with
  | None => fail backup_rejected
  | Some q =>
      do! plan := lift (verify q) in
      let sealed := seal ("os-reinstall-network:" +:+ tr_id q) plan in
      transaction (
        fail_if (negb durable) "center: durable backup storage is unavailable" ;;;
        guarded (reinstall_execution agentID (tr_id q) sessionID executionID "apply" now)
          (λ r, set_updated_at (rfc3339nano now) (set_phase "backup_ready" r))
          errExecutionAuthorization ;;;
        do! m := update_tasks (reinstall_task (tr_id q) agentID "running" now)
          (λ t, set_tr_updated (rfc3339nano now)
                  (set_tr_backup (be_ciphertext evidence) (be_access_ciphertext evidence)
                     (be_digest evidence) sealed (set_tr_state "backup_ready" t))) in
        expect_one m errExecutionAuthorization)
  end.

(** [isDigest]: [sha256:] and 64 lower-case hexadecimal digits. *)
Definition is_hex_char (c : Ascii.ascii) : bool :=
  let n := Ascii.nat_of_ascii c in
  (Nat.leb 48 n && Nat.leb n 57) || (Nat.leb 97 n && Nat.leb n 102).

Definition is_digest (value : string) : bool :=
  has_prefix "sha256:" value &&
  let raw := String.substring 7 (String.length value - 7) value in
  (str_len raw =? 64) && forallb is_hex_char (String.list_ascii_of_string raw).

Definition arming_rejected : string := "center: reinstall arming evidence rejected".

(** [ArmOSReinstall].  [recoverable] tells whether the sealed plan renders and the
    access snapshot opens. *)
Definition ArmOSReinstall (agentID sessionID executionID backupDigest preparedDigest : string)
    (artifact_digest : string → string) (recoverable : task_row → bool) (now : Z) : M unit :=
  fail_if ((agentID =?s "") || (sessionID =?s "") || (executionID =?s "")
           || negb (is_digest backupDigest) || negb (is_digest preparedDigest)) arming_rejected ;;;
  transaction (
    do! row := query (reinstall_join agentID sessionID executionID "backup_ready" "backup_ready" now) in
    match row with
    | None => fail arming_rejected
    | Some q =>
        fail_if (negb (tr_backup_digest q =?s backupDigest)
                 || negb (artifact_digest (tr_encrypted_backup q) =?s tr_backup_digest q)
                 || negb (recoverable q)) arming_rejected ;;;
        guarded (reinstall_execution agentID (tr_id q) sessionID executionID "backup_ready" now)
          (λ r, set_updated_at (rfc3339nano now)
                  (set_expires_at (lease now (45 * minute))
                     (set_phase "reinstall_armed" (set_state HelperRunning r))))
          errExecutionAuthorization ;;;
        do! m := update_tasks
          (λ t, reinstall_task (tr_id q) agentID "backup_ready" now t
                && (tr_backup_digest t =?s backupDigest))
          (λ t, set_tr_updated (rfc3339nano now)
                  (set_tr_lease "" (set_tr_prepared preparedDigest (set_tr_state "armed" t)))) in
        expect_one m errExecutionAuthorization
    end).

(** The armed execution a reconnecting machine may complete: still with its
    helper, expired to [unknown], or already verified. *)
Definition armed_execution (agentID sessionID executionID : string) (now : Z) (r : task_execution)
    : bool :=
  (te_id r =?s executionID) && (te_agent_id r =?s agentID) && (te_kind r =?s osReinstallKind)
  && ((state_eqb (te_state r) HelperRunning && (te_phase r =?s "reinstall_armed")
       && negb (te_expires_at r =?s ""))
      || (state_eqb (te_state r) Unknown && (te_phase r =?s "reinstall_armed")
          && negb (te_expires_at r =?s "") && lapsed (te_expires_at r) now)
      || (state_eqb (te_state r) Succeeded && (te_phase r =?s "reinstall_verified")))
  && (te_disposition r =?s "") && (te_identity_retired_at r =?s "")
  && negb (te_session_id r =?s sessionID).

Definition reconnect_rejected : string := "center: reinstall reconnect evidence rejected".

(** [CompleteOSReinstall].  [verify] is the decoding of the reviewed task and of
    the sealed network plan and [osreinstall.VerifyReconnect] on the report. *)
Definition CompleteOSReinstall (agentID credential sessionID executionID reportTaskID : string)
    (verify : task_row → bool) (now : Z) : M unit :=
  fail_if ((agentID =?s "") || (credential =?s "") || (sessionID =?s "") || (executionID =?s "")
           || (reportTaskID =?s "")) reconnect_rejected ;;;
  transaction (
    (λ st, match authenticateAgent agentID credential st with
           | (st', Ok _) => (st', Ok tt)
           | (st', Err _) => (st', Err reconnect_rejected)
           end) ;;;
    do! execution := query (λ st, sql_row
      (λ e, armed_execution agentID sessionID executionID now e && (te_task_id e =?s reportTaskID)
            && session_current st agentID sessionID) (executions st)) in
    do! task := query (λ st, sql_row
      (λ q, bool_decide (tr_table q = os_reinstall_tasks) && (tr_id q =?s reportTaskID)
            && (tr_agent_id q =?s agentID) && str_in (tr_state q) ["armed"; "succeeded"]
            && (tr_attempt q =? 1)) (tasks st)) in
    match execution, task with
    | Some e, Some q =>
        fail_if (negb (te_attempt e =? tr_attempt q) || negb (verify q)) reconnect_rejected ;;;
        if (tr_state q =?s "succeeded") && state_eqb (te_state e) Succeeded then ok tt else
        fail_if (negb (tr_state q =?s "armed")
                 || negb (state_in (te_state e) [HelperRunning; Unknown])) reconnect_rejected ;;;
        do! m := update_tasks
          (λ t, bool_decide (tr_table t = os_reinstall_tasks) && (tr_id t =?s tr_id q)
                && (tr_agent_id t =?s agentID) && (tr_state t =?s "armed") && (tr_attempt t =? 1))
          (λ t, set_tr_updated (rfc3339nano now) (set_tr_error "" (set_tr_state "succeeded" t))) in
        expect_one m reconnect_rejected ;;;
        guarded
          (λ _ r, (te_id r =?s executionID) && (te_agent_id r =?s agentID) && (te_task_id r =?s tr_id q)
                && (te_session_id r =?s te_session_id e) && state_in (te_state r) [HelperRunning; Unknown]
                && (te_phase r =?s "reinstall_armed") && (te_disposition r =?s "")
                && (te_identity_retired_at r =?s "") && negb (te_expires_at r =?s "")
                && (state_eqb (te_state r) HelperRunning || lapsed (te_expires_at r) now))
          (λ r, set_updated_at (rfc3339nano now)
                  (set_last_error "" (set_phase "reinstall_verified" (set_state Succeeded r))))
          reconnect_rejected ;;;
        recordTaskEvent (tr_id q) agentID osReinstallKind 1 "succeeded"
          "Debian 13 and original network verified" now
    | _, _ => fail reconnect_rejected
    end).

(** [ORDER BY created_at DESC,rowid DESC LIMIT 1]: among the rows with the latest
    stamp, the last inserted. *)
Definition latest_by {A} (created : A → string) (l : list A) : option A :=
  fold_left (λ best t, match best with
                       | None => Some t
                       | Some b => if created t <?s created b then best else Some t
                       end) l None.

(** ** Recovery of an Xray configuration *)

(** [SELECT id FROM task_executions WHERE task_id=? AND attempt=? ORDER BY created_at DESC LIMIT 1]. *)
Definition latest_attempt_row (taskID : string) (attempt : Z) (st : Store) : option task_execution :=
  latest_by te_created_at
    (sql_select (λ r, (te_task_id r =?s taskID) && (te_attempt r =? attempt)) (executions st)).

(** The executions a completed recovery releases: those of the application and
    the earlier recoveries, but not the recovery itself. *)
Definition recovery_releases (agentID id : string) (attempt : Z) (applicationID : string) (st : Store)
    (r : task_execution) : bool :=
  (te_agent_id r =?s agentID)
  && negb (match latest_attempt_row id attempt st with
           | Some x => te_id r =?s te_id x
           | None => false
           end)
  && (te_disposition r =?s "") && negb (state_eqb (te_state r) Succeeded)
  && (((te_kind r =?s "application.apply")
       && sql_exists (λ t, bool_decide (tr_table t = deployments) && (tr_id t =?s te_task_id r)
                           && (tr_application_id t =?s applicationID)) (tasks st))
      || ((te_kind r =?s "application.command")
          && sql_exists (λ t, bool_decide (tr_table t = application_commands)
                              && (tr_id t =?s te_task_id r)
                              && (tr_application_id t =?s applicationID)) (tasks st))
      || (te_kind r =?s "xray.configuration.inspect") || (te_kind r =?s "xray.configuration.apply")).

(** The release itself, with the commands and the application it unblocks. *)
Definition release_recovered (agentID id : string) (attempt : Z) (applicationID now : string) : M unit :=
  do! _ := (λ st, update_executions (recovery_releases agentID id attempt applicationID st)
    (λ r, set_updated_at now
            (set_disposition "configuration-recovered"
               "Explicit Xray configuration recovery completed" "system" now r)) st) in
  do! _ := (λ st, update_tasks
    (λ t, bool_decide (tr_table t = application_commands) && (tr_application_id t =?s applicationID)
          && (tr_agent_id t =?s agentID) && (tr_state t =?s "failed") && tr_reconciliation_required t
          && existsb (λ e, (te_agent_id e =?s agentID) && (te_disposition e =?s "configuration-recovered")
                           && (te_task_id e =?s tr_id t)) (executions st))
    (λ t, set_tr_updated now (set_tr_reconciliation false false t)) st) in
  update_applications (λ a, ap_id a =?s applicationID) (set_application_status "running" now).

(** [completeXrayConfigurationRecovery].  [result] is the validation of the
    reported recovery against its action; the stored result is not modelled. *)
Definition completeXrayConfigurationRecovery (commit : M unit) (agentID id : string) (attempt : Z)
    (succeeded : bool) (taskError : string) (result : string → res unit) (now : Z) : M unit :=
  fail_if (attempt <=? 0) errStaleTaskLease ;;;
  transaction (
    do! row := query (λ st, sql_row
      (λ t, id_row xray_configuration_recoveries id agentID attempt t) (tasks st)) in
    match row with
    | None => fail errStaleTaskLease
    | Some t =>
        fail_if (negb (tr_state t =?s "running") || negb (lease_after (tr_lease_expires_at t) now))
          errStaleTaskLease ;;;
        (if succeeded then lift (result (tr_kind t)) else ok tt) ;;;
        let inspect := tr_kind t =?s "inspect" in
        let target := if succeeded then (if inspect then "awaiting_decision" else "succeeded")
                      else "failed" in
        let message := if succeeded then "" else trim_space taskError in
        do! _ := update_tasks
          (λ t, bool_decide (tr_table t = xray_configuration_recoveries) && (tr_id t =?s id))
          (λ t, close_task target message (rfc3339nano now) t) in
        (if succeeded && negb inspect
         then release_recovered agentID id attempt (tr_application_id t) (rfc3339nano now) else ok tt) ;;;
        recordTaskEvent id agentID
          (if inspect then "xray.configuration.inspect" else "xray.configuration.apply") 1
          (if succeeded then "succeeded" else "failed") message now ;;;
        commit
    end).

(** ** Recovery of a failed Agent update *)

Record AgentUpdateRecoveryInput := mk_update_recovery {
  ur_failed_update_id : string; ur_execution_stopped : bool; ur_note : string; ur_admin_id : string
}.

(** The newest update of an Agent. *)
Definition latest_update (agentID : string) (st : Store) : option task_row :=
  latest_by tr_created_at
    (sql_select (λ t, bool_decide (tr_table t = agent_updates) && (tr_agent_id t =?s agentID)) (tasks st)).

(** The recovery record; [json_object] is SQLite's encoder, and the insertion
    fails when the update was already recovered. *)
Definition record_update_recovery (id value : string) : M unit :=
  λ st, match update_recoveries st !! id with
        | Some _ => (st, Err "UNIQUE constraint failed")
        | None => (with_update_recoveries (<[id := value]> (update_recoveries st)) st, Ok tt)
        end.

(** [authorizeAgentUpdateRecovery], inside the transaction that queues the new
    update.  [record] is the text of the recovery record. *)
Definition authorizeAgentUpdateRecovery (agentID record : string) (input : AgentUpdateRecoveryInput)
    (now : Z) : M unit :=
  fail_if (negb (ur_execution_stopped input) || note_invalid (ur_note input))
    "center: confirm the exact failed update is stopped and record recovery verification" ;;;
  do! admin := query (λ st, is_admin st (ur_admin_id input)) in
  fail_if (negb admin) "center: administrator authorization required" ;;;
  do! update := query (latest_update agentID) in
  match update with
  | None => fail errNoRows
  | Some u =>
      fail_if (negb (tr_id u =?s ur_failed_update_id input) || negb (tr_state u =?s "failed"))
        "center: failed update changed; verify its current state" ;;;
      do! execution := query (λ st, sql_row
        (λ r, (te_task_id r =?s tr_id u) && (te_agent_id r =?s agentID)
              && (te_kind r =?s "agent.update") && (te_attempt r =? tr_attempt u)) (executions st)) in
      (match execution with
       | None => ok tt
       | Some e =>
           fail_if (negb (state_eqb (te_state e) Failed)
                    || (negb (te_disposition e =?s "") && negb (te_disposition e =?s "abandon")))
             "center: failed update execution is not stopped" ;;;
           match unseal ("execution-task:" +:+ te_id e) (te_sealed_task e) with
           | None => fail "center: execution evidence cannot be verified"
           | Some raw =>
           match task_of_json raw with
           | None => fail "center: execution evidence does not match its identity"
           | Some task =>
               fail_if (negb (at_id task =?s tr_id u) || negb (at_kind task =?s "agent.update")
                        || negb (at_attempt task =? tr_attempt u))
                 "center: execution evidence does not match its identity" ;;;
               if te_disposition e =?s "" then
                 guarded
                   (λ _ r, (te_id r =?s te_id e) && state_eqb (te_state r) Failed
                         && (te_disposition r =?s ""))
                   (λ r, set_updated_at (rfc3339nano now)
                           (set_disposition "abandon" (SafeError (trim_space (ur_note input)))
                              (ur_admin_id input) (rfc3339nano now) r))
                   errExecutionAuthorization
               else ok tt
           end end
       end) ;;;
      record_update_recovery (tr_id u) record
  end.

(** ** Reinstalled machines *)

(** [pauseReinstallRelatedCommands]. *)
Definition pauseReinstallRelatedCommands (agentID now : string) : M unit :=
  do! _ := (λ st, update_executions
    (λ r, negb (te_agent_id r =?s agentID) && (te_kind r =?s "application.command")
          && (te_disposition r =?s "") && state_in (te_state r) [Offered; Running; HelperRunning]
          && existsb (λ c, bool_decide (tr_table c = application_commands)
                           && (tr_id c =?s te_task_id r) && (tr_agent_id c =?s te_agent_id r)
                           && (tr_gateway_node_id c =?s agentID)) (tasks st))
    (λ r, set_last_error
            (if te_last_error r =?s ""
             then "Command target is being reinstalled; inspect the remote outcome"
             else te_last_error r)
            (set_updated_at now (set_expires_at now (set_state Unknown r)))) st) in
  ok tt.

(** [reinstallAbandonStatement]. *)
Definition reinstallAbandonStatement (task : AgentTask) (agentID now : string) : res statement :=
  if at_kind task =?s "agent.update" then
    Ok (mk_statement (λ _, by_id agent_updates task agentID ["failed"; "installing"; "running"; "pending"])
          (close_task "failed" "Abandoned during reinstall recovery" now))
  else if at_kind task =?s "agent.decommission" then
    Ok (mk_statement
          (λ _ t, is_decommission_row agentID t && (tr_attempt t =? at_attempt task)
                  && str_in (tr_state t) ["failed"; "cleaning"; "running"; "pending"])
          (λ t, set_tr_callback ""
                  (close_task "abandoned" "Abandoned during reinstall recovery" now t)))
  else executionAbandonStatement task agentID now.

(** The newest deployment of an application. *)
Definition latest_deployment (applicationID : string) (st : Store) : option task_row :=
  latest_by tr_created_at
    (sql_select (λ t, bool_decide (tr_table t = deployments) && (tr_application_id t =?s applicationID))
       (tasks st)).

(** The settlement of one old-machine execution (the loop body of
    [SettleAgentReinstallLocalWork]); [task] is its verified task. *)
Definition settle_execution (agentID adminID executionID : string) (task : AgentTask) (now : string)
    : M unit :=
  do! s := lift (reinstallAbandonStatement task agentID now) in
  do! n := run_statement s in
  fail_if (negb (n =? 1)) "center: previous task attempt changed; inspect it before settlement" ;;;
  (if at_kind task =?s "application.apply" then
     (λ st, update_applications
        (λ a, (ap_id a =?s at_application_id task)
              && match latest_deployment (ap_id a) st with
                 | Some d => tr_id d =?s at_id task
                 | None => false
                 end) (set_application_status "failed" now) st)
   else ok tt) ;;;
  guarded
    (λ _ r, (te_id r =?s executionID) && (te_agent_id r =?s agentID)
          && negb (te_identity_retired_at r =?s "") && state_in (te_state r) [Unknown; Failed]
          && (te_disposition r =?s ""))
    (λ r, set_updated_at now
            (set_disposition "abandon" "Old-machine local execution isolated by reinstall recovery"
               adminID now r))
    errExecutionAuthorization.

Fixpoint settle_executions (agentID adminID : string) (reviewed : list (string * AgentTask))
    (now : string) : M unit :=
  match reviewed with
  | [] => ok tt
  | (executionID, task) :: rest =>
      settle_execution agentID adminID executionID task now ;;;
      settle_executions agentID adminID rest now
  end.

(** ** Recovery of a Glivela endpoint *)

(** The release of the uncertain execution by [RecoverMeridianEndpoint], inside
    its transaction. *)
Definition release_meridian_execution (nodeID adminID commandID : string) (commandAttempt : Z)
    (now : Z) : M unit :=
  do! row := query (λ st, latest_by te_created_at
    (sql_select (λ r, (te_agent_id r =?s nodeID) && (te_task_id r =?s commandID)
                      && (te_attempt r =? commandAttempt) && state_in (te_state r) [Failed; Unknown]
                      && (te_disposition r =?s "")) (executions st))) in
  match row with
  | None => fail "center: Glivela recovery execution evidence is unavailable"
  | Some e =>
      do! n := update_executions
        (λ r, (te_id r =?s te_id e) && (te_disposition r =?s "") && state_in (te_state r) [Failed; Unknown])
        (λ r, set_updated_at (rfc3339nano now)
                (set_disposition "meridian-center-recovery"
                   "Operator confirmed the previous execution stopped and selected current Center state"
                   adminID (rfc3339nano now) r)) in
      fail_if (negb (n =? 1)) "center: Glivela recovery execution changed; inspect again" ;;;
      do! m := update_tasks
        (λ t, bool_decide (tr_table t = application_commands) && (tr_id t =?s commandID)
              && (tr_agent_id t =?s nodeID) && (tr_state t =?s "failed") && tr_reconciliation_required t)
        (λ t, set_tr_updated (rfc3339nano now) (set_tr_lease "" (set_tr_reconciliation false false t))) in
      fail_if (negb (m =? 1)) "center: Glivela recovery command changed; inspect again"
  end.

End Workflows.
