(* ===== verification/Updates.v ===== *)
(** * Agent updates: queueing, claiming, completion and the rollout

    internal/center/agent_update_tasks.go and agent_update_scope.go.  An update is
    a row of [agent_updates]; its execution is a helper's (file [Handoff]).  The
    scope of the rollout ([agentUpdateScope]), the random part of a new identifier
    and the clock are arguments; one call reads the clock once. *)
From S2P Require Import Prelude GoText GoTime TaskIds Store Execution Claims Handoff Disposition.
From S2P Require Import Confirmation Workflows.

(** ** Scope *)

(** The loop of [readAgentUpdateScope] over the decoded [agentIds]. *)
Fixpoint scope_of_ids (ids : list string) (scope : gset string) : res (gset string) :=
  match ids with
  | [] => Ok scope
  | id :: ids' =>
      if (id =?s "") || negb (trim_space id =?s id)
         || contains_any id (map Ascii.ascii_of_nat [13; 10; 9]%nat) || bool_decide (id ∈ scope)
      then Err "center: invalid or duplicate Agent update scope ID"
      else scope_of_ids ids' ({[ id ]} ∪ scope)
  end.

(** [agentUpdateAllowed]: without a scope every Agent is allowed. *)
Definition agentUpdateAllowed (scope : option (gset string)) (agentID : string) : bool :=
  match scope with None => true | Some ids => bool_decide (agentID ∈ ids) end.

(** ** Versions *)
Section Updates.
Context {L : Libraries} {C : ControlCodec}.

(** [strings.TrimPrefix(strings.TrimSpace(v), "v")]. *)
Definition trim_v (v : string) : string :=
  let t := trim_space v in
  if has_prefix "v" t then String.substring 1 (String.length t - 1) t else t.

Definition agentVersionBehindTarget (currentVersion targetVersion : string) : bool :=
  let current := "v" +:+ trim_v currentVersion in
  let target := "v" +:+ trim_v targetVersion in
  semver_valid current && semver_valid target && (semver_compare current target <? 0).

Definition superseded_unclaimed (target : string) : string :=
  "Superseded before claim: Agent already reports target version " +:+ target.

Definition unclaimedAgentUpdateSuperseded (currentVersion targetVersion state lastError : string)
    (attempt : Z) (hasExecution : bool) : bool :=
  (state =?s "failed") && (attempt =? 0) && negb hasExecution
  && (lastError =?s superseded_unclaimed targetVersion)
  && agentUpdateFailureSuperseded currentVersion targetVersion.

(** ** Rows *)
Record AgentUpdateView := mk_update_view {
  uv_id : string; uv_target_version : string; uv_state : string; uv_last_error : string;
  uv_updated_at : Z
}.

Definition is_update (t : task_row) : bool := bool_decide (tr_table t = agent_updates).

Definition active_states : list string := ["pending"; "running"; "installing"].

Definition active_update (agentID : string) (t : task_row) : bool :=
  is_update t && (tr_agent_id t =?s agentID) && str_in (tr_state t) active_states.

Definition has_execution (taskID : string) (st : Store) : bool :=
  sql_exists (λ e, te_task_id e =?s taskID) (executions st).

Definition update_task_row (id agentID target stamp : string) : task_row :=
  mk_task_row agent_updates id agentID 1 0 0 "pending" "" "" stamp false false "" "" "" target "" "" ""
    "" "" "" "" stamp.

(** The insertion, with the primary key and the index [agent_updates_one_active_idx]. *)
Definition insert_update (row : task_row) : M unit :=
  λ st,
    if sql_exists (λ t, is_update t && (tr_id t =?s tr_id row)) (tasks st)
       || sql_exists (active_update (tr_agent_id row)) (tasks st)
    then (st, Err "center: queue Agent update: UNIQUE constraint failed")
    else (with_tasks (tasks st ++ [row]) st, Ok tt).

Definition queueAgentUpdateTx (agentID targetVersion eventMessage token : string) (now : Z)
    : M AgentUpdateView :=
  let id := "agent-update-" +:+ token in
  insert_update (update_task_row id agentID targetVersion (rfc3339nano now)) ;;;
  recordTaskEvent id agentID "agent.update" 1 "queued" eventMessage now ;;;
  ok (mk_update_view id targetVersion "pending" "" now).

(** [agentUpdateRolloutPaused] inside a transaction: an unreadable control is an
    error, a pause refuses. *)
Definition refuse_paused : M unit :=
  do! p := query agentUpdateRolloutPaused in
  lift (snd p) ;;;
  fail_if (fst p) errExecutionBlocked.

(** ** Retirement of an update the Agent already runs *)
Definition retireInstalledUnclaimedAgentUpdate (agentID version : string) (now : Z) : M unit :=
  let unclaimed st t :=
    is_update t && (tr_agent_id t =?s agentID) && (tr_state t =?s "pending") && (tr_attempt t =? 0)
    && negb (has_execution (tr_id t) st) in
  do! row := query (λ st, sql_row (unclaimed st) (tasks st)) in
  match row with
  | None => ok tt
  | Some u =>
      if negb (agentUpdateFailureSuperseded version (tr_target_version u)) then ok tt else
      let message := superseded_unclaimed (tr_target_version u) in
      do! st := query id in
      do! n := update_tasks (λ t, unclaimed st t && (tr_id t =?s tr_id u))
        (λ t, set_tr_updated (rfc3339nano now) (set_tr_error message (set_tr_state "failed" t))) in
      expect_one n "center: queued Agent update changed before supersession" ;;;
      recordTaskEvent (tr_id u) agentID "agent.update" 1 "failed" message now
  end.

(** ** Queueing *)

(** An active update to another version: only one that was never offered is
    replaced. *)
Definition supersede_update (agent : agent_row) (u : task_row) (targetVersion token : string)
    (recovery : bool) (now : Z) : M AgentUpdateView :=
  let agentID := ag_id agent in
  fail_if (recovery || negb (tr_state u =?s "pending") || negb (tr_attempt u =? 0)
           || negb (agentVersionBehindTarget (tr_target_version u) targetVersion))
    "center: another Agent update is already active" ;;;
  do! executed := query (has_execution (tr_id u)) in
  do! blocked := query (unresolvedExecutionBlocksAgentUpdate agentID (ag_version agent)) in
  fail_if (executed || negb (ag_runtime_recovery agent =?s "") || blocked)
    "center: resolve outstanding execution and runtime recovery before updating" ;;;
  refuse_paused ;;;
  let message := "Superseded before claim by Agent update to " +:+ targetVersion in
  do! n := update_tasks
    (λ t, is_update t && (tr_id t =?s tr_id u) && (tr_agent_id t =?s agentID)
          && (tr_state t =?s "pending") && (tr_attempt t =? 0))
    (λ t, set_tr_updated (rfc3339nano now) (set_tr_error message (set_tr_state "failed" t))) in
  expect_one n "center: queued Agent update changed before supersession" ;;;
  recordTaskEvent (tr_id u) agentID "agent.update" 1 "failed" message now ;;;
  queueAgentUpdateTx agentID targetVersion ("Agent update to " +:+ targetVersion +:+ " queued") token now.

(** The abandoned execution of the newest update. *)
Definition latest_abandoned (agentID : string) (st : Store) : bool :=
  match latest_update agentID st with
  | Some u => sql_exists (λ e, (te_task_id e =?s tr_id u) && (te_attempt e =? tr_attempt u)
                               && (te_disposition e =?s "abandon")) (executions st)
  | None => false
  end.

(** No update is active. *)
Definition queue_first (agent : agent_row) (targetVersion token record : string)
    (recovery : option AgentUpdateRecoveryInput) (now : Z) : M AgentUpdateView :=
  let agentID := ag_id agent in
  fail_if (negb (ag_runtime_recovery agent =?s ""))
    "center: resolve outstanding runtime recovery before updating" ;;;
  (match recovery with
   | Some input => authorizeAgentUpdateRecovery agentID record input now
   | None => ok tt
   end) ;;;
  do! blocked := query (unresolvedExecutionBlocksAgentUpdate agentID (ag_version agent)) in
  fail_if blocked "center: resolve outstanding execution and runtime recovery before updating" ;;;
  refuse_paused ;;;
  do! last := query (latest_update agentID) in
  do! abandoned := query (latest_abandoned agentID) in
  fail_if (match last with
           | Some u => (tr_state u =?s "failed") && negb (is_Some_b recovery)
                       && negb (agentUpdateFailureSuperseded (ag_version agent) (tr_target_version u))
                       && negb abandoned
           | None => false
           end) "center: verify and dispose the failed execution before another update" ;;;
  queueAgentUpdateTx agentID targetVersion ("Agent update to " +:+ targetVersion +:+ " queued") token now.

(** [queueAgentUpdate]; [QueueAgentUpdate] is the call without [recovery]. *)
Definition queueAgentUpdate (scope : option (gset string)) (agentID targetVersion : string)
    (recovery : option AgentUpdateRecoveryInput) (token record : string) (now : Z)
    : M AgentUpdateView :=
  let agentID := trim_space agentID in
  fail_if (negb (agentUpdateAllowed scope agentID))
    "center: Agent is outside the configured update scope" ;;;
  let targetVersion := trim_v targetVersion in
  fail_if ((agentID =?s "") || (targetVersion =?s "") || negb (semver_valid ("v" +:+ targetVersion)))
    "center: Agent and target version are required" ;;;
  transaction (
    do! row := query (λ st, sql_row (λ a, ag_id a =?s agentID) (agents st)) in
    match row with
    | None => fail "center: Agent not found"
    | Some a =>
        fail_if (negb (ag_status a =?s "active") || negb (ag_credential_revoked_at a =?s ""))
          "center: Agent is disabled" ;;;
        fail_if (negb (ag_remote_update_supported a))
          "center: Agent requires one manual update before Center-managed updates are available" ;;;
        fail_if (negb (recently_seen (ag_last_seen_at a) now))
          "center: Agent must be online before it can update" ;;;
        fail_if (ag_version a =?s targetVersion)
          "center: Agent is already running the current Center version" ;;;
        fail_if (semver_valid ("v" +:+ ag_version a)
                 && (semver_compare ("v" +:+ targetVersion) ("v" +:+ ag_version a) <=? 0))
          "center: Agent updates must move forward" ;;;
        do! existing := query (λ st, sql_row (active_update agentID) (tasks st)) in
        match existing with
        | Some u =>
            match parse_rfc3339 (tr_updated_at u) with
            | None => fail "center: stored Agent update timestamp is invalid"
            | Some updated =>
                if negb (tr_target_version u =?s targetVersion)
                then supersede_update a u targetVersion token (is_Some_b recovery) now
                else ok (mk_update_view (tr_id u) (tr_target_version u) (tr_state u) (tr_error u) updated)
            end
        | None => queue_first a targetVersion token record recovery now
        end
    end).

Definition QueueAgentUpdate (scope : option (gset string)) (agentID targetVersion token : string)
    (now : Z) : M AgentUpdateView :=
  queueAgentUpdate scope agentID targetVersion None token "" now.

(** ** The rollout *)

(** The [WHERE] clause of the candidate query; last-seen times are compared as texts. *)
Definition rollout_eligible (targetVersion : string) (now : Z) (st : Store) (a : agent_row) : bool :=
  (ag_status a =?s "active") && (ag_credential_revoked_at a =?s "") && ag_remote_update_supported a
  && (rfc3339nano (now - agentConnectedMaxAge) <?s ag_last_seen_at a)
  && negb (ag_version a =?s targetVersion) && (ag_runtime_recovery a =?s "")
  && negb (sql_exists
             (λ t, is_update t && (tr_agent_id t =?s ag_id a)
                   && (str_in (tr_state t) ["running"; "installing"]
                       || ((tr_state t =?s "pending")
                           && ((0 <? tr_attempt t) || has_execution (tr_id t) st)))) (tasks st))
  && negb (sql_exists (λ t, is_update t && (tr_agent_id t =?s ag_id a)
                            && (tr_target_version t =?s targetVersion)) (tasks st)).

(** The loop over the rows of the query. *)
Definition rollout_candidate (scope : option (gset string)) (targetVersion : string) (st : Store)
    (a : agent_row) : bool :=
  let previous := latest_update (ag_id a) st in
  let state := match previous with Some u => tr_state u | None => "" end in
  let target := match previous with Some u => tr_target_version u | None => "" end in
  let abandoned := latest_abandoned (ag_id a) st in
  let current := "v" +:+ trim_v (ag_version a) in
  negb ((state =?s "failed") && negb (agentUpdateFailureSuperseded (ag_version a) target)
        && negb abandoned)
  && agentUpdateAllowed scope (ag_id a)
  && negb ((state =?s "pending") && negb (agentVersionBehindTarget target targetVersion))
  && negb (semver_valid current && (semver_compare ("v" +:+ targetVersion) current <=? 0)).

(** [ORDER BY agent.last_seen_at DESC, agent.name, agent.id]. *)
Definition rollout_order (a b : agent_row) : bool :=
  if ag_last_seen_at a =?s ag_last_seen_at b then
    if ag_name a =?s ag_name b then ag_id a <?s ag_id b else ag_name a <?s ag_name b
  else ag_last_seen_at b <?s ag_last_seen_at a.

(** The queueing loop: a blocked Agent is skipped, a refused one is reported. *)
Fixpoint queue_candidates (scope : option (gset string)) (targetVersion : string)
    (tokens : string → string) (now : Z) (l : list agent_row) (st : Store)
    : Store * (list string * list string) :=
  match l with
  | [] => (st, ([], []))
  | a :: l' =>
      if unresolvedExecutionBlocksAgentUpdate (ag_id a) (ag_version a) st
      then queue_candidates scope targetVersion tokens now l' st
      else
        match QueueAgentUpdate scope (ag_id a) targetVersion (tokens (ag_id a)) now st with
        | (st', Ok _) =>
            let '(sf, (queued, errs)) := queue_candidates scope targetVersion tokens now l' st' in
            (sf, (ag_id a :: queued, errs))
        | (st', Err e) =>
            let '(sf, (queued, errs)) := queue_candidates scope targetVersion tokens now l' st' in
            (sf, (queued, ("center: queue Agent " +:+ ag_id a +:+ " independently: " +:+ e) :: errs))
        end
  end.

(** [QueueAgentUpdates]: the queued identifiers and the joined errors. *)
Definition QueueAgentUpdates (scope : option (gset string)) (targetVersion : string)
    (tokens : string → string) (now : Z) : M (list string * list string) :=
  let targetVersion := trim_v targetVersion in
  fail_if ((targetVersion =?s "") || negb (semver_valid ("v" +:+ targetVersion)))
    "center: Agent rollout target version is invalid" ;;;
  do! paused := query agentUpdateRolloutPaused in
  lift (snd paused) ;;;
  if fst paused then ok ([], []) else
  do! candidates := query (λ st,
    sql_select (rollout_candidate scope targetVersion st)
      (slice_sort rollout_order (sql_select (rollout_eligible targetVersion now st) (agents st)))) in
  λ st, let '(sf, r) := queue_candidates scope targetVersion tokens now candidates st in (sf, Ok r).

Record AgentUpdateRolloutStatus := mk_rollout {
  rs_scoped : bool; rs_excluded : Z; rs_target_version : string; rs_total : Z; rs_updated : Z;
  rs_updating : Z; rs_pending : Z; rs_failed : Z; rs_offline : Z; rs_manual : Z; rs_blocked : Z;
  rs_claims_paused : bool
}.

(** The counters of the status. *)
Inductive counter := c_excluded | c_total | c_updated | c_updating | c_pending | c_failed | c_offline
  | c_manual | c_blocked.

#[global] Instance counter_eq_dec : EqDecision counter.
Proof. solve_decision. Defined.

(** [status.<Counter>++]. *)
Definition bump (c : counter) (s : AgentUpdateRolloutStatus) : AgentUpdateRolloutStatus :=
  let inc d v := if bool_decide (c = d) then v + 1 else v in
  mk_rollout (rs_scoped s) (inc c_excluded (rs_excluded s)) (rs_target_version s)
    (inc c_total (rs_total s)) (inc c_updated (rs_updated s)) (inc c_updating (rs_updating s))
    (inc c_pending (rs_pending s)) (inc c_failed (rs_failed s)) (inc c_offline (rs_offline s))
    (inc c_manual (rs_manual s)) (inc c_blocked (rs_blocked s)) (rs_claims_paused s).

Definition agentUpdateProgressTimeout : Z := 5 * minute.

(** [parsed.After(limit)] of a stored time. *)
Definition parsed_after (text : string) (limit : Z) : bool :=
  match parse_rfc3339 text with Some t => limit <? t | None => false end.

(** One turn of the loop of [AgentUpdateRolloutStatus]. *)
Definition rollout_agent (scope : option (gset string)) (targetVersion : string) (now : Z) (st : Store)
    (status : AgentUpdateRolloutStatus) (a : agent_row) : AgentUpdateRolloutStatus :=
  let previous := latest_update (ag_id a) st in
  let state := match previous with Some u => tr_state u | None => "" end in
  let target := match previous with Some u => tr_target_version u | None => "" end in
  let error := match previous with Some u => tr_error u | None => "" end in
  let updated_at := match previous with Some u => tr_updated_at u | None => "" end in
  let attempt := match previous with Some u => tr_attempt u | None => 0 end in
  let executed := match previous with Some u => has_execution (tr_id u) st | None => false end in
  if negb (agentUpdateAllowed scope (ag_id a)) then bump c_excluded status else
  let blocked := negb (ag_runtime_recovery a =?s "")
                 || unresolvedExecutionBlocksAgentUpdate (ag_id a) (ag_version a) st in
  let current := "v" +:+ trim_v (ag_version a) in
  let activeUpdate := str_in state active_states in
  if negb activeUpdate && semver_valid current
     && (0 <? semver_compare current ("v" +:+ targetVersion)) then status else
  let status := bump c_total status in
  let superseded := unclaimedAgentUpdateSuperseded (ag_version a) target state error attempt executed in
  if negb activeUpdate && (trim_v (ag_version a) =?s targetVersion)
     && (negb ((target =?s targetVersion) && (state =?s "failed")) || superseded)
  then bump c_updated status else
  let connected := parsed_after (ag_last_seen_at a) (now - agentConnectedMaxAge) in
  if activeUpdate then
    if negb connected then bump c_offline status
    else if negb (target =?s targetVersion) then bump c_blocked status
    else if (state =?s "installing") && negb (trim_space error =?s "") then bump c_failed status
    else if negb (parsed_after updated_at (now - agentUpdateProgressTimeout)) then bump c_failed status
    else bump c_updating status
  else if negb connected then bump c_offline status
  else if (target =?s targetVersion) && ((state =?s "failed") || (state =?s "succeeded"))
  then bump c_failed status
  else if blocked
          || ((state =?s "failed") && negb (agentUpdateFailureSuperseded (ag_version a) target))
  then bump c_blocked status
  else if negb (ag_remote_update_supported a) then bump c_manual status
  else if negb connected then bump c_offline status
  else bump c_pending status.

Definition enrolled (a : agent_row) : bool :=
  (ag_status a =?s "active") && (ag_credential_revoked_at a =?s "").

(** [ORDER BY agent.name, agent.id]. *)
Definition name_order (a b : agent_row) : bool :=
  if ag_name a =?s ag_name b then ag_id a <?s ag_id b else ag_name a <?s ag_name b.

(** [AgentUpdateRolloutStatus]. *)
Definition rolloutStatus (scope : option (gset string)) (targetVersion : string) (now : Z) (st : Store)
    : res AgentUpdateRolloutStatus :=
  let targetVersion := trim_v targetVersion in
  if (targetVersion =?s "") || negb (semver_valid ("v" +:+ targetVersion))
  then Err "center: Agent rollout target version is invalid"
  else Ok (fold_left (rollout_agent scope targetVersion now st)
             (slice_sort name_order (sql_select enrolled (agents st)))
             (mk_rollout (is_Some_b scope) 0 targetVersion 0 0 0 0 0 0 0 0 (executionClaimsPaused st))).

(** ** Claiming and completion *)

(** [ORDER BY created_at, rowid LIMIT 1]. *)
Definition oldest_by {A} (created : A → string) (l : list A) : option A :=
  fold_left (λ best t, match best with
                       | None => Some t
                       | Some b => if created t <?s created b then Some t else best
                       end) l None.

Definition pending_update (agentID : string) (st : Store) : option task_row :=
  oldest_by tr_created_at
    (sql_select (λ t, is_update t && (tr_agent_id t =?s agentID) && (tr_state t =?s "pending"))
       (tasks st)).

(** [claimAgentUpdate], inside the transaction of the claim.  The payload of the
    task is its target version. *)
Definition claimAgentUpdate (scope : option (gset string)) (agentID : string) (now : Z)
    : M (option AgentTask) :=
  if negb (agentUpdateAllowed scope agentID) then ok None else
  do! row := query (pending_update agentID) in
  match row with
  | None => ok None
  | Some u =>
      do! n := update_tasks
        (λ t, is_update t && (tr_id t =?s tr_id u) && (tr_agent_id t =?s agentID)
              && (tr_state t =?s "pending") && (tr_attempt t =? tr_attempt u))
        (λ t, set_tr_updated (rfc3339nano now)
                (set_tr_error "" (set_tr_lease (rfc3339nano (now + taskLeaseDuration))
                   (set_tr_attempt (tr_attempt t + 1) (set_tr_state "running" t))))) in
      expect_one n "center: Agent update changed while claiming" ;;;
      recordTaskEvent (tr_id u) agentID "agent.update" 1 "claimed"
        ("attempt " +:+ decimal (tr_attempt u + 1)) now ;;;
      ok (Some (mk_task (tr_id u) "agent.update" (tr_attempt u + 1) 1 "" false None None None None None
                  None None None (tr_target_version u)))
  end.

Definition errInvalidReconciliationDisposition : string :=
  "center: invalid task reconciliation disposition".

(** [completeAgentUpdate]; [commit] is the commit closure of the completion. *)
Definition completeAgentUpdate (commit : M unit) (agentID taskID : string) (expectedAttempt : Z)
    (succeeded : bool) (taskError : string) (recoveryRequired : bool) (now : Z) : M unit :=
  let taskError := trim_space taskError in
  let taskError := if 1024 <? str_len taskError then String.substring 0 1024 taskError else taskError in
  transaction (
    do! row := query (λ st, sql_row
      (λ t, is_update t && (tr_id t =?s taskID) && (tr_agent_id t =?s agentID)) (tasks st)) in
    match row with
    | None => fail "center: Agent update task not found"
    | Some u =>
        fail_if (negb (tr_attempt u =? expectedAttempt) || (expectedAttempt <=? 0))
          "center: Agent update task is stale" ;;;
        fail_if (recoveryRequired
                 && (succeeded || (taskError =?s "")
                     || (negb (tr_state u =?s "installing")
                         && negb ((tr_state u =?s "failed") && (tr_error u =?s taskError)))))
          errInvalidReconciliationDisposition ;;;
        let desiredState := if succeeded then "succeeded" else "failed" in
        let taskError := if negb succeeded && (taskError =?s "") then "Agent update failed" else taskError in
        if (tr_state u =?s desiredState) && (negb recoveryRequired || (tr_error u =?s taskError))
        then commit else
        (if succeeded then
           do! agent := query (λ st, sql_row (λ a, ag_id a =?s agentID) (agents st)) in
           match agent with
           | None => fail "center: updated Agent did not reconnect"
           | Some a =>
               fail_if (negb (ag_version a =?s tr_target_version u) || negb (ag_remote_update_supported a)
                        || negb (recently_seen (ag_last_seen_at a) now))
                 "center: updated Agent has not reconnected with the target version" ;;;
               fail_if (negb (tr_state u =?s "installing")) "center: Agent update is not installing"
           end
         else
           fail_if (negb (tr_state u =?s "running") && negb (tr_state u =?s "installing"))
             "center: Agent update is not active") ;;;
        do! n := update_tasks
          (λ t, is_update t && (tr_id t =?s taskID) && (tr_agent_id t =?s agentID)
                && (tr_state t =?s tr_state u) && (tr_attempt t =? expectedAttempt))
          (λ t, set_tr_updated (rfc3339nano now)
                  (set_tr_error taskError (set_tr_lease "" (set_tr_state desiredState t)))) in
        expect_one n "center: Agent update changed before completion" ;;;
        recordTaskEvent taskID agentID "agent.update" 1 desiredState taskError now ;;;
        commit
    end).

End Updates.
