(* ===== verification/Legacy.v ===== *)
(** * Archived receipts of the previous protocol

    internal/controlplane/legacy_receipt.go and, in internal/center,
    execution_legacy_import.go, execution_legacy_view.go and
    execution_legacy_disposition.go.  A receipt of the protocol that preceded
    one-use executions is archived as an execution of kind [legacy.receipt];
    it is evidence, never a permission, and fences the Agent until an
    administrator retires it. *)
From S2P Require Import Prelude GoText Redact GoTime TaskIds Store Execution Claims Handoff Disposition.
From S2P Require Import Confirmation.

Record LegacyReceipt := mk_receipt {
  lr_task_id : string;
  lr_kind : string;
  lr_attempt : Z;
  lr_runtime_generation : Z;
  lr_task_hash : string;
  lr_state : string;
  lr_completion : string;
  lr_created_at : string;
  lr_updated_at : string
}.

#[global] Instance LegacyReceipt_eq_dec : EqDecision LegacyReceipt.
Proof. solve_decision. Defined.

Record LegacyReceiptImport := mk_import {
  li_session_id : string; li_digest : string; li_receipt : LegacyReceipt
}.

Record LegacyReceiptView := mk_receipt_view {
  lv_execution_id : string; lv_task_id : string; lv_kind : string; lv_attempt : Z;
  lv_runtime_generation : Z; lv_state : string; lv_has_completion : bool;
  lv_created_at : string; lv_updated_at : string
}.

Definition LegacyReceiptMaxCompletionBytes : Z := 2 * 2 ^ 20.
Definition LegacyReceiptMaxPayloadBytes : Z := 3 * 2 ^ 20.

(** [encoding/json] on a receipt, on the identity of a completion and on the
    triple an archive identifier hashes. *)
Class ReceiptCodec := {
  receipt_json : LegacyReceipt → string;
  receipt_of_json : string → option LegacyReceipt;
  completion_identity : string → option (string * Z);
  archive_identity_json : string → string → Z → string
}.

Section Receipts.
Context {L : Libraries} {RC : ReceiptCodec}.

(** [LegacyReceiptArchiveID]. *)
Definition LegacyReceiptArchiveID (agentID taskID : string) (attempt : Z) : string :=
  "legacy-receipt-" +:+ sha256_hex (archive_identity_json agentID taskID attempt).

Definition receipt_error : string := "invalid legacy receipt evidence".

(** [EncodeLegacyReceipt]: the canonical text of a valid receipt and its digest. *)
Definition EncodeLegacyReceipt (item : LegacyReceipt) : res (string * string) :=
  guard_err ((lr_task_id item =?s "") || (512 <? str_len (lr_task_id item))
             || (lr_kind item =?s "") || (128 <? str_len (lr_kind item)) || (lr_attempt item <=? 0)
             || (lr_runtime_generation item <? 0) || negb (str_len (lr_task_hash item) =? 32)
             || (LegacyReceiptMaxCompletionBytes <? str_len (lr_completion item))) receipt_error ;;!
  guard_err (negb (str_in (lr_state item)
    ["processing"; "completed"; "acknowledged"; "reconciliation_required";
     "reconciliation_acknowledged"])) receipt_error ;;!
  guard_err (negb (is_Some_b (parse_rfc3339 (lr_created_at item)))
             || negb (is_Some_b (parse_rfc3339 (lr_updated_at item)))) receipt_error ;;!
  (if 0 <? str_len (lr_completion item) then
     match completion_identity (lr_completion item) with
     | None => Err receipt_error
     | Some (taskID, attempt) =>
         guard_err (negb (taskID =?s lr_task_id item) || negb (attempt =? lr_attempt item)) receipt_error
     end
   else guard_err (negb (lr_state item =?s "processing") && negb (lr_state item =?s "acknowledged"))
          receipt_error) ;;!
  let raw := receipt_json item in Ok (raw, sha256_hex raw).

(** The archived row. *)
Definition archive_row (id agentID : string) (input : LegacyReceiptImport) (raw digest now : string)
    : task_execution :=
  let acknowledged := lr_state (li_receipt input) =?s "acknowledged" in
  {| te_id := id; te_agent_id := agentID; te_task_id := id; te_kind := "legacy.receipt";
     te_attempt := lr_attempt (li_receipt input); te_session_id := li_session_id input;
     te_digest := digest; te_sealed_task := seal ("execution-task:" +:+ id) raw;
     te_sealed_result := ""; te_state := if acknowledged then Succeeded else Unknown;
     te_phase := "legacy:" +:+ lr_state (li_receipt input);
     te_last_error := if acknowledged then ""
                      else "Legacy execution requires operator verification";
     te_expires_at := now; te_created_at := now; te_updated_at := now; te_disposition := "";
     te_disposition_note := ""; te_disposition_actor := ""; te_disposed_at := "";
     te_identity_retired_at := "" |}.

(** [ImportLegacyReceipt]. *)
Definition ImportLegacyReceipt (agentID credential : string) (input : LegacyReceiptImport) (now : Z)
    : M string :=
  authenticateAgent agentID credential ;;;
  match EncodeLegacyReceipt (li_receipt input) with
  | Err _ => fail "center: invalid legacy evidence digest"
  | Ok (raw, digest) =>
      fail_if (negb (digest =?s li_digest input)) "center: invalid legacy evidence digest" ;;;
      let id := LegacyReceiptArchiveID agentID (lr_task_id (li_receipt input))
                  (lr_attempt (li_receipt input)) in
      transaction (
        do! current := query (λ st, session_current st agentID (li_session_id input)) in
        fail_if (negb current || (li_session_id input =?s "")) errExecutionAuthorization ;;;
        do! existing := query (λ st, sql_row
          (λ r, (te_id r =?s id) && (te_agent_id r =?s agentID) && (te_kind r =?s "legacy.receipt"))
          (executions st)) in
        match existing with
        | Some r =>
            fail_if (negb (te_digest r =?s digest)
                     || negb (bool_decide (unseal ("execution-task:" +:+ id) (te_sealed_task r)
                                           = Some raw)))
              "center: legacy evidence conflicts with retained archive" ;;;
            ok id
        | None =>
            do! busy := query (λ st, sql_exists
              (λ r, (te_agent_id r =?s agentID) && state_in (te_state r) [Offered; Running; HelperRunning]
                    && (te_disposition r =?s "")) (executions st)) in
            fail_if busy errExecutionBlocked ;;;
            insert_execution (archive_row id agentID input raw digest (rfc3339nano now)) ;;;
            ok id
        end)
  end.

(** [readLegacyReceipt]: the archived receipt and its Agent, after its size,
    seal, digest and identity are verified. *)
Definition readLegacyReceipt (id : string) (st : Store) : res (LegacyReceipt * string) :=
  match sql_row (λ r, (te_id r =?s id) && (te_kind r =?s "legacy.receipt")) (executions st) with
  | None => Err errNoRows
  | Some r =>
      guard_err (LegacyReceiptMaxPayloadBytes + 1024 <? str_len (te_sealed_task r))
        "center: legacy evidence exceeds size limit" ;;!
      match unseal ("execution-task:" +:+ id) (te_sealed_task r) with
      | None => Err "center: legacy evidence integrity check failed"
      | Some raw =>
      match receipt_of_json raw with
      | None => Err "center: invalid legacy evidence"
      | Some receipt =>
      match EncodeLegacyReceipt receipt with
      | Ok (_, actual) =>
          guard_err (negb (actual =?s te_digest r)
                     || negb (LegacyReceiptArchiveID (te_agent_id r) (lr_task_id receipt)
                                (lr_attempt receipt) =?s id))
            "center: legacy evidence identity or digest mismatch" ;;!
          Ok (receipt, te_agent_id r)
      | Err _ => Err "center: legacy evidence identity or digest mismatch"
      end end end
  end.

(** [InspectLegacyReceipt]. *)
Definition InspectLegacyReceipt (id : string) (st : Store) : res LegacyReceiptView :=
  let! p := readLegacyReceipt id st in
  let receipt := fst p in
  Ok (mk_receipt_view id (lr_task_id receipt) (lr_kind receipt) (lr_attempt receipt)
        (lr_runtime_generation receipt) (lr_state receipt) (0 <? str_len (lr_completion receipt))
        (lr_created_at receipt) (lr_updated_at receipt)).

(** The revision parser of a revisioned kind. *)
Definition receipt_revision (kind taskID : string) : option Z :=
  if kind =?s "landing.server.apply" then landingServerTaskRevision taskID
  else if kind =?s "landing.proxy.apply" then landingProxyTaskRevision taskID
  else if kind =?s "gateway.routes.apply" then gatewayTaskRevision taskID
  else if kind =?s "gateway.component.apply" then gatewayComponentTaskGeneration taskID
  else if kind =?s "node.listener.apply" then nodeListenerTaskRevision taskID
  else if kind =?s "tunnel.state.apply" then tunnelTaskRevision taskID
  else None.

(** The business task a receipt names: [None] for an obsolete kind, which has
    only its archive. *)
Definition receipt_task (receipt : LegacyReceipt) (agentID : string) : res (option AgentTask) :=
  let kind := lr_kind receipt in
  let taskID := lr_task_id receipt in
  let task revision :=
    {| at_id := taskID; at_kind := kind; at_attempt := lr_attempt receipt; at_revision := revision;
       at_application_id := ""; at_reconcile := false; at_meridian_acceptance := None;
       at_senulun_reporting := None; at_senulun_rotation := None; at_senulun_inspection := None;
       at_senulun_restore := None; at_maintenance_action := None; at_client_action := None;
       at_node_command_worker := None; at_rest := "" |} in
  if (kind =?s "application.apply") || (kind =?s "application.command") then Ok (Some (task 0))
  else match status_table kind with
       | None => Ok None
       | Some _ =>
           match receipt_revision kind taskID with
           | Some revision =>
               if taskID =?s expected_task_id kind agentID revision then Ok (Some (task revision))
               else Err errExecutionAuthorization
           | None => Err errExecutionAuthorization
           end
       end.

(** The abandonment statement, restricted to the newest task of its application. *)
Definition receipt_statement (task : AgentTask) (s : statement) : statement :=
  if at_kind task =?s "application.apply" then
    mk_statement (λ st t, sm_where s st t && negb (newer_in deployments t st)) (sm_set s)
  else if at_kind task =?s "application.command" then
    mk_statement (λ st t, sm_where s st t && negb (newer_in application_commands t st)) (sm_set s)
  else s.

(** [AbandonLegacyReceipt]. *)
Definition AbandonLegacyReceipt (id adminID : string) (input : ExecutionDisposition) (now : Z)
    : M unit :=
  fail_if (negb (di_action input =?s "abandon") || negb (di_execution_stopped input)
           || note_invalid (di_note input)) "center: confirm stopped execution and record verification" ;;;
  transaction (
    do! admin := query (λ st, is_admin st adminID) in
    fail_if (negb admin) "center: administrator authorization required" ;;;
    do! allowed := query (λ st, sql_exists
      (λ r, (te_id r =?s id) && (te_kind r =?s "legacy.receipt") && state_eqb (te_state r) Unknown
            && (te_disposition r =?s "")) (executions st)) in
    fail_if (negb allowed) errExecutionAuthorization ;;;
    do! p := (λ st, (st, readLegacyReceipt id st)) in
    let '(receipt, agentID) := p in
    do! task := lift (receipt_task receipt agentID) in
    let stamp := rfc3339nano now in
    (match task with
     | None => ok tt
     | Some task =>
         do! s := lift (executionAbandonStatement task agentID stamp) in
         do! matched := run_statement (receipt_statement task s) in
         if (at_kind task =?s "application.apply") && (matched =? 1)
         then (λ st, update_applications
                 (λ a, existsb (λ t, bool_decide (tr_table t = deployments) && (tr_id t =?s at_id task)
                                     && (tr_application_id t =?s ap_id a)) (tasks st))
                 (set_application_status "failed" stamp) st)
         else ok tt
     end) ;;;
    guarded
      (λ _ r, (te_id r =?s id) && (te_kind r =?s "legacy.receipt") && state_eqb (te_state r) Unknown
            && (te_disposition r =?s ""))
      (λ r, set_updated_at stamp
              (set_disposition "abandon" (SafeError (di_note input)) adminID stamp r))
      errExecutionAuthorization).

End Receipts.
