(* ===== verification/Leases.v ===== *)
(** * Leases of business tasks (internal/center/tasks.go)

    A claimed task holds a five-minute lease on its row.  The lease is released
    when the task cannot be delivered, renewed by the exact attempt that holds
    it, and recovered when it expires: an interrupted attempt is closed for
    inspection and never queued again by itself. *)
From S2P Require Import Prelude GoText GoTime TaskIds Store Execution Claims Handoff Disposition.
From S2P Require Import Confirmation.

Section Leases.
Context {L : Libraries}.

(** ** Release *)

Definition release_row (now : string) (t : task_row) : task_row :=
  set_tr_updated now (set_tr_lease "" (set_tr_state "pending" t)).

(** The row a claimed task holds and what its release assigns. *)
Definition releaseStatement (agentID : string) (task : AgentTask) (now : string) : res statement :=
  let k := at_kind task in
  if k =?s "node.os-reinstall" then
    Ok (mk_statement
          (λ _ t, bool_decide (tr_table t = os_reinstall_tasks) && (tr_id t =?s at_id task)
                  && (tr_agent_id t =?s agentID) && (tr_state t =?s "running") && (tr_attempt t =? 1))
          (λ t, set_tr_attempt 0 (release_row now t)))
  else if k =?s "agent.decommission" then
    Ok (mk_statement
          (λ _ t, is_decommission_row agentID t && (tr_state t =?s "running")
                  && (tr_attempt t =? at_attempt task))
          (λ t, set_tr_callback "" (release_row now t)))
  else match id_table k with
       | Some table => Ok (mk_statement (λ _, by_id table task agentID ["running"]) (release_row now))
       | None =>
           match status_table k with
           | Some table =>
               Ok (mk_statement (λ _, by_revision table task agentID ["applying"]) (release_row now))
           | None => Err ("center: cannot release unsupported claimed task kind " +:+ k)
           end
       end.

(** The rows that mirror the released task. *)
Definition release_mirror (agentID : string) (task : AgentTask) (now : string) : M unit :=
  let k := at_kind task in
  if k =?s "application.command" then
    match at_node_command_worker task with
    | None => ok tt
    | Some worker =>
        update_side (λ r, bool_decide (sd_table r = three_x_ui_nodes) && (sd_key r =?s worker)
                          && (sd_status r =?s "applying")) (set_side_status "pending" now)
    end
  else if k =?s "gateway.routes.apply" then
    update_side (λ r, bool_decide (sd_table r = routes) && (sd_key r =?s agentID)
                      && (sd_revision r =? at_revision task) && (sd_status r =?s "applying"))
      (set_side_status "pending" now)
  else if k =?s "application.apply" then
    update_applications (λ a, (ap_id a =?s at_application_id task) && (ap_status a =?s "deploying"))
      (set_application_status "pending" now)
  else ok tt.

(** [releaseClaimedTask]. *)
Definition releaseClaimedTask (agentID : string) (task : AgentTask) (now : Z) : M unit :=
  fail_if ((trim_space agentID =?s "") || (trim_space (at_id task) =?s "") || (at_attempt task <=? 0))
    "center: claimed task identity is invalid" ;;;
  transaction (
    let stamp := rfc3339nano now in
    do! s := lift (releaseStatement agentID task stamp) in
    do! changed := run_statement s in
    release_mirror agentID task stamp ;;;
    fail_if (negb (changed =? 1)) "center: claimed task changed before its lease could be released" ;;;
    recordTaskEvent (at_id task) agentID (at_kind task) (at_revision task) "released"
      "task encryption failed before delivery" now).

(** ** Renewal *)

Definition isAgentUpdateTaskID (value : string) : bool := has_prefix "agent-update-" value.

Definition by_task_id (table : business_table) (agentID taskID : string) (states : list string)
    (t : task_row) : bool :=
  bool_decide (tr_table t = table) && (tr_id t =?s taskID) && (tr_agent_id t =?s agentID)
  && str_in (tr_state t) states.

Definition by_node_revision (table : business_table) (agentID : string) (revision : Z) (t : task_row)
    : bool :=
  bool_decide (tr_table t = table) && (tr_agent_id t =?s agentID) && (tr_revision t =? revision)
  && (tr_state t =?s "applying").

(** The row a task identifier names, by the cases of [RenewTaskLease]. *)
Definition renew_target (agentID taskID : string) : res (task_row → bool) :=
  let running table := Ok (by_task_id table agentID taskID ["running"]) in
  if has_prefix "node-site-" taskID then running node_site_tasks
  else if has_prefix "os-reinstall-" taskID then
    Ok (by_task_id os_reinstall_tasks agentID taskID ["running"; "backup_ready"])
  else if has_prefix "node-security-" taskID then running node_security_tasks
  else if has_prefix "application-maintenance-" taskID then running application_maintenance
  else if has_prefix "application-adopt-" taskID then running application_adoptions
  else if has_prefix "ip-quality-" taskID then running ip_quality_checks
  else if has_prefix "node-diagnostic-" taskID then running node_diagnostic_checks
  else if has_prefix "xray-recovery-" taskID then running xray_configuration_recoveries
  else match landingProxyTaskRevision taskID with
  | Some revision =>
      if negb (taskID =?s landingProxyTaskID agentID revision) then Err errStaleTaskLease
      else Ok (by_node_revision landing_proxy_states agentID revision)
  | None =>
  match landingServerTaskRevision taskID with
  | Some revision =>
      if negb (taskID =?s landingServerTaskID agentID revision) then Err errStaleTaskLease
      else Ok (by_node_revision landing_server_states agentID revision)
  | None =>
  if has_prefix "application-command-" taskID then running application_commands
  else if taskID =?s agentDecommissionTaskID agentID then
    Ok (λ t, is_decommission_row agentID t && (tr_state t =?s "running"))
  else if has_prefix "tailscale-update-" taskID then running tailscale_update_tasks
  else if isAgentUpdateTaskID taskID then running agent_updates
  else match gatewayTaskRevision taskID with
  | Some revision => Ok (by_node_revision gateway_states agentID revision)
  | None =>
  match nodeListenerTaskRevision taskID with
  | Some revision => Ok (by_node_revision node_listener_states agentID revision)
  | None =>
  match tunnelTaskRevision taskID with
  | Some revision => Ok (by_node_revision cloudflare_tunnels agentID revision)
  | None =>
  match gatewayComponentTaskGeneration taskID with
  | Some generation => Ok (by_node_revision gateway_components agentID generation)
  | None => running deployments
  end end end end end end.

(** [RenewTaskLease]: the new expiry. *)
Definition RenewTaskLease (agentID credential taskID : string) (expectedAttempt now : Z) : M Z :=
  fail_if ((expectedAttempt <=? 0) || (trim_space taskID =?s "")) errStaleTaskLease ;;;
  authenticateAgent agentID credential ;;;
  do! target := lift (renew_target agentID taskID) in
  do! changed := update_tasks
    (λ t, target t && (tr_attempt t =? expectedAttempt) && unexpired (tr_lease_expires_at t) now)
    (λ t, set_tr_updated (rfc3339nano now) (set_tr_lease (lease now taskLeaseDuration) t)) in
  expect_one changed errStaleTaskLease ;;;
  ok (now + taskLeaseDuration).

(** ** Recovery of expired leases *)

Record expired_task := mk_expired { ex_id : string; ex_kind : string; ex_revision : Z }.

(** A lease that was granted and is over. *)
Definition lease_expired (agentID : string) (now : Z) (table : business_table) (states : list string)
    (t : task_row) : bool :=
  bool_decide (tr_table t = table) && (tr_agent_id t =?s agentID) && str_in (tr_state t) states
  && negb (tr_lease_expires_at t =?s "") && lapsed (tr_lease_expires_at t) now.

(** One of the queries of [recoverExpiredTasks]. *)
Record expired_query := mk_expired_query {
  eq_kind : string;
  eq_table : business_table;
  eq_states : list string;
  eq_where : task_row → bool;
  eq_id : task_row → string;
  eq_revision : task_row → Z
}.

Definition plain_query (kind : string) (table : business_table) (states : list string) : expired_query :=
  mk_expired_query kind table states (λ _, true) tr_id (λ _, 1).

Definition diagnostic_query (kind : string) : expired_query :=
  mk_expired_query kind node_diagnostic_checks ["running"] (λ t, tr_kind t =?s kind) tr_id tr_revision.

Definition state_query (kind : string) (table : business_table) (id : string → Z → string)
    : expired_query :=
  mk_expired_query kind table ["applying"] (λ _, true) (λ t, id (tr_agent_id t) (tr_revision t))
    tr_revision.

Definition expired_queries : list expired_query :=
  [plain_query "tailscale.update" tailscale_update_tasks ["running"];
   mk_expired_query "node.site.certificate" node_site_tasks ["running"] (λ _, true) tr_id tr_revision;
   plain_query "node.os-reinstall" os_reinstall_tasks ["running"; "backup_ready"];
   plain_query "node.security" node_security_tasks ["running"];
   plain_query "node.ip-quality" ip_quality_checks ["running"]]
  ++ map diagnostic_query diagnostic_kinds ++
  [mk_expired_query "xray.configuration.inspect" xray_configuration_recoveries ["running"]
     (λ t, tr_kind t =?s "inspect") tr_id (λ _, 1);
   mk_expired_query "xray.configuration.apply" xray_configuration_recoveries ["running"]
     (λ t, negb (tr_kind t =?s "inspect")) tr_id (λ _, 1);
   plain_query "application.apply" deployments ["running"];
   plain_query "application.adopt" application_adoptions ["running"];
   plain_query "application.maintenance" application_maintenance ["running"];
   state_query "landing.proxy.apply" landing_proxy_states landingProxyTaskID;
   state_query "landing.server.apply" landing_server_states landingServerTaskID;
   plain_query "application.command" application_commands ["running"];
   state_query "gateway.component.apply" gateway_components gatewayComponentTaskID;
   state_query "gateway.routes.apply" gateway_states gatewayRouteTaskID;
   state_query "node.listener.apply" node_listener_states nodeListenerTaskID;
   state_query "tunnel.state.apply" cloudflare_tunnels tunnelTaskID;
   mk_expired_query "agent.decommission" agent_decommissions ["running"] (λ _, true)
     (λ t, agentDecommissionTaskID (tr_agent_id t)) (λ _, 1);
   plain_query "agent.update" agent_updates ["running"]].

Definition expired_rows (agentID : string) (now : Z) (st : Store) : list expired_task :=
  concat (map (λ q,
    map (λ t, mk_expired (eq_id q t) (eq_kind q) (eq_revision q t))
      (sql_select (λ t, lease_expired agentID now (eq_table q) (eq_states q) t && eq_where q t)
         (tasks st))) expired_queries).

Definition interrupted_message : string := "Execution interrupted; manual verification required".

(** [SET state=..,lease_expires_at='',error=..,updated_at=now] on the expired rows
    of one table; [required] also sets [reconciliation_required]. *)
Definition interrupt (agentID : string) (now : Z) (table : business_table) (states : list string)
    (state message : string) (required : bool) : M unit :=
  do! _ := update_tasks (lease_expired agentID now table states)
    (λ t, let t := close_task state message (rfc3339nano now) t in
          if required then set_tr_reconciliation true (tr_reconciliation_requested t) t else t) in
  ok tt.

(** The resources of an application whose task was interrupted. *)
Definition block_resources (agentID : string) (now : Z) (table : business_table)
    (wh : task_row → bool) (message : string) : M unit :=
  λ st, update_side
    (λ r, bool_decide (sd_table r = application_resources)
          && existsb (λ t, lease_expired agentID now table ["running"] t && wh t
                           && (tr_application_id t =?s sd_key r)) (tasks st))
    (λ r, mk_side (sd_table r) (sd_key r) (sd_revision r) "blocked" message (rfc3339nano now)) st.

(** The websites and applications whose task was interrupted. *)
Definition flag_sites (agentID : string) (now : Z) : M unit :=
  λ st, (with_node_sites (sql_update
           (λ s, existsb (λ t, bool_decide (tr_table t = node_site_tasks) && (tr_agent_id t =?s agentID)
                               && (tr_application_id t =?s ns_application_id s)
                               && (tr_revision t =? ns_revision s) && (tr_state t =?s "failed")
                               && (tr_error t =?s "Interrupted; inspect recovered website state"))
                   (tasks st))
           (λ s, mk_node_site (ns_application_id s) (ns_revision s) "action_required"
                   "Execution interrupted; inspect recovered website state" (rfc3339nano now))
           (node_sites st)) st, Ok tt).

Definition flag_applications (agentID : string) (now : Z) : M unit :=
  λ st, update_applications
    (λ a, existsb (λ t, bool_decide (tr_table t = deployments) && (tr_agent_id t =?s agentID)
                        && (tr_state t =?s "failed") && (tr_error t =?s interrupted_message)
                        && (tr_application_id t =?s ap_id a)) (tasks st))
    (set_application_status "failed" (rfc3339nano now)) st.

(** The executions of the expired tasks. *)
Fixpoint interrupt_executions (agentID : string) (now : Z) (expired : list expired_task) : M unit :=
  match expired with
  | [] => ok tt
  | task :: rest =>
      do! _ := update_executions
        (λ r, (te_agent_id r =?s agentID) && (te_task_id r =?s ex_id task)
              && (te_disposition r =?s "") && state_in (te_state r) [Offered; Running])
        (λ r, set_updated_at (rfc3339nano now)
                (set_last_error interrupted_message (set_state Unknown r))) in
      recordTaskEvent (ex_id task) agentID (ex_kind task) (ex_revision task) "lease_expired"
        (if ex_kind task =?s "agent.update" then "Agent update interrupted; manual verification required"
         else interrupted_message) now ;;;
      interrupt_executions agentID now rest
  end.

(** [recoverExpiredTasks].  [mirror] is the projection of an expired Meridian
    command on the Meridian tables (tasks.go 343-367), which the model does not
    contain. *)
Definition recoverExpiredTasks (agentID : string) (mirror : M unit) (now : Z) : M unit :=
  let maintenance := "Package maintenance interrupted; operator verification required" in
  let inspection := "Resource inspection interrupted; operator verification required" in
  let failed table message := interrupt agentID now table ["running"] "failed" message false in
  let stopped table := interrupt agentID now table ["applying"] "failed" interrupted_message false in
  transaction (
    do! expired := query (expired_rows agentID now) in
    match expired with
    | [] => ok tt
    | _ =>
        block_resources agentID now application_maintenance (λ t, negb (tr_kind t =?s "logs"))
          maintenance ;;;
        interrupt agentID now application_maintenance ["running"] "failed" maintenance true ;;;
        block_resources agentID now application_adoptions (λ _, true) inspection ;;;
        failed application_adoptions inspection ;;;
        failed ip_quality_checks "interrupted" ;;;
        failed node_diagnostic_checks "interrupted" ;;;
        failed node_site_tasks "Interrupted; inspect recovered website state" ;;;
        flag_sites agentID now ;;;
        interrupt agentID now os_reinstall_tasks ["running"; "backup_ready"] "unknown"
          "Reinstall execution interrupted; review required" false ;;;
        failed node_security_tasks "interrupted; inspect host security checkpoint" ;;;
        failed xray_configuration_recoveries "interrupted" ;;;
        interrupt agentID now deployments ["running"] "failed" interrupted_message true ;;;
        interrupt agentID now application_commands ["running"] "failed" interrupted_message true ;;;
        failed tailscale_update_tasks
          "Update dispatch interrupted; inspect the host before retrying" ;;;
        mirror ;;;
        flag_applications agentID now ;;;
        stopped gateway_components ;;;
        stopped gateway_states ;;;
        stopped landing_proxy_states ;;;
        stopped landing_server_states ;;;
        stopped node_listener_states ;;;
        stopped cloudflare_tunnels ;;;
        failed agent_decommissions interrupted_message ;;;
        failed agent_updates "Agent update interrupted; manual verification required" ;;;
        interrupt_executions agentID now expired
    end).

End Leases.
