(* ===== verification/Lifecycle.v ===== *)
(** * How executions evolve

    The order of the states of an execution, the relation between a row and its
    later versions, and the proof that every operation of the protocol makes
    the database evolve along it: identity columns never change, a state never
    goes back, a disposed or completed row is frozen, received evidence is kept,
    retired sessions never come back, and the audit trail records every change. *)
From S2P Require Import Prelude GoText GoTime TaskIds Store Execution Claims Handoff Disposition.
From S2P Require Import Confirmation.

(** ** Rows *)

(** [state_le a b]: an execution in state [a] may later be in state [b]. *)
Definition state_le (a b : exec_state) : bool :=
  match a, b with
  | Offered, _ => true
  | Running, Offered => false
  | Running, _ => true
  | HelperRunning, (HelperRunning | Succeeded | Failed | Unknown) => true
  | Unknown, (Unknown | Succeeded) => true
  | Failed, Failed => true
  | Succeeded, Succeeded => true
  | _, _ => false
  end.

Lemma state_le_refl a : state_le a a = true.
Proof. by destruct a. Qed.

Lemma state_le_trans a b c : state_le a b = true → state_le b c = true → state_le a c = true.
Proof. by destruct a, b, c. Qed.

(** The evidence of a row is settled once a started execution has delivered it
    or the execution is over. *)
Definition settled (r : task_execution) : Prop :=
  (te_phase r = "result_received" ∧ te_state r ≠ Offered) ∨ active r = false.

(** The order of the phases of an Agent update helper. *)
Definition helper_rank (phase : string) : Z :=
  if phase =?s "stop" then 1
  else if phase =?s "backup" then 2
  else if phase =?s "preserve" then 3
  else if phase =?s "install" then 4
  else if phase =?s "start" then 5
  else if phase =?s "result_received" then 6
  else 0.

Lemma helper_rank_received p : helper_rank p <= helper_rank "result_received".
Proof.
  change (helper_rank "result_received") with 6. unfold helper_rank. repeat case_match; lia.
Qed.

Lemma helper_previous_rank p q : helper_previous p = Some q → helper_rank p = helper_rank q + 1.
Proof. unfold helper_previous. repeat case_match; intros; simplify_eq; by bool_prop; subst. Qed.

(** A live permission: neither over nor decided. *)
Definition live (r : task_execution) : bool := active r && (te_disposition r =?s "").

Record row_step (r r' : task_execution) : Prop := mk_row_step {
  rs_id : te_id r' = te_id r;
  rs_agent : te_agent_id r' = te_agent_id r;
  rs_task : te_task_id r' = te_task_id r;
  rs_kind : te_kind r' = te_kind r;
  rs_attempt : te_attempt r' = te_attempt r;
  rs_session : te_session_id r' = te_session_id r;
  rs_digest : te_digest r' = te_digest r;
  rs_sealed_task : te_sealed_task r' = te_sealed_task r;
  rs_state : state_le (te_state r) (te_state r') = true;
  rs_frozen : te_disposition r ≠ "" ∨ te_state r = Succeeded → r' = r;
  rs_retired : te_identity_retired_at r ≠ "" →
    te_identity_retired_at r' = te_identity_retired_at r;
  rs_retiring : te_identity_retired_at r = "" → te_identity_retired_at r' ≠ "" → active r' = false;
  rs_settled : settled r → te_sealed_result r' = te_sealed_result r ∧ settled r';
  rs_helper : te_kind r = "agent.update" → te_state r = HelperRunning →
    te_state r' = HelperRunning → helper_rank (te_phase r) <= helper_rank (te_phase r')
}.

#[global] Instance row_step_refl : Reflexive row_step.
Proof. intros r. split; auto using state_le_refl; [congruence|lia]. Qed.

Lemma state_le_active r r' :
  state_le (te_state r) (te_state r') = true → active r' = true → active r = true.
Proof. unfold active. by destruct (te_state r), (te_state r'). Qed.

#[global] Instance row_step_trans : Transitive row_step.
Proof.
  intros a b c [] []. split; try congruence.
  - eauto using state_le_trans.
  - intros H. assert (b = a) as -> by auto. auto.
  - intros H. rewrite rs_retired1; [auto|]. by rewrite rs_retired0.
  - intros Ha Hc. destruct (decide (te_identity_retired_at b = "")) as [Hb|Hb]; [auto|].
    apply not_true_iff_false. intros Hac. apply (state_le_active _ _ rs_state1) in Hac.
    by rewrite rs_retiring0 in Hac.
  - intros H. destruct (rs_settled0 H) as [E1 H1]. destruct (rs_settled1 H1) as [E2 H2].
    split; [congruence|done].
  - intros Hk Ha Hc. assert (te_state b = HelperRunning) as Hb.
    { rewrite Ha in *. rewrite Hc in *. by destruct (te_state b). }
    etrans; [by apply rs_helper0|]. apply rs_helper1; congruence.
Qed.

(** Permission is never regained. *)
Lemma row_step_live r r' : row_step r r' → live r' = true → live r = true.
Proof.
  intros [] Hl. destruct (decide (te_disposition r = "")) as [Hd|Hd].
  - unfold live, active in *. rewrite Hd, String.eqb_refl. bool_prop.
    by destruct (te_state r), (te_state r').
  - assert (r' = r) as -> by auto. done.
Qed.

(** The machine of a retired row is gone. *)
Definition retired_inactive (r : task_execution) : Prop :=
  te_identity_retired_at r ≠ "" → active r = false.

Lemma row_step_retired r r' : row_step r r' → retired_inactive r → retired_inactive r'.
Proof.
  intros [] Hr Hn. destruct (decide (te_identity_retired_at r = "")) as [He|He]; [auto|].
  apply not_true_iff_false. intros Hac. apply (state_le_active _ _ rs_state0) in Hac.
  by rewrite Hr in Hac.
Qed.

(** A new row, as [persistExecutionAuthorization] inserts it. *)
Definition fresh_row (r : task_execution) : Prop :=
  te_state r = Offered ∧ te_phase r = "authorized" ∧ te_disposition r = "" ∧
  te_identity_retired_at r = "" ∧ te_sealed_result r = "".

Abbreviation rows_step := (Forall2 row_step).

#[global] Instance rows_step_refl : Reflexive rows_step.
Proof. intros l. induction l; constructor; auto. reflexivity. Qed.

#[global] Instance rows_step_trans : Transitive rows_step.
Proof.
  intros a b c H. revert c. induction H; intros c Hc; inversion Hc; subst; constructor; auto.
  etrans; eauto.
Qed.

Lemma sql_update_rows_step wh f l :
  (∀ r, wh r = true → row_step r (f r)) → rows_step l (sql_update wh f l).
Proof.
  intros H. unfold sql_update. induction l as [|r l IH]; simpl; constructor; auto.
  destruct (wh r) eqn:E; [auto|reflexivity].
Qed.

Lemma rows_step_map {A} (key : task_execution → A) l l' :
  (∀ r r', row_step r r' → key r' = key r) → rows_step l l' → map key l' = map key l.
Proof. intros Hk H. induction H; simpl; f_equal; auto. Qed.

(** ** The audit trail *)
Definition events_of (id : string) (evs : list execution_event) : list execution_event :=
  List.filter (λ e, ev_execution_id e =?s id) evs.

(** The last event of an execution shows its current state and phase. *)
Definition row_audited (evs : list execution_event) (r : task_execution) : Prop :=
  ∃ e, last (events_of (te_id r) evs) = Some e ∧ ev_state e = te_state r ∧ ev_phase e = te_phase r.

Definition attempt_key (r : task_execution) : string * Z := (te_task_id r, te_attempt r).

(** The invariant of the database: execution identifiers and task attempts are
    unique, every row is audited, no retired row is active, and the current
    session of an Agent is on record. *)
Record well_formed (st : Store) : Prop := mk_well_formed {
  wf_id : NoDup (map te_id (executions st));
  wf_attempt : NoDup (map attempt_key (executions st));
  wf_audited : Forall (row_audited (execution_events st)) (executions st);
  wf_retired : Forall retired_inactive (executions st);
  wf_session : ∀ a s, sessions st !! a = Some s → (a, s) ∈ session_history st
}.

Lemma events_of_app id a b : events_of id (a ++ b) = events_of id a ++ events_of id b.
Proof. apply List.filter_app. Qed.

Lemma events_of_update_audit id r r' :
  te_id r' = te_id r →
  events_of id (execution_update_audit r r') =
  if te_id r =?s id then execution_update_audit r r' else [].
Proof.
  intros E. unfold execution_update_audit, events_of.
  destruct (_ || _); simpl; [rewrite E|]; by destruct (te_id r =?s id).
Qed.

(** The events an update appends for one execution are those of its row. *)
Lemma events_of_updates (wh : task_execution → bool) f (l : list task_execution) r :
  (∀ x, te_id (f x) = te_id x) → NoDup (map te_id l) → r ∈ l →
  events_of (te_id r)
    (concat (map (λ x, if wh x then execution_update_audit x (f x) else []) l)) =
  if wh r then execution_update_audit r (f r) else [].
Proof.
  intros Hf. 
  assert (∀ l x, te_id x ∉ map te_id l →
    events_of (te_id x)
      (concat (map (λ x, if wh x then execution_update_audit x (f x) else []) l)) = []) as Hout.
  { clear l r. induction l as [|y l IH]; intros x Hx; [done|]. simpl in *.
    apply not_elem_of_cons in Hx as [Hne Hx]. rewrite events_of_app, IH by done.
    destruct (wh y); [|done]. rewrite events_of_update_audit by apply Hf.
    by rewrite (proj2 (String.eqb_neq (te_id y) (te_id x))) by congruence. }
  induction l as [|y l IH]; intros Hnd Hr; [by apply not_elem_of_nil in Hr|].
  simpl in *. apply NoDup_cons in Hnd as [Hy Hnd]. rewrite events_of_app.
  apply elem_of_cons in Hr as [->|Hr].
  - rewrite Hout by done. rewrite app_nil_r. destruct (wh y); [|done].
    rewrite events_of_update_audit by apply Hf. by rewrite String.eqb_refl.
  - rewrite IH by done. destruct (wh y); [|done].
    rewrite events_of_update_audit by apply Hf.
    assert ((te_id y =?s te_id r) = false) as ->; [|done].
    apply String.eqb_neq. intros E. apply Hy. rewrite E. apply list_elem_of_In, in_map.
    by apply list_elem_of_In.
Qed.

Lemma update_audit_spec r r' evs :
  row_audited evs r → te_id r' = te_id r →
  ∀ extra, events_of (te_id r) extra = execution_update_audit r r' →
  row_audited (evs ++ extra) r'.
Proof.
  intros (e & He & Hs & Hp) Hid extra Hx. unfold row_audited.
  rewrite Hid, events_of_app, Hx. unfold execution_update_audit.
  destruct (_ || _) eqn:E.
  - rewrite last_snoc. by eexists.
  - rewrite app_nil_r. exists e. split; [done|]. repeat (apply orb_false_elim in E as [E ?]).
    unfold state_eqb in E. bool_prop. split; congruence.
Qed.

(** ** Databases *)
Record evolve (st st' : Store) : Prop := mk_evolve {
  ev_rows : rows_step (executions st) (executions st');
  ev_history : session_history st ⊆ session_history st';
  ev_sessions : ∀ a s, (a, s) ∈ session_history st → sessions st !! a ≠ Some s →
    sessions st' !! a ≠ Some s;
  ev_events : ∃ extra, execution_events st' = execution_events st ++ extra;
  ev_well_formed : well_formed st → well_formed st'
}.

#[global] Instance evolve_refl : Reflexive evolve.
Proof. intros st. split; try done. exists []. by rewrite app_nil_r. Qed.

#[global] Instance evolve_trans : Transitive evolve.
Proof.
  intros a b c [] []. split; auto.
  - etrans; eauto.
  - set_solver.
  - destruct ev_events0 as [x Hx], ev_events1 as [y Hy]. exists (x ++ y).
    by rewrite Hy, Hx, app_assoc.
Qed.

(** An operation that leaves the execution tables alone. *)
Lemma evolve_frame st st' :
  executions st' = executions st → execution_events st' = execution_events st →
  sessions st' = sessions st → session_history st' = session_history st → evolve st st'.
Proof.
  intros H1 H2 H3 H4. split.
  - by rewrite H1.
  - by rewrite H4.
  - by rewrite H3.
  - exists []. by rewrite H2, app_nil_r.
  - intros []. split; by rewrite ?H1, ?H2, ?H3, ?H4.
Qed.

Definition Evolves {A} (m : M A) : Prop := ∀ st, evolve st (fst (m st)).

Lemma evolves_ok {A} (a : A) : Evolves (ok a).
Proof. intros st. reflexivity. Qed.
Lemma evolves_fail {A} e : Evolves (@fail A e).
Proof. intros st. reflexivity. Qed.
Lemma evolves_query {A} (f : Store → A) : Evolves (query f).
Proof. intros st. reflexivity. Qed.
Lemma evolves_read {A} (f : Store → res A) : Evolves (λ st, (st, f st)).
Proof. intros st. reflexivity. Qed.
Lemma evolves_lift {A} (r : res A) : Evolves (lift r).
Proof. intros st. reflexivity. Qed.
Lemma evolves_fail_if b e : Evolves (fail_if b e).
Proof. intros st. unfold fail_if. destruct b; reflexivity. Qed.
Lemma evolves_expect_one n e : Evolves (expect_one n e).
Proof. apply evolves_fail_if. Qed.

Lemma evolves_bind {A B} (m : M A) (k : A → M B) :
  Evolves m → (∀ a, Evolves (k a)) → Evolves (bindM m k).
Proof.
  intros Hm Hk st. unfold bindM. specialize (Hm st). destruct (m st) as [st' [a|e]]; simpl in *.
  - etrans; [apply Hm|apply Hk].
  - done.
Qed.

Lemma evolves_transaction {A} (m : M A) : Evolves m → Evolves (transaction m).
Proof.
  intros Hm st. unfold transaction. specialize (Hm st).
  destruct (m st) as [st' [a|e]]; simpl in *; [done|reflexivity].
Qed.

Lemma evolve_update (wh : task_execution → bool) f st :
  (∀ r, wh r = true → row_step r (f r)) → (∀ r, te_id (f r) = te_id r) →
  evolve st (fst (update_executions wh f st)).
Proof.
  intros Hs Hid. unfold update_executions; simpl.
  assert (rows_step (executions st) (sql_update wh f (executions st))) as Hrows
    by (apply sql_update_rows_step; eauto).
  split; simpl; try done; [by eauto|].
  intros []. split; simpl.
  - rewrite (rows_step_map _ _ _ rs_id Hrows). done.
  - rewrite (rows_step_map attempt_key _ _) by
      (done || (intros ?? []; unfold attempt_key; congruence)). done.
  - rewrite Forall_forall in wf_audited0 |- *. intros r' Hr'.
    apply elem_of_sql_update in Hr' as (r & Hr & ->).
    pose proof (events_of_updates wh f _ r Hid wf_id0 Hr) as Hev.
    destruct (wh r) eqn:E.
    + eapply update_audit_spec; eauto.
    + unfold row_audited. rewrite events_of_app, Hev, app_nil_r. apply wf_audited0, Hr.
  - rewrite Forall_forall in wf_retired0 |- *. intros r' Hr'.
    apply elem_of_sql_update in Hr' as (r & Hr & ->). specialize (wf_retired0 r Hr).
    destruct (wh r) eqn:E; [|done]. by apply (row_step_retired _ _ (Hs r E)).
  - done.
Qed.

Lemma evolves_update (wh : Store → task_execution → bool) f :
  (∀ st r, wh st r = true → row_step r (f r)) → (∀ r, te_id (f r) = te_id r) →
  Evolves (λ st, update_executions (wh st) f st).
Proof. intros Hs Hid st. apply evolve_update; eauto. Qed.

Lemma evolves_update_const wh f :
  (∀ r, wh r = true → row_step r (f r)) → (∀ r, te_id (f r) = te_id r) →
  Evolves (update_executions wh f).
Proof. intros H1 H2 st. by apply evolve_update. Qed.

Lemma evolves_guarded wh f e :
  (∀ st r, wh st r = true → row_step r (f r)) → (∀ r, te_id (f r) = te_id r) →
  Evolves (guarded wh f e).
Proof.
  intros H1 H2. unfold guarded. apply evolves_bind; [by apply evolves_update|].
  intros ?. apply evolves_expect_one.
Qed.

(** A new row. *)
Lemma insert_well_formed r st :
  retired_inactive r → (∀ x, x ∈ executions st → te_id x ≠ te_id r) →
  (∀ x, x ∈ executions st → attempt_key x ≠ attempt_key r) → well_formed st →
  well_formed (with_executions (executions st ++ [r]) [execution_insert_audit r] st).
Proof.
  intros Hret Hne Hka []. split; simpl; [| | | |done].
  - rewrite map_app. apply NoDup_app. split; [done|]. split; [|apply NoDup_singleton].
    intros i Hin ->%list_elem_of_singleton. apply list_elem_of_fmap in Hin as (x & E & Hx).
    by apply (Hne x).
  - rewrite map_app. apply NoDup_app. split; [done|]. split; [|apply NoDup_singleton].
    intros i Hin ->%list_elem_of_singleton. apply list_elem_of_fmap in Hin as (x & E & Hx).
    by apply (Hka x).
  - apply Forall_app. split; [|constructor; [|constructor]].
    + rewrite Forall_forall in wf_audited0 |- *. intros x Hx. unfold row_audited.
      rewrite events_of_app. unfold events_of at 2. simpl.
      assert ((te_id r =?s te_id x) = false) as ->.
      { apply String.eqb_neq. intros E. by apply (Hne x). }
      rewrite app_nil_r. apply wf_audited0, Hx.
    + unfold row_audited. rewrite events_of_app. unfold events_of at 2. simpl.
      rewrite String.eqb_refl. rewrite last_snoc. by eexists.
  - apply Forall_app. split; [done|]. by constructor.
Qed.

#[export] Hint Resolve evolves_ok evolves_fail evolves_query evolves_read evolves_lift
  evolves_fail_if evolves_expect_one evolves_transaction : vastora.
