(* ===== verification/Evolution.v ===== *)
(** * Every operation makes the database evolve

    For each operation of the protocol, the proof that it moves the database
    along [evolve] (Lifecycle.v), and [persistExecutionAuthorization] described
    by the offer it adds.  The operations are then the labels of one transition
    relation, [step], whose reachable states the safety theorems are about. *)
From S2P Require Import Prelude GoText GoTime TaskIds Store Execution Claims Handoff Disposition.
From S2P Require Import Confirmation Workflows Updates Legacy Leases Lifecycle.

(** ** Automation *)

(** [row_step r (f r)] for a row [r] selected by a guard: decide the state of
    the row from the guard, then the fields of the relation one by one. *)
Ltac row_step_case r :=
  let s := fresh "s" in
  destruct r as [????????? s ??????????]; unfold state_in, state_eqb, active, unresolved,
    helper_unresolved, expired_received, evidence_state, state_in, state_eqb in *;
  destruct s; simpl in *; bool_prop; try discriminate;
  repeat match goal with H : (_ || _)%bool = true |- _ => apply orb_prop in H; destruct H end;
  bool_prop; try discriminate; subst;
  split; unfold settled, active, state_in, state_eqb; simpl;
  repeat case_match; subst; simpl; intuition (done || congruence || eauto using helper_rank_received || lia).
Ltac row_step_tac :=
  let r := fresh "r" in
  repeat match goal with |- ∀ _ : Store, _ => intros ? end; intros r ?; row_step_case r.

(** Walk through an operation down to its table updates. *)
Ltac evolves_step :=
  lazymatch goal with
  | |- Evolves (bindM _ _) => apply evolves_bind; [|intros ?]
  | |- Evolves (transaction _) => apply evolves_transaction
  | |- Evolves (λ st, update_executions (@?w st) _ st) => apply evolves_update; [row_step_tac|done]
  | |- Evolves (guarded _ _ _) => apply evolves_guarded; [row_step_tac|done]
  | |- Evolves (update_executions _ _) => apply evolves_update_const; [row_step_tac|done]
  | |- Evolves (λ st, (@?f st, Ok _)) => intros ?; by apply evolve_frame
  | |- Evolves (if ?b then _ else _) => destruct b
  | |- Evolves (match ?x with _ => _ end) => destruct x
  | |- _ => solve [eauto with vastora]
  end.
Ltac evolves := repeat evolves_step.

Section Operations.
Context {L : Libraries}.

Lemma evolves_update_tasks wh f : Evolves (update_tasks wh f).
Proof. intros st. by apply evolve_frame. Qed.

Lemma evolves_run_statement s : Evolves (run_statement s).
Proof. intros st. by apply evolve_frame. Qed.

Lemma evolves_authenticate a c : Evolves (authenticateAgent a c).
Proof. unfold authenticateAgent. evolves. Qed.

Lemma evolves_recordTaskEvent t a k r e m n : Evolves (recordTaskEvent t a k r e m n).
Proof. intros st. by apply evolve_frame. Qed.

#[local] Hint Resolve evolves_update_tasks evolves_run_statement evolves_authenticate
  evolves_recordTaskEvent : vastora.

(** ** Steps of an execution *)
Lemma evolves_stop a s i u e n : Evolves (StopExecution a s i u e n).
Proof. unfold StopExecution. evolves. Qed.

Lemma evolves_start a s i d n t n' : Evolves (StartExecution a s i d n t n').
Proof.
  unfold StartExecution. evolves.
  intros st. apply (evolves_stop a s i true tunnel_message n' st).
Qed.

Lemma evolves_check a s i p n : Evolves (CheckExecutionStep a s i p n).
Proof. unfold CheckExecutionStep. evolves. Qed.

Lemma evolves_renew a s i n : Evolves (RenewExecution a s i n).
Proof. unfold RenewExecution. evolves. Qed.

Lemma evolves_store a s i x b u e g h n : Evolves (StoreExecutionResult a s i x b u e g h n).
Proof. unfold StoreExecutionResult. cbv zeta. evolves. Qed.

Lemma evolves_finalize a s i d n : Evolves (finalizeExecution a s i d n).
Proof. unfold finalizeExecution. cbv zeta. evolves. Qed.

(** ** Sessions *)

(** The rows are closed before the session is replaced, so the two changes are
    described together. *)
Lemma evolve_register a s st st1 :
  evolve st st1 → sessions st1 = sessions st → (a, s) ∉ session_history st →
  (a, s) ∈ session_history st1 → evolve st (with_sessions (<[a := s]> (sessions st1)) st1).
Proof.
  intros [Hr Hh Hse He Hw] Hs Hnew Hin. split; simpl; auto.
  - intros a' s' Hah Hne. rewrite Hs. destruct (decide (a' = a)) as [->|Hna].
    + rewrite lookup_insert_eq. intros E. injection E as <-. done.
    + by rewrite lookup_insert_ne.
  - intros Hwf. destruct (Hw Hwf). split; simpl; auto.
    intros a' s'. destruct (decide (a' = a)) as [->|Hna].
    + rewrite lookup_insert_eq. intros E. by injection E as <-.
    + rewrite lookup_insert_ne by done. auto.
Qed.

Lemma evolve_history h st :
  session_history st ⊆ h → evolve st (with_history h st).
Proof.
  intros Hh. split; simpl; auto; try done.
  - exists []. by rewrite app_nil_r.
  - intros []. split; simpl; auto.
Qed.

Lemma evolves_register a c s p n : Evolves (RegisterExecutionSession a c s p n).
Proof.
  unfold RegisterExecutionSession. case_match; [evolves|]. apply evolves_transaction.
  apply evolves_bind; [evolves|intros []]. intros st. unfold bindM at 1. cbn [query].
  case_match; [reflexivity|]. unfold bindM at 1. cbn [query].
  unfold fail_if. case_bool_decide as Hseen; [reflexivity|].
  unfold bindM, ok. cbn [fst snd].
  match goal with |- evolve _ (fst (let (_, _) := update_executions ?w ?f ?s in _)) =>
    set (st1 := s); pose proof (evolve_update w f st1) as Hup end.
  apply (evolve_register a s st); [|done|done|simpl; set_solver].
  etrans; [apply (evolve_history ({[(a, s)]} ∪ session_history st)); set_solver|].
  apply Hup; [row_step_tac|done].
Qed.

Lemma evolves_retire a n : n ≠ "" → Evolves (retireAgentExecutionIdentity a n).
Proof.
  intros Hn. unfold retireAgentExecutionIdentity. cbv zeta. apply evolves_bind; [|intros ?; evolves].
  intros st. split; simpl; try done.
  - intros a' s' _ Hne. rewrite lookup_delete_Some. tauto.
  - exists []. by rewrite app_nil_r.
  - intros []. split; simpl; auto. intros a' s'. rewrite lookup_delete_Some. intros [_ H]. auto.
Qed.

(** ** Claims *)
Lemma evolves_dispose_candidates now l d : Evolves (dispose_candidates now l d).
Proof.
  revert d. induction l as [|c l IH]; intros d; simpl; [evolves|].
  case_match; [apply IH|]. apply evolves_bind; [evolves|intros n].
  apply evolves_bind; [evolves|intros _]. apply IH.
Qed.
#[local] Hint Resolve evolves_dispose_candidates : vastora.

Lemma evolves_dispose_superseded a n : Evolves (disposeSupersededLandingExecutionFailures a n).
Proof. unfold disposeSupersededLandingExecutionFailures. evolves. Qed.
#[local] Hint Resolve evolves_dispose_superseded : vastora.

Lemma evolves_recover_superseded n : Evolves (recoverSupersededLandingExecutionFailures n).
Proof. unfold recoverSupersededLandingExecutionFailures. evolves. Qed.

Lemma evolves_claim_allowed {C : ControlCodec} a s rd n : Evolves (executionClaimAllowed a s rd n).
Proof.
  unfold executionClaimAllowed, reinstall_claim, expire_executions, claim_fenced. cbv zeta. evolves.
Qed.

Lemma evolves_release {C : ControlCodec} n : Evolves (releaseMigrationExecutionPause n).
Proof.
  unfold releaseMigrationExecutionPause. cbv zeta. evolves. intros st. case_bool_decide; [|reflexivity].
  by apply evolve_frame.
Qed.

Lemma evolves_set_control {C : ControlCodec} a p n : Evolves (SetExecutionClaimControl a p n).
Proof. unfold SetExecutionClaimControl. evolves. Qed.

(** ** Helpers *)
Lemma evolves_begin_update a c t k e s n : Evolves (beginAgentUpdateExecution a c t k e s n).
Proof. unfold beginAgentUpdateExecution. evolves. Qed.

Lemma evolves_helper_step a s e p n : Evolves (CheckUpdateHelperStep a s e p n).
Proof.
  unfold CheckUpdateHelperStep. destruct (helper_previous p) as [q|] eqn:Hq; [|evolves].
  assert (q ≠ "result_received") by (unfold helper_previous in Hq; repeat case_match; by simplify_eq).
  pose proof (helper_previous_rank p q Hq).
  evolves.
Qed.

Lemma evolves_begin_decommission a c t k e s n : Evolves (beginAgentDecommission a c t k e s n).
Proof. unfold beginAgentDecommission. evolves. Qed.

Lemma evolves_bind_row {A} wh (k : option task_execution → M A) :
  (∀ o, (∀ r, o = Some r → wh r = true) → Evolves (k o)) →
  Evolves (bindM (query (λ st, sql_row wh (executions st))) k).
Proof.
  intros Hk st. unfold bindM, query. apply Hk. intros r Hr. by apply sql_row_spec in Hr as [_ ?].
Qed.

Lemma cleanup_not_received x : like "result_received" ("cleanup:" +:+ x) = false.
Proof. reflexivity. Qed.

Lemma cleanup_follows_not_received q p : cleanup_follows q p = true → p ≠ "result_received".
Proof.
  unfold cleanup_follows. intros H ->. rewrite cleanup_not_received, orb_false_r in H.
  case_match; discriminate H.
Qed.

Lemma evolves_decommission_callback t k n e x m :
  Evolves (completeAgentDecommissionCallback t k n e x m).
Proof.
  unfold completeAgentDecommissionCallback. cbv zeta.
  apply evolves_bind; [evolves|intros _]. apply evolves_transaction.
  apply evolves_bind; [evolves|intros [d|]]; [|evolves].
  apply evolves_bind; [evolves|intros _].
  apply evolves_bind_row. intros [r|] Hr; [|evolves]. specialize (Hr r eq_refl).
  assert (te_phase r ≠ "result_received").
  { bool_prop. intros E. rewrite E in *.
    match goal with H : (_ || _)%bool = true |- _ => by vm_compute in H end. }
  evolves.
Qed.

Lemma evolves_decommission_step t k n q p m : Evolves (AuthorizeDecommissionStep t k n q p m).
Proof.
  unfold AuthorizeDecommissionStep.
  apply evolves_bind; [evolves|intros _]. apply evolves_bind; [evolves|intros _].
  apply evolves_transaction. apply evolves_bind; [evolves|intros [d|]]; [|evolves].
  apply evolves_bind; [evolves|intros _]. apply evolves_bind; [|intros ?; evolves].
  apply evolves_update_const; [|done]. intros r Hr.
  assert (te_phase r ≠ "result_received") by (bool_prop; eauto using cleanup_follows_not_received).
  row_step_case r.
Qed.

Lemma evolves_begin_tailscale a c t e s k n : Evolves (beginTailscaleUpdate a c t e s k n).
Proof. unfold beginTailscaleUpdate. evolves. Qed.

(** ** Decisions and projections *)
Lemma evolves_record_disposition i a n d s : Evolves (record_disposition i a n d s).
Proof. unfold record_disposition. evolves. Qed.

Lemma evolves_followup k a t n : Evolves (disposition_followup k a t n).
Proof. unfold disposition_followup. evolves. Qed.
#[local] Hint Resolve evolves_record_disposition evolves_followup : vastora.

Lemma evolves_dispose i a d b n : Evolves (disposeTaskExecution i a d b n).
Proof. unfold disposeTaskExecution. cbv zeta. evolves. Qed.
#[local] Hint Resolve evolves_dispose : vastora.

Lemma evolves_reexecute i a d b n : Evolves (ReexecuteExecution i a d b n).
Proof. unfold ReexecuteExecution. evolves. Qed.

Lemma evolves_abandon i a d b n : Evolves (AbandonExecution i a d b n).
Proof. unfold AbandonExecution. evolves. Qed.

Lemma evolves_dispose_helper i a d s n : Evolves (DisposeHelperExecution i a d s n).
Proof. unfold DisposeHelperExecution. cbv zeta. evolves. Qed.

(** A projection changes business tables only. *)
Definition business_op (m : M unit) : Prop :=
  ∀ st, executions (fst (m st)) = executions st ∧
    execution_events (fst (m st)) = execution_events st ∧
    sessions (fst (m st)) = sessions st ∧ session_history (fst (m st)) = session_history st.

Lemma evolves_business m : business_op m → Evolves m.
Proof. intros H st. destruct (H st) as (?&?&?&?). by apply evolve_frame. Qed.

Definition projection := AgentTask → executionResultEvidence → M unit.
Definition business_only (project : projection) : Prop := ∀ t e, business_op (project t e).

Section Projection.
Context (project : projection) (Hproject : business_only project).

Lemma evolves_project t e : Evolves (project t e).
Proof. by apply evolves_business. Qed.
#[local] Hint Resolve evolves_project : vastora.

Lemma evolves_project_retained i re n : Evolves (projectRetainedExecutionResult i re project n).
Proof. unfold projectRetainedExecutionResult, retained_commit. cbv zeta. evolves. Qed.
#[local] Hint Resolve evolves_project_retained : vastora.

Lemma evolves_confirm i a d n : Evolves (ConfirmExecution i a d project n).
Proof. unfold ConfirmExecution. evolves. Qed.

Lemma evolve_project_each ids n st : evolve st (project_each ids project n st).
Proof.
  revert st. induction ids as [|i ids IH]; intros st; simpl; [reflexivity|].
  etrans; [apply evolves_project_retained|apply IH].
Qed.

Lemma evolves_recover_received a n : Evolves (recoverReceivedExecutionResults a project n).
Proof. intros st. apply evolve_project_each. Qed.

Lemma evolves_recover_expired n : Evolves (recoverExpiredReceivedExecutionResults project n).
Proof.
  unfold recoverExpiredReceivedExecutionResults. evolves. intros st. apply evolve_project_each.
Qed.

End Projection.

(** ** Other workflows *)
#[local] Hint Resolve evolves_business evolves_finalize evolves_store : vastora.

Lemma evolves_update_side wh f : Evolves (update_side wh f).
Proof. intros st. by apply evolve_frame. Qed.
Lemma evolves_update_applications wh f : Evolves (update_applications wh f).
Proof. intros st. by apply evolve_frame. Qed.
Lemma evolves_update_tasks_at wh f : Evolves (λ st, update_tasks (wh st) f st).
Proof. intros st. by apply evolve_frame. Qed.
Lemma evolves_update_applications_at wh f : Evolves (λ st, update_applications (wh st) f st).
Proof. intros st. by apply evolve_frame. Qed.
Lemma evolves_update_side_at wh f : Evolves (λ st, update_side (wh st) f st).
Proof. intros st. by apply evolve_frame. Qed.
#[local] Hint Resolve evolves_update_side evolves_update_applications evolves_update_tasks_at
  evolves_update_applications_at evolves_update_side_at : vastora.

Lemma evolves_commit a s i b d n : Evolves (commit_projection a s i b d n).
Proof. unfold commit_projection. evolves. Qed.
#[local] Hint Resolve evolves_commit : vastora.

Lemma evolves_complete a t v project follow_up n d f :
  business_op project → business_op follow_up → Evolves (CompleteTask a t v project follow_up n d f).
Proof. intros H Hf. unfold CompleteTask. cbv zeta. evolves. Qed.

Lemma evolves_complete_tailscale commit a i k b e u n :
  Evolves commit → Evolves (completeTailscaleUpdate commit a i k b e u n).
Proof. intros H. unfold completeTailscaleUpdate. cbv zeta. evolves. Qed.

Lemma evolves_reconcile_tailscale a o n d f : Evolves (reconcileTailscaleUpdate a o n d f).
Proof. unfold reconcileTailscaleUpdate. cbv zeta. evolves. Qed.

Lemma evolves_acknowledge_tailscale a t d c n m : Evolves (acknowledgeTailscaleUpdate a t d c n m).
Proof. unfold acknowledgeTailscaleUpdate. cbv zeta. evolves. Qed.

Lemma evolves_backup a s i e dg v d q n : Evolves (RecordOSReinstallBackup a s i e dg v d q n).
Proof. unfold RecordOSReinstallBackup, reinstall_execution. cbv zeta. evolves. Qed.

Lemma evolves_arm a s i b p dg v n : Evolves (ArmOSReinstall a s i b p dg v n).
Proof. unfold ArmOSReinstall, reinstall_execution. evolves. Qed.

Lemma evolves_complete_reinstall a c s i t v n : Evolves (CompleteOSReinstall a c s i t v n).
Proof.
  unfold CompleteOSReinstall. evolves. intros st. pose proof (evolves_authenticate a c st).
  by destruct (authenticateAgent a c st) as [? []].
Qed.

Lemma evolves_xray commit a i k b e r n :
  Evolves commit → Evolves (completeXrayConfigurationRecovery commit a i k b e r n).
Proof.
  intros H. unfold completeXrayConfigurationRecovery, release_recovered, recovery_releases. cbv zeta.
  evolves.
Qed.

Lemma evolves_update_recovery a r i n : Evolves (authorizeAgentUpdateRecovery a r i n).
Proof.
  unfold authorizeAgentUpdateRecovery. evolves. intros st. unfold record_update_recovery.
  case_match; [reflexivity|by apply evolve_frame].
Qed.

Lemma evolves_insert_update row : Evolves (insert_update row).
Proof.
  intros st. unfold insert_update. destruct (_ || _); [reflexivity|by apply evolve_frame].
Qed.

Lemma evolves_queue_tx a t m k n : Evolves (queueAgentUpdateTx a t m k n).
Proof.
  unfold queueAgentUpdateTx. cbv zeta. apply evolves_bind; [apply evolves_insert_update|intros _]. evolves.
Qed.

Lemma evolves_queue_update {C : ControlCodec} s a t r k x n : Evolves (queueAgentUpdate s a t r k x n).
Proof.
  unfold queueAgentUpdate, supersede_update, queue_first, refuse_paused. cbv zeta. evolves.
  all: first [apply evolves_queue_tx | apply evolves_update_recovery].
Qed.

Lemma evolves_pause_related a n : Evolves (pauseReinstallRelatedCommands a n).
Proof. unfold pauseReinstallRelatedCommands. evolves. Qed.

Lemma evolves_settle a d l n : Evolves (settle_executions a d l n).
Proof.
  induction l as [|[i t] l IH]; simpl; [evolves|]. unfold settle_execution. evolves. 
Qed.

Lemma evolves_meridian n d c k m : Evolves (release_meridian_execution n d c k m).
Proof. unfold release_meridian_execution. evolves. Qed.

(** ** Leases *)
Lemma evolves_release_claimed a t n : Evolves (releaseClaimedTask a t n).
Proof. unfold releaseClaimedTask, release_mirror. cbv zeta. evolves. Qed.

Lemma evolves_renew_lease a c t k n : Evolves (RenewTaskLease a c t k n).
Proof. unfold RenewTaskLease. evolves. Qed.

Lemma evolves_interrupt_executions a n l : Evolves (interrupt_executions a n l).
Proof. induction l as [|t l IH]; simpl; evolves. Qed.
#[local] Hint Resolve evolves_interrupt_executions : vastora.

Lemma evolves_recover_tasks a m n : business_op m → Evolves (recoverExpiredTasks a m n).
Proof.
  intros H. unfold recoverExpiredTasks, interrupt, block_resources, flag_sites, flag_applications.
  cbv zeta. evolves.
Qed.

Lemma evolves_abandon_receipt {RC : ReceiptCodec} i a d n : Evolves (AbandonLegacyReceipt i a d n).
Proof. unfold AbandonLegacyReceipt. cbv zeta. evolves. Qed.

End Operations.

(** The operations, for the transition system. *)
Create HintDb evolution discriminated.
#[global] Hint Constants Opaque : evolution.
#[export] Hint Resolve evolves_stop evolves_start evolves_check evolves_renew evolves_store
  evolves_register evolves_retire evolves_recover_superseded evolves_claim_allowed evolves_release
  evolves_set_control evolves_begin_update evolves_helper_step evolves_begin_decommission
  evolves_decommission_callback evolves_decommission_step evolves_begin_tailscale
  evolves_reexecute evolves_abandon evolves_dispose_helper evolves_confirm
  evolves_recover_received evolves_recover_expired evolves_commit evolves_complete
  evolves_complete_tailscale evolves_reconcile_tailscale evolves_acknowledge_tailscale
  evolves_backup evolves_arm evolves_complete_reinstall evolves_xray evolves_update_recovery
  evolves_pause_related evolves_settle evolves_meridian evolves_release_claimed
  evolves_recover_tasks evolves_abandon_receipt evolves_queue_update evolves_transaction : evolution.
