(* ===== verification/Protocol.v ===== *)
(** * The protocol as a transition system

    One constructor of [step] per operation that writes executions or sessions,
    and one for everything else that happens to the database.  The invariant
    [inv] of the reachable states is proved by rule induction. *)
From S2P Require Import Prelude GoText GoTime TaskIds Store Execution Claims Handoff Disposition.
From S2P Require Import Confirmation Workflows Updates Legacy Leases Hoare Lifecycle Evolution.

(** The kinds an explicit configuration recovery uses, which no fence stops. *)
Definition recovery_kind (kind : string) : bool :=
  (kind =?s "xray.configuration.inspect") || (kind =?s "xray.configuration.apply").

(** ** Insertions *)

(** A row inserted without giving its Agent a second live permission. *)
Record admitted (st : Store) (r : task_execution) : Prop := mk_admitted {
  ad_id : ∀ x, x ∈ executions st → te_id x ≠ te_id r;
  ad_attempt : ∀ x, x ∈ executions st → attempt_key x ≠ attempt_key r;
  ad_retired : te_identity_retired_at r = "";
  ad_fence : live r = true → recovery_kind (te_kind r) = false →
    ∀ x, x ∈ executions st → te_agent_id x = te_agent_id r → live x = false
}.

Definition inserted (st : Store) (r : task_execution) : Store :=
  with_executions (executions st ++ [r]) [execution_insert_audit r] st.

Lemma insert_execution_ok r st st' u :
  insert_execution r st = (st', Ok u) →
  st' = inserted st r ∧ (∀ x, x ∈ executions st → te_id x ≠ te_id r) ∧
  (∀ x, x ∈ executions st → attempt_key x ≠ attempt_key r).
Proof.
  unfold insert_execution. destruct (_ || _) eqn:E; [discriminate|]. intros H. simplify_eq.
  apply orb_false_elim in E as [E1 E2]. rewrite sql_exists_false in E1, E2.
  split; [done|]. split.
  - intros x Hx. by apply String.eqb_neq, E1.
  - intros x Hx He. specialize (E2 x Hx). injection He as Et Ea.
    rewrite Et, Ea, String.eqb_refl, Z.eqb_refl in E2. done.
Qed.

Lemma insert_execution_err r st st' e : insert_execution r st = (st', Err e) → st' = st.
Proof. unfold insert_execution. destruct (_ || _); intros H; by simplify_eq. Qed.

Section Claimed.
Context {L : Libraries} {C : ControlCodec}.

Lemma reads_authenticate a c : reads (authenticateAgent a c).
Proof.
  unfold authenticateAgent. apply reads_bind; [auto with vastora|]. intros []; auto with vastora.
Qed.

Lemma agent_unresolved_live a st x :
  x ∈ executions st → te_agent_id x = a → live x = true → In x (agent_unresolved a st).
Proof.
  intros Hx Ha Hl. unfold agent_unresolved, sql_select. apply filter_In. split.
  - by apply list_elem_of_In.
  - unfold unresolved, live in *. bool_prop. rewrite Ha, H0, !String.eqb_refl.
    unfold active, state_in in H. by destruct (te_state x).
Qed.

(** Both fences stop every live permission. *)
Lemma fence_clear a st (wh : task_execution → bool) :
  (∀ x, live x = true → wh x = true) → existsb wh (agent_unresolved a st) = false →
  ∀ x, x ∈ executions st → te_agent_id x = a → live x = false.
Proof.
  intros Hwh Eb x Hx Ha. destruct (live x) eqn:Hl; [|done]. exfalso.
  apply not_true_iff_false in Eb. apply Eb. apply existsb_exists. exists x.
  split; [by apply agent_unresolved_live|auto].
Qed.

Lemma kind_fence_wp a task rd st :
  wp (kind_fence a task rd) st (λ st' _, st' = st ∧
    (recovery_kind (at_kind task) = false →
     ∀ x, x ∈ executions st → te_agent_id x = a → live x = false)).
Proof.
  unfold kind_fence, recovery_kind. repeat wp_step.
  - split; [done|]. intros _. refine (fence_clear a st (blocks_update st a0) _ H1).
    intros x [Hl _]%andb_prop. unfold blocks_update. by rewrite Hl.
  - split; [done|]. intros _. refine (fence_clear a st (blocks_work st a0) _ H0).
    intros x [Hl _]%andb_prop. unfold blocks_work. by rewrite Hl, andb_false_r.
  - split; [done|]. rewrite <- negb_orb in *. bool_prop.
    match goal with H : _ = true |- _ => by rewrite H end.
Qed.

Lemma reads_kind_fence a task rd : reads (kind_fence a task rd).
Proof.
  unfold kind_fence. repeat case_match; repeat (apply reads_bind; [auto with vastora|intros ?]);
  auto with vastora.
Qed.

(** [persistExecutionAuthorization] either changes nothing or inserts one offer
    for the current session, when claims are not paused and the fence is clear. *)
Record offer (a s id : string) (task : AgentTask) (now : Z) (st : Store) : Prop := mk_offer {
  of_admitted : admitted st (offered_execution a s id task now);
  of_session : session_current st a s = true;
  of_not_paused : executionClaimsPaused st = false;
  of_attempt : 0 < at_attempt task;
  of_task : at_id task ≠ ""
}.

Lemma persist_wp a s id task rd now st :
  wp (persistExecutionAuthorization a s id task rd now) st (λ st' auth,
    st' = inserted st (offered_execution a s id task now) ∧ offer a s id task now st ∧
    auth = mk_authorization id ExecutionProtocol (sha256_hex (task_json task))).
Proof.
  unfold persistExecutionAuthorization. repeat wp_step. apply wp_bind.
  eapply wp_mono; [apply kind_fence_wp|]. intros st1 [] [-> Hf]. repeat wp_step.
  apply wp_bind. intros st1 [] (-> & Hid & Hat)%insert_execution_ok. apply wp_ok.
  split; [done|]. split; [|done]. bool_prop. split; [split; auto|done|done|lia|done].
Qed.

Lemma persist_unchanged a s id task rd now st :
  unchanged (persistExecutionAuthorization a s id task rd now) st.
Proof.
  unfold persistExecutionAuthorization.
  do 7 (apply unchanged_bind; [solve [auto using reads_kind_fence with vastora]|intros ?]).
  apply unchanged_bind; [auto with vastora|intros []]; [|unchanged_step].
  intros st' e E. unfold bindM in E.
  destruct (insert_execution _ st) as [st1 [|]] eqn:Ei; simplify_eq.
  by eapply insert_execution_err.
Qed.

Lemma import_wp {RC : ReceiptCodec} a c input now st :
  wp (ImportLegacyReceipt a c input now) st (λ st' _, st' = st ∨
    ∃ r, st' = inserted st r ∧ admitted st r ∧ te_kind r = "legacy.receipt" ∧ active r = false).
Proof.
  unfold ImportLegacyReceipt. apply wp_bind.
  eapply wp_mono; [apply wp_reads, reads_authenticate|]. intros ? [] ->. cbv zeta.
  destruct (EncodeLegacyReceipt (li_receipt input)) as [[raw digest]|]; [|wp_step].
  repeat wp_step; [by left|]. apply wp_bind.
  intros st1 [] (-> & Hid & Hat)%insert_execution_ok. apply wp_ok. right. eexists.
  split; [done|]. unfold archive_row in *. simpl in *. split; [split; auto|].
  - unfold live, active. simpl. by case_match.
  - split; [done|]. unfold active. simpl. by case_match.
Qed.

Lemma import_unchanged {RC : ReceiptCodec} a c input now st :
  unchanged (ImportLegacyReceipt a c input now) st.
Proof.
  unfold ImportLegacyReceipt. apply unchanged_bind; [apply reads_authenticate|intros _].
  cbv zeta. repeat unchanged_step.
Qed.

End Claimed.

(** ** The transition system *)
Section Steps.
Context {L : Libraries} {C : ControlCodec} {RC : ReceiptCodec}.

(** The operations that update executions or sessions. *)
Inductive operation : M unit → Prop :=
| op_register a c s p n : operation (RegisterExecutionSession a c s p n)
| op_retire a n : operation (retireAgentExecutionIdentity a (rfc3339nano n))
| op_stop a s i u e n : operation (StopExecution a s i u e n)
| op_start a s i d n t n' : operation (StartExecution a s i d n t n')
| op_check a s i p n : operation (CheckExecutionStep a s i p n)
| op_renew a s i n : operation (RenewExecution a s i n)
| op_store a s i x b u e g h n : operation (StoreExecutionResult a s i x b u e g h n)
| op_complete a t v project follow_up n d f :
    business_op project → business_op follow_up → operation (CompleteTask a t v project follow_up n d f)
| op_claim a s rd n : operation (executionClaimAllowed a s rd n)
| op_superseded n : operation (recoverSupersededLandingExecutionFailures n)
| op_release_pause n : operation (releaseMigrationExecutionPause n)
| op_set_control a p n : operation (SetExecutionClaimControl a p n)
| op_begin_update a c t k e s n : operation (beginAgentUpdateExecution a c t k e s n)
| op_helper_step a s e p n : operation (CheckUpdateHelperStep a s e p n)
| op_begin_decommission a c t k e s n : operation (beginAgentDecommission a c t k e s n)
| op_decommission_step t k n q p m : operation (AuthorizeDecommissionStep t k n q p m)
| op_decommission_callback t k n e x m : operation (completeAgentDecommissionCallback t k n e x m)
| op_begin_tailscale a c t e s k n : operation (beginTailscaleUpdate a c t e s k n)
| op_complete_tailscale a i k b e u n s x d f :
    operation (completeTailscaleUpdate (commit_projection a s x b d f) a i k b e u n)
| op_reconcile_tailscale a o n d f : operation (transaction (reconcileTailscaleUpdate a o n d f))
| op_acknowledge_tailscale a t d c n m : operation (acknowledgeTailscaleUpdate a t d c n m)
| op_reexecute i a d b n : operation (ReexecuteExecution i a d b n)
| op_abandon i a d b n : operation (AbandonExecution i a d b n)
| op_dispose_helper i a d s n : operation (DisposeHelperExecution i a d s n)
| op_confirm i a d project n : business_only project → operation (ConfirmExecution i a d project n)
| op_recover_received a project n :
    business_only project → operation (recoverReceivedExecutionResults a project n)
| op_recover_expired project n :
    business_only project → operation (recoverExpiredReceivedExecutionResults project n)
| op_abandon_receipt i a d n : operation (AbandonLegacyReceipt i a d n)
| op_backup a s i e dg v d q n : operation (RecordOSReinstallBackup a s i e dg v d q n)
| op_arm a s i b p dg v n : operation (ArmOSReinstall a s i b p dg v n)
| op_complete_reinstall a c s i t v n : operation (CompleteOSReinstall a c s i t v n)
| op_xray a i k b e r n s x d f :
    operation (completeXrayConfigurationRecovery (commit_projection a s x b d f) a i k b e r n)
| op_update_recovery a r i n : operation (transaction (authorizeAgentUpdateRecovery a r i n))
| op_queue_update s a t r k x n : operation (queueAgentUpdate s a t r k x n ;;; ok tt)
| op_pause_related a n : operation (pauseReinstallRelatedCommands a (rfc3339nano n))
| op_settle a d l n : operation (transaction (settle_executions a d l (rfc3339nano n)))
| op_meridian n d c k m : operation (transaction (release_meridian_execution n d c k m))
| op_release_task a t n : operation (releaseClaimedTask a t n)
| op_recover_tasks a mirror n : business_op mirror → operation (recoverExpiredTasks a mirror n).

(** A step of the Center: an operation of the protocol, the creation of an execution, the
    import of a receipt, or anything that leaves the executions, their events and the
    sessions alone.  The deletion of a node, which deletes its executions and events with
    it, is not a step: [Audit.life] adds it, and [Audit.deleted_inv] shows that the
    invariant survives. *)
Inductive step : Store → Store → Prop :=
| step_operation m st : operation m → step st (fst (m st))
| step_persist a s id task rd n st :
    step st (fst (persistExecutionAuthorization a s id task rd n st))
| step_import a c input n st : step st (fst (ImportLegacyReceipt a c input n st))
| step_environment st st' :
    executions st' = executions st → execution_events st' = execution_events st →
    sessions st' = sessions st → session_history st' = session_history st → step st st'.

Lemma operation_evolves m : operation m → Evolves m.
Proof.
  destruct 1; eauto using rfc3339nano_nonempty with evolution.
  apply evolves_bind; [apply evolves_queue_update|intros _; apply evolves_ok].
Qed.

(** ** What a step preserves *)

(** At most one live permission per Agent, configuration recoveries apart. *)
Definition exclusive (st : Store) : Prop :=
  ∀ r1 r2, r1 ∈ executions st → r2 ∈ executions st → te_agent_id r1 = te_agent_id r2 →
    live r1 = true → live r2 = true →
    recovery_kind (te_kind r1) = false → recovery_kind (te_kind r2) = false → r1 = r2.

Record inv (st : Store) : Prop := mk_inv {
  inv_well_formed : well_formed st;
  inv_exclusive : exclusive st
}.

(** [later st st']: [st'] is a possible future of [st]. *)
Record later (st st' : Store) : Prop := mk_later {
  lt_rows : ∃ old new, executions st' = old ++ new ∧ rows_step (executions st) old;
  lt_history : session_history st ⊆ session_history st';
  lt_sessions : ∀ a s, (a, s) ∈ session_history st → sessions st !! a ≠ Some s →
    sessions st' !! a ≠ Some s;
  lt_events : ∃ extra, execution_events st' = execution_events st ++ extra
}.

Lemma evolve_later st st' : evolve st st' → later st st'.
Proof.
  intros []. split; auto. exists (executions st'), []. by rewrite app_nil_r.
Qed.

#[export] Instance later_refl : Reflexive later.
Proof. intros st. apply evolve_later. reflexivity. Qed.

#[export] Instance later_trans : Transitive later.
Proof.
  intros a b c [(o1 & n1 & E1 & H1) Hh1 Hs1 [x1 Ex1]] [(o2 & n2 & E2 & H2) Hh2 Hs2 [x2 Ex2]].
  split; [|set_solver|auto|exists (x1 ++ x2); by rewrite Ex2, Ex1, app_assoc].
  rewrite E1 in H2. apply Forall2_app_inv_l in H2 as (o2a & o2b & Ha & Hb & ->).
  exists o2a, (o2b ++ n2). split; [by rewrite E2, app_assoc|by etrans].
Qed.

Lemma rows_step_origin l l' r' : rows_step l l' → r' ∈ l' → ∃ r, r ∈ l ∧ row_step r r'.
Proof.
  intros H Hr. apply list_elem_of_lookup in Hr as [i Hi].
  destruct (Forall2_lookup_r _ _ _ _ _ H Hi) as (r & Hi' & Hs).
  exists r. split; [eapply list_elem_of_lookup_2; eauto|done].
Qed.

Lemma evolve_inv st st' : evolve st st' → inv st → inv st'.
Proof.
  intros Hev [Hwf Hex]. pose proof (ev_well_formed _ _ Hev Hwf) as Hwf'. split; [done|].
  intros r1' r2' H1 H2 Ha L1 L2 K1 K2. pose proof (ev_rows _ _ Hev) as Hrows.
  destruct (rows_step_origin _ _ _ Hrows H1) as (r1 & Hr1 & S1).
  destruct (rows_step_origin _ _ _ Hrows H2) as (r2 & Hr2 & S2).
  assert (r1 = r2) as ->.
  { pose proof S1 as []. pose proof S2 as [].
    apply Hex; try congruence; eauto using row_step_live. }
  eapply (nodup_key_eq te_id); [apply (wf_id _ Hwf')|done|done|].
  by rewrite (rs_id _ _ S1), (rs_id _ _ S2).
Qed.

Lemma insert_later st r : later st (inserted st r).
Proof.
  split; simpl; [by exists (executions st), [r]|done|done|by eauto].
Qed.

Lemma insert_inv st r : admitted st r → inv st → inv (inserted st r).
Proof.
  intros [Hid Hat Hret Hf] [Hwf Hex]. split.
  { apply insert_well_formed; [|done..]. intros Hn. congruence. }
  intros r1 r2. simpl. rewrite !elem_of_app, !list_elem_of_singleton.
  intros [H1| ->] [H2| ->] Ha L1 L2 K1 K2; [by apply Hex| | |done]; exfalso.
  - rewrite (Hf L2 K2 r1 H1 Ha) in L1. done.
  - rewrite (Hf L1 K1 r2 H2 (eq_sym Ha)) in L2. done.
Qed.

Lemma step_preserves st st' : step st st' → later st st' ∧ (inv st → inv st').
Proof.
  destruct 1 as [m st Hop|a s id task rd n st|a c input n st|st st' H1 H2 H3 H4].
  - pose proof (operation_evolves m Hop st) as Hev.
    split; [by apply evolve_later|by apply evolve_inv].
  - pose proof (persist_wp a s id task rd n st) as Hok.
    pose proof (persist_unchanged a s id task rd n st) as Herr.
    destruct (persistExecutionAuthorization a s id task rd n st) as [st' [x|e]] eqn:E; simpl.
    + destruct (Hok _ _ E) as (-> & [Had _ _ _] & _).
      split; [apply insert_later|by apply insert_inv].
    + by rewrite (Herr _ _ E).
  - pose proof (import_wp a c input n st) as Hok. pose proof (import_unchanged a c input n st) as Herr.
    destruct (ImportLegacyReceipt a c input n st) as [st' [x|e]] eqn:E; simpl.
    + destruct (Hok _ _ E) as [->|(r & -> & Had & _)]; [done|].
      split; [apply insert_later|by apply insert_inv].
    + by rewrite (Herr _ _ E).
  - pose proof (evolve_frame st st' H1 H2 H3 H4) as Hev.
    split; [by apply evolve_later|by apply evolve_inv].
Qed.

Lemma steps_preserve st st' : rtc step st st' → later st st' ∧ (inv st → inv st').
Proof.
  induction 1 as [st|st1 st2 st3 H12 H23 [IHl IHi]]; [done|].
  apply step_preserves in H12 as [Hl Hi]. split; [by etrans|auto].
Qed.

(** ** Reachable databases *)
Definition initial (st : Store) : Prop :=
  executions st = [] ∧ execution_events st = [] ∧ sessions st = ∅ ∧ session_history st = ∅.

Definition reachable (st : Store) : Prop := ∃ st0, initial st0 ∧ rtc step st0 st.

Lemma initial_inv st : initial st → inv st.
Proof.
  intros (H1 & H2 & H3 & H4). split; [split|].
  - rewrite H1. constructor.
  - rewrite H1. constructor.
  - rewrite H1. constructor.
  - rewrite H1. constructor.
  - intros a s. rewrite H3. by rewrite lookup_empty.
  - intros r1 r2. rewrite H1. by intros ?%not_elem_of_nil.
Qed.

Lemma reachable_inv st : reachable st → inv st.
Proof. intros (st0 & Hi & Hs). apply (steps_preserve _ _ Hs), initial_inv, Hi. Qed.

Lemma reachable_steps st st' : reachable st → rtc step st st' → reachable st'.
Proof. intros (st0 & Hi & Hs) H. exists st0. split; [done|by etrans]. Qed.

(** The row of an execution in a future database. *)
Lemma later_row st st' r : later st st' → r ∈ executions st → ∃ r', r' ∈ executions st' ∧ row_step r r'.
Proof.
  intros [(old & new & E & H) _ _ _] Hr. apply list_elem_of_lookup in Hr as [i Hi].
  destruct (Forall2_lookup_l _ _ _ _ _ H Hi) as (r' & Hi' & Hs).
  exists r'. split; [|done]. rewrite E. apply elem_of_app. left. eapply list_elem_of_lookup_2; eauto.
Qed.

Lemma future_row st st' r r' :
  reachable st → rtc step st st' → r ∈ executions st → r' ∈ executions st' → te_id r' = te_id r →
  row_step r r'.
Proof.
  intros Hreach Hs Hr Hr' Hid. destruct (steps_preserve _ _ Hs) as [Hl Hi].
  destruct (later_row _ _ _ Hl Hr) as (r1 & Hr1 & S1).
  assert (r' = r1) as ->; [|done].
  eapply (nodup_key_eq te_id); [apply wf_id, Hi, reachable_inv, Hreach|done|done|].
  by rewrite (rs_id _ _ S1).
Qed.

End Steps.
