(* ===== verification/Samples.v ===== *)
(** * A concrete instance of the library interfaces

    An executable implementation of [Libraries], [ControlCodec] and
    [ReceiptCodec]: structures are written as lists of escaped fields, and the
    seal is a tag with the additional data.  It shows that the interfaces can be
    implemented, and the examples of the development run on it. *)
From Stdlib Require Import Ascii.
From S2P Require Import Prelude GoText GoTime Store Execution Claims Legacy.

(** ** Lists of fields *)

(** Each character is preceded by a dot and each field ends with a semicolon. *)
Fixpoint write_field (s rest : string) : string :=
  match s with
  | "" => String ";"%char rest
  | String c s' => String "."%char (String c (write_field s' rest))
  end.

Fixpoint write_fields (l : list string) : string :=
  match l with
  | [] => ""
  | s :: l' => write_field s (write_fields l')
  end.

(** [read_fields acc s]: the fields of [s], the first one continuing [acc]. *)
Fixpoint read_fields (acc s : string) : option (list string) :=
  match s with
  | "" => if acc =?s "" then Some [] else None
  | String "."%char (String c s') => read_fields (acc +:+ String c "") s'
  | String ";"%char s' => match read_fields "" s' with Some l => Some (acc :: l) | None => None end
  | _ => None
  end.

Lemma read_write_field s rest acc :
  read_fields acc (write_field s rest) =
  match read_fields "" rest with Some l => Some ((acc +:+ s) :: l) | None => None end.
Proof.
  revert acc. induction s as [|c s IH]; intros acc.
  - cbn [write_field read_fields]. by rewrite app_nil_s.
  - cbn [write_field read_fields]. rewrite IH, app_assoc_s. done.
Qed.

Lemma read_write_fields l : read_fields "" (write_fields l) = Some l.
Proof.
  induction l as [|s l IH]; [done|]. cbn [write_fields]. by rewrite read_write_field, IH.
Qed.

(** Integers, booleans and optional texts as fields. *)
Fixpoint write_pos (p : positive) : string :=
  match p with
  | xH => ""
  | xO p => String "0"%char (write_pos p)
  | xI p => String "1"%char (write_pos p)
  end.

Fixpoint read_pos (s : string) : positive :=
  match s with
  | String "0"%char s' => xO (read_pos s')
  | String "1"%char s' => xI (read_pos s')
  | _ => xH
  end.

Lemma read_write_pos p : read_pos (write_pos p) = p.
Proof. induction p; cbn [write_pos read_pos]; congruence. Qed.

Definition write_int (n : Z) : string :=
  match n with
  | Z0 => "z"
  | Zpos p => String "p"%char (write_pos p)
  | Zneg p => String "n"%char (write_pos p)
  end.

Definition read_int (s : string) : Z :=
  match s with
  | String "p"%char s' => Zpos (read_pos s')
  | String "n"%char s' => Zneg (read_pos s')
  | _ => 0
  end.

Lemma read_write_int n : read_int (write_int n) = n.
Proof. destruct n; cbn [write_int read_int]; rewrite ?read_write_pos; done. Qed.

Definition write_bool (b : bool) : string := if b then "true" else "false".
Definition read_bool (s : string) : bool := s =?s "true".

Lemma read_write_bool b : read_bool (write_bool b) = b.
Proof. by destruct b. Qed.

Definition write_opt (o : option string) : string :=
  match o with None => "" | Some s => String "s"%char s end.
Definition read_opt (s : string) : option string :=
  match s with String _ s' => Some s' | "" => None end.

Lemma read_write_opt o : read_opt (write_opt o) = o.
Proof. by destruct o. Qed.

Definition write_opt_int (o : option Z) : string := write_opt (write_int <$> o).
Definition read_opt_int (s : string) : option Z := read_int <$> read_opt s.

Lemma read_write_opt_int o : read_opt_int (write_opt_int o) = o.
Proof. destruct o; [|done]. cbn. by rewrite read_write_int. Qed.

Create Rewrite HintDb sample_codec.
#[export] Hint Rewrite read_write_fields read_write_int read_write_bool read_write_opt
  read_write_opt_int : sample_codec.

(** ** Structures *)
Definition sample_task_json (t : AgentTask) : string :=
  write_fields
    [at_id t; at_kind t; write_int (at_attempt t); write_int (at_revision t); at_application_id t;
     write_bool (at_reconcile t); write_opt (at_meridian_acceptance t);
     write_opt (at_senulun_reporting t); write_opt (at_senulun_rotation t);
     write_opt (at_senulun_inspection t); write_opt (at_senulun_restore t);
     write_opt (at_maintenance_action t); write_opt (at_client_action t);
     write_opt (at_node_command_worker t); at_rest t].

Definition sample_task_of_json (s : string) : option AgentTask :=
  match read_fields "" s with
  | Some [i; k; a; r; ap; rc; f1; f2; f3; f4; f5; f6; f7; f8; rest] =>
      Some (mk_task i k (read_int a) (read_int r) ap (read_bool rc) (read_opt f1) (read_opt f2)
              (read_opt f3) (read_opt f4) (read_opt f5) (read_opt f6) (read_opt f7) (read_opt f8) rest)
  | _ => None
  end.

Lemma sample_task_round_trip t : sample_task_of_json (sample_task_json t) = Some t.
Proof.
  unfold sample_task_of_json, sample_task_json. rewrite read_write_fields.
  destruct t. cbn. by autorewrite with sample_codec.
Qed.

Definition sample_evidence_json (e : executionResultEvidence) : string :=
  write_fields [evd_result e; write_bool (evd_succeeded e); write_bool (evd_unknown e);
                write_opt_int (evd_generation e)].

Definition sample_evidence_of_json (s : string) : option executionResultEvidence :=
  match read_fields "" s with
  | Some [r; b; u; g] => Some (mk_evidence r (read_bool b) (read_bool u) (read_opt_int g))
  | _ => None
  end.

Lemma sample_evidence_round_trip e : sample_evidence_of_json (sample_evidence_json e) = Some e.
Proof.
  unfold sample_evidence_of_json, sample_evidence_json. rewrite read_write_fields.
  destruct e as [r b u g]. cbn [evd_result evd_succeeded evd_unknown evd_generation].
  by autorewrite with sample_codec.
Qed.

(** ** The seal: a text tagged with its additional data *)
Definition sample_seal (ad x : string) : string := write_fields [ad; x].
Definition sample_unseal (ad s : string) : option string :=
  match read_fields "" s with
  | Some [ad'; x] => if ad' =?s ad then Some x else None
  | _ => None
  end.

Lemma sample_unseal_seal ad x : sample_unseal ad (sample_seal ad x) = Some x.
Proof. unfold sample_unseal, sample_seal. by rewrite read_write_fields, String.eqb_refl. Qed.

Definition sample_compare (a b : string) : Z :=
  match String.compare a b with Eq => 0 | Lt => -1 | Gt => 1 end.

#[global] Program Instance sample_libraries : Libraries := {|
  seal := sample_seal;
  unseal := sample_unseal;
  json_valid s := negb (s =?s "");
  task_json := sample_task_json;
  task_of_json := sample_task_of_json;
  evidence_json := sample_evidence_json;
  evidence_of_json := sample_evidence_of_json;
  sha256_hex s := "sha256-" +:+ s;
  token_hash s := "hash-" +:+ s;
  inspection_of_json s := Some (mk_inspection "application" "deployment" [s]);
  semver_valid s := has_prefix "v" s;
  semver_compare := sample_compare
|}.
Next Obligation. apply sample_unseal_seal. Qed.
Next Obligation. apply sample_task_round_trip. Qed.
Next Obligation.
  intros e He. exists (evd_result e). split; [exact He|].
  rewrite sample_evidence_round_trip. by destruct e.
Qed.

(** ** The claim control and archived receipts *)
Definition sample_control_encode (c : ExecutionClaimControl) : string :=
  write_fields [write_bool (cc_paused c); cc_actor c; cc_updated_at c].
Definition sample_control_decode (s : string) : option ExecutionClaimControl :=
  match read_fields "" s with
  | Some [p; a; u] => Some (mk_control (read_bool p) a u)
  | _ => None
  end.
Definition sample_paused_raw (s : string) : option string :=
  match read_fields "" s with Some (p :: _) => Some p | _ => None end.

#[global] Program Instance sample_control_codec : ControlCodec := {|
  control_encode := sample_control_encode;
  control_decode := sample_control_decode;
  control_paused_raw := sample_paused_raw;
  control_type_false s := bool_decide (sample_paused_raw s = Some "false")
|}.
Next Obligation.
  intros [p a u]. unfold sample_control_decode, sample_control_encode. rewrite read_write_fields.
  cbn. by rewrite read_write_bool.
Qed.
Next Obligation.
  intros [p a u]. unfold sample_paused_raw, sample_control_encode. rewrite read_write_fields.
  by destruct p.
Qed.
Next Obligation.
  intros [p a u]. unfold sample_paused_raw, sample_control_encode. rewrite read_write_fields.
  by destruct p.
Qed.

Definition sample_receipt_json (r : LegacyReceipt) : string :=
  write_fields [lr_task_id r; lr_kind r; write_int (lr_attempt r); write_int (lr_runtime_generation r);
                lr_task_hash r; lr_state r; lr_completion r; lr_created_at r; lr_updated_at r].
Definition sample_receipt_of_json (s : string) : option LegacyReceipt :=
  match read_fields "" s with
  | Some [t; k; a; g; h; st; c; cr; up] => Some (mk_receipt t k (read_int a) (read_int g) h st c cr up)
  | _ => None
  end.

#[global] Instance sample_receipt_codec : ReceiptCodec := {|
  receipt_json := sample_receipt_json;
  receipt_of_json := sample_receipt_of_json;
  completion_identity s :=
    match read_fields "" s with Some [t; a] => Some (t, read_int a) | _ => None end;
  archive_identity_json a t k := write_fields [a; t; write_int k]
|}.

(** ** A database with one active Agent and one administrator *)
Definition sample_time : Z := 1767225600 * second.

Definition sample_agent : agent_row :=
  mk_agent "agent-1" "active" "hash-credential" "" "1.0.0" (rfc3339nano sample_time) true "node" ""
    "0123456789abcdef0123456789abcdef" "linux" "amd64" 0 (rfc3339nano sample_time) "site-1" "worker" "docker" true 2 "managed" [].

Definition sample_store : Store :=
  {| agents := [sample_agent]; admins := {[ "admin-1" ]}; sessions := ∅; session_history := ∅;
     executions := []; execution_events := []; claim_control := None; claim_control_events := [];
     tasks := []; task_events := []; applications := []; node_sites := [];
     reinstall_operations := []; update_recoveries := ∅; side_rows := []; registry := empty_registry |}.

Definition sample_session : string := "session-0000000000000000000001".
Definition sample_session2 : string := "session-0000000000000000000002".

Definition sample_task : AgentTask :=
  mk_task "application-command-1" "application.command" 1 1 "application-1" false None None None
    None None None (Some "list") None "".

Definition sample_reads : AuthorizationReads :=
  mk_authorization_reads false false (Err "") false (Err "") false (Err "") false (Err "") (Ok false)
    (Err "") (Ok None) (Ok None) (Ok None) (Ok None) true.
