(* ===== verification/Traces.v ===== *)
(** * Concrete runs of the protocol

    Reachable databases of [Samples]' Agent: a command that runs to its end, a
    process that is replaced, a host update and a decommission up to the steps of
    their helpers, and a reinstallation up to its boot grant.  The theorems of the
    development are applied to them. *)
From S2P Require Import Prelude GoText GoTime TaskIds Store Hoare Execution Guards Claims Handoff.
From S2P Require Import Disposition Confirmation Workflows Updates Legacy Leases Lifecycle Evolution.
From S2P Require Import Protocol Samples.

Lemma reach_op m st : reachable st → operation m → reachable (fst (m st)).
Proof. intros Hr Ho. eapply reachable_steps; [exact Hr|]. by apply rtc_once, step_operation. Qed.

Lemma reach_tasks l st : reachable st → reachable (with_tasks l st).
Proof. intros Hr. eapply reachable_steps; [exact Hr|]. by apply rtc_once, step_environment. Qed.

Module Run.
Definition registered : Store :=
  fst (RegisterExecutionSession "agent-1" "credential" sample_session 2 sample_time sample_store).
Definition offered : Store :=
  fst (persistExecutionAuthorization "agent-1" sample_session "execution-1" sample_task sample_reads
         (sample_time + second) registered).
Definition digest : string := sha256_hex (task_json sample_task).
Definition start : M unit :=
  StartExecution "agent-1" sample_session "execution-1" digest (sample_time + 2 * second) (Ok tt) 0.
Definition running : Store := fst (start offered).
Definition store : M unit :=
  StoreExecutionResult "agent-1" sample_session "execution-1" "{}" true false "" None false
    (sample_time + 3 * second).
Definition received : Store := fst (store running).
Definition replaced : Store :=
  fst (RegisterExecutionSession "agent-1" "credential" sample_session2 2 (sample_time + 4 * second)
         running).

Lemma initial_sample : initial sample_store.
Proof. done. Qed.

Lemma reach_registered : reachable registered.
Proof.
  exists sample_store. split; [done|]. apply rtc_once. unfold registered.
  apply (step_operation (RegisterExecutionSession _ _ _ _ _)), op_register.
Qed.

Lemma reach_offered : reachable offered.
Proof.
  eapply reachable_steps; [apply reach_registered|]. apply rtc_once. unfold offered.
  apply step_persist.
Qed.

Lemma reach_running : reachable running.
Proof.
  eapply reachable_steps; [apply reach_offered|]. apply rtc_once. unfold running.
  apply (step_operation start), op_start.
Qed.

Lemma step_received : rtc step running received.
Proof. apply rtc_once. unfold received. apply (step_operation store), op_store. Qed.

Lemma step_replaced : rtc step running replaced.
Proof.
  apply rtc_once. unfold replaced.
  apply (step_operation (RegisterExecutionSession _ _ _ _ _)), op_register.
Qed.

(** Completion: the received result is projected and the execution finalised.
    The business row of the command is created by the claim. *)
Definition command_row : task_row :=
  mk_task_row application_commands "application-command-1" "agent-1" 1 0 1 "succeeded" "" "" "" false
    false "application-1" "" "" "" "" "" "" "" "" "" "" "".
Definition projected : M unit := λ st, (with_tasks [command_row] st, Ok tt).
Definition finish : M unit :=
  CompleteTask "agent-1" "application-command-1"
    (mk_task_result "execution-1" sample_session false 1 true "" "{}" false None) projected (ok tt)
    (sample_time + 4 * second) (sample_time + 4 * second) (sample_time + 4 * second).
Definition finished : Store := fst (finish running).
Definition restarted : Store :=
  fst (RegisterExecutionSession "agent-1" "credential" sample_session2 2 (sample_time + 5 * second)
         finished).

Definition closed : Store :=
  fst (RegisterExecutionSession "agent-1" "credential" sample_session2 2 (sample_time + 5 * second)
         received).

Lemma step_closed : rtc step received closed.
Proof.
  apply rtc_once. unfold closed.
  apply (step_operation (RegisterExecutionSession _ _ _ _ _)), op_register.
Qed.

Lemma reach_received : reachable received.
Proof. eapply reachable_steps; [apply reach_running|apply step_received]. Qed.

Lemma step_running_finished : rtc step running finished.
Proof. apply rtc_once. unfold finished. apply (step_operation finish), op_complete; done. Qed.

Lemma reach_finished : reachable finished.
Proof. eapply reachable_steps; [apply reach_running|apply step_running_finished]. Qed.

Lemma step_restarted : rtc step finished restarted.
Proof.
  apply rtc_once. unfold restarted.
  apply (step_operation (RegisterExecutionSession _ _ _ _ _)), op_register.
Qed.

(** The run does what it should. *)
Example run_finished : map te_state (executions finished) = [Succeeded].
Proof. vm_compute. reflexivity. Qed.
Example run_offered : map te_state (executions offered) = [Offered].
Proof. vm_compute. reflexivity. Qed.
Example run_running : map te_state (executions running) = [Running].
Proof. vm_compute. reflexivity. Qed.
Example run_received : map te_phase (executions received) = ["result_received"].
Proof. vm_compute. reflexivity. Qed.
Example run_replaced : map te_state (executions replaced) = [Unknown].
Proof. vm_compute. reflexivity. Qed.

Definition row (st : Store) : task_execution :=
  default (offered_execution "" "" "" sample_task 0) (head (executions st)).

Lemma row_in (st : Store) : executions st ≠ [] → row st ∈ executions st.
Proof. unfold row. destruct (executions st); [done|]. intros _. left. Qed.
(** Database states after a decision of the machine or of an administrator. *)
Definition retired : Store :=
  fst (retireAgentExecutionIdentity "agent-1" (rfc3339nano (sample_time + 4 * second)) running).
Definition paused : Store :=
  fst (SetExecutionClaimControl "admin-1" true (sample_time + 4 * second) registered).
Definition finalized : Store :=
  fst (finalizeExecution "agent-1" sample_session "execution-1" (sample_time + 4 * second)
         (sample_time + 4 * second) received).

Lemma reach_retired : reachable retired.
Proof. apply reach_op; [apply reach_running|apply op_retire]. Qed.

Lemma reach_replaced : reachable replaced.
Proof. eapply reachable_steps; [apply reach_running|apply step_replaced]. Qed.

Lemma reach_closed : reachable closed.
Proof. eapply reachable_steps; [apply reach_received|apply step_closed]. Qed.

(** The open command of an execution whose outcome is not settled. *)
Definition open_command : task_row :=
  mk_task_row application_commands "application-command-1" "agent-1" 1 0 1 "running"
    (rfc3339nano (sample_time + 5 * minute)) "" "" false false "application-1" "" "" "" "" "" "" "" ""
    "" "" "".
Definition undecided : Store := with_tasks [open_command] replaced.
Definition unprojected : Store :=
  with_tasks [set_tr_error "interrupted" (set_tr_state "failed" open_command)] closed.
End Run.

(** A host update: the Agent hands its execution to the helper. *)
Module Update.
Definition task : AgentTask :=
  mk_task "agent-update-1" "agent.update" 1 1 "" false None None None None None None None None "".
Definition update_row : task_row :=
  mk_task_row agent_updates "agent-update-1" "agent-1" 1 0 1 "running"
    (rfc3339nano (sample_time + 5 * minute)) "" "" false false "" "" "" "v1.1.0" "" "" "" "" "" "" "" "".
Definition offered : Store :=
  fst (persistExecutionAuthorization "agent-1" sample_session "execution-2" task sample_reads
         (sample_time + second) (with_tasks [update_row] Run.registered)).
Definition running : Store :=
  fst (StartExecution "agent-1" sample_session "execution-2" (sha256_hex (task_json task))
         (sample_time + 2 * second) (Ok tt) 0 offered).
Definition handed : Store :=
  fst (CheckExecutionStep "agent-1" sample_session "execution-2" "handoff"
         (sample_time + 3 * second) running).
Definition helper : Store :=
  fst (beginAgentUpdateExecution "agent-1" "credential" "agent-update-1" 1 "execution-2" sample_session
         (sample_time + 4 * second) handed).
Definition stop_step : M unit :=
  CheckUpdateHelperStep "agent-1" sample_session "execution-2" "stop" (sample_time + 5 * second).
Definition stopped : Store := fst (stop_step helper).

Lemma reach_update : reachable helper.
Proof.
  apply reach_op; [|apply op_begin_update]. apply reach_op; [|apply op_check].
  apply reach_op; [|apply op_start]. eapply reachable_steps; [|apply rtc_once, step_persist].
  apply reach_tasks, Run.reach_registered.
Qed.
End Update.

(** A decommission: the cleanup helper of the machine reports its steps. *)
Module Decommission.
Definition task : AgentTask :=
  mk_task "agent-decommission-agent-1" "agent.decommission" 1 1 "" false None None None None None None
    None None "".
Definition cleanup_row : task_row :=
  mk_task_row agent_decommissions "agent-1" "agent-1" 1 0 1 "running"
    (rfc3339nano (sample_time + 5 * minute)) "" "" false false "" "" "" "" "hash-token" "" "" "" "" "" ""
    "".
Definition offered : Store :=
  fst (persistExecutionAuthorization "agent-1" sample_session "execution-3" task sample_reads
         (sample_time + second) (with_tasks [cleanup_row] Run.registered)).
Definition running : Store :=
  fst (StartExecution "agent-1" sample_session "execution-3" (sha256_hex (task_json task))
         (sample_time + 2 * second) (Ok tt) 0 offered).
Definition handed : Store :=
  fst (CheckExecutionStep "agent-1" sample_session "execution-3" "handoff"
         (sample_time + 3 * second) running).
Definition helper : Store :=
  fst (beginAgentDecommission "agent-1" "credential" "agent-decommission-agent-1" 1 "execution-3"
         sample_session (sample_time + 4 * second) handed).
Definition first_step : M unit :=
  AuthorizeDecommissionStep "agent-decommission-agent-1" "token" 1 1 "command"
    (sample_time + 5 * second).
Definition stepped : Store := fst (first_step helper).

Lemma reach_cleanup : reachable helper.
Proof.
  apply reach_op; [|apply op_begin_decommission]. apply reach_op; [|apply op_check].
  apply reach_op; [|apply op_start]. eapply reachable_steps; [|apply rtc_once, step_persist].
  apply reach_tasks, Run.reach_registered.
Qed.
End Decommission.

(** A reinstallation: backup, then the boot grant. *)
Module Machine.
Definition task : AgentTask :=
  mk_task "os-reinstall-1" "node.os-reinstall" 1 1 "" false None None None None None None None None "".
Definition reinstall_row : task_row :=
  mk_task_row os_reinstall_tasks "os-reinstall-1" "agent-1" 1 0 1 "running"
    (rfc3339nano (sample_time + 5 * minute)) "" "" false false "" "" "" "" "" "" "" "" "" "" "" "".
Definition backup_digest : string :=
  "sha256:0000000000000000000000000000000000000000000000000000000000000000".
Definition offered : Store :=
  fst (persistExecutionAuthorization "agent-1" sample_session "execution-4" task sample_reads
         (sample_time + second) (with_tasks [reinstall_row] Run.registered)).
Definition running : Store :=
  fst (StartExecution "agent-1" sample_session "execution-4" (sha256_hex (task_json task))
         (sample_time + 2 * second) (Ok tt) 0 offered).
Definition applying : Store :=
  fst (CheckExecutionStep "agent-1" sample_session "execution-4" "apply" (sample_time + 3 * second)
         running).
Definition digest_of : string → string := λ _, backup_digest.
Definition saved : Store :=
  fst (RecordOSReinstallBackup "agent-1" sample_session "execution-4"
         (mk_backup "archive" "access" backup_digest) digest_of (λ _, Ok "plan") true
         (sample_time + 4 * second) (sample_time + 4 * second) applying).
Definition arm : M unit :=
  ArmOSReinstall "agent-1" sample_session "execution-4" backup_digest backup_digest digest_of
    (λ _, true) (sample_time + 5 * second).
Definition armed : Store := fst (arm saved).

Lemma reach_saved : reachable saved.
Proof.
  apply reach_op; [|apply op_backup]. apply reach_op; [|apply op_check].
  apply reach_op; [|apply op_start]. eapply reachable_steps; [|apply rtc_once, step_persist].
  apply reach_tasks, Run.reach_registered.
Qed.
End Machine.

(** The helpers get as far as they should. *)
Example run_helpers :
  map te_phase (executions Update.stopped) = ["stop"] ∧
  map te_phase (executions Decommission.stepped) = ["cleanup:1:command"] ∧
  map te_phase (executions Machine.armed) = ["reinstall_armed"] ∧
  map te_state (executions Run.finalized) = [Succeeded] ∧ executionClaimsPaused Run.paused = true.
Proof. vm_compute. auto. Qed.

(** The databases of the run are compared by name, and computed by [vm_compute]. *)
Opaque Run.registered Run.offered Run.running Run.received Run.replaced Run.finished Run.restarted
  Run.closed Run.retired Run.paused Run.finalized Update.helper Update.stopped Decommission.helper
  Decommission.stepped Machine.saved Machine.armed.
