(* ===== verification/Safety.v ===== *)
(** * Safety of the execution protocol

    The theorems about every reachable database and every future of it: mutual
    exclusion, one-use permissions, session fencing, immutability of decisions and
    of received evidence, and the audit trail. *)
From S2P Require Import Prelude GoText GoTime TaskIds Store Hoare Execution Guards Claims Handoff.
From S2P Require Import Disposition Confirmation Workflows Updates Legacy Leases Lifecycle Evolution.
From S2P Require Import Protocol Samples Traces.

Section Safety.
Context {L : Libraries} {C : ControlCodec} {RC : ReceiptCodec}.

(** C1 -- Mutual exclusion: in every reachable database an Agent has at most one
    live permission (offered, running or with a helper, and not decided), apart
    from the explicit configuration recoveries that no fence stops. *)
Theorem mutual_exclusion st r1 r2 :
  reachable st → r1 ∈ executions st → r2 ∈ executions st → te_agent_id r1 = te_agent_id r2 →
  live r1 = true → live r2 = true →
  recovery_kind (te_kind r1) = false → recovery_kind (te_kind r2) = false → r1 = r2.
Proof. intros Hr. apply (inv_exclusive _ (reachable_inv _ Hr)). Qed.

(** An attempt of a task is authorised at most once: no two executions of a
    reachable database name the same task and attempt. *)
Theorem attempt_authorized_once st r1 r2 :
  reachable st → r1 ∈ executions st → r2 ∈ executions st →
  te_task_id r1 = te_task_id r2 → te_attempt r1 = te_attempt r2 → r1 = r2.
Proof.
  intros Hr H1 H2 Ht Ha.
  eapply (nodup_key_eq attempt_key);
    [apply (wf_attempt _ (inv_well_formed _ (reachable_inv _ Hr)))|done|done|].
  unfold attempt_key. congruence.
Qed.

Lemma start_refused a s i d n t n' st :
  (∀ r, r ∈ executions st → te_id r = i → te_state r ≠ Offered) →
  StartExecution a s i d n t n' st = (st, Err errExecutionAuthorization).
Proof.
  intros H. unfold StartExecution, bindM at 1. rewrite guarded_refused; [done|].
  intros r Hr. apply not_true_iff_false. intros Hw. bool_prop. unfold state_eqb in *. bool_prop.
  by apply (H r).
Qed.

(** C4 -- A permission is one-use: once [StartExecution] has accepted it, starting
    the same execution is refused in every future of the database, whatever the
    Agent, session, digest or instant, and the refusal changes nothing. *)
Theorem start_is_one_use st st1 st2 a s i d n n' a2 s2 d2 n2 t2 n2' :
  reachable st → StartExecution a s i d n (Ok tt) n' st = (st1, Ok tt) → rtc step st1 st2 →
  StartExecution a2 s2 i d2 n2 t2 n2' st2 = (st2, Err errExecutionAuthorization).
Proof.
  intros Hreach Hstart Hsteps. apply start_refused. intros r2 Hr2 Hid.
  assert (Hev : rtc step st st1).
  { apply rtc_once. replace st1 with (fst (StartExecution a s i d n (Ok tt) n' st))
      by (by rewrite Hstart).
    apply step_operation, op_start. }
  unfold StartExecution, bindM at 1 in Hstart.
  destruct (guarded _ _ _ st) as [st0 [u|e]] eqn:Hg; [|discriminate].
  unfold ok in Hstart. injection Hstart as ->.
  apply guarded_effect in Hg as (r & Hr & Hw & Hr'). bool_prop.
  pose proof (reachable_steps _ _ Hreach Hev) as Hreach1.
  pose proof (future_row _ _ _ r2 Hreach1 Hsteps Hr' Hr2) as Hstep.
  simpl in Hstep. specialize (Hstep ltac:(congruence)). apply rs_state in Hstep. simpl in Hstep.
  by destruct (te_state r2).
Qed.

(** ** Sessions *)

(** An operation that is refused and changes nothing. *)
Definition refused {A} (m : M A) (st : Store) : Prop := ∃ e, m st = (st, Err e).

Lemma refused_intro {A} (m : M A) st : unchanged m st → wp m st (λ _ _, False) → refused m st.
Proof.
  intros Hu Hw. destruct (m st) as [st' [a|e]] eqn:E; [by destruct (Hw _ _ E)|].
  exists e. by rewrite E, (Hu _ _ E).
Qed.

Lemma guarded_refused_session wh f e st a s :
  session_current st a s = false →
  (∀ r, wh st r = true → session_current st a s = true) → refused (guarded wh f e) st.
Proof.
  intros Hc Hw. exists e. apply guarded_refused. intros r _. apply not_true_iff_false.
  intros H%Hw. congruence.
Qed.

Lemma session_current_false st a s : sessions st !! a ≠ Some s → session_current st a s = false.
Proof.
  intros H. unfold session_current. destruct (sessions st !! a) as [x|]; [|done].
  apply String.eqb_neq. congruence.
Qed.

(** The operations an Agent asks for under its session [s] on the execution [i]. *)
Inductive session_operation (a s i : string) : M unit → Prop :=
| so_claim rd n : session_operation a s i (executionClaimAllowed a s rd n)
| so_start d n t n' : session_operation a s i (StartExecution a s i d n t n')
| so_check p n : session_operation a s i (CheckExecutionStep a s i p n)
| so_renew n : session_operation a s i (RenewExecution a s i n)
| so_stop u e n : session_operation a s i (StopExecution a s i u e n)
| so_store x b u e g n : session_operation a s i (StoreExecutionResult a s i x b u e g false n)
| so_complete t v project follow_up n d f :
    rt_session_id v = s → rt_execution_id v = i → rt_host_update_helper v = false →
    session_operation a s i (CompleteTask a t v project follow_up n d f)
| so_begin_update c t k n : session_operation a s i (beginAgentUpdateExecution a c t k i s n)
| so_begin_decommission c t k n : session_operation a s i (beginAgentDecommission a c t k i s n)
| so_begin_tailscale c t k n : session_operation a s i (beginTailscaleUpdate a c t i s k n)
| so_backup ev dg v d q n : session_operation a s i (RecordOSReinstallBackup a s i ev dg v d q n)
| so_arm b p dg v n : session_operation a s i (ArmOSReinstall a s i b p dg v n)
| so_reinstalled c t v n : session_operation a s i (CompleteOSReinstall a c s i t v n).

(** The operations of the detached update helper, which outlives the session. *)
Inductive helper_operation (a s i : string) : M unit → Prop :=
| ho_step p n : helper_operation a s i (CheckUpdateHelperStep a s i p n)
| ho_store x b u e g n : helper_operation a s i (StoreExecutionResult a s i x b u e g true n)
| ho_observed n : helper_operation a s i (λ st, (st, let! _ := UpdateHelperObserved a s i n st in Ok tt)).

Definition with_update_helper (i : string) (st : Store) : Prop :=
  ∃ r, r ∈ executions st ∧ te_id r = i ∧ te_kind r = "agent.update" ∧ te_state r = HelperRunning.

Ltac session_refused :=
  eapply guarded_refused_session; [eassumption|]; intros ? ?; bool_prop; done.

(** An operation whose writes are in one transaction and whose success needs the session. *)
Ltac session_needed :=
  apply refused_intro;
    [repeat first [unchanged_step | apply unchanged_bind; [apply reads_authenticate|intros ?]]
    |repeat first [wp_guard; bool_prop; congruence | wp_step
                  | apply wp_bind; eapply wp_mono; [apply wp_reads, reads_authenticate|]; intros ? [] ->]].

Lemma refused_bind {A B} (m : M A) (k : A → M B) st : refused m st → refused (bindM m k) st.
Proof. intros [e E]. exists e. unfold bindM. by rewrite E. Qed.

Lemma store_result_refused a s i x b u e g n st :
  session_current st a s = false → refused (StoreExecutionResult a s i x b u e g false n) st.
Proof.
  intros Hc. unfold StoreExecutionResult. case_match; [by eexists|]. cbv zeta.
  eapply guarded_refused_session; [eassumption|]. intros r Hw. bool_prop.
  repeat match goal with H : (_ || _)%bool = true |- _ => apply orb_true_iff in H as [|]; bool_prop end;
    try done; unfold state_eqb in *; bool_prop; congruence.
Qed.

Lemma reinstall_join_current a s i p x n st q :
  reinstall_join a s i p x n st = Some q → session_current st a s = true.
Proof.
  unfold reinstall_join. destruct (sql_row _ (executions st)) as [e|] eqn:E; [|discriminate]. intros _.
  apply sql_row_spec in E as [_ Hw]. by bool_prop.
Qed.

Lemma stale_session_refused st a s i m :
  session_current st a s = false → session_operation a s i m → refused m st.
Proof.
  intros Hc. destruct 1.
  - unfold executionClaimAllowed. apply refused_bind. unfold transaction, refused.
    unfold bindM at 1, query at 1. unfold bindM at 1, fail_if. destruct (executionClaimsPaused st); [by eexists|].
    unfold bindM at 1, query at 1, ok. rewrite Hc. by eexists.
  - unfold StartExecution. apply refused_bind. session_refused.
  - unfold CheckExecutionStep. case_match; [by eexists|]. session_refused.
  - unfold RenewExecution. session_refused.
  - unfold StopExecution. session_refused.
  - by apply store_result_refused.
  - subst. unfold CompleteTask. unfold refused, bindM at 1, query at 1. unfold bindM at 1, fail_if.
    destruct (negb _); [by eexists|]. unfold ok. apply refused_bind.
    match goal with H : rt_host_update_helper v = false |- _ => rewrite H end. by apply store_result_refused.
  - unfold beginAgentUpdateExecution. session_needed.
  - unfold beginAgentDecommission. session_needed.
  - unfold beginTailscaleUpdate. session_needed.
  - unfold RecordOSReinstallBackup. session_needed. all: apply reinstall_join_current in Heqo; congruence.
  - unfold ArmOSReinstall. session_needed. all: apply reinstall_join_current in Heqo; congruence.
  - apply refused_intro; [unfold CompleteOSReinstall; repeat unchanged_step|].
    unfold CompleteOSReinstall. do 2 wp_step. apply wp_bind. intros st0 u E.
    assert (st0 = st) as ->.
    { pose proof (reads_authenticate a c st) as Ha. by destruct (authenticateAgent a c st) as [? []]; simplify_eq. }
    do 2 wp_step. destruct (sql_row _ (executions st)) as [e|] eqn:Ee; [|wp_step].
    apply sql_row_spec in Ee as [_ Hw]. bool_prop. congruence.
Qed.

Lemma stale_session_not_authorized st a s i task rd n :
  session_current st a s = false → refused (persistExecutionAuthorization a s i task rd n) st.
Proof.
  intros Hc. pose proof (persist_wp a s i task rd n st) as Hok.
  pose proof (persist_unchanged a s i task rd n st) as Herr.
  destruct (persistExecutionAuthorization a s i task rd n st) as [st' [x|e]] eqn:E.
  - destruct (Hok _ _ E) as (_ & [_ Hs _ _] & _). congruence.
  - exists e. by rewrite (Herr _ _ E) in E.
Qed.

Lemma register_seen_refused st a c s p n :
  (a, s) ∈ session_history st → sessions st !! a ≠ Some s →
  refused (RegisterExecutionSession a c s p n) st.
Proof.
  intros Hh Hs. unfold refused, RegisterExecutionSession. destruct (_ || _) eqn:E; [by eexists|].
  unfold transaction, bindM at 1. pose proof (reads_authenticate a c st) as Hr.
  destruct (authenticateAgent a c st) as [st' [u|e]]; simpl in Hr; subst; [|by eexists].
  unfold bindM at 1, query at 1. bool_prop.
  assert ((default "" (sessions st !! a) =?s s) = false) as ->.
  { apply String.eqb_neq. intros <-. destruct (sessions st !! a); [done|]. simpl in *.
    unfold str_len in *. simpl in *. lia. }
  unfold bindM at 1, query at 1. rewrite bool_decide_eq_true_2 by done.
  unfold bindM at 1. by eexists.
Qed.

(** Without a running update helper, the helper is refused too. *)
Lemma helper_refused st a s i m :
  ¬ with_update_helper i st → helper_operation a s i m → refused m st.
Proof.
  intros Hn.
  assert (∀ r, r ∈ executions st → te_id r = i → te_kind r = "agent.update" → te_state r = HelperRunning → False)
    as Hr by (intros r ? ? ? ?; by apply Hn; exists r).
  destruct 1.
  - unfold CheckUpdateHelperStep. case_match; [|by eexists]. eexists. apply guarded_refused. intros r Hin.
    apply not_true_iff_false. intros Hw. unfold state_eqb in *. bool_prop. by eapply Hr.
  - unfold StoreExecutionResult. case_match; [by eexists|]. cbv zeta. eexists. apply guarded_refused. intros r Hin.
    apply not_true_iff_false. intros Hw. cbn [negb andb orb] in Hw. unfold state_eqb in *. bool_prop. by eapply Hr.
  - eexists. unfold UpdateHelperObserved. destruct (sql_row _ (executions st)) as [r|] eqn:E; [|reflexivity].
    apply sql_row_spec in E as [Hin Hw]. unfold state_eqb in *. bool_prop. exfalso. by eapply Hr.
Qed.

(** C5 -- Session fencing: when the session of an Agent has been replaced or
    retired, it is never current again; in every future database it is refused
    registration, new permissions, and every operation on any execution that an Agent
    asks for under its session: claims, the start, steps, renewal, the stop, a result
    and the completion of a task, the three handovers to a helper and the steps of a
    reinstallation; and the refusals change nothing.  Only the detached helper of an
    Agent update, which outlives its session by design, goes on under it, and it is
    refused as well unless the execution was handed over to it. *)
Theorem replaced_session_is_fenced st st1 st2 a s i :
  reachable st → sessions st !! a = Some s → rtc step st st1 → sessions st1 !! a ≠ Some s →
  rtc step st1 st2 →
  sessions st2 !! a ≠ Some s ∧
  (∀ c p n, refused (RegisterExecutionSession a c s p n) st2) ∧
  (∀ task rd n, refused (persistExecutionAuthorization a s i task rd n) st2) ∧
  (∀ m, session_operation a s i m → refused m st2) ∧
  (∀ m, helper_operation a s i m → ¬ with_update_helper i st2 → refused m st2).
Proof.
  intros Hr Hs H1 Hne H2.
  assert ((a, s) ∈ session_history st1) as Hh.
  { apply (lt_history _ _ (proj1 (steps_preserve _ _ H1))).
    by apply (wf_session _ (inv_well_formed _ (reachable_inv _ Hr))). }
  destruct (steps_preserve _ _ H2) as [Hl _].
  assert (sessions st2 !! a ≠ Some s) as Hne2 by (by apply (lt_sessions _ _ Hl)).
  pose proof (session_current_false _ _ _ Hne2) as Hc. split_and!; [done| | | |].
  - intros c p n. apply register_seen_refused; [|done]. by apply (lt_history _ _ Hl).
  - intros task rd n. by apply stale_session_not_authorized.
  - intros m. by apply stale_session_refused.
  - intros m Hm Hn. by eapply helper_refused.
Qed.

(** ** Rows *)

(** The life of an execution is one-way: in every future of a reachable
    database its identity (Agent, task, kind, attempt, session, digest and sealed
    task) is unchanged and its state has not gone back. *)
Theorem execution_state_is_monotone st st' r r' :
  reachable st → rtc step st st' → r ∈ executions st → r' ∈ executions st' → te_id r' = te_id r →
  (te_agent_id r', te_task_id r', te_kind r', te_attempt r', te_session_id r', te_digest r',
   te_sealed_task r') =
  (te_agent_id r, te_task_id r, te_kind r, te_attempt r, te_session_id r, te_digest r,
   te_sealed_task r) ∧ state_le (te_state r) (te_state r') = true.
Proof.
  intros Hr Hs Hi Hi' Hid. destruct (future_row _ _ _ _ Hr Hs Hi Hi' Hid). split; [congruence|done].
Qed.

(** Decisions are final: an execution that succeeded or was disposed of is
    the same row, in all its columns, in every future database. *)
Theorem decided_execution_is_frozen st st' r :
  reachable st → rtc step st st' → r ∈ executions st →
  te_disposition r ≠ "" ∨ te_state r = Succeeded → r ∈ executions st'.
Proof.
  intros Hr Hs Hi Hd. destruct (steps_preserve _ _ Hs) as [Hl _].
  destruct (later_row _ _ _ Hl Hi) as (r' & Hr' & S). by rewrite (rs_frozen _ _ S Hd) in Hr'.
Qed.

(** Evidence is kept: the sealed result that a started execution delivered,
    or that it ended with, is not changed in any future database. *)
Theorem received_evidence_is_immutable st st' r r' :
  reachable st → rtc step st st' → r ∈ executions st → r' ∈ executions st' → te_id r' = te_id r →
  te_phase r = "result_received" ∧ te_state r ≠ Offered ∨ active r = false →
  te_sealed_result r' = te_sealed_result r.
Proof.
  intros Hr Hs Hi Hi' Hid Hset. by apply (rs_settled _ _ (future_row _ _ _ _ Hr Hs Hi Hi' Hid)).
Qed.

End Safety.

(** ** Witnesses *)
Lemma mutual_exclusion_witness :
  live (Run.row Run.running) = true ∧ recovery_kind (te_kind (Run.row Run.running)) = false ∧
  Run.row Run.running = Run.row Run.running.
Proof.
  split; [vm_compute; reflexivity|]. split; [vm_compute; reflexivity|].
  apply (mutual_exclusion Run.running); try (vm_compute; reflexivity).
  - apply Run.reach_running.
  - apply Run.row_in. vm_compute. discriminate.
  - apply Run.row_in. vm_compute. discriminate.
Defined.

Lemma attempt_authorized_once_witness :
  te_attempt (Run.row Run.offered) = 1 ∧ Run.row Run.offered = Run.row Run.offered.
Proof.
  split; [vm_compute; reflexivity|].
  apply (attempt_authorized_once Run.offered); [apply Run.reach_offered| | |reflexivity|reflexivity];
  apply Run.row_in; vm_compute; discriminate.
Defined.

Lemma start_is_one_use_witness :
  Run.start Run.offered = (Run.running, Ok tt) ∧
  StartExecution "agent-1" sample_session "execution-1" Run.digest (sample_time + 3 * second) (Ok tt) 0
    Run.received = (Run.received, Err errExecutionAuthorization).
Proof.
  assert (Run.start Run.offered = (Run.running, Ok tt)) as H by (vm_compute; reflexivity).
  split; [exact H|].
  exact (start_is_one_use Run.offered Run.running Run.received "agent-1" sample_session "execution-1"
           Run.digest (sample_time + 2 * second) 0 "agent-1" sample_session Run.digest
           (sample_time + 3 * second) (Ok tt) 0 Run.reach_offered H Run.step_received).
Defined.

Lemma replaced_session_is_fenced_witness :
  sessions Run.running !! "agent-1" = Some sample_session ∧
  refused (RenewExecution "agent-1" sample_session "execution-1" sample_time) Run.replaced.
Proof.
  assert (sessions Run.running !! "agent-1" = Some sample_session) as H1 by (vm_compute; reflexivity).
  assert (sessions Run.replaced !! "agent-1" ≠ Some sample_session) as H2 by (vm_compute; discriminate).
  split; [exact H1|].
  destruct (replaced_session_is_fenced Run.running Run.replaced Run.replaced "agent-1" sample_session
              "execution-1" Run.reach_running H1 Run.step_replaced H2 (rtc_refl _ _))
    as (_ & _ & _ & H & _).
  apply H, so_renew.
Defined.

Lemma execution_state_is_monotone_witness :
  te_state (Run.row Run.replaced) = Unknown ∧
  state_le (te_state (Run.row Run.running)) (te_state (Run.row Run.replaced)) = true.
Proof.
  split; [vm_compute; reflexivity|].
  apply (execution_state_is_monotone Run.running Run.replaced).
  - apply Run.reach_running.
  - apply Run.step_replaced.
  - apply Run.row_in. vm_compute. discriminate.
  - apply Run.row_in. vm_compute. discriminate.
  - vm_compute. reflexivity.
Defined.

Lemma decided_execution_is_frozen_witness :
  te_state (Run.row Run.finished) = Succeeded ∧ Run.row Run.finished ∈ executions Run.restarted.
Proof.
  split; [vm_compute; reflexivity|].
  apply (decided_execution_is_frozen Run.finished Run.restarted (Run.row Run.finished)).
  - apply Run.reach_finished.
  - apply Run.step_restarted.
  - apply Run.row_in. vm_compute. discriminate.
  - right. vm_compute. reflexivity.
Defined.

Lemma received_evidence_is_immutable_witness :
  te_phase (Run.row Run.received) = "result_received" ∧
  te_sealed_result (Run.row Run.closed) = te_sealed_result (Run.row Run.received).
Proof.
  split; [vm_compute; reflexivity|].
  apply (received_evidence_is_immutable Run.received Run.closed).
  - apply Run.reach_received.
  - apply Run.step_closed.
  - apply Run.row_in. vm_compute. discriminate.
  - apply Run.row_in. vm_compute. discriminate.
  - vm_compute. reflexivity.
  - left. split; vm_compute; [reflexivity|discriminate].
Defined.
