(* ===== verification/Contracts.v ===== *)
(** * Contracts of the protocol's operations

    What each operation of execution.go, execution_claim_control.go and
    agent_reconnect_execution.go promises on success and on refusal. *)
From S2P Require Import Prelude GoText GoTime TaskIds Store Hoare Execution Guards Claims Handoff.
From S2P Require Import Disposition Confirmation Workflows Updates Legacy Leases Lifecycle Evolution.
From S2P Require Import Protocol Samples Traces Safety.

Section Contracts.
Context {L : Libraries} {C : ControlCodec} {RC : ReceiptCodec}.

(** ** Sessions *)
Lemma authenticate_ok a c st :
  wp (authenticateAgent a c) st (λ st' _, st' = st ∧ ∃ g, g ∈ agents st ∧ ag_id g = a ∧
    ag_status g = "active" ∧ ag_credential_revoked_at g = "" ∧ ag_credential_hash g = token_hash c).
Proof.
  unfold authenticateAgent. wp_step.
  destruct (sql_row _ _) as [g|] eqn:E; [|wp_step]. wp_step. split; [done|].
  apply sql_row_spec in E as [Hg Hw]. bool_prop. exists g. done.
Qed.

(** A process that registers a session is authenticated, its session becomes
    the current one of its Agent and of no other, and no execution of another
    session of that Agent stays offered or running. *)
Theorem register_session_contract a c s p n st st' :
  RegisterExecutionSession a c s p n st = (st', Ok tt) → sessions st !! a ≠ Some s →
  (∃ g, g ∈ agents st ∧ ag_id g = a ∧ ag_status g = "active" ∧ ag_credential_revoked_at g = "" ∧
    ag_credential_hash g = token_hash c) ∧
  ((a, s) ∉ session_history st) ∧
  sessions st' = <[a := s]> (sessions st) ∧
  (∀ r, r ∈ executions st' → te_agent_id r = a → te_session_id r ≠ s → te_disposition r = "" →
    te_state r ≠ Offered ∧ te_state r ≠ Running).
Proof.
  revert st'. cut (wp (RegisterExecutionSession a c s p n) st (λ st' _, sessions st !! a ≠ Some s →
    (∃ g, g ∈ agents st ∧ ag_id g = a ∧ ag_status g = "active" ∧ ag_credential_revoked_at g = "" ∧
      ag_credential_hash g = token_hash c) ∧ ((a, s) ∉ session_history st) ∧
    sessions st' = <[a := s]> (sessions st) ∧
    (∀ r, r ∈ executions st' → te_agent_id r = a → te_session_id r ≠ s → te_disposition r = "" →
      te_state r ≠ Offered ∧ te_state r ≠ Running))); [eauto|].
  unfold RegisterExecutionSession. wp_step; [wp_step|]. wp_step. apply wp_bind.
  eapply wp_mono; [apply authenticate_ok|]. intros st1 [] [-> Hag]. wp_step. bool_prop.
  destruct (default "" (sessions st !! a) =?s s) eqn:Es.
  { apply wp_ok. intros Hne. bool_prop. destruct (sessions st !! a); [simpl in *; congruence|].
    simpl in Es. subst s. unfold str_len in *. simpl in *. lia. }
  do 2 wp_step. apply wp_bind. intros st2 [] E2. simplify_eq. apply wp_bind. intros st3 k E3.
  intros st4 [] E4 Hne. unfold update_executions in E3. simplify_eq. bool_prop.
  split; [done|]. split; [done|]. split; [done|]. intros r Hr Ha Hs Hd. simpl in Hr.
  apply elem_of_sql_update in Hr as (r0 & Hr0 & ->).
  destruct (_ && _) eqn:Hw in *; [by split|]. rewrite Ha, Hd, !String.eqb_refl in Hw.
  apply String.eqb_neq in Hs. rewrite Hs in Hw. simpl in Hw.
  split; intros E; by rewrite E in Hw.
Qed.

(** A reconnect grant retires the previous machine: the Agent has no current
    session, no live permission is left, and every unresolved execution of the
    Agent is marked with the retirement, while other Agents' rows and the decided
    rows are untouched. *)
Theorem retire_identity_contract a n st :
  reachable st →
  ∃ st', retireAgentExecutionIdentity a (rfc3339nano n) st = (st', Ok tt) ∧
    sessions st' = delete a (sessions st) ∧
    (∀ r, r ∈ executions st' → te_agent_id r = a → unresolved r = true →
      active r = false ∧ te_identity_retired_at r ≠ "") ∧
    (∀ r, r ∈ executions st → te_agent_id r ≠ a ∨ unresolved r = false → r ∈ executions st').
Proof.
  intros Hreach. eexists. split; [reflexivity|]. split; [done|]. simpl. split.
  - intros r' (r & Hr & ->)%elem_of_sql_update Ha Hu.
    pose proof (wf_retired _ (inv_well_formed _ (reachable_inv _ Hreach))) as Hret.
    rewrite Forall_forall in Hret. specialize (Hret r Hr).
    destruct (_ && _)%bool eqn:Hw.
    + destruct r as [????????? st0 ??????????]. unfold active, state_in, state_eqb in *.
      simpl in *. split; [by destruct st0|]. apply rfc3339nano_nonempty.
    + assert (te_identity_retired_at r ≠ "") as Hn; [|by split; [apply Hret|]].
      unfold unresolved in Hu. bool_prop. intros E. rewrite Ha, H, E, !String.eqb_refl in Hw.
      simpl in Hw. by rewrite H0 in Hw.
  - intros r Hr Hor. apply elem_of_sql_update. exists r. split; [done|].
    destruct (_ && _)%bool eqn:Hw; [|done]. exfalso. rewrite !andb_true_iff in Hw.
    destruct Hw as [[[Ha Hd] Hs] _]. destruct Hor as [Hn|Hu]; [by bool_prop|].
    unfold unresolved in Hu. by rewrite Hd, Hs in Hu.
Qed.

(** The row of an identifier. *)
Lemma row_by_id st r i :
  NoDup (map te_id (executions st)) → r ∈ executions st → te_id r = i →
  sql_row (λ x, te_id x =?s i) (executions st) = Some r.
Proof.
  intros Hnd Hr Hi. destruct (sql_row _ _) as [x|] eqn:E.
  - apply sql_row_spec in E as [Hx Hw]. bool_prop. f_equal.
    apply (nodup_key_eq te_id (executions st)); congruence.
  - pose proof (sql_row_none _ _ E r Hr) as Hf. simpl in Hf. by rewrite Hi, String.eqb_refl in Hf.
Qed.

Lemma retired_reexecute_refused st r i ad d b n :
  NoDup (map te_id (executions st)) → r ∈ executions st → te_id r = i →
  te_identity_retired_at r ≠ "" → refused (ReexecuteExecution i ad d b n) st.
Proof.
  intros Hnd Hr Hi Hret. apply refused_intro.
  - unfold ReexecuteExecution, disposeTaskExecution. repeat unchanged_step.
  - unfold ReexecuteExecution, disposeTaskExecution. wp_step; [wp_step|]. repeat wp_step.
    all: rewrite (row_by_id _ r) in * by done; simplify_eq; bool_prop.
    all: repeat match goal with H : (_ && _)%bool = false |- _ => apply andb_false_iff in H as [?|?] end;
      bool_prop; congruence.
Qed.

Lemma retired_projection_refused st r i re project n :
  NoDup (map te_id (executions st)) → r ∈ executions st → te_id r = i →
  te_identity_retired_at r ≠ "" → refused (projectRetainedExecutionResult i re project n) st.
Proof.
  intros Hnd Hr Hi Hret. apply refused_intro; unfold projectRetainedExecutionResult; cbv zeta.
  - unchanged_step.
  - do 3 wp_step. wp_step. destruct (sql_row _ _) as [x|] eqn:E; [|wp_step]. exfalso.
    apply sql_row_spec in E as [Hx Hw]. unfold retained_row in Hw. bool_prop.
    assert (x = r) as -> by (apply (nodup_key_eq te_id (executions st)); congruence). done.
Qed.

(** A retired machine's execution is never replayed or confirmed: in every
    future database re-execution, confirmation of its retained result and the
    automatic recovery of its result are refused without any change. *)
Theorem retired_execution_is_not_replayed st st' r :
  reachable st → rtc step st st' → r ∈ executions st → te_identity_retired_at r ≠ "" →
  (∀ ad d b n, refused (ReexecuteExecution (te_id r) ad d b n) st') ∧
  (∀ ad d project n, refused (ConfirmExecution (te_id r) ad d project n) st') ∧
  (∀ project n,
     refused (projectRetainedExecutionResult (te_id r) automatic_resolution project n) st').
Proof.
  intros Hreach Hs Hr Hret. destruct (steps_preserve _ _ Hs) as [Hl Hi].
  destruct (later_row _ _ _ Hl Hr) as (r' & Hr' & S).
  pose proof (wf_id _ (inv_well_formed _ (Hi (reachable_inv _ Hreach)))) as Hnd.
  assert (te_identity_retired_at r' ≠ "") as Hret' by (by rewrite (rs_retired _ _ S Hret)).
  pose proof (rs_id _ _ S) as Hid. split_and!.
  - intros. by apply (retired_reexecute_refused _ r').
  - intros. unfold ConfirmExecution, refused, bindM at 1, fail_if at 1.
    destruct (_ || _); [by eexists|]. by apply (retired_projection_refused _ r').
  - intros. by apply (retired_projection_refused _ r').
Qed.

(** ** Claims *)

(** A claimed task is fenced: when [persistExecutionAuthorization] grants a
    permission, claims are not paused, the session is current, no execution has
    the same task attempt, and, configuration recoveries apart, the Agent has no
    live permission; the grant adds exactly one offered execution with a
    five-minute lease. *)
Theorem authorization_is_fenced a s i task rd n st st' auth :
  persistExecutionAuthorization a s i task rd n st = (st', Ok auth) →
  executionClaimsPaused st = false ∧ sessions st !! a = Some s ∧
  (∀ r, r ∈ executions st → te_task_id r = at_id task → te_attempt r ≠ at_attempt task) ∧
  (recovery_kind (at_kind task) = false →
   ∀ r, r ∈ executions st → te_agent_id r = a → live r = false) ∧
  executions st' = executions st ++ [offered_execution a s i task n] ∧
  te_expires_at (offered_execution a s i task n) = rfc3339nano (n + 5 * minute).
Proof.
  intros H. destruct (persist_wp _ _ _ _ _ _ _ _ _ H) as (-> & [[Hid Hat _ Hf] Hs Hp Ha] & ->).
  split; [done|]. split_and!; try done.
  - unfold session_current in Hs. destruct (sessions st !! a); [|done]. bool_prop. by subst.
  - intros r Hr Ht E. apply (Hat r Hr). unfold attempt_key. simpl. congruence.
  - intros Hk. by apply Hf.
Qed.

(** While claims are paused, and whenever the stored control is not exactly
    an unpaused one, no claim is admitted and no permission granted. *)
Theorem paused_claims_are_refused a s i task reads rd n st raw :
  claim_control st = Some raw → control_type_false raw = false →
  refused (executionClaimAllowed a s reads n) st ∧
  refused (persistExecutionAuthorization a s i task rd n) st.
Proof.
  intros Hc Ht. assert (executionClaimsPaused st = true) as Hp
    by (unfold executionClaimsPaused; by rewrite Hc, Ht).
  split.
  - unfold refused, executionClaimAllowed, bindM at 1, transaction, bindM at 1, query at 1.
    rewrite Hp. by eexists.
  - apply refused_intro; [apply persist_unchanged|]. intros st' x E.
    destruct (persist_wp _ _ _ _ _ _ _ _ _ E) as (_ & [_ _ Hf _] & _). congruence.
Qed.

(** The claim control is read back as it was set: an administrator's setting
    is the one both readers of the control see, and anybody else is refused. *)
Theorem claim_control_round_trip ad paused n st :
  (ad ∈ admins st →
   ∃ st', SetExecutionClaimControl ad paused n st = (st', Ok tt) ∧
     readExecutionClaimControl st' = Ok (mk_control paused ad (rfc3339nano n)) ∧
     executionClaimsPaused st' = paused ∧
     claim_control_events st' = claim_control_events st ++ [mk_control_event paused ad (rfc3339nano n)]) ∧
  (ad ∉ admins st → refused (SetExecutionClaimControl ad paused n) st).
Proof.
  unfold SetExecutionClaimControl, refused, transaction, bindM, query, fail_if, is_admin.
  split; intros Had.
  - rewrite bool_decide_eq_true_2 by done. eexists. split; [reflexivity|].
    unfold readExecutionClaimControl, executionClaimsPaused, control_read. simpl.
    rewrite control_decode_encode, control_paused_raw_encode, control_type_false_encode, negb_involutive.
    simpl. by destruct paused.
  - rewrite bool_decide_eq_false_2 by done. by eexists.
Qed.

(** The rollout releases only its own pause: the control changes exactly when
    it is a valid paused one owned by a migration, and then claims resume. *)
Theorem release_pause_contract n st :
  (∀ c, claim_control st = Some (control_encode c) → cc_paused c = true → migration_owned c = true →
   ∃ st', releaseMigrationExecutionPause n st = (st', Ok tt) ∧ executionClaimsPaused st' = false) ∧
  ((∀ raw c, claim_control st = Some raw → control_read raw = Ok c →
      cc_paused c = false ∨ migration_owned c = false) →
   fst (releaseMigrationExecutionPause n st) = st).
Proof.
  unfold releaseMigrationExecutionPause, transaction, bindM, query, lift. split.
  - intros c Hc Hp Hm. rewrite Hc. unfold control_read.
    rewrite control_decode_encode, control_paused_raw_encode, Hp. simpl. rewrite Hp, Hm. simpl.
    rewrite bool_decide_eq_true_2 by done. eexists. split; [reflexivity|].
    unfold executionClaimsPaused. simpl. by rewrite control_type_false_encode.
  - intros H. destruct (claim_control st) as [raw|] eqn:Hc; [|done].
    destruct (control_read raw) as [c|] eqn:Hr; [|done].
    destruct (H raw c eq_refl Hr) as [->| ->]; [done|]. by rewrite orb_true_r.
Qed.

(** ** Leases *)
Lemma unexpired_late e n :
  representable e → representable n → e + second <= n → unexpired (rfc3339nano e) n = false.
Proof.
  intros He Hn Hlt. apply not_true_iff_false. intros H. unfold unexpired in H.
  apply rfc3339nano_lt_inv in H; [|done..]. apply second_div_lt in Hlt. lia.
Qed.

Lemma unexpired_early e n :
  representable e → representable n → n + second <= e → unexpired (rfc3339nano e) n = true.
Proof. intros He Hn Hlt. apply rfc3339nano_lt; [done..|by apply second_div_lt]. Qed.

(** The guard of an operation that names an execution and tests its lease. *)
Lemma guarded_lapsed wh f err st r n :
  NoDup (map te_id (executions st)) → r ∈ executions st → unexpired (te_expires_at r) n = false →
  (∀ x, wh st x = true → te_id x = te_id r ∧ unexpired (te_expires_at x) n = true) →
  refused (guarded wh f err) st.
Proof.
  intros Hnd Hr Hu Hw. exists err. apply guarded_refused. intros x Hx. apply not_true_iff_false.
  intros [Hid Hux]%Hw. rewrite (nodup_key_eq te_id (executions st) x r) in Hux; congruence.
Qed.

Ltac lapsed_refused :=
  eapply guarded_lapsed; [eassumption..|]; intros ? ?; bool_prop; by split.

(** A lease is enforced: from one second after its expiry on, an execution
    cannot be started, stepped or renewed, cannot deliver a result, and a received
    result cannot be finalised; nothing changes. *)
Theorem lapsed_permission_is_refused st r e n a s :
  reachable st → r ∈ executions st → te_expires_at r = rfc3339nano e →
  representable e → representable n → e + second <= n →
  (∀ d t n', refused (StartExecution a s (te_id r) d n t n') st) ∧
  (∀ p, refused (CheckExecutionStep a s (te_id r) p n) st) ∧
  refused (RenewExecution a s (te_id r) n) st ∧
  (∀ x b u m g h, refused (StoreExecutionResult a s (te_id r) x b u m g h n) st) ∧
  (∀ d, refused (finalizeExecution a s (te_id r) d n) st).
Proof.
  intros Hreach Hr He Hre Hrn Hlt.
  pose proof (wf_id _ (inv_well_formed _ (reachable_inv _ Hreach))) as Hnd.
  assert (unexpired (te_expires_at r) n = false) as Hu by (rewrite He; by apply unexpired_late).
  split_and!.
  - intros d t n'. unfold refused, StartExecution, bindM at 1.
    match goal with |- context [guarded ?w ?f ?x st] =>
      assert (refused (guarded w f x) st) as [x' ->]; [lapsed_refused|by eexists] end.
  - intros p. unfold CheckExecutionStep. case_match; [by eexists|]. lapsed_refused.
  - unfold RenewExecution. lapsed_refused.
  - intros x b u m g h. unfold StoreExecutionResult. case_match; [by eexists|]. cbv zeta.
    lapsed_refused.
  - intros d. unfold finalizeExecution, refused, bindM at 1, query at 1.
    repeat (case_match; [|by eexists]). cbv zeta. lapsed_refused.
Qed.

(** A lease is usable: a running execution of the current session that has
    not delivered its result can be renewed up to one second before its expiry,
    and then holds a lease of five minutes from the renewal. *)
Theorem running_lease_is_renewed st r e n :
  reachable st → r ∈ executions st → te_state r = Running → te_phase r ≠ "result_received" →
  te_disposition r = "" → sessions st !! te_agent_id r = Some (te_session_id r) →
  te_expires_at r = rfc3339nano e → representable e → representable n → n + second <= e →
  ∃ st' r', RenewExecution (te_agent_id r) (te_session_id r) (te_id r) n st = (st', Ok tt) ∧
    r' ∈ executions st' ∧ te_id r' = te_id r ∧ te_expires_at r' = rfc3339nano (n + 5 * minute).
Proof.
  intros Hreach Hr Hs Hp Hd Hses He Hre Hrn Hlt.
  pose proof (wf_id _ (inv_well_formed _ (reachable_inv _ Hreach))) as Hnd.
  unfold RenewExecution.
  match goal with |- context [guarded ?w ?f _] => assert (w st r = true) as Hw end.
  { cbv beta. apply String.eqb_neq in Hp. unfold session_current.
    rewrite Hs, Hp, Hd, Hses, !String.eqb_refl, He, unexpired_early by done. done. }
  rewrite (guarded_authorized _ _ _ _ r Hnd Hr Hw) by (intros; bool_prop; congruence).
  eexists _, _. split; [reflexivity|]. split.
  - apply (update_executions_row _ _ _ _ Hr).
  - cbv beta. cbv beta in Hw. rewrite Hw. done.
Qed.

End Contracts.

(** The lease test is made on texts, and RFC 3339 texts with trimmed
    fractions are not in chronological order within one second: an expired lease
    still passes the test. *)
Theorem lease_text_order_is_not_chronological :
  ∃ e n, representable e ∧ representable n ∧ e < n ∧ unexpired (rfc3339nano e) n = true.
Proof.
  exists (1767225600 * second + 100000000), (1767225600 * second + 100000001).
  unfold representable, second. split_and!; try lia; vm_compute; reflexivity.
Qed.

(** ** Witnesses *)
Lemma register_session_contract_witness :
  RegisterExecutionSession "agent-1" "credential" sample_session2 2 (sample_time + 4 * second)
    Run.running = (Run.replaced, Ok tt) ∧
  sessions Run.replaced = <["agent-1" := sample_session2]> (sessions Run.running).
Proof.
  assert (RegisterExecutionSession "agent-1" "credential" sample_session2 2 (sample_time + 4 * second)
    Run.running = (Run.replaced, Ok tt)) as H by (vm_compute; reflexivity).
  split; [exact H|].
  assert (sessions Run.running !! "agent-1" ≠ Some sample_session2) as Hne by (vm_compute; discriminate).
  destruct (register_session_contract "agent-1" "credential" sample_session2 2
              (sample_time + 4 * second) Run.running Run.replaced H Hne) as (_ & _ & Hs & _).
  exact Hs.
Defined.

Lemma retire_identity_contract_witness :
  unresolved (Run.row Run.running) = true ∧
  ∃ st', retireAgentExecutionIdentity "agent-1" (rfc3339nano sample_time) Run.running = (st', Ok tt) ∧
    sessions st' = delete "agent-1" (sessions Run.running).
Proof.
  split; [vm_compute; reflexivity|].
  destruct (retire_identity_contract "agent-1" sample_time Run.running Run.reach_running)
    as (st' & H1 & H2 & _).
  exists st'. exact (conj H1 H2).
Defined.

Lemma retired_execution_is_not_replayed_witness :
  te_identity_retired_at (Run.row Run.retired) ≠ "" ∧
  refused (ReexecuteExecution (te_id (Run.row Run.retired)) "admin-1"
             (mk_disposition "reexecute" true "verified") false sample_time) Run.retired.
Proof.
  assert (te_identity_retired_at (Run.row Run.retired) ≠ "") as Hr by (vm_compute; discriminate).
  assert (executions Run.retired ≠ []) as Hne by (vm_compute; discriminate).
  split; [exact Hr|].
  destruct (retired_execution_is_not_replayed Run.retired Run.retired (Run.row Run.retired)
              Run.reach_retired (rtc_refl _ _) (Run.row_in _ Hne) Hr) as (H & _).
  exact (H "admin-1" (mk_disposition "reexecute" true "verified") false sample_time).
Defined.

Lemma authorization_is_fenced_witness :
  persistExecutionAuthorization "agent-1" sample_session "execution-1" sample_task sample_reads
    (sample_time + second) Run.registered =
    (Run.offered, Ok (mk_authorization "execution-1" 2 Run.digest)) ∧
  sessions Run.registered !! "agent-1" = Some sample_session.
Proof.
  assert (persistExecutionAuthorization "agent-1" sample_session "execution-1" sample_task sample_reads
    (sample_time + second) Run.registered =
    (Run.offered, Ok (mk_authorization "execution-1" 2 Run.digest))) as H by (vm_compute; reflexivity).
  split; [exact H|].
  destruct (authorization_is_fenced "agent-1" sample_session "execution-1" sample_task sample_reads
              (sample_time + second) Run.registered Run.offered _ H) as (_ & Hs & _).
  exact Hs.
Defined.

Lemma paused_claims_are_refused_witness :
  executionClaimsPaused Run.paused = true ∧
  refused (persistExecutionAuthorization "agent-1" sample_session "execution-1" sample_task
             sample_reads (sample_time + 5 * second)) Run.paused.
Proof.
  split; [vm_compute; reflexivity|].
  assert (claim_control Run.paused =
    Some (control_encode (mk_control true "admin-1" (rfc3339nano (sample_time + 4 * second))))) as Hc
    by (vm_compute; reflexivity).
  assert (control_type_false
    (control_encode (mk_control true "admin-1" (rfc3339nano (sample_time + 4 * second)))) = false) as Ht
    by (vm_compute; reflexivity).
  destruct (paused_claims_are_refused "agent-1" sample_session "execution-1" sample_task
              (mk_reinstall_reads (Err "") (Ok tt) (Ok tt) (Ok tt) (Ok tt)) sample_reads
              (sample_time + 5 * second) Run.paused _ Hc Ht) as (_ & H).
  exact H.
Defined.

Lemma lapsed_permission_is_refused_witness :
  te_expires_at (Run.row Run.offered) = rfc3339nano (sample_time + second + 5 * minute) ∧
  refused (RenewExecution "agent-1" sample_session (te_id (Run.row Run.offered))
             (sample_time + second + 6 * minute)) Run.offered.
Proof.
  assert (representable (sample_time + second + 5 * minute)) as He1
    by (vm_compute; split; congruence).
  assert (representable (sample_time + second + 6 * minute)) as He2
    by (vm_compute; split; congruence).
  assert (sample_time + second + 5 * minute + second <= sample_time + second + 6 * minute) as He3
    by (unfold minute, second; lia).
  assert (te_expires_at (Run.row Run.offered) = rfc3339nano (sample_time + second + 5 * minute)) as He
    by (vm_compute; reflexivity).
  assert (executions Run.offered ≠ []) as Hne by (vm_compute; discriminate).
  split; [exact He|].
  destruct (lapsed_permission_is_refused Run.offered (Run.row Run.offered)
              (sample_time + second + 5 * minute) (sample_time + second + 6 * minute) "agent-1"
              sample_session Run.reach_offered (Run.row_in _ Hne) He He1 He2 He3) as (_ & _ & H & _).
  exact H.
Defined.

Lemma running_lease_is_renewed_witness :
  te_state (Run.row Run.running) = Running ∧
  ∃ st' r', RenewExecution (te_agent_id (Run.row Run.running)) (te_session_id (Run.row Run.running))
      (te_id (Run.row Run.running)) (sample_time + 3 * second) Run.running = (st', Ok tt) ∧
    r' ∈ executions st' ∧ te_id r' = te_id (Run.row Run.running) ∧
    te_expires_at r' = rfc3339nano (sample_time + 3 * second + 5 * minute).
Proof.
  split; [vm_compute; reflexivity|].
  apply (running_lease_is_renewed Run.running (Run.row Run.running)
           (sample_time + 2 * second + 5 * minute) (sample_time + 3 * second)).
  - exact Run.reach_running.
  - apply Run.row_in. vm_compute. discriminate.
  - vm_compute; reflexivity.
  - vm_compute; discriminate.
  - vm_compute; reflexivity.
  - vm_compute; reflexivity.
  - vm_compute; reflexivity.
  - vm_compute; split; congruence.
  - vm_compute; split; congruence.
  - unfold minute, second; lia.
Defined.
