(* ===== verification/Results.v ===== *)
(** * Results and their projection

    What becomes of a delivered result: it is sealed under the identifier of its
    execution, finalised to the state it states, and committed together with the
    business projection or not at all. *)
From S2P Require Import Prelude GoText GoTime TaskIds Store Hoare Execution Guards Claims Handoff.
From S2P Require Import Disposition Confirmation Workflows Updates Legacy Leases Lifecycle Evolution.
From S2P Require Import Protocol Samples Traces Safety Contracts.

Section Results.
Context {L : Libraries} {C : ControlCodec} {RC : ReceiptCodec}.

Lemma evolves_run {A} (m : M A) st st' o : Evolves m → m st = (st', o) → evolve st st'.
Proof. intros H E. specialize (H st). by rewrite E in H. Qed.

(** The row that holds a delivered result. *)
Definition holds_result (i x : string) (b u : bool) (g : option Z) (r : task_execution) : Prop :=
  te_id r = i ∧ te_sealed_result r = seal ("execution-result:" +:+ i) (evidence_json (mk_evidence x b u g)).

Lemma store_result_ok a s i x b u e g h n st st' :
  StoreExecutionResult a s i x b u e g h n st = (st', Ok tt) →
  json_valid x = true ∧
  ∃ r r', r ∈ executions st ∧ r' ∈ executions st' ∧ te_id r = i ∧ holds_result i x b u g r' ∧
    te_phase r' = "result_received" ∧ te_state r' = te_state r ∧
    (te_state r = Running ∨ te_state r = HelperRunning).
Proof.
  unfold StoreExecutionResult. destruct (negb (json_valid x) || _) eqn:E; [discriminate|].
  intros (r & Hr & Hw & Hr')%guarded_effect. apply orb_false_elim in E as [E _]. bool_prop.
  split; [done|]. eexists r, _. split; [done|]. split; [exact Hr'|].
  unfold holds_result. simpl. split_and!; try done.
  match goal with H : (negb h && _ || _)%bool = true |- _ => apply orb_prop in H as [H|H] end;
    bool_prop; unfold state_eqb in *; bool_prop; auto.
Qed.

(** Finalisation gives the row the state its evidence states. *)
Lemma finalize_ok a s i d n x b u g st st' r :
  NoDup (map te_id (executions st)) → r ∈ executions st → holds_result i x b u g r →
  json_valid x = true → finalizeExecution a s i d n st = (st', Ok tt) →
  ∃ task r', r' ∈ executions st' ∧ te_id r' = i ∧ te_state r' = evidence_state b u ∧
    te_phase r' = "reported" ∧ te_sealed_result r' = te_sealed_result r ∧
    te_sealed_task r' = te_sealed_task r ∧
    unseal ("execution-task:" +:+ i) (te_sealed_task r) ≫= task_of_json = Some task ∧
    te_disposition r' =
      if state_eqb (evidence_state b u) Failed && executionFailureCanReleaseFence task
      then "read-only-failure" else "".
Proof.
  intros Hnd Hr [Hid Hsealed] Hx. revert st'. unfold finalizeExecution.
  match goal with |- ∀ st', ?m st = (st', Ok tt) → _ =>
    cut (wp m st (λ st' _, ∃ task r', r' ∈ executions st' ∧ te_id r' = i ∧
      te_state r' = evidence_state b u ∧ te_phase r' = "reported" ∧
      te_sealed_result r' = te_sealed_result r ∧ te_sealed_task r' = te_sealed_task r ∧
      unseal ("execution-task:" +:+ i) (te_sealed_task r) ≫= task_of_json = Some task ∧
      te_disposition r' =
        if state_eqb (evidence_state b u) Failed && executionFailureCanReleaseFence task
        then "read-only-failure" else "")); [eauto|] end.
  wp_step. destruct (sql_row _ _) as [r0|] eqn:E0; [|wp_step].
  apply sql_row_spec in E0 as [Hr0 Hw0].
  assert (r0 = r) as -> by (apply (nodup_key_eq te_id (executions st)); bool_prop; congruence).
  rewrite Hsealed, unseal_seal.
  destruct (evidence_of_evidence_json (mk_evidence x b u g)) as (x' & _ & ->); [done|].
  cbn [evd_succeeded evd_unknown]. cbv zeta.
  destruct (unseal _ (te_sealed_task r) ≫= task_of_json) as [task|] eqn:Et; [|wp_step].
  intros st' [] (r1 & Hr1 & Hw1 & Hr')%guarded_effect. 
  assert (r1 = r) as -> by (apply (nodup_key_eq te_id (executions st)); bool_prop; congruence).
  eexists task, _. split; [exact Hr'|]. simpl. split_and!; done.
Qed.

(** C10 -- A result is final as it was delivered: when an execution delivered a
    result and it is later finalised, whatever happened in between, the execution
    ends in the state the result states ([unknown] when the outcome is uncertain,
    else success or failure), its evidence is the delivered one, and the fence is
    released at once only for the failure of a read-only operation. *)
Theorem delivered_result_is_final st st1 st2 st3 a s i x b u e g h n a' s' d n' :
  reachable st → StoreExecutionResult a s i x b u e g h n st = (st1, Ok tt) → rtc step st1 st2 →
  finalizeExecution a' s' i d n' st2 = (st3, Ok tt) →
  ∃ task r, r ∈ executions st3 ∧ te_id r = i ∧ te_state r = evidence_state b u ∧
    te_sealed_result r =
      seal ("execution-result:" +:+ i) (evidence_json (mk_evidence x b u g)) ∧
    unseal ("execution-task:" +:+ i) (te_sealed_task r) ≫= task_of_json = Some task ∧
    (te_disposition r ≠ "" → evidence_state b u = Failed ∧ executionFailureCanReleaseFence task = true).
Proof.
  intros Hreach Hstore Hs Hfin.
  assert (rtc step st st1) as Hs1.
  { apply rtc_once. replace st1 with (fst (StoreExecutionResult a s i x b u e g h n st))
      by (by rewrite Hstore). apply step_operation, op_store. }
  pose proof (reachable_steps _ _ Hreach Hs1) as Hreach1.
  destruct (store_result_ok _ _ _ _ _ _ _ _ _ _ _ _ Hstore)
    as (Hx & r & r1 & Hr & Hr1 & Hid & [Hid1 Hseal] & Hph & Hst & Hor).
  destruct (steps_preserve _ _ Hs) as [Hl Hi].
  destruct (later_row _ _ _ Hl Hr1) as (r2 & Hr2 & S).
  destruct (rs_settled _ _ S) as [Hsealed _].
  { left. split; [done|]. rewrite Hst. by destruct Hor as [-> | ->]. }
  pose proof (wf_id _ (inv_well_formed _ (Hi (reachable_inv _ Hreach1)))) as Hnd.
  assert (holds_result i x b u g r2) as Hres by (split; [rewrite (rs_id _ _ S)|]; congruence).
  destruct (finalize_ok _ _ _ _ _ _ _ _ _ _ _ _ Hnd Hr2 Hres Hx Hfin)
    as (task & r3 & Hr3 & Hid3 & Hst3 & _ & Hsr & Hstask & Htask & Hdisp).
  exists task, r3. split_and!; try done; [by rewrite Hsr; apply Hres|by rewrite Hstask|].
  intros Hne. destruct (_ && _)%bool eqn:Ec in Hdisp; [|done]. bool_prop.
  unfold state_eqb in *. by bool_prop.
Qed.

Lemma store_result_unchanged a s i x b u e g h n st :
  NoDup (map te_id (executions st)) → unchanged (StoreExecutionResult a s i x b u e g h n) st.
Proof.
  intros Hnd. unfold StoreExecutionResult. case_match; [unchanged_step|]. cbv zeta.
  eapply (guarded_unchanged _ _ _ _ i); [done|]. intros r Hw. by bool_prop.
Qed.

Lemma store_result_tasks a s i x b u e g h n st st' :
  StoreExecutionResult a s i x b u e g h n st = (st', Ok tt) →
  tasks st' = tasks st ∧ applications st' = applications st.
Proof.
  unfold StoreExecutionResult. case_match; [discriminate|]. intros (-> & _)%guarded_ok. split; reflexivity.
Qed.

Lemma finalize_tasks a s i d n st st' :
  finalizeExecution a s i d n st = (st', Ok tt) → tasks st' = tasks st ∧ applications st' = applications st.
Proof.
  revert st'. cut (wp (finalizeExecution a s i d n) st
    (λ st' _, tasks st' = tasks st ∧ applications st' = applications st)).
  { intros H st' E. exact (H _ _ E). }
  unfold finalizeExecution. wp_step. repeat wp_step.
  intros st' [] (-> & _)%guarded_ok. split; reflexivity.
Qed.

(** The transaction of a completion, after the result was received. *)
Lemma committed_result project a a' s s' i x b u e g h n d f st st1 st3 :
  business_op project → NoDup (map te_id (executions st1)) →
  StoreExecutionResult a s i x b u e g h n st = (st1, Ok tt) →
  transaction (project ;;; commit_projection a' s' i b d f) st1 = (st3, Ok tt) →
  ∃ st2 r, project st1 = (st2, Ok tt) ∧ validateExecutionProjection i b st2 = Ok tt ∧
    (tasks st3 = tasks st2 ∧ applications st3 = applications st2) ∧
    r ∈ executions st3 ∧ te_id r = i ∧ te_state r = evidence_state b u.
Proof.
  intros Hproj Hnd1 Hst E.
  destruct (store_result_ok _ _ _ _ _ _ _ _ _ _ _ _ Hst)
    as (Hx & r & r1 & Hr & Hr1 & Hid & Hres & Hph & Hs & Hor).
  unfold transaction, bindM at 1 in E.
  destruct (project st1) as [st2 [[]|]] eqn:Ep; [|discriminate].
  unfold commit_projection, bindM at 1 in E.
  destruct (validateExecutionProjection _ _ st2) as [[]|] eqn:Ev; [|discriminate].
  destruct (finalizeExecution _ _ _ _ _ st2) as [st4 [[]|]] eqn:Hfin; [|discriminate].
  injection E as ->. destruct (Hproj st1) as (Hpe & _). rewrite Ep in Hpe. simpl in Hpe.
  rewrite <- Hpe in Hnd1, Hr1.
  destruct (finalize_ok _ _ _ _ _ _ _ _ _ _ _ _ Hnd1 Hr1 Hres Hx Hfin)
    as (task & r3 & Hr3 & Hid3 & Hst3 & _).
  exists st2, r3. pose proof (finalize_tasks _ _ _ _ _ _ _ Hfin). done.
Qed.


End Results.

(** ** Witnesses *)
Lemma delivered_result_is_final_witness :
  Run.store Run.running = (Run.received, Ok tt) ∧
  ∃ task r, r ∈ executions Run.finalized ∧ te_id r = "execution-1" ∧ te_state r = Succeeded ∧
    execution_task r = Some task.
Proof.
  assert (Run.store Run.running = (Run.received, Ok tt)) as H1 by (vm_compute; reflexivity).
  assert (finalizeExecution "agent-1" sample_session "execution-1" (sample_time + 4 * second)
            (sample_time + 4 * second) Run.received = (Run.finalized, Ok tt)) as H2
    by (vm_compute; reflexivity).
  split; [exact H1|].
  destruct (delivered_result_is_final Run.running Run.received Run.received Run.finalized "agent-1"
              sample_session "execution-1" "{}" true false "" None false (sample_time + 3 * second)
              "agent-1" sample_session (sample_time + 4 * second) (sample_time + 4 * second)
              Run.reach_running H1 (rtc_refl _ _) H2) as (task & r & Hr & Hi & Hs & _ & Ht & _).
  exists task, r. split; [exact Hr|]. split; [exact Hi|]. split; [exact Hs|].
  unfold execution_task. rewrite Hi. exact Ht.
Defined.


(** The cleanup of publications fails after the commit: the Agent is told that its result
    could not be finalised, and the result is committed. *)
Example failed_follow_up_keeps_the_result :
  let complete := CompleteTask "agent-1" "application-command-1"
    (mk_task_result "execution-1" sample_session false 1 true "" "{}" false None) Run.projected
    (fail "center: record publication cleanup state")
    (sample_time + 4 * second) (sample_time + 4 * second) (sample_time + 4 * second) in
  complete Run.running = (Run.finished, Err "center: record publication cleanup state").
Proof. vm_compute. reflexivity. Qed.
