(* ===== verification/Decisions.v ===== *)
(** * Operator decisions

    A decision on an unresolved execution needs an administrator, a stopped
    execution and a note, touches that execution and its exact business attempt
    only, and fails without any change.  A confirmation needs retained evidence of
    success. *)
From S2P Require Import Prelude GoText Redact GoTime TaskIds Store Hoare Execution Guards Claims Handoff.
From S2P Require Import Disposition Confirmation Workflows Updates Legacy Leases Lifecycle Evolution.
From S2P Require Import Protocol Samples Traces Safety Contracts Results.

(** ** Business statements are bound to one attempt *)

(** The identity of a business row. *)
Definition row_identity (t : task_row) : business_table * string * string * Z * Z :=
  (tr_table t, tr_id t, tr_agent_id t, tr_revision t, tr_attempt t).

(** How a table names the row of a task: by the identifier, by the revision of the
    node's desired state, or by the node alone. *)
Inductive naming := ById | ByRevision | ByAgent.
#[global] Instance naming_eq_dec : EqDecision naming.
Proof. solve_decision. Defined.

(** The table of every kind of task. *)
Definition business_home : list (string * (business_table * naming)) :=
  [("node.os-reinstall", (os_reinstall_tasks, ById)); ("tailscale.update", (tailscale_update_tasks, ById));
   ("node.site.certificate", (node_site_tasks, ById)); ("node.security", (node_security_tasks, ById));
   ("node.ip-quality", (ip_quality_checks, ById)); ("node.network-quality", (node_diagnostic_checks, ById));
   ("node.return-route", (node_diagnostic_checks, ById)); ("node.international-bandwidth", (node_diagnostic_checks, ById));
   ("node.host-profile", (node_diagnostic_checks, ById)); ("meridian.link-bandwidth", (node_diagnostic_checks, ById));
   ("meridian.link-bandwidth-server", (node_diagnostic_checks, ById));
   ("xray.configuration.inspect", (xray_configuration_recoveries, ById));
   ("xray.configuration.apply", (xray_configuration_recoveries, ById));
   ("application.apply", (deployments, ById)); ("application.adopt", (application_adoptions, ById));
   ("application.maintenance", (application_maintenance, ById)); ("application.command", (application_commands, ById));
   ("agent.update", (agent_updates, ById)); ("agent.decommission", (agent_decommissions, ByAgent));
   ("landing.proxy.apply", (landing_proxy_states, ByRevision)); ("landing.server.apply", (landing_server_states, ByRevision));
   ("gateway.routes.apply", (gateway_states, ByRevision)); ("gateway.component.apply", (gateway_components, ByRevision));
   ("node.listener.apply", (node_listener_states, ByRevision)); ("tunnel.state.apply", (cloudflare_tunnels, ByRevision))].

(** The business row of an attempt: its table, its node, its identifier or revision, and
    its attempt number. *)
Definition names (task : AgentTask) (agentID : string) (t : task_row) : Prop :=
  ∃ naming, (at_kind task, (tr_table t, naming)) ∈ business_home ∧ tr_agent_id t = agentID ∧ tr_attempt t = at_attempt task ∧
    match naming with
    | ById => tr_id t = at_id task
    | ByRevision => tr_revision t = at_revision task
    | ByAgent => True
    end.

(** A statement that only touches the rows [P] and keeps identities. *)
Record exact_statement (P : task_row → Prop) (s : statement) : Prop := mk_exact {
  ex_where : ∀ st t, sm_where s st t = true → P t;
  ex_set : ∀ t, row_identity (sm_set s t) = row_identity t
}.

Ltac home_tac :=
  match goal with
  | K : at_kind ?task = _, T : tr_table ?t = _ |- names ?task _ ?t =>
      unfold names; rewrite K, T;
      first [exists ById; split; [apply (bool_decide_unpack _); vm_compute; exact I|done]
            |exists ByRevision; split; [apply (bool_decide_unpack _); vm_compute; exact I|done]
            |exists ByAgent; split; [apply (bool_decide_unpack _); vm_compute; exact I|done]]
  end.

Ltac exact_tac :=
  repeat case_match; intros; simplify_eq; split; simpl;
  unfold clear_reconciliation, clear_required, task_statement, status_statement, by_id, by_revision,
    is_decommission_row, is_update_row, diagnostic_kinds, status_table in *; simpl in *; intros;
  repeat case_match; simplify_eq; bool_prop; try done;
  repeat match goal with K : context [at_kind _ =?s _] |- _ => apply orb_true_iff in K as [K|K]; [apply String.eqb_eq in K|] end;
  bool_prop; try done; home_tac.

Lemma abandon_statement_exact task a now s :
  executionAbandonStatement task a now = Ok s → exact_statement (names task a) s.
Proof. unfold executionAbandonStatement. cbv zeta. exact_tac. Qed.

Lemma requeue_statement_exact task a now s :
  executionRequeueStatement task a now = Ok s → exact_statement (names task a) s.
Proof. unfold executionRequeueStatement. cbv zeta. exact_tac. Qed.

Lemma reinstall_statement_exact task a now s :
  reinstallAbandonStatement task a now = Ok s → exact_statement (names task a) s.
Proof.
  unfold reinstallAbandonStatement. do 2 (case_match; [exact_tac|]). apply abandon_statement_exact.
Qed.

Lemma confirmation_statement_exact task a s :
  executionConfirmationStatement task a = Ok s → exact_statement (names task a) s.
Proof. unfold executionConfirmationStatement. cbv zeta. exact_tac. Qed.

(** The task table before and after an exact statement. *)
Definition exact_change (P : task_row → Prop) (l l' : list task_row) : Prop :=
  Forall2 (λ t t', row_identity t' = row_identity t ∧ (t' ≠ t → P t)) l l'.

(** The state a decision leaves the attempt in. *)
Definition closing (action kind : string) : string :=
  if action =?s "abandon" then
    if kind =?s "node.os-reinstall" then "cancelled" else if kind =?s "tailscale.update" then "abandoned" else "failed"
  else "pending".

Lemma abandon_statement_closes task a now s t :
  executionAbandonStatement task a now = Ok s →
  tr_state (sm_set s t) = closing "abandon" (at_kind task) ∧ tr_lease_expires_at (sm_set s t) = "".
Proof.
  unfold executionAbandonStatement, closing. cbv zeta. cbn [String.eqb Ascii.eqb Bool.eqb].
  repeat (case_match; try (intros; simplify_eq; done)).
Qed.

Lemma requeue_statement_closes task a now s t :
  executionRequeueStatement task a now = Ok s → tr_state (sm_set s t) = "pending" ∧ tr_lease_expires_at (sm_set s t) = "".
Proof. unfold executionRequeueStatement. cbv zeta. repeat (case_match; try (intros; simplify_eq; done)). Qed.

(** The one row of a successful statement. *)
Lemma affected_one {A} (wh : A → bool) f l : sql_affected wh l = 1 →
  ∃ l1 t l2, l = l1 ++ t :: l2 ∧ wh t = true ∧ sql_update wh f l = l1 ++ f t :: l2.
Proof.
  unfold sql_affected, sql_select. induction l as [|x l IH]; [done|]. cbn [List.filter]. destruct (wh x) eqn:E; cbn [length].
  - intros H. exists [], x, l. split; [done|]. split; [done|]. unfold sql_update. cbn. rewrite E. f_equal.
    apply sql_update_none, sql_affected_0. unfold sql_affected, sql_select. lia.
  - intros H. destruct (IH H) as (l1 & t & l2 & -> & Ht & Hu). exists (x :: l1), t, l2. split; [done|]. split; [done|].
    unfold sql_update in *. cbn. by rewrite E, Hu.
Qed.

(** One row of the table is changed: the attempt of the task, which keeps its identity
    and is closed. *)
Definition resolves (task : AgentTask) (agentID action : string) (l l' : list task_row) : Prop :=
  ∃ l1 t t' l2, l = l1 ++ t :: l2 ∧ l' = l1 ++ t' :: l2 ∧ names task agentID t ∧ row_identity t' = row_identity t ∧
    tr_state t' = closing action (at_kind task) ∧ tr_lease_expires_at t' = "".

(** A command whose row is gone may be abandoned all the same. *)
Definition orphaned (taskID kind action : string) (l l' : list task_row) : Prop :=
  l' = l ∧ action = "abandon" ∧ kind = "application.command" ∧
  ∀ t, t ∈ l → tr_table t = application_commands → tr_id t ≠ taskID.

(** The application of the task, by its row. *)
Definition belongs (table : business_table) (taskID applicationID : string) (l : list task_row) : Prop :=
  ∃ t, t ∈ l ∧ tr_table t = table ∧ tr_id t = taskID ∧ tr_application_id t = applicationID.

(** The rows [P] are changed to [f], the others stay. *)
Definition changed_to {A} (P : A → Prop) (f : A → A) (l l' : list A) : Prop :=
  Forall2 (λ x x', (P x → x' = f x) ∧ (¬ P x → x' = x)) l l'.

(** The tables no decision touches. *)
Definition elsewhere (st : Store) :=
  (agents st, admins st, sessions st, session_history st, claim_control st, claim_control_events st, task_events st,
   reinstall_operations st, update_recoveries st, side_rows st, registry st).

Definition abandoned_site (now : string) (s : node_site_row) : node_site_row :=
  mk_node_site (ns_application_id s) (ns_revision s) "action_required" "Abandoned; inspect recovered website state" now.

Lemma changed_update {A} (P : A → Prop) (wh : A → bool) f l : (∀ x, wh x = true ↔ P x) → changed_to P f l (sql_update wh f l).
Proof.
  intros H. unfold changed_to, sql_update. induction l as [|x l IH]; cbn; constructor; [|done].
  destruct (wh x) eqn:E; (split; [intros Hp|intros Hp]); try done.
  - by apply H in E.
  - apply H in Hp. congruence.
Qed.
Lemma changed_same {A} (P : A → Prop) f (l : list A) : (∀ x, ¬ P x) → changed_to P f l l.
Proof. intros H. unfold changed_to. induction l; constructor; [|done]. split; [intros Hp; by apply H in Hp|done]. Qed.

Section Decisions.
Context {L : Libraries} {C : ControlCodec} {RC : ReceiptCodec}.

(** What the follow-up does to the applications and the websites. *)
Record follows (kind action taskID now : string) (st st' : Store) : Prop := mk_follows {
  fo_applications : changed_to (λ a, kind = "application.apply" ∧ belongs deployments taskID (ap_id a) (tasks st))
    (set_application_status (if action =?s "abandon" then "failed" else "pending") now) (applications st) (applications st');
  fo_sites : changed_to
    (λ s, kind = "node.site.certificate" ∧ action = "abandon" ∧ belongs node_site_tasks taskID (ns_application_id s) (tasks st))
    (abandoned_site now) (node_sites st) (node_sites st')
}.

Lemma belongs_exists table taskID app l :
  existsb (λ t, bool_decide (tr_table t = table) && (tr_id t =?s taskID) && (tr_application_id t =?s app)) l = true ↔
  belongs table taskID app l.
Proof.
  rewrite existsb_exists. unfold belongs. setoid_rewrite list_elem_of_In. split; intros (t & Ht & H); exists t; split; try done.
  - by bool_prop.
  - destruct H as (H1 & H2 & H3). rewrite bool_decide_eq_true_2 by done. by rewrite H2, H3, !String.eqb_refl.
Qed.

Lemma followup_frame k a t n st :
  wp (disposition_followup k a t n) st (λ st' _, executions st' = executions st ∧ tasks st' = tasks st ∧
    execution_events st' = execution_events st ∧ elsewhere st' = elsewhere st ∧ follows k a t n st st').
Proof.
  unfold disposition_followup. apply wp_bind. intros st1 [] E1. intros st2 [] E2.
  destruct ((k =?s "node.site.certificate") && (a =?s "abandon")) eqn:Ek in E1; unfold ok in E1; injection E1 as <-;
    destruct (k =?s "application.apply") eqn:Ea in E2; unfold ok in E2; injection E2 as <-; (split; [done|]; split; [done|];
    split; [done|]; split; [done|]; split; cbn); bool_prop; subst; try discriminate.
  - apply changed_same. by intros x [H _].
  - apply changed_update. intros x. rewrite belongs_exists. naive_solver.
  - apply changed_update. intros x. rewrite belongs_exists. naive_solver.
  - apply changed_same. intros x (H & _). discriminate H.
  - apply changed_same. by intros x [H _].
  - apply changed_same. intros x (-> & -> & _). discriminate Ek.
Qed.

(** The row a decision records. *)
Definition decided (action note actor : string) (n : Z) (r : task_execution) : task_execution :=
  set_updated_at (rfc3339nano n)
    (set_disposition action (SafeError note) actor (rfc3339nano n) r).

Lemma record_disposition_wp i action note actor n st :
  NoDup (map te_id (executions st)) →
  wp (record_disposition i action note actor (rfc3339nano n)) st (λ st' _,
    tasks st' = tasks st ∧ elsewhere st' = elsewhere st ∧ applications st' = applications st ∧ node_sites st' = node_sites st ∧
    (∃ evs, execution_events st' = execution_events st ++ evs ∧ ∀ ev, ev ∈ evs → ev_execution_id ev = i) ∧
    ∃ l1 r l2, executions st = l1 ++ r :: l2 ∧ executions st' = l1 ++ decided action note actor n r :: l2 ∧
      te_id r = i ∧ (te_state r = Failed ∨ te_state r = Unknown) ∧ te_disposition r = "").
Proof.
  intros Hnd. unfold record_disposition. intros st' [] H. unfold guarded, bindM, expect_one, fail_if, ok in H. cbn in H.
  destruct (sql_affected _ _ =? 1) eqn:E1 in H; cbn in H; [|discriminate H]. injection H as <-. apply Z.eqb_eq in E1.
  pose proof (affected_one _ (decided action note actor n) _ E1) as (l1 & r & l2 & Hl & Hw & Hu).
  split; [done|]. split; [done|]. split; [done|]. split; [done|]. split.
  { eexists. split; [reflexivity|]. intros ev Hev. rewrite list_elem_of_In, in_concat in Hev.
    destruct Hev as (evs & (x & <- & _)%in_map_iff & Hev). destruct (_ && _) eqn:E in Hev; [|done].
    apply andb_true_iff in E as [[E _]%andb_true_iff _]. bool_prop. unfold execution_update_audit in Hev.
    destruct (_ || _) in Hev; [|done]. by destruct Hev as [<-|[]]. }
  exists l1, r, l2. split; [done|]. split; [exact Hu|]. rewrite !andb_true_iff in Hw. destruct Hw as [[Hi Hd] Hs]. bool_prop. split; [done|]. split; [|done].
  unfold state_in, state_eqb in Hs. destruct (te_state r); try done; auto.
Qed.

(** What one decision does: it records itself on one execution, closes the business row
    of that attempt (or finds that the command is gone), marks the application or the
    website of the task, and changes nothing else. *)
Record settled_as (r : task_execution) (task : AgentTask) (action note actor : string) (n : Z) (st st' : Store) : Prop :=
  mk_settled_as {
  se_executions : ∃ l1 l2, executions st = l1 ++ r :: l2 ∧ executions st' = l1 ++ decided action note actor n r :: l2;
  se_tasks : resolves task (te_agent_id r) action (tasks st) (tasks st') ∨
             orphaned (te_task_id r) (te_kind r) action (tasks st) (tasks st');
  se_applications : changed_to (λ a, te_kind r = "application.apply" ∧ belongs deployments (te_task_id r) (ap_id a) (tasks st'))
    (set_application_status (if action =?s "abandon" then "failed" else "pending") (rfc3339nano n))
    (applications st) (applications st');
  se_sites : changed_to (λ s, te_kind r = "node.site.certificate" ∧ action = "abandon" ∧
                              belongs node_site_tasks (te_task_id r) (ns_application_id s) (tasks st'))
    (abandoned_site (rfc3339nano n)) (node_sites st) (node_sites st');
  se_events : ∃ evs, execution_events st' = execution_events st ++ evs ∧ ∀ ev, ev ∈ evs → ev_execution_id ev = te_id r;
  se_rest : elsewhere st' = elsewhere st
}.

Lemma statement_resolves action task a n s st :
  (if action =?s "abandon" then executionAbandonStatement task a n else executionRequeueStatement task a n) = Ok s →
  sql_affected (sm_where s st) (tasks st) = 1 →
  resolves task a action (tasks st) (sql_update (sm_where s st) (sm_set s) (tasks st)).
Proof.
  intros Hs H. destruct (affected_one _ (sm_set s) _ H) as (l1 & t & l2 & Hl & Hw & Hu). exists l1, t, (sm_set s t), l2.
  assert (exact_statement (names task a) s) as [H1 H2]
    by (destruct (action =?s "abandon"); [by eapply abandon_statement_exact|by eapply requeue_statement_exact]).
  split; [done|]. split; [done|]. split; [by eapply H1|]. split; [done|].
  destruct (action =?s "abandon") eqn:E; unfold closing; rewrite E; [by apply (abandon_statement_closes task a n)|].
  by apply (requeue_statement_closes task a n).
Qed.

Lemma statement_settles action task a n s st taskID kind :
  (if action =?s "abandon" then executionAbandonStatement task a n else executionRequeueStatement task a n) = Ok s →
  let l' := sql_update (sm_where s st) (sm_set s) (tasks st) in
  negb (sql_affected (sm_where s st) (tasks st) =? 1) &&
    negb ((sql_affected (sm_where s st) (tasks st) =? 0) && (action =?s "abandon") && (kind =?s "application.command") &&
          negb (sql_exists (λ t, bool_decide (tr_table t = application_commands) && (tr_id t =?s taskID)) l')) = false →
  resolves task a action (tasks st) l' ∨ orphaned taskID kind action (tasks st) l'.
Proof.
  intros Hs l' H. destruct (_ =? 1) eqn:E in H; [left; apply Z.eqb_eq in E; by apply (statement_resolves action task a n)|right].
  cbn [negb andb] in H. apply negb_false_iff in H. rewrite !andb_true_iff, negb_true_iff in H.
  destruct H as [[[H0 Ha] Hk] Hm]. bool_prop. pose proof (proj1 (sql_affected_0 _ _) H0) as H1. clear H0.
  assert (l' = tasks st) as El by (apply sql_update_none, H1). rewrite El in *. split_and!; try done.
  intros t Ht Htab Hi. rewrite sql_exists_false in Hm. specialize (Hm t Ht). rewrite Htab, Hi, String.eqb_refl in Hm. done.
Qed.

(** C29 -- A decision is exact: re-execution or abandonment succeeds only for an
    administrator who confirmed that the execution stopped, on an unresolved execution
    whose sealed task is the one the row names.  It records the decision on that
    execution and keeps its state and evidence; it changes one business row, that of the
    task's table with the task's identifier (or revision), node and attempt, which keeps
    its identity and loses its lease, or finds that an abandoned command has no row any
    more; it sets the status of the application a deployment belongs to and of the website
    an abandoned certificate task belongs to; beside the audit event nothing else is
    changed. *)
Theorem decision_is_exact i ad d b n st st' :
  disposeTaskExecution i ad d b n st = (st', Ok tt) →
  NoDup (map te_id (executions st)) →
  ad ∈ admins st ∧ di_execution_stopped d = true ∧
  ∃ r task, te_id r = i ∧ (te_state r = Failed ∨ te_state r = Unknown) ∧ te_disposition r = "" ∧
    execution_task r = Some task ∧ evidence_matches r task = true ∧
    settled_as r task (di_action d) (di_note d) ad n st st'.
Proof.
  intros H Hnd. revert st' H. match goal with |- ∀ st', _ → @?Q st' =>
    cut (wp (disposeTaskExecution i ad d b n) st (λ st' _, Q st')); [intros Hw st' E; exact (Hw _ _ E)|] end.
  unfold disposeTaskExecution. do 5 wp_step. destruct (sql_row _ _) as [r|] eqn:Er; [|wp_step].
  apply sql_row_spec in Er as [Hr Hid]. do 3 wp_step.
  destruct (unseal _ (te_sealed_task r)) as [raw|] eqn:Eu; [|wp_step].
  destruct (task_of_json raw) as [task|] eqn:Et; [|wp_step]. wp_step. cbv zeta. wp_step.
  apply wp_bind. intros st1 k E1. do 2 wp_step. apply wp_bind.
  eapply wp_mono; [apply followup_frame|]. intros st2 [] (Hex & Hta & Hee & Hel & [Hfa Hfs]).
  unfold run_statement, update_tasks in E1. injection E1 as <- <-. cbn in Hex, Hta.
  eapply wp_mono; [apply record_disposition_wp; by rewrite Hex|].
  intros st3 [] (Ht3 & Hel3 & Ha3 & Hn3 & Hev3 & l1 & r3 & l2 & Hl & Hl' & Hi3 & Hs3 & Hd3).
  rewrite Hex in Hl. bool_prop.
  assert (r3 = r) as -> by (apply (nodup_key_eq te_id (executions st)); [done|rewrite Hl; set_solver|done|congruence]).
  split; [unfold is_admin in *; by bool_prop|]. split; [done|]. exists r, task.
  assert (evidence_matches r task = true) as Hev by done.
  split_and!; try done; [unfold execution_task; by rewrite Hid, Eu|].
  split.
  - exists l1, l2. by rewrite Hl, Hl'.
  - rewrite Ht3, Hta. by eapply statement_settles.
  - rewrite Ha3, Ht3, Hta. exact Hfa.
  - rewrite Hn3, Ht3, Hta. exact Hfs.
  - destruct Hev3 as (evs & Hev3 & Hall). exists evs. rewrite Hev3, Hee. by rewrite Hid.
  - rewrite Hel3, Hel. done.
Qed.

(** A refused decision changes nothing: when re-execution, abandonment, a
    helper decision, a confirmation or the retirement of an archived receipt fails,
    the database is as before. *)
Theorem failed_decision_changes_nothing i ad d b n n' project st :
  unchanged (ReexecuteExecution i ad d b n) st ∧ unchanged (AbandonExecution i ad d b n) st ∧
  unchanged (DisposeHelperExecution i ad d n' n) st ∧ unchanged (ConfirmExecution i ad d project n) st ∧
  unchanged (AbandonLegacyReceipt i ad d n) st.
Proof.
  unfold ReexecuteExecution, AbandonExecution, disposeTaskExecution, DisposeHelperExecution,
    ConfirmExecution, projectRetainedExecutionResult, AbandonLegacyReceipt.
  split_and!; repeat unchanged_step.
Qed.

(** Success is confirmed from retained evidence only: when a confirmation
    succeeds, the execution was unresolved and not of a retired machine, its sealed
    task is the one it names, its sealed result states success without uncertainty,
    and the exact business attempt was still open. *)
Theorem confirmation_needs_evidence i ad d project n st st' :
  ConfirmExecution i ad d project n st = (st', Ok tt) →
  ad ∈ admins st ∧
  ∃ r task raw ev s, r ∈ executions st ∧ te_id r = i ∧
    (te_state r = Failed ∨ te_state r = Unknown) ∧ te_disposition r = "" ∧
    te_identity_retired_at r = "" ∧
    execution_task r = Some task ∧ evidence_matches r task = true ∧
    unseal ("execution-result:" +:+ i) (te_sealed_result r) = Some raw ∧
    evidence_of_json raw = Some ev ∧ evd_succeeded ev = true ∧ evd_unknown ev = false ∧
    executionConfirmationStatement task (te_agent_id r) = Ok s ∧
    ∃ t, t ∈ tasks st ∧ sm_where s st t = true ∧ tr_agent_id t = te_agent_id r ∧
      tr_attempt t = te_attempt r.
Proof.
  revert st'. match goal with |- ∀ st', _ → @?Q st' =>
    cut (wp (ConfirmExecution i ad d project n) st (λ st' _, Q st')); [intros Hw st' E; exact (Hw _ _ E)|] end.
  unfold ConfirmExecution, projectRetainedExecutionResult. cbn [re_automatic re_admin orb]. cbv zeta.
  do 5 wp_step. destruct (sql_row _ _) as [r|] eqn:Er; [|wp_step].
  apply sql_row_spec in Er as [Hr Hid]. unfold retained_row in Hid.
  destruct (unseal _ (te_sealed_task r)) as [rawt|] eqn:Eu; [|wp_step].
  destruct (task_of_json rawt) as [task|] eqn:Et; [|wp_step]. wp_step.
  destruct (unseal _ (te_sealed_result r)) as [raw|] eqn:Es; [|wp_step].
  destruct (evidence_of_json raw) as [ev|] eqn:Ee; [|wp_step]. do 2 wp_step.
  apply wp_bind. intros st1 k E1. wp_step. intros st2 [] _. unfold run_statement, update_tasks in E1.
  injection E1 as <- <-. rewrite !andb_true_iff in Hid. destruct Hid as [[[Hi Hs] Hd] Hret]. bool_prop.
  assert (evidence_matches r task = true) as Hm by done.
  match goal with H : sql_affected _ _ = 1 |- _ => apply sql_affected_1 in H as (t & Ht & Hw) end.
  split; [unfold is_admin in *; by bool_prop|]. exists r, task, raw, ev, a.
  match goal with H : executionConfirmationStatement _ _ = Ok a |- _ =>
    destruct (ex_where _ _ (confirmation_statement_exact _ _ _ H) _ _ Hw) as (nm & Hnm & Hta & Htk & _) end.
  match goal with H : retainedResultSupportsConfirmation _ _ = true |- _ =>
    unfold retainedResultSupportsConfirmation in H;
    destruct (negb (evd_succeeded ev) || evd_unknown ev || _) eqn:Ev in H; [discriminate H|] end.
  bool_prop. split_and!; try done.
  - unfold state_in, state_eqb in Hs. destruct (te_state r); try done; auto.
  - unfold execution_task. by rewrite Hi, Eu.
  - exists t. unfold evidence_matches in Hm. bool_prop. split_and!; congruence.
Qed.

End Decisions.

(** ** Witnesses *)
Definition sample_abandon : ExecutionDisposition := mk_disposition "abandon" true "verified on the node".
Definition sample_confirm : ExecutionDisposition :=
  mk_disposition "confirm-completed" true "verified on the node".

Abbreviation abandon :=
  (disposeTaskExecution "execution-1" "admin-1" sample_abandon false sample_time).
Definition abandoned : Store := fst (abandon Run.undecided).
Abbreviation confirm :=
  (ConfirmExecution "execution-1" "admin-1" sample_confirm (λ _ _, Run.projected) sample_time).
Definition confirmed : Store := fst (confirm Run.unprojected).

Opaque abandoned confirmed.

Lemma decision_is_exact_witness :
  abandon Run.undecided = (abandoned, Ok tt) ∧
  ∃ r task, te_id r = "execution-1" ∧
    settled_as r task "abandon" "verified on the node" "admin-1" sample_time Run.undecided abandoned.
Proof.
  assert (NoDup (map te_id (executions Run.undecided))) as Hnd
    by exact (wf_id _ (inv_well_formed _ (reachable_inv _ (reach_tasks _ _ Run.reach_replaced)))).
  assert (abandon Run.undecided = (abandoned, Ok tt)) as H by (vm_compute; reflexivity).
  split; [exact H|].
  destruct (decision_is_exact "execution-1" "admin-1" sample_abandon false sample_time Run.undecided
              abandoned H Hnd) as (_ & _ & r & task & Hi & _ & _ & _ & _ & Hd).
  exists r, task. exact (conj Hi Hd).
Defined.

Lemma confirmation_needs_evidence_witness :
  confirm Run.unprojected = (confirmed, Ok tt) ∧ "admin-1" ∈ admins Run.unprojected.
Proof.
  assert (confirm Run.unprojected = (confirmed, Ok tt)) as H by (vm_compute; reflexivity).
  split; [exact H|].
  exact (proj1 (confirmation_needs_evidence "execution-1" "admin-1" sample_confirm (λ _ _, Run.projected)
    sample_time Run.unprojected confirmed H)).
Defined.
