(* ===== verification/Helpers.v ===== *)
(** * Host helpers: consumption and order of their steps *)
From S2P Require Import Prelude GoText GoTime TaskIds Store Hoare Execution Guards Claims Handoff.
From S2P Require Import Disposition Confirmation Workflows Updates Legacy Leases Lifecycle Evolution.
From S2P Require Import Protocol Samples Traces Safety Contracts Results Decisions.

(** ** SQL patterns *)
Abbreviation chars := String.list_ascii_of_string.

Definition literal (c : Ascii.ascii) : Prop :=
  Ascii.nat_of_ascii c ≠ 37%nat ∧ Ascii.nat_of_ascii c ≠ 95%nat.

Lemma chars_app a b : chars (a +:+ b) = chars a ++ chars b.
Proof. induction a as [|c a IH]; [done|]. rewrite app_cons_s. cbn. by rewrite IH. Qed.

Lemma chars_inj a b : chars a = chars b → a = b.
Proof.
  intros E. rewrite <- (String.string_of_list_ascii_of_string a).
  by rewrite E, String.string_of_list_ascii_of_string.
Qed.

Lemma like_prefix l q s :
  Forall literal l →
  sql_like (l ++ q) s = true ↔
  ∃ pre suf, s = pre ++ suf ∧ map fold_case pre = map fold_case l ∧ sql_like q suf = true.
Proof.
  intros Hl. revert s. induction Hl as [|c l [H1 H2] Hl IH]; intros s.
  - split; [by exists [], s|]. intros (pre & suf & -> & Hp & H). destruct pre; [done|discriminate].
  - cbn [app sql_like]. apply Nat.eqb_neq in H1, H2. rewrite H1, H2. cbn [orb].
    destruct s as [|d s].
    + split; [done|]. intros (pre & suf & E & Hp & _). destruct pre; [discriminate Hp|discriminate E].
    + rewrite andb_true_iff, Nat.eqb_eq, IH. split.
      * intros (Hc & pre & suf & -> & Hp & H). exists (d :: pre), suf. cbn. by rewrite Hc, Hp.
      * intros (pre & suf & E & Hp & H). destruct pre as [|x pre]; [discriminate Hp|].
        injection E as -> ->. injection Hp as Hx Hp. split; [done|]. eauto.
Qed.

Definition pct : Ascii.ascii := Ascii.ascii_of_nat 37.

Lemma like_any q s :
  sql_like (pct :: q) s = true ↔ ∃ pre suf, s = pre ++ suf ∧ sql_like q suf = true.
Proof.
  change (sql_like (pct :: q)) with
    (fix any s := sql_like q s || match s with [] => false | _ :: s' => any s' end).
  induction s as [|c s IH]; rewrite orb_true_iff.
  - split.
    + intros [H|H]; [|done]. by exists [], [].
    + intros (pre & suf & E & H). destruct pre; [|discriminate]. cbn in E. subst. by left.
  - rewrite IH. split.
    + intros [H|(pre & suf & -> & H)]; [by exists [], (c :: s)|by exists (c :: pre), suf].
    + intros (pre & suf & E & H). destruct pre as [|x pre]; cbn in E; subst; [by left|].
      right. injection E as -> ->. eauto.
Qed.

Lemma like_nil s : sql_like [] s = true ↔ s = [].
Proof. by destruct s. Qed.

(** ** Decimal texts as patterns *)
Definition digit_char (c : Ascii.ascii) : Prop := (48 <= Ascii.nat_of_ascii c <= 57)%nat.

Lemma digit_char_digit v : 0 <= v < 10 → digit_char (digit v).
Proof.
  intros Hv. assert (v ∈ [0;1;2;3;4;5;6;7;8;9]) as H by (rewrite !elem_of_cons; lia).
  unfold digit_char. repeat (apply elem_of_cons in H as [->|H]; [vm_compute; lia|]).
  by apply not_elem_of_nil in H.
Qed.

Lemma digits_chars w n : Forall digit_char (chars (digits w n)).
Proof.
  revert n. induction w as [|w IH]; intros n; [constructor|]. cbn [digits]. rewrite chars_app.
  apply Forall_app. split; [done|]. constructor; [|constructor].
  apply digit_char_digit. by apply Z.mod_pos_bound.
Qed.

Lemma decimal_chars n : 0 <= n → Forall digit_char (chars (decimal n)).
Proof. intros Hn. rewrite decimal_digits by done. apply digits_chars. Qed.

Lemma digit_literal c : digit_char c → literal c.
Proof. unfold digit_char, literal. lia. Qed.

Lemma fold_digit c : digit_char c → fold_case c = Ascii.nat_of_ascii c.
Proof.
  unfold digit_char, fold_case. intros H.
  destruct (Nat.leb 65 _) eqn:E; [|done]. apply Nat.leb_le in E. lia.
Qed.

Lemma decimal_inj m n : 0 <= m <= int64_max → 0 <= n <= int64_max → decimal m = decimal n → m = n.
Proof.
  intros Hm Hn E. apply (f_equal parse_int64) in E. rewrite !parse_int64_decimal in E by done.
  by injection E.
Qed.

(** Two texts of digits, each followed by a colon, one a prefix of the other up to
    the case of letters, are the same. *)
Definition colon : Ascii.ascii := Ascii.ascii_of_nat 58.

Lemma digits_until_colon l1 l2 rest rest' :
  Forall digit_char l1 → Forall digit_char l2 →
  map fold_case (l1 ++ colon :: rest) = map fold_case (l2 ++ colon :: rest') → l1 = l2.
Proof.
  intros H1 H2. revert l2 H2. induction H1 as [|c l1 Hc H1 IH]; intros l2 H2 E.
  - destruct H2 as [|d l2 Hd H2]; [done|]. cbn [app map] in E. injection E as E _.
    rewrite (fold_digit d) in E by done. unfold digit_char in Hd. change (fold_case colon) with 58%nat in E. lia.
  - destruct H2 as [|d l2 Hd H2].
    + cbn [app map] in E. injection E as E _. rewrite fold_digit in E by done.
      unfold digit_char in Hc. change (fold_case colon) with 58%nat in E. lia.
    + cbn [app map] in E. injection E as E1 E2. rewrite !fold_digit in E1 by done.
      f_equal; [|by apply IH]. rewrite <- (Ascii.ascii_nat_embedding c), E1.
      apply Ascii.ascii_nat_embedding.
Qed.

(** ** The order of cleanup steps *)
Lemma cleanup_pattern k :
  chars ("cleanup:" +:+ decimal k +:+ ":%") = chars "cleanup:" ++ chars (decimal k) ++ [colon; pct].
Proof. by rewrite !chars_app. Qed.

Lemma cleanup_text n p :
  chars (cleanup_phase n p) = chars "cleanup:" ++ chars (decimal n) ++ colon :: chars p.
Proof. unfold cleanup_phase. rewrite !chars_app. done. Qed.

Lemma cleanup_literals k : 0 <= k → Forall literal (chars "cleanup:" ++ chars (decimal k) ++ [colon]).
Proof.
  intros Hk. apply Forall_app. split; [|apply Forall_app; split].
  - repeat constructor; vm_compute; lia.
  - eapply Forall_impl; [by apply decimal_chars|]. apply digit_literal.
  - repeat constructor; vm_compute; lia.
Qed.

(** A consumed step matches the pattern of exactly its own number. *)
Lemma cleanup_like k n p :
  0 <= k <= int64_max → 0 <= n <= int64_max →
  like (cleanup_phase n p) ("cleanup:" +:+ decimal k +:+ ":%") = true ↔ k = n.
Proof.
  intros Hk Hn. unfold like. rewrite cleanup_pattern, cleanup_text.
  replace (chars "cleanup:" ++ chars (decimal k) ++ [colon; pct])
    with ((chars "cleanup:" ++ chars (decimal k) ++ [colon]) ++ [pct]) by (by rewrite <- !app_assoc).
  rewrite like_prefix by (apply cleanup_literals; lia). split.
  - intros (pre & suf & E & Hp & _). apply decimal_inj; [done..|]. symmetry. apply chars_inj.
    apply (digits_until_colon _ _ (chars p) suf); try (apply decimal_chars; lia).
    apply (f_equal (map fold_case)) in E. rewrite (map_app _ pre), Hp, <- (map_app _ _ suf) in E.
    rewrite <- !app_assoc in E. cbn [app] in E. rewrite !(map_app _ (chars "cleanup:")) in E.
    by apply app_inv_head in E.
  - intros ->. exists (chars "cleanup:" ++ chars (decimal n) ++ [colon]), (chars p).
    split; [by rewrite <- !app_assoc|]. split; [done|]. apply (like_any []). exists (chars p), [].
    by rewrite app_nil_r.
Qed.

Definition cleanup_steps : list string := ["command"; "runtime"; "files"; "cancel-update"; "done"].

Lemma cleanup_not_done A p :
  (5 <= length p)%nat → map fold_case (drop (length p - 5) p) ≠ map fold_case (chars ":done") →
  sql_like (chars "cleanup:" ++ pct :: chars ":done") (A ++ p) = false.
Proof.
  intros Hlen Hne. apply not_true_iff_false. intros H. apply Hne.
  apply like_prefix in H as (pre & suf & E & _ & H); [|repeat constructor; vm_compute; lia].
  apply like_any in H as (mid & suf2 & -> & H). rewrite <- (app_nil_r (chars ":done")) in H.
  apply like_prefix in H as (pre3 & suf3 & -> & Hp & ->%like_nil);
    [|repeat constructor; vm_compute; lia].
  rewrite app_nil_r in E. rewrite <- (take_drop (length p - 5) p) in E.
  rewrite !app_assoc in E. apply app_inj_2 in E as [_ ->]; [done|].
  apply (f_equal length) in Hp. rewrite !length_map in Hp. rewrite length_drop, Hp. cbn. lia.
Qed.

Lemma cleanup_done n p :
  str_in p cleanup_steps = true →
  like (cleanup_phase n p) "cleanup:%:done" = (p =?s "done").
Proof.
  intros Hp. unfold like. rewrite cleanup_text.
  change (chars "cleanup:%:done") with (chars "cleanup:" ++ pct :: chars ":done").
  replace (chars "cleanup:" ++ chars (decimal n) ++ colon :: chars p)
    with ((chars "cleanup:" ++ chars (decimal n) ++ [colon]) ++ chars p) by (by rewrite <- !app_assoc).
  unfold str_in, cleanup_steps in Hp. cbn [existsb] in Hp. rewrite !orb_true_iff in Hp.
  destruct Hp as [H|[H|[H|[H|[H|H]]]]]; try discriminate H; bool_prop; subst p.
  1-4: change (_ =?s "done") with false; apply cleanup_not_done; [vm_compute; lia|vm_compute; discriminate].
  change ("done" =?s "done") with true.
  apply like_prefix; [repeat constructor; vm_compute; lia|].
  exists (chars "cleanup:"), (chars (decimal n) ++ colon :: chars "done").
  split; [by rewrite <- !app_assoc|]. split; [done|]. apply like_any.
  by exists (chars (decimal n)), (colon :: chars "done").
Qed.

Lemma cleanup_phase_longer n p s : (String.length s <= 8)%nat → cleanup_phase n p ≠ s.
Proof.
  intros Hs E. apply (f_equal String.length) in E. unfold cleanup_phase in E.
  rewrite !length_app_s in E. cbn in E. lia.
Qed.

(** Cleanup steps are consumed in sequence: after step [n] was consumed
    with phase [p], the only step that may follow is number [n + 1], and none may
    follow the finished cleanup. *)
Theorem cleanup_steps_are_sequenced m n p :
  1 <= m <= 1024 → 1 <= n <= 1024 → str_in p cleanup_steps = true →
  cleanup_follows m (cleanup_phase n p) = (m =? n + 1) && negb (p =?s "done").
Proof.
  intros Hm Hn Hp. unfold cleanup_follows. rewrite cleanup_done by done. f_equal.
  assert ((cleanup_phase n p =?s (if m =? 1 then "cleanup" else "")) = false) as ->.
  { apply String.eqb_neq, cleanup_phase_longer. case_match; cbn; lia. }
  cbn [orb]. apply eq_true_iff_eq. rewrite cleanup_like by (unfold int64_max; lia).
  rewrite Z.eqb_eq. lia.
Qed.

Lemma cleanup_steps_are_sequenced_witness :
  str_in "runtime" cleanup_steps = true ∧ cleanup_follows 3 (cleanup_phase 2 "runtime") = true.
Proof.
  split; [reflexivity|]. rewrite (cleanup_steps_are_sequenced 3 2 "runtime"); [reflexivity|lia|lia|reflexivity].
Defined.

Section Helpers.
Context {L : Libraries} {C : ControlCodec} {RC : ReceiptCodec}.

(** An authorised cleanup step: the row it moved. *)
Lemma decommission_step_ok t k att q p n st st' :
  AuthorizeDecommissionStep t k att q p n st = (st', Ok tt) →
  0 < q <= 1024 ∧ str_in p cleanup_steps = true ∧
  ∃ r r', r ∈ executions st ∧ r' ∈ executions st' ∧ te_task_id r = t ∧ te_attempt r = att ∧
    cleanup_follows q (te_phase r) = true ∧ attempt_key r' = attempt_key r ∧
    te_phase r' = cleanup_phase q p.
Proof.
  revert st'. match goal with |- ∀ st', _ → @?Q st' =>
    cut (wp (AuthorizeDecommissionStep t k att q p n) st (λ st' _, Q st'));
    [intros Hw st' E; exact (Hw _ _ E)|] end.
  unfold AuthorizeDecommissionStep. do 4 wp_step. destruct (sql_row _ _) as [d|]; [|wp_step].
  wp_step. intros st' [] (r & Hr & Hw & Hr')%guarded_effect. bool_prop.
  split; [lia|]. split; [done|]. eexists r, _. split; [done|]. split; [exact Hr'|]. done.
Qed.

(** A cleanup step is consumed once: after step [n] of a decommission was
    authorised, every step number other than [n + 1] is refused in the resulting
    database, with any token and phase, and after the last step every one is. *)
Theorem cleanup_step_is_consumed t k att q p n st st' k' m p' n' :
  reachable st → AuthorizeDecommissionStep t k att q p n st = (st', Ok tt) →
  m ≠ q + 1 ∨ p = "done" → refused (AuthorizeDecommissionStep t k' att m p' n') st'.
Proof.
  intros Hreach Hok Hm.
  assert (reachable st') as Hreach'.
  { eapply reachable_steps; [exact Hreach|]. apply rtc_once.
    replace st' with (fst (AuthorizeDecommissionStep t k att q p n st)) by (by rewrite Hok).
    apply step_operation, op_decommission_step. }
  apply refused_intro; [unfold AuthorizeDecommissionStep; repeat unchanged_step|].
  intros st2 [] Hok2.
  destruct (decommission_step_ok _ _ _ _ _ _ _ _ Hok)
    as (Hq & Hp & r & r' & Hr & Hr' & Ht & Ha & _ & Hk & Hph).
  destruct (decommission_step_ok _ _ _ _ _ _ _ _ Hok2) as (Hq2 & _ & x & _ & Hx & _ & Hxt & Hxa & Hf & _).
  assert (x = r') as ->.
  { apply (nodup_key_eq attempt_key (executions st')); try done.
    - apply (wf_attempt _ (inv_well_formed _ (reachable_inv _ Hreach'))).
    - rewrite Hk. unfold attempt_key. congruence. }
  rewrite Hph in Hf. unfold cleanup_follows in Hf. rewrite cleanup_done in Hf by done.
  rewrite andb_true_iff, orb_true_iff in Hf. destruct Hf as [[H|H] Hd].
  - bool_prop. revert H. apply cleanup_phase_longer. case_match; cbn; lia.
  - apply cleanup_like in H; [|unfold int64_max; lia..]. bool_prop. destruct Hm; [lia|done].
Qed.

(** The steps of an update helper are consumed in order and once: a step is
    authorised only after its predecessor (stop, backup, preserve, install, start),
    and in every future database the same step is refused. *)
Theorem update_helper_step_is_consumed st st1 st2 a s i p n a' s' n' :
  reachable st → CheckUpdateHelperStep a s i p n st = (st1, Ok tt) → rtc step st1 st2 →
  (∃ q r, helper_previous p = Some q ∧ r ∈ executions st ∧ te_id r = i ∧ te_phase r = q) ∧
  refused (CheckUpdateHelperStep a' s' i p n') st2.
Proof.
  intros Hreach Hok Hs.
  assert (rtc step st st1) as Hs1.
  { apply rtc_once. replace st1 with (fst (CheckUpdateHelperStep a s i p n st)) by (by rewrite Hok).
    apply step_operation, op_helper_step. }
  pose proof (reachable_steps _ _ Hreach Hs1) as Hreach1. revert Hok.
  unfold CheckUpdateHelperStep. destruct (helper_previous p) as [q|] eqn:Hq; [|discriminate].
  intros (r & Hr & Hw & Hr')%guarded_effect. bool_prop. unfold state_eqb in *. bool_prop.
  split; [by exists q, r|]. eexists. apply guarded_refused. intros x Hx. apply not_true_iff_false.
  intros Hwx. rewrite !andb_true_iff in Hwx. destruct_and! Hwx. bool_prop.
  pose proof (future_row _ _ _ x Hreach1 Hs Hr' Hx) as S. simpl in S.
  destruct S as [????????????? Hrank]; [congruence|]. simpl in Hrank. unfold state_eqb in *. bool_prop.
  specialize (Hrank ltac:(done) ltac:(done) ltac:(done)).
  apply helper_previous_rank in Hq. rewrite Hq in Hrank.
  match goal with H : te_phase x = q |- _ => rewrite H in Hrank end. lia.
Qed.

End Helpers.

(** ** Witnesses *)
Lemma cleanup_step_is_consumed_witness :
  Decommission.first_step Decommission.helper = (Decommission.stepped, Ok tt) ∧
  refused Decommission.first_step Decommission.stepped.
Proof.
  assert (1 ≠ 1 + 1 ∨ "command" = "done") as Hm by (left; lia).
  assert (Decommission.first_step Decommission.helper = (Decommission.stepped, Ok tt)) as H
    by (vm_compute; reflexivity).
  split; [exact H|].
  exact (cleanup_step_is_consumed "agent-decommission-agent-1" "token" 1 1 "command"
           (sample_time + 5 * second) Decommission.helper Decommission.stepped "token" 1 "command"
           (sample_time + 5 * second) Decommission.reach_cleanup H Hm).
Defined.

Lemma update_helper_step_is_consumed_witness :
  Update.stop_step Update.helper = (Update.stopped, Ok tt) ∧ refused Update.stop_step Update.stopped.
Proof.
  assert (Update.stop_step Update.helper = (Update.stopped, Ok tt)) as H by (vm_compute; reflexivity).
  split; [exact H|].
  exact (proj2 (update_helper_step_is_consumed Update.helper Update.stopped Update.stopped "agent-1"
           sample_session "execution-2" "stop" (sample_time + 5 * second) "agent-1" sample_session
           (sample_time + 5 * second) Update.reach_update H (rtc_refl _ _))).
Defined.
