(* ===== verification/Reinstall.v ===== *)
(** * Reinstallation: the boot grant

    A machine reinstallation is armed once; after that it can be completed by the
    reconnecting machine, but neither armed again, abandoned nor re-executed. *)
From S2P Require Import Prelude GoText GoTime TaskIds Store Hoare Execution Guards Claims Handoff.
From S2P Require Import Disposition Confirmation Workflows Updates Legacy Leases Lifecycle Evolution.
From S2P Require Import Protocol Samples Traces Safety Contracts Results Decisions.

Section Reinstall.
Context {L : Libraries} {C : ControlCodec} {RC : ReceiptCodec}.

Lemma arm_ok a s i b p dg v n st st' :
  ArmOSReinstall a s i b p dg v n st = (st', Ok tt) →
  ∃ r r', r ∈ executions st ∧ r' ∈ executions st' ∧ te_id r = i ∧ te_id r' = i ∧
    te_state r = Running ∧ te_kind r' = osReinstallKind ∧ te_state r' = HelperRunning.
Proof.
  revert st'. match goal with |- ∀ st', _ → @?Q st' =>
    cut (wp (ArmOSReinstall a s i b p dg v n) st (λ st' _, Q st'));
    [intros Hw st' E; exact (Hw _ _ E)|] end.
  unfold ArmOSReinstall. do 3 wp_step. destruct (reinstall_join _ _ _ _ _ _ _) as [q|]; [|wp_step].
  wp_step. apply wp_bind. intros st1 [] (r & Hr & Hw & Hr')%guarded_effect.
  unfold reinstall_execution in Hw. bool_prop. unfold state_eqb in *. bool_prop.
  wp_step. intros st2 [] E. unfold expect_one, fail_if in E.
  destruct (negb _) in E; unfold fail, ok in E; simplify_eq.
  eexists r, _. split; [done|]. split; [exact Hr'|]. done.
Qed.

(** The boot grant of a task attempt stays in the audit trail. *)
Lemma boot_granted_event st r t :
  r ∈ executions st → te_task_id r = tr_id t → te_agent_id r = tr_agent_id t →
  te_attempt r = tr_attempt t →
  (∃ e, e ∈ execution_events st ∧ ev_execution_id e = te_id r ∧ ev_state e = HelperRunning) →
  boot_granted st t = true.
Proof.
  intros Hr Ht Ha Hk (e & He & Hid & Hs). unfold boot_granted. apply existsb_exists. exists r.
  split; [by apply list_elem_of_In|]. rewrite Ht, Ha, Hk, !String.eqb_refl, Z.eqb_refl. cbn [andb].
  apply existsb_exists. exists e. split; [by apply list_elem_of_In|].
  rewrite Hid, String.eqb_refl, Hs. by rewrite orb_true_r.
Qed.

Lemma granted_abandon_refused st r i ad d b n :
  NoDup (map te_id (executions st)) → r ∈ executions st → te_id r = i →
  te_kind r = osReinstallKind →
  (∃ e, e ∈ execution_events st ∧ ev_execution_id e = i ∧ ev_state e = HelperRunning) →
  refused (disposeTaskExecution i ad d b n) st.
Proof.
  intros Hnd Hr Hid Hk He. apply refused_intro; unfold disposeTaskExecution.
  { repeat unchanged_step. }
  do 5 wp_step. rewrite (row_by_id _ r) by done. do 3 wp_step.
  destruct (unseal _ _) as [raw|]; [|wp_step]. destruct (task_of_json raw) as [task|]; [|wp_step].
  wp_step. cbv zeta. wp_step. apply wp_bind. intros st1 k E1. wp_step.
  apply wp_fail_if. intros Hc. exfalso.
  assert (at_kind task = osReinstallKind ∧ at_id task = te_task_id r ∧ at_attempt task = te_attempt r)
    as (Hkind & Htid & Hatt) by (unfold evidence_matches in *; bool_prop; split_and!; congruence).
  match goal with H : (if _ then _ else _) = Ok a |- _ => revert H end. case_match.
  - unfold executionAbandonStatement. rewrite Hkind.
    change (osReinstallKind =?s "node.os-reinstall") with true.
    intros [= <-]. unfold run_statement, update_tasks in E1. injection E1 as <- <-.
    apply andb_false_iff in Hc. rewrite Hk in Hc.
    change (osReinstallKind =?s "application.command") with false in Hc.
    rewrite !andb_false_r in Hc. destruct Hc as [Hc|Hc]; [|discriminate Hc]. bool_prop.
    apply sql_affected_1 in Hc as (t & Ht & Hw). cbn [sm_where] in Hw. bool_prop.
    match goal with H : boot_granted st t = false |- _ => apply not_true_iff_false in H; apply H end.
    apply (boot_granted_event _ r); try congruence. by rewrite Hid.
  - unfold executionRequeueStatement. rewrite Hkind. discriminate.
Qed.

(** C28 -- A boot grant is used once and never taken back: after a reinstallation
    was armed, in every future database arming the same execution again, abandoning
    it and re-executing it are refused without any change. *)
Theorem armed_reinstall_is_final st st1 st2 a s i b p dg v n :
  reachable st → ArmOSReinstall a s i b p dg v n st = (st1, Ok tt) → rtc step st1 st2 →
  (∀ a' s' b' p' dg' v' n', refused (ArmOSReinstall a' s' i b' p' dg' v' n') st2) ∧
  (∀ ad d cb n', refused (AbandonExecution i ad d cb n') st2) ∧
  (∀ ad d cb n', refused (ReexecuteExecution i ad d cb n') st2).
Proof.
  intros Hreach Harm Hs.
  assert (rtc step st st1) as Hs1.
  { apply rtc_once. replace st1 with (fst (ArmOSReinstall a s i b p dg v n st)) by (by rewrite Harm).
    apply step_operation, op_arm. }
  pose proof (reachable_steps _ _ Hreach Hs1) as Hreach1.
  destruct (arm_ok _ _ _ _ _ _ _ _ _ _ Harm) as (r & r1 & Hr & Hr1 & Hid & Hid1 & _ & Hk & Hst).
  destruct (steps_preserve _ _ Hs) as [Hl Hi].
  destruct (later_row _ _ _ Hl Hr1) as (r2 & Hr2 & S).
  pose proof (wf_id _ (inv_well_formed _ (Hi (reachable_inv _ Hreach1)))) as Hnd.
  assert (te_id r2 = i) as Hid2 by (rewrite (rs_id _ _ S); done).
  assert (∃ e, e ∈ execution_events st2 ∧ ev_execution_id e = i ∧ ev_state e = HelperRunning) as He.
  { pose proof (wf_audited _ (inv_well_formed _ (reachable_inv _ Hreach1))) as Haud.
    rewrite Forall_forall in Haud. destruct (Haud r1 Hr1) as (e & Hlast & Hes & _).
    apply last_Some_elem_of in Hlast. unfold events_of in Hlast.
    apply list_elem_of_In, filter_In in Hlast as [Hin Hev]. exists e. bool_prop.
    destruct (lt_events _ _ Hl) as [extra ->]. split_and!; try congruence.
    apply elem_of_app. left. by apply list_elem_of_In. }
  assert (∀ ad d cb n', refused (disposeTaskExecution i ad d cb n') st2) as Hdisp.
  { intros. apply (granted_abandon_refused _ r2); try done. by rewrite (rs_kind _ _ S). }
  split_and!.
  - intros. apply refused_intro; [unfold ArmOSReinstall; repeat unchanged_step|].
    intros st3 [] (x & _ & Hx & _ & Hxid & _ & Hxs & _)%arm_ok.
    assert (x = r2) as -> by (apply (nodup_key_eq te_id (executions st2)); congruence).
    pose proof (rs_state _ _ S) as Hle. by rewrite Hst, Hxs in Hle.
  - intros. unfold AbandonExecution. case_match; [by eexists|apply Hdisp].
  - intros. unfold ReexecuteExecution. case_match; [by eexists|apply Hdisp].
Qed.

End Reinstall.

(** ** Witness *)
Lemma armed_reinstall_is_final_witness :
  Machine.arm Machine.saved = (Machine.armed, Ok tt) ∧ refused Machine.arm Machine.armed.
Proof.
  assert (Machine.arm Machine.saved = (Machine.armed, Ok tt)) as H by (vm_compute; reflexivity).
  split; [exact H|].
  destruct (armed_reinstall_is_final Machine.saved Machine.armed Machine.armed "agent-1" sample_session
              "execution-4" Machine.backup_digest Machine.backup_digest Machine.digest_of (λ _, true)
              (sample_time + 5 * second) Machine.reach_saved H (rtc_refl _ _)) as (Hr & _).
  exact (Hr "agent-1" sample_session Machine.backup_digest Machine.backup_digest Machine.digest_of
           (λ _, true) (sample_time + 5 * second)).
Defined.
