(* ===== verification/LeaseSafety.v ===== *)
(** * Leases: renewal and recovery

    A lease is renewed by the exact attempt that holds it; an expired one is closed
    for inspection, in every task table, and never queued again by itself. *)
From S2P Require Import Prelude GoText GoTime TaskIds Store Hoare Execution Guards Claims Handoff.
From S2P Require Import Disposition Confirmation Workflows Updates Legacy Leases Lifecycle Evolution.
From S2P Require Import Protocol Samples Traces Safety Contracts Results Decisions.

Section LeaseSafety.
Context {L : Libraries} {C : ControlCodec} {RC : ReceiptCodec}.

Lemma renew_target_agent a t f row : renew_target a t = Ok f → f row = true → tr_agent_id row = a.
Proof.
  unfold renew_target. cbv zeta. repeat case_match; intros [= <-];
  unfold by_task_id, by_node_revision, is_decommission_row; intros; by bool_prop.
Qed.

(** A lease is renewed only by the attempt that holds it: a successful
    renewal authenticated the Agent, found one row of that Agent at the expected
    attempt whose lease had not lapsed, and changed rows of no other Agent or
    attempt, nor the identity of any row; the new expiry is five minutes ahead. *)
Theorem lease_renewal_is_exact a c t k n st st' expiry :
  RenewTaskLease a c t k n st = (st', Ok expiry) →
  expiry = n + 5 * minute ∧ 0 < k ∧
  (∃ g, g ∈ agents st ∧ ag_id g = a ∧ ag_status g = "active" ∧ ag_credential_hash g = token_hash c) ∧
  (∃ row, row ∈ tasks st ∧ tr_agent_id row = a ∧ tr_attempt row = k ∧
     unexpired (tr_lease_expires_at row) n = true) ∧
  exact_change (λ t, tr_agent_id t = a ∧ tr_attempt t = k) (tasks st) (tasks st') ∧ executions st' = executions st.
Proof.
  revert st' expiry. match goal with |- ∀ st' x, _ → @?Q st' x =>
    cut (wp (RenewTaskLease a c t k n) st (λ st' x, Q st' x)); [intros Hw st' x E; exact (Hw _ _ E)|] end.
  unfold RenewTaskLease. wp_step. apply wp_bind. eapply wp_mono; [apply authenticate_ok|].
  intros st1 [] (-> & g & Hg & Hid & Hact & _ & Hh). do 2 wp_step. apply wp_fail_if. intros Hone.
  apply wp_ok. bool_prop. apply sql_affected_1 in Hone as (row & Hrow & Hw).
  rewrite !andb_true_iff in Hw. destruct Hw as [[Hw Hk] Hu]. bool_prop.
  split; [done|]. split; [lia|]. split; [by exists g|]. split; [|split; [|done]].
  - exists row. split_and!; try done. by eapply renew_target_agent.
  - cbn. unfold exact_change, sql_update. clear -H0. induction (tasks st) as [|x l IH]; cbn; constructor; [|done].
    destruct (_ && _) eqn:E; [|done]. split; [done|]. intros _. bool_prop.
    split; [by eapply renew_target_agent|done].
Qed.

(** ** Recovery *)

(** What recovery may do to a row: leave it, or close it for inspection. *)
Definition closed_for_inspection (t t' : task_row) : Prop :=
  t' = t ∨ (row_identity t' = row_identity t ∧ tr_lease_expires_at t' = "" ∧
            (tr_state t' = "failed" ∨ tr_state t' = "unknown")).

#[local] Instance closed_trans : Transitive closed_for_inspection.
Proof.
  intros x y z [->|(H1 & H2 & H3)]; [done|]. intros [->|(H4 & H5 & H6)]; right; [done|].
  split; [congruence|done].
Qed.

Abbreviation rows_closed := (Forall2 closed_for_inspection).

(** No lapsed lease is left on the listed tables. *)
Definition no_lapsed (a : string) (n : Z) (l : list (business_table * list string)) (st : Store) : Prop :=
  ∀ table states t, (table, states) ∈ l → t ∈ tasks st → lease_expired a n table states t = false.

Definition recovered (a : string) (n : Z) (l : list (business_table * list string)) (st st' : Store)
    : Prop := rows_closed (tasks st) (tasks st') ∧ no_lapsed a n l st'.

Lemma interrupt_recovers a n table states s m b st0 l st :
  s = "failed" ∨ s = "unknown" → recovered a n l st0 st →
  wp (interrupt a n table states s m b) st (λ st' _, recovered a n ((table, states) :: l) st0 st').
Proof.
  intros Hs [Hc Hl]. unfold interrupt. apply wp_update_tasks. apply wp_ok. cbn. split.
  - etrans; [exact Hc|]. cbn. unfold sql_update. clear -Hs. induction (tasks st) as [|t r IH]; cbn;
      constructor; [|done]. destruct (lease_expired _ _ _ _ t); [|by left]. right. by destruct b.
  - intros table' states' t' Hin Ht'. cbn in Ht'. apply elem_of_sql_update in Ht' as (t & Ht & ->).
    destruct (lease_expired a n table states t) eqn:E.
    + unfold lease_expired. destruct b; cbn; by rewrite !andb_false_r.
    + apply elem_of_cons in Hin as [[= -> ->]|Hin]; [done|]. by eapply Hl.
Qed.

Lemma frame_recovers a n l st0 st (m : M unit) :
  (∀ st, tasks (fst (m st)) = tasks st) → recovered a n l st0 st →
  wp m st (λ st' _, recovered a n l st0 st').
Proof.
  intros Hm [Hc Hl] st' [] E. specialize (Hm st). rewrite E in Hm. cbn in Hm.
  unfold recovered, no_lapsed. by rewrite Hm.
Qed.

Lemma interrupt_executions_tasks a n l st : tasks (fst (interrupt_executions a n l st)) = tasks st.
Proof.
  revert st. induction l as [|t l IH]; intros st; [done|]. cbn. unfold bindM. cbn. by rewrite IH.
Qed.

(** The task tables and the states in which their rows hold a lease. *)
Definition leased_tables : list (business_table * list string) :=
  [(agent_updates, ["running"]); (agent_decommissions, ["running"]); (cloudflare_tunnels, ["applying"]);
   (node_listener_states, ["applying"]); (landing_server_states, ["applying"]);
   (landing_proxy_states, ["applying"]); (gateway_states, ["applying"]);
   (gateway_components, ["applying"]); (tailscale_update_tasks, ["running"]);
   (application_commands, ["running"]); (deployments, ["running"]);
   (xray_configuration_recoveries, ["running"]); (node_security_tasks, ["running"]);
   (os_reinstall_tasks, ["running"; "backup_ready"]); (node_site_tasks, ["running"]);
   (node_diagnostic_checks, ["running"]); (ip_quality_checks, ["running"]);
   (application_adoptions, ["running"]); (application_maintenance, ["running"])].

Ltac recover_step :=
  apply wp_bind; eapply wp_mono;
  [first [eapply interrupt_recovers; [by auto|eassumption]
         |eapply frame_recovers; [by (assumption || intros ?)|eassumption]]|];
  cbv beta; intros ? ? ?.

(** Expired leases are closed: after a recovery that found expired leases, no
    row of the Agent holds a lapsed lease in any task table, and every row is either
    untouched or the same attempt closed as failed or unknown without a lease;
    nothing is queued again. *)
Theorem expired_leases_are_closed a mirror n st st' :
  (∀ st, tasks (fst (mirror st)) = tasks st) →
  expired_rows a n st ≠ [] → recoverExpiredTasks a mirror n st = (st', Ok tt) →
  Forall2 closed_for_inspection (tasks st) (tasks st') ∧ no_lapsed a n leased_tables st'.
Proof.
  intros Hm Hne. revert st'.
  cut (wp (recoverExpiredTasks a mirror n) st (λ st' _, recovered a n leased_tables st st')).
  { intros Hw st' E. exact (Hw _ _ E). }
  unfold recoverExpiredTasks. cbv zeta. apply wp_transaction, wp_query.
  destruct (expired_rows a n st) as [|x l]; [done|].
  assert (recovered a n [] st st) as H0.
  { split; [|by intros ??? ?%not_elem_of_nil]. clear. induction (tasks st); constructor; [by left|done]. }
  repeat recover_step. intros sf [] E.
  eapply frame_recovers; [|eassumption|exact E]. apply interrupt_executions_tasks.
Qed.

End LeaseSafety.

(** ** Witnesses *)
Definition leased : Store := with_tasks [Run.open_command] sample_store.
Abbreviation renew := (RenewTaskLease "agent-1" "credential" "application-command-1" 1 sample_time).
Definition renewed : Store := fst (renew leased).
Abbreviation recover := (recoverExpiredTasks "agent-1" (ok tt) (sample_time + 6 * minute)).
Definition recovered_store : Store := fst (recover leased).

Opaque renewed recovered_store.

Lemma lease_renewal_is_exact_witness :
  renew leased = (renewed, Ok (sample_time + 5 * minute)) ∧ executions renewed = executions leased.
Proof.
  assert (renew leased = (renewed, Ok (sample_time + 5 * minute))) as H by (vm_compute; reflexivity).
  split; [exact H|].
  destruct (lease_renewal_is_exact "agent-1" "credential" "application-command-1" 1 sample_time leased
              renewed _ H) as (_ & _ & _ & _ & _ & He).
  exact He.
Defined.

Lemma expired_leases_are_closed_witness :
  recover leased = (recovered_store, Ok tt) ∧
  no_lapsed "agent-1" (sample_time + 6 * minute) leased_tables recovered_store.
Proof.
  assert (recover leased = (recovered_store, Ok tt)) as H by (vm_compute; reflexivity).
  assert (expired_rows "agent-1" (sample_time + 6 * minute) leased ≠ []) as Hne
    by (vm_compute; discriminate).
  split; [exact H|].
  exact (proj2 (expired_leases_are_closed "agent-1" (ok tt) (sample_time + 6 * minute) leased
           recovered_store (λ st, eq_refl) Hne H)).
Defined.
