(* ===== verification/Rollout.v ===== *)
(** * Agent updates: one at a time, forward, and observed

    The theorems about [Updates]: the invariant of [agent_updates], what a queued
    and a completed update imply, and the arithmetic of the rollout status. *)
From S2P Require Import Prelude GoText GoTime TaskIds Store Hoare Execution Guards Claims Handoff.
From S2P Require Import Disposition Confirmation Workflows Updates Samples.

(** ** The invariant *)

(** At most one active update per Agent. *)
Definition one_active (st : Store) : Prop := ∀ a, sql_affected (active_update a) (tasks st) <= 1.

(** An operation that keeps the invariant, on success and on failure. *)
Definition keeps {A} (m : M A) : Prop := ∀ st, one_active st → one_active (fst (m st)).

Section Keeps.
Context {A B : Type}.

Lemma keeps_reads (m : M A) : reads m → keeps m.
Proof. intros H st Hst. by rewrite H. Qed.

Lemma keeps_bind (m : M A) (k : A → M B) : keeps m → (∀ a, keeps (k a)) → keeps (bindM m k).
Proof.
  intros Hm Hk st Hst. specialize (Hm st Hst). unfold bindM.
  destruct (m st) as [st1 [a|]]; simpl in *; [by apply Hk|done].
Qed.

Lemma keeps_transaction (m : M A) : keeps m → keeps (transaction m).
Proof.
  intros Hm st Hst. specialize (Hm st Hst). unfold transaction. by destruct (m st) as [st1 [a|]].
Qed.

Lemma keeps_frame (m : M A) : (∀ st, tasks (fst (m st)) = tasks st) → keeps m.
Proof. intros H st Hst a. rewrite H. apply Hst. Qed.
End Keeps.

(** A statement that activates no row. *)
Lemma affected_update_le {A} (p wh : A → bool) f l :
  (∀ t, wh t = true → p (f t) = true → p t = true) →
  sql_affected p (sql_update wh f l) <= sql_affected p l.
Proof.
  intros H. unfold sql_affected, sql_select, sql_update. induction l as [|t l IH]; [done|].
  cbn [map List.filter]. destruct (wh t) eqn:Ew; [|by destruct (p t); cbn [length] in *; lia].
  destruct (p (f t)) eqn:Ef.
  - rewrite (H t Ew Ef). cbn [length] in *. lia.
  - destruct (p t); cbn [length] in *; lia.
Qed.

Lemma keeps_update_tasks wh f :
  (∀ a t, wh t = true → active_update a (f t) = true → active_update a t = true) →
  keeps (update_tasks wh f).
Proof.
  intros H st Hst a. simpl. etrans; [apply affected_update_le|apply Hst]. intros t. apply H.
Qed.

Lemma affected_app {A} (p : A → bool) l x :
  sql_affected p (l ++ [x]) = sql_affected p l + (if p x then 1 else 0).
Proof.
  unfold sql_affected, sql_select. rewrite List.filter_app, length_app. cbn [List.filter].
  destruct (p x); cbn [length]; lia.
Qed.

Lemma keeps_insert_update row : keeps (insert_update row).
Proof.
  intros st Hst. unfold insert_update. destruct (_ || _) eqn:E; [done|]. intros a. cbn [fst tasks with_tasks].
  apply orb_false_elim in E as [_ E]. rewrite affected_app.
  destruct (active_update a row) eqn:Ea; [|rewrite Z.add_0_r; apply Hst].
  assert (tr_agent_id row = a) as <- by (unfold active_update in Ea; by bool_prop).
  rewrite sql_exists_false, <- sql_affected_0 in E. rewrite E. lia.
Qed.

#[export] Hint Resolve keeps_insert_update : vastora.

Ltac keeps_step :=
  lazymatch goal with
  | |- keeps (bindM _ _) => apply keeps_bind; [|intros ?]
  | |- keeps (transaction _) => apply keeps_transaction
  | |- keeps (update_tasks _ _) => apply keeps_update_tasks
  | |- keeps (recordTaskEvent _ _ _ _ _ _ _) => by apply keeps_frame
  | |- keeps (if ?b then _ else _) => destruct b eqn:?
  | |- keeps (match ?x with _ => _ end) => destruct x eqn:?
  | |- keeps (expect_one _ _) => apply keeps_reads, reads_fail_if
  | |- keeps _ => first [by auto with vastora | apply keeps_reads; solve [auto with vastora]]
  end.

Section Rollout.
Context {L : Libraries} {C : ControlCodec}.

(** The operations of this component.  The commit of a completion writes
    executions only. *)
Inductive update_operation : Store → Store → Prop :=
| uo_queue s a t r k x n st : update_operation st (fst (queueAgentUpdate s a t r k x n st))
| uo_rollout s t k n st : update_operation st (fst (QueueAgentUpdates s t k n st))
| uo_claim s a n st : update_operation st (fst (claimAgentUpdate s a n st))
| uo_retire a v n st : update_operation st (fst (retireInstalledUnclaimedAgentUpdate a v n st))
| uo_complete commit a t k b e u n st :
    (∀ st, tasks (fst (commit st)) = tasks st) →
    update_operation st (fst (completeAgentUpdate commit a t k b e u n st)).

Lemma keeps_guarded wh f e : keeps (guarded wh f e).
Proof.
  apply keeps_frame. intros st. unfold guarded, bindM, expect_one, fail_if.
  destruct (update_executions _ _ st) as [st1 [n|]] eqn:E; unfold update_executions in E; simplify_eq.
  by case_match.
Qed.

Lemma keeps_record i v : keeps (record_update_recovery i v).
Proof. apply keeps_frame. intros st. unfold record_update_recovery. by case_match. Qed.

#[local] Hint Resolve keeps_guarded keeps_record : vastora.

Lemma keeps_recovery a x i n : keeps (authorizeAgentUpdateRecovery a x i n).
Proof. unfold authorizeAgentUpdateRecovery. repeat keeps_step. Qed.

Lemma keeps_queue_tx a t m k n : keeps (queueAgentUpdateTx a t m k n).
Proof. unfold queueAgentUpdateTx. cbv zeta. repeat keeps_step. Qed.

#[local] Hint Resolve keeps_recovery keeps_queue_tx : vastora.

Ltac inactive := intros ? ? ? Hact; exfalso; unfold active_update, str_in in Hact; simpl in Hact; bool_prop; done.

Lemma keeps_queue s a t r k x n : keeps (queueAgentUpdate s a t r k x n).
Proof.
  unfold queueAgentUpdate, supersede_update, queue_first, refuse_paused. cbv zeta.
  repeat keeps_step. inactive.
Qed.

Lemma keeps_candidates s t k n l st :
  one_active st → one_active (fst (queue_candidates s t k n l st)).
Proof.
  revert st. induction l as [|a l IH]; intros st Hst; [done|]. cbn [queue_candidates].
  destruct (unresolvedExecutionBlocksAgentUpdate _ _ _); [by apply IH|].
  pose proof (keeps_queue s (ag_id a) t None (k (ag_id a)) "" n st Hst) as Hq. unfold QueueAgentUpdate.
  destruct (queueAgentUpdate _ _ _ _ _ _ _ st) as [st' [v|e]]; specialize (IH st' Hq);
    by destruct (queue_candidates s t k n l st') as [sf [q er]].
Qed.

Lemma keeps_rollout s t k n : keeps (QueueAgentUpdates s t k n).
Proof.
  unfold QueueAgentUpdates. cbv zeta. repeat keeps_step. intros st Hst.
  match goal with |- context [queue_candidates s ?v k n ?l st] =>
    pose proof (keeps_candidates s v k n l st Hst); by destruct (queue_candidates s v k n l st) end.
Qed.

Lemma keeps_claim s a n : keeps (claimAgentUpdate s a n).
Proof.
  unfold claimAgentUpdate. cbv zeta. repeat keeps_step. intros b r Hw Hact.
  unfold active_update, is_update, str_in in *. simpl in *. bool_prop.
  match goal with H : tr_state r = _, H' : tr_agent_id r = b |- _ => rewrite H, H' end.
  by rewrite bool_decide_eq_true_2, String.eqb_refl.
Qed.

Lemma keeps_retire a v n : keeps (retireInstalledUnclaimedAgentUpdate a v n).
Proof. unfold retireInstalledUnclaimedAgentUpdate. cbv zeta. repeat keeps_step. inactive. Qed.

Lemma keeps_complete commit a t k b e u n :
  (∀ st, tasks (fst (commit st)) = tasks st) → keeps (completeAgentUpdate commit a t k b e u n).
Proof.
  intros Hc. apply keeps_frame in Hc. unfold completeAgentUpdate. cbv zeta. destruct b; repeat keeps_step.
  all: inactive.
Qed.

(** One update at a time: whatever updates are queued (singly, by recovery
    or by a rollout), retired, claimed or completed, no Agent ever has two active
    updates. *)
Theorem one_update_is_active st st' :
  one_active st → rtc update_operation st st' → one_active st'.
Proof.
  intros Hst Hs. induction Hs as [|st st1 st2 H1 _ IH]; [done|]. apply IH. destruct H1.
  - by apply keeps_queue.
  - by apply keeps_rollout.
  - by apply keeps_claim.
  - by apply keeps_retire.
  - by apply keeps_complete.
Qed.

(** ** Queueing *)
Lemma queue_tx_ok a t m k n st :
  wp (queueAgentUpdateTx a t m k n) st (λ st' v, uv_target_version v = t ∧ agents st' = agents st ∧
    executions st' = executions st ∧
    ∃ u, u ∈ tasks st' ∧ tr_id u = uv_id v ∧ tr_target_version u = t ∧ active_update a u = true).
Proof.
  unfold queueAgentUpdateTx, insert_update. cbv zeta. apply wp_bind. intros st1 [] E.
  destruct (_ || _) in E; [discriminate|]. simplify_eq. apply wp_bind. intros st2 [] E2.
  unfold recordTaskEvent in E2. simplify_eq. apply wp_ok. split_and!; try done.
  eexists. split; [cbn; apply elem_of_app; right; by left|]. unfold active_update. cbn.
  by rewrite String.eqb_refl.
Qed.

(** An Agent that may be updated to [target] at [n]. *)
Definition updatable (target : string) (n : Z) (g : agent_row) : Prop :=
  enrolled g = true ∧ ag_remote_update_supported g = true ∧
  recently_seen (ag_last_seen_at g) n = true ∧
  (semver_valid ("v" +:+ ag_version g) = true →
   0 < semver_compare ("v" +:+ target) ("v" +:+ ag_version g)).

(** Nothing fences an update of the Agent. *)
Definition update_unfenced (g : agent_row) (st : Store) : Prop :=
  unresolvedExecutionBlocksAgentUpdate (ag_id g) (ag_version g) st = false ∧
  fst (agentUpdateRolloutPaused st) = false.

Lemma queue_wp s a t r k x n st :
  wp (queueAgentUpdate s a t r k x n) st (λ st' v,
    agentUpdateAllowed s (trim_space a) = true ∧ uv_target_version v = trim_v t ∧
    (∃ g, g ∈ agents st ∧ ag_id g = trim_space a ∧ updatable (trim_v t) n g ∧
       (st' = st ∨ ag_runtime_recovery g = "" ∧ (r = None → update_unfenced g st))) ∧
    ∃ u, u ∈ tasks st' ∧ tr_id u = uv_id v ∧ tr_target_version u = trim_v t ∧
      active_update (trim_space a) u = true).
Proof.
  unfold queueAgentUpdate. cbv zeta. do 4 wp_step. destruct (sql_row _ _) as [g|] eqn:Eg; [|wp_step].
  apply sql_row_spec in Eg as [Hg Hid]. do 6 wp_step. bool_prop.
  assert (updatable (trim_v t) n g) as Hup.
  { unfold updatable, enrolled. split_and!; try done.
    - match goal with H : ag_status g = _, H' : ag_credential_revoked_at g = _ |- _ => by rewrite H, H' end.
    - intros Hv. match goal with H : (_ && _)%bool = false |- _ => rewrite Hv in H end.
      simpl in *. bool_prop. lia. }
  destruct (sql_row (active_update _) _) as [u|] eqn:Eu.
  - apply sql_row_spec in Eu as [Hu Ha]. destruct (parse_rfc3339 _) as [z|]; [|wp_step].
    destruct (negb _) eqn:Et; [|bool_prop; apply wp_ok; split_and!; try done; [exists g; auto|by exists u]].
    unfold supersede_update, refuse_paused. cbv zeta. repeat wp_step. apply wp_bind. intros st1 [] E1.
    unfold recordTaskEvent in E1. simplify_eq. eapply wp_mono; [apply queue_tx_ok|]. bool_prop.
    intros st2 v (Hv & _ & _ & Hrow). split_and!; try done; [|by rewrite <- Hid].
    exists g. split_and!; try done. right. done.
  - unfold queue_first, refuse_paused. cbv zeta. wp_step. apply wp_bind.
    intros st1 [] Hauth. repeat wp_step. eapply wp_mono; [apply queue_tx_ok|].
    intros st2 v (Hv & _ & _ & Hrow). split_and!; try done; [|by rewrite <- Hid].
    exists g. bool_prop. split_and!; try done. right. split; [done|]. intros ->.
    unfold ok in Hauth. by simplify_eq.
Qed.

(** A queued update is admissible: queueing succeeds only for an enrolled,
    remotely updatable Agent inside the scope that was seen within 45 seconds, and
    only towards a newer version; the Agent then has an active update to that
    version, and unless it was already queued, no runtime recovery, unresolved
    execution or pause stood against it. *)
Theorem queued_update_is_admissible s a t r k x n st st' v :
  queueAgentUpdate s a t r k x n st = (st', Ok v) →
  agentUpdateAllowed s (trim_space a) = true ∧ uv_target_version v = trim_v t ∧
  (∃ g, g ∈ agents st ∧ ag_id g = trim_space a ∧ updatable (trim_v t) n g ∧
     (st' = st ∨ ag_runtime_recovery g = "" ∧ (r = None → update_unfenced g st))) ∧
  ∃ u, u ∈ tasks st' ∧ tr_id u = uv_id v ∧ tr_target_version u = trim_v t ∧
    active_update (trim_space a) u = true.
Proof. exact (queue_wp s a t r k x n st st' v). Qed.

(** ** Completion *)

(** A completed update was observed: an update is reported successful only
    while it is installing and the Agent has been seen within 45 seconds at the
    target version, or when it already is successful; the attempt is the expected
    one. *)
Theorem completed_update_was_observed commit a t k e u n st st' :
  completeAgentUpdate commit a t k true e u n st = (st', Ok tt) →
  0 < k ∧ u = false ∧
  ∃ row, row ∈ tasks st ∧ is_update row = true ∧ tr_id row = t ∧ tr_agent_id row = a ∧
    tr_attempt row = k ∧
    (tr_state row = "succeeded" ∨
     tr_state row = "installing" ∧
     ∃ g, g ∈ agents st ∧ ag_id g = a ∧ ag_version g = tr_target_version row ∧
       ag_remote_update_supported g = true ∧ recently_seen (ag_last_seen_at g) n = true).
Proof.
  revert st'. match goal with |- ∀ st', _ → @?Q st' =>
    cut (wp (completeAgentUpdate commit a t k true e u n) st (λ st' _, Q st'));
    [intros Hw st' E; exact (Hw _ _ E)|] end.
  unfold completeAgentUpdate. cbv zeta. do 2 wp_step. destruct (sql_row _ _) as [row|] eqn:Er; [|wp_step].
  apply sql_row_spec in Er as [Hr Hw]. do 2 wp_step. bool_prop.
  assert (u = false) as -> by (by destruct u).
  destruct (tr_state row =?s "succeeded") eqn:Es; cbn [andb negb orb].
  - intros st' [] _. bool_prop. split_and!; [lia|done|]. exists row. split_and!; auto.
  - apply wp_bind. wp_step. destruct (sql_row _ (agents st)) as [g|] eqn:Eg; [|wp_step].
    apply sql_row_spec in Eg as [Hg Hid]. wp_step. apply wp_fail_if_last. intros Hst.
    intros st' [] _. bool_prop. split_and!; [lia|done|]. exists row. split_and!; auto.
    right. split; [done|]. by exists g.
Qed.

(** ** The status of a rollout *)
Definition counted (s : AgentUpdateRolloutStatus) : Z :=
  rs_updated s + rs_updating s + rs_pending s + rs_failed s + rs_offline s + rs_manual s + rs_blocked s.

(** A turn counts the Agent once, excludes it, or leaves it out. *)
Lemma rollout_agent_counts scope t n st s a :
  let s' := rollout_agent scope t n st s a in
  rs_total s' - counted s' = rs_total s - counted s ∧
  rs_total s <= rs_total s' ∧ rs_excluded s <= rs_excluded s' ∧
  rs_total s' + rs_excluded s' <= rs_total s + rs_excluded s + 1.
Proof.
  unfold rollout_agent. cbv zeta.
  repeat match goal with |- context [if ?b then _ else _] =>
    lazymatch b with bool_decide _ => fail | _ => destruct b end end;
  unfold counted, bump; simpl; lia.
Qed.

Lemma rollout_fold_counts scope t n st l s :
  let s' := fold_left (rollout_agent scope t n st) l s in
  rs_total s' - counted s' = rs_total s - counted s ∧
  rs_total s <= rs_total s' ∧ rs_excluded s <= rs_excluded s' ∧
  rs_total s' + rs_excluded s' <= rs_total s + rs_excluded s + Z.of_nat (length l).
Proof.
  revert s. induction l as [|a l IH]; intros s; cbn [fold_left length]; [cbv zeta; lia|].
  cbv zeta. pose proof (rollout_agent_counts scope t n st s a) as H. cbv zeta in H.
  specialize (IH (rollout_agent scope t n st s a)). cbv zeta in IH. lia.
Qed.

(** The rollout status adds up: every Agent in the total is counted in exactly
    one of updated, updating, pending, failed, offline, manual and blocked, and the
    total and the excluded Agents are at most the enrolled ones. *)
Theorem rollout_status_adds_up scope t n st s :
  rolloutStatus scope t n st = Ok s →
  rs_total s = counted s ∧ 0 <= rs_total s ∧ 0 <= rs_excluded s ∧
  rs_total s + rs_excluded s <= sql_affected enrolled (agents st).
Proof.
  unfold rolloutStatus. cbv zeta. destruct (_ || _); [discriminate|]. intros [= <-].
  pose proof (Permutation_length (slice_sort_perm name_order (sql_select enrolled (agents st)))) as Hl.
  unfold sql_affected. match goal with |- context [fold_left ?f ?l ?s0] =>
    pose proof (rollout_fold_counts scope (trim_v t) n st l s0) as H; cbv zeta in H;
    revert H; generalize (fold_left f l s0) end.
  intros s' H. unfold counted in *. simpl in *. lia.
Qed.
End Rollout.

(** ** Witnesses *)
Definition update_target_sample : string := "1.1.0".
Definition rollout_now : Z := sample_time + second.
Abbreviation queue_sample :=
  (queueAgentUpdate None "agent-1" "v1.1.0" None "token" "" rollout_now).
Definition queued_store : Store := fst (queue_sample sample_store).
Definition queued_view : AgentUpdateView :=
  mk_update_view "agent-update-token" "1.1.0" "pending" "" rollout_now.

(** The installed update, seen at the target version. *)
Definition installed_store : Store :=
  {| agents := [mk_agent "agent-1" "active" "hash-credential" "" "1.1.0" (rfc3339nano sample_time) true
                  "node" "" "0123456789abcdef0123456789abcdef" "linux" "amd64" 0 (rfc3339nano sample_time)
                  "site-1" "worker" "docker" true 2 "managed" []];
     admins := ∅; sessions := ∅; session_history := ∅; executions := []; execution_events := [];
     claim_control := None; claim_control_events := [];
     tasks := [set_tr_attempt 1 (set_tr_state "installing"
                 (update_task_row "agent-update-token" "agent-1" "1.1.0" (rfc3339nano sample_time)))];
     task_events := []; applications := []; node_sites := []; reinstall_operations := [];
     update_recoveries := ∅; side_rows := []; registry := empty_registry |}.
Abbreviation complete_sample :=
  (completeAgentUpdate (ok tt) "agent-1" "agent-update-token" 1 true "" false rollout_now).
Definition completed_store : Store := fst (complete_sample installed_store).

Definition sample_status : AgentUpdateRolloutStatus :=
  mk_rollout false 0 "1.1.0" 1 0 0 1 0 0 0 0 false.

Opaque queued_store completed_store.

Lemma sample_one_active : one_active sample_store.
Proof. intros a. vm_compute. discriminate. Qed.

Lemma one_update_is_active_witness : one_active queued_store.
Proof.
  exact (one_update_is_active sample_store queued_store sample_one_active
    (rtc_once _ _ (uo_queue None "agent-1" "v1.1.0" None "token" "" rollout_now sample_store))).
Defined.

Lemma queued_update_is_admissible_witness :
  queue_sample sample_store = (queued_store, Ok queued_view) ∧
  ∃ u, u ∈ tasks queued_store ∧ tr_target_version u = trim_v "v1.1.0".
Proof.
  assert (queue_sample sample_store = (queued_store, Ok queued_view)) as H by (vm_compute; reflexivity).
  split; [exact H|].
  destruct (queued_update_is_admissible None "agent-1" "v1.1.0" None "token" "" rollout_now sample_store
              queued_store queued_view H) as (_ & _ & _ & u & Hu & _ & Ht & _).
  exists u. exact (conj Hu Ht).
Defined.

Lemma completed_update_was_observed_witness :
  complete_sample installed_store = (completed_store, Ok tt) ∧
  ∃ row, row ∈ tasks installed_store ∧ tr_attempt row = 1.
Proof.
  assert (complete_sample installed_store = (completed_store, Ok tt)) as H by (vm_compute; reflexivity).
  split; [exact H|].
  destruct (completed_update_was_observed (ok tt) "agent-1" "agent-update-token" 1 "" false rollout_now
              installed_store completed_store H) as (_ & _ & row & Hr & _ & _ & _ & Hk & _).
  exists row. exact (conj Hr Hk).
Defined.

Lemma rollout_status_adds_up_witness :
  rolloutStatus None "v1.1.0" rollout_now sample_store = Ok sample_status ∧
  rs_total sample_status = counted sample_status.
Proof.
  assert (rolloutStatus None "v1.1.0" rollout_now sample_store = Ok sample_status) as H
    by (vm_compute; reflexivity).
  split; [exact H|].
  exact (proj1 (rollout_status_adds_up None "v1.1.0" rollout_now sample_store sample_status H)).
Defined.
