(* ===== verification/GoNet.v ===== *)
(** * Addresses and host names

    The parts of Go's packages net and net/netip the sources use: [net.ParseIP],
    [To4], [String] and the predicates on addresses; and the host-name patterns of
    the gateway.  An address is the list of its sixteen bytes, an IPv4 address in
    the mapped form, as [net.ParseIP] returns it. *)
From Stdlib Require Import Ascii.
From S2P Require Import Prelude GoText.

Definition IP := list Z.

Abbreviation code := Ascii.nat_of_ascii.

Definition v4_in_6 (l : list Z) : IP := repeat 0 10 ++ [255; 255] ++ l.

(** ** IPv4 text *)

(** [parseIPv4Fields]: [len] is the number of digits of the current field, [dot]
    tells that the last character was a dot or the start. *)
Fixpoint v4_fields (s : string) (val : Z) (len : nat) (dot : bool) (fields : list Z) : option (list Z) :=
  match s with
  | "" => if dot || negb (Nat.eqb (length fields) 3) then None else Some (fields ++ [val])
  | String c s' =>
      match digit_value c with
      | Some d =>
          if Nat.eqb len 1 && (val =? 0) then None
          else let val := 10 * val + d in
               if 255 <? val then None else v4_fields s' val (S len) false fields
      | None =>
          if negb (Nat.eqb (code c) 46) || dot || Nat.eqb (length fields) 3 then None
          else v4_fields s' 0 0 true (fields ++ [val])
      end
  end.

Definition parse_v4 (s : string) : option (list Z) := v4_fields s 0 0 true [].

(** ** IPv6 text *)
Definition hex_value (c : ascii) : option Z :=
  let n := Z.of_nat (code c) in
  if (48 <=? n) && (n <=? 57) then Some (n - 48)
  else if (97 <=? n) && (n <=? 102) then Some (n - 87)
  else if (65 <=? n) && (n <=? 70) then Some (n - 55)
  else None.

(** The hexadecimal prefix of a text: its value, number of digits and the rest. *)
Fixpoint take_hex (s : string) (acc : Z) (n : nat) : Z * nat * string :=
  match s with
  | String c s' => match hex_value c with
                   | Some v => take_hex s' (16 * acc + v) (S n)
                   | None => (acc, n, s)
                   end
  | "" => (acc, n, "")
  end.

(** The loop of [parseIPv6]: the bytes read, the position of the ellipsis and the
    rest of the text.  Each turn adds two bytes or ends, so eight turns are enough. *)
Fixpoint v6_groups (fuel : nat) (s : string) (bytes : list Z) (ellipsis : option nat)
    : option (list Z * option nat * string) :=
  match fuel with
  | O => Some (bytes, ellipsis, s)
  | S fuel' =>
      let '(acc, n, rest) := take_hex s 0 0 in
      if Nat.eqb n 0 || Nat.ltb 4 n then None
      else if has_prefix "." rest then
        if (negb (is_Some_b ellipsis) && negb (Nat.eqb (length bytes) 12))
           || Nat.ltb 16 (length bytes + 4) then None
        else match parse_v4 s with
             | Some v4 => Some (bytes ++ v4, ellipsis, "")
             | None => None
             end
      else
        let bytes := bytes ++ [acc / 256; acc mod 256] in
        match rest with
        | "" => Some (bytes, ellipsis, "")
        | String c rest' =>
            if negb (Nat.eqb (code c) 58) || (rest' =?s "") then None
            else if has_prefix ":" rest' then
              if is_Some_b ellipsis then None
              else let rest := String.substring 1 (String.length rest' - 1) rest' in
                   if rest =?s "" then Some (bytes, Some (length bytes), "")
                   else v6_groups fuel' rest bytes (Some (length bytes))
            else v6_groups fuel' rest' bytes ellipsis
        end
  end.

Definition parse_v6 (s : string) : option IP :=
  let '(s, ellipsis) :=
    if has_prefix "::" s then (String.substring 2 (String.length s - 2) s, Some 0%nat) else (s, None) in
  if is_Some_b ellipsis && (s =?s "") then Some (repeat 0 16)
  else match v6_groups 8 s [] ellipsis with
       | None => None
       | Some (bytes, ellipsis, rest) =>
           if negb (rest =?s "") then None
           else match ellipsis with
                | None => if Nat.ltb (length bytes) 16 then None else Some bytes
                | Some e => if Nat.ltb (length bytes) 16
                            then Some (take e bytes ++ repeat 0 (16 - length bytes) ++ drop e bytes)
                            else None
                end
       end.

(** The first of the characters [.], [:] and [%] decides the syntax. *)
Fixpoint ip_syntax (s : string) : option ascii :=
  match s with
  | "" => None
  | String c s' => if Nat.eqb (code c) 46 || Nat.eqb (code c) 58 || Nat.eqb (code c) 37
                   then Some c else ip_syntax s'
  end.

(** [net.ParseIP], which rejects a zone. *)
Definition ParseIP (s : string) : option IP :=
  match ip_syntax s with
  | Some c =>
      if Nat.eqb (code c) 46 then match parse_v4 s with Some l => Some (v4_in_6 l) | None => None end
      else if Nat.eqb (code c) 58 then
        if contains s "%" then None else parse_v6 s
      else None
  | None => None
  end.

(** ** Predicates *)
Definition To4 (ip : IP) : option (list Z) :=
  if bool_decide (take 12 ip = repeat 0 10 ++ [255; 255]) then Some (drop 12 ip) else None.

Definition byte_at (ip : list Z) (i : nat) : Z := nth i ip 0.

Definition IsLoopback (ip : IP) : bool :=
  match To4 ip with
  | Some v4 => byte_at v4 0 =? 127
  | None => bool_decide (ip = repeat 0 15 ++ [1])
  end.
Definition IsUnspecified (ip : IP) : bool :=
  bool_decide (ip = v4_in_6 [0; 0; 0; 0]) || bool_decide (ip = repeat 0 16).
Definition IsMulticast (ip : IP) : bool :=
  match To4 ip with
  | Some v4 => Z.land (byte_at v4 0) 240 =? 224
  | None => byte_at ip 0 =? 255
  end.
Definition IsLinkLocalUnicast (ip : IP) : bool :=
  match To4 ip with
  | Some v4 => (byte_at v4 0 =? 169) && (byte_at v4 1 =? 254)
  | None => (byte_at ip 0 =? 254) && (Z.land (byte_at ip 1) 192 =? 128)
  end.
Definition IsPrivate (ip : IP) : bool :=
  match To4 ip with
  | Some v4 => (byte_at v4 0 =? 10)
               || ((byte_at v4 0 =? 172) && (Z.land (byte_at v4 1) 240 =? 16))
               || ((byte_at v4 0 =? 192) && (byte_at v4 1 =? 168))
  | None => Z.land (byte_at ip 0) 254 =? 252
  end.
(** [IsGlobalUnicast] of a parsed address. *)
Definition IsGlobalUnicast (ip : IP) : bool :=
  negb (bool_decide (ip = v4_in_6 [255; 255; 255; 255])) && negb (IsUnspecified ip)
  && negb (IsLoopback ip) && negb (IsMulticast ip) && negb (IsLinkLocalUnicast ip).

(** ** [String] *)
Definition hex_digit (n : Z) : ascii :=
  ascii_of_N (Z.to_N (if n <? 10 then 48 + n else 87 + n)).

(** A 16-bit group without leading zeros. *)
Definition hex_group (n : Z) : string :=
  let d k := String (hex_digit (n / k mod 16)) "" in
  (if 4096 <=? n then d 4096 else "") +:+ (if 256 <=? n then d 256 else "")
  +:+ (if 16 <=? n then d 16 else "") +:+ d 1.

Fixpoint groups (l : list Z) : list Z :=
  match l with a :: b :: l' => 256 * a + b :: groups l' | _ => [] end.

Fixpoint zero_run (l : list Z) : nat :=
  match l with 0 :: l' => S (zero_run l') | _ => O end.

(** The first longest run of at least two zero groups: start and length. *)
Fixpoint longest_run (l : list Z) (i : nat) (best : nat * nat) : nat * nat :=
  match l with
  | [] => best
  | _ :: l' =>
      let n := zero_run l in
      longest_run l' (S i) (if Nat.leb 2 n && Nat.ltb (snd best) n then (i, n) else best)
  end.

Definition join (sep : string) (l : list string) : string :=
  match l with [] => "" | x :: l' => fold_left (λ acc y, acc +:+ sep +:+ y) l' x end.

Definition ip_string (ip : IP) : string :=
  match To4 ip with
  | Some v4 => join "." (map decimal v4)
  | None =>
      let g := groups ip in
      let '(i, n) := longest_run g 0 (0, 0)%nat in
      if Nat.eqb n 0 then join ":" (map hex_group g)
      else join ":" (map hex_group (take i g)) +:+ "::" +:+ join ":" (map hex_group (drop (i + n) g))
  end.

Example parse_examples :
  ParseIP "192.168.0.1" = Some (v4_in_6 [192; 168; 0; 1]) ∧ ParseIP "192.168.00.1" = None ∧
  ParseIP "1.2.3" = None ∧ ParseIP "1.2.3.4." = None ∧ ParseIP "::ffff:10.0.0.1" = Some (v4_in_6 [10; 0; 0; 1]) ∧
  ParseIP "2001:db8::1" = Some ([32; 1; 13; 184] ++ repeat 0 11 ++ [1]) ∧
  ParseIP "fe80::1%eth0" = None ∧ ParseIP "::" = Some (repeat 0 16) ∧ ParseIP "1::2::3" = None ∧
  ParseIP "1:2:3:4:5:6:7:8:9" = None ∧ ParseIP "example" = None.
Proof. vm_compute. tauto. Qed.

Example string_examples :
  (ip_string <$> ParseIP "::ffff:10.0.0.1") = Some "10.0.0.1" ∧
  (ip_string <$> ParseIP "2001:DB8:0:0:1:0:0:1") = Some "2001:db8::1:0:0:1" ∧
  (ip_string <$> ParseIP "::") = Some "::" ∧ (ip_string <$> ParseIP "1::") = Some "1::" ∧
  (ip_string <$> ParseIP "1:2:3:4:5:6:7:0") = Some "1:2:3:4:5:6:7:0".
Proof. vm_compute. tauto. Qed.

(** ** net/netip: addresses with their family and zone *)
Inductive Addr := Addr4 (b : list Z) | Addr6 (b : list Z) (zone : string).

(** The text before the first [%], and what follows it. *)
Fixpoint cut_zone (s : string) : string * option string :=
  match s with
  | "" => ("", None)
  | String c s' =>
      if Nat.eqb (code c) 37 then ("", Some s')
      else let '(a, z) := cut_zone s' in (String c a, z)
  end.

(** [netip.ParseAddr]. *)
Definition ParseAddr (s : string) : option Addr :=
  match ip_syntax s with
  | Some c =>
      if Nat.eqb (code c) 46 then Addr4 <$> parse_v4 s
      else if Nat.eqb (code c) 58 then
        let '(a, z) := cut_zone s in
        if bool_decide (z = Some "") then None
        else (λ b, Addr6 b (default "" z)) <$> parse_v6 a
      else None
  | None => None
  end.

(** [Addr.String]: an IPv4-mapped address keeps its prefix. *)
Definition addr_string (a : Addr) : string :=
  match a with
  | Addr4 b => join "." (map decimal b)
  | Addr6 b zone =>
      (match To4 b with
       | Some v4 => "::ffff:" +:+ join "." (map decimal v4)
       | None => ip_string b
       end) +:+ (if zone =?s "" then "" else "%" +:+ zone)
  end.

Definition Is4 (a : Addr) : bool := match a with Addr4 _ => true | Addr6 _ _ => false end.
Definition Is4In6 (a : Addr) : bool :=
  match a with Addr4 _ => false | Addr6 b _ => is_Some_b (To4 b) end.
Definition Zone (a : Addr) : string := match a with Addr4 _ => "" | Addr6 _ z => z end.

(** The 16-byte form, on which the predicates above are those of [Addr]. *)
Definition addr_ip (a : Addr) : IP := match a with Addr4 b => v4_in_6 b | Addr6 b _ => b end.

(** [MustParsePrefix] of the prefixes the sources write, and [Prefix.Contains]:
    same family, no zone, equal leading bits. *)
Definition be_value (l : list Z) : Z := fold_left (λ acc b, 256 * acc + b) l 0.
Definition prefix_contains (p : Addr) (bits : Z) (a : Addr) : bool :=
  match p, a with
  | Addr4 x, Addr4 y => be_value x / 2 ^ (32 - bits) =? be_value y / 2 ^ (32 - bits)
  | Addr6 x _, Addr6 y zone =>
      (zone =?s "") && (be_value x / 2 ^ (128 - bits) =? be_value y / 2 ^ (128 - bits))
  | _, _ => false
  end.

Example addr_examples :
  ParseAddr "100.64.0.1" = Some (Addr4 [100; 64; 0; 1]) ∧
  ParseAddr "fe80::1%eth0" = Some (Addr6 ([254; 128] ++ repeat 0 13 ++ [1]) "eth0") ∧
  ParseAddr "fe80::1%" = None ∧ ParseAddr "1.2.3.4%a" = None ∧ ParseAddr "%eth0" = None ∧
  (addr_string <$> ParseAddr "::ffff:100.64.0.1") = Some "::ffff:100.64.0.1" ∧
  (addr_string <$> ParseAddr "fe80:0::1%eth0") = Some "fe80::1%eth0".
Proof. vm_compute. tauto. Qed.

(** ** Host names *)

Fixpoint split_dots (cur : string) (s : string) : list string :=
  match s with
  | "" => [cur]
  | String c s' => if Nat.eqb (code c) 46 then cur :: split_dots "" s'
                   else split_dots (cur +:+ String c "") s'
  end.

Definition is_alnum (c : ascii) : bool :=
  let n := code c in (Nat.leb 97 n && Nat.leb n 122) || (Nat.leb 48 n && Nat.leb n 57).

Fixpoint last_char (s : string) (d : ascii) : ascii :=
  match s with "" => d | String c s' => last_char s' c end.

(** [[a-z0-9](?:[a-z0-9-]{0,61}[a-z0-9])?]. *)
Definition valid_label (l : string) : bool :=
  match l with
  | "" => false
  | String c _ =>
      (str_len l <=? 63) && is_alnum c && is_alnum (last_char l c)
      && forallb (λ c, is_alnum c || Nat.eqb (code c) 45) (String.list_ascii_of_string l)
  end.

(** [hostnamePattern]: at least two labels; [containerHostnamePattern]: at least one. *)
Definition hostnamePattern (s : string) : bool :=
  let l := split_dots "" s in Nat.leb 2 (length l) && forallb valid_label l.
Definition containerHostnamePattern (s : string) : bool := forallb valid_label (split_dots "" s).

Example hostname_examples :
  hostnamePattern "a-1.example.com" = true ∧ hostnamePattern "example" = false ∧
  hostnamePattern "-a.com" = false ∧ hostnamePattern "a..com" = false ∧ hostnamePattern "A.com" = false ∧
  containerHostnamePattern "caddy" = true ∧ containerHostnamePattern "" = false.
Proof. vm_compute. tauto. Qed.
