(* ===== verification/Orders.v ===== *)
(** * Orders for [sort.Slice]

    Strict weak orders as Boolean functions, built from keys and lexicographic
    composition, and the uniqueness of sorting with them. *)
From S2P Require Import Prelude.

Record weak_order {A} (less : A → A → bool) : Prop := mk_weak_order {
  wo_irrefl : ∀ x, less x x = false;
  wo_trans : ∀ x y z, less x y = true → less y z = true → less x z = true;
  wo_ntrans : ∀ x y z, less x y = false → less y z = false → less x z = false
}.

Section Orders.
Context {A : Type}.
Implicit Types less : A → A → bool.

Lemma weak_order_ext less less' : (∀ x y, less x y = less' x y) → weak_order less' → weak_order less.
Proof. intros E [H1 H2 H3]. split; intros *; rewrite ?E; eauto. Qed.

Lemma wo_string (k : A → string) : weak_order (λ a b, k a <?s k b).
Proof.
  split; intros *; [apply ltb_irrefl_s|apply ltb_trans_s|apply nltb_trans_s].
Qed.

Lemma wo_Z (k : A → Z) : weak_order (λ a b, k a <? k b).
Proof. split; intros *; rewrite ?Z.ltb_ge, ?Z.ltb_lt; lia. Qed.

Lemma wo_bool (k : A → bool) : weak_order (λ a b, k a && negb (k b)).
Proof. split; intros *; repeat match goal with |- context [k ?x] => destruct (k x) end; done. Qed.

Lemma wo_lex less1 less2 (eqb : A → A → bool) :
  weak_order less1 → weak_order less2 →
  (∀ a b, eqb a b = negb (less1 a b) && negb (less1 b a)) →
  weak_order (λ a b, if eqb a b then less2 a b else less1 a b).
Proof.
  intros [I1 T1 N1] [I2 T2 N2] E. split.
  - intros x. rewrite E, I1. apply I2.
  - intros x y z. rewrite !E.
    pose proof (T1 x y z); pose proof (T1 y z x); pose proof (T1 z x y); pose proof (N1 x y z);
    pose proof (N1 y z x); pose proof (N1 z x y); pose proof (N1 z y x); pose proof (N1 y x z);
    pose proof (N1 x z y); pose proof (T1 z y x); pose proof (T1 y x z); pose proof (T1 x z y);
    pose proof (T2 x y z).
    destruct (less1 x y), (less1 y z), (less1 x z), (less1 y x), (less1 z y), (less1 z x);
      simpl in *; intuition congruence.
  - intros x y z. rewrite !E.
    pose proof (T1 x y z); pose proof (T1 y z x); pose proof (T1 z x y); pose proof (N1 x y z);
    pose proof (N1 y z x); pose proof (N1 z x y); pose proof (N1 z y x); pose proof (N1 y x z);
    pose proof (N1 x z y); pose proof (T1 z y x); pose proof (T1 y x z); pose proof (T1 x z y);
    pose proof (N2 x y z).
    destruct (less1 x y), (less1 y z), (less1 x z), (less1 y x), (less1 z y), (less1 z x);
      simpl in *; intuition congruence.
Qed.

Lemma string_eqb_less (a b : string) : (a =?s b) = negb (a <?s b) && negb (b <?s a).
Proof.
  destruct (a =?s b) eqn:E; bool_prop.
  - subst. by rewrite ltb_irrefl_s.
  - destruct (a <?s b) eqn:E1; [done|]. destruct (b <?s a) eqn:E2; [done|].
    by pose proof (ltb_eq_s _ _ E1 E2).
Qed.

Lemma Z_eqb_less (a b : Z) : (a =? b) = negb (a <? b) && negb (b <? a).
Proof. destruct (Z.eqb_spec a b), (Z.ltb_spec a b), (Z.ltb_spec b a); done || lia. Qed.

(** Sorting permuted lists gives the same list when the order separates their elements. *)
Lemma slice_sort_unique {Srt : SliceSorter} less l1 l2 :
  weak_order less → l1 ≡ₚ l2 →
  (∀ x y, x ∈ l1 → y ∈ l1 → less x y = false → less y x = false → x = y) →
  slice_sort less l1 = slice_sort less l2.
Proof.
  intros [I T N] Hp Hsep. apply (sorted_perm_unique less).
  - by rewrite !slice_sort_perm.
  - by apply slice_sort_sorted.
  - by apply slice_sort_sorted.
  - intros x y Hx Hy. rewrite slice_sort_perm in Hx, Hy. by apply Hsep.
Qed.
End Orders.
