(* ===== verification/Gateway.v ===== *)
(** * The gateway's desired state

    internal/gateway/model.go: validation, canonical order and hash of the desired
    state of a Site Gateway and of a node listener.  X.509 and PEM are a parameter
    ([CertificateReader]); JSON and SHA-256 are the encoders of [StateHash].  The
    texts of formatted errors are those of the format, without its arguments. *)
From Stdlib Require Import Ascii.
From S2P Require Import Prelude GoText GoNet.

Record Upstream := mk_upstream { us_address : string; us_port : Z }.
Record Listener := mk_listener {
  ls_kind : string; ls_address : string; ls_http_port : Z; ls_https_port : Z
}.
Record Route := mk_route {
  rt_id : string; rt_hostname : string; rt_path : string; rt_protocol : string;
  rt_upstreams : list Upstream; rt_tls_enabled : bool; rt_listener_kind : string; rt_system : bool
}.
Record Layer4Route := mk_layer4 {
  l4_id : string; l4_hostname : string; l4_application_node_id : string; l4_managed_reality : bool;
  l4_proxy_protocol : string; l4_upstreams : list Upstream
}.
Record SharedHTTPS := mk_shared {
  sh_address : string; sh_port : Z; sh_caddy_address : string; sh_caddy_port : Z;
  sh_reject_unmatched : bool; sh_routes : list Layer4Route
}.
Record DesiredState := mk_state {
  ds_revision : Z; ds_listeners : list Listener; ds_routes : list Route;
  ds_shared : option SharedHTTPS
}.
Record NodeListenerState := mk_node_listener {
  nl_revision : Z; nl_node_id : string; nl_listener : SharedHTTPS
}.
Record Certificate := mk_certificate {
  ce_hostname : string; ce_certificate_pem : string; ce_private_key_pem : string
}.

Definition ProxyProtocolV2 : string := "v2".

(** [LocalTLSOrigin]. *)
Definition LocalTLSOrigin (r : Route) : bool :=
  (rt_listener_kind r =?s "public") && rt_tls_enabled r && negb (rt_system r) && (rt_path r =?s "").

(** ** Validation *)
Definition port_ok (p : Z) : bool := (1 <=? p) && (p <=? 65535).
Definition is_ipv4 (s : string) : bool :=
  match ParseIP s with Some ip => is_Some_b (To4 ip) | None => false end.

Definition validUpstreamAddress (value : string) : bool :=
  let value := to_lower (trim_space value) in
  match ParseIP value with
  | Some ip => is_Some_b (To4 ip)
  | None => containerHostnamePattern value
  end.

Definition upstream_ok (u : Upstream) : bool :=
  validUpstreamAddress (us_address u) && port_ok (us_port u).

Definition listener_kinds : list string := ["lan"; "headscale"; "public"; "system"].

(** The map from the kind to the listener, built by the first loop. *)
Fixpoint validate_listeners (l : list Listener) (listeners : gmap string Listener)
    : res (gmap string Listener) :=
  match l with
  | [] => Ok listeners
  | x :: l' =>
      if negb (str_in (ls_kind x) listener_kinds) then Err "gateway: unsupported listener kind"
      else if is_Some_b (listeners !! ls_kind x) then Err "gateway: duplicate listener kind"
      else if negb (is_ipv4 (ls_address x)) || negb (port_ok (ls_http_port x))
              || negb (port_ok (ls_https_port x))
      then Err "gateway: invalid listener"
      else validate_listeners l' (<[ls_kind x := x]> listeners)
  end.

Definition NUL : string := String (ascii_of_nat 0) "".
Definition match_key (r : Route) : string :=
  rt_listener_kind r +:+ NUL +:+ rt_hostname r +:+ NUL +:+ rt_path r.

Definition path_invalid (p : string) : bool :=
  negb (p =?s "") && (negb (has_prefix "/" p)
                      || contains_any p (map ascii_of_nat [63; 35]%nat) || (2048 <? str_len p)).

Fixpoint validate_routes (l : list Route) (listeners : gmap string Listener)
    (seenIDs seenMatches : gset string) : res unit :=
  match l with
  | [] => Ok tt
  | r :: l' =>
      if trim_space (rt_id r) =?s "" then Err "gateway: route id is required"
      else if bool_decide (rt_id r ∈ seenIDs) then Err "gateway: duplicate route id"
      else if negb (hostnamePattern (rt_hostname r)) then Err "gateway: invalid hostname"
      else if path_invalid (rt_path r) then Err "gateway: route has an invalid exact path"
      else if bool_decide (match_key r ∈ seenMatches) then Err "gateway: duplicate hostname and path"
      else if negb (is_Some_b (listeners !! rt_listener_kind r))
      then Err "gateway: route references an unavailable listener"
      else if negb (str_in (rt_protocol r) ["http"; "https"]) then Err "gateway: unsupported protocol"
      else if Nat.eqb (length (rt_upstreams r)) 0 then Err "gateway: route requires an upstream"
      else if negb (forallb upstream_ok (rt_upstreams r))
      then Err "gateway: route has an invalid upstream"
      else validate_routes l' listeners ({[ rt_id r ]} ∪ seenIDs) ({[ match_key r ]} ∪ seenMatches)
  end.

(** The loop over the layer-4 routes; [webHosts] are the public TLS host names. *)
Fixpoint validate_layer4 (l : list Layer4Route) (webHosts seen : gset string) : res unit :=
  match l with
  | [] => Ok tt
  | r :: l' =>
      if (trim_space (l4_id r) =?s "") || negb (hostnamePattern (l4_hostname r))
         || Nat.eqb (length (l4_upstreams r)) 0
      then Err "gateway: invalid shared HTTPS route"
      else if negb (l4_proxy_protocol r =?s "") && negb (l4_proxy_protocol r =?s ProxyProtocolV2)
      then Err "gateway: shared HTTPS route has an invalid Proxy Protocol mode"
      else if bool_decide (l4_hostname r ∈ seen) || bool_decide (l4_hostname r ∈ webHosts)
      then Err "gateway: duplicate shared HTTPS hostname"
      else if negb (forallb upstream_ok (l4_upstreams r))
      then Err "gateway: shared HTTPS route has an invalid upstream"
      else validate_layer4 l' webHosts ({[ l4_hostname r ]} ∪ seen)
  end.

Definition web_hosts (l : list Route) : gset string :=
  list_to_set (map rt_hostname
    (List.filter (λ r, (rt_listener_kind r =?s "public") && rt_tls_enabled r) l)).

Definition validate_shared (s : DesiredState) (shared : SharedHTTPS) (listeners : gmap string Listener)
    : res unit :=
  if negb (is_ipv4 (sh_address shared)) || negb (port_ok (sh_port shared))
  then Err "gateway: invalid shared HTTPS frontend"
  else if negb (sh_reject_unmatched shared)
          && (negb (validUpstreamAddress (sh_caddy_address shared)) || negb (port_ok (sh_caddy_port shared)))
  then Err "gateway: shared HTTPS frontend requires a Caddy backend"
  else if negb (sh_reject_unmatched shared)
          && (sh_address shared =?s sh_caddy_address shared) && (sh_port shared =? sh_caddy_port shared)
  then Err "gateway: shared HTTPS frontend and Caddy backend must use different sockets"
  else match listeners !! "public" with
       | Some p =>
           if negb (ls_address p =?s sh_address shared) || negb (ls_https_port p =? sh_port shared)
           then Err "gateway: shared HTTPS frontend requires the matching public listener"
           else validate_layer4 (sh_routes shared) (web_hosts (ds_routes s)) ∅
       | None => Err "gateway: shared HTTPS frontend requires the matching public listener"
       end.

Definition Validate (s : DesiredState) : res unit :=
  if ds_revision s <? 1 then Err "gateway: revision must be positive" else
  let! listeners := validate_listeners (ds_listeners s) ∅ in
  validate_routes (ds_routes s) listeners ∅ ∅ ;;!
  match ds_shared s with
  | None => Ok tt
  | Some shared => validate_shared s shared listeners
  end.

(** ** Canonical order *)
Section Sorted.
Context {Srt : SliceSorter}.

Definition upstream_less (a b : Upstream) : bool :=
  if us_address a =?s us_address b then us_port a <? us_port b else us_address a <?s us_address b.

Definition route_less (a b : Route) : bool :=
  if negb (rt_listener_kind a =?s rt_listener_kind b) then rt_listener_kind a <?s rt_listener_kind b
  else if negb (rt_hostname a =?s rt_hostname b) then rt_hostname a <?s rt_hostname b
  else if negb (Bool.eqb (negb (rt_path a =?s "")) (negb (rt_path b =?s ""))) then negb (rt_path a =?s "")
  else if negb (rt_path a =?s rt_path b) then rt_path a <?s rt_path b
  else rt_id a <?s rt_id b.

Definition sort_upstreams (l : list Upstream) : list Upstream := slice_sort upstream_less l.

Definition sorted_route (r : Route) : Route :=
  mk_route (rt_id r) (rt_hostname r) (rt_path r) (rt_protocol r) (sort_upstreams (rt_upstreams r))
    (rt_tls_enabled r) (rt_listener_kind r) (rt_system r).

Definition sorted_layer4 (r : Layer4Route) : Layer4Route :=
  mk_layer4 (l4_id r) (l4_hostname r) (l4_application_node_id r) (l4_managed_reality r)
    (l4_proxy_protocol r) (sort_upstreams (l4_upstreams r)).

Definition sorted_shared (s : SharedHTTPS) : SharedHTTPS :=
  mk_shared (sh_address s) (sh_port s) (sh_caddy_address s) (sh_caddy_port s) (sh_reject_unmatched s)
    (slice_sort (λ a b, l4_id a <?s l4_id b) (map sorted_layer4 (sh_routes s))).

Definition Sorted (s : DesiredState) : DesiredState :=
  mk_state (ds_revision s)
    (slice_sort (λ a b, ls_kind a <?s ls_kind b) (ds_listeners s))
    (slice_sort route_less (map sorted_route (ds_routes s)))
    (match ds_shared s with Some sh => Some (sorted_shared sh) | None => None end).

(** ** Node listeners *)

(** The probe state of [NodeListenerState.Validate] and [Sorted]. *)
Definition probe (s : NodeListenerState) : DesiredState :=
  mk_state (nl_revision s)
    [mk_listener "public" (sh_address (nl_listener s)) 80 (sh_port (nl_listener s))] []
    (Some (nl_listener s)).

Definition NodeListenerValidate (s : NodeListenerState) : res unit :=
  if nl_revision s <? 1 then Err "node listener: revision must be positive"
  else if trim_space (nl_node_id s) =?s "" then Err "node listener: accepting node is required"
  else if negb (forallb (λ r, l4_application_node_id r =?s nl_node_id s) (sh_routes (nl_listener s)))
  then Err "node listener: every upstream must belong to the accepting application node"
  else Validate (probe s).

Definition NodeListenerSorted (s : NodeListenerState) : NodeListenerState :=
  mk_node_listener (nl_revision s) (nl_node_id s)
    (default (nl_listener s) (ds_shared (Sorted (probe s)))).

(** ** Certificates and hashes *)

(** What the code uses of encoding/pem and crypto/x509: the type and bytes of a PEM
    block, the parsed certificate and key, and their PKIX public keys. *)
Class CertificateReader := {
  x509_certificate : Type;
  x509_private_key : Type;
  pem_Decode : string → option (string * string);
  x509_ParseCertificate : string → option x509_certificate;
  x509_ParsePKCS8PrivateKey : string → option x509_private_key;
  VerifyHostname : x509_certificate → string → bool;
  DNSNames : x509_certificate → list string;
  NotBefore : x509_certificate → Z;
  NotAfter : x509_certificate → Z;
  is_signer : x509_private_key → bool;
  certificate_pkix : x509_certificate → option string;
  signer_pkix : x509_private_key → option string
}.

(** JSON and SHA-256. *)
Class StateHash := {
  state_json : DesiredState → string;
  listener_json : NodeListenerState → string;
  certificates_json : list Certificate → string;
  state_sha256 : string → string
}.

Context {CR : CertificateReader} {SH : StateHash}.

Definition certificate_less (a b : Certificate) : bool :=
  if negb (ce_hostname a =?s ce_hostname b) then ce_hostname a <?s ce_hostname b
  else if negb (ce_certificate_pem a =?s ce_certificate_pem b)
       then ce_certificate_pem a <?s ce_certificate_pem b
  else ce_private_key_pem a <?s ce_private_key_pem b.

Definition ConfigurationHash (s : DesiredState) (certificates : list Certificate) : res string :=
  Validate s ;;!
  Ok (state_sha256 (state_json (Sorted s)
                    +:+ certificates_json (slice_sort certificate_less certificates))).

Definition NodeListenerConfigurationHash (s : NodeListenerState) : res string :=
  NodeListenerValidate s ;;!
  Ok (state_sha256 (listener_json (NodeListenerSorted s))).

Definition count_stars (s : string) : nat :=
  length (List.filter (λ c, Nat.eqb (code c) 42) (String.list_ascii_of_string s)).

Definition validCertificateName (name : string) : bool :=
  let name := to_lower (trim_space name) in
  if has_prefix "*." name
  then Nat.eqb (count_stars name) 1
       && hostnamePattern (String.substring 2 (String.length name - 2) name)
  else hostnamePattern name.

(** The block of a PEM text, when it has the type [kind]. *)
Definition pem_block (kind text : string) : option string :=
  match pem_Decode text with
  | Some (t, bytes) => if t =?s kind then Some bytes else None
  | None => None
  end.

Definition CertificateCoversHostname (value : Certificate) (hostname : string) : bool :=
  match pem_block "CERTIFICATE" (ce_certificate_pem value) with
  | None => false
  | Some bytes =>
      match x509_ParseCertificate bytes with
      | Some certificate => VerifyHostname certificate hostname
      | None => false
      end
  end.

(** [strings.EqualFold] on ASCII names. *)
Definition certificateCoversName (certificate : x509_certificate) (name : string) : bool :=
  if has_prefix "*." name
  then existsb (λ dnsName, to_lower dnsName =?s to_lower name) (DNSNames certificate)
  else VerifyHostname certificate name.

(** The checks of one certificate after the test for duplicates. *)
Definition check_certificate (now : Z) (v : Certificate) : res unit :=
  match pem_block "CERTIFICATE" (ce_certificate_pem v), pem_block "PRIVATE KEY" (ce_private_key_pem v) with
  | Some certificateBytes, Some keyBytes =>
      match x509_ParseCertificate certificateBytes, x509_ParsePKCS8PrivateKey keyBytes with
      | Some certificate, Some privateKey =>
          if negb (is_signer privateKey) || negb (certificateCoversName certificate (ce_hostname v))
             || (now <? NotBefore certificate) || negb (now <? NotAfter certificate)
          then Err "gateway: invalid TLS certificate"
          else match certificate_pkix certificate, signer_pkix privateKey with
               | Some a, Some b =>
                   guard_err (negb (a =?s b)) "gateway: TLS certificate and private key do not match"
               | _, _ => Err "gateway: TLS certificate and private key do not match"
               end
      | _, _ => Err "gateway: invalid TLS certificate"
      end
  | _, _ => Err "gateway: invalid TLS certificate"
  end.

Fixpoint validate_certificates (now : Z) (l : list Certificate) (seen : gset string) : res unit :=
  match l with
  | [] => Ok tt
  | v :: l' =>
      if negb (validCertificateName (ce_hostname v)) || (trim_space (ce_certificate_pem v) =?s "")
         || (trim_space (ce_private_key_pem v) =?s "")
      then Err "gateway: invalid TLS certificate"
      else if bool_decide (ce_hostname v ∈ seen) then Err "gateway: duplicate TLS certificate"
      else check_certificate now v ;;!
           validate_certificates now l' ({[ ce_hostname v ]} ∪ seen)
  end.

Definition ValidateCertificates (now : Z) (l : list Certificate) : res unit :=
  validate_certificates now l ∅.

(** A private TLS route, which needs a certificate of the Center. *)
Definition needs_certificate (r : Route) : bool :=
  rt_tls_enabled r && negb (rt_listener_kind r =?s "public") && negb (rt_listener_kind r =?s "system").

Definition ValidateCertificatesForState (now : Z) (s : DesiredState) (values : list Certificate)
    : res unit :=
  ValidateCertificates now values ;;!
  if forallb (λ r, negb (needs_certificate r)
                   || existsb (λ c, CertificateCoversHostname c (rt_hostname r)) values) (ds_routes s)
  then Ok tt else Err "gateway: TLS route has no matching certificate".
End Sorted.
