(* ===== verification/GatewaySpec.v ===== *)
(** * The gateway's contract

    [Gateway.Validate] decides a declarative well-formedness of the desired state,
    and the configuration hash of a well-formed state does not depend on the order
    in which its listeners, routes and upstreams were listed. *)
From Stdlib Require Import Ascii.
From S2P Require Import Prelude GoText Orders GoNet Gateway.

(** ** Well-formed states *)
Definition listener_ok (x : Listener) : Prop :=
  ls_kind x ∈ listener_kinds ∧ is_ipv4 (ls_address x) = true ∧ 1 <= ls_http_port x <= 65535 ∧
  1 <= ls_https_port x <= 65535.

Definition upstreams_ok (l : list Upstream) : Prop :=
  l ≠ [] ∧ Forall (λ u, validUpstreamAddress (us_address u) = true ∧ 1 <= us_port u <= 65535) l.

Definition route_ok (kinds : list string) (r : Route) : Prop :=
  trim_space (rt_id r) ≠ "" ∧ hostnamePattern (rt_hostname r) = true ∧
  path_invalid (rt_path r) = false ∧ rt_listener_kind r ∈ kinds ∧
  (rt_protocol r = "http" ∨ rt_protocol r = "https") ∧ upstreams_ok (rt_upstreams r).

Definition layer4_ok (r : Layer4Route) : Prop :=
  trim_space (l4_id r) ≠ "" ∧ hostnamePattern (l4_hostname r) = true ∧
  (l4_proxy_protocol r = "" ∨ l4_proxy_protocol r = ProxyProtocolV2) ∧ upstreams_ok (l4_upstreams r).

(** What selects a route. *)
Definition route_match (r : Route) : string * string * string :=
  (rt_listener_kind r, rt_hostname r, rt_path r).

Definition public_tls (r : Route) : Prop := rt_listener_kind r = "public" ∧ rt_tls_enabled r = true.

Record shared_ok (s : DesiredState) (sh : SharedHTTPS) : Prop := mk_shared_ok {
  so_frontend : is_ipv4 (sh_address sh) = true ∧ 1 <= sh_port sh <= 65535;
  so_backend : sh_reject_unmatched sh = false →
    validUpstreamAddress (sh_caddy_address sh) = true ∧ 1 <= sh_caddy_port sh <= 65535 ∧
    (sh_address sh, sh_port sh) ≠ (sh_caddy_address sh, sh_caddy_port sh);
  so_listener : ∃ p, p ∈ ds_listeners s ∧ ls_kind p = "public" ∧ ls_address p = sh_address sh ∧
    ls_https_port p = sh_port sh;
  so_routes : Forall layer4_ok (sh_routes sh);
  so_hosts : NoDup (map l4_hostname (sh_routes sh));
  so_web : ∀ r w, r ∈ sh_routes sh → w ∈ ds_routes s → public_tls w → l4_hostname r ≠ rt_hostname w
}.

Record valid_state (s : DesiredState) : Prop := mk_valid {
  vs_revision : 1 <= ds_revision s;
  vs_kinds : NoDup (map ls_kind (ds_listeners s));
  vs_listeners : Forall listener_ok (ds_listeners s);
  vs_ids : NoDup (map rt_id (ds_routes s));
  vs_matches : NoDup (map route_match (ds_routes s));
  vs_routes : Forall (route_ok (map ls_kind (ds_listeners s))) (ds_routes s);
  vs_shared : ∀ sh, ds_shared s = Some sh → shared_ok s sh
}.

(** ** Texts without NUL *)
Definition no_nul (s : string) : Prop := Forall (λ c, code c ≠ 0%nat) (String.list_ascii_of_string s).

Lemma no_nul_split a a' b b' :
  no_nul a → no_nul a' → a +:+ NUL +:+ b = a' +:+ NUL +:+ b' → a = a' ∧ b = b'.
Proof.
  unfold no_nul. revert a'. induction a as [|c a IH]; intros [|c' a'] Ha Ha' E.
  - injection E as E. done.
  - exfalso. rewrite app_cons_s in E. change ("" +:+ NUL +:+ b) with (NUL +:+ b) in E.
    unfold NUL in E. rewrite app_cons_s in E. injection E as <- _. by inversion Ha'.
  - exfalso. rewrite app_cons_s in E. change ("" +:+ NUL +:+ b') with (NUL +:+ b') in E.
    unfold NUL in E. rewrite app_cons_s in E. injection E as -> _. by inversion Ha.
  - rewrite !app_cons_s in E. injection E as <- E. inversion Ha; inversion Ha'; subst.
    destruct (IH a') as [-> ->]; done.
Qed.

Lemma label_no_nul l : valid_label l = true → no_nul l.
Proof.
  unfold valid_label, no_nul. destruct l as [|c l]; [done|]. intros H. bool_prop.
  match goal with H : forallb _ _ = true |- _ => rewrite forallb_forall in H; rename H into Hf end.
  apply Forall_forall. intros x Hx%list_elem_of_In. specialize (Hf x Hx). cbv beta in Hf.
  intros E. unfold is_alnum in Hf. by rewrite E in Hf.
Qed.

Lemma list_ascii_app a b :
  String.list_ascii_of_string (a +:+ b) = String.list_ascii_of_string a ++ String.list_ascii_of_string b.
Proof. induction a as [|c a IH]; [done|]. rewrite app_cons_s. cbn. by rewrite IH. Qed.

Lemma split_dots_no_nul cur s : forallb valid_label (split_dots cur s) = true → no_nul cur ∧ no_nul s.
Proof.
  revert cur. induction s as [|c s IH]; intros cur; cbn [split_dots].
  - cbn. rewrite andb_true_r. intros H%label_no_nul. split; [done|constructor].
  - destruct (Nat.eqb (code c) 46) eqn:E.
    + cbn [forallb]. intros [Hc [_ Hs]%IH]%andb_prop. split; [by apply label_no_nul|].
      constructor; [|done]. apply Nat.eqb_eq in E. lia.
    + intros [Hc Hs]%IH. unfold no_nul in *. rewrite list_ascii_app in Hc.
      apply Forall_app in Hc as [Hc Hx]. split; [done|]. inversion Hx; subst. by constructor.
Qed.

Lemma hostname_no_nul s : hostnamePattern s = true → no_nul s.
Proof. unfold hostnamePattern. intros [_ H]%andb_prop. by apply split_dots_no_nul in H as [_ ?]. Qed.

Lemma kind_no_nul k : k ∈ listener_kinds → no_nul k.
Proof.
  unfold listener_kinds. rewrite !elem_of_cons, elem_of_nil. unfold no_nul.
  intros [-> |[-> |[-> |[-> |[]]]]]; apply (bool_decide_eq_true_1 (Forall _ _)); vm_compute; reflexivity.
Qed.

Lemma match_key_inj r1 r2 :
  rt_listener_kind r1 ∈ listener_kinds → rt_listener_kind r2 ∈ listener_kinds →
  hostnamePattern (rt_hostname r1) = true → hostnamePattern (rt_hostname r2) = true →
  match_key r1 = match_key r2 → route_match r1 = route_match r2.
Proof.
  intros Hk1 Hk2 Hh1 Hh2. unfold match_key, route_match. intros E.
  apply no_nul_split in E as [-> E]; [|by apply kind_no_nul..].
  apply no_nul_split in E as [-> ->]; [done|by apply hostname_no_nul..].
Qed.

(** ** Validation decides well-formedness *)
Lemma port_ok_spec p : port_ok p = true ↔ 1 <= p <= 65535.
Proof. unfold port_ok. rewrite andb_true_iff, !Z.leb_le. lia. Qed.

Lemma upstreams_ok_spec l :
  upstreams_ok l ↔ Nat.eqb (length l) 0 = false ∧ forallb upstream_ok l = true.
Proof.
  unfold upstreams_ok. rewrite forallb_forall, Nat.eqb_neq, Forall_forall.
  split; intros [H1 H2]; split.
  - by destruct l.
  - intros u Hu%list_elem_of_In. destruct (H2 u Hu) as [Ha Hp]. unfold upstream_ok.
    rewrite Ha. by apply port_ok_spec.
  - by intros ->.
  - intros u Hu%list_elem_of_In. specialize (H2 u Hu). unfold upstream_ok in H2. bool_prop.
    split; [done|by apply port_ok_spec].
Qed.

Lemma is_Some_b_spec {A} (o : option A) : is_Some_b o = true ↔ is_Some o.
Proof. destruct o; by split. Qed.

(** The listeners accepted so far, by kind. *)
Definition kind_map (l : list Listener) (m m' : gmap string Listener) : Prop :=
  ∀ k x, m' !! k = Some x ↔ (x ∈ l ∧ ls_kind x = k) ∨ m !! k = Some x.

Lemma listener_ok_spec x :
  listener_ok x ↔ str_in (ls_kind x) listener_kinds = true ∧
    (negb (is_ipv4 (ls_address x)) || negb (port_ok (ls_http_port x))
     || negb (port_ok (ls_https_port x))) = false.
Proof.
  unfold listener_ok. rewrite str_in_spec, !orb_false_iff, !negb_false_iff, !port_ok_spec. tauto.
Qed.

Lemma validate_listeners_spec l m m' :
  validate_listeners l m = Ok m' →
  Forall listener_ok l ∧ NoDup (map ls_kind l) ∧ (∀ x, x ∈ l → m !! ls_kind x = None) ∧
  kind_map l m m'.
Proof.
  revert m. induction l as [|x l IH]; intros m; cbn [validate_listeners map].
  - intros [= ->]. split_and!; [constructor..|by intros ? ?%not_elem_of_nil|].
    intros k y. split; [by right|]. intros [[H _]|H]; [by apply not_elem_of_nil in H|done].
  - destruct (negb (str_in _ _)) eqn:Ek; [discriminate|].
    destruct (m !! ls_kind x) eqn:Em; [discriminate|]. cbn [is_Some_b].
    destruct (_ || _) eqn:Ep; [discriminate|]. intros H. apply IH in H as (Hok & Hnd & Hfree & Hmap).
    assert (ls_kind x ∉ map ls_kind l) as Hnew.
    { intros Hin. apply list_elem_of_fmap in Hin as (y & Ey & Hy). specialize (Hfree y Hy).
      rewrite <- Ey, lookup_insert_eq in Hfree. discriminate. }
    split_and!.
    + constructor; [|done]. apply listener_ok_spec. split; [by apply negb_false_iff|done].
    + by constructor.
    + intros y [-> |Hy]%elem_of_cons; [done|]. specialize (Hfree y Hy).
      by apply lookup_insert_None in Hfree as [? _].
    + intros k y. unfold kind_map in Hmap. rewrite Hmap, elem_of_cons, lookup_insert_Some. split.
      * intros [[Hy <-]|[[<- <-]|[_ Hk]]]; [left; auto..|by right].
      * intros [[[-> |Hy] <-]|Hk]; [right; by left|by left|]. right. right. split; [|done].
        intros <-. congruence.
Qed.

Lemma validate_listeners_complete l m :
  Forall listener_ok l → NoDup (map ls_kind l) → (∀ x, x ∈ l → m !! ls_kind x = None) →
  ∃ m', validate_listeners l m = Ok m'.
Proof.
  intros Hok. revert m. induction Hok as [|x l Hx Hok IH]; intros m; cbn [validate_listeners map].
  - eauto.
  - intros Hnd Hfree. inversion Hnd as [|?? Hnew Hnd']; subst. apply listener_ok_spec in Hx as [Hk Hp].
    rewrite Hk, Hp, (Hfree x) by (by left). cbn. apply IH; [done|]. intros y Hy.
    apply lookup_insert_None. split; [apply Hfree; by right|]. intros E. apply Hnew. rewrite E.
    apply list_elem_of_fmap. by exists y.
Qed.

(** One route, apart from what the maps of seen identifiers and matches exclude. *)
Definition route_local (m : gmap string Listener) (r : Route) : Prop :=
  trim_space (rt_id r) ≠ "" ∧ hostnamePattern (rt_hostname r) = true ∧
  path_invalid (rt_path r) = false ∧ is_Some (m !! rt_listener_kind r) ∧
  (rt_protocol r = "http" ∨ rt_protocol r = "https") ∧ upstreams_ok (rt_upstreams r).

Lemma protocol_spec p : str_in p ["http"; "https"] = true ↔ p = "http" ∨ p = "https".
Proof. rewrite str_in_spec, !elem_of_cons, elem_of_nil. tauto. Qed.

Lemma nodup_seen {A} (f : A → string) (x : A) l (seen : gset string) :
  NoDup (map f (x :: l)) ∧ (∀ y, y ∈ x :: l → f y ∉ seen) ↔
  (f x ∉ seen) ∧ NoDup (map f l) ∧ (∀ y, y ∈ l → f y ∉ {[ f x ]} ∪ seen).
Proof.
  cbn [map]. rewrite NoDup_cons. split.
  - intros [[Hn Hnd] Hs]. split_and!; [apply Hs; by left|done|]. intros y Hy.
    rewrite not_elem_of_union, elem_of_singleton. split; [|apply Hs; by right].
    intros E. apply Hn. rewrite <- E. apply list_elem_of_fmap. by exists y.
  - intros (Hx & Hnd & Hs). split_and!; [|done|].
    + intros (y & Ey & Hy)%list_elem_of_fmap. specialize (Hs y Hy). set_solver.
    + intros y [-> |Hy]%elem_of_cons; [done|]. specialize (Hs y Hy). set_solver.
Qed.

(** A test that refuses contradicts a conjunct. *)
Ltac refuse := split; [discriminate|]; intros Hall; decompose [and] Hall; congruence || done.

Lemma validate_routes_spec l m ids keys :
  validate_routes l m ids keys = Ok tt ↔
  Forall (route_local m) l ∧
  (NoDup (map rt_id l) ∧ ∀ r, r ∈ l → rt_id r ∉ ids) ∧
  (NoDup (map match_key l) ∧ ∀ r, r ∈ l → match_key r ∉ keys).
Proof.
  revert ids keys. induction l as [|r l IH]; intros ids keys.
  { split; [|done]. intros _. split_and!; try constructor; by intros ? ?%not_elem_of_nil. }
  rewrite !nodup_seen, Forall_cons. cbn [validate_routes]. unfold route_local at 1.
  rewrite upstreams_ok_spec, <- protocol_spec, <- is_Some_b_spec.
  destruct (trim_space (rt_id r) =?s "") eqn:E1; bool_prop; [refuse|].
  destruct (bool_decide (rt_id r ∈ ids)) eqn:E2; bool_prop; [refuse|].
  destruct (hostnamePattern _) eqn:E3; cbn [negb]; [|refuse].
  destruct (path_invalid _) eqn:E4; [refuse|].
  destruct (bool_decide (match_key r ∈ keys)) eqn:E5; bool_prop; [refuse|].
  destruct (is_Some_b _) eqn:E6; cbn [negb]; [|refuse].
  destruct (str_in _ _) eqn:E7; cbn [negb]; [|refuse].
  destruct (Nat.eqb _ _) eqn:E8; [refuse|].
  destruct (forallb _ _) eqn:E9; cbn [negb]; [|refuse].
  rewrite IH. tauto.
Qed.

Lemma validate_layer4_spec l web seen :
  validate_layer4 l web seen = Ok tt ↔
  Forall layer4_ok l ∧ (NoDup (map l4_hostname l) ∧ ∀ r, r ∈ l → l4_hostname r ∉ seen) ∧
  (∀ r, r ∈ l → l4_hostname r ∉ web).
Proof.
  revert seen. induction l as [|r l IH]; intros seen.
  { split; [|done]. intros _. split_and!; try constructor; by intros ? ?%not_elem_of_nil. }
  assert ((∀ x, x ∈ r :: l → l4_hostname x ∉ web) ↔
          (l4_hostname r ∉ web) ∧ ∀ x, x ∈ l → l4_hostname x ∉ web) as Hweb.
  { setoid_rewrite elem_of_cons. naive_solver. }
  rewrite nodup_seen, Forall_cons, Hweb. cbn [validate_layer4]. unfold layer4_ok at 1.
  rewrite upstreams_ok_spec.
  destruct (trim_space (l4_id r) =?s "") eqn:E1; bool_prop; [refuse|].
  destruct (hostnamePattern _) eqn:E2; cbn [negb orb]; [|refuse].
  destruct (Nat.eqb _ _) eqn:E3; [refuse|].
  destruct (negb _ && _) eqn:E4.
  { split; [done|]. intros H. decompose [and] H.
    match goal with H : l4_proxy_protocol r = _ ∨ _ |- _ => destruct H as [E|E]; by rewrite E in E4 end. }
  assert (l4_proxy_protocol r = "" ∨ l4_proxy_protocol r = ProxyProtocolV2) as Hp.
  { apply andb_false_iff in E4 as [E4|E4]; bool_prop; auto. }
  destruct (bool_decide (_ ∈ seen)) eqn:E5; bool_prop; cbn [orb];
    [refuse|].
  destruct (bool_decide (_ ∈ web)) eqn:E6; bool_prop; [refuse|].
  destruct (forallb _ _) eqn:E7; cbn [negb]; [|refuse].
  rewrite IH. tauto.
Qed.

Lemma web_hosts_spec h l : h ∈ web_hosts l ↔ ∃ w, w ∈ l ∧ public_tls w ∧ rt_hostname w = h.
Proof.
  unfold web_hosts, public_tls. rewrite elem_of_list_to_set, list_elem_of_fmap. split.
  - intros (w & -> & Hw). apply list_elem_of_In, filter_In in Hw as [Hw Ht]. bool_prop.
    exists w. split_and!; try done. by apply list_elem_of_In.
  - intros (w & Hw & [Hk Ht] & <-). exists w. split; [done|].
    apply list_elem_of_In, filter_In. split; [by apply list_elem_of_In|]. by rewrite Hk, Ht.
Qed.

(** The matches of locally valid routes are distinct as texts when they are distinct
    as triples. *)
Lemma match_keys_nodup l :
  Forall (λ r, rt_listener_kind r ∈ listener_kinds ∧ hostnamePattern (rt_hostname r) = true) l →
  NoDup (map match_key l) ↔ NoDup (map route_match l).
Proof.
  induction 1 as [|r l [Hk Hh] Hl IH]; [by split; constructor|]. cbn [map]. rewrite !NoDup_cons, IH.
  rewrite Forall_forall in Hl. apply and_iff_compat_r. split; intros Hn (x & E & Hx)%list_elem_of_fmap;
    apply Hn, list_elem_of_fmap; exists x; (split; [|done]); destruct (Hl x Hx) as [Hkx Hhx].
  - injection E as E1 E2 E3. unfold match_key. congruence.
  - by apply match_key_inj.
Qed.

Lemma kind_map_lookup l m k : kind_map l ∅ m → is_Some (m !! k) ↔ k ∈ map ls_kind l.
Proof.
  intros Hm. unfold kind_map in Hm. rewrite list_elem_of_fmap. split.
  - intros [x Hx]. apply Hm in Hx as [[Hx <-]|Hx]; [by exists x|by rewrite lookup_empty in Hx].
  - intros (x & -> & Hx). exists x. apply Hm. by left.
Qed.

Lemma route_local_ok l m r : kind_map l ∅ m → route_local m r ↔ route_ok (map ls_kind l) r.
Proof. intros Hm. unfold route_local, route_ok. by rewrite (kind_map_lookup l m). Qed.

Lemma validate_shared_spec s sh m :
  kind_map (ds_listeners s) ∅ m → NoDup (map ls_kind (ds_listeners s)) →
  validate_shared s sh m = Ok tt ↔ shared_ok s sh.
Proof.
  intros Hm Hnd. unfold validate_shared.
  assert (∀ p, p ∈ ds_listeners s → ls_kind p = "public" → m !! "public" = Some p) as Hpub
    by (intros p Hp Hk; apply Hm; by left).
  destruct (negb (is_ipv4 _) || _) eqn:E1.
  { split; [done|]. intros [[Ha Hp] _ _ _ _ _]. rewrite Ha in E1. apply port_ok_spec in Hp.
    by rewrite Hp in E1. }
  destruct (negb _ && (_ || _)) eqn:E2.
  { split; [done|]. intros [_ Hb _ _ _ _]. apply andb_prop in E2 as [Hr E2].
    apply negb_true_iff in Hr. destruct (Hb Hr) as (Ha & Hp & _). apply port_ok_spec in Hp.
    by rewrite Ha, Hp in E2. }
  destruct (negb _ && _ && _) eqn:E3.
  { split; [done|]. intros [_ Hb _ _ _ _]. bool_prop. destruct Hb as (_ & _ & Hne); [done|]. congruence. }
  destruct (m !! "public") as [p|] eqn:Ep.
  2: { split; [done|]. intros [_ _ (p & Hp & Hk & _) _ _ _]. specialize (Hpub p Hp Hk). congruence. }
  destruct (negb (ls_address p =?s _) || _) eqn:E4.
  { split; [done|]. intros [_ _ (q & Hq & Hk & Ha & Hs) _ _ _]. specialize (Hpub q Hq Hk).
    assert (q = p) as -> by congruence. rewrite Ha, Hs, String.eqb_refl, Z.eqb_refl in E4. done. }
  rewrite validate_layer4_spec. bool_prop.
  assert (p ∈ ds_listeners s ∧ ls_kind p = "public") as [Hp Hk].
  { apply Hm in Ep as [[? ?]|E]; [done|by rewrite lookup_empty in E]. }
  split.
  - intros (Hok & [Hhosts _] & Hweb). split; try done.
    + split; [done|by apply port_ok_spec].
    + intros Hr. rewrite Hr in E2, E3. cbn in E2, E3. bool_prop. split; [done|].
      split; [by apply port_ok_spec|]. intros [= E5 E6]. by rewrite E5, E6, String.eqb_refl, Z.eqb_refl in E3.
    + by exists p.
    + intros r w Hr Hw Ht E. apply (Hweb r Hr), web_hosts_spec. by exists w.
  - intros [_ _ _ Hok Hhosts Hweb]. split_and!; try done.
    intros r Hr (w & Hw & Ht & E)%web_hosts_spec. by apply (Hweb r w Hr Hw Ht).
Qed.

Lemma valid_decided s : Validate s = Ok tt ↔ valid_state s.
Proof.
  unfold Validate. destruct (ds_revision s <? 1) eqn:Er; bool_prop.
  { split; [done|]. intros []. lia. }
  destruct (validate_listeners (ds_listeners s) ∅) as [m|e] eqn:El.
  2: { split; [done|]. intros [_ Hk Hl _ _ _ _].
       destruct (validate_listeners_complete (ds_listeners s) ∅) as [m Hm]; try done. congruence. }
  apply validate_listeners_spec in El as (Hok & Hnd & _ & Hm). cbn [rbind].
  assert (Forall (route_local m) (ds_routes s) ↔
          Forall (route_ok (map ls_kind (ds_listeners s))) (ds_routes s)) as Hroutes.
  { rewrite !Forall_forall. by setoid_rewrite (route_local_ok _ m _ Hm). }
  assert (Forall (route_ok (map ls_kind (ds_listeners s))) (ds_routes s) →
    NoDup (map match_key (ds_routes s)) ↔ NoDup (map route_match (ds_routes s))) as Hkeys.
  { intros H. apply match_keys_nodup. eapply Forall_impl; [exact H|].
    intros r (_ & Hh & _ & (x & -> & Hx)%list_elem_of_fmap & _). split; [|done].
    rewrite Forall_forall in Hok. by apply (Hok x Hx). }
  assert (validate_routes (ds_routes s) m ∅ ∅ = Ok tt ↔
    Forall (route_ok (map ls_kind (ds_listeners s))) (ds_routes s) ∧ NoDup (map rt_id (ds_routes s)) ∧
    NoDup (map route_match (ds_routes s))) as Hvr.
  { rewrite validate_routes_spec, Hroutes. split.
    - intros (H1 & [H2 _] & [H3 _]). split_and!; try done. by apply Hkeys.
    - intros (H1 & H2 & H3). split_and!; try done. by apply Hkeys. }
  destruct (validate_routes (ds_routes s) m ∅ ∅) as [[]|e] eqn:Ev; cbn [rbind].
  - apply proj1 in Hvr. destruct (Hvr eq_refl) as (H1 & H2 & H3).
    destruct (ds_shared s) as [sh|] eqn:Esh.
    + rewrite (validate_shared_spec s sh m Hm Hnd). split.
      * intros Hsh. split; try done. intros ? E. congruence.
      * intros []. auto.
    + split; [|done]. intros _. split; try done. congruence.
  - split; [done|]. intros []. apply proj2 in Hvr. discriminate Hvr. done.
Qed.

(** C36 -- Validation decides well-formedness: a desired state is accepted exactly
    when its revision is positive, its listeners have known and distinct kinds and
    valid addresses and ports, its routes have distinct identifiers and matches and
    refer to those listeners, and the shared HTTPS frontend is the public listener
    with distinct host names that no public TLS route uses. *)
Theorem validate_decides_well_formedness s : Validate s = Ok tt ↔ valid_state s.
Proof. exact (valid_decided s). Qed.

(** ** States that differ only in the order of their lists *)
Definition same_route (r r' : Route) : Prop :=
  rt_id r' = rt_id r ∧ rt_hostname r' = rt_hostname r ∧ rt_path r' = rt_path r ∧
  rt_protocol r' = rt_protocol r ∧ rt_upstreams r' ≡ₚ rt_upstreams r ∧
  rt_tls_enabled r' = rt_tls_enabled r ∧ rt_listener_kind r' = rt_listener_kind r ∧
  rt_system r' = rt_system r.

Definition same_layer4 (r r' : Layer4Route) : Prop :=
  l4_id r' = l4_id r ∧ l4_hostname r' = l4_hostname r ∧
  l4_application_node_id r' = l4_application_node_id r ∧ l4_managed_reality r' = l4_managed_reality r ∧
  l4_proxy_protocol r' = l4_proxy_protocol r ∧ l4_upstreams r' ≡ₚ l4_upstreams r.

(** Lists equal up to [R] and order. *)
Definition up_to {A} (R : A → A → Prop) (l l' : list A) : Prop := ∃ m, Forall2 R l m ∧ m ≡ₚ l'.

Definition same_shared (s s' : SharedHTTPS) : Prop :=
  sh_address s' = sh_address s ∧ sh_port s' = sh_port s ∧ sh_caddy_address s' = sh_caddy_address s ∧
  sh_caddy_port s' = sh_caddy_port s ∧ sh_reject_unmatched s' = sh_reject_unmatched s ∧
  up_to same_layer4 (sh_routes s) (sh_routes s').

#[global] Instance state_equiv : Equiv DesiredState := λ s s',
  ds_revision s' = ds_revision s ∧ ds_listeners s' ≡ₚ ds_listeners s ∧
  up_to same_route (ds_routes s) (ds_routes s') ∧
  option_Forall2 same_shared (ds_shared s) (ds_shared s').

Lemma up_to_map {A B} (R : A → A → Prop) (f : A → B) l l' :
  (∀ x y, R x y → f x = f y) → up_to R l l' → map f l ≡ₚ map f l'.
Proof.
  intros Hf (m & Hm & Hp). rewrite <- Hp.
  assert (map f l = map f m) as ->; [|done]. clear -Hf Hm. induction Hm as [|x y l m Hxy _ IH]; cbn; [done|]. by rewrite (Hf x y Hxy), IH.
Qed.

Lemma up_to_Forall {A} (R : A → A → Prop) (P : A → Prop) l l' :
  (∀ x y, R x y → P x → P y) → up_to R l l' → Forall P l → Forall P l'.
Proof.
  intros HP (m & Hm & Hp) H. rewrite <- Hp. clear Hp. induction Hm; inversion H; subst; constructor; eauto.
Qed.

Lemma up_to_elem {A} (R : A → A → Prop) l l' y :
  up_to R l l' → y ∈ l' → ∃ x, x ∈ l ∧ R x y.
Proof.
  intros (m & Hm & Hp) Hy. rewrite <- Hp in Hy. clear Hp.
  induction Hm as [|x z l m Hxz _ IH]; [by apply not_elem_of_nil in Hy|].
  apply elem_of_cons in Hy as [-> |Hy]; [exists x; split; [by left|done]|].
  destruct (IH Hy) as (w & Hw & HR). exists w. split; [by right|done].
Qed.

Lemma upstreams_ok_perm l l' : l' ≡ₚ l → upstreams_ok l → upstreams_ok l'.
Proof.
  intros Hp [H1 H2]. split; [|by rewrite Hp]. intros ->. by apply Permutation_nil_l in Hp as <-.
Qed.

(** Well-formedness does not depend on the order. *)
Lemma valid_state_equiv s s' : s ≡ s' → valid_state s → valid_state s'.
Proof.
  intros (Hr & Hl & Hroutes & Hsh) [V1 V2 V3 V4 V5 V6 V7]. split.
  - by rewrite Hr.
  - by rewrite Hl.
  - by rewrite Hl.
  - rewrite <- (up_to_map _ rt_id _ _ (λ x y H, eq_sym (proj1 H)) Hroutes). done.
  - rewrite <- (up_to_map same_route route_match (ds_routes s) (ds_routes s')); [done| |done].
    intros x y (_ & E1 & E2 & _ & _ & _ & E3 & _). unfold route_match. congruence.
  - eapply up_to_Forall; [|exact Hroutes|eapply Forall_impl; [exact V6|]].
    2: { intros x (H1 & H2 & H3 & H4 & H). unfold route_ok. by rewrite Hl. }
    intros x y (E1 & E2 & E3 & E4 & E5 & _ & E7 & _) (H1 & H2 & H3 & H4 & H5 & H6). unfold route_ok.
    rewrite E1, E2, E3, E4, E7. split_and!; try done. by eapply upstreams_ok_perm.
  - intros sh' Hs'. rewrite Hs' in Hsh. inversion Hsh as [sh ? Hsame Es|]; subst.
    destruct Hsame as (E1 & E2 & E3 & E4 & E5 & Hup). symmetry in Es. destruct (V7 sh Es) as [W1 W2 W3 W4 W5 W6].
    split.
    + by rewrite E1, E2.
    + by rewrite E1, E2, E3, E4, E5.
    + rewrite E1, E2. by setoid_rewrite Hl.
    + eapply up_to_Forall; [|exact Hup|exact W4].
      intros x y (F1 & F2 & _ & _ & F5 & F6) (H1 & H2 & H3 & H4). unfold layer4_ok.
      rewrite F1, F2, F5. split_and!; try done. by eapply upstreams_ok_perm.
    + rewrite <- (up_to_map _ l4_hostname _ _ (λ x y H, eq_sym (proj1 (proj2 H))) Hup). done.
    + intros r' w' Hr' Hw' [Hk Ht] E. destruct (up_to_elem _ _ _ _ Hup Hr') as (r & Hr0 & (_ & F2 & _)).
      destruct (up_to_elem _ _ _ _ Hroutes Hw') as (w & Hw & (_ & G2 & _ & _ & _ & G6 & G7 & _)).
      apply (W6 r w Hr0 Hw); [split; congruence|congruence].
Qed.

(** ** The canonical form *)
Section Canonical.
Context {Srt : SliceSorter}.

Lemma upstream_less_weak : weak_order upstream_less.
Proof.
  apply (wo_lex (λ a b, us_address a <?s us_address b) (λ a b, us_port a <? us_port b)
           (λ a b, us_address a =?s us_address b)); [apply wo_string|apply wo_Z|].
  intros. apply string_eqb_less.
Qed.

Lemma sort_upstreams_perm l l' : l ≡ₚ l' → sort_upstreams l = sort_upstreams l'.
Proof.
  intros Hp. apply slice_sort_unique; [apply upstream_less_weak|done|].
  intros [a p] [b q] _ _. unfold upstream_less. cbn. rewrite (String.eqb_sym b a).
  destruct (a =?s b) eqn:E; bool_prop.
  - subst. intros ?%Z.ltb_ge ?%Z.ltb_ge. f_equal. lia.
  - intros H1 H2. by pose proof (ltb_eq_s _ _ H1 H2).
Qed.

Lemma route_less_weak : weak_order route_less.
Proof.
  eapply weak_order_ext; [|apply (wo_lex (λ a b, rt_listener_kind a <?s rt_listener_kind b)
    (λ a b, if rt_hostname a =?s rt_hostname b then
       if Bool.eqb (negb (rt_path a =?s "")) (negb (rt_path b =?s "")) then
         if rt_path a =?s rt_path b then rt_id a <?s rt_id b else rt_path a <?s rt_path b
       else negb (rt_path a =?s "") && negb (negb (rt_path b =?s ""))
     else rt_hostname a <?s rt_hostname b) (λ a b, rt_listener_kind a =?s rt_listener_kind b))].
  - intros a b. unfold route_less. destruct (rt_listener_kind a =?s _); [|done].
    destruct (rt_hostname a =?s _); [|done]. cbn [negb].
    destruct (rt_path a =?s ""), (rt_path b =?s ""); cbn; try done;
      by destruct (rt_path a =?s rt_path b).
  - apply wo_string.
  - apply wo_lex; [apply wo_string| |intros; apply string_eqb_less].
    apply (wo_lex (λ a b, negb (rt_path a =?s "") && negb (negb (rt_path b =?s "")))
             (λ a b, if rt_path a =?s rt_path b then rt_id a <?s rt_id b else rt_path a <?s rt_path b));
      [apply (wo_bool (λ r, negb (rt_path r =?s "")))| |].
    + apply wo_lex; [apply wo_string..|intros; apply string_eqb_less].
    + intros a b. by destruct (rt_path a =?s ""), (rt_path b =?s "").
  - intros. apply string_eqb_less.
Qed.

(** Routes the order does not separate have the same identifier. *)
Lemma route_less_id a b : route_less a b = false → route_less b a = false → rt_id a = rt_id b.
Proof.
  unfold route_less. rewrite (String.eqb_sym (rt_listener_kind b)), (String.eqb_sym (rt_hostname b)),
    (String.eqb_sym (rt_path b) (rt_path a)).
  destruct (rt_listener_kind a =?s _) eqn:E1; cbn [negb];
    [|intros H1 H2; bool_prop; by pose proof (ltb_eq_s _ _ H1 H2)].
  destruct (rt_hostname a =?s _) eqn:E2; cbn [negb];
    [|intros H1 H2; bool_prop; by pose proof (ltb_eq_s _ _ H1 H2)].
  destruct (rt_path a =?s "") eqn:E3, (rt_path b =?s "") eqn:E4; cbn; try done;
    (destruct (rt_path a =?s rt_path b) eqn:E5; cbn [negb];
      [apply ltb_eq_s|intros H1 H2; bool_prop; by pose proof (ltb_eq_s _ _ H1 H2)]).
Qed.

Lemma sorted_route_same r r' : same_route r r' → sorted_route r = sorted_route r'.
Proof.
  unfold sorted_route. intros (-> & -> & -> & -> & Hp & -> & -> & ->). f_equal.
  by apply sort_upstreams_perm.
Qed.

Lemma sorted_layer4_same r r' : same_layer4 r r' → sorted_layer4 r = sorted_layer4 r'.
Proof.
  unfold sorted_layer4. intros (-> & -> & -> & -> & -> & Hp). f_equal. by apply sort_upstreams_perm.
Qed.

(** Layer-4 routes have distinct identifiers. *)
Definition layer4_ids_distinct (s : DesiredState) : Prop :=
  ∀ sh, ds_shared s = Some sh → NoDup (map l4_id (sh_routes sh)).

Lemma map_map_id {A B C} (f : A → B) (g : B → C) (h : A → C) l :
  (∀ x, g (f x) = h x) → map g (map f l) = map h l.
Proof. intros H. rewrite map_map. by apply map_ext. Qed.

Lemma sorted_canonical s s' :
  valid_state s → layer4_ids_distinct s → s ≡ s' → Sorted s = Sorted s'.
Proof.
  intros [V1 V2 V3 V4 V5 V6 V7] H4 (Hr & Hl & Hroutes & Hsh). unfold Sorted. f_equal.
  - done.
  - apply slice_sort_unique; [apply wo_string|done|]. intros x y Hx Hy H1 H2.
    apply (nodup_key_eq ls_kind (ds_listeners s)); try done. by apply ltb_eq_s.
  - apply slice_sort_unique; [apply route_less_weak|by eapply up_to_map, Hroutes; apply sorted_route_same|].
    intros x y Hx Hy H1 H2. apply (nodup_key_eq rt_id (map sorted_route (ds_routes s))); try done.
    + by rewrite (map_map_id _ _ rt_id).
    + by apply route_less_id.
  - destruct (ds_shared s) as [sh|] eqn:Es, (ds_shared s') as [sh'|];
      inversion Hsh as [? ? (E1 & E2 & E3 & E4 & E5 & Hup)|]; subst; [|done]. f_equal. unfold sorted_shared.
    rewrite E1, E2, E3, E4, E5. f_equal.
    apply slice_sort_unique; [apply (wo_string l4_id)|by eapply up_to_map, Hup; apply sorted_layer4_same|].
    intros x y Hx Hy H1 H2. apply (nodup_key_eq l4_id (map sorted_layer4 (sh_routes sh))); try done.
    + rewrite (map_map_id _ _ l4_id) by done. by apply (H4 sh).
    + by apply ltb_eq_s.
Qed.

Lemma certificate_less_weak : weak_order certificate_less.
Proof.
  eapply weak_order_ext; [|apply (wo_lex (λ a b, ce_hostname a <?s ce_hostname b)
    (λ a b, if ce_certificate_pem a =?s ce_certificate_pem b
            then ce_private_key_pem a <?s ce_private_key_pem b
            else ce_certificate_pem a <?s ce_certificate_pem b)
    (λ a b, ce_hostname a =?s ce_hostname b))].
  - intros a b. unfold certificate_less. destruct (ce_hostname a =?s _); [|done].
    by destruct (ce_certificate_pem a =?s _).
  - apply wo_string.
  - apply wo_lex; [apply wo_string..|intros; apply string_eqb_less].
  - intros. apply string_eqb_less.
Qed.

Lemma certificate_less_sep a b :
  certificate_less a b = false → certificate_less b a = false → a = b.
Proof.
  destruct a as [h c k], b as [h' c' k']. unfold certificate_less. cbn.
  rewrite (String.eqb_sym h'), (String.eqb_sym c').
  destruct (h =?s h') eqn:E1; cbn [negb]; bool_prop; subst;
    [|intros H1 H2; by pose proof (ltb_eq_s _ _ H1 H2)].
  destruct (c =?s c') eqn:E2; cbn [negb]; bool_prop; subst;
    [|intros H1 H2; by pose proof (ltb_eq_s _ _ H1 H2)].
  intros H1 H2. by rewrite (ltb_eq_s _ _ H1 H2).
Qed.

(** C37 -- The configuration hash is canonical: for an accepted state whose layer-4
    routes have distinct identifiers, the hash does not depend on the order in which
    listeners, routes, upstreams, layer-4 routes and certificates are listed. *)
Theorem configuration_hash_is_canonical {SH : StateHash} s s' c c' :
  Validate s = Ok tt → layer4_ids_distinct s → s ≡ s' → c ≡ₚ c' →
  ConfigurationHash s c = ConfigurationHash s' c'.
Proof.
  intros Hv H4 Heq Hc.
  assert (Validate s' = Ok tt) as Hv'.
  { apply valid_decided. eapply valid_state_equiv; [exact Heq|]. by apply valid_decided. }
  unfold ConfigurationHash. rewrite Hv, Hv'. cbn [rbind].
  rewrite (sorted_canonical s s') by (try done; by apply valid_decided).
  rewrite (slice_sort_unique certificate_less c c'); [done|apply certificate_less_weak|done|].
  intros x y _ _. apply certificate_less_sep.
Qed.
End Canonical.

(** ** Identical layer-4 identifiers *)
Definition layer4_sample (host : string) : Layer4Route :=
  mk_layer4 "entry" host "" false "" [mk_upstream "caddy" 8443].
Definition shared_sample (l : list Layer4Route) : DesiredState :=
  mk_state 1 [mk_listener "public" "203.0.113.7" 80 443] []
    (Some (mk_shared "203.0.113.7" 443 "" 0 true l)).
Definition state_ab : DesiredState :=
  shared_sample [layer4_sample "a.example.com"; layer4_sample "b.example.com"].
Definition state_ba : DesiredState :=
  shared_sample [layer4_sample "b.example.com"; layer4_sample "a.example.com"].

(** Validation does not require distinct layer-4 identifiers, and the canonical
    order sorts by them alone: two accepted states that differ only in the order of
    their layer-4 routes have different canonical forms. *)
Theorem layer4_order_is_not_canonical :
  ∃ s s' : DesiredState, Validate s = Ok tt ∧ Validate s' = Ok tt ∧ s ≡ s' ∧ Sorted s ≠ Sorted s'.
Proof.
  exists state_ab, state_ba.
  split; [vm_compute; reflexivity|]. split; [vm_compute; reflexivity|]. split.
  - split_and!; [done..| |].
    + exists []. by split; [constructor|].
    + constructor. split_and!; try done.
      exists [layer4_sample "a.example.com"; layer4_sample "b.example.com"].
      split; [|apply Permutation_swap]. by repeat constructor.
  - vm_compute. discriminate.
Qed.

(** ** Witness *)
#[global] Instance sample_state_hash : StateHash := {|
  state_json s := rt_id (default (mk_route "" "" "" "" [] false "" false) (head (ds_routes s)));
  listener_json s := nl_node_id s;
  certificates_json l := decimal (Z.of_nat (length l));
  state_sha256 s := s
|}.

Definition route_sample (id host : string) : Route :=
  mk_route id host "" "http" [mk_upstream "app" 8080] true "public" false.
Definition routes_state (l : list Route) : DesiredState :=
  mk_state 1 [mk_listener "public" "203.0.113.7" 80 443] l None.
Definition state_12 : DesiredState :=
  routes_state [route_sample "1" "b.example.com"; route_sample "2" "a.example.com"].
Definition state_21 : DesiredState :=
  routes_state [route_sample "2" "a.example.com"; route_sample "1" "b.example.com"].

Lemma configuration_hash_is_canonical_witness :
  Validate state_12 = Ok tt ∧ ConfigurationHash state_12 [] = ConfigurationHash state_21 [].
Proof.
  assert (Validate state_12 = Ok tt) as Hv by (vm_compute; reflexivity).
  split; [exact Hv|].
  apply (configuration_hash_is_canonical state_12 state_21 [] []).
  - exact Hv.
  - intros sh E. discriminate E.
  - split_and!; [done..| |constructor].
    exists [route_sample "1" "b.example.com"; route_sample "2" "a.example.com"].
    split; [|apply Permutation_swap]. by repeat constructor.
  - done.
Defined.
