(* ===== verification/Landing.v ===== *)
(** * Landing exits: traffic plans, access rules, grants and server plans

    internal/landing: quota.go, policy.go ([NormalizeAccessRules]), grants.go,
    address.go, server.go (the plan and its validation), egress_addresses.go and
    state.go (the desired state).  Counters are [int64]; SHA-256 in hexadecimal is
    the parameter [LandingHash].  [slices.SortFunc] is the unstable sort of the
    prelude. *)
From Stdlib Require Import Ascii.
From S2P Require Import Prelude GoText GoNet.

(** ** Machine integers *)
Definition wrap64 (z : Z) : Z := (z + 2 ^ 63) mod 2 ^ 64 - 2 ^ 63.

(** ** Identifiers (grants.go) *)
Class LandingHash := { sha256_hex : string → string }.

Definition grant_char (c : ascii) : bool :=
  let n := code c in
  (Nat.leb 97 n && Nat.leb n 122) || (Nat.leb 65 n && Nat.leb n 90) || (Nat.leb 48 n && Nat.leb n 57)
  || Nat.eqb n 45 || Nat.eqb n 95.

Definition validGrantID (id : string) : bool :=
  negb ((id =?s "") || (128 <? str_len id)) && forallb grant_char (String.list_ascii_of_string id).

Definition validRouteUser (user : string) : bool :=
  negb (user =?s "") && (str_len user <=? 256) && (trim_space user =?s user)
  && negb (contains_any user (map ascii_of_nat [13; 10; 0]%nat)).

(** [hex.DecodeString] accepts an even number of hexadecimal digits. *)
Definition validIdentity (id : string) : bool :=
  forallb (λ c, is_Some_b (hex_value c)) (String.list_ascii_of_string id) && (str_len id =? 2 * 32)
  && (to_lower id =?s id).

Section Hash.
Context {LH : LandingHash}.

(** The first 16 bytes of the digest, in hexadecimal. *)
Definition grantTag (id : string) : string := String.substring 0 32 (sha256_hex id).
Definition FixedUser (id : string) : string := "vastora-combination-" +:+ grantTag id.
Definition FixedOutbound (id : string) : string := "vastora-combination-" +:+ grantTag id.
Definition Identity (uuid : string) : string := if uuid =?s "" then "" else sha256_hex uuid.
End Hash.

(** ** Addresses (address.go, server.go) *)
Definition tailnetIPv4 (value : string) : bool :=
  match ParseAddr value with
  | Some a => (addr_string a =?s value) && prefix_contains (Addr4 [100; 64; 0; 0]) 10 a
  | None => false
  end.

Definition blockedIPv4 : list (list Z * Z) :=
  [([0; 0; 0; 0], 8); ([10; 0; 0; 0], 8); ([100; 64; 0; 0], 10); ([127; 0; 0; 0], 8);
   ([169; 254; 0; 0], 16); ([172; 16; 0; 0], 12); ([192; 0; 0; 0], 24); ([192; 0; 2; 0], 24);
   ([192; 88; 99; 0], 24); ([192; 168; 0; 0], 16); ([198; 18; 0; 0], 15); ([198; 51; 100; 0], 24);
   ([203; 0; 113; 0], 24); ([224; 0; 0; 0], 4); ([240; 0; 0; 0], 4)].

Definition PublicIPv4 (a : Addr) : bool :=
  Is4 a && IsGlobalUnicast (addr_ip a)
  && forallb (λ '(p, bits), negb (prefix_contains (Addr4 p) bits a)) blockedIPv4.

(** 2001::/23, 2001:db8::/32, 2002::/16 and 3fff::/20. *)
Definition blockedIPv6 : list (list Z * Z) :=
  [([32; 1] ++ repeat 0 14, 23); ([32; 1; 13; 184] ++ repeat 0 12, 32);
   ([32; 2] ++ repeat 0 14, 16); ([63; 255] ++ repeat 0 14, 20)].

Definition PublicIPv6 (a : Addr) : bool :=
  negb (Is4 a) && negb (Is4In6 a) && (Zone a =?s "")
  && prefix_contains (Addr6 (32 :: repeat 0 15) "") 3 a
  && forallb (λ '(p, bits), negb (prefix_contains (Addr6 p "") bits a)) blockedIPv6.

Definition PublicIP (a : Addr) : bool := PublicIPv4 a || PublicIPv6 a.

Definition ValidEgressIP (value : string) : bool :=
  match ParseAddr value with
  | Some a => (addr_string a =?s value) && (PublicIP a || (Is4 a && IsPrivate (addr_ip a)))
  | None => false
  end.

(** ** The native server plan (server.go, egress_addresses.go) *)
Record AuthorizedNode := mk_node { an_address : string; an_tcp_only : bool }.
Record ServerPlan := mk_server_plan {
  sp_egress_ip : string; sp_revision : Z; sp_address : string; sp_sources : list AuthorizedNode
}.

Fixpoint validate_sources (plan : ServerPlan) (l : list AuthorizedNode) (addresses : gset string)
    : res unit :=
  match l with
  | [] => Ok tt
  | n :: l' =>
      if contains (sp_egress_ip plan) ":" && negb (an_tcp_only n)
      then Err "landing: IPv6 egress requires TCP-only source grants"
      else if negb (tailnetIPv4 (an_address n)) || (an_address n =?s sp_address plan)
              || bool_decide (an_address n ∈ addresses)
      then Err "landing: invalid authorized proxy node"
      else validate_sources plan l' ({[ an_address n ]} ∪ addresses)
  end.

Definition ServerPlanValidate (plan : ServerPlan) : res unit :=
  if negb (sp_egress_ip plan =?s "") && negb (ValidEgressIP (sp_egress_ip plan))
  then Err "landing: invalid selected egress IP"
  else if (sp_revision plan =? 0) || negb (tailnetIPv4 (sp_address plan))
          || (128 <? Z.of_nat (length (sp_sources plan)))
  then Err "landing: invalid native server plan"
  else validate_sources plan (sp_sources plan) ∅.

Record EgressAddress := mk_egress { eg_address : string; eg_interface : string }.

Fixpoint validate_egress (l : list EgressAddress) (seen : gset string) : res unit :=
  match l with
  | [] => Ok tt
  | c :: l' =>
      if negb (ValidEgressIP (eg_address c)) || (eg_interface c =?s "") || (64 <? str_len (eg_interface c))
         || contains_any (eg_interface c) (map ascii_of_nat [0; 13; 10]%nat)
         || bool_decide (eg_address c ∈ seen)
      then Err "landing: invalid or duplicate egress address"
      else validate_egress l' ({[ eg_address c ]} ∪ seen)
  end.

Definition ValidateEgressAddresses (l : list EgressAddress) : res unit :=
  if 128 <? Z.of_nat (length l) then Err "landing: too many egress addresses" else validate_egress l ∅.

Section Sorting.
Context {Srt : SliceSorter}.

(** ** The shared traffic plan (quota.go) *)
Record QuotaMember := mk_member { qm_id : string; qm_baseline : Z; qm_observed : Z; qm_active : bool }.
Record QuotaLimit := mk_limit { ql_id : string; ql_total : Z; ql_enabled : bool }.

(** The loop over the ordered members; [prev] is the identifier before the member. *)
Fixpoint quota_used (prev : option string) (l : list QuotaMember) (used : Z) : res Z :=
  match l with
  | [] => Ok used
  | m :: l' =>
      if negb (validGrantID (qm_id m)) || bool_decide (prev = Some (qm_id m)) || (qm_baseline m <? 0)
         || (qm_observed m <? qm_baseline m)
         || (wrap64 (int64_max - used) <? wrap64 (qm_observed m - qm_baseline m))
      then Err "landing: invalid shared traffic observation"
      else quota_used (Some (qm_id m)) l' (wrap64 (used + wrap64 (qm_observed m - qm_baseline m)))
  end.

Definition AllocateQuota (total : Z) (enabled : bool) (members : list QuotaMember)
    : res (list QuotaLimit * Z) :=
  if (total <? 0) || Nat.eqb (length members) 0 || (513 <? Z.of_nat (length members))
  then Err "landing: invalid shared traffic plan" else
  let ordered := slice_sort (λ a b, qm_id a <?s qm_id b) members in
  let! used := quota_used None ordered 0 in
  let accountEnabled := enabled && ((total =? 0) || (used <? total)) in
  Ok (map (λ m, mk_limit (qm_id m) 0 (accountEnabled && qm_active m)) ordered, used).

Fixpoint ObserveQuota (members : list QuotaMember) (counters : gmap string Z) : res (list QuotaMember) :=
  match members with
  | [] => Ok []
  | m :: l' =>
      match counters !! qm_id m with
      | None => Err "landing: shared traffic counters changed or are incomplete"
      | Some value =>
          if value <? qm_observed m
          then Err "landing: shared traffic counters changed or are incomplete"
          else let! rest := ObserveQuota l' counters in
               Ok (mk_member (qm_id m) (qm_baseline m) value (qm_active m) :: rest)
      end
  end.

Definition ResetQuota (members : list QuotaMember) : list QuotaMember :=
  map (λ m, mk_member (qm_id m) (qm_observed m) (qm_observed m) (qm_active m)) members.

(** ** Access rules (policy.go) and authorised sources (grants.go) *)
Record AccessRule := mk_rule { ar_source : string; ar_destination : string; ar_tcp_only : bool }.

Definition rule_less (a b : AccessRule) : bool :=
  if ar_source a <?s ar_source b then true
  else if ar_source b <?s ar_source a then false
  else ar_destination a <?s ar_destination b.

Definition rule_ok (r : AccessRule) : bool :=
  tailnetIPv4 (ar_source r) && tailnetIPv4 (ar_destination r) && negb (ar_source r =?s ar_destination r).

Definition same_pair (a b : AccessRule) : bool :=
  (ar_source a =?s ar_source b) && (ar_destination a =?s ar_destination b).

(** The merging loop; [merged] is kept in reverse, its head is [merged[len-1]]. *)
Fixpoint merge_rules (l merged : list AccessRule) : list AccessRule :=
  match l with
  | [] => reverse merged
  | r :: l' =>
      match merged with
      | m :: rest =>
          if same_pair m r
          then merge_rules l' (mk_rule (ar_source m) (ar_destination m) (ar_tcp_only m && ar_tcp_only r)
                               :: rest)
          else merge_rules l' (r :: merged)
      | [] => merge_rules l' [r]
      end
  end.

Definition NormalizeAccessRules (rules : list AccessRule) : res (list AccessRule) :=
  if 128 <? Z.of_nat (length rules) then Err "landing: too many access rules"
  else if negb (forallb rule_ok rules) then Err "landing: invalid private access rule"
  else Ok (merge_rules (slice_sort rule_less rules) []).

(** The nested loops of [MergeSources] over the concatenated uses. *)
Fixpoint merge_sources (l : list AuthorizedNode) (byAddress : gmap string AuthorizedNode)
    : res (gmap string AuthorizedNode) :=
  match l with
  | [] => Ok byAddress
  | n :: l' =>
      if negb (tailnetIPv4 (an_address n)) then Err "landing: invalid source identity" else
      let n' := match byAddress !! an_address n with
                | Some previous => mk_node (an_address n) (an_tcp_only n && an_tcp_only previous)
                | None => n
                end in
      merge_sources l' (<[an_address n := n']> byAddress)
  end.

Definition MergeSources (uses : list (list AuthorizedNode)) : res (list AuthorizedNode) :=
  let! byAddress := merge_sources (concat uses) ∅ in
  if 128 <? Z.of_nat (size byAddress) then Err "landing: too many source identities"
  else Ok (slice_sort (λ a b, an_address a <?s an_address b) ((map_to_list byAddress).*2)).
End Sorting.

(** ** The desired state (grants.go, state.go) *)
Record PeerIdentity := mk_peer { pi_id : string; pi_public_key : string; pi_address : string }.

#[global] Instance PeerIdentity_eq_dec : EqDecision PeerIdentity.
Proof. solve_decision. Defined.

Definition FixedMode : string := "fixed".
Definition ModeValid (m : string) : bool := m =?s FixedMode.
Definition ModeFixed (m : string) : bool := m =?s FixedMode.

Record ClientGrant := mk_grant {
  cg_id : string; cg_parent_id : string; cg_inbound_tag : string; cg_base_user : string;
  cg_base_identity : string; cg_fixed_user : string; cg_fixed_identity : string;
  cg_peer : PeerIdentity; cg_mode : string; cg_enabled : bool; cg_hide_base : bool
}.
Record ClientBlock := mk_block {
  cb_parent_id : string; cb_inbound_tag : string; cb_user : string; cb_identity : string
}.
Record ClientPlan := mk_client_plan {
  cp_application_id : string; cp_source : PeerIdentity; cp_grants : list ClientGrant;
  cp_blocked_users : list ClientBlock; cp_allow_session_reset : bool
}.
Record ProxyPlan := mk_proxy {
  px_application_id : string; px_inbound_tags : list string; px_peer : PeerIdentity
}.
Record DesiredState := mk_landing {
  ld_node_id : string; ld_revision : Z; ld_server : option ServerPlan; ld_proxy : option ProxyPlan;
  ld_clients : option ClientPlan
}.
Record ServerState := mk_server_state {
  ss_node_id : string; ss_revision : Z; ss_plan : option ServerPlan
}.
Record PeerUse := mk_use { pu_peer : PeerIdentity; pu_tcp_only : bool; pu_active : bool }.

(** [Published]. *)
Definition Published (g : ClientGrant) (mode : string) : ClientGrant :=
  if negb (ModeValid mode) || negb (ModeValid (cg_mode g))
  then mk_grant (cg_id g) (cg_parent_id g) (cg_inbound_tag g) (cg_base_user g) (cg_base_identity g)
         (cg_fixed_user g) (cg_fixed_identity g) (cg_peer g) (cg_mode g) false (cg_hide_base g)
  else g.

(** A tag that is present, not padded and at most 128 bytes. *)
Definition tag_ok (tag : string) : bool :=
  negb (tag =?s "") && (str_len tag <=? 128) && (trim_space tag =?s tag).

Section State.
Context {LH : LandingHash} {Srt : SliceSorter}.

Definition GrantValidate (g : ClientGrant) : res unit :=
  if negb (validGrantID (cg_id g)) || negb (validGrantID (cg_parent_id g)) || negb (ModeValid (cg_mode g))
     || negb (validRouteUser (cg_base_user g)) || has_prefix "vastora-combination-" (cg_base_user g)
     || negb (validIdentity (cg_base_identity g)) || negb (cg_parent_id g =?s cg_base_identity g)
     || negb (tag_ok (cg_inbound_tag g)) || negb (tailnetIPv4 (pi_address (cg_peer g)))
     || (pi_id (cg_peer g) =?s "") || (pi_public_key (cg_peer g) =?s "")
  then Err "landing: invalid client grant"
  else if negb (cg_fixed_user g =?s "")
          && (negb (cg_fixed_user g =?s FixedUser (cg_id g)) || negb (validIdentity (cg_fixed_identity g)))
  then Err "landing: invalid fixed identity ownership"
  else if cg_enabled g && ModeFixed (cg_mode g) && (cg_fixed_user g =?s "")
  then Err "landing: missing fixed identity"
  else Ok tt.

Definition CheckSource (plan : ClientPlan) (actual : PeerIdentity) : res unit :=
  guard_err
    (existsb (λ g, cg_enabled g
                   && ((pi_id (cp_source plan) =?s "") || (pi_public_key (cp_source plan) =?s "")
                       || negb (tailnetIPv4 (pi_address (cp_source plan)))
                       || negb (bool_decide (actual = cp_source plan)))) (cp_grants plan))
    "landing: entry private identity changed; revoke and authorize the replacement".

Fixpoint validate_tags (l : list string) (seen : gset string) : res unit :=
  match l with
  | [] => Ok tt
  | tag :: l' =>
      if negb (tag_ok tag) || bool_decide (tag ∈ seen)
      then Err "landing: invalid managed inbound selection"
      else validate_tags l' ({[ tag ]} ∪ seen)
  end.

Definition validate_proxy (s : DesiredState) (proxy : ProxyPlan) : res unit :=
  if (px_application_id proxy =?s "") || negb (tailnetIPv4 (pi_address (px_peer proxy)))
     || (pi_id (px_peer proxy) =?s "") || (pi_public_key (px_peer proxy) =?s "")
     || Nat.eqb (length (px_inbound_tags proxy)) 0 || (128 <? Z.of_nat (length (px_inbound_tags proxy)))
  then Err "landing: invalid proxy plan"
  else if match ld_server s with
          | Some server => sp_address server =?s pi_address (px_peer proxy)
          | None => false
          end
  then Err "landing: a node cannot use itself as a remote landing peer"
  else validate_tags (px_inbound_tags proxy) ∅.

Definition block_ok (b : ClientBlock) : bool :=
  validGrantID (cb_parent_id b) && validRouteUser (cb_user b) && validIdentity (cb_identity b)
  && tag_ok (cb_inbound_tag b).

(** The loop over the grants: identifiers, peers by identifier, identifiers by address. *)
Fixpoint validate_grants (l : list ClientGrant) (seen : gset string) (peers : gmap string PeerIdentity)
    (addresses : gmap string string) : res unit :=
  match l with
  | [] => Ok tt
  | g :: l' =>
      GrantValidate g ;;!
      let peer := cg_peer g in
      if bool_decide (cg_id g ∈ seen) then Err "landing: duplicate client grant"
      else if match peers !! pi_id peer with Some p => negb (bool_decide (p = peer)) | None => false end
      then Err "landing: conflicting peer identity"
      else if match addresses !! pi_address peer with
              | Some id => negb (id =?s pi_id peer) | None => false end
      then Err "landing: shared peer address"
      else validate_grants l' ({[ cg_id g ]} ∪ seen) (<[pi_id peer := peer]> peers)
             (<[pi_address peer := pi_id peer]> addresses)
  end.

Definition validate_clients (s : DesiredState) (clients : ClientPlan) : res unit :=
  let grants := length (cp_grants clients) in
  let blocks := length (cp_blocked_users clients) in
  if (cp_application_id clients =?s "") || negb (cp_allow_session_reset clients)
     || Nat.eqb (grants + blocks) 0 || (512 <? Z.of_nat grants) || (512 <? Z.of_nat blocks)
     || is_Some_b (ld_server s)
     || match ld_proxy s with
        | Some proxy => negb (px_application_id proxy =?s cp_application_id clients)
        | None => false
        end
  then Err "landing: invalid client plan or missing session reset approval"
  else
    CheckSource clients (cp_source clients) ;;!
    guard_err (negb (forallb block_ok (cp_blocked_users clients))) "landing: invalid account block" ;;!
    match ld_proxy s with
    | Some proxy =>
        let peer := px_peer proxy in
        validate_grants (cp_grants clients) ∅ {[ pi_id peer := peer ]} {[ pi_address peer := pi_id peer ]}
    | None => validate_grants (cp_grants clients) ∅ ∅ ∅
    end.

Definition Validate (s : DesiredState) : res unit :=
  if (ld_node_id s =?s "") || (ld_revision s =? 0) || (2 ^ 62 <? ld_revision s)
  then Err "landing: invalid desired state identity" else
  match ld_server s with
  | Some server =>
      guard_err (negb (sp_revision server =? ld_revision s))
        "landing: mismatched native server revision" ;;!
      ServerPlanValidate server
  | None => Ok tt
  end ;;!
  match ld_proxy s with Some proxy => validate_proxy s proxy | None => Ok tt end ;;!
  match ld_clients s with Some clients => validate_clients s clients | None => Ok tt end.

Definition ServerStateValidate (s : ServerState) : res unit :=
  Validate (mk_landing (ss_node_id s) (ss_revision s) (ss_plan s) None None).

(** ** Views of the desired state *)
Definition ApplicationID (s : DesiredState) : string :=
  match ld_proxy s, ld_clients s with
  | Some proxy, _ => px_application_id proxy
  | None, Some clients => cp_application_id clients
  | None, None => ""
  end.

Definition Active (s : DesiredState) : bool := is_Some_b (ld_proxy s) || is_Some_b (ld_clients s).

Definition state_grants (s : DesiredState) : list ClientGrant :=
  match ld_clients s with Some clients => cp_grants clients | None => [] end.

Definition Inbounds (s : DesiredState) : list string :=
  let tags := match ld_proxy s with Some proxy => px_inbound_tags proxy | None => [] end in
  slice_sort (λ a b, a <?s b)
    (fold_left (λ tags g, if cg_enabled g && negb (str_in (cg_inbound_tag g) tags)
                          then tags ++ [cg_inbound_tag g] else tags) (state_grants s) tags).

Definition peer_uses (s : DesiredState) : gmap string PeerUse :=
  let uses := fold_left (λ (uses : gmap string PeerUse) g,
    let previous := match uses !! pi_id (cg_peer g) with Some u => pu_active u | None => false end in
    <[pi_id (cg_peer g) := mk_use (cg_peer g) true (previous || cg_enabled g)]> uses)
    (state_grants s) ∅ in
  match ld_proxy s with
  | Some proxy => <[pi_id (px_peer proxy) := mk_use (px_peer proxy) false true]> uses
  | None => uses
  end.

Definition PeerUses (s : DesiredState) : list PeerUse :=
  slice_sort (λ a b, pi_id (pu_peer a) <?s pi_id (pu_peer b)) ((map_to_list (peer_uses s)).*2).
End State.
