(* ===== verification/LandingSpec.v ===== *)
(** * The contracts of the landing model

    The shared traffic ledger ([Landing.AllocateQuota], [ObserveQuota],
    [ResetQuota]), the normal form of access rules and the peers of a validated
    desired state. *)
From Stdlib Require Import Ascii.
From S2P Require Import Prelude GoText Orders GoNet Landing.

(** ** The traffic ledger *)
Lemma wrap64_id z : - 2 ^ 63 <= z <= int64_max → wrap64 z = z.
Proof. unfold wrap64, int64_max. intros H. rewrite Z.mod_small; lia. Qed.

(** Counters hold [int64] values. *)
Definition int64_member (m : QuotaMember) : Prop :=
  - 2 ^ 63 <= qm_baseline m <= int64_max ∧ - 2 ^ 63 <= qm_observed m <= int64_max.

Definition member_ok (m : QuotaMember) : Prop :=
  validGrantID (qm_id m) = true ∧ 0 <= qm_baseline m <= qm_observed m.

(** The traffic the members consumed since the last reset. *)
Definition spent (l : list QuotaMember) : Z :=
  foldr (λ m acc, (qm_observed m - qm_baseline m) + acc) 0 l.

Lemma spent_perm l1 l2 : l1 ≡ₚ l2 → spent l1 = spent l2.
Proof. induction 1; simpl; lia. Qed.

Lemma spent_nonneg l : Forall member_ok l → 0 <= spent l.
Proof. induction 1 as [|m l [_ H] _ IH]; simpl; lia. Qed.

Lemma member_guard m used :
  int64_member m → 0 <= used <= int64_max →
  (negb (validGrantID (qm_id m)) || (qm_baseline m <? 0) || (qm_observed m <? qm_baseline m)
   || (wrap64 (int64_max - used) <? wrap64 (qm_observed m - qm_baseline m))) = false ↔
  member_ok m ∧ used + (qm_observed m - qm_baseline m) <= int64_max.
Proof.
  intros [Hb Ho] Hu. unfold member_ok. rewrite !orb_false_iff, negb_false_iff, !Z.ltb_ge.
  rewrite (wrap64_id (int64_max - used)) by (unfold int64_max in *; lia).
  split.
  - intros [[[Hv H1] H2] H3]. rewrite wrap64_id in H3 by (unfold int64_max in *; lia).
    split_and!; [done|lia..].
  - intros [[Hv H1] H2]. rewrite wrap64_id by (unfold int64_max in *; lia).
    split_and!; [done|lia..].
Qed.

(** The accumulated sum does not wrap around. *)
Lemma wrap64_step m used :
  member_ok m → 0 <= used → used + (qm_observed m - qm_baseline m) <= int64_max →
  wrap64 (used + wrap64 (qm_observed m - qm_baseline m)) = used + (qm_observed m - qm_baseline m).
Proof.
  intros [_ Hb] Hu Hs. rewrite (wrap64_id (_ - _)) by (unfold int64_max in *; lia).
  apply wrap64_id. unfold int64_max in *. lia.
Qed.

Lemma quota_used_spec prev l used :
  Forall int64_member l → 0 <= used <= int64_max →
  ∀ r, quota_used prev l used = Ok r ↔
    Forall member_ok l ∧ used + spent l <= int64_max ∧ r = used + spent l ∧
    is_ok (quota_used prev l used) = true.
Proof.
  intros Hl. revert prev used. induction Hl as [|m l Hm Hl IH]; intros prev used Hu r; cbn [quota_used].
  - simpl. split; [intros [= <-]; split_and!; [constructor|lia..|done]|intros (_ & _ & -> & _)].
    f_equal. lia.
  - pose proof (member_guard m used Hm Hu) as Hg.
    destruct (bool_decide _) eqn:Ed.
    { rewrite orb_true_r, !orb_true_l. simpl. split; [done|by intros (? & ? & ? & ?)]. }
    rewrite orb_false_r. destruct (negb _ || _ || _ || _) eqn:E.
    { split; [done|by intros (? & ? & ? & ?)]. }
    destruct (proj1 Hg eq_refl) as [Hok Hs]. destruct Hok as [Hv Hb].
    rewrite wrap64_step by (by split || lia).
    rewrite IH by lia. cbn [spent foldr]. fold (spent l). rewrite Forall_cons.
    split; intros (H1 & H2 & H3 & H4); split_and!; try done; try lia; try apply H1; by split.
Qed.

(** The neighbour test of the loop detects every duplicate, since the list is sorted. *)
Lemma quota_used_nodup prev l used r :
  StronglySorted (λ x y, (qm_id y <?s qm_id x) = false) l →
  (∀ p, prev = Some p → ∀ m, m ∈ l → (qm_id m <?s p) = false) →
  quota_used prev l used = Ok r →
  NoDup (map qm_id l) ∧ ∀ p, prev = Some p → p ∉ map qm_id l.
Proof.
  intros Hs. revert prev used. induction Hs as [|m l Hs IH Hm]; intros prev used Hp; cbn [quota_used].
  - intros _. split; [constructor|]. intros p _. apply not_elem_of_nil.
  - destruct (_ || _) eqn:E; [discriminate|]. intros Hr. bool_prop.
    rewrite Forall_forall in Hm.
    destruct (IH (Some (qm_id m)) _ ltac:(by intros p [= <-]) Hr) as [Hnd Hn]. cbn [map]. split.
    + constructor; [by apply Hn|done].
    + intros p Ep Hin. apply elem_of_cons in Hin as [Hin|Hin]; [congruence|].
      apply list_elem_of_fmap in Hin as (x & -> & Hx).
      pose proof (Hm x Hx). pose proof (Hp _ Ep m ltac:(left)).
      assert (qm_id x = qm_id m) by (by apply ltb_eq_s). congruence.
Qed.

Lemma quota_used_total prev l used :
  Forall int64_member l → Forall member_ok l → NoDup (map qm_id l) →
  (∀ p, prev = Some p → p ∉ map qm_id l) → 0 <= used → used + spent l <= int64_max →
  is_ok (quota_used prev l used) = true.
Proof.
  intros Hl. revert prev used. induction Hl as [|m l Hm Hl IH]; intros prev used Hok Hnd Hp Hu Hs;
    cbn [quota_used]; [done|]. cbn [spent foldr] in Hs. fold (spent l) in Hs.
  apply Forall_cons in Hok as [Ho Hok]. pose proof (spent_nonneg _ Hok).
  cbn [map] in Hnd, Hp. apply NoDup_cons in Hnd as [Hn Hnd]. destruct Ho as [Hv Hb].
  rewrite bool_decide_false by (intros ->; apply (Hp _ eq_refl); left). rewrite orb_false_r.
  rewrite (proj2 (member_guard m used Hm ltac:(lia))) by (split; [by split|lia]).
  rewrite wrap64_step by (by split || lia).
  apply IH; [done..| |lia|lia]. by intros p [= <-].
Qed.

Section Quota.
Context {Srt : SliceSorter}.

Definition by_id (a b : QuotaMember) : bool := qm_id a <?s qm_id b.

Lemma by_id_sorted l : StronglySorted (λ x y, (qm_id y <?s qm_id x) = false) (slice_sort by_id l).
Proof. destruct (wo_string qm_id) as [I T N]. by apply (slice_sort_sorted by_id). Qed.

(** A ledger the allocation accepts. *)
Record ledger_ok (total : Z) (members : list QuotaMember) : Prop := mk_ledger_ok {
  lo_total : 0 <= total;
  lo_size : (1 <= length members <= 513)%nat;
  lo_members : Forall member_ok members;
  lo_ids : NoDup (map qm_id members);
  lo_spent : spent members <= int64_max
}.

(** The gate of one identity. *)
Definition gate (total : Z) (enabled : bool) (spent : Z) (m : QuotaMember) : QuotaLimit :=
  mk_limit (qm_id m) 0 (enabled && ((total =? 0) || (spent <? total)) && qm_active m).

Lemma allocate_ok total enabled members limits used :
  Forall int64_member members →
  AllocateQuota total enabled members = Ok (limits, used) →
  ledger_ok total members ∧ used = spent members ∧
  limits = map (gate total enabled (spent members)) (slice_sort by_id members).
Proof.
  intros Hm. unfold AllocateQuota. destruct (_ || _) eqn:E; [discriminate|]. bool_prop.
  fold by_id. pose proof (slice_sort_perm by_id members) as Hp.
  destruct (quota_used None _ 0) as [u|] eqn:Eu; [|discriminate]. cbn [rbind].
  assert (Forall int64_member (slice_sort by_id members)) as Hm' by (by rewrite Hp).
  destruct (quota_used_nodup None _ _ _ (by_id_sorted members) ltac:(done) Eu) as [Hnd _].
  apply quota_used_spec in Eu as (Hok & Hs & -> & _); [|done|by unfold int64_max].
  rewrite (spent_perm _ _ Hp) in *. rewrite Hp in Hok, Hnd. intros [= <- <-].
  rewrite Z.add_0_l in *. split; [|done]. apply Nat.eqb_neq in H1. split; [done|lia|done..].
Qed.

Lemma allocate_total total enabled members :
  Forall int64_member members → ledger_ok total members → is_ok (AllocateQuota total enabled members) = true.
Proof.
  intros Hm [Ht Hsz Hok Hnd Hs]. unfold AllocateQuota. fold by_id.
  pose proof (slice_sort_perm by_id members) as Hp.
  replace (total <? 0) with false by (symmetry; apply Z.ltb_ge; lia).
  replace (Nat.eqb (length members) 0) with false by (symmetry; apply Nat.eqb_neq; lia).
  replace (513 <? Z.of_nat (length members)) with false by (symmetry; apply Z.ltb_ge; lia).
  cbn [orb]. pose proof (quota_used_total None (slice_sort by_id members) 0) as H.
  rewrite (spent_perm _ _ Hp) in H.
  assert (is_ok (quota_used None (slice_sort by_id members) 0) = true) as Hu
    by (apply H; [by rewrite Hp..|done|lia|lia]).
  by destruct (quota_used None _ 0).
Qed.

(** C31 -- The quota is one shared ledger: the allocation accepts exactly the
    ledgers of 1 to 513 distinct identities with sound counters whose total fits an
    [int64]; the traffic it reports is the exact sum (no wrap-around), and an
    identity is open exactly when the account is enabled, the identity is active
    and the plan is unlimited or not yet consumed.  The result does not depend on
    the order of the members. *)
Theorem quota_is_one_shared_ledger total enabled members :
  Forall int64_member members →
  (is_ok (AllocateQuota total enabled members) = true ↔ ledger_ok total members) ∧
  (∀ limits used, AllocateQuota total enabled members = Ok (limits, used) →
     used = spent members ∧ 0 <= used <= int64_max ∧
     limits ≡ₚ map (gate total enabled (spent members)) members) ∧
  (ledger_ok total members → ∀ members', members ≡ₚ members' →
     AllocateQuota total enabled members' = AllocateQuota total enabled members).
Proof.
  intros Hm. split_and!.
  - split; [|by apply allocate_total].
    destruct (AllocateQuota _ _ _) as [[limits used]|] eqn:E; [|done]. by apply allocate_ok in E as [? _].
  - intros limits used E. apply allocate_ok in E as ([] & -> & ->); [|done].
    split_and!; [done|by apply spent_nonneg|done|]. by rewrite slice_sort_perm.
  - intros Hl members' Hp.
    assert (slice_sort by_id members = slice_sort by_id members') as E.
    { apply slice_sort_unique; [apply wo_string|done|]. intros x y Hx Hy H1 H2.
      apply (nodup_key_eq qm_id members); [apply Hl|done..|]. by apply ltb_eq_s. }
    unfold AllocateQuota. fold by_id. by rewrite E, (Permutation_length Hp).
Qed.

(** *** Observation and reset *)
Definition observation (l l' : list QuotaMember) : Prop :=
  ∃ counters : gmap string Z, map_Forall (λ _ v, v <= int64_max) counters ∧ ObserveQuota l counters = Ok l'.

(** What an observation keeps, and that no consumption is refunded. *)
Definition observed_from (l l' : list QuotaMember) : Prop :=
  Forall2 (λ m m', qm_id m' = qm_id m ∧ qm_baseline m' = qm_baseline m ∧ qm_active m' = qm_active m ∧
    qm_observed m <= qm_observed m' ∧ (qm_observed m <= int64_max → qm_observed m' <= int64_max)) l l'.

Lemma observation_from l l' : observation l l' → observed_from l l'.
Proof.
  intros (c & Hc & E). revert l' E. induction l as [|m l IH]; intros l'; cbn [ObserveQuota].
  - intros [= <-]. constructor.
  - destruct (c !! qm_id m) as [v|] eqn:Ev; [|discriminate]. destruct (v <? _) eqn:El; [discriminate|].
    destruct (ObserveQuota l c) as [r|]; [|discriminate]. intros [= <-]. bool_prop.
    constructor; [|by apply IH]. cbn. split_and!; try done. intros _. by apply (Hc _ _ Ev).
Qed.

Lemma observed_from_refl l : observed_from l l.
Proof. induction l; constructor; auto. split_and!; auto with lia. Qed.

Lemma observed_from_trans l1 l2 l3 : observed_from l1 l2 → observed_from l2 l3 → observed_from l1 l3.
Proof.
  intros H. revert l3. induction H as [|m m' l l' Hm H IH]; intros l3 H3; inversion H3; subst;
    constructor; [|by apply IH].
  destruct Hm as (? & ? & ? & ? & ?). intuition (congruence || lia).
Qed.

Lemma observed_from_rtc l l' : rtc observation l l' → observed_from l l'.
Proof.
  induction 1 as [|l l1 l2 H _ IH]; [apply observed_from_refl|].
  eapply observed_from_trans; [by apply observation_from|done].
Qed.

Lemma observed_spent l l' : observed_from l l' → spent l <= spent l'.
Proof. induction 1 as [|m m' l l' (_ & Hb & _ & Ho & _) _ IH]; simpl; lia. Qed.

Lemma observed_int64 l l' : observed_from l l' → Forall int64_member l → Forall int64_member l'.
Proof.
  induction 1 as [|m m' l l' (_ & Hb & _ & Ho & Hx) _ IH]; intros Hf; [constructor|].
  apply Forall_cons in Hf as [[? ?] ?]. constructor; [|by apply IH]. unfold int64_member.
  split; [by rewrite Hb|]. split; [lia|apply Hx; lia].
Qed.

Lemma spent_reset l : spent (ResetQuota l) = 0.
Proof. induction l; simpl in *; lia. Qed.

(** A consumed plan stays closed: once the members consumed the plan, no
    sequence of observations (with any counters the host reports) opens an identity
    again, and the consumed traffic is never refunded; only a reset starts again
    from zero, with the same identities. *)
Theorem exhausted_quota_stays_closed total enabled members members' limits used :
  Forall int64_member members → 0 < total <= spent members →
  rtc observation members members' →
  AllocateQuota total enabled members' = Ok (limits, used) →
  Forall (λ l, ql_enabled l = false) limits ∧ map ql_id limits ≡ₚ map qm_id members ∧
  spent members <= used ∧ spent (ResetQuota members') = 0 ∧
  map qm_id (ResetQuota members') = map qm_id members.
Proof.
  intros Hm Ht Hr%observed_from_rtc E.
  assert (map qm_id members' = map qm_id members) as Hid.
  { clear -Hr. induction Hr as [|? ? ? ? (? & _)]; simpl; congruence. }
  pose proof (observed_spent _ _ Hr) as Hs. pose proof (observed_int64 _ _ Hr Hm) as Hm'.
  apply allocate_ok in E as (_ & -> & ->); [|done]. split_and!.
  - apply Forall_forall. intros x (m & -> & _)%list_elem_of_fmap. unfold gate. cbn [ql_enabled].
    replace (total =? 0) with false by (symmetry; apply Z.eqb_neq; lia).
    replace (spent members' <? total) with false by (symmetry; apply Z.ltb_ge; lia).
    by rewrite andb_false_r.
  - rewrite map_map, <- Hid. change (map qm_id (slice_sort by_id members') ≡ₚ map qm_id members').
    by rewrite slice_sort_perm.
  - done.
  - apply spent_reset.
  - unfold ResetQuota. rewrite map_map. exact Hid.
Qed.
End Quota.

(** ** Access rules *)
Definition pair_of (r : AccessRule) : string * string := (ar_source r, ar_destination r).

Lemma same_pair_spec a b : same_pair a b = true ↔ pair_of a = pair_of b.
Proof.
  unfold same_pair, pair_of. rewrite andb_true_iff, !String.eqb_eq. split; [by intros [-> ->]|by intros [= -> ->]].
Qed.

Lemma rule_less_order : weak_order rule_less.
Proof.
  apply (weak_order_ext _ (λ a b, if ar_source a =?s ar_source b then ar_destination a <?s ar_destination b
                                  else ar_source a <?s ar_source b)).
  - intros x y. unfold rule_less. rewrite string_eqb_less.
    destruct (ar_source x <?s ar_source y) eqn:E1, (ar_source y <?s ar_source x) eqn:E2; try done.
  - apply (wo_lex (λ a b, ar_source a <?s ar_source b) (λ a b, ar_destination a <?s ar_destination b)
      (λ a b, ar_source a =?s ar_source b)); [apply wo_string..|]. intros a b. apply string_eqb_less.
Qed.

Lemma rule_less_pair a b : rule_less a b = false → rule_less b a = false → pair_of a = pair_of b.
Proof.
  unfold rule_less, pair_of.
  destruct (ar_source a <?s ar_source b) eqn:E1; [done|]. destruct (ar_source b <?s ar_source a) eqn:E2; [done|].
  intros H1 H2. f_equal; by apply ltb_eq_s.
Qed.

Lemma rule_less_key a a' b b' : pair_of a = pair_of a' → pair_of b = pair_of b' → rule_less a b = rule_less a' b'.
Proof. unfold pair_of, rule_less. by intros [= -> ->] [= -> ->]. Qed.

(** The merging loop from its current last element [m]. *)
Fixpoint group (m : AccessRule) (l : list AccessRule) : list AccessRule :=
  match l with
  | [] => [m]
  | r :: l' =>
      if same_pair m r
      then group (mk_rule (ar_source m) (ar_destination m) (ar_tcp_only m && ar_tcp_only r)) l'
      else m :: group r l'
  end.

Lemma merge_rules_group l m acc : merge_rules l (m :: acc) = reverse acc ++ group m l.
Proof.
  revert m acc. induction l as [|r l IH]; intros m acc; cbn [merge_rules group].
  - by rewrite reverse_cons.
  - destruct (same_pair m r); rewrite IH; [done|]. by rewrite reverse_cons, <- app_assoc.
Qed.

(** [out] is the union of [l]: its pairs are those of [l], and a pair is limited to
    TCP exactly when every rule of [l] for it is. *)
Definition union_of (l out : list AccessRule) : Prop :=
  (∀ x, x ∈ out → (∃ r, r ∈ l ∧ pair_of r = pair_of x) ∧
     (ar_tcp_only x = true ↔ ∀ r, r ∈ l → pair_of r = pair_of x → ar_tcp_only r = true)) ∧
  (∀ r, r ∈ l → ∃ x, x ∈ out ∧ pair_of x = pair_of r).

Lemma union_skip m r l :
  pair_of m = pair_of r → ∀ out,
  union_of (mk_rule (ar_source m) (ar_destination m) (ar_tcp_only m && ar_tcp_only r) :: l) out →
  union_of (m :: r :: l) out.
Proof.
  set (m' := mk_rule _ _ _). assert (pair_of m' = pair_of m) as Em by done. intros Er out [H1 H2]. split.
  - intros x Hx. destruct (H1 x Hx) as [(y & Hy & Ey) Ht]. split.
    + apply elem_of_cons in Hy as [-> |Hy]; [exists m; split; [left|congruence]|].
      exists y. split; [by do 2 right|done].
    + rewrite Ht. split; intros Hall.
      * clear y Hy Ey. intros y Hy E. assert (pair_of m = pair_of x → ar_tcp_only m = true ∧ ar_tcp_only r = true) as Hm.
        { intros Ex. apply andb_prop. apply (Hall m'); [left|congruence]. }
        apply elem_of_cons in Hy as [-> |[-> |Hy]%elem_of_cons].
        -- by apply Hm.
        -- apply Hm. congruence.
        -- apply Hall; [by right|done].
      * clear y Hy Ey. intros y [-> |Hy]%elem_of_cons E; [|apply Hall; [by do 2 right|done]].
        cbn. rewrite (Hall m), (Hall r); [done|right; left|congruence|left|congruence].
  - intros y Hy. assert (∃ z, z ∈ m' :: l ∧ pair_of z = pair_of y) as (z & Hz & Ez).
    { apply elem_of_cons in Hy as [-> |[-> |Hy]%elem_of_cons].
      - exists m'. split; [left|done].
      - exists m'. split; [left|congruence].
      - exists y. split; [by right|done]. }
    destruct (H2 z Hz) as (x & Hx & Ex). exists x. split; [done|congruence].
Qed.

Lemma union_cons m l out :
  (∀ r, r ∈ l → pair_of r ≠ pair_of m) → union_of l out → union_of (m :: l) (m :: out).
Proof.
  intros Hd [H1 H2]. split.
  - intros x [-> |Hx]%elem_of_cons.
    + split; [exists m; split; [left|done]|]. split; [|intros H; apply H; [left|done]].
      intros Ht r [-> |Hr]%elem_of_cons E; [done|]. by destruct (Hd r Hr).
    + destruct (H1 x Hx) as [(y & Hy & Ey) Ht]. split; [exists y; split; [by right|done]|].
      rewrite Ht. split; intros H r Hr E; [|apply H; [by right|done]].
      apply elem_of_cons in Hr as [-> |Hr]; [|by apply H]. exfalso. by apply (Hd y Hy); congruence.
  - intros r [-> |Hr]%elem_of_cons; [exists m; split; [left|done]|].
    destruct (H2 r Hr) as (x & Hx & E). exists x. split; [by right|done].
Qed.

Lemma group_spec l m :
  StronglySorted (λ x y, rule_less y x = false) (m :: l) →
  StronglySorted (λ x y, rule_less x y = true) (group m l) ∧ union_of (m :: l) (group m l).
Proof.
  destruct rule_less_order as [Hi Ht Hn].
  revert m. induction l as [|r l IH]; intros m Hs; cbn [group].
  - split; [repeat constructor|]. apply (union_cons m [] []); [by intros ? ?%not_elem_of_nil|].
    split; by intros ? ?%not_elem_of_nil.
  - apply StronglySorted_inv in Hs as [Hs Hm]. destruct (same_pair m r) eqn:E.
    + apply same_pair_spec in E. destruct (IH (mk_rule (ar_source m) (ar_destination m)
        (ar_tcp_only m && ar_tcp_only r))) as [H1 H2].
      * apply StronglySorted_inv in Hs as [Hs _]. constructor; [done|].
        apply Forall_cons in Hm as [_ Hm]. eapply Forall_impl; [done|].
        intros y Hy. cbv beta in *. rewrite <- Hy. by apply rule_less_key.
      * split; [done|]. by apply union_skip.
    + destruct (IH r Hs) as [H1 H2]. rewrite Forall_forall in Hm.
      assert (∀ y, y ∈ r :: l → rule_less m y = true) as Hlt.
      { intros y Hy. destruct (rule_less m y) eqn:Ey; [done|]. exfalso.
        apply StronglySorted_inv in Hs as [_ Hr]. rewrite Forall_forall in Hr.
        assert (rule_less m r = false) as Er.
        { apply elem_of_cons in Hy as [-> |Hy]; [done|]. apply (Hn m y r); [done|by apply Hr]. }
        rewrite (proj2 (same_pair_spec m r)) in E; [done|]. apply rule_less_pair; [done|].
        apply Hm. left. }
      split.
      * constructor; [done|]. apply Forall_forall. intros x Hx.
        destruct (proj1 H2 x Hx) as [(y & Hy & Ey) _]. rewrite <- (Hlt y Hy). by apply rule_less_key.
      * apply union_cons; [|done]. intros y Hy E'. pose proof (Hlt y Hy) as H.
        rewrite (rule_less_key m y y y) in H by done. by rewrite Hi in H.
Qed.

Lemma strict_nodup_pair l x y :
  StronglySorted (λ x y, rule_less x y = true) l → x ∈ l → y ∈ l → pair_of x = pair_of y → x = y.
Proof.
  destruct rule_less_order as [Hi _ _]. induction 1 as [|z l Hs IH Hz]; [by intros ?%not_elem_of_nil|].
  rewrite Forall_forall in Hz. intros Hx Hy E.
  apply elem_of_cons in Hx as [-> |Hx], Hy as [-> |Hy]; [done| | |by apply IH]; exfalso.
  - pose proof (Hz y Hy) as H. rewrite (rule_less_key z y y y) in H by done. by rewrite Hi in H.
  - pose proof (Hz x Hx) as H. rewrite (rule_less_key z x x x) in H by done. by rewrite Hi in H.
Qed.

Lemma strict_nodup l : StronglySorted (λ x y, rule_less x y = true) l → NoDup (map pair_of l).
Proof.
  destruct rule_less_order as [Hi _ _]. induction 1 as [|z l Hs IH Hz]; cbn [map]; constructor; [|done].
  rewrite Forall_forall in Hz. intros (y & E & Hy)%list_elem_of_fmap. pose proof (Hz y Hy) as H.
  rewrite (rule_less_key z y y y) in H by done. by rewrite Hi in H.
Qed.

Lemma union_self l : StronglySorted (λ x y, rule_less x y = true) l → union_of l l.
Proof.
  intros Hs. split; [|by eauto]. intros x Hx. split; [by exists x|]. split; [|by auto].
  intros Ht r Hr E. by rewrite (strict_nodup_pair l r x).
Qed.

Lemma union_incl rules l1 l2 : union_of rules l1 → union_of rules l2 → ∀ x, x ∈ l1 → x ∈ l2.
Proof.
  intros [H1 _] [H2 H2'] x Hx. destruct (H1 x Hx) as [(r & Hr & Er) Ht].
  destruct (H2' r Hr) as (y & Hy & Ey). destruct (H2 y Hy) as [_ Ht'].
  assert (x = y) as ->; [|done]. assert (pair_of x = pair_of y) as E by congruence. rewrite E in Ht.
  assert (ar_tcp_only x = ar_tcp_only y) as Et by (apply eq_true_iff_eq; by rewrite Ht, Ht').
  destruct x, y. unfold pair_of in E. cbn in *. by simplify_eq.
Qed.

(** A union in strict order is unique. *)
Lemma union_unique rules l1 l2 :
  StronglySorted (λ x y, rule_less x y = true) l1 → StronglySorted (λ x y, rule_less x y = true) l2 →
  union_of rules l1 → union_of rules l2 → l1 = l2.
Proof.
  destruct rule_less_order as [Hi Ht Hn]. intros H1 H2 U1 U2.
  assert (∀ l, StronglySorted (λ x y, rule_less x y = true) l →
               StronglySorted (λ x y, rule_less y x = false) l) as Hw.
  { intros l Hl. induction Hl as [|z l Hl IH Hz]; constructor; [done|].
    eapply Forall_impl; [done|]. intros y Hy. cbv beta in *. apply not_true_iff_false. intros Hy'.
    pose proof (Ht _ _ _ Hy Hy') as H. by rewrite Hi in H. }
  apply (sorted_perm_unique rule_less); [|by apply Hw..|].
  - apply NoDup_Permutation; [by apply NoDup_ListNoDup, (NoDup_fmap_1 pair_of), strict_nodup..|].
    intros x. rewrite <- !list_elem_of_In. split; by apply (union_incl rules).
  - intros x y Hx Hy Hxy Hyx. apply (strict_nodup_pair l1); [done..|]. by apply rule_less_pair.
Qed.

Section Rules.
Context {Srt : SliceSorter}.

Lemma normalize_ok rules out :
  NormalizeAccessRules rules = Ok out →
  (length rules <= 128)%nat ∧ Forall (λ r, rule_ok r = true) rules ∧
  StronglySorted (λ x y, rule_less x y = true) out ∧ union_of rules out.
Proof.
  unfold NormalizeAccessRules. destruct (128 <? _) eqn:El; [discriminate|].
  destruct (forallb rule_ok rules) eqn:Ef; [|discriminate]. cbn [negb]. intros [= <-]. bool_prop.
  rewrite forallb_forall in Ef. split; [lia|]. split.
  { apply Forall_forall. intros x Hx%list_elem_of_In. auto. }
  destruct rule_less_order as [Hi Ht Hn]. pose proof (slice_sort_sorted rule_less rules Hi Ht Hn) as Hs.
  pose proof (slice_sort_perm rule_less rules) as Hp.
  destruct (slice_sort rule_less rules) as [|r l] eqn:E; cbn [merge_rules].
  - assert (rules = []) as -> by (by apply Permutation_nil). split; [constructor|]. split; by intros ? ?%not_elem_of_nil.
  - rewrite merge_rules_group. cbn. destruct (group_spec l r Hs) as [H1 [H2 H3]]. split; [done|].
    split; [intros x Hx; destruct (H2 x Hx) as [(y & Hy & Ey) Hx']; split|].
    + exists y. by rewrite <- Hp.
    + rewrite Hx'. by setoid_rewrite Hp.
    + intros y Hy. apply H3. by rewrite Hp.
Qed.

Lemma normalize_total rules :
  (length rules <= 128)%nat → Forall (λ r, rule_ok r = true) rules → ∃ out, NormalizeAccessRules rules = Ok out.
Proof.
  intros Hl Hf. unfold NormalizeAccessRules. replace (128 <? _) with false by (symmetry; apply Z.ltb_ge; lia).
  replace (forallb rule_ok rules) with true; [by eexists|]. symmetry. apply forallb_forall.
  intros x Hx%list_elem_of_In. rewrite Forall_forall in Hf. by apply Hf.
Qed.

(** Normalised access rules are the union of the given ones: at most 128
    rules between distinct tailnet addresses, in strict order with every pair once;
    a pair is granted exactly when a rule grants it, and it includes UDP exactly
    when some rule for it does.  The result does not depend on the order of the
    rules (nor on the unstable sort), and normalising it again changes nothing. *)
Theorem access_rules_are_the_union rules out :
  NormalizeAccessRules rules = Ok out →
  union_of rules out ∧ Forall (λ r, rule_ok r = true) out ∧ (length out <= 128)%nat ∧
  NoDup (map pair_of out) ∧ NormalizeAccessRules out = Ok out ∧
  ∀ rules', rules ≡ₚ rules' → NormalizeAccessRules rules' = Ok out.
Proof.
  intros E. destruct (normalize_ok _ _ E) as (Hl & Hf & Hs & Hu).
  assert (Forall (λ r, rule_ok r = true) out) as Hf'.
  { rewrite Forall_forall in *. intros x Hx. destruct (proj1 Hu x Hx) as [(y & Hy & Ey) _].
    rewrite <- (Hf y Hy). unfold rule_ok, pair_of in *. by simplify_eq; congruence. }
  assert (length out <= 128)%nat as Hl'.
  { apply Nat.le_trans with (length rules); [|done].
    rewrite <- (length_map pair_of out), <- (length_map pair_of rules).
    apply submseteq_length, NoDup_submseteq; [by apply strict_nodup|].
    intros k (x & -> & Hx)%list_elem_of_fmap. destruct (proj1 Hu x Hx) as [(y & Hy & <-) _].
    by apply list_elem_of_fmap_2. }
  split_and!; [done..|by apply strict_nodup| |].
  - destruct (normalize_total out Hl' Hf') as [out' E']. destruct (normalize_ok _ _ E') as (_ & _ & Hs' & Hu').
    rewrite E'. f_equal. apply (union_unique out); [done..|by apply union_self].
  - intros rules' Hp. destruct (normalize_total rules') as [out' E']; [by rewrite <- Hp..|].
    destruct (normalize_ok _ _ E') as (_ & _ & Hs' & Hu'). rewrite E'. f_equal.
    apply (union_unique rules'); [done..|]. unfold union_of in *. by setoid_rewrite <- Hp.
Qed.
End Rules.

(** ** Peers of a validated state *)
Definition proxy_peers (s : DesiredState) : list PeerIdentity :=
  match ld_proxy s with Some proxy => [px_peer proxy] | None => [] end.
Definition state_peers (s : DesiredState) : list PeerIdentity :=
  proxy_peers s ++ map cg_peer (state_grants s).

(** An identifier names one machine and an address belongs to one identifier. *)
Definition unambiguous (l : list PeerIdentity) : Prop :=
  ∀ p q, p ∈ l → q ∈ l →
    (pi_id p = pi_id q → p = q) ∧ (pi_address p = pi_address q → pi_id p = pi_id q).

Section Peers.
Context {LH : LandingHash} {Srt : SliceSorter}.

Definition known (l : list ClientGrant) (peers : gmap string PeerIdentity) (addresses : gmap string string)
    : Prop :=
  ∀ g, g ∈ l →
    (∀ p, peers !! pi_id (cg_peer g) = Some p → cg_peer g = p) ∧
    (∀ i, addresses !! pi_address (cg_peer g) = Some i → pi_id (cg_peer g) = i).

Lemma validate_grants_spec l seen peers addresses :
  validate_grants l seen peers addresses = Ok tt →
  Forall (λ g, GrantValidate g = Ok tt) l ∧ NoDup (map cg_id l) ∧ (∀ g, g ∈ l → cg_id g ∉ seen) ∧
  known l peers addresses ∧ unambiguous (map cg_peer l).
Proof.
  revert seen peers addresses. induction l as [|g l IH]; intros seen peers addresses; cbn [validate_grants].
  { intros _. split_and!; [by apply Forall_nil|by apply NoDup_nil| | |].
    - by intros g ?%not_elem_of_nil.
    - by intros g ?%not_elem_of_nil.
    - by intros p q ?%not_elem_of_nil. }
  destruct (GrantValidate g) as [[]|] eqn:Eg; [|discriminate]. cbn [rbind].
  destruct (bool_decide (cg_id g ∈ seen)) eqn:Es; [discriminate|].
  match goal with |- context [if ?b then Err "landing: conflicting peer identity" else _] =>
    destruct b eqn:Ep; [discriminate|] end.
  match goal with |- context [if ?b then Err "landing: shared peer address" else _] =>
    destruct b eqn:Ea; [discriminate|] end.
  intros (Hv & Hnd & Hns & Hk & Hu)%IH. bool_prop.
  assert (∀ x, x ∈ l → (pi_id (cg_peer x) = pi_id (cg_peer g) → cg_peer x = cg_peer g) ∧
    (pi_address (cg_peer x) = pi_address (cg_peer g) → pi_id (cg_peer x) = pi_id (cg_peer g))) as Hg.
  { intros x Hx. destruct (Hk x Hx) as [H1 H2]. split; intros E.
    - apply H1. by rewrite E, lookup_insert_eq.
    - apply H2. by rewrite E, lookup_insert_eq. }
  split_and!.
  - by constructor.
  - cbn [map]. constructor; [|done]. intros (x & Ex & Hx)%list_elem_of_fmap.
    apply (Hns x Hx). rewrite <- Ex. set_solver.
  - intros x [-> |Hx]%elem_of_cons; [done|]. specialize (Hns x Hx). set_solver.
  - intros x [-> |Hx]%elem_of_cons.
    + split; intros p Hp; rewrite Hp in *; by bool_prop.
    + destruct (Hk x Hx) as [H1 H2]. split; intros p Hp.
      * destruct (decide (pi_id (cg_peer x) = pi_id (cg_peer g))) as [E|E].
        -- rewrite (proj1 (Hg x Hx) E). rewrite E in Hp. rewrite Hp in Ep. by bool_prop.
        -- apply H1. by rewrite lookup_insert_ne.
      * destruct (decide (pi_address (cg_peer x) = pi_address (cg_peer g))) as [E|E].
        -- rewrite (proj2 (Hg x Hx) E). rewrite E in Hp. rewrite Hp in Ea. by bool_prop.
        -- apply H2. by rewrite lookup_insert_ne.
  - cbn [map]. intros p q Hp Hq. apply elem_of_cons in Hp as [-> |Hp], Hq as [-> |Hq];
      [done| | |by apply Hu].
    + apply list_elem_of_fmap in Hq as (x & -> & Hx). destruct (Hg x Hx) as [H1 H2].
      split; intros E; symmetry; auto.
    + apply list_elem_of_fmap in Hp as (x & -> & Hx). by apply Hg.
Qed.

Lemma valid_clients s clients :
  Validate s = Ok tt → ld_clients s = Some clients → validate_clients s clients = Ok tt.
Proof.
  unfold Validate. destruct (_ || _); [discriminate|]. intros H E. rewrite E in H. revert H.
  destruct (match ld_server s with Some _ => _ | None => _ end) as [[]|]; [|discriminate]. cbn [rbind].
  destruct (match ld_proxy s with Some _ => _ | None => _ end) as [[]|]; [|discriminate]. done.
Qed.

Lemma valid_peers s : Validate s = Ok tt → unambiguous (state_peers s) ∧ NoDup (map cg_id (state_grants s)).
Proof.
  intros Hv. unfold state_peers, state_grants. destruct (ld_clients s) as [clients|] eqn:Ec.
  - pose proof (valid_clients _ _ Hv Ec) as H. unfold validate_clients in H. revert H.
    destruct (_ || _); [discriminate|]. destruct (CheckSource _ _) as [[]|]; [|discriminate]. cbn [rbind].
    destruct (guard_err _ _) as [[]|]; [|discriminate]. cbn [rbind]. unfold proxy_peers.
    destruct (ld_proxy s) as [proxy|]; intros (_ & Hnd & _ & Hk & Hu)%validate_grants_spec; [|done].
    split; [|done]. cbn [app].
    assert (∀ p, p ∈ map cg_peer (cp_grants clients) → (pi_id p = pi_id (px_peer proxy) → p = px_peer proxy) ∧
      (pi_address p = pi_address (px_peer proxy) → pi_id p = pi_id (px_peer proxy))) as Hp.
    { intros p (g & -> & Hg)%list_elem_of_fmap. destruct (Hk g Hg) as [H1 H2].
      split; intros E; [apply H1|apply H2]; rewrite E; apply lookup_singleton_eq. }
    intros p q [-> |Hp1]%elem_of_cons [-> |Hq1]%elem_of_cons; [done| | |by apply Hu].
    + destruct (Hp q Hq1). split; intros; symmetry; auto.
    + by apply Hp.
  - cbn. split; [|constructor]. rewrite app_nil_r. unfold proxy_peers.
    destruct (ld_proxy s) as [proxy|]; [|by intros ? ? ?%not_elem_of_nil].
    by intros p q ->%list_elem_of_singleton ->%list_elem_of_singleton.
Qed.

(** *** The uses of the peers *)

(** Folding the grants: a use per peer identifier, active when one grant is. *)
Definition grant_use (uses : gmap string PeerUse) (g : ClientGrant) : gmap string PeerUse :=
  <[pi_id (cg_peer g) := mk_use (cg_peer g) true
      ((match uses !! pi_id (cg_peer g) with Some u => pu_active u | None => false end) || cg_enabled g)]> uses.

Lemma grant_uses_lookup l uses i :
  (∀ u j, uses !! j = Some u → pi_id (pu_peer u) = j ∧ pu_tcp_only u = true) →
  ∀ u, fold_left grant_use l uses !! i = Some u →
  pi_id (pu_peer u) = i ∧ pu_tcp_only u = true ∧
  ((∃ g, g ∈ l ∧ cg_peer g = pu_peer u) ∨ ∃ v, uses !! i = Some v ∧ pu_peer v = pu_peer u) ∧
  (pu_active u = true ↔ (∃ v, uses !! i = Some v ∧ pu_active v = true) ∨
     ∃ g, g ∈ l ∧ pi_id (cg_peer g) = i ∧ cg_enabled g = true).
Proof.
  revert uses. induction l as [|g l IH]; intros uses Hw u; cbn [fold_left].
  - intros Hu. destruct (Hw _ _ Hu) as [H1 H2]. split_and!; [done..|right; by exists u|].
    split; [intros Ha; left; by exists u|]. intros [(v & Hv & Ha)|(g & Hg & _)]; [congruence|].
    by apply not_elem_of_nil in Hg.
  - intros Hu. apply IH in Hu as (H1 & H2 & H3 & H4).
    + destruct (decide (pi_id (cg_peer g) = i)) as [E|E].
      * unfold grant_use in H3, H4. rewrite E, lookup_insert_eq in H3, H4. split_and!; [done..| |].
        -- destruct H3 as [(x & Hx & Ex)|(v & [= <-] & Ev)]; left;
             [exists x; split; [by right|done]|exists g; split; [left|done]].
        -- rewrite H4. split.
           ++ intros [(v & [= <-] & [Ha|Ha]%orb_prop)|(x & Hx & Ex)]; cbn in *.
              ** left. destruct (uses !! i) as [w|]; [by exists w|done].
              ** right. exists g. split_and!; [left|done..].
              ** right. exists x. split; [by right|done].
           ++ intros [(v & Hv & Ha)|(x & [-> |Hx]%elem_of_cons & Ex & Hen)].
              ** left. eexists. split; [done|]. cbn. by rewrite Hv, Ha.
              ** left. eexists. split; [done|]. cbn. rewrite Hen. apply orb_true_r.
              ** right. by exists x.
      * unfold grant_use in H3, H4. rewrite lookup_insert_ne in H3, H4 by done. split_and!; [done..| |].
        -- destruct H3 as [(x & Hx & Ex)|H3]; [left|by right]. exists x. split; [by right|done].
        -- rewrite H4. split; (intros [Hv|(x & Hx & Ex & Hen)]; [by left|right]).
           ++ exists x. split; [by right|done].
           ++ apply elem_of_cons in Hx as [-> |Hx]; [done|by exists x].
    + intros v j. unfold grant_use. rewrite lookup_insert_Some. intros [[<- <-]|[_ Hv]]; [done|by apply Hw].
Qed.

Lemma grant_uses_dom l uses i :
  is_Some (fold_left grant_use l uses !! i) ↔ is_Some (uses !! i) ∨ ∃ g, g ∈ l ∧ pi_id (cg_peer g) = i.
Proof.
  revert uses. induction l as [|g l IH]; intros uses; cbn [fold_left].
  - split; [by left|]. intros [H|(g & Hg & _)]; [done|]. by apply not_elem_of_nil in Hg.
  - rewrite IH. unfold grant_use. rewrite lookup_insert_is_Some'. setoid_rewrite elem_of_cons. naive_solver.
Qed.

Lemma peer_uses_fold s :
  peer_uses s = match ld_proxy s with
                | Some proxy => <[pi_id (px_peer proxy) := mk_use (px_peer proxy) false true]>
                                  (fold_left grant_use (state_grants s) ∅)
                | None => fold_left grant_use (state_grants s) ∅
                end.
Proof. done. Qed.

(** One use: its peer is one of the state; TCP-only unless it is the proxy's peer;
    active when the proxy or an enabled grant uses it. *)
Lemma peer_uses_lookup s i u :
  peer_uses s !! i = Some u →
  pi_id (pu_peer u) = i ∧ pu_peer u ∈ state_peers s ∧
  (pu_tcp_only u = true ↔ ∀ p, p ∈ proxy_peers s → pi_id p ≠ i) ∧
  (pu_active u = true ↔ (∃ p, p ∈ proxy_peers s ∧ pi_id p = i) ∨
     ∃ g, g ∈ state_grants s ∧ pi_id (cg_peer g) = i ∧ cg_enabled g = true).
Proof.
  assert (∀ v, fold_left grant_use (state_grants s) ∅ !! i = Some v → pi_id (pu_peer v) = i ∧
    pu_tcp_only v = true ∧ pu_peer v ∈ state_peers s ∧
    (pu_active v = true ↔ ∃ g, g ∈ state_grants s ∧ pi_id (cg_peer g) = i ∧ cg_enabled g = true)) as Hf.
  { intros v Hv. apply grant_uses_lookup in Hv as (H1 & H2 & H3 & H4).
    - split_and!; [done..| |].
      + destruct H3 as [(g & Hg & <-)|(w & Hw & _)]; [|by rewrite lookup_empty in Hw].
        apply elem_of_app. right. by apply list_elem_of_fmap_2.
      + rewrite H4. split; [|by right]. intros [(w & Hw & _)|H]; [by rewrite lookup_empty in Hw|done].
    - intros w j Hw. by rewrite lookup_empty in Hw. }
  rewrite peer_uses_fold. unfold proxy_peers, state_peers in *. destruct (ld_proxy s) as [proxy|] eqn:Ep.
  - rewrite lookup_insert_Some. intros [[<- <-]|[Hne Hu]].
    + cbn. split_and!; [done|unfold proxy_peers; rewrite Ep; left| |].
      * split; [done|]. intros H. by destruct (H (px_peer proxy)); [left|].
      * split; [|done]. intros _. left. exists (px_peer proxy). split; [left|done].
    + destruct (Hf u Hu) as (H1 & H2 & H3 & H4). split_and!; [done..| |].
      * split; [|done]. by intros _ p ->%list_elem_of_singleton.
      * rewrite H4. split; [by right|]. intros [(p & ->%list_elem_of_singleton & E)|H]; done.
  - intros Hu. destruct (Hf u Hu) as (H1 & H2 & H3 & H4). split_and!; [done..| |].
    + split; [|done]. by intros _ p ?%not_elem_of_nil.
    + rewrite H4. split; [by right|]. intros [(p & ?%not_elem_of_nil & _)|H]; done.
Qed.

Lemma elem_of_uses s u : u ∈ PeerUses s ↔ ∃ i, peer_uses s !! i = Some u.
Proof.
  unfold PeerUses. rewrite slice_sort_perm, list_elem_of_fmap. split.
  - intros ([i v] & -> & H%elem_of_map_to_list). by exists i.
  - intros (i & H). exists (i, u). split; [done|by apply elem_of_map_to_list].
Qed.

Lemma uses_nodup s : NoDup (map (λ u, pi_id (pu_peer u)) (PeerUses s)).
Proof.
  unfold PeerUses. rewrite slice_sort_perm.
  replace (map _ _) with (map_to_list (peer_uses s)).*1; [apply NoDup_fst_map_to_list|].
  assert (∀ i u, (i, u) ∈ map_to_list (peer_uses s) → pi_id (pu_peer u) = i) as H.
  { intros i u Hu%elem_of_map_to_list. by apply peer_uses_lookup in Hu as [? _]. }
  induction (map_to_list (peer_uses s)) as [|[i u] l IH]; [done|]. cbn. f_equal.
  - symmetry. apply H. left.
  - apply IH. intros j v Hv. apply H. by right.
Qed.

Lemma uses_cover s p : p ∈ state_peers s → ∃ u, u ∈ PeerUses s ∧ pi_id (pu_peer u) = pi_id p.
Proof.
  intros Hp. assert (is_Some (peer_uses s !! pi_id p)) as [u Hu].
  { rewrite peer_uses_fold. unfold state_peers, proxy_peers in Hp.
    assert (p ∈ map cg_peer (state_grants s) → is_Some (fold_left grant_use (state_grants s) ∅ !! pi_id p)) as Hg.
    { intros (g & -> & Hg)%list_elem_of_fmap. apply grant_uses_dom. right. by exists g. }
    destruct (ld_proxy s) as [proxy|]; [|by apply Hg].
    cbn in Hp. apply elem_of_cons in Hp as [-> |Hp]; [by rewrite lookup_insert_eq|].
    rewrite lookup_insert_is_Some'. right. by apply Hg. }
  exists u. split; [apply elem_of_uses; by eexists|]. by apply peer_uses_lookup in Hu as [? _].
Qed.

(** The peers of a validated landing state are unambiguous: an identifier
    names one machine, a private address belongs to one identifier and no grant is
    listed twice.  [PeerUses] then lists exactly the peers of the state, each once;
    a peer is limited to TCP exactly when the proxy does not use it, and active
    exactly when the proxy or an enabled grant uses it. *)
Theorem validated_peers_are_unambiguous s :
  Validate s = Ok tt →
  unambiguous (state_peers s) ∧ NoDup (map cg_id (state_grants s)) ∧
  NoDup (map (λ u, pi_id (pu_peer u)) (PeerUses s)) ∧
  (∀ p, p ∈ map pu_peer (PeerUses s) ↔ p ∈ state_peers s) ∧
  ∀ u, u ∈ PeerUses s →
    (pu_tcp_only u = true ↔ pu_peer u ∉ proxy_peers s) ∧
    (pu_active u = true ↔ pu_peer u ∈ proxy_peers s ∨
       ∃ g, g ∈ state_grants s ∧ cg_peer g = pu_peer u ∧ cg_enabled g = true).
Proof.
  intros [Hu Hnd]%valid_peers.
  assert (∀ p q, p ∈ state_peers s → q ∈ state_peers s → pi_id p = pi_id q ↔ p = q) as Hid.
  { intros p q Hp Hq. split; [by apply Hu|by intros ->]. }
  assert (∀ p, p ∈ proxy_peers s → p ∈ state_peers s) as Hpr by (intros; apply elem_of_app; by left).
  assert (∀ g, g ∈ state_grants s → cg_peer g ∈ state_peers s) as Hgr.
  { intros. apply elem_of_app. right. by apply list_elem_of_fmap_2. }
  split_and!; [done..|apply uses_nodup| |].
  - intros p. rewrite list_elem_of_fmap. split.
    + intros (u & -> & [i Hi]%elem_of_uses). by apply peer_uses_lookup in Hi as (_ & ? & _).
    + intros Hp. destruct (uses_cover s p Hp) as (u & Hin & E). exists u. split; [|done].
      apply Hid in E; [done| |done]. apply elem_of_uses in Hin as [i Hi].
      by apply peer_uses_lookup in Hi as (_ & ? & _).
  - intros u [i Hi]%elem_of_uses. apply peer_uses_lookup in Hi as (<- & Hin & -> & ->). split.
    + split; [intros H Hp; by apply (H _ Hp)|]. intros H p Hp E. apply Hid in E; [congruence|auto|done].
    + split.
      * intros [(p & Hp & E)|(g & Hg & E & Hen)]; [left|right].
        -- apply Hid in E; [congruence|auto|done].
        -- exists g. split_and!; [done| |done]. apply Hid in E; auto.
      * intros [Hp|(g & Hg & E & Hen)]; [left; by eexists|right]. exists g. by rewrite E.
Qed.
End Peers.

(** ** Witnesses *)
Definition sample_members : list QuotaMember := [mk_member "b" 0 2 true; mk_member "a" 1 4 true].
Definition later_members : list QuotaMember := [mk_member "b" 0 7 true; mk_member "a" 1 4 true].

Lemma sample_int64 : Forall int64_member sample_members.
Proof. unfold sample_members, int64_member, int64_max. repeat constructor; cbn [qm_baseline qm_observed]; lia. Qed.

Lemma quota_is_one_shared_ledger_witness :
  AllocateQuota 10 true sample_members = Ok ([mk_limit "a" 0 true; mk_limit "b" 0 true], 5) ∧
  is_ok (AllocateQuota 10 true sample_members) = true ∧ ledger_ok 10 sample_members.
Proof.
  destruct (quota_is_one_shared_ledger 10 true sample_members sample_int64) as (H & _ & _).
  split; [vm_compute; reflexivity|]. split; [vm_compute; reflexivity|]. apply H. vm_compute. reflexivity.
Defined.

Lemma exhausted_quota_stays_closed_witness :
  ∃ limits used, AllocateQuota 5 true later_members = Ok (limits, used) ∧
    Forall (λ l, ql_enabled l = false) limits.
Proof.
  exists [mk_limit "a" 0 false; mk_limit "b" 0 false], 10. split; [vm_compute; reflexivity|].
  refine (proj1 (exhausted_quota_stays_closed 5 true sample_members later_members _ 10 sample_int64 _ _ _)).
  - vm_compute. split; [reflexivity|discriminate].
  - apply rtc_once. exists (<["a" := 4]> (<["b" := 7]> ∅)). split; [|vm_compute; reflexivity].
    intros i v Hv. apply lookup_insert_Some in Hv as [[_ <-]|[_ Hv]]; [by vm_compute|].
    apply lookup_insert_Some in Hv as [[_ <-]|[_ Hv]]; [by vm_compute|]. by rewrite lookup_empty in Hv.
  - vm_compute. reflexivity.
Defined.

Definition sample_rules : list AccessRule :=
  [mk_rule "100.64.0.2" "100.64.0.1" true; mk_rule "100.64.0.1" "100.64.0.2" true;
   mk_rule "100.64.0.2" "100.64.0.1" false].

Lemma access_rules_are_the_union_witness :
  union_of sample_rules [mk_rule "100.64.0.1" "100.64.0.2" true; mk_rule "100.64.0.2" "100.64.0.1" false].
Proof.
  refine (proj1 (access_rules_are_the_union sample_rules _ _)). vm_compute. reflexivity.
Defined.

#[local] Instance sample_landing_hash : LandingHash :=
  {| sha256_hex _ := "0123456789abcdef0123456789abcdef0123456789abcdef0123456789abcdef" |}.

Definition sample_exit : PeerIdentity := mk_peer "n1" "key" "100.64.0.9".
Definition sample_landing : DesiredState :=
  mk_landing "node" 3 None (Some (mk_proxy "app" ["in"] (mk_peer "n2" "key2" "100.64.0.8")))
    (Some (mk_client_plan "app" (mk_peer "n3" "key3" "100.64.0.7")
       [mk_grant "g1" (sha256_hex "") "in" "user" (sha256_hex "") (FixedUser "g1") (sha256_hex "") sample_exit
          FixedMode true false] [] true)).

Lemma validated_peers_are_unambiguous_witness :
  unambiguous (state_peers sample_landing) ∧ length (PeerUses sample_landing) = 2%nat.
Proof.
  split; [|vm_compute; reflexivity].
  refine (proj1 (validated_peers_are_unambiguous sample_landing _)). vm_compute. reflexivity.
Defined.
