(* ===== verification/Networking.v ===== *)
(** * Node networks: discovery, classification and profiles

    internal/networking: model.go, public_egress.go ([DetectPublicEgress], with the
    answers of the reflector and of the kernel's route selection as arguments) and
    public_helper.go ([ValidateExternalHelperAddress]).  The interfaces of the host
    are an argument; the zero time is [None]. *)
From Stdlib Require Import Ascii.
From S2P Require Import Prelude GoText GoNet.

Definition KindLAN : string := "lan".
Definition KindHeadscale : string := "headscale".
Definition KindPublic : string := "public".
Definition PublicModeDirect : string := "direct".
Definition PublicModeNAT : string := "nat".

Record Candidate := mk_candidate {
  ca_address : string; ca_interface : string; ca_kind : string; ca_observed_at : Z
}.
Record PublicEgress := mk_public_egress {
  pe_address : string; pe_bind_address : string; pe_mode : string; pe_observed_at : Z
}.
Record Profile := mk_profile {
  pf_service_address : string; pf_lan_address : string; pf_headscale_address : string;
  pf_public_address : string; pf_public_bind_address : string; pf_public_mode : string;
  pf_enabled_kinds : list string; pf_direct_public : bool; pf_public_verified_at : option Z;
  pf_confirmed_at : option Z; pf_candidate_observed : option Z
}.

(** ** Classification *)
Definition inCGNAT (ip : IP) : bool :=
  match To4 ip with
  | Some v4 => (byte_at v4 0 =? 100) && (Z.land (byte_at v4 1) 192 =? 64)
  | None => false
  end.

Definition virtual_prefixes : list string :=
  ["docker"; "br-"; "veth"; "cni"; "flannel"; "cali"; "kube-ipvs"; "podman"; "lxcbr"; "virbr"; "wg";
   "tun"; "tap"; "utun"; "zt"; "nebula"].

Definition IsVirtualInterface (interfaceName : string) : bool :=
  let name := to_lower (trim_space interfaceName) in
  (name =?s "") || existsb (λ prefix, has_prefix prefix name) virtual_prefixes.

Definition Classify (interfaceName : string) (ip : IP) : string :=
  if negb (IsGlobalUnicast ip) then "" else
  let name := to_lower (trim_space interfaceName) in
  if negb (is_Some_b (To4 ip)) then
    if negb (Z.land (byte_at ip 0) 224 =? 32) || IsPrivate ip || contains name "tailscale"
       || IsVirtualInterface name
    then "" else KindPublic
  else if contains name "tailscale" then KindHeadscale
  else if IsVirtualInterface name then ""
  else if IsPrivate ip || inCGNAT ip then KindLAN
  else KindPublic.

Definition IsPrivateServiceAddress (value : string) : bool :=
  match ParseIP (trim_space value) with
  | Some ip =>
      is_Some_b (To4 ip) && negb (IsUnspecified ip) && negb (IsMulticast ip)
      && negb (IsLinkLocalUnicast ip) && (IsLoopback ip || IsPrivate ip || inCGNAT ip)
  | None => false
  end.

(** ** Discovery *)

(** An interface: [None] for addresses that cannot be listed, or parsed. *)
Record NetInterface := mk_interface {
  if_name : string; if_up : bool; if_loopback : bool; if_addrs : option (list (option IP))
}.

Definition address_candidate (now : Z) (name : string) (address : option IP) : list Candidate :=
  match address with
  | Some ip =>
      if IsLoopback ip || IsLinkLocalUnicast ip || IsMulticast ip || IsUnspecified ip then []
      else let kind := Classify name ip in
           if kind =?s "" then [] else [mk_candidate (ip_string ip) name kind now]
  | None => []
  end.

Definition interface_candidates (now : Z) (i : NetInterface) : list Candidate :=
  if negb (if_up i) || if_loopback i then []
  else match if_addrs i with
       | Some addresses => concat (map (address_candidate now (if_name i)) addresses)
       | None => []
       end.

Definition candidate_less (a b : Candidate) : bool :=
  if negb (ca_kind a =?s ca_kind b) then ca_kind a <?s ca_kind b
  else if negb (ca_interface a =?s ca_interface b) then ca_interface a <?s ca_interface b
  else ca_address a <?s ca_address b.

(** [Discover]; [interfaces] is the result of [net.Interfaces]. *)
Definition Discover {Srt : SliceSorter} (now : Z) (interfaces : res (list NetInterface))
    : res (list Candidate) :=
  let! l := interfaces in
  Ok (slice_sort candidate_less (concat (map (interface_candidates now) l))).

(** ** Profiles *)
Definition by_address (candidates : list Candidate) : gmap string Candidate :=
  fold_left (λ m c, <[ca_address c := c]> m) candidates ∅.

Definition validateSelectedAddress (candidates : gmap string Candidate) (value kind : string)
    (enabled : bool) : res unit :=
  if negb enabled then
    guard_err (negb (value =?s "")) "network: disabled network kind cannot have a selected address"
  else match ParseIP value with
       | None => Err "network: enabled network kind requires a matching discovered address"
       | Some ip =>
           match candidates !! ip_string ip with
           | Some c => guard_err (negb (ca_kind c =?s kind))
                         "network: enabled network kind requires a matching discovered address"
           | None => Err "network: enabled network kind requires a matching discovered address"
           end
       end.

(** The branch of direct public ingress. *)
Definition validate_public (byAddress : gmap string Candidate) (p : Profile) : res unit :=
  if negb (str_in KindPublic (pf_enabled_kinds p))
  then Err "network: direct public ingress requires the public network" else
  match ParseIP (trim_space (pf_public_address p)) with
  | None => Err "network: direct public ingress requires a valid public IP address"
  | Some publicIP =>
      if negb (Classify "external" publicIP =?s KindPublic)
      then Err "network: direct public ingress requires a valid public IP address" else
      match ParseIP (trim_space (pf_public_bind_address p)) with
      | None => Err "network: direct public ingress requires a local receiving address"
      | Some bindIP =>
          match byAddress !! ip_string bindIP with
          | None => Err "network: public receiving address must be assigned to this node"
          | Some bind =>
              if negb (ca_kind bind =?s KindLAN) && negb (ca_kind bind =?s KindPublic)
              then Err "network: public receiving address must be assigned to this node"
              else if pf_public_mode p =?s PublicModeDirect then
                guard_err (negb (ca_kind bind =?s KindPublic)
                           || negb (ip_string bindIP =?s ip_string publicIP))
                  "network: direct public address must be assigned to this node"
              else if pf_public_mode p =?s PublicModeNAT then
                guard_err (negb (is_Some_b (pf_public_verified_at p)))
                  "network: NAT public ingress requires external verification"
              else Err "network: direct public ingress mode is invalid"
          end
      end
  end.

Definition ValidateProfile (candidates : list Candidate) (p : Profile) : res unit :=
  match ParseIP (trim_space (pf_service_address p)) with
  | None => Err "network: a valid private service address is required"
  | Some serviceIP =>
      let byAddress := by_address candidates in
      let selected := byAddress !! ip_string serviceIP in
      let loopback := IsLoopback serviceIP in
      let enabled kind := str_in kind (pf_enabled_kinds p) in
      if negb loopback && match selected with Some c => ca_kind c =?s KindPublic | None => true end
      then Err "network: service address must be loopback or a discovered LAN or Headscale address"
      else if negb (forallb (λ k, str_in k [KindLAN; KindHeadscale; KindPublic]) (pf_enabled_kinds p))
      then Err "network: invalid enabled network kind"
      else if negb loopback && negb (match selected with Some c => enabled (ca_kind c) | None => enabled "" end)
      then Err "network: service address network must be enabled"
      else
        validateSelectedAddress byAddress (trim_space (pf_lan_address p)) KindLAN (enabled KindLAN) ;;!
        validateSelectedAddress byAddress (trim_space (pf_headscale_address p)) KindHeadscale
          (enabled KindHeadscale) ;;!
        if pf_direct_public p then validate_public byAddress p
        else guard_err (negb (trim_space (pf_public_address p) =?s "")
                        || negb (trim_space (pf_public_bind_address p) =?s "")
                        || negb (trim_space (pf_public_mode p) =?s "")
                        || is_Some_b (pf_public_verified_at p))
               "network: public ingress metadata requires direct public ingress"
  end.

(** ** Public egress *)

(** The end of [LookupPublicIPv4]: the address of a decoded answer. *)
Definition reflected_address (answer : string) : res string :=
  match ParseIP (trim_space answer) with
  | Some ip =>
      if is_Some_b (To4 ip) && (Classify "external" ip =?s KindPublic) then Ok (ip_string ip)
      else Err "network: public address service returned an invalid IPv4 address"
  | None => Err "network: public address service returned an invalid IPv4 address"
  end.

(** [DetectPublicEgress]: [lookup] and [route] are the results of [LookupPublicIPv4]
    and of [DefaultRouteAddress]. *)
Definition DetectPublicEgress (lookup : res string) (route : string → res string)
    (candidates : list Candidate) (now : Z) : res PublicEgress :=
  let! publicAddress := lookup in
  let! bindAddress := route publicAddress in
  match List.find (λ c, (ca_address c =?s bindAddress)
                        && ((ca_kind c =?s KindLAN) || (ca_kind c =?s KindPublic))) candidates with
  | None => Err "network: default route address was not reported by the Agent"
  | Some c =>
      let mode := if (publicAddress =?s bindAddress) && (ca_kind c =?s KindPublic)
                  then PublicModeDirect else PublicModeNAT in
      Ok (mk_public_egress publicAddress bindAddress mode now)
  end.

(** ** Addresses of external helpers *)
Definition Unmap (ip : IP) : Addr :=
  match To4 ip with Some v4 => Addr4 v4 | None => Addr6 ip "" end.

Definition metadata_prefixes : list (Addr * Z) :=
  [(Addr4 [169; 254; 169; 254], 32); (Addr4 [100; 100; 100; 200], 32);
   (Addr6 ([253; 0; 14; 194] ++ repeat 0 10 ++ [2; 84]) "", 128)].

(** 64:ff9b:1::/48, 100::/64 and 2001:db8::/32 after the IPv4 ones. *)
Definition reserved_prefixes : list (Addr * Z) :=
  [(Addr4 [0; 0; 0; 0], 8); (Addr4 [192; 0; 0; 0], 24); (Addr4 [192; 0; 2; 0], 24);
   (Addr4 [192; 88; 99; 0], 24); (Addr4 [198; 18; 0; 0], 15); (Addr4 [198; 51; 100; 0], 24);
   (Addr4 [203; 0; 113; 0], 24); (Addr4 [240; 0; 0; 0], 4);
   (Addr6 ([0; 100; 255; 155; 0; 1] ++ repeat 0 10) "", 48); (Addr6 ([1; 0] ++ repeat 0 14) "", 64);
   (Addr6 ([32; 1; 13; 184] ++ repeat 0 12) "", 32)].

Definition ValidateExternalHelperAddress (ip : IP) (allowPrivate : bool) : res unit :=
  let ip := if Nat.eqb (length ip) 4 then v4_in_6 ip else ip in
  if negb (Nat.eqb (length ip) 16) then Err "network: external helper resolved to an invalid address" else
  let address := Unmap ip in
  let within := existsb (λ '(p, bits), prefix_contains p bits address) in
  if within metadata_prefixes then Err "network: external helper resolved to a metadata address"
  else if IsUnspecified ip || IsMulticast ip || IsLinkLocalUnicast ip
  then Err "network: external helper resolved to a disallowed address"
  else if IsLoopback ip || IsPrivate ip || prefix_contains (Addr4 [100; 64; 0; 0]) 10 address then
    if allowPrivate then Ok tt else Err "network: external helper resolved to a private address"
  else if within reserved_prefixes then
    if allowPrivate then Ok tt else Err "network: external helper resolved to a reserved address"
  else if negb (IsGlobalUnicast ip) then Err "network: external helper resolved to a non-public address"
  else Ok tt.
