(* ===== verification/NetworkingSpec.v ===== *)
(** * The contract of network profiles

    A profile that [Networking.ValidateProfile] accepts over the candidates that
    [Discover] found is grounded in the host's interfaces. *)
From Stdlib Require Import Ascii.
From S2P Require Import Prelude GoText GoNet Networking.

(** An address assigned to an interface that is up and no loopback. *)
Definition assigned (l : list NetInterface) (kind text : string) : Prop :=
  ∃ i addresses ip, i ∈ l ∧ if_up i = true ∧ if_loopback i = false ∧ if_addrs i = Some addresses ∧
    Some ip ∈ addresses ∧ ip_string ip = text ∧ Classify (if_name i) ip = kind.

(** A private IPv4 address, or an IPv4 address of a Tailscale interface. *)
Definition private_address (l : list NetInterface) (text : string) : Prop :=
  ∃ i addresses ip, i ∈ l ∧ if_up i = true ∧ if_addrs i = Some addresses ∧ Some ip ∈ addresses ∧
    ip_string ip = text ∧ To4 ip ≠ None ∧
    (IsPrivate ip = true ∨ inCGNAT ip = true ∨
     contains (to_lower (trim_space (if_name i))) "tailscale" = true).

Lemma classify_private name ip kind :
  Classify name ip = kind → kind = KindLAN ∨ kind = KindHeadscale →
  To4 ip ≠ None ∧ (IsPrivate ip = true ∨ inCGNAT ip = true ∨
    contains (to_lower (trim_space name)) "tailscale" = true).
Proof.
  unfold Classify. cbv zeta. destruct (IsGlobalUnicast ip); cbn [negb]; [|intros <- [[=]|[=]]].
  destruct (To4 ip); cbn [is_Some_b negb].
  - intros H Hk. split; [done|]. destruct (contains _ "tailscale"); [by auto|].
    destruct (IsVirtualInterface _); [by subst; destruct Hk|].
    destruct (IsPrivate ip); [by auto|]. destruct (inCGNAT ip); [by auto|]. by subst; destruct Hk.
  - destruct (_ || _); intros <- [[=]|[=]].
Qed.

Lemma assigned_private l kind text :
  assigned l kind text → kind = KindLAN ∨ kind = KindHeadscale → private_address l text.
Proof.
  intros (i & a & ip & Hi & Hu & _ & Ha & Hip & Et & Hc) Hk.
  destruct (classify_private _ _ _ Hc Hk) as [H4 Hp]. by exists i, a, ip.
Qed.

Lemma by_address_lookup l text c : by_address l !! text = Some c → c ∈ l ∧ ca_address c = text.
Proof.
  unfold by_address. assert (∀ m : gmap string Candidate,
    fold_left (λ m c, <[ca_address c := c]> m) l m !! text = Some c →
    (c ∈ l ∧ ca_address c = text) ∨ m !! text = Some c) as H.
  { induction l as [|x l IH]; intros m; cbn [fold_left]; [by right|].
    intros [[H1 H2]|H]%IH; [left; split; [by right|done]|].
    apply lookup_insert_Some in H as [[<- <-]|[_ H]]; [left; split; [left|done]|by right]. }
  intros [?|Hm]%H; [done|]. by rewrite lookup_empty in Hm.
Qed.

Lemma discovered {Srt : SliceSorter} now l cs c :
  Discover now (Ok l) = Ok cs → c ∈ cs → assigned l (ca_kind c) (ca_address c).
Proof.
  unfold Discover. intros [= <-]. rewrite slice_sort_perm.
  rewrite list_elem_of_In, in_concat. intros (x & Hx & Hc).
  apply in_map_iff in Hx as (i & <- & Hi). unfold interface_candidates in Hc.
  destruct (if_up i) eqn:Eu; [|done]. destruct (if_loopback i) eqn:El; [done|]. cbn in Hc.
  destruct (if_addrs i) as [a|] eqn:Ea; [|done]. apply in_concat in Hc as (y & Hy & Hc).
  apply in_map_iff in Hy as (o & <- & Ho). unfold address_candidate in Hc. destruct o as [ip|]; [|done].
  destruct (_ || _); [done|]. cbv zeta in Hc. destruct (_ =?s "") eqn:E; [done|].
  destruct Hc as [<- |[]]. exists i, a, ip. rewrite !list_elem_of_In. by split_and!.
Qed.

(** What the validation of one enabled kind establishes. *)
Lemma selected_ok m value kind enabled :
  validateSelectedAddress m value kind enabled = Ok tt →
  if enabled then ∃ ip c, ParseIP value = Some ip ∧ m !! ip_string ip = Some c ∧ ca_kind c = kind
  else value = "".
Proof.
  unfold validateSelectedAddress, guard_err. destruct enabled; cbn [negb].
  - destruct (ParseIP value) as [ip|]; [|discriminate]. destruct (m !! ip_string ip) as [c|] eqn:Ec; [|discriminate].
    destruct (ca_kind c =?s kind) eqn:Ek; [|discriminate]. intros _. bool_prop. by exists ip, c.
  - destruct (value =?s "") eqn:E; [|discriminate]. intros _. by bool_prop.
Qed.

(** A kind is selected exactly when it is enabled, with an assigned address. *)
Definition kind_grounded (l : list NetInterface) (p : Profile) (kind value : string) : Prop :=
  if str_in kind (pf_enabled_kinds p)
  then ∃ ip, ParseIP (trim_space value) = Some ip ∧ assigned l kind (ip_string ip)
  else trim_space value = "".

(** Public ingress: a public address received on an address of the node, which is
    the public one in direct mode and externally verified in NAT mode. *)
Definition public_grounded (l : list NetInterface) (p : Profile) : Prop :=
  if pf_direct_public p then
    KindPublic ∈ pf_enabled_kinds p ∧
    ∃ public bind kind, ParseIP (trim_space (pf_public_address p)) = Some public ∧
      ParseIP (trim_space (pf_public_bind_address p)) = Some bind ∧
      Classify "external" public = KindPublic ∧ assigned l kind (ip_string bind) ∧
      (kind = KindLAN ∨ kind = KindPublic) ∧
      (pf_public_mode p = PublicModeDirect ∧ kind = KindPublic ∧ ip_string bind = ip_string public ∨
       pf_public_mode p = PublicModeNAT ∧ is_Some (pf_public_verified_at p))
  else
    trim_space (pf_public_address p) = "" ∧ trim_space (pf_public_bind_address p) = "" ∧
    trim_space (pf_public_mode p) = "" ∧ pf_public_verified_at p = None.

Lemma public_ok l cs p :
  (∀ text c, by_address cs !! text = Some c → assigned l (ca_kind c) text) →
  (if pf_direct_public p then validate_public (by_address cs) p
   else guard_err (negb (trim_space (pf_public_address p) =?s "")
                   || negb (trim_space (pf_public_bind_address p) =?s "")
                   || negb (trim_space (pf_public_mode p) =?s "")
                   || is_Some_b (pf_public_verified_at p))
          "network: public ingress metadata requires direct public ingress") = Ok tt →
  public_grounded l p.
Proof.
  intros Hm. unfold public_grounded, validate_public, guard_err. destruct (pf_direct_public p).
  - destruct (str_in _ _) eqn:Ek; [|discriminate]. cbn [negb].
    destruct (ParseIP (trim_space (pf_public_address p))) as [ip|]; [|discriminate].
    destruct (_ =?s KindPublic) eqn:Ec; [|discriminate]. cbn [negb].
    destruct (ParseIP (trim_space (pf_public_bind_address p))) as [b|]; [|discriminate].
    destruct (by_address cs !! ip_string b) as [c|] eqn:Eb; [|discriminate].
    apply Hm in Eb. destruct (negb _ && negb _) eqn:Ekind; [discriminate|]. intros H.
    split; [by apply str_in_spec|]. exists ip, b, (ca_kind c). bool_prop.
    split_and!; [done..| |].
    + apply andb_false_iff in Ekind as [Ekind|Ekind]; bool_prop; auto.
    + destruct (pf_public_mode p =?s PublicModeDirect) eqn:Ed.
      * destruct (_ || _) eqn:E in H; [discriminate|]. bool_prop. by left.
      * destruct (pf_public_mode p =?s PublicModeNAT) eqn:En; [|discriminate]. bool_prop. right.
        split; [done|]. by destruct (pf_public_verified_at p).
  - destruct (_ || _) eqn:E; [discriminate|]. intros _. bool_prop.
    split_and!; [done..|]. by destruct (pf_public_verified_at p).
Qed.

(** C38 -- A validated profile is grounded in the host: over the candidates found by
    [Discover], the service address is loopback or a private (or Tailscale) IPv4
    address assigned to an interface that is up, on an enabled network; each of the
    LAN and Headscale networks is enabled exactly when it has an assigned address of
    that kind; public ingress is received on an assigned address, in direct mode the
    public address itself and in NAT mode only after external verification, and
    without public ingress no public metadata is kept. *)
Theorem validated_profile_is_grounded {Srt : SliceSorter} now interfaces candidates p :
  Discover now (Ok interfaces) = Ok candidates →
  ValidateProfile candidates p = Ok tt →
  (∃ ip, ParseIP (trim_space (pf_service_address p)) = Some ip ∧
     (IsLoopback ip = true ∨
      private_address interfaces (ip_string ip) ∧
      ∃ kind, kind ∈ pf_enabled_kinds p ∧ kind ≠ KindPublic ∧ assigned interfaces kind (ip_string ip))) ∧
  pf_enabled_kinds p ⊆ [KindLAN; KindHeadscale; KindPublic] ∧
  kind_grounded interfaces p KindLAN (pf_lan_address p) ∧
  kind_grounded interfaces p KindHeadscale (pf_headscale_address p) ∧
  public_grounded interfaces p.
Proof.
  intros Hd. assert (∀ text c, by_address candidates !! text = Some c → assigned interfaces (ca_kind c) text) as Hm.
  { intros text c [Hc <-]%by_address_lookup. by eapply discovered. }
  assert (∀ kind value, validateSelectedAddress (by_address candidates) (trim_space value) kind
    (str_in kind (pf_enabled_kinds p)) = Ok tt → kind_grounded interfaces p kind value) as Hk.
  { intros kind value H%selected_ok. unfold kind_grounded. destruct (str_in kind _); [|done].
    destruct H as (ip & c & Hip & Hc & <-). exists ip. split; [done|]. by apply Hm. }
  unfold ValidateProfile. destruct (ParseIP (trim_space (pf_service_address p))) as [ip|]; [|discriminate].
  cbv zeta. destruct (negb _ && _) eqn:E1; [discriminate|]. destruct (forallb _ _) eqn:E2; [|discriminate].
  cbn [negb]. destruct (negb _ && _) eqn:E3 in |- *; [discriminate|].
  destruct (validateSelectedAddress _ _ KindLAN _) as [[]|] eqn:EL; [|discriminate]. cbn [rbind].
  destruct (validateSelectedAddress _ _ KindHeadscale _) as [[]|] eqn:EH; [|discriminate]. cbn [rbind].
  intros HP%(public_ok interfaces); [|done]. apply Hk in EL, EH.
  assert (pf_enabled_kinds p ⊆ [KindLAN; KindHeadscale; KindPublic]) as Hsub.
  { intros k Hin%list_elem_of_In. rewrite forallb_forall in E2. by apply str_in_spec, E2. }
  split; [|done]. exists ip. split; [done|]. destruct (IsLoopback ip); [by left|right]. cbn [negb andb] in E1, E3.
  destruct (by_address candidates !! ip_string ip) as [c|] eqn:Ec; [|discriminate]. apply Hm in Ec.
  bool_prop. apply str_in_spec in E3. assert (ca_kind c = KindLAN ∨ ca_kind c = KindHeadscale) as Hc.
  { specialize (Hsub _ E3). rewrite !elem_of_cons, elem_of_nil in Hsub. tauto. }
  split; [by apply (assigned_private _ _ _ Ec)|]. by exists (ca_kind c).
Qed.

(** ** Witness *)
Definition sample_interfaces : list NetInterface :=
  [mk_interface "eth0" true false (Some [Some (v4_in_6 [192; 168; 0; 4]); None]);
   mk_interface "docker0" true false (Some [Some (v4_in_6 [172; 17; 0; 1])])].
Definition sample_profile : Profile :=
  mk_profile "192.168.0.4" "192.168.0.4" "" "" "" "" [KindLAN] false None None None.

Lemma validated_profile_is_grounded_witness :
  pf_enabled_kinds sample_profile ⊆ [KindLAN; KindHeadscale; KindPublic].
Proof.
  refine (proj1 (proj2 (validated_profile_is_grounded 0 sample_interfaces
    [mk_candidate "192.168.0.4" "eth0" KindLAN 0] sample_profile _ _))); vm_compute; reflexivity.
Defined.
