(* ===== verification/Json.v ===== *)
(** * Decoded JSON documents

    The values encoding/json decodes into [any]: objects are Go maps, so they have
    no order and one value per key; numbers keep their literal
    ([decoder.UseNumber]). *)
From S2P Require Import Prelude.

#[warnings="-register-all"]
Inductive json :=
| JNull
| JBool (b : bool)
| JNumber (literal : string)
| JString (s : string)
| JArray (l : list json)
| JObject (m : gmap string json).

Abbreviation json_object := (gmap string json).

(** ** Type assertions: [v.(T)] with its second result *)
Definition as_string (v : json) : option string :=
  match v with JString s => Some s | _ => None end.
Definition as_array (v : json) : option (list json) :=
  match v with JArray l => Some l | _ => None end.
Definition as_object (v : json) : option json_object :=
  match v with JObject m => Some m | _ => None end.

(** [m[key].(T)]; a missing key is [nil], on which the assertion fails. *)
Definition get_string (m : json_object) (key : string) : option string := m !! key ≫= as_string.
Definition get_array (m : json_object) (key : string) : option (list json) := m !! key ≫= as_array.
Definition get_object (m : json_object) (key : string) : option json_object := m !! key ≫= as_object.

(** [s, _ := m[key].(string)]. *)
Definition string_or_empty (m : json_object) (key : string) : string := default "" (get_string m key).

(** [v == s] for an interface value and a string. *)
Definition is_string (v : json) (s : string) : bool :=
  match v with JString t => t =?s s | _ => false end.

(** A list of strings. *)
Definition strings (l : list string) : json := JArray (map JString l).

(** [slices.Contains(values, any(s))]. *)
Definition array_contains (l : list json) (s : string) : bool := existsb (λ v, is_string v s) l.

Lemma is_string_spec v s : is_string v s = true ↔ v = JString s.
Proof.
  destruct v; simpl; try (split; discriminate). rewrite String.eqb_eq. split; [by intros ->|by intros [= ->]].
Qed.

Lemma array_contains_strings l s : array_contains (map JString l) s = str_in s l.
Proof.
  unfold array_contains, str_in. induction l as [|x l IH]; [done|]. cbn. by rewrite IH, String.eqb_sym.
Qed.
