(* ===== verification/Routes.v ===== *)
(** * Route changes of landing exits

    internal/landing/routes.go, grant_routes.go and the route functions of state.go:
    how the routing of a node's Xray is changed, journaled and restored.  Texts are
    read and written by the codec of [RouteCodec] (encoding/json); SHA-256 is the
    parameter of [Landing].  The configuration is the decoded object; the code's
    in-place updates of its maps are updates of the value. *)
From Stdlib Require Import Ascii.
From S2P Require Import Prelude GoText GoNet Landing Json.

Definition proxyOutboundTag : string := "vastora-landing-egress".
Definition grantDenyTag : string := "vastora-client-landing-deny".
Definition grantPrivateTag : string := "vastora-client-landing-private-".
Definition combinationTag : string := "vastora-combination-".
Definition SOCKSPort : json := JNumber "1080".

(** encoding/json: [json_Decode] reads one object with [UseNumber] (and [json.Valid]
    accepts the text), [json_Unmarshal] reads numbers as [float64], [json_Marshal]
    writes. *)
Class RouteCodec := {
  json_Decode : string → option json_object;
  json_Unmarshal : string → option json_object;
  json_Marshal : json_object → string
}.

Record RouteChange := mk_change {
  rc_revision : Z; rc_before : string; rc_after : string; rc_replaces : string
}.

(** ** Canonical settings *)

(** The rule 3x-ui keeps for its API: exactly these three fields. *)
Definition is_api_rule (tag : string) (item : json) : bool :=
  match as_object item with
  | Some rule =>
      Nat.eqb (size rule) 3
      && match rule !! "type" with Some v => is_string v "field" | None => false end
      && match rule !! "outboundTag" with Some v => is_string v tag | None => false end
      && match get_array rule "inboundTag" with Some [v] => is_string v tag | _ => false end
  | None => false
  end.

(** The first such rule and the others. *)
Fixpoint pick_api (tag : string) (rules : list json) : option (json * list json) :=
  match rules with
  | [] => None
  | item :: rules' =>
      if is_api_rule tag item then Some (item, rules')
      else match pick_api tag rules' with
           | Some (api, others) => Some (api, item :: others)
           | None => None
           end
  end.

Definition api_first (tag : string) (rules : list json) : list json :=
  match pick_api tag rules with Some (api, others) => api :: others | None => rules end.

Definition set_rules (config routing : json_object) (rules : list json) : json_object :=
  <["routing" := JObject (<["rules" := JArray rules]> routing)]> config.

Definition canonical_config (config : json_object) : json_object :=
  match get_object config "api", get_object config "routing" with
  | Some api, Some routing =>
      let tag := string_or_empty api "tag" in
      if tag =?s "" then config
      else match get_array routing "rules" with
           | Some rules => set_rules config routing (api_first tag rules)
           | None => config
           end
  | _, _ => config
  end.

Section Routes.
Context {RC : RouteCodec} {LH : LandingHash} {Srt : SliceSorter}.

(** The decoded settings and their canonical text. *)
Definition decodeRouteSettings (raw : string) : res (json_object * string) :=
  if (str_len raw =? 0) || (4194304 <? str_len raw) then Err "landing: invalid route settings" else
  match json_Decode raw with
  | None => Err "landing: invalid route settings"
  | Some config => let config := canonical_config config in Ok (config, json_Marshal config)
  end.

Definition RouteSettingsHash (raw : string) : res string :=
  let! d := decodeRouteSettings raw in Ok (sha256_hex (snd d)).

(** ** The forced landing of inbounds *)

Fixpoint select_tags (tags : list string) (selected : gset string) : res (gset string) :=
  match tags with
  | [] => Ok selected
  | tag :: tags' =>
      if negb (trim_space tag =?s tag) || (tag =?s "") || (128 <? str_len tag)
         || bool_decide (tag ∈ selected)
      then Err "landing: invalid business inbound selection"
      else select_tags tags' ({[ tag ]} ∪ selected)
  end.

(** The loop over the outbounds: the tags seen and those of blackholes; [owned] are
    the tags that must not occur. *)
Fixpoint scan_outbounds (owned : string → bool) (message : string) (l : list json)
    (seen blocked : gset string) : res (gset string * gset string) :=
  match l with
  | [] => Ok (seen, blocked)
  | item :: l' =>
      match as_object item with
      | None => Err "landing: invalid original outbound"
      | Some outbound =>
          let tag := string_or_empty outbound "tag" in
          let protocol := string_or_empty outbound "protocol" in
          if (tag =?s "") || bool_decide (tag ∈ seen) || owned tag || (protocol =?s "")
          then Err message
          else scan_outbounds owned message l' ({[ tag ]} ∪ seen)
                 (if protocol =?s "blackhole" then {[ tag ]} ∪ blocked else blocked)
      end
  end.

(** The tag of the API, when it has one, joins the known tags. *)
Definition api_tag (config : json_object) : option string :=
  match get_object config "api" with
  | Some api => match get_string api "tag" with
                | Some tag => if tag =?s "" then None else Some tag
                | None => None
                end
  | None => None
  end.

Definition strategy_ok (routing : json_object) : bool :=
  str_in (string_or_empty routing "domainStrategy") [""; "AsIs"; "IPIfNonMatch"].

(** The selected tags among the values of a rule's scope, in their order. *)
Fixpoint intersect (selected : gset string) (values : list json) (acc : list string)
    : res (list string) :=
  match values with
  | [] => Ok acc
  | v :: values' =>
      match as_string v with
      | None => Err "landing: invalid original inbound scope"
      | Some tag =>
          intersect selected values'
            (if bool_decide (tag ∈ selected) && negb (str_in tag acc) then acc ++ [tag] else acc)
      end
  end.

Definition scope_of_rule (tags : list string) (selected : gset string) (rule : json_object)
    : res (list string) :=
  match rule !! "inboundTag" with
  | None => Ok tags
  | Some v =>
      match as_array v with
      | None => Err "landing: invalid original inbound scope"
      | Some [] => Ok tags
      | Some values => intersect selected values []
      end
  end.

(** The loop over the rules: the scoped copies of the rules that reject. *)
Fixpoint scoped_rejects (tags : list string) (selected seen blocked : gset string) (l : list json)
    : res (list json) :=
  match l with
  | [] => Ok []
  | item :: l' =>
      match as_object item with
      | None => Err "landing: invalid original routing rule"
      | Some rule =>
          if match rule !! "balancerTag" with Some v => negb (is_string v "") | None => false end
          then Err "landing: original routing uses a balancer" else
          let outbound := string_or_empty rule "outboundTag" in
          if negb (bool_decide (outbound ∈ seen))
          then Err "landing: original routing references an unknown outbound"
          else if negb (bool_decide (outbound ∈ blocked))
          then scoped_rejects tags selected seen blocked l'
          else
            let! scope := scope_of_rule tags selected rule in
            let! rest := scoped_rejects tags selected seen blocked l' in
            Ok (match scope with
                | [] => rest
                | _ => JObject (<["inboundTag" := strings scope]> rule) :: rest
                end)
      end
  end.

Definition field_rule (fields : list (string * json)) : json :=
  JObject (list_to_map (("type", JString "field") :: fields)).

Definition socks_outbound (tag address : string) : json :=
  JObject (list_to_map
    [("tag", JString tag); ("protocol", JString "socks");
     ("settings", JObject (list_to_map
        [("servers", JArray [JObject (list_to_map [("address", JString address); ("port", SOCKSPort)])])]))]).

(** The body of [PrepareRouteChange] on the decoded configuration. *)
Definition forced_config (config : json_object) (tags : list string) (selected : gset string)
    (address : string) : res json_object :=
  match get_array config "outbounds" with
  | None | Some [] => Err "landing: missing original outbounds"
  | Some outbounds =>
      let! found := scan_outbounds (λ tag, tag =?s proxyOutboundTag)
        "landing: ambiguous original outbound ownership" outbounds ∅ ∅ in
      let '(seen, blocked) := found in
      let! seen := match api_tag config with
                   | Some tag =>
                       if bool_decide (tag ∈ seen) || (tag =?s proxyOutboundTag)
                          || bool_decide (tag ∈ selected)
                       then Err "landing: ambiguous API route ownership"
                       else Ok ({[ tag ]} ∪ seen)
                   | None => Ok seen
                   end in
      match get_object config "routing" with
      | None => Err "landing: missing original routing settings"
      | Some routing =>
          if negb (strategy_ok routing)
          then Err "landing: original routing requires local DNS resolution" else
          match get_array routing "rules" with
          | None => Err "landing: missing original routing rules"
          | Some rules =>
              let! prefix := scoped_rejects tags selected seen blocked rules in
              let terminal := field_rule [("inboundTag", strings tags); ("network", JString "tcp,udp");
                                          ("outboundTag", JString proxyOutboundTag)] in
              Ok (<["outbounds" := JArray (outbounds ++ [socks_outbound proxyOutboundTag address])]>
                    (set_rules config routing ((prefix ++ [terminal]) ++ rules)))
          end
      end
  end.

Definition PrepareRouteChange (raw : string) (revision : Z) (tags : list string) (peer : PeerIdentity)
    : res RouteChange :=
  if (revision =? 0) || negb (tailnetIPv4 (pi_address peer)) || (pi_id peer =?s "")
     || (pi_public_key peer =?s "") || Nat.eqb (length tags) 0
  then Err "landing: invalid route plan" else
  let! selected := select_tags tags ∅ in
  let! d := decodeRouteSettings raw in
  let! after := forced_config (fst d) tags selected (pi_address peer) in
  Ok (mk_change revision (snd d) (json_Marshal after) "").

(** ** Writing a change *)

(** [NextWrite]: the settings wanted, and whether they must be written. *)
Definition NextWrite (change : RouteChange) (current : string) (enable : bool) : res (string * bool) :=
  if rc_revision change =? 0 then Err "landing: invalid route checkpoint" else
  let! beforeHash := RouteSettingsHash (rc_before change) in
  match RouteSettingsHash (rc_after change) with
  | Err _ => Err "landing: invalid route checkpoint"
  | Ok afterHash =>
      if beforeHash =?s afterHash then Err "landing: invalid route checkpoint" else
      let! currentHash := RouteSettingsHash current in
      let '(want, wantHash, otherHash) :=
        if enable then (rc_after change, afterHash, beforeHash)
        else (rc_before change, beforeHash, afterHash) in
      if currentHash =?s wantHash then Ok (want, false)
      else if negb (currentHash =?s otherHash) then
        if negb (rc_replaces change =?s "")
           && match RouteSettingsHash (rc_replaces change) with
              | Ok replaced => currentHash =?s replaced
              | Err _ => false
              end
        then Ok (want, true)
        else Err "landing: local routing changed outside the pending operation"
      else Ok (want, true)
  end.

Definition PrepareRouteReplacement (previous : RouteChange) (current : string) (revision : Z)
    (tags : list string) (peer : PeerIdentity) : res RouteChange :=
  if revision <=? rc_revision previous then Err "landing: stale route replacement" else
  match NextWrite previous current true with
  | Ok (_, false) =>
      let! next := PrepareRouteChange (rc_before previous) revision tags peer in
      Ok (mk_change (rc_revision next) (rc_before next) (rc_after next) (rc_after previous))
  | _ => Err "landing: current route is not the applied landing configuration"
  end.

(** ** Grants of clients *)

(** Duplicates among the ordered grants: identifiers, scopes and fixed users. *)
Fixpoint check_grants (l : list ClientGrant) (ids scopes fixedUsers : gset string)
    : res (gset string) :=
  match l with
  | [] => Ok fixedUsers
  | g :: l' =>
      GrantValidate g ;;!
      let nul := String (ascii_of_nat 0) "" in
      let scope := cg_parent_id g +:+ nul +:+ cg_inbound_tag g +:+ nul +:+ pi_id (cg_peer g) in
      if bool_decide (cg_id g ∈ ids) || bool_decide (scope ∈ scopes)
         || (negb (cg_fixed_user g =?s "") && bool_decide (cg_fixed_user g ∈ fixedUsers))
      then Err "landing: duplicate client grant"
      else check_grants l' ({[ cg_id g ]} ∪ ids) ({[ scope ]} ∪ scopes)
             (if cg_fixed_user g =?s "" then fixedUsers else {[ cg_fixed_user g ]} ∪ fixedUsers)
  end.

(** A field that limits the scope of a rule is a list of strings. *)
Definition scope_field_ok (rule : json_object) (field : string) : bool :=
  match rule !! field with
  | None => true
  | Some v => match as_array v with
              | Some values => forallb (λ v, is_Some_b (as_string v)) values
              | None => false
              end
  end.

(** The validation of the original rules. *)
Fixpoint check_rules (known : gset string) (l : list json) : res unit :=
  match l with
  | [] => Ok tt
  | item :: l' =>
      match as_object item with
      | None => Err "landing: invalid original routing rule"
      | Some rule =>
          if negb (bool_decide (string_or_empty rule "outboundTag" ∈ known))
          then Err "landing: unknown original outbound"
          else if negb (scope_field_ok rule "inboundTag") || negb (scope_field_ok rule "user")
          then Err "landing: malformed original route scope"
          else if match rule !! "balancerTag" with None | Some JNull => false | _ => true end
          then Err "landing: ambiguous original security policy"
          else check_rules known l'
      end
  end.

(** A list field that excludes a value: present, not empty and without it. *)
Definition excludes (rule : json_object) (field value : string) : bool :=
  match get_array rule field with
  | Some values => negb (Nat.eqb (length values) 0) && negb (array_contains values value)
  | None => false
  end.

(** [scopedGrantRejects]: a rejecting rule for each identity it concerns. *)
Definition reject_key (g : ClientGrant) (user : string) : string :=
  cg_inbound_tag g +:+ String (ascii_of_nat 0) "" +:+ user.

Fixpoint reject_users (rule : json_object) (g : ClientGrant) (users : list string) (seen : gset string)
    : list json * gset string :=
  match users with
  | [] => ([], seen)
  | user :: users' =>
      if (user =?s "") || bool_decide (reject_key g user ∈ seen) || excludes rule "user" user
      then reject_users rule g users' seen
      else let '(l, seen') := reject_users rule g users' ({[ reject_key g user ]} ∪ seen) in
           (JObject (<["user" := strings [user]]> (<["inboundTag" := strings [cg_inbound_tag g]]> rule)) :: l,
            seen')
  end.

Fixpoint scopedGrantRejects (rule : json_object) (grants : list ClientGrant) (seen : gset string)
    : list json :=
  match grants with
  | [] => []
  | g :: grants' =>
      if excludes rule "inboundTag" (cg_inbound_tag g) then scopedGrantRejects rule grants' seen
      else let '(l, seen') := reject_users rule g [cg_base_user g; cg_fixed_user g] seen in
           l ++ scopedGrantRejects rule grants' seen'
  end.

Fixpoint grant_rejects (blocked : gset string) (grants : list ClientGrant) (l : list json) : list json :=
  match l with
  | [] => []
  | item :: l' =>
      match as_object item with
      | Some rule =>
          if bool_decide (string_or_empty rule "outboundTag" ∈ blocked)
          then scopedGrantRejects rule grants ∅ ++ grant_rejects blocked grants l'
          else grant_rejects blocked grants l'
      | None => grant_rejects blocked grants l'
      end
  end.

(** The denial of the private address of the exit to the base identity. *)
Definition private_deny (g : ClientGrant) : json :=
  field_rule [("inboundTag", strings [cg_inbound_tag g]); ("user", strings [cg_base_user g]);
              ("ip", strings [pi_address (cg_peer g) +:+ "/32"]); ("outboundTag", JString grantDenyTag)].

Definition fixed_rule (g : ClientGrant) (network outbound : string) : json :=
  field_rule [("inboundTag", strings [cg_inbound_tag g]); ("user", strings [cg_fixed_user g]);
              ("network", JString network); ("outboundTag", JString outbound)].

Definition user_deny (user : string) : json :=
  field_rule [("user", strings [user]); ("outboundTag", JString grantDenyTag)].

Definition grant_fixed (g : ClientGrant) : bool :=
  cg_enabled g && ModeFixed (cg_mode g).

(** The routes of the fixed identity of a grant, which end in its denial. *)
Definition fixed_rules (g : ClientGrant) : list json :=
  if cg_fixed_user g =?s "" then []
  else (if grant_fixed g
        then [fixed_rule g "udp" grantDenyTag; fixed_rule g "tcp" (FixedOutbound (cg_id g))] else [])
       ++ [user_deny (cg_fixed_user g)].

Definition fixed_outbounds (g : ClientGrant) : list json :=
  if negb (cg_fixed_user g =?s "") && grant_fixed g
  then [socks_outbound (FixedOutbound (cg_id g)) (pi_address (cg_peer g))] else [].

Definition deny_outbound : json :=
  JObject (list_to_map [("tag", JString grantDenyTag); ("protocol", JString "blackhole");
                        ("settings", JObject ∅)]).

Definition grant_owned (tag : string) : bool :=
  (tag =?s grantDenyTag) || has_prefix grantPrivateTag tag || has_prefix combinationTag tag.

(** The body of [PrepareClientRoutes] on the decoded base. *)
Definition client_config (config : json_object) (grants : list ClientGrant) : res json_object :=
  match get_array config "outbounds" with
  | None | Some [] => Err "landing: missing original outbounds"
  | Some outbounds =>
      match get_object config "routing" with
      | None => Err "landing: missing original routing"
      | Some routing =>
          match get_array routing "rules" with
          | None => Err "landing: missing original routing rules"
          | Some rules =>
              if negb (strategy_ok routing)
              then Err "landing: original routing requires local DNS resolution" else
              let! found := scan_outbounds grant_owned "landing: conflicting client route ownership"
                              outbounds ∅ ∅ in
              let '(known, blocked) := found in
              let! known := match api_tag config with
                            | Some tag =>
                                if bool_decide (tag ∈ known) || (tag =?s grantDenyTag)
                                   || has_prefix grantPrivateTag tag
                                then Err "landing: ambiguous API route" else Ok ({[ tag ]} ∪ known)
                            | None => Ok known
                            end in
              let ordered := slice_sort (λ a b, cg_id a <?s cg_id b) grants in
              let! fixedUsers := check_grants ordered ∅ ∅ ∅ in
              if existsb (λ g, bool_decide (cg_base_user g ∈ fixedUsers)) ordered
              then Err "landing: combination cannot be an advanced entry" else
              check_rules known rules ;;!
              let prefix := map private_deny ordered ++ grant_rejects blocked ordered rules
                            ++ concat (map fixed_rules ordered) in
              Ok (<["outbounds" := JArray ((outbounds ++ concat (map fixed_outbounds ordered))
                                           ++ [deny_outbound])]>
                    (set_rules config routing (prefix ++ rules)))
          end
      end
  end.

Definition PrepareClientRoutes (raw : string) (revision : Z) (forced : option ProxyPlan)
    (grants : list ClientGrant) : res RouteChange :=
  if (revision =? 0) || (512 <? Z.of_nat (length grants))
  then Err "landing: invalid client route plan" else
  let! d := decodeRouteSettings raw in
  let before := snd d in
  let! base := match forced with
               | Some plan =>
                   let! change := PrepareRouteChange before revision (px_inbound_tags plan) (px_peer plan) in
                   Ok (rc_after change)
               | None => Ok before
               end in
  let! b := decodeRouteSettings base in
  let! after := client_config (fst b) grants in
  Ok (mk_change revision before (json_Marshal after) "").

(** ** The routes of a desired state (state.go) *)

(** [routing["rules"] = append(prefix, rules...)] on the settings read back; the type
    assertions of the source panic when they fail, which is the last error. *)
Definition block_users (config : json_object) (blocks : list ClientBlock) : res json_object :=
  match get_object config "routing" with
  | Some routing =>
      match get_array routing "rules" with
      | Some rules => Ok (set_rules config routing (map (λ b, user_deny (cb_user b)) blocks ++ rules))
      | None => Err "panic: interface conversion"
      end
  | None => Err "panic: interface conversion"
  end.

Definition PrepareRoutes (s : DesiredState) (raw : string) : res RouteChange :=
  match ld_clients s with
  | Some clients =>
      let! change := PrepareClientRoutes raw (ld_revision s) (ld_proxy s) (cp_grants clients) in
      match json_Unmarshal (rc_after change) with
      | None => Err "landing: invalid client route output"
      | Some config =>
          let! config := block_users config (cp_blocked_users clients) in
          Ok (mk_change (rc_revision change) (rc_before change) (json_Marshal config) (rc_replaces change))
      end
  | None =>
      match ld_proxy s with
      | Some proxy => PrepareRouteChange raw (ld_revision s) (px_inbound_tags proxy) (px_peer proxy)
      | None => Err "landing: disabled state has no routes"
      end
  end.

Definition ReplaceRoutes (s : DesiredState) (previous : RouteChange) (current : string)
    : res RouteChange :=
  if ld_revision s <=? rc_revision previous then Err "landing: stale replacement" else
  match NextWrite previous current true with
  | Ok (_, false) =>
      let! change := PrepareRoutes s (rc_before previous) in
      Ok (mk_change (rc_revision change) (rc_before change) (rc_after change) (rc_after previous))
  | _ => Err "landing: original route ownership changed"
  end.
End Routes.
