(* ===== verification/RoutesSpec.v ===== *)
(** * What the route changes do to connections

    Xray, which is not part of the repository, evaluates the rules of a configuration
    in order; a rule applies when each of its conditions holds.  With the domain strategy
    IPIfNonMatch a connection to which no rule applies has its domain resolved and is
    matched once more; a connection to which no rule applies then takes the first outbound.
    [Xray] states this documented reading of the fields the sources write; against it the
    prepared configurations isolate the selected inbounds and identities.  The strategy
    IPOnDemand, which resolves before the first match, is refused by the sources. *)
From Stdlib Require Import Ascii.
From S2P Require Import Prelude GoText GoNet Orders Landing Json Routes.

(** ** Xray *)
Class Xray := {
  connection : Type;
  conn_inbound : connection → string;
  conn_user : connection → string;
  conn_network : connection → string;
  (* the connection with the addresses of its domain; itself when there is nothing to resolve *)
  resolved : connection → connection;
  resolved_inbound c : conn_inbound (resolved c) = conn_inbound c;
  resolved_user c : conn_user (resolved c) = conn_user c;
  resolved_network c : conn_network (resolved c) = conn_network c;
  condition : string → json → connection → bool;
  condition_type v c : condition "type" v c = true;
  condition_inbound l c :
    condition "inboundTag" (JArray l) c = Nat.eqb (length l) 0 || array_contains l (conn_inbound c);
  condition_networks c : condition "network" (JString "tcp,udp") c = true;
  condition_network n c : str_in n ["tcp"; "udp"] = true →
    condition "network" (JString n) c = (conn_network c =?s n);
  (* a pattern of users that is no regular expression is compared *)
  condition_user l c : Forall (λ v, ∀ s, v = JString s → has_prefix "regexp:" s = false) l →
    condition "user" (JArray l) c = Nat.eqb (length l) 0 || array_contains l (conn_user c)
}.

Section Spec.
Context {X : Xray}.

(** Every field but the outbound is a condition. *)
Definition rule_matches (c : connection) (rule : json_object) : bool :=
  bool_decide (map_Forall (λ k v, k = "outboundTag" ∨ condition k v c = true) rule).

Definition item_matches (c : connection) (item : json) : bool :=
  match as_object item with Some rule => rule_matches c rule | None => false end.

Definition outbound_of (item : json) : string :=
  match as_object item with Some rule => string_or_empty rule "outboundTag" | None => "" end.

Definition has_tag (tag : string) (outbound : json) : bool :=
  match as_object outbound with Some o => string_or_empty o "tag" =?s tag | None => false end.

Definition rules_of (config : json_object) : list json :=
  match get_object config "routing" with Some r => default [] (get_array r "rules") | None => [] end.
Definition outbounds_of (config : json_object) : list json := default [] (get_array config "outbounds").

(** The outbound a tag names. *)
Definition outbound (l : list json) (tag : string) : option json := List.find (has_tag tag) l.

Definition is_blackhole (l : list json) (tag : string) : bool :=
  match outbound l tag ≫= as_object with
  | Some o => string_or_empty o "protocol" =?s "blackhole"
  | None => false
  end.

Definition default_tag (l : list json) : string :=
  match l with o :: _ => match as_object o with Some m => string_or_empty m "tag" | None => "" end | [] => "" end.

(** The first rule that applies. *)
Definition pass (config : json_object) (c : connection) : option string :=
  option_map outbound_of (List.find (item_matches c) (rules_of config)).

(** The strategy that resolves and matches again. *)
Definition matches_again (config : json_object) : bool :=
  match get_object config "routing" with
  | Some r => string_or_empty r "domainStrategy" =?s "IPIfNonMatch"
  | None => false
  end.

(** A connection whose domain is resolved on the node. *)
Definition resolves (config : json_object) (c : connection) : bool :=
  matches_again config && match pass config c with Some _ => false | None => true end.

(** The tag of the outbound a connection takes. *)
Definition route (config : json_object) (c : connection) : string :=
  match pass config c with
  | Some tag => tag
  | None => default (default_tag (outbounds_of config)) (if matches_again config then pass config (resolved c) else None)
  end.

(** A rule that rejects. *)
Definition rejects (config : json_object) (item : json) : bool :=
  is_blackhole (outbounds_of config) (outbound_of item).

(** ** Rules and their fields *)
Lemma rule_matches_split k c rule :
  k ≠ "outboundTag" →
  rule_matches c rule =
  match rule !! k with Some v => condition k v c | None => true end && rule_matches c (delete k rule).
Proof.
  intros Hk. apply eq_true_iff_eq. unfold rule_matches. rewrite andb_true_iff, !bool_decide_eq_true.
  split.
  - intros H. split.
    + destruct (rule !! k) as [v|] eqn:E; [|done]. by destruct (H k v E).
    + intros j v [_ Hj]%lookup_delete_Some. by apply H.
  - intros [H1 H2] j v Hj. destruct (decide (j = k)) as [-> |Hne].
    + right. by rewrite Hj in H1.
    + apply H2. by rewrite lookup_delete_ne.
Qed.

Lemma rule_matches_insert k v c rule :
  k ≠ "outboundTag" →
  rule_matches c (<[k := v]> rule) = condition k v c && rule_matches c (delete k rule).
Proof. intros Hk. rewrite (rule_matches_split k) by done. by rewrite lookup_insert_eq, delete_insert_eq. Qed.

Lemma rule_matches_empty c : rule_matches c ∅ = true.
Proof. apply bool_decide_eq_true. apply map_Forall_empty. Qed.

Lemma rule_matches_outbound v c rule :
  rule_matches c (<["outboundTag" := v]> rule) = rule_matches c (delete "outboundTag" rule).
Proof.
  apply eq_true_iff_eq. unfold rule_matches. rewrite !bool_decide_eq_true. split; intros H j w Hj.
  - apply lookup_delete_Some in Hj as [Hne Hj]. apply H. by rewrite lookup_insert_ne.
  - apply lookup_insert_Some in Hj as [[<- _]|[Hne Hj]]; [by left|]. apply H. by rewrite lookup_delete_ne.
Qed.

Lemma outbound_of_insert k v rule :
  k ≠ "outboundTag" → outbound_of (JObject (<[k := v]> rule)) = outbound_of (JObject rule).
Proof. intros Hk. unfold outbound_of, string_or_empty, get_string. simpl. by rewrite lookup_insert_ne. Qed.

(** Without [inboundTag] the fields of a rule and of its scoped copy agree. *)
Lemma scoped_copy c rule scope v :
  rule !! "inboundTag" = v →
  item_matches c (JObject (<["inboundTag" := strings scope]> rule)) =
  condition "inboundTag" (strings scope) c && rule_matches c (delete "inboundTag" rule).
Proof. intros _. unfold item_matches. simpl. by apply rule_matches_insert. Qed.

Lemma condition_scope scope c :
  scope ≠ [] → condition "inboundTag" (strings scope) c = str_in (conn_inbound c) scope.
Proof.
  intros Hs. unfold strings. rewrite condition_inbound, array_contains_strings, length_map.
  by destruct scope.
Qed.

(** ** Forced landing *)
Lemma select_tags_spec tags s s' :
  select_tags tags s = Ok s' → s' = list_to_set tags ∪ s.
Proof.
  revert s. induction tags as [|t tags IH]; intros s; cbn [select_tags].
  - intros [= <-]. simpl. set_solver.
  - destruct (_ || _); [discriminate|]. intros H%IH. rewrite H. simpl. set_solver.
Qed.

Lemma intersect_spec selected values acc r t :
  intersect selected values acc = Ok r →
  str_in t r = str_in t acc || (bool_decide (t ∈ selected) && array_contains values t).
Proof.
  revert acc. induction values as [|v values IH]; intros acc; cbn [intersect].
  - intros [= <-]. by rewrite andb_false_r, orb_false_r.
  - destruct (as_string v) as [tag|] eqn:Ev; [|discriminate]. intros H. apply IH in H. rewrite H.
    destruct v; try discriminate. injection Ev as ->. cbn [array_contains existsb is_string].
    fold (array_contains values t). destruct (bool_decide (tag ∈ selected)) eqn:Es; cbn [andb].
    + destruct (str_in tag acc) eqn:Ea; cbn [negb].
      * destruct (String.eqb_spec tag t) as [<- |Hne]; [|done]. by rewrite Ea.
      * unfold str_in at 1. rewrite existsb_app. fold (str_in t acc). cbn. rewrite orb_false_r, String.eqb_sym.
        destruct (String.eqb_spec tag t) as [<- |Hne]; [|by rewrite orb_false_r].
        rewrite Es, orb_true_r. by destruct (str_in tag acc).
    + destruct (String.eqb_spec tag t) as [<- |Hne]; [|done]. by rewrite Es, andb_false_l, !orb_false_r.
Qed.

(** The scope of a copy is the part of the rule's scope among the selected tags. *)
Lemma scope_of_rule_spec tags rule scope c :
  scope_of_rule tags (list_to_set tags) rule = Ok scope →
  str_in (conn_inbound c) scope =
  str_in (conn_inbound c) tags
  && match rule !! "inboundTag" with Some v => condition "inboundTag" v c | None => true end.
Proof.
  unfold scope_of_rule. destruct (rule !! "inboundTag") as [v|]; [|intros [= <-]; by rewrite andb_true_r].
  destruct v; try discriminate. cbn [as_array]. rewrite condition_inbound. destruct l as [|x l].
  - intros [= <-]. by rewrite andb_true_r.
  - intros H. apply (intersect_spec _ _ _ _ (conn_inbound c)) in H. rewrite H. cbn [str_in existsb orb].
    f_equal. apply eq_true_iff_eq. rewrite bool_decide_eq_true, elem_of_list_to_set. symmetry. apply str_in_spec.
Qed.

(** What the loop over the outbounds knows. *)
Lemma scan_outbounds_spec owned msg l seen0 blocked0 seen blocked :
  blocked0 ⊆ seen0 → scan_outbounds owned msg l seen0 blocked0 = Ok (seen, blocked) →
  (∀ t, t ∈ seen ↔ t ∈ seen0 ∨ outbound l t ≠ None) ∧
  (∀ t, t ∈ blocked ↔ t ∈ blocked0 ∨ is_blackhole l t = true) ∧
  (∀ t, outbound l t ≠ None → (t ∉ seen0) ∧ owned t = false ∧ t ≠ "").
Proof.
  revert seen0 blocked0. induction l as [|o l IH]; intros seen0 blocked0 Hb; cbn [scan_outbounds].
  { intros [= <- <-]. unfold is_blackhole. cbn. split_and!; intros t; [|naive_solver..]. naive_solver. }
  destruct (as_object o) as [m|] eqn:Eo; [|discriminate]. set (tag := string_or_empty m "tag").
  destruct (_ || _) eqn:Eg; [discriminate|]. bool_prop. intros Hs.
  apply IH in Hs as (I1 & I2 & I3); [|destruct (_ =?s "blackhole"); set_solver].
  assert (∀ t, outbound (o :: l) t = if tag =?s t then Some o else outbound l t) as Hout.
  { intros t. unfold outbound, has_tag. cbn. by rewrite Eo. }
  assert (outbound l tag = None) as Hno.
  { destruct (outbound l tag) eqn:E; [|done]. destruct (I3 tag) as [Hx _]; [by rewrite E|]. set_solver. }
  split_and!; intros t.
  - rewrite I1, Hout, elem_of_union, elem_of_singleton.
    destruct (String.eqb_spec tag t) as [<- |Hne]; naive_solver.
  - rewrite I2. unfold is_blackhole. rewrite Hout.
    destruct (String.eqb_spec tag t) as [<- |Hne].
    + rewrite Hno. cbn. rewrite Eo. destruct (_ =?s "blackhole"); set_solver.
    + destruct (_ =?s "blackhole"); [|done]. rewrite elem_of_union, elem_of_singleton. naive_solver.
  - rewrite Hout. destruct (String.eqb_spec tag t) as [<- |Hne]; [done|]. intros Ht%I3. set_solver.
Qed.

(** The copies reject, for a selected inbound, what the original rejects. *)
Lemma scoped_rejects_spec tags seen blocked l prefix c :
  tags ≠ [] → scoped_rejects tags (list_to_set tags) seen blocked l = Ok prefix →
  if str_in (conn_inbound c) tags
  then option_map outbound_of (List.find (item_matches c) prefix) =
       option_map outbound_of
         (List.find (λ i, bool_decide (outbound_of i ∈ blocked) && item_matches c i) l)
  else List.find (item_matches c) prefix = None.
Proof.
  intros Ht. revert prefix. induction l as [|item l IH]; intros prefix; cbn [scoped_rejects].
  { intros [= <-]. by destruct (str_in _ _). }
  destruct (as_object item) as [rule|] eqn:Eo; [|discriminate].
  destruct item as [| | | | |rule']; try discriminate. injection Eo as ->.
  destruct (match rule !! "balancerTag" with Some _ => _ | None => _ end); [discriminate|].
  destruct (bool_decide (_ ∈ seen)); [|discriminate]. cbn [negb].
  change (string_or_empty rule "outboundTag") with (outbound_of (JObject rule)).
  cbn [List.find]. destruct (bool_decide (_ ∈ blocked)) eqn:Eb; cbn [negb andb]; [|apply IH].
  destruct (scope_of_rule _ _ _) as [scope|] eqn:Es; [|discriminate]. cbn [rbind].
  destruct (scoped_rejects _ _ _ _ l) as [rest|] eqn:Er; [|discriminate]. cbn [rbind].
  specialize (IH rest eq_refl). apply (scope_of_rule_spec _ _ _ c) in Es.
  assert (item_matches c (JObject rule) =
    match rule !! "inboundTag" with Some v => condition "inboundTag" v c | None => true end
    && rule_matches c (delete "inboundTag" rule)) as Hm by (by apply (rule_matches_split "inboundTag")).
  intros [= <-]. destruct scope as [|s0 scope].
  - cbn in Es. destruct (str_in _ tags); [|done]. rewrite Hm, <- (andb_true_l (match _ with Some _ => _ | None => _ end)), <- Es.
    done.
  - cbn [List.find]. rewrite (scoped_copy _ _ _ _ eq_refl), condition_scope, Es by done.
    destruct (str_in _ tags); cbn [andb]; [|done]. rewrite <- Hm.
    destruct (item_matches c (JObject rule)); [|done]. cbn. f_equal. by apply outbound_of_insert.
Qed.

Lemma find_app {A} (f : A → bool) l1 l2 :
  List.find f (l1 ++ l2) = match List.find f l1 with Some x => Some x | None => List.find f l2 end.
Proof. induction l1 as [|x l1 IH]; [done|]. cbn. by destruct (f x). Qed.

Lemma find_ext_in {A} (f g : A → bool) l : (∀ x, x ∈ l → f x = g x) → List.find f l = List.find g l.
Proof.
  induction l as [|x l IH]; [done|]. intros H. cbn. rewrite H by left. destruct (g x); [done|].
  apply IH. intros y Hy. apply H. by right.
Qed.

Lemma rules_of_set config routing rules : rules_of (set_rules config routing rules) = rules.
Proof. unfold rules_of, set_rules, get_object, get_array. by rewrite lookup_insert_eq; cbn; rewrite lookup_insert_eq. Qed.

Lemma outbounds_of_set config l : outbounds_of (<["outbounds" := JArray l]> config) = l.
Proof. unfold outbounds_of, get_array. by rewrite lookup_insert_eq. Qed.

Lemma matches_again_set config routing rules :
  get_object config "routing" = Some routing → matches_again (set_rules config routing rules) = matches_again config.
Proof.
  intros E. unfold matches_again. rewrite E. unfold set_rules, get_object. rewrite lookup_insert_eq. cbn.
  unfold string_or_empty, get_string. by rewrite lookup_insert_ne.
Qed.

Lemma matches_again_outbounds config v : matches_again (<["outbounds" := v]> config) = matches_again config.
Proof. unfold matches_again, get_object. by rewrite lookup_insert_ne. Qed.

Lemma rules_of_outbounds config v : rules_of (<["outbounds" := v]> config) = rules_of config.
Proof. unfold rules_of, get_object. by rewrite lookup_insert_ne. Qed.

(** A rule written as the list of its fields. *)
Lemma rule_matches_list c (l : list (string * json)) :
  NoDup l.*1 →
  rule_matches c (list_to_map l) = forallb (λ '(k, v), (k =?s "outboundTag") || condition k v c) l.
Proof.
  induction l as [|[k v] l IH]; [intros _; apply rule_matches_empty|]. cbn [fmap list_fmap fst].
  intros [Hk Hnd]%NoDup_cons. cbn [list_to_map foldr forallb].
  rewrite <- IH by done. assert ((list_to_map l : json_object) !! k = None) as Hn by (by apply not_elem_of_list_to_map_1).
  apply eq_true_iff_eq. unfold rule_matches. cbn.
  rewrite andb_true_iff, !bool_decide_eq_true, map_Forall_insert, orb_true_iff, String.eqb_eq by done. done.
Qed.

Lemma field_rule_matches c l :
  NoDup ("type" :: l.*1) →
  item_matches c (field_rule l) = forallb (λ '(k, v), (k =?s "outboundTag") || condition k v c) l.
Proof.
  intros Hnd. unfold item_matches, field_rule. cbn [as_object]. rewrite rule_matches_list by done. cbn.
  by rewrite condition_type.
Qed.

Lemma terminal_matches tags c :
  tags ≠ [] →
  item_matches c (field_rule [("inboundTag", strings tags); ("network", JString "tcp,udp");
                              ("outboundTag", JString proxyOutboundTag)]) = str_in (conn_inbound c) tags.
Proof.
  intros Ht. rewrite field_rule_matches by (apply (bool_decide_eq_true_1 _); reflexivity). cbn.
  by rewrite condition_scope, condition_networks, !andb_true_r.
Qed.

Lemma outbound_app l1 l2 t :
  outbound (l1 ++ l2) t = match outbound l1 t with Some o => Some o | None => outbound l2 t end.
Proof. apply find_app. Qed.

Lemma outbound_socks tag address t :
  outbound [socks_outbound tag address] t = if tag =?s t then Some (socks_outbound tag address) else None.
Proof. reflexivity. Qed.

Lemma forced_config_spec config tags address after :
  tags ≠ [] → forced_config config tags (list_to_set tags) address = Ok after →
  (∀ c, conn_inbound c ∉ tags → route after c = route config c) ∧
  (∀ c, conn_inbound c ∈ tags →
     route after c = default proxyOutboundTag (option_map outbound_of
       (List.find (λ i, rejects config i && item_matches c i) (rules_of config))) ∧
     resolves after c = false) ∧
  (∀ t, t ≠ proxyOutboundTag → outbound (outbounds_of after) t = outbound (outbounds_of config) t) ∧
  outbound (outbounds_of after) proxyOutboundTag = Some (socks_outbound proxyOutboundTag address).
Proof.
  intros Ht. unfold forced_config. destruct (get_array config "outbounds") as [outs|] eqn:Eo; [|discriminate].
  assert (outbounds_of config = outs) as Hco by (unfold outbounds_of; by rewrite Eo).
  destruct outs as [|o0 outs']; [discriminate|]. set (outs := o0 :: outs') in *.
  destruct (scan_outbounds _ _ _ _ _) as [[seen blocked]|] eqn:Es; [|discriminate]. cbn [rbind].
  apply scan_outbounds_spec in Es as (S1 & S2 & S3); [|done].
  destruct (match api_tag config with Some _ => _ | None => _ end) as [seen'|]; [|discriminate]. cbn [rbind].
  destruct (get_object config "routing") as [routing|] eqn:Er; [|discriminate].
  destruct (strategy_ok routing); [|discriminate]. cbn [negb].
  destruct (get_array routing "rules") as [rules|] eqn:El; [|discriminate].
  assert (rules_of config = rules) as Hcr by (unfold rules_of; by rewrite Er, El).
  destruct (scoped_rejects _ _ _ _ _) as [prefix|] eqn:Ep; [|discriminate]. cbn [rbind]. intros [= <-].
  assert (outbound outs proxyOutboundTag = None) as Hnone.
  { destruct (outbound outs proxyOutboundTag) eqn:E; [|done].
    destruct (S3 proxyOutboundTag) as (_ & H & _); [by rewrite E|done]. }
  assert (∀ c, List.find (λ i, rejects config i && item_matches c i) rules =
    List.find (λ i, bool_decide (outbound_of i ∈ blocked) && item_matches c i) rules) as Hrej.
  { intros c. apply find_ext_in. intros i _. f_equal. unfold rejects. rewrite Hco.
    apply eq_true_iff_eq. rewrite bool_decide_eq_true, S2. set_solver. }
  set (after := <["outbounds" := _]> _).
  assert (matches_again after = matches_again config) as Hag
    by (unfold after; rewrite matches_again_outbounds; by apply matches_again_set).
  assert (outbounds_of after = outs ++ [socks_outbound proxyOutboundTag address]) as Hao by apply outbounds_of_set.
  assert (∀ c, conn_inbound c ∉ tags → pass after c = pass config c) as Hkeep.
  { intros c Hc. assert (str_in (conn_inbound c) tags = false) as Hf by (apply not_true_iff_false; by rewrite str_in_spec).
    apply (scoped_rejects_spec _ _ _ _ _ c Ht) in Ep. rewrite Hf in Ep.
    unfold pass, after. rewrite rules_of_outbounds, rules_of_set, Hcr, !find_app, Ep. cbn [List.find].
    by rewrite terminal_matches, Hf. }
  assert (∀ c, conn_inbound c ∈ tags → pass after c = Some (default proxyOutboundTag (option_map outbound_of
    (List.find (λ i, rejects config i && item_matches c i) rules)))) as Hforce.
  { intros c Hc%str_in_spec. apply (scoped_rejects_spec _ _ _ _ _ c Ht) in Ep. rewrite Hc in Ep.
    unfold pass, after. rewrite rules_of_outbounds, rules_of_set, Hrej, <- Ep, !find_app. destruct (List.find _ prefix); [done|].
    cbn [List.find]. by rewrite terminal_matches, Hc. }
  rewrite Hao, Hco. split_and!.
  - intros c Hc. unfold route. rewrite Hag, Hao, Hco, !Hkeep by (by rewrite ?resolved_inbound). done.
  - intros c Hc. rewrite Hcr. unfold route, resolves. rewrite (Hforce c Hc). split; [done|apply andb_false_r].
  - intros t Hne. rewrite outbound_app, outbound_socks.
    destruct (outbound outs t); [done|]. by rewrite (proj2 (String.eqb_neq _ _)).
  - rewrite outbound_app. by rewrite Hnone, outbound_socks, String.eqb_refl.
Qed.
End Spec.

(** C32 -- Forced landing isolates exactly the selected inbounds: over the settings
    read, with any strategy they may have, a connection of any other inbound keeps its
    outbound; a connection of a selected inbound is rejected when a rejecting rule of the
    original settings applies to it as it comes (before its domain is resolved), and
    otherwise leaves through the landing exit, whatever else the original rules say; its
    domain is never resolved on the node, so there is no direct fallback and no leak of
    names.  The other outbounds stay, and the exit is the SOCKS server of the peer. *)
Theorem forced_landing_does_not_leak {X : Xray} {RC : RouteCodec} raw revision tags peer change :
  PrepareRouteChange raw revision tags peer = Ok change →
  ∃ before after, decodeRouteSettings raw = Ok (before, rc_before change) ∧
    rc_after change = json_Marshal after ∧ rc_revision change = revision ∧
    (∀ c, conn_inbound c ∉ tags → route after c = route before c) ∧
    (∀ c, conn_inbound c ∈ tags →
       route after c = default proxyOutboundTag (option_map outbound_of
         (List.find (λ i, rejects before i && item_matches c i) (rules_of before))) ∧
       resolves after c = false) ∧
    (∀ t, t ≠ proxyOutboundTag → outbound (outbounds_of after) t = outbound (outbounds_of before) t) ∧
    outbound (outbounds_of after) proxyOutboundTag =
      Some (socks_outbound proxyOutboundTag (pi_address peer)).
Proof.
  unfold PrepareRouteChange. destruct (_ || _) eqn:E; [discriminate|]. bool_prop.
  destruct (select_tags tags ∅) as [selected|] eqn:Es; [|discriminate]. cbn [rbind].
  apply select_tags_spec in Es. rewrite (right_id_L ∅ (∪)) in Es. subst selected.
  destruct (decodeRouteSettings raw) as [[config text]|]; [|discriminate]. cbn [rbind fst snd].
  destruct (forced_config _ _ _ _) as [after|] eqn:Ef; [|discriminate]. intros [= <-].
  apply forced_config_spec in Ef; [|by intros ->]. exists config, after. by split_and!; try apply Ef.
Qed.

(** ** A reading of rules, a codec and settings for the witnesses *)
(** A connection to an address, or to a domain that has one. *)
Record sample_connection := mk_conn { sc_inbound : string; sc_user : string; sc_network : string; sc_ip : string; sc_name : string }.
Abbreviation to_ip inbound user network ip := (mk_conn inbound user network ip "").
Abbreviation to_name inbound user network name := (mk_conn inbound user network "" name).

(** The names of the samples are the addresses they resolve to. *)
Definition sample_resolved (c : sample_connection) : sample_connection :=
  mk_conn (sc_inbound c) (sc_user c) (sc_network c) (if sc_ip c =?s "" then sc_name c else sc_ip c) (sc_name c).

Definition sample_condition (key : string) (v : json) (c : sample_connection) : bool :=
  let listed value := match v with
                      | JArray l => Nat.eqb (length l) 0 || array_contains l value | _ => false end in
  if key =?s "type" then true
  else if key =?s "inboundTag" then listed (sc_inbound c)
  else if key =?s "user" then listed (sc_user c)
  else if key =?s "ip" then listed (sc_ip c +:+ "/32")
  else if key =?s "network" then is_string v "tcp,udp" || is_string v (sc_network c)
  else false.

#[local] Obligation Tactic := try done.
#[local] Program Instance sample_xray : Xray := {|
  connection := sample_connection; conn_inbound := sc_inbound; conn_user := sc_user;
  conn_network := sc_network; resolved := sample_resolved; condition := sample_condition
|}.
Next Obligation.
  intros n c Hn. unfold sample_condition. cbn in *. rewrite orb_false_r in Hn.
  rewrite (String.eqb_sym (sc_network c)).
  apply orb_true_iff in Hn as [->%String.eqb_eq| ->%String.eqb_eq]; reflexivity.
Qed.

(** The text of the settings is one of their fields. *)
Definition named_config (text : string) (rules : list json) : json_object :=
  list_to_map [("name", JString text);
    ("outbounds", JArray [JObject (list_to_map [("tag", JString "direct"); ("protocol", JString "freedom")]);
                          JObject (list_to_map [("tag", JString "blocked"); ("protocol", JString "blackhole")])]);
    ("routing", JObject (list_to_map [("domainStrategy", JString "IPIfNonMatch"); ("rules", JArray rules)]))].

Definition sample_block : json :=
  field_rule [("ip", strings ["10.0.0.1/32"]); ("outboundTag", JString "blocked")].

#[local] Instance sample_codec : RouteCodec := {|
  json_Decode text := if text =?s "" then None else Some (named_config text [sample_block]);
  json_Unmarshal text := if text =?s "" then None else Some (named_config text [sample_block]);
  json_Marshal m := string_or_empty m "name"
|}.

Definition sample_exit_peer : PeerIdentity := mk_peer "n2" "key" "100.64.0.8".

Lemma forced_landing_does_not_leak_witness :
  ∃ before after : json_object,
    (route before (to_ip "in" "u" "tcp" "10.0.0.1") = "blocked" ∧
     route before (to_ip "in" "u" "tcp" "1.1.1.1") = "direct") ∧
    route after (to_name "other" "u" "tcp" "10.0.0.1") = "blocked" ∧
    route after (to_ip "in" "u" "udp" "10.0.0.1") = "blocked" ∧
    route after (to_ip "in" "u" "udp" "1.1.1.1") = proxyOutboundTag.
Proof.
  destruct (forced_landing_does_not_leak "settings" 3 ["in"] sample_exit_peer
              (mk_change 3 "settings" "settings" "")) as (before & after & Hd & _ & _ & Hkeep & Hforce & _);
    [vm_compute; reflexivity|].
  assert (decodeRouteSettings "settings" = Ok (named_config "settings" [sample_block], "settings")) as E
    by (vm_compute; reflexivity).
  rewrite E in Hd. apply (f_equal (λ r, match r with Ok d => Some (fst d) | Err _ => None end)) in Hd.
  cbn [fst] in Hd. apply (inj Some) in Hd as <-.
  exists (named_config "settings" [sample_block]), after.
  split_and!; [vm_compute; reflexivity..|rewrite Hkeep; [vm_compute; reflexivity|set_solver]| |];
    (refine (eq_trans (proj1 (Hforce _ _)) _); [set_solver|vm_compute; reflexivity]).
Defined.

(** What the original rules reject only after a domain was resolved is not rejected for
    the selected inbounds: a name of a blocked address leaves through the exit. *)
Example resolved_rejection_is_lost :
  let before := named_config "settings" [sample_block] in
  match forced_config before ["in"] {[ "in" ]} (pi_address sample_exit_peer) with
  | Ok after => route before (to_name "in" "u" "tcp" "10.0.0.1") = "blocked" ∧
                route after (to_name "in" "u" "tcp" "10.0.0.1") = proxyOutboundTag
  | Err _ => False
  end.
Proof. vm_compute. split; reflexivity. Qed.
