(* ===== verification/GrantRoutesSpec.v ===== *)
(** * What the routes of client grants do to connections

    The configuration of [Routes.client_config] against the reading of rules of
    [RoutesSpec.Xray]: the fixed identity of a grant reaches its own exit or
    nothing, rejections of the original configuration stay, and nobody else is
    routed differently. *)
From Stdlib Require Import Ascii.
From S2P Require Import Prelude GoText GoNet Orders Landing Json Routes RoutesSpec.

(** A name that is compared, not searched. *)
Definition plain_user (u : string) : bool := negb (has_prefix "regexp:" u).

Definition plain_users (item : json) : bool :=
  match as_object item with
  | Some rule => match get_array rule "user" with
                 | Some l => forallb (λ v, match v with JString s => plain_user s | _ => true end) l
                 | None => true
                 end
  | None => true
  end.

Definition NUL : string := String (ascii_of_nat 0) "".

(** ** Keys of identities *)
Lemma contains_any_app s t cs : contains_any (s +:+ t) cs = contains_any s cs || contains_any t cs.
Proof. induction s as [|x s IH]; [done|]. rewrite app_cons_s. cbn. by rewrite IH, orb_assoc. Qed.

Lemma nul_split a b u v :
  contains_any u [ascii_of_nat 0] = false → contains_any v [ascii_of_nat 0] = false →
  a +:+ NUL +:+ u = b +:+ NUL +:+ v → a = b ∧ u = v.
Proof.
  intros Hu Hv. revert b. induction a as [|x a IH]; intros [|y b]; cbn.
  - intros E. injection E as E. split; [done|exact E].
  - intros [= <- E]. assert (contains_any u [ascii_of_nat 0] = true) as H; [|by rewrite H in Hu].
    change (contains_any ("" +:+ u) [ascii_of_nat 0] = true).
    rewrite E, contains_any_app. cbn. by rewrite orb_true_r.
  - intros [= -> E]. assert (contains_any v [ascii_of_nat 0] = true) as H; [|by rewrite H in Hv].
    change (contains_any ("" +:+ v) [ascii_of_nat 0] = true).
    rewrite <- E, contains_any_app. cbn. by rewrite orb_true_r.
  - intros [= <- E]. by destruct (IH b E) as [-> ->].
Qed.

Lemma append_inj_l a u v : a +:+ u = a +:+ v → u = v.
Proof. induction a as [|x a IH]; [done|]. rewrite !app_cons_s. intros [= H]. by apply IH. Qed.

Lemma contains_any_incl s cs ds :
  (∀ x, x ∈ cs → x ∈ ds) → contains_any s ds = false → contains_any s cs = false.
Proof.
  intros Hin. induction s as [|x s IH]; [done|]. cbn. intros [H1 H2]%orb_false_iff.
  rewrite IH, orb_false_r by done. apply not_true_iff_false. intros (y & Hy & E)%existsb_exists.
  apply not_true_iff_false in H1. apply H1, existsb_exists. exists y. split; [|done].
  by apply list_elem_of_In, Hin, list_elem_of_In.
Qed.

Section Spec.
Context {X : Xray} {LH : LandingHash} {Srt : SliceSorter}.

(** Hexadecimal text has no NUL. *)
Context (sha256_hex_text : ∀ s, contains_any (grantTag s) [ascii_of_nat 0] = false).

(** ** The users of a rule *)
Lemma condition_plain u c :
  plain_user u = true → condition "user" (strings [u]) c = (conn_user c =?s u).
Proof.
  intros Hp%negb_true_iff. unfold strings. rewrite condition_user.
  - cbn. by rewrite orb_false_r, String.eqb_sym.
  - constructor; [|constructor]. by intros s [= <-].
Qed.

Lemma condition_tag t c : condition "inboundTag" (strings [t]) c = (conn_inbound c =?s t).
Proof. rewrite condition_scope by done. cbn. by rewrite orb_false_r. Qed.

Lemma fixed_user_plain id : plain_user (FixedUser id) = true.
Proof. done. Qed.

(** A rule that applies does not exclude the inbound and the user it applies to. *)
Lemma excludes_inbound c rule :
  rule_matches c rule = true → excludes rule "inboundTag" (conn_inbound c) = false.
Proof.
  rewrite (rule_matches_split "inboundTag") by done. intros [H _]%andb_prop.
  unfold excludes, get_array. destruct (rule !! "inboundTag") as [v|]; [|done]. cbn.
  destruct v; try done. cbn. rewrite condition_inbound in H. destruct (Nat.eqb _ _); [done|]. cbn in *. by rewrite H.
Qed.

Lemma excludes_user c rule :
  plain_users (JObject rule) = true → rule_matches c rule = true →
  excludes rule "user" (conn_user c) = false.
Proof.
  intros Hp. rewrite (rule_matches_split "user") by done. intros [H _]%andb_prop.
  unfold plain_users, excludes, get_array in *. cbn in Hp. destruct (rule !! "user") as [v|]; [|done].
  cbn in *. destruct v; try done. cbn in *. rewrite condition_user in H.
  - destruct (Nat.eqb _ _); [done|]. cbn in *. by rewrite H.
  - apply Forall_forall. intros v Hv s ->. rewrite forallb_forall in Hp.
    apply list_elem_of_In in Hv. by apply Hp, negb_true_iff in Hv.
Qed.

(** ** The scoped copies of the rejecting rules *)
Definition reject_copy (rule : json_object) (g : ClientGrant) (user : string) : json :=
  JObject (<["user" := strings [user]]> (<["inboundTag" := strings [cg_inbound_tag g]]> rule)).

Definition identity_of (g : ClientGrant) (user : string) : Prop :=
  (user = cg_base_user g ∨ user = cg_fixed_user g) ∧ user ≠ "".

Lemma reject_copy_matches rule g u c :
  plain_user u = true → item_matches c (reject_copy rule g u) = true →
  conn_user c = u ∧ conn_inbound c = cg_inbound_tag g.
Proof.
  intros Hu. unfold reject_copy, item_matches. cbn [as_object].
  rewrite rule_matches_insert, condition_plain by done. intros [E H]%andb_prop.
  rewrite delete_insert_ne, rule_matches_insert, condition_tag in H by done. bool_prop. done.
Qed.

Lemma rule_matches_delete k c rule : rule_matches c rule = true → rule_matches c (delete k rule) = true.
Proof.
  unfold rule_matches. rewrite !bool_decide_eq_true. intros H j v [_ Hj]%lookup_delete_Some. by apply H.
Qed.

Lemma reject_copy_applies rule g c :
  plain_user (conn_user c) = true → conn_inbound c = cg_inbound_tag g → rule_matches c rule = true →
  item_matches c (reject_copy rule g (conn_user c)) = true.
Proof.
  intros Hp Hi Hm. unfold reject_copy, item_matches. cbn [as_object].
  rewrite rule_matches_insert, condition_plain, String.eqb_refl by done. cbn [andb].
  rewrite delete_insert_ne, rule_matches_insert, condition_tag, Hi, String.eqb_refl by done. cbn [andb].
  by do 2 apply rule_matches_delete.
Qed.

Lemma reject_copy_outbound rule g u : outbound_of (reject_copy rule g u) = outbound_of (JObject rule).
Proof. unfold reject_copy. by rewrite !outbound_of_insert. Qed.

Lemma reject_users_spec rule g users seen l seen' :
  reject_users rule g users seen = (l, seen') →
  (∀ i, i ∈ l → ∃ u, u ∈ users ∧ u ≠ "" ∧ i = reject_copy rule g u) ∧
  (∀ u, u ∈ users → u ≠ "" → excludes rule "user" u = false →
     reject_key g u ∈ seen ∨ reject_copy rule g u ∈ l) ∧
  (∀ k, k ∈ seen' → k ∈ seen ∨ ∃ u, u ∈ users ∧ k = reject_key g u ∧ reject_copy rule g u ∈ l).
Proof.
  revert seen l seen'. induction users as [|u0 users IH]; intros seen l seen'; cbn [reject_users].
  { intros [= <- <-]. split_and!; [set_solver..|by left]. }
  destruct (_ || _) eqn:Eg.
  - intros (H1 & H2 & H3)%IH. split_and!.
    + intros i Hi. destruct (H1 i Hi) as (u & ? & ?). exists u. set_solver.
    + intros u [-> |Hu]%elem_of_cons Hne Hex; [|by apply H2].
      rewrite Hex, orb_false_r in Eg. rewrite (proj2 (String.eqb_neq _ _) Hne) in Eg. cbn in Eg. bool_prop.
      by left.
    + intros k Hk. destruct (H3 k Hk) as [?|(u & ? & ?)]; [by left|right; exists u; set_solver].
  - bool_prop. destruct (reject_users _ _ _ ({[_]} ∪ _)) as [l0 s0] eqn:E0. intros [= <- <-].
    apply IH in E0 as (H1' & H2' & H3'). change (JObject _) with (reject_copy rule g u0). split_and!.
    + intros i [-> |Hi]%elem_of_cons; [exists u0; set_solver|].
      destruct (H1' i Hi) as (u & ? & ?). exists u. set_solver.
    + intros u [-> |Hu]%elem_of_cons Hne Hex; [right; by left|].
      destruct (H2' u Hu Hne Hex) as [[E%elem_of_singleton|?]%elem_of_union|?]; [|by left|right; by right].
      apply append_inj_l, append_inj_l in E as ->. right. by left.
    + intros k Hk. destruct (H3' k Hk) as [[->%elem_of_singleton|?]%elem_of_union|(u & ? & ? & ?)].
      * right. exists u0. set_solver.
      * by left.
      * right. exists u. set_solver.
Qed.

Lemma scopedGrantRejects_spec rule grants seen :
  (∀ i, i ∈ scopedGrantRejects rule grants seen →
     ∃ g u, g ∈ grants ∧ identity_of g u ∧ i = reject_copy rule g u) ∧
  (∀ g u, g ∈ grants → identity_of g u → excludes rule "inboundTag" (cg_inbound_tag g) = false →
     excludes rule "user" u = false →
     reject_key g u ∈ seen ∨
     ∃ g' u', g' ∈ grants ∧ identity_of g' u' ∧ reject_key g u = reject_key g' u' ∧
       reject_copy rule g' u' ∈ scopedGrantRejects rule grants seen).
Proof.
  revert seen. induction grants as [|g0 grants IH]; intros seen; cbn [scopedGrantRejects].
  { split; set_solver. }
  destruct (excludes rule "inboundTag" (cg_inbound_tag g0)) eqn:Ex.
  { destruct (IH seen) as [I1 I2]. split.
    - intros i Hi. destruct (I1 i Hi) as (g & u & ? & ?). exists g, u. set_solver.
    - intros g u [-> |Hg]%elem_of_cons Hu Hi Hx; [by rewrite Hi in Ex|].
      destruct (I2 g u Hg Hu Hi Hx) as [?|(g' & u' & ? & ?)]; [by left|right; exists g', u'; set_solver]. }
  destruct (reject_users _ _ _ _) as [l seen'] eqn:Er. apply reject_users_spec in Er as (R1 & R2 & R3).
  destruct (IH seen') as [I1 I2]. split.
  - intros i [Hi|Hi]%elem_of_app.
    + destruct (R1 i Hi) as (u & Hu & Hne & ->). exists g0, u. split_and!; [by left| |done].
      unfold identity_of. set_solver.
    + destruct (I1 i Hi) as (g & u & ? & ?). exists g, u. set_solver.
  - assert (∀ u, u ∈ [cg_base_user g0; cg_fixed_user g0] → reject_copy rule g0 u ∈ l → identity_of g0 u) as Hid.
    { intros u Hu Hc. split; [set_solver|]. intros ->. destruct (R1 _ Hc) as (u' & _ & Hne & E).
      apply (f_equal (λ j, match as_object j with Some m => m !! "user" | None => None end)) in E.
      unfold reject_copy in E. cbn in E. rewrite !lookup_insert_eq in E. by injection E as <-. }
    intros g u [-> |Hg]%elem_of_cons Hu Hi Hx.
    + destruct (R2 u) as [?|Hc]; [destruct Hu as [[-> | ->] _]; set_solver|by destruct Hu|done|by left|].
      right. exists g0, u. set_solver.
    + destruct (I2 g u Hg Hu Hi Hx) as [Hk|(g' & u' & ? & ?)]; [|right; exists g', u'; set_solver].
      destruct (R3 _ Hk) as [?|(u' & Hu' & E & Hc)]; [by left|].
      right. exists g0, u'. set_solver.
Qed.

Lemma grant_rejects_sound blocked grants l i :
  i ∈ grant_rejects blocked grants l →
  outbound_of i ∈ blocked ∧ ∃ rule g u, g ∈ grants ∧ identity_of g u ∧ i = reject_copy rule g u.
Proof.
  induction l as [|item l IH]; cbn [grant_rejects]; [set_solver|].
  destruct (as_object item) as [rule|] eqn:Eo; [|done]. case_bool_decide as Hb; [|done].
  intros [Hi|Hi]%elem_of_app; [|by apply IH].
  destruct (proj1 (scopedGrantRejects_spec rule grants ∅) i Hi) as (g & u & Hg & Hu & ->).
  split; [by rewrite reject_copy_outbound|]. by exists rule, g, u.
Qed.

Lemma grant_rejects_complete blocked grants l item c g :
  Forall (λ g, ∀ u, identity_of g u → contains_any u [ascii_of_nat 0] = false) grants →
  item ∈ l → outbound_of item ∈ blocked → plain_users item = true → item_matches c item = true →
  g ∈ grants → conn_inbound c = cg_inbound_tag g → identity_of g (conn_user c) →
  plain_user (conn_user c) = true →
  ∃ i, i ∈ grant_rejects blocked grants l ∧ item_matches c i = true.
Proof.
  intros Hn Hin Hb Hpl Hm Hg Hi Hu Hp. induction l as [|item' l IH]; [set_solver|].
  cbn [grant_rejects]. apply elem_of_cons in Hin as [<- |Hin].
  - unfold item_matches in Hm. destruct (as_object item) as [rule|] eqn:Eo; [|discriminate].
    destruct item as [| | | | |rule']; try discriminate. injection Eo as ->.
    rewrite bool_decide_true by done.
    destruct (proj2 (scopedGrantRejects_spec rule grants ∅) g (conn_user c) Hg Hu)
      as [?|(g' & u' & Hg' & Hu' & E & Hc)];
      [rewrite <- Hi; by apply excludes_inbound|by apply excludes_user|set_solver|].
    rewrite Forall_forall in Hn.
    apply nul_split in E as [Et <-]; [|by apply (Hn g)|by apply (Hn g')].
    eexists. split; [apply elem_of_app; left; exact Hc|]. apply reject_copy_applies; congruence.
  - destruct (IH Hin) as (i & Hx & ?). exists i. split; [|done].
    destruct (as_object item'); [|done]. case_bool_decide; [|done]. apply elem_of_app. by right.
Qed.

(** ** The grants *)
Lemma check_grants_spec l ids scopes users users' :
  check_grants l ids scopes users = Ok users' →
  Forall (λ g, GrantValidate g = Ok tt) l ∧
  (∀ u, u ∈ users' ↔ u ∈ users ∨ ∃ g, g ∈ l ∧ cg_fixed_user g = u ∧ u ≠ "") ∧
  (∀ g, g ∈ l → cg_fixed_user g ≠ "" → cg_fixed_user g ∉ users) ∧
  (∀ l1 g l2, l = l1 ++ g :: l2 → cg_fixed_user g ≠ "" →
     ∀ g', g' ∈ l1 ++ l2 → cg_fixed_user g' ≠ cg_fixed_user g).
Proof.
  revert ids scopes users. induction l as [|g0 l IH]; intros ids scopes users; cbn [check_grants].
  { intros [= <-]. split_and!; [constructor|set_solver|set_solver|]. by intros []. }
  destruct (GrantValidate g0) as [[]|] eqn:Eg; [|discriminate]. cbn [rbind].
  destruct (_ || _) eqn:E; [discriminate|]. apply orb_false_iff in E as [_ E].
  intros (H1 & H2 & H3 & H4)%IH.
  assert (cg_fixed_user g0 ≠ "" → cg_fixed_user g0 ∉ users) as Hnew.
  { intros Hne. rewrite (proj2 (String.eqb_neq _ _) Hne) in E. cbn in E. by bool_prop. }
  assert (∀ g, g ∈ l → cg_fixed_user g ≠ "" → cg_fixed_user g ≠ cg_fixed_user g0) as Hd.
  { intros g Hg Hne Eq. specialize (H3 g Hg Hne). rewrite Eq in *.
    rewrite (proj2 (String.eqb_neq _ _) Hne) in H3. set_solver. }
  split_and!; [by constructor| | |].
  - intros u. rewrite H2. destruct (String.eqb_spec (cg_fixed_user g0) "") as [E0|Hne].
    + split; [intros [?|(g & ? & ?)]|intros [?|(g & [-> |?]%elem_of_cons & <- & ?)]]; naive_solver set_solver.
    + rewrite elem_of_union, elem_of_singleton. split.
      * intros [[-> |?]|(g & ? & ?)]; [right; exists g0; set_solver|by left|right; exists g; set_solver].
      * intros [?|(g & [-> |?]%elem_of_cons & <- & ?)]; naive_solver.
  - intros g [-> |Hg]%elem_of_cons Hne; [by apply Hnew|]. specialize (H3 g Hg Hne).
    destruct (_ =?s ""); set_solver.
  - intros [|g1 l1] g l2 [= -> ->] Hne g' Hg'.
    + destruct (decide (cg_fixed_user g' = "")) as [-> |?]; [done|]. by apply Hd.
    + apply elem_of_cons in Hg' as [-> |Hg'].
      * intros Eq. apply (Hd g); [set_solver|done|done].
      * by apply (H4 l1 g l2 eq_refl Hne).
Qed.

Lemma grant_valid_base g : GrantValidate g = Ok tt →
  cg_base_user g ≠ "" ∧ contains_any (cg_base_user g) [ascii_of_nat 0] = false ∧
  (cg_fixed_user g = "" ∨ cg_fixed_user g = FixedUser (cg_id g)).
Proof.
  unfold GrantValidate. destruct (_ || _) eqn:E; [discriminate|]. bool_prop.
  destruct (negb (cg_fixed_user g =?s "") && _) eqn:E2; [discriminate|]. intros _.
  assert (validRouteUser (cg_base_user g) = true) as Hv by done. unfold validRouteUser in Hv. bool_prop.
  split_and!; [done| |].
  - eapply contains_any_incl; [|eassumption]. intros x ->%list_elem_of_singleton. set_solver.
  - apply andb_false_iff in E2 as [E2|E2]; bool_prop; [by left|right].
    match goal with H : _ = FixedUser _ |- _ => exact H end.
Qed.

(** ** The routes of fixed identities *)
Lemma fixed_rule_matches g network out c :
  plain_user (cg_fixed_user g) = true → str_in network ["tcp"; "udp"] = true →
  item_matches c (fixed_rule g network out) =
  (conn_inbound c =?s cg_inbound_tag g) && (conn_user c =?s cg_fixed_user g) && (conn_network c =?s network).
Proof.
  intros Hp Hn. unfold fixed_rule. rewrite field_rule_matches by (apply (bool_decide_eq_true_1 _); reflexivity).
  cbn [forallb]. rewrite condition_tag, condition_plain, condition_network by done. cbn.
  by rewrite !andb_true_r, andb_assoc.
Qed.

Lemma user_deny_matches u c : plain_user u = true → item_matches c (user_deny u) = (conn_user c =?s u).
Proof.
  intros Hp. unfold user_deny. rewrite field_rule_matches by (apply (bool_decide_eq_true_1 _); reflexivity).
  cbn [forallb]. rewrite condition_plain by done. cbn. by rewrite !andb_true_r.
Qed.

Lemma private_deny_matches g c :
  plain_user (cg_base_user g) = true → item_matches c (private_deny g) = true →
  conn_user c = cg_base_user g.
Proof.
  intros Hp. unfold private_deny. rewrite field_rule_matches by (apply (bool_decide_eq_true_1 _); reflexivity).
  cbn [forallb]. rewrite condition_tag, condition_plain by done. cbn. intros H. bool_prop. done.
Qed.

(** The identity of another user is not touched; its own routes decide. *)
Lemma fixed_rules_other g c :
  plain_user (cg_fixed_user g) = true → conn_user c ≠ cg_fixed_user g →
  List.find (item_matches c) (fixed_rules g) = None.
Proof.
  intros Hp Hne. unfold fixed_rules. destruct (_ =?s ""); [done|].
  apply String.eqb_neq in Hne. destruct (grant_fixed g); cbn [app List.find];
    rewrite ?fixed_rule_matches, user_deny_matches, Hne, ?andb_false_r by done; done.
Qed.

Definition fixed_route (g : ClientGrant) (c : connection) : string :=
  if grant_fixed g && (conn_inbound c =?s cg_inbound_tag g) && (conn_network c =?s "tcp")
  then FixedOutbound (cg_id g) else grantDenyTag.

Lemma fixed_rules_own g c :
  plain_user (cg_fixed_user g) = true → cg_fixed_user g ≠ "" → conn_user c = cg_fixed_user g →
  option_map outbound_of (List.find (item_matches c) (fixed_rules g)) = Some (fixed_route g c).
Proof.
  intros Hp Hne Hu. unfold fixed_rules, fixed_route. rewrite (proj2 (String.eqb_neq _ _) Hne).
  destruct (grant_fixed g); cbn [app List.find andb];
    rewrite ?fixed_rule_matches, user_deny_matches, Hu, String.eqb_refl, ?andb_true_r by done; [|done].
  destruct (_ =?s cg_inbound_tag g); [|done]. cbn [andb].
  destruct (String.eqb_spec (conn_network c) "udp") as [-> |Hn]; [done|].
  by destruct (_ =?s "tcp").
Qed.

Lemma find_concat_none {A} (f : A → bool) (ls : list (list A)) :
  (∀ l, l ∈ ls → List.find f l = None) → List.find f (concat ls) = None.
Proof.
  induction ls as [|l ls IH]; [done|]. intros H. cbn. rewrite find_app, H by left. apply IH. set_solver.
Qed.

Lemma fixed_rules_none gs c :
  (∀ g, g ∈ gs → plain_user (cg_fixed_user g) = true ∧ (cg_fixed_user g = "" ∨ conn_user c ≠ cg_fixed_user g)) →
  List.find (item_matches c) (concat (map fixed_rules gs)) = None.
Proof.
  intros H. apply find_concat_none. intros l (g & -> & Hg)%list_elem_of_fmap.
  destruct (H g Hg) as [Hp [E|Hne]]; [unfold fixed_rules; by rewrite E|by apply fixed_rules_other].
Qed.

Lemma fixed_rules_find gs g c :
  (∀ g, g ∈ gs → plain_user (cg_fixed_user g) = true) →
  (∀ l1 l2, gs = l1 ++ g :: l2 → ∀ g', g' ∈ l1 ++ l2 → cg_fixed_user g' ≠ cg_fixed_user g) →
  g ∈ gs → cg_fixed_user g ≠ "" → conn_user c = cg_fixed_user g →
  option_map outbound_of (List.find (item_matches c) (concat (map fixed_rules gs))) = Some (fixed_route g c).
Proof.
  intros Hp Hd Hg Hne Hu. apply list_elem_of_split in Hg as (l1 & l2 & E). specialize (Hd l1 l2 E). subst gs.
  rewrite map_app, concat_app, find_app. cbn [map concat].
  rewrite fixed_rules_none; [|intros g' Hg'; split; [apply Hp; set_solver|right; rewrite Hu; apply not_eq_sym, Hd; set_solver]].
  rewrite find_app. pose proof (fixed_rules_own g c (Hp g ltac:(set_solver)) Hne Hu) as Ho.
  destruct (List.find _ (fixed_rules g)); [done|discriminate].
Qed.

(** ** The outbounds *)
Lemma fixed_owned id : grant_owned (FixedOutbound id) = true.
Proof.
  unfold grant_owned, FixedOutbound. change "vastora-combination-" with combinationTag.
  rewrite has_prefix_app. apply orb_true_r.
Qed.

Lemma fixed_outbounds_none gs t :
  (∀ g, g ∈ gs → cg_fixed_user g = "" ∨ FixedOutbound (cg_id g) ≠ t) →
  outbound (concat (map fixed_outbounds gs)) t = None.
Proof.
  intros H. apply find_concat_none. intros l (g & -> & Hg)%list_elem_of_fmap.
  unfold fixed_outbounds. destruct (H g Hg) as [-> |Hne]; [done|].
  destruct (_ && _); [|done]. fold (outbound [socks_outbound (FixedOutbound (cg_id g)) (pi_address (cg_peer g))] t).
  by rewrite outbound_socks, (proj2 (String.eqb_neq _ _) Hne).
Qed.

Lemma fixed_outbounds_find gs g :
  Forall (λ g, GrantValidate g = Ok tt) gs →
  (∀ l1 l2, gs = l1 ++ g :: l2 → ∀ g', g' ∈ l1 ++ l2 → cg_fixed_user g' ≠ cg_fixed_user g) →
  g ∈ gs → cg_fixed_user g ≠ "" → grant_fixed g = true →
  outbound (concat (map fixed_outbounds gs)) (FixedOutbound (cg_id g)) =
  Some (socks_outbound (FixedOutbound (cg_id g)) (pi_address (cg_peer g))).
Proof.
  intros Hv Hd Hg Hne Hf. rewrite Forall_forall in Hv. apply list_elem_of_split in Hg as (l1 & l2 & E).
  specialize (Hd l1 l2 E). subst gs.
  assert (cg_fixed_user g = FixedUser (cg_id g)) as Eg.
  { destruct (grant_valid_base g) as (_ & _ & [?|?]); [apply Hv; set_solver|done|done]. }
  rewrite map_app, concat_app, outbound_app, fixed_outbounds_none; cbn [map concat].
  - rewrite outbound_app. unfold fixed_outbounds at 1. rewrite (proj2 (String.eqb_neq _ _) Hne), Hf. cbn [negb andb].
    by rewrite outbound_socks, String.eqb_refl.
  - intros g' Hg'. destruct (grant_valid_base g') as (_ & _ & [?|E']); [apply Hv; set_solver|by left|right].
    change (FixedUser (cg_id g') ≠ FixedUser (cg_id g)). rewrite <- E', <- Eg. apply Hd. set_solver.
Qed.

Lemma find_some_in {A} (f : A → bool) l x : x ∈ l → f x = true → ∃ y, List.find f l = Some y ∧ y ∈ l ∧ f y = true.
Proof.
  intros Hx Hf. destruct (List.find f l) as [y|] eqn:E.
  - apply List.find_some in E as [? ?]. exists y. by rewrite list_elem_of_In.
  - apply list_elem_of_In in Hx. by rewrite (List.find_none _ _ E _ Hx) in Hf.
Qed.

(** The denials at the head of the rules: for an identity of a grant, and into a
    blackhole. *)
Lemma denials_sound grants blocked rules c i :
  Forall (λ g, plain_user (cg_base_user g) = true ∧ plain_user (cg_fixed_user g) = true ∧ cg_base_user g ≠ "") grants →
  List.find (item_matches c) (map private_deny grants ++ grant_rejects blocked grants rules) = Some i →
  (outbound_of i = grantDenyTag ∨ outbound_of i ∈ blocked) ∧
  ∃ g, g ∈ grants ∧ identity_of g (conn_user c).
Proof.
  intros Hp H. apply List.find_some in H as [Hi Hm]. apply list_elem_of_In in Hi. rewrite Forall_forall in Hp.
  apply elem_of_app in Hi as [(g & -> & Hg)%list_elem_of_fmap|Hi].
  - split; [by left|]. destruct (Hp g Hg) as (Hb & _ & Hne). apply private_deny_matches in Hm; [|done].
    exists g. unfold identity_of. rewrite Hm. auto.
  - apply grant_rejects_sound in Hi as (Hb & rule & g & u & Hg & Hu & ->). split; [by right|].
    destruct (Hp g Hg) as (Hb1 & Hb2 & _).
    apply reject_copy_matches in Hm as [-> _]; [by exists g|]. by destruct Hu as [[-> | ->] _].
Qed.

Record granted (config after : json_object) (grants : list ClientGrant) : Prop := {
  (* a fixed identity reaches the exit of its grant or nothing *)
  granted_fixed : ∀ g c, g ∈ grants → cg_fixed_user g ≠ "" → conn_user c = cg_fixed_user g →
    is_blackhole (outbounds_of after) (route after c) = true ∨
    grant_fixed g = true ∧ conn_inbound c = cg_inbound_tag g ∧ conn_network c = "tcp" ∧
    route after c = FixedOutbound (cg_id g) ∧
    outbound (outbounds_of after) (FixedOutbound (cg_id g)) =
      Some (socks_outbound (FixedOutbound (cg_id g)) (pi_address (cg_peer g)));
  (* and no name it asks for is resolved on the node *)
  granted_unresolved : ∀ g c, g ∈ grants → cg_fixed_user g ≠ "" → conn_user c = cg_fixed_user g → resolves after c = false;
  (* what a rule of the original that names no user by a regular expression rejects as it
     comes stays rejected for the identities of the grant on its inbound *)
  granted_rejects : ∀ g c item, g ∈ grants → item ∈ rules_of config →
    rejects config item = true → plain_users item = true → item_matches c item = true →
    conn_inbound c = cg_inbound_tag g → identity_of g (conn_user c) →
    is_blackhole (outbounds_of after) (route after c) = true;
  (* a base identity keeps its route or is rejected *)
  granted_base : ∀ g c, g ∈ grants → conn_user c = cg_base_user g →
    route after c = route config c ∨ is_blackhole (outbounds_of after) (route after c) = true;
  (* everybody else keeps the route *)
  granted_others : ∀ c, (∀ g, g ∈ grants → ¬ identity_of g (conn_user c)) → route after c = route config c;
  (* and the outbounds of the original stay *)
  granted_outbounds : ∀ t, outbound (outbounds_of config) t ≠ None →
    outbound (outbounds_of after) t = outbound (outbounds_of config) t
}.

(** *** The configuration assembled from checked parts *)
Section Assembled.
Context (config routing : json_object) (outs rules : list json) (blocked : gset string) (grants gs : list ClientGrant).
Context (Houts : outs ≠ []) (Hco : outbounds_of config = outs) (Hcr : rules_of config = rules).
Context (Hrt : get_object config "routing" = Some routing).
Context (Hblocked : ∀ t, t ∈ blocked ↔ is_blackhole outs t = true).
Context (Howned : ∀ t, outbound outs t ≠ None → grant_owned t = false).
Context (Hperm : gs ≡ₚ grants) (Hplain : Forall (λ g, plain_user (cg_base_user g) = true) grants).
Context (Hv : Forall (λ g, GrantValidate g = Ok tt) gs).
Context (Hd : ∀ l1 g l2, gs = l1 ++ g :: l2 → cg_fixed_user g ≠ "" →
  ∀ g', g' ∈ l1 ++ l2 → cg_fixed_user g' ≠ cg_fixed_user g).
Context (Hbase : ∀ g g', g ∈ gs → g' ∈ gs → cg_fixed_user g' ≠ "" → cg_base_user g ≠ cg_fixed_user g').

Let after_outs := (outs ++ concat (map fixed_outbounds gs)) ++ [deny_outbound].
Let denials := map private_deny gs ++ grant_rejects blocked gs rules.
Let after : json_object :=
  <["outbounds" := JArray after_outs]> (set_rules config routing
    ((map private_deny gs ++ grant_rejects blocked gs rules ++ concat (map fixed_rules gs)) ++ rules)).

Lemma assembled_users g : g ∈ gs →
  plain_user (cg_base_user g) = true ∧ plain_user (cg_fixed_user g) = true ∧ cg_base_user g ≠ "".
Proof.
  intros Hg. rewrite Forall_forall in Hv. rewrite Forall_forall in Hplain.
  destruct (grant_valid_base g (Hv g Hg)) as (Hb & _ & Hf). split_and!; [apply Hplain; by rewrite <- Hperm| |done].
  destruct Hf as [-> | ->]; done.
Qed.

Lemma assembled_kept t : outbound outs t ≠ None → outbound after_outs t = outbound outs t.
Proof. intros H. unfold after_outs. rewrite !outbound_app. by destruct (outbound outs t). Qed.

Lemma assembled_owned t : grant_owned t = true → outbound outs t = None.
Proof. intros H. destruct (outbound outs t) eqn:E; [|done]. by rewrite Howned in H by (by rewrite E). Qed.

Lemma assembled_deny t : t = grantDenyTag ∨ t ∈ blocked → is_blackhole after_outs t = true.
Proof.
  intros [-> |Hb%Hblocked].
  - unfold is_blackhole, after_outs. rewrite !outbound_app, assembled_owned, fixed_outbounds_none by (by right || done).
    done.
  - unfold is_blackhole in *. destruct (outbound outs t) eqn:E; [|discriminate].
    rewrite assembled_kept; rewrite E; done.
Qed.

(** A pass over the rules, denials first. *)
Lemma assembled_pass c :
  pass after c =
  match List.find (item_matches c) denials with
  | Some i => Some (outbound_of i)
  | None => match option_map outbound_of (List.find (item_matches c) (concat (map fixed_rules gs))) with
            | Some tag => Some tag
            | None => pass config c
            end
  end.
Proof.
  unfold pass, after, denials. rewrite rules_of_outbounds, rules_of_set, Hcr.
  rewrite !find_app. destruct (List.find _ (map private_deny gs)); [done|].
  destruct (List.find _ (grant_rejects _ _ _)); [done|]. by destruct (List.find _ (concat _)).
Qed.

Lemma assembled_again : matches_again after = matches_again config.
Proof. unfold after. rewrite matches_again_outbounds. by apply matches_again_set. Qed.

Lemma assembled_default : default_tag (outbounds_of after) = default_tag (outbounds_of config).
Proof. unfold after. rewrite outbounds_of_set, Hco. unfold after_outs. by destruct outs. Qed.

Lemma assembled_denial c i :
  List.find (item_matches c) denials = Some i →
  is_blackhole after_outs (outbound_of i) = true ∧ ∃ g, g ∈ gs ∧ identity_of g (conn_user c).
Proof.
  intros H. apply denials_sound in H as [Hb Hg].
  - split; [by apply assembled_deny|done].
  - apply Forall_forall. apply assembled_users.
Qed.

Lemma assembled_fixed g c : g ∈ gs → cg_fixed_user g ≠ "" → conn_user c = cg_fixed_user g →
  ∃ tag, pass after c = Some tag ∧ (is_blackhole after_outs tag = true ∨ tag = fixed_route g c).
Proof.
  intros Hg Hne Hu. rewrite assembled_pass. destruct (List.find _ denials) eqn:E.
  - eexists. split; [done|]. left. by apply assembled_denial in E as [? _].
  - erewrite fixed_rules_find; [by eauto| |intros; eapply Hd; eauto|done|done|done].
    intros g' Hg'. by apply assembled_users.
Qed.

(** A pass for an identity that is not fixed. *)
Lemma assembled_plain c :
  (∀ g, g ∈ gs → cg_fixed_user g = "" ∨ conn_user c ≠ cg_fixed_user g) →
  pass after c = pass config c ∨
  ∃ tag, pass after c = Some tag ∧ is_blackhole after_outs tag = true ∧ ∃ g, g ∈ gs ∧ identity_of g (conn_user c).
Proof.
  intros H. rewrite assembled_pass. destruct (List.find _ denials) eqn:E.
  - right. eexists. split; [done|]. by apply assembled_denial in E.
  - left. rewrite fixed_rules_none; [done|]. intros g Hg. split; [by apply assembled_users|by apply H].
Qed.

Lemma assembled_not_fixed c :
  (∀ g, g ∈ gs → cg_fixed_user g = "" ∨ conn_user c ≠ cg_fixed_user g) →
  route after c = route config c ∨
  is_blackhole after_outs (route after c) = true ∧ ∃ g, g ∈ gs ∧ identity_of g (conn_user c).
Proof.
  intros H. unfold route. rewrite assembled_again, assembled_default.
  destruct (assembled_plain c H) as [->|(tag & -> & Hb)]; [|by right]. destruct (pass config c); [by left|].
  destruct (matches_again config); [|by left].
  destruct (assembled_plain (resolved c)) as [->|(tag & -> & Hb)]; [by rewrite resolved_user|by left|right].
  by rewrite resolved_user in Hb.
Qed.

Lemma assembled_granted : granted config after grants.
Proof.
  assert (outbounds_of after = after_outs) as Eao by apply outbounds_of_set.
  split; rewrite ?Eao, ?Hco, ?Hcr.
  - intros g c Hg Hne Hu. rewrite <- Hperm in Hg. unfold route.
    destruct (assembled_fixed g c Hg Hne Hu) as (tag & -> & [?|E]); [by left|]. unfold fixed_route in E. destruct (grant_fixed g) eqn:Ef; cbn [andb] in E;
      [|left; rewrite E; apply assembled_deny; by left].
    destruct (_ && _) eqn:Ec; [|left; rewrite E; apply assembled_deny; by left]. bool_prop.
    right. split_and!; [done..|]. unfold after_outs. rewrite !outbound_app, assembled_owned by apply fixed_owned.
    erewrite fixed_outbounds_find; [done|done| |done..]. intros. by eapply Hd.
  - intros g c Hg Hne Hu. rewrite <- Hperm in Hg. unfold resolves.
    destruct (assembled_fixed g c Hg Hne Hu) as (tag & -> & _). apply andb_false_r.
  - intros g c item Hg Hin Hr Hpl Hm Hi Hu. rewrite <- Hperm in Hg. unfold rejects in Hr. rewrite Hco in Hr.
    destruct (grant_rejects_complete blocked gs rules item c g) as (i & Hi' & Hmi); try done.
    + apply Forall_forall. intros g' Hg' u [Hu' _]. rewrite Forall_forall in Hv.
      destruct (grant_valid_base g' (Hv g' Hg')) as (_ & Hb & Hf).
      destruct Hu' as [-> | ->]; [done|]. destruct Hf as [-> | ->]; [done|]. apply sha256_hex_text.
    + by apply Hblocked.
    + destruct (assembled_users g Hg) as (? & ? & _). by destruct Hu as [[-> | ->] _].
    + destruct (find_some_in (item_matches c) denials i) as (y & Ey & _);
        [apply elem_of_app; by right|done|].
      unfold route. rewrite assembled_pass, Ey. by apply assembled_denial in Ey as [? _].
  - intros g c Hg Hu. rewrite <- Hperm in Hg. destruct (assembled_not_fixed c) as [?|[? _]]; [|by left|by right].
    intros g' Hg'. destruct (decide (cg_fixed_user g' = "")); [by left|right]. rewrite Hu. by apply Hbase.
  - intros c Hno. destruct (assembled_not_fixed c) as [?|(_ & g & Hg & Hid)]; [|done|].
    + intros g' Hg'. rewrite Hperm in Hg'. destruct (decide (cg_fixed_user g' = "")); [by left|right].
      intros E. apply (Hno g' Hg'). unfold identity_of. rewrite E. auto.
    + rewrite Hperm in Hg. by destruct (Hno g Hg).
  - intros t. apply assembled_kept.
Qed.
End Assembled.

(** The routes of a successful preparation, by identity. *)
Lemma client_config_granted config grants after :
  Forall (λ g, plain_user (cg_base_user g) = true) grants →
  client_config config grants = Ok after → granted config after grants.
Proof.
  intros Hplain. unfold client_config. destruct (get_array config "outbounds") as [outs|] eqn:Eo; [|discriminate].
  assert (outbounds_of config = outs) as Hco by (unfold outbounds_of; by rewrite Eo).
  destruct (decide (outs = [])) as [-> |Hne]; [discriminate|].
  assert (∀ {B} (x y : B), match outs with [] => x | _ :: _ => y end = y) as Hm by (by destruct outs).
  rewrite Hm. clear Hm.
  destruct (get_object config "routing") as [routing|] eqn:Er; [|discriminate].
  destruct (get_array routing "rules") as [rules|] eqn:El; [|discriminate].
  assert (rules_of config = rules) as Hcr by (unfold rules_of; by rewrite Er, El).
  destruct (strategy_ok routing); [|discriminate]. cbn [negb].
  destruct (scan_outbounds _ _ _ _ _) as [[seen blocked]|] eqn:Es; [|discriminate]. cbn [rbind].
  apply scan_outbounds_spec in Es as (_ & S2 & S3); [|done].
  destruct (match api_tag config with Some _ => _ | None => _ end) as [known|]; [|discriminate]. cbn [rbind].
  pose proof (slice_sort_perm (λ a b, cg_id a <?s cg_id b) grants) as Hperm.
  set (gs := slice_sort _ grants) in *.
  destruct (check_grants gs ∅ ∅ ∅) as [fixed|] eqn:Ec; [|discriminate]. cbn [rbind].
  apply check_grants_spec in Ec as (Hv & Hf & _ & Hd).
  destruct (existsb _ gs) eqn:Ex; [discriminate|].
  destruct (check_rules known rules) as [[]|]; [|discriminate]. cbn [rbind]. intros [= <-].
  apply assembled_granted with (blocked := blocked); try done.
  - intros t. rewrite S2. set_solver.
  - intros t. apply S3.
  - intros g g' Hg Hg' Hn E. apply not_true_iff_false in Ex. apply Ex, existsb_exists. exists g.
    rewrite <- list_elem_of_In, bool_decide_eq_true, Hf. split; [done|]. right. by exists g'; rewrite <- E in *.
Qed.
End Spec.

(** C33 -- The routes prepared for client grants confine every identity: a connection
    of the fixed identity of a grant leaves through the SOCKS exit of that grant (only
    when the grant is enabled, over TCP and on its inbound) or is rejected, and its name is
    never resolved on the node; what a rejecting rule of the base settings that names its
    users literally rejects before a domain is resolved stays rejected for both identities
    of a grant on the inbound of the grant; a connection of a base identity keeps its route
    or is newly rejected (the address of the exit is denied to it); a connection of an identity
    of no grant keeps its route.  The base is the settings read, or those of the forced
    landing when there is one; the settings may have any strategy that is accepted. *)
Theorem client_grants_confine {X : Xray} {RC : RouteCodec} {LH : LandingHash} {Srt : SliceSorter}
    raw revision forced grants change :
  (∀ s, contains_any (grantTag s) [ascii_of_nat 0] = false) →
  Forall (λ g, plain_user (cg_base_user g) = true) grants →
  PrepareClientRoutes raw revision forced grants = Ok change →
  ∃ before base after text, decodeRouteSettings raw = Ok (before, rc_before change) ∧
    match forced with
    | Some plan => ∃ forced_change,
        PrepareRouteChange (rc_before change) revision (px_inbound_tags plan) (px_peer plan) = Ok forced_change ∧
        decodeRouteSettings (rc_after forced_change) = Ok (base, text)
    | None => decodeRouteSettings (rc_before change) = Ok (base, text)
    end ∧
    rc_after change = json_Marshal after ∧ rc_revision change = revision ∧
    granted base after grants.
Proof.
  intros Hhex Hplain. unfold PrepareClientRoutes. destruct (_ || _); [discriminate|].
  destruct (decodeRouteSettings raw) as [[before text0]|]; [|discriminate]. cbn [rbind fst snd].
  destruct forced as [plan|]; cbn [rbind].
  - destruct (PrepareRouteChange _ _ _ _) as [fc|] eqn:Ef; [|discriminate]. cbn [rbind].
    destruct (decodeRouteSettings (rc_after fc)) as [[base text]|] eqn:Eb; [|discriminate]. cbn [rbind fst].
    destruct (client_config base grants) as [after|] eqn:Ec; [|discriminate]. intros [= <-].
    exists before, base, after, text. split_and!; try done; [by exists fc|by apply client_config_granted].
  - destruct (decodeRouteSettings text0) as [[base text]|] eqn:Eb; [|discriminate]. cbn [rbind fst].
    destruct (client_config base grants) as [after|] eqn:Ec; [|discriminate]. intros [= <-].
    exists before, base, after, text. split_and!; try done. by apply client_config_granted.
Qed.

#[local] Existing Instances sample_xray sample_codec merge_sorter.
#[local] Instance sample_hash : LandingHash :=
  {| sha256_hex _ := "0123456789abcdef0123456789abcdef0123456789abcdef0123456789abcdef" |}.

Definition sample_grant : ClientGrant :=
  mk_grant "g1" (sha256_hex "") "in" "user" (sha256_hex "") (FixedUser "g1") (sha256_hex "")
    sample_exit_peer FixedMode true false.

Lemma client_grants_confine_witness :
  ∃ base after : json_object,
    (∀ c, conn_user c = FixedUser "g1" →
       is_blackhole (outbounds_of after) (route after c) = true ∨ route after c = FixedOutbound "g1") ∧
    route after (to_ip "in" "someone" "tcp" "1.1.1.1") = route base (to_ip "in" "someone" "tcp" "1.1.1.1").
Proof.
  destruct (client_grants_confine "settings" 3 None [sample_grant] (mk_change 3 "settings" "settings" ""))
    as (before & base & after & text & _ & _ & _ & _ & G).
  - intros s. reflexivity.
  - repeat constructor.
  - vm_compute. reflexivity.
  - exists base, after. split.
    + intros c Hc. destruct (granted_fixed _ _ _ G sample_grant c) as [?|(_ & _ & _ & ? & _)]; [left|done|done|by left|by right].
    + apply (granted_others _ _ _ G). intros g ->%list_elem_of_singleton [[Hx|Hx] _]; discriminate.
Defined.
