(* ===== verification/RouteJournal.v ===== *)
(** * The journal of a route change

    [NextWrite] and [ReplaceRoutes] as a write protocol: a change is applied and
    restored over the settings it recorded and over nothing else, repeating a write
    does nothing, and a replacement keeps the original settings. *)
From S2P Require Import Prelude GoText GoNet Orders Landing Json Routes RoutesSpec.

Section Journal.
Context {RC : RouteCodec} {LH : LandingHash} {Srt : SliceSorter}.

(** What [NextWrite] wants and the other end of the change. *)
Definition wanted (change : RouteChange) (enable : bool) : string :=
  if enable then rc_after change else rc_before change.

Lemma NextWrite_ok change current enable want write :
  NextWrite change current enable = Ok (want, write) →
  rc_revision change ≠ 0 ∧ want = wanted change enable ∧
  ∃ hw ho hc, RouteSettingsHash (wanted change enable) = Ok hw ∧
    RouteSettingsHash (wanted change (negb enable)) = Ok ho ∧ RouteSettingsHash current = Ok hc ∧
    hw ≠ ho ∧ write = negb (hc =?s hw) ∧
    (hc = hw ∨ hc = ho ∨ rc_replaces change ≠ "" ∧ RouteSettingsHash (rc_replaces change) = Ok hc).
Proof.
  unfold NextWrite. destruct (Z.eqb_spec (rc_revision change) 0) as [|Hr]; [discriminate|].
  destruct (RouteSettingsHash (rc_before change)) as [hb|] eqn:Eb; [|discriminate]. cbn [rbind].
  destruct (RouteSettingsHash (rc_after change)) as [ha|] eqn:Ea; [|discriminate].
  destruct (String.eqb_spec hb ha) as [|Hne]; [discriminate|].
  destruct (RouteSettingsHash current) as [hc|] eqn:Ec; [|discriminate]. cbn [rbind].
  intros H. split; [done|].
  assert (∀ w hw ho, RouteSettingsHash w = Ok hw → hw ≠ ho →
    (if hc =?s hw then Ok (w, false)
     else if negb (hc =?s ho) then
       if negb (rc_replaces change =?s "")
          && match RouteSettingsHash (rc_replaces change) with Ok r => hc =?s r | Err _ => false end
       then Ok (w, true) else Err "landing: local routing changed outside the pending operation"
     else Ok (w, true)) = Ok (want, write) →
    want = w ∧ write = negb (hc =?s hw) ∧
    (hc = hw ∨ hc = ho ∨ rc_replaces change ≠ "" ∧ RouteSettingsHash (rc_replaces change) = Ok hc)) as Hcase.
  { intros w hw ho Hw Hd. destruct (String.eqb_spec hc hw) as [|Hcw]; [intros [= <- <-]; auto|].
    destruct (String.eqb_spec hc ho) as [|Hco]; cbn [negb]; [intros [= <- <-]; auto|].
    destruct (_ && _) eqn:Er; [|discriminate]. intros [= <- <-]. bool_prop.
    destruct (RouteSettingsHash (rc_replaces change)); [|discriminate]. bool_prop. subst. auto 6. }
  destruct enable; cbn [wanted negb].
  - destruct (Hcase _ _ _ Ea (not_eq_sym Hne) H) as (-> & -> & ?). split; [done|].
    exists ha, hb, hc. auto 8.
  - destruct (Hcase _ _ _ Eb Hne H) as (-> & -> & ?). split; [done|]. exists hb, ha, hc. auto 8.
Qed.

Lemma NextWrite_at change current enable hw ho :
  rc_revision change ≠ 0 → RouteSettingsHash (wanted change enable) = Ok hw →
  RouteSettingsHash (wanted change (negb enable)) = Ok ho → hw ≠ ho →
  RouteSettingsHash current = Ok hw ∨ RouteSettingsHash current = Ok ho →
  NextWrite change current enable =
  Ok (wanted change enable, negb (bool_decide (RouteSettingsHash current = Ok hw))).
Proof.
  intros Hr Hw Ho Hne Hc. unfold NextWrite. rewrite (proj2 (Z.eqb_neq _ _) Hr).
  destruct enable; cbn [wanted negb] in *; rewrite Hw, Ho; cbn [rbind];
    [rewrite (proj2 (String.eqb_neq ho hw)) by done|rewrite (proj2 (String.eqb_neq hw ho)) by done];
    destruct Hc as [-> | ->]; cbn [rbind]; rewrite ?String.eqb_refl.
  all: try (by rewrite bool_decide_true).
  all: rewrite (proj2 (String.eqb_neq ho hw)) by done; cbn [negb]; rewrite bool_decide_false by congruence; done.
Qed.

(** ** Canonical settings *)
Lemma pick_api_first tag rules : api_first tag (api_first tag rules) = api_first tag rules.
Proof.
  unfold api_first. destruct (pick_api tag rules) as [[api others]|] eqn:E; [|by rewrite E].
  assert (is_api_rule tag api = true) as Ha.
  { revert others E. induction rules as [|i rules IH]; [discriminate|]. intros others. cbn [pick_api].
    destruct (is_api_rule tag i) eqn:Ei; [by intros [= <- <-]|].
    destruct (pick_api tag rules) as [[a o]|]; [|discriminate]. intros [= <- <-]. by eapply IH. }
  cbn [pick_api]. by rewrite Ha.
Qed.

Lemma canonical_config_idem config : canonical_config (canonical_config config) = canonical_config config.
Proof.
  unfold canonical_config at 2 3. destruct (get_object config "api") as [api|] eqn:Ea; [|unfold canonical_config; by rewrite Ea].
  destruct (get_object config "routing") as [routing|] eqn:Er; [|unfold canonical_config; by rewrite Ea, Er].
  destruct (_ =?s "") eqn:Et; [unfold canonical_config; by rewrite Ea, Er, Et|].
  destruct (get_array routing "rules") as [rules|] eqn:El; [|unfold canonical_config; by rewrite Ea, Er, Et, El].
  unfold canonical_config.
  assert (get_object (set_rules config routing (api_first (string_or_empty api "tag") rules)) "api" = Some api) as ->.
  { unfold set_rules, get_object. by rewrite lookup_insert_ne. }
  unfold set_rules at 1, get_object at 1. rewrite lookup_insert_eq. cbn [mbind option_bind as_object]. rewrite Et.
  unfold get_array. rewrite lookup_insert_eq. cbn [mbind option_bind as_array]. rewrite pick_api_first.
  unfold set_rules. by rewrite !insert_insert_eq.
Qed.

(** The canonical text of settings has the hash of the settings. *)
Lemma canonical_hash raw config text :
  decodeRouteSettings raw = Ok (config, text) → json_Decode text = Some config → 0 < str_len text <= 4194304 →
  RouteSettingsHash text = RouteSettingsHash raw.
Proof.
  intros Hd Hrt Hlen. unfold RouteSettingsHash. rewrite Hd. cbn [rbind snd].
  unfold decodeRouteSettings in Hd. destruct (_ || _); [discriminate|].
  destruct (json_Decode raw) as [c|]; [|discriminate]. injection Hd as <- <-.
  unfold decodeRouteSettings. rewrite (proj2 (Z.eqb_neq _ _)), (proj2 (Z.ltb_ge _ _)) by lia. cbn [orb].
  by rewrite Hrt, canonical_config_idem.
Qed.

Lemma PrepareRoutes_before s raw change :
  PrepareRoutes s raw = Ok change →
  rc_revision change = ld_revision s ∧ ∃ config, decodeRouteSettings raw = Ok (config, rc_before change).
Proof.
  assert (∀ revision tags peer ch, PrepareRouteChange raw revision tags peer = Ok ch →
    rc_revision ch = revision ∧ ∃ config, decodeRouteSettings raw = Ok (config, rc_before ch)) as Hforced.
  { intros revision tags peer ch. unfold PrepareRouteChange. destruct (_ || _); [discriminate|].
    destruct (select_tags _ _); [|discriminate]. cbn [rbind].
    destruct (decodeRouteSettings raw) as [[c t]|]; [|discriminate]. cbn [rbind fst snd].
    destruct (forced_config _ _ _ _); [|discriminate]. intros [= <-]. eauto. }
  unfold PrepareRoutes. destruct (ld_clients s) as [clients|].
  - destruct (PrepareClientRoutes _ _ _ _) as [ch|] eqn:E; [|discriminate]. cbn [rbind].
    destruct (json_Unmarshal _); [|discriminate]. destruct (block_users _ _); [|discriminate]. cbn [rbind].
    intros [= <-]. cbn. unfold PrepareClientRoutes in E. destruct (_ || _); [discriminate|].
    destruct (decodeRouteSettings raw) as [[c t]|]; [|discriminate]. cbn [rbind fst snd] in E.
    destruct (match ld_proxy s with Some _ => _ | None => _ end); [|discriminate]. cbn [rbind] in E.
    destruct (decodeRouteSettings _); [|discriminate]. cbn [rbind] in E.
    destruct (client_config _ _); [|discriminate]. injection E as <-. eauto.
  - destruct (ld_proxy s); [apply Hforced|discriminate].
Qed.
End Journal.

(** A route change is written over the settings it knows and over nothing else:
    [NextWrite] wants the settings of the change for the direction asked; it writes
    exactly when the current settings differ, and then they are those at the other end
    of the change or those it replaces, never an edit from elsewhere; over what it
    wrote it writes no more (a retry is harmless), and in the other direction it writes
    back the other end. *)
Theorem route_writes_are_repeatable_and_reversible {RC : RouteCodec} {LH : LandingHash}
    change current enable want write :
  NextWrite change current enable = Ok (want, write) →
  want = wanted change enable ∧
  write = negb (bool_decide (RouteSettingsHash current = RouteSettingsHash want)) ∧
  (write = true →
     RouteSettingsHash current = RouteSettingsHash (wanted change (negb enable)) ∨
     rc_replaces change ≠ "" ∧ RouteSettingsHash current = RouteSettingsHash (rc_replaces change)) ∧
  NextWrite change want enable = Ok (want, false) ∧
  NextWrite change want (negb enable) = Ok (wanted change (negb enable), true).
Proof.
  intros (Hr & -> & hw & ho & hc & Ew & Eo & Ec & Hne & -> & Hc)%NextWrite_ok. split_and!; [done|..].
  - rewrite Ew, Ec. f_equal. destruct (String.eqb_spec hc hw) as [-> |?]; [by rewrite bool_decide_true|].
    by rewrite bool_decide_false by congruence.
  - rewrite negb_true_iff, String.eqb_neq. intros Hw. rewrite Ec, Eo.
    destruct Hc as [?|[-> |[? E]]]; [done|by left|right]. by rewrite E.
  - rewrite (NextWrite_at _ _ _ hw ho) by auto. by rewrite bool_decide_true.
  - rewrite (NextWrite_at _ _ _ ho hw); [|done|done|by rewrite negb_involutive|done|auto].
    by rewrite Ew, bool_decide_false by congruence.
Qed.

(** Replacing an applied landing keeps the way back: the new change has a later
    revision, replaces exactly the settings that are applied now, and restores the
    settings the previous change would have restored (given that the canonical text of
    settings reads back as the settings). *)
Theorem route_replacement_keeps_the_original {RC : RouteCodec} {LH : LandingHash} {Srt : SliceSorter}
    s previous current next :
  (∀ config text, decodeRouteSettings (rc_before previous) = Ok (config, text) → json_Decode text = Some config) →
  ReplaceRoutes s previous current = Ok next → 0 < str_len (rc_before next) <= 4194304 →
  rc_revision previous < rc_revision next ∧ rc_replaces next = rc_after previous ∧
  RouteSettingsHash current = RouteSettingsHash (rc_replaces next) ∧
  RouteSettingsHash (rc_before next) = RouteSettingsHash (rc_before previous).
Proof.
  intros Hrt. unfold ReplaceRoutes. destruct (Z.leb_spec (ld_revision s) (rc_revision previous)); [discriminate|].
  destruct (NextWrite previous current true) as [[w [|]]|] eqn:En; try discriminate.
  destruct (PrepareRoutes s (rc_before previous)) as [ch|] eqn:Ep; [|discriminate]. cbn [rbind].
  intros [= <-] Hlen. cbn in *. apply PrepareRoutes_before in Ep as (-> & config & Hd).
  apply NextWrite_ok in En as (_ & _ & hw & ho & hc & Ew & _ & Ec & _ & Hw & _).
  symmetry in Hw. apply negb_false_iff, String.eqb_eq in Hw. subst hc.
  split_and!; [done..|by rewrite Ec|]. apply (canonical_hash _ config); auto.
Qed.

#[local] Existing Instances sample_codec merge_sorter.
#[local] Instance plain_hash : LandingHash := {| sha256_hex s := s |}.

Definition sample_change : RouteChange := mk_change 2 "before" "after" "".

Lemma route_writes_are_repeatable_and_reversible_witness :
  NextWrite sample_change "before" true = Ok ("after", true) ∧
  NextWrite sample_change "after" true = Ok ("after", false) ∧
  NextWrite sample_change "after" false = Ok ("before", true).
Proof.
  assert (NextWrite sample_change "before" true = Ok ("after", true)) as H by (vm_compute; reflexivity).
  split; [exact H|].
  exact (proj2 (proj2 (proj2 (route_writes_are_repeatable_and_reversible _ _ _ _ _ H)))).
Defined.

Lemma route_replacement_keeps_the_original_witness :
  ∃ next, RouteSettingsHash (rc_before next) = RouteSettingsHash (rc_before sample_change) ∧
    rc_replaces next = "after".
Proof.
  destruct (route_replacement_keeps_the_original
    (mk_landing "node" 3 None (Some (mk_proxy "app" ["in"] sample_exit_peer)) None)
    sample_change "after" (mk_change 3 "before" "before" "after")) as (_ & E & _ & H).
  - intros config text H. assert (decodeRouteSettings "before" =
      Ok (named_config "before" [sample_block], "before")) as E by (vm_compute; reflexivity).
    cbn [sample_change rc_before] in H. rewrite E in H.
    apply (f_equal (λ r, match r with Ok d => Some d | Err _ => None end)), (inj Some) in H.
    by apply (inj2 pair) in H as [<- <-].
  - vm_compute. reflexivity.
  - vm_compute. split; [reflexivity|discriminate].
  - by exists (mk_change 3 "before" "before" "after").
Defined.
