(* ===== verification/Ingress.v ===== *)
(** * What gateways, listeners and tunnels are told to serve

    internal/center: system_gateway.go ([appendSystemGatewayRoutes]), orchestration.go
    ([desiredGatewayState]), tunnel.go ([tunnelIngressForNode]), publication_routes.go
    ([canonicalGatewayServiceEndpoint], [validateNodeDirectPublicIngress]) and
    node_listeners.go (validation and construction of a node listener).  The joined
    rows the queries read are arguments; their conditions and [CASE] columns are
    definitions.  net/url and the port of the Glivela backend are parameters. *)
From Stdlib Require Import Ascii.
From S2P Require Import Prelude GoText GoNet Networking Gateway.

Definition colon : ascii := ascii_of_nat 58.

(** ** Host and port (net) *)
Fixpoint index_char (c : ascii) (s : string) : option nat :=
  match s with
  | EmptyString => None
  | String x s' => if Ascii.eqb x c then Some O else option_map S (index_char c s')
  end.

Fixpoint last_index (c : ascii) (s : string) : option nat :=
  match s with
  | EmptyString => None
  | String x s' =>
      match last_index c s' with
      | Some i => Some (S i)
      | None => if Ascii.eqb x c then Some O else None
      end
  end.

Definition str_drop (n : nat) (s : string) : string := String.substring n (String.length s) s.
Definition str_take (n : nat) (s : string) : string := String.substring 0 n s.
Definition has_char (c : ascii) (s : string) : bool := is_Some_b (index_char c s).

Definition SplitHostPort (hostport : string) : option (string * string) :=
  let lb := ascii_of_nat 91 in
  let rb := ascii_of_nat 93 in
  match last_index colon hostport with
  | None => None
  | Some i =>
      let port := str_drop (S i) hostport in
      match hostport with
      | String c _ =>
          if Ascii.eqb c lb then
            match index_char rb hostport with
            | None => None
            | Some e =>
                if negb (Nat.eqb (S e) i) then None
                else if has_char lb (str_drop 1 hostport) || has_char rb (str_drop (S e) hostport) then None
                else Some (str_drop 1 (str_take e hostport), port)
            end
          else
            let host := str_take i hostport in
            if has_char colon host || has_char lb hostport || has_char rb hostport then None
            else Some (host, port)
      | EmptyString => None
      end
  end.

Definition JoinHostPort (host port : string) : string :=
  if has_char colon host then "[" +:+ host +:+ "]:" +:+ port else host +:+ ":" +:+ port.

(** The value of [strconv.Atoi] when its error is ignored: zero for a text that is no
    number, the nearest [int] for a number out of range. *)
Definition atoi_value (s : string) : Z :=
  match parse_int64 s with
  | Some z => z
  | None =>
      match s with
      | EmptyString => 0
      | String c s' =>
          let '(neg, body) :=
            if Ascii.eqb c minus_char then (true, s')
            else if Ascii.eqb c plus_char then (false, s') else (false, s) in
          match parse_unsigned body with
          | Some _ => if neg then - int64_max - 1 else int64_max
          | None => 0
          end
      end
  end.

(** ** Names *)
Definition CenterAlias : string := "vastora-center".
Definition HeadscaleAlias : string := "vastora-center-headscale".
Definition CaddyAlias : string := "vastora-gateway-caddy".
Definition ThreeXUIAlias : string := "vastora-3x-ui".
Definition LegacyXrayAlias : string := "vastora-xray".
Definition MeridianAlias : string := "meridian-xray".
Definition threeXUIAppKey : string := "vastora-official/3x-ui".
Definition meridianAppKey : string := "vastora-official/meridian".
Definition cpaAppKey : string := "vastora-official/cpa".
Definition cpaClientAPIServiceName : string := "client-api".
Definition cpaClientAPITunnelPath : string := "^/v1(/.*)?$".
Definition meridianSubscriptionServiceName : string := "subscription".
Definition threeXUIRoleWorker : string := "worker".
Definition centerThreeXUIRealityPort : Z := 443.

Definition isCPAClientAPIService (appKey serviceName : string) : bool :=
  (appKey =?s cpaAppKey) && (serviceName =?s cpaClientAPIServiceName).

Definition canonicalGatewayServiceEndpoint
    (appKey runtime role applicationNodeID gatewayID serviceName : string) (containerPort : Z)
    (endpoint : string) : string :=
  if (serviceName =?s meridianSubscriptionServiceName) && (endpoint =?s JoinHostPort CenterAlias "8080")
  then endpoint
  else if appKey =?s meridianAppKey then endpoint
  else if (appKey =?s threeXUIAppKey) && (runtime =?s "docker") && (containerPort =? 2096)
          && match SplitHostPort endpoint with Some (_, port) => port =?s "2097" | None => false end
  then endpoint
  else if (appKey =?s threeXUIAppKey) && (runtime =?s "docker") && (applicationNodeID =?s gatewayID)
          && (0 <? containerPort) && (containerPort <=? 65535)
  then JoinHostPort (if role =?s threeXUIRoleWorker then LegacyXrayAlias else ThreeXUIAlias)
         (decimal containerPort)
  else endpoint.

(** ** The routes of the control plane *)

(** net/url: the scheme and the host name of an URL. *)
Class UrlReader := { url_Parse : string → option (string * string) }.

Record SystemReads := mk_system_reads {
  sy_headscale : option string;                   (* the bundled Headscale endpoint, when configured *)
  sy_binding : option string;                     (* the bind address of the setup gateway *)
  sy_candidates : list Candidate;                 (* of the gateway, by kind and address *)
  sy_center : option string;                      (* the control-plane endpoint *)
  sy_center_aliases : list string;
  sy_headscale_aliases : list string
}.

Section System.
Context {U : UrlReader}.

Definition gatewayEndpointHostname (endpoint : string) : res string :=
  match url_Parse (trim_space endpoint) with
  | Some (scheme, hostname) =>
      if negb (scheme =?s "https") || (hostname =?s "") then Err "HTTPS hostname is required"
      else Ok (to_lower hostname)
  | None => Err "HTTPS hostname is required"
  end.

(** [fmt.Errorf("...: %w", err)]. *)
Definition wrapped {A} (prefix : string) (r : res A) : res A :=
  match r with Ok a => Ok a | Err e => Err (prefix +:+ e) end.

Definition system_route (id hostname path alias : string) (port : Z) (kind : string) : Route :=
  mk_route id hostname path "http" [mk_upstream alias port] true kind true.

Definition binaryPath : string := "/api/v1/agent-binaries/*".
Definition callbackPath : string := "/api/v1/agent-decommission-results/*".

Definition system_routes (centerHostname headscaleHostname : string) : list Route :=
  [system_route "system-center" centerHostname "" CenterAlias 8080 "headscale";
   system_route "system-headscale" headscaleHostname "" HeadscaleAlias 8081 "public";
   system_route "system-docker-bootstrap" headscaleHostname "/install/docker.sh" CenterAlias 8080 "public";
   system_route "system-agent-bootstrap" headscaleHostname "/install/agent.sh" CenterAlias 8080 "public";
   system_route "system-agent-binary-bootstrap" headscaleHostname binaryPath CenterAlias 8080 "public";
   system_route "system-agent-decommission-callback" headscaleHostname callbackPath CenterAlias 8080 "public";
   system_route "system-center-local" centerHostname "" CenterAlias 8080 "system";
   system_route "system-headscale-local" headscaleHostname "" HeadscaleAlias 8081 "system"].

(** [strings.ReplaceAll(hostname, ".", "-")]. *)
Fixpoint dashed (s : string) : string :=
  match s with
  | EmptyString => EmptyString
  | String c s' => String (if Ascii.eqb c (ascii_of_nat 46) then ascii_of_nat 45 else c) (dashed s')
  end.

Definition center_alias_routes (hostname : string) : list Route :=
  let key := dashed hostname in
  [system_route ("system-center-alias-" +:+ key) hostname "" CenterAlias 8080 "headscale";
   system_route ("system-center-alias-local-" +:+ key) hostname "" CenterAlias 8080 "system"].

Definition headscale_alias_routes (hostname : string) : list Route :=
  let key := dashed hostname in
  [system_route ("system-headscale-alias-" +:+ key) hostname "" HeadscaleAlias 8081 "public";
   system_route ("system-docker-bootstrap-alias-" +:+ key) hostname "/install/docker.sh" CenterAlias 8080 "public";
   system_route ("system-agent-bootstrap-alias-" +:+ key) hostname "/install/agent.sh" CenterAlias 8080 "public";
   system_route ("system-agent-binary-bootstrap-alias-" +:+ key) hostname binaryPath CenterAlias 8080 "public";
   system_route ("system-agent-decommission-callback-alias-" +:+ key) hostname callbackPath CenterAlias 8080 "public";
   system_route ("system-headscale-alias-local-" +:+ key) hostname "" HeadscaleAlias 8081 "system"].

Fixpoint alias_routes (message : string) (own : string) (routes : string → list Route) (aliases : list string)
    : res (list Route) :=
  match aliases with
  | [] => Ok []
  | alias :: aliases' =>
      let! hostname := wrapped message (gatewayEndpointHostname alias) in
      let! rest := alias_routes message own routes aliases' in
      Ok (if hostname =?s own then rest else routes hostname ++ rest)
  end.

Definition https_listener (kind address : string) : Listener := mk_listener kind address 80 443.

(** [appendSystemGatewayRoutes]: the routes and the listeners by kind. *)
Definition appendSystemGatewayRoutes (rd : SystemReads) : res (list Route * gmap string Listener) :=
  match sy_headscale rd, sy_binding rd with
  | Some headscaleEndpoint, Some bind =>
      let reported := existsb (λ c, (ca_address c =?s bind)
                                    && ((ca_kind c =?s KindLAN) || (ca_kind c =?s KindPublic))) (sy_candidates rd) in
      if negb reported then Ok ([], ∅) else
      match List.find (λ c, (ca_kind c =?s KindHeadscale) && negb (ca_address c =?s "")) (sy_candidates rd) with
      | None => Err "center: the co-located Gateway does not report a Headscale address for private Center access"
      | Some c =>
          match sy_center rd with
          | None => Err "center: read control-plane endpoint"
          | Some centerEndpoint =>
              let! centerHostname := wrapped "center: control-plane endpoint: " (gatewayEndpointHostname centerEndpoint) in
              let! headscaleHostname := wrapped "center: bundled Headscale endpoint: " (gatewayEndpointHostname headscaleEndpoint) in
              let! ca := alias_routes "center: stored Center endpoint alias: " centerHostname
                           center_alias_routes (sy_center_aliases rd) in
              let! ha := alias_routes "center: stored Headscale endpoint alias: " headscaleHostname
                           headscale_alias_routes (sy_headscale_aliases rd) in
              Ok (system_routes centerHostname headscaleHostname ++ ca ++ ha,
                  <["system" := https_listener "system" "127.0.0.1"]>
                    (<["headscale" := https_listener "headscale" (ca_address c)]>
                      (<["public" := https_listener "public" bind]> ∅)))
          end
      end
  | _, _ => Ok ([], ∅)
  end.
End System.

(** ** The desired state of a gateway *)

(** A row of the query: a route with its publication, service and network profile. *)
Record gateway_route_row := mk_gateway_route_row {
  gr_id : string; gr_hostname : string; gr_protocol : string; gr_upstreams : option (list string);
  gr_tls : bool; gr_kind : string; gr_service_status : string; gr_publication_status : string;
  gr_lan : string; gr_headscale : string; gr_public_bind : string
}.

Definition publicationHeadscale : string := "headscale_gateway".
Definition publicationPublic : string := "public_direct".
Definition publicationCloudflare : string := "cloudflare_tunnel".

Fixpoint route_upstreams (l : list string) : res (list Upstream) :=
  match l with
  | [] => Ok []
  | value :: l' =>
      match SplitHostPort value with
      | None => Err "center: invalid stored route endpoint"
      | Some (host, port) =>
          let! rest := route_upstreams l' in Ok (mk_upstream host (atoi_value port) :: rest)
      end
  end.

(** The listener a publication is served by, its address, and whether it ends TLS. *)
Definition route_listener (r : gateway_route_row) : string * string * bool :=
  if gr_kind r =?s publicationCloudflare then ("system", "127.0.0.1", false)
  else if gr_kind r =?s publicationPublic then ("public", gr_public_bind r, gr_tls r)
  else if gr_kind r =?s publicationHeadscale then ("headscale", gr_headscale r, gr_tls r)
  else ("lan", gr_lan r, gr_tls r).

Fixpoint gateway_routes (l : list gateway_route_row) (listeners : gmap string Listener)
    : res (list Route * gmap string Listener) :=
  match l with
  | [] => Ok ([], listeners)
  | r :: l' =>
      let '(kind, address, tls) := route_listener r in
      match gr_upstreams r with
      | None => Err "center: invalid stored route upstreams"
      | Some values =>
          let! upstreams := route_upstreams values in
          let! rest := gateway_routes l' (<[kind := https_listener kind address]> listeners) in
          Ok (mk_route (gr_id r) (gr_hostname r) "" (gr_protocol r) upstreams tls kind false :: fst rest,
              snd rest)
      end
  end.

Definition gateway_route_selected (r : gateway_route_row) : bool :=
  negb (gr_service_status r =?s "stopped") && negb (gr_publication_status r =?s "stopped").

Section Gateway.
Context {U : UrlReader} {Srt : SliceSorter}.

Definition desiredGatewayState (system : SystemReads) (rows : list gateway_route_row) (revision : Z)
    : res DesiredState :=
  let! sys := appendSystemGatewayRoutes system in
  let selected := slice_sort (λ a b, gr_id a <?s gr_id b) (List.filter gateway_route_selected rows) in
  let! own := gateway_routes selected (snd sys) in
  let state := mk_state revision (map snd (map_to_list (snd own))) (fst sys ++ fst own) None in
  Validate state ;;! Ok (Sorted state).
End Gateway.

(** ** The ingress of a tunnel *)
Record TunnelTaskIngress := mk_ingress { ig_hostname : string; ig_service : string; ig_path : string }.

Record tunnel_row := mk_tunnel_row {
  tu_hostname : string; tu_protocol : string; tu_endpoint : string; tu_app_key : string;
  tu_runtime : string; tu_role : string; tu_node_id : string; tu_service_name : string;
  tu_container_port : Z; tu_owner : string; tu_kind : string; tu_entry : string;
  tu_publication_status : string; tu_service_status : string
}.

Definition tunnel_selected (agentID : string) (r : tunnel_row) : bool :=
  (tu_entry r =?s agentID) && (tu_owner r =?s "tunnel_connector") && (tu_kind r =?s publicationCloudflare)
  && negb (tu_publication_status r =?s "stopped") && negb (tu_service_status r =?s "stopped").

Fixpoint tunnel_ingress (agentID : string) (l : list tunnel_row) : res (list TunnelTaskIngress) :=
  match l with
  | [] => Ok []
  | r :: l' =>
      if negb (str_in (tu_protocol r) ["http"; "https"])
      then Err "center: Tunnel connector received a non-Web service" else
      let endpoint := canonicalGatewayServiceEndpoint (tu_app_key r) (tu_runtime r) (tu_role r)
                        (tu_node_id r) agentID (tu_service_name r) (tu_container_port r) (tu_endpoint r) in
      match SplitHostPort endpoint with
      | None => Err "center: Tunnel connector service endpoint is invalid"
      | Some _ =>
          let! rest := tunnel_ingress agentID l' in
          Ok (mk_ingress (tu_hostname r) (tu_protocol r +:+ "://" +:+ endpoint)
                (if isCPAClientAPIService (tu_app_key r) (tu_service_name r)
                 then cpaClientAPITunnelPath else "") :: rest)
      end
  end.

Definition tunnelIngressForNode {Srt : SliceSorter} (agentID : string) (rows : list tunnel_row)
    : res (list TunnelTaskIngress) :=
  tunnel_ingress agentID
    (slice_sort (λ a b, tu_hostname a <?s tu_hostname b) (List.filter (tunnel_selected agentID) rows)).

(** ** Node listeners *)

(** github.com/petauron/glivela: the port of its REALITY backend. *)
Class GlivelaPort := { RealityBackendPort : Z }.

(** The result of a construction: a prerequisite the operator can provide is told apart
    from an error ([nodeListenerPrerequisiteError]). *)
Inductive built (A : Type) := Built (a : A) | Prerequisite (cause : string) | Broken (message : string).
Arguments Built {A} _.
Arguments Prerequisite {A} _.
Arguments Broken {A} _.

Definition bbind {A B} (m : built A) (k : A → built B) : built B :=
  match m with Built a => k a | Prerequisite c => Prerequisite c | Broken e => Broken e end.
Notation "'let?' x ':=' m 'in' k" := (bbind m (fun x => k))
  (at level 10, x pattern, m at level 100, k at level 200) : go_scope.

Definition of_res {A} (r : res A) : built A := match r with Ok a => Built a | Err e => Broken e end.
Definition to_res {A} (b : built A) : res A :=
  match b with Built a => Ok a | Prerequisite c => Err c | Broken e => Err e end.

Definition loopback_text (host : string) : bool :=
  match ParseIP host with Some ip => IsLoopback ip | None => false end.

Record meridian_columns := mk_meridian_columns {
  me_status : string; me_runtime_healthy : bool; me_desired : Z; me_applied : Z; me_vless_enabled : bool
}.
Record cutover_columns := mk_cutover_columns {
  cu_state : string; cu_authority : string; cu_legacy_controller : string
}.

(** A row of the query: a publication with its service and application, and the rows
    joined when they exist. *)
Record listener_row := mk_listener_row {
  lr_id : string; lr_sni : string; lr_endpoint : string; lr_application_id : string; lr_node_id : string;
  lr_runtime : string; lr_role : string; lr_app_key : string; lr_generation : Z; lr_container_port : Z;
  lr_action_required : bool; lr_cleanup_pending : bool; lr_app_protocol : string;
  lr_guard : option string; lr_meridian : option meridian_columns; lr_cutover : option cutover_columns;
  lr_forwarding : string; lr_protocol : string;
  lr_owner : string; lr_entry : string; lr_kind : string; lr_publication_status : string;
  lr_service_status : string
}.

(** The conditions of the query. *)
Definition listener_selected (nodeID : string) (r : listener_row) : bool :=
  (lr_owner r =?s "application_node") && (lr_entry r =?s nodeID) && (lr_kind r =?s "public_shared_443")
  && (lr_node_id r =?s nodeID) && negb (lr_publication_status r =?s "stopped")
  && negb (lr_service_status r =?s "stopped")
  && ((lr_runtime r =?s "host")
      || match lr_meridian r with None => true | Some m => me_vless_enabled m end).

Definition meridian_entry (r : listener_row) : bool :=
  (lr_app_key r =?s meridianAppKey) && (lr_app_protocol r =?s "meridian/entry").
Definition xui_reality (r : listener_row) : bool :=
  (lr_app_key r =?s threeXUIAppKey) && (lr_app_protocol r =?s "vless/tcp/reality").

Definition row_managed (r : listener_row) : bool := xui_reality r || meridian_entry r.
Definition row_proxy (r : listener_row) : string :=
  if meridian_entry r then "v2"
  else if xui_reality r && match lr_guard r with Some s => s =?s "ready" | None => false end then "v2" else "".
Definition row_cutover (r : listener_row) : string :=
  match lr_cutover r with
  | Some c =>
      if meridian_entry r && str_in (cu_state c) ["project"; "verify"] && (cu_authority c =?s "meridian")
         && negb match lr_meridian r with
                 | Some m => (me_status m =?s "ready") && me_runtime_healthy m && (me_desired m =? me_applied m)
                 | None => false
                 end
      then (if lr_application_id r =?s cu_legacy_controller c then "controller" else "worker") else ""
  | None => ""
  end.

Record nodeListenerRestoreTarget := mk_restore_target {
  rs_application_id : string; rs_backend_address : string; rs_bind_address : string
}.

Record profile_columns := mk_profile_columns {
  pc_public_address : string; pc_public_bind : string; pc_public_mode : string;
  pc_enabled : option (list string); pc_direct : bool
}.

Record ListenerReads := mk_listener_reads {
  ln_rows : list listener_row;
  ln_native : string → string → option (string * bool);   (* service address, ready installation *)
  ln_active_docker : Z;
  ln_profile : option profile_columns;
  ln_site_gateways : list (string * string)               (* desired status and status *)
}.

Definition validateNodeDirectPublicIngress (profile : option profile_columns) : res (string * string) :=
  match profile with
  | None => Err "center: application node needs a confirmed public network profile"
  | Some p =>
      match pc_enabled p, ParseIP (pc_public_address p), ParseIP (pc_public_bind p) with
      | Some enabled, Some public, Some bind =>
          if negb (pc_direct p) || negb (str_in (pc_public_mode p) [PublicModeDirect; PublicModeNAT])
          then Err "center: application node is not approved for node-direct public ingress"
          else if str_in KindPublic enabled then Ok (ip_string public, ip_string bind)
          else Err "center: application node does not have public networking enabled"
      | _, _, _ => Err "center: application node is not approved for node-direct public ingress"
      end
  end.

Section Listener.
Context {GP : GlivelaPort} {Srt : SliceSorter}.

(** The backends a managed REALITY route may have. *)
Definition approved_backend (l : list Upstream) : bool :=
  match l with
  | [u] => (us_port u =? centerThreeXUIRealityPort)
             && str_in (us_address u) [MeridianAlias; LegacyXrayAlias; ThreeXUIAlias]
           || (us_port u =? RealityBackendPort) && IsPrivateServiceAddress (us_address u)
  | _ => false
  end.

Fixpoint check_listener_routes (l : list Layer4Route) : res unit :=
  match l with
  | [] => Ok tt
  | route :: l' =>
      if negb (l4_managed_reality route) then
        if (l4_proxy_protocol route =?s ProxyProtocolV2)
           && negb match l4_upstreams route with
                   | [u] => IsPrivateServiceAddress (us_address u) && negb (loopback_text (us_address u))
                   | _ => false
                   end
        then Err "center: service forwarding requires one private backend"
        else check_listener_routes l'
      else if negb (l4_proxy_protocol route =?s ProxyProtocolV2) || negb (approved_backend (l4_upstreams route))
      then Err "center: managed REALITY listener must target the approved managed backend with Proxy Protocol v2"
      else check_listener_routes l'
  end.

Definition validateCenterNodeListenerState (s : NodeListenerState) : res unit :=
  NodeListenerValidate s ;;! check_listener_routes (sh_routes (nl_listener s)).

(** The alias of the backend of a row. *)
Definition backend_alias (r : listener_row) (cutover : string) : string :=
  if lr_app_key r =?s meridianAppKey then
    if cutover =?s "controller" then ThreeXUIAlias
    else if cutover =?s "worker" then LegacyXrayAlias else MeridianAlias
  else if (lr_role r =?s threeXUIRoleWorker) && (2 <=? lr_generation r) then LegacyXrayAlias
  else ThreeXUIAlias.

(** The route of a native package. *)
Definition native_route (nodeID : string) (rd : ListenerReads) (r : listener_row) : built Layer4Route :=
  match SplitHostPort (lr_endpoint r) with
  | None => Prerequisite "native shared listener requires a declared private TCP service"
  | Some (host, value) =>
      match parse_int64 value with
      | None => Prerequisite "native shared listener requires a declared private TCP service"
      | Some port =>
          if (port <? 1) || (65535 <? port) || negb (lr_protocol r =?s "tcp")
             || negb (IsPrivateServiceAddress host) || loopback_text host
             || negb (lr_forwarding r =?s "") && negb (lr_forwarding r =?s ProxyProtocolV2)
          then Prerequisite "native shared listener requires a declared private TCP service"
          else match ln_native rd (lr_application_id r) (lr_app_key r) with
               | Some (address, true) =>
                   if address =?s host
                   then Built (mk_layer4 (lr_id r) (lr_sni r) (lr_node_id r) false (lr_forwarding r)
                                 [mk_upstream host port])
                   else Prerequisite "native shared backend must match its ready installation and confirmed node service address"
               | _ => Prerequisite "native shared backend must match its ready installation and confirmed node service address"
               end
      end
  end.

(** The checks of a restore, which replace the endpoint and the cutover. *)
Definition restore_row (r : listener_row) (restore : nodeListenerRestoreTarget) : built (string * string) :=
  if lr_action_required r || lr_cleanup_pending r
  then Broken "center: resolve pending entry changes before restoring its listener"
  else if negb (lr_application_id r =?s rs_application_id restore) || negb (lr_app_key r =?s meridianAppKey)
          || negb (row_managed r)
  then Broken "center: restore other shared-listener applications before restoring this entry"
  else Built ("", JoinHostPort (rs_backend_address restore) (decimal RealityBackendPort)).

(** The route of a container. *)
Definition container_route (nodeID : string) (r : listener_row) (cutover endpoint : string)
    : built Layer4Route :=
  let managed := row_managed r in
  let endpoint :=
    if managed && (negb (lr_app_key r =?s meridianAppKey) || negb (cutover =?s ""))
    then JoinHostPort (backend_alias r cutover) (decimal centerThreeXUIRealityPort)
    else if negb managed
    then canonicalGatewayServiceEndpoint (lr_app_key r) (lr_runtime r) (lr_role r) (lr_node_id r) nodeID ""
           (lr_container_port r) endpoint
    else endpoint in
  match SplitHostPort endpoint with
  | None => Broken "center: invalid node-direct listener endpoint"
  | Some (host, value) =>
      let port := atoi_value value in
      let hostBackend := (lr_app_key r =?s meridianAppKey) && (cutover =?s "")
                         && IsPrivateServiceAddress host && (port =? RealityBackendPort) in
      if managed && (negb (lr_runtime r =?s "docker")
                     || negb hostBackend && (negb (host =?s backend_alias r cutover)
                                             || negb (port =? centerThreeXUIRealityPort))
                     || negb (row_proxy r =?s ProxyProtocolV2))
      then Prerequisite "managed REALITY listener requires its approved local Xray backend with Proxy Protocol v2"
      else Built (mk_layer4 (lr_id r) (lr_sni r) (lr_node_id r) managed (row_proxy r) [mk_upstream host port])
  end.

Definition listener_route (nodeID : string) (rd : ListenerReads) (restore : option nodeListenerRestoreTarget)
    (r : listener_row) : built Layer4Route :=
  if negb (lr_node_id r =?s nodeID)
  then Broken "center: node-direct listener upstream belongs to another Agent" else
  match restore with
  | None => if lr_runtime r =?s "host" then native_route nodeID rd r
            else container_route nodeID r (row_cutover r) (lr_endpoint r)
  | Some target =>
      let? ce := restore_row r target in container_route nodeID r (fst ce) (snd ce)
  end.

Fixpoint listener_routes (nodeID : string) (rd : ListenerReads) (restore : option nodeListenerRestoreTarget)
    (l : list listener_row) : built (list Layer4Route) :=
  match l with
  | [] => Built []
  | r :: l' =>
      let? route := listener_route nodeID rd restore r in
      let? rest := listener_routes nodeID rd restore l' in
      Built (route :: rest)
  end.

Definition buildNodeListenerState (rd : ListenerReads) (nodeID : string) (revision : Z)
    (restore : option nodeListenerRestoreTarget) : built NodeListenerState :=
  let rows := slice_sort (λ a b, lr_id a <?s lr_id b)
                (List.filter (listener_selected nodeID) (ln_rows rd)) in
  let? routes := listener_routes nodeID rd restore rows in
  match routes, restore with
  | [], Some _ => Broken "center: no saved Glivela shared entry to restore"
  | [], None =>
      Built (NodeListenerSorted (mk_node_listener revision nodeID (mk_shared "127.0.0.1" 443 "" 0 true [])))
  | _, _ =>
      if negb (ln_active_docker rd =? 1)
      then Prerequisite "node-direct listener requires an active Docker Agent" else
      let? bindAddress :=
        match restore with
        | Some target => Built (rs_bind_address target)
        | None => match validateNodeDirectPublicIngress (ln_profile rd) with
                  | Ok (_, bind) => Built bind
                  | Err e => Prerequisite e
                  end
        end in
      let siteGateway :=
        existsb (λ '(desired, status), (desired =?s "running")
                   && ((status =?s "ready") || is_Some_b restore)) (ln_site_gateways rd) in
      if siteGateway && is_Some_b restore
      then Broken "center: restore the shared gateway before restoring this entry" else
      let listener :=
        if siteGateway then mk_shared bindAddress 443 CaddyAlias 443 false routes
        else mk_shared bindAddress 443 "" 0 true routes in
      let state := mk_node_listener revision nodeID listener in
      let? _ := of_res (validateCenterNodeListenerState state) in
      Built (NodeListenerSorted state)
  end.

Definition desiredNodeListenerState (rd : ListenerReads) (nodeID : string) (revision : Z)
    : built NodeListenerState := buildNodeListenerState rd nodeID revision None.
End Listener.
