(* ===== verification/IngressSpec.v ===== *)
(** * What is told to gateways and listeners is valid, canonical and private

    The theorems about [Ingress]: the constructed states pass the checks made when
    their task is claimed, the control plane is public only through its bootstrap
    paths, and a managed listener has only approved backends. *)
From Stdlib Require Import Ascii.
From S2P Require Import Prelude GoText GoNet Orders Networking Gateway GatewaySpec Ingress.

(** ** Canonical states stay valid *)
Section Canonical.
Context {Srt : SliceSorter}.

Lemma sorted_route_rel r : same_route r (sorted_route r).
Proof. unfold same_route, sorted_route, sort_upstreams. cbn. split_and!; try done. apply slice_sort_perm. Qed.

Lemma sorted_layer4_rel r : same_layer4 r (sorted_layer4 r).
Proof. unfold same_layer4, sorted_layer4, sort_upstreams. cbn. split_and!; try done. apply slice_sort_perm. Qed.

Lemma up_to_sorted {A} (R : A → A → Prop) (f : A → A) less l :
  (∀ x, R x (f x)) → up_to R l (slice_sort less (map f l)).
Proof.
  intros HR. exists (map f l). split; [|by rewrite slice_sort_perm].
  induction l as [|x l IH]; cbn; constructor; auto.
Qed.

Lemma sorted_equiv s : s ≡ Sorted s.
Proof.
  split_and!; cbn; [done|apply slice_sort_perm|apply up_to_sorted, sorted_route_rel|].
  destruct (ds_shared s) as [sh|]; constructor. unfold same_shared, sorted_shared. cbn.
  split_and!; try done. apply up_to_sorted, sorted_layer4_rel.
Qed.

Lemma sorted_valid s : Validate s = Ok tt → Validate (Sorted s) = Ok tt.
Proof. rewrite !valid_decided. apply valid_state_equiv, sorted_equiv. Qed.

Lemma sort_singleton {A} (less : A → A → bool) (x : A) : slice_sort less [x] = [x].
Proof. apply Permutation_singleton_r, slice_sort_perm. Qed.

Lemma sort_nil {A} (less : A → A → bool) : slice_sort less (@nil A) = [].
Proof. apply Permutation_nil_r, slice_sort_perm. Qed.

Lemma probe_sorted s : probe (NodeListenerSorted s) = Sorted (probe s).
Proof. unfold probe, NodeListenerSorted, Sorted. cbn. by rewrite sort_singleton, sort_nil. Qed.

Lemma listener_sorted_routes s :
  sh_routes (nl_listener (NodeListenerSorted s)) =
  slice_sort (λ a b, l4_id a <?s l4_id b) (map sorted_layer4 (sh_routes (nl_listener s))).
Proof. done. Qed.

Lemma node_listener_sorted_valid s :
  NodeListenerValidate s = Ok tt → NodeListenerValidate (NodeListenerSorted s) = Ok tt.
Proof.
  unfold NodeListenerValidate. cbn [NodeListenerSorted nl_revision nl_node_id].
  destruct (nl_revision s <? 1); [done|]. destruct (_ =?s ""); [done|].
  destruct (forallb _ (sh_routes (nl_listener s))) eqn:E; [|done]. cbn [negb]. intros H.
  rewrite listener_sorted_routes.
  assert (forallb (λ r, l4_application_node_id r =?s nl_node_id s)
    (slice_sort (λ a b, l4_id a <?s l4_id b) (map sorted_layer4 (sh_routes (nl_listener s)))) = true) as ->.
  { apply forallb_forall. intros r Hr. apply list_elem_of_In in Hr. rewrite slice_sort_perm in Hr.
    apply list_elem_of_fmap in Hr as (r' & -> & Hr'). rewrite forallb_forall in E.
    apply (E r'), list_elem_of_In. done. }
  cbn [negb]. rewrite probe_sorted. by apply sorted_valid.
Qed.

Context {GP : GlivelaPort}.

(** A route of a listener the Center accepts. *)
Definition listener_route_ok (r : Layer4Route) : Prop :=
  if l4_managed_reality r
  then l4_proxy_protocol r = ProxyProtocolV2 ∧ approved_backend (l4_upstreams r) = true
  else l4_proxy_protocol r = ProxyProtocolV2 →
       ∃ u, l4_upstreams r = [u] ∧ IsPrivateServiceAddress (us_address u) = true ∧
            loopback_text (us_address u) = false.

Lemma check_listener_routes_spec l : check_listener_routes l = Ok tt ↔ Forall listener_route_ok l.
Proof.
  induction l as [|r l IH]; cbn [check_listener_routes]; [by split; [constructor|]|].
  rewrite Forall_cons, <- IH. unfold listener_route_ok. destruct (l4_managed_reality r); cbn [negb].
  - destruct (String.eqb_spec (l4_proxy_protocol r) ProxyProtocolV2) as [E|E]; cbn [negb orb];
      [|split; [discriminate|naive_solver]].
    destruct (approved_backend (l4_upstreams r)); cbn [negb]; [naive_solver|split; [discriminate|naive_solver]].
  - destruct (String.eqb_spec (l4_proxy_protocol r) ProxyProtocolV2) as [E|E]; cbn [andb]; [|naive_solver].
    destruct (l4_upstreams r) as [|u [|u' us]]; cbn [negb];
      try (split; [discriminate|intros [(? & [=] & _) _]; by auto]).
    destruct (IsPrivateServiceAddress (us_address u)) eqn:Ep; cbn [andb negb];
      [|split; [discriminate|intros [(? & [= <-] & ? & _) _]; [done|congruence]]].
    destruct (loopback_text (us_address u)) eqn:El; cbn [negb];
      [split; [discriminate|intros [(? & [= <-] & _ & ?) _]; [done|congruence]]|].
    naive_solver.
Qed.

Lemma listener_route_ok_sorted r : listener_route_ok r → listener_route_ok (sorted_layer4 r).
Proof.
  unfold listener_route_ok, sorted_layer4, sort_upstreams. cbn [l4_managed_reality l4_proxy_protocol l4_upstreams].
  destruct (l4_managed_reality r).
  - intros [E H]. split; [done|]. destruct (l4_upstreams r) as [|u [|u' us]]; try done. by rewrite sort_singleton.
  - intros H E. destruct (H E) as (u & -> & ?). exists u. by rewrite sort_singleton.
Qed.

Lemma center_listener_sorted_valid s :
  validateCenterNodeListenerState s = Ok tt → validateCenterNodeListenerState (NodeListenerSorted s) = Ok tt.
Proof.
  unfold validateCenterNodeListenerState. destruct (NodeListenerValidate s) as [[]|] eqn:E; [|discriminate].
  rewrite node_listener_sorted_valid by done. cbn [rbind]. rewrite !check_listener_routes_spec.
  rewrite listener_sorted_routes, slice_sort_perm. intros H. apply Forall_fmap. eapply Forall_impl; [exact H|].
  intros r. apply listener_route_ok_sorted.
Qed.
End Canonical.

(** ** The constructed listener *)
Section Listener.
Context {GP : GlivelaPort} {Srt : SliceSorter}.

(** The route of a row: its identity, and a managed route only for a managed row. *)
Definition route_of_row (nodeID : string) (row : listener_row) (r : Layer4Route) : Prop :=
  l4_id r = lr_id row ∧ l4_hostname r = lr_sni row ∧ l4_application_node_id r = nodeID ∧
  (l4_managed_reality r = true → row_managed row = true ∧ lr_runtime row = "docker").

Lemma container_route_spec nodeID row cutover endpoint r :
  lr_node_id row = nodeID → container_route nodeID row cutover endpoint = Built r →
  route_of_row nodeID row r.
Proof.
  intros Hn. unfold container_route. destruct (SplitHostPort _) as [[host value]|]; [|discriminate].
  destruct (row_managed row) eqn:Em; cbn [andb].
  - destruct (_ || _) eqn:E; [discriminate|]. bool_prop. intros [= <-]. unfold route_of_row. by rewrite Em.
  - intros [= <-]. unfold route_of_row. by rewrite Em.
Qed.

Lemma listener_route_spec nodeID rd restore row r :
  listener_route nodeID rd restore row = Built r → route_of_row nodeID row r.
Proof.
  unfold listener_route. destruct (String.eqb_spec (lr_node_id row) nodeID) as [Hn|]; [|discriminate]. cbn [negb].
  destruct restore as [target|].
  - destruct (restore_row row target) as [[c e]| |]; [|discriminate..]. by apply container_route_spec.
  - destruct (_ =?s "host"); [|by apply container_route_spec].
    unfold native_route. destruct (SplitHostPort _) as [[host value]|]; [|discriminate].
    destruct (parse_int64 value); [|discriminate]. destruct (_ || _); [discriminate|].
    destruct (ln_native _ _ _) as [[address []]|]; [|discriminate..].
    destruct (_ =?s host); [|discriminate]. intros [= <-]. done.
Qed.

Lemma listener_routes_spec nodeID rd restore rows routes :
  listener_routes nodeID rd restore rows = Built routes → Forall2 (route_of_row nodeID) rows routes.
Proof.
  revert routes. induction rows as [|row rows IH]; intros routes; cbn [listener_routes]; [intros [= <-]; constructor|].
  destruct (listener_route _ _ _ row) as [r| |] eqn:Er; [|discriminate..]. cbn [bbind].
  destruct (listener_routes _ _ _ rows) as [rest| |]; [|discriminate..]. cbn [bbind]. intros [= <-].
  constructor; [by eapply listener_route_spec|by apply IH].
Qed.

Lemma routes_ids nodeID rows routes :
  Forall2 (route_of_row nodeID) rows routes → map l4_id routes = map lr_id rows.
Proof. induction 1 as [|row r rows routes H _ IH]; cbn; [done|]. rewrite IH. f_equal. apply H. Qed.

Lemma empty_listener_valid revision nodeID :
  1 <= revision → trim_space nodeID ≠ "" →
  validateCenterNodeListenerState
    (mk_node_listener revision nodeID (mk_shared "127.0.0.1" 443 "" 0 true [])) = Ok tt.
Proof.
  intros Hr Hn. unfold validateCenterNodeListenerState, NodeListenerValidate. cbn [nl_revision nl_node_id].
  rewrite (proj2 (Z.ltb_ge _ _)), (proj2 (String.eqb_neq _ _) Hn) by lia. cbn [forallb nl_listener sh_routes negb].
  unfold Validate. cbn [probe ds_revision nl_revision]. by rewrite (proj2 (Z.ltb_ge _ _)) by lia.
Qed.

(** The state before it is sorted. *)
Lemma buildNodeListenerState_ok rd nodeID revision restore s :
  1 <= revision → trim_space nodeID ≠ "" → buildNodeListenerState rd nodeID revision restore = Built s →
  ∃ listener routes, s = NodeListenerSorted (mk_node_listener revision nodeID listener) ∧
    validateCenterNodeListenerState (mk_node_listener revision nodeID listener) = Ok tt ∧
    sh_routes listener = routes ∧
    (routes = [] → restore = None ∧ sh_address listener = "127.0.0.1" ∧ sh_reject_unmatched listener = true) ∧
    (routes ≠ [] → ln_active_docker rd = 1) ∧
    Forall2 (route_of_row nodeID)
      (slice_sort (λ a b, lr_id a <?s lr_id b) (List.filter (listener_selected nodeID) (ln_rows rd))) routes.
Proof.
  intros Hrev Hn. unfold buildNodeListenerState.
  destruct (listener_routes _ _ _ _) as [routes| |] eqn:Er; [|discriminate..]. cbn [bbind].
  apply listener_routes_spec in Er. destruct routes as [|r routes].
  { destruct restore; [discriminate|]. intros [= <-].
    exists (mk_shared "127.0.0.1" 443 "" 0 true []), []. split_and!; try done. by apply empty_listener_valid. }
  destruct (Z.eqb_spec (ln_active_docker rd) 1) as [Hd|]; [|discriminate]. cbn [negb].
  destruct (match restore with Some _ => _ | None => _ end) as [bind| |]; [|discriminate..]. cbn [bbind].
  set (gw := existsb _ _). destruct (gw && is_Some_b restore); [discriminate|].
  set (listener := if gw then _ else _).
  destruct (validateCenterNodeListenerState _) as [[]|] eqn:Ev; [|discriminate]. cbn [of_res bbind]. intros [= <-].
  exists listener, (r :: routes). assert (sh_routes listener = r :: routes) as Hl by (subst listener; by destruct gw).
  split_and!; done.
Qed.
End Listener.

(** C35 -- A node listener is told to serve exactly the selected shared entries of its
    own node, and safely: the constructed state passes the validation made again when
    its task is claimed; it has one route per selected publication, each for an
    application of the node; a managed REALITY route comes from a managed container
    entry and targets an approved local backend with Proxy Protocol v2; and without
    entries it only listens on loopback and rejects everything. *)
Theorem node_listener_serves_its_own_entries {GP : GlivelaPort} {Srt : SliceSorter}
    rd nodeID revision restore s :
  1 <= revision → trim_space nodeID ≠ "" → buildNodeListenerState rd nodeID revision restore = Built s →
  validateCenterNodeListenerState s = Ok tt ∧ nl_revision s = revision ∧ nl_node_id s = nodeID ∧
  map l4_id (sh_routes (nl_listener s)) ≡ₚ map lr_id (List.filter (listener_selected nodeID) (ln_rows rd)) ∧
  (∀ r, r ∈ sh_routes (nl_listener s) →
     listener_route_ok r ∧ l4_application_node_id r = nodeID ∧
     ∃ row, row ∈ ln_rows rd ∧ listener_selected nodeID row = true ∧ l4_id r = lr_id row ∧
       (l4_managed_reality r = true → row_managed row = true ∧ lr_runtime row = "docker")) ∧
  (List.filter (listener_selected nodeID) (ln_rows rd) = [] →
     sh_address (nl_listener s) = "127.0.0.1" ∧ sh_reject_unmatched (nl_listener s) = true).
Proof.
  intros Hrev Hn H. apply buildNodeListenerState_ok in H as (listener & routes & -> & Hv & Hr & He & _ & H2); [|done..].
  pose proof (center_listener_sorted_valid _ Hv) as Hv'. split_and!; [done|done|done|..].
  - rewrite listener_sorted_routes, slice_sort_perm. cbn [nl_listener]. rewrite Hr, (map_map_id _ _ l4_id) by done.
    rewrite (routes_ids _ _ _ H2). by rewrite slice_sort_perm.
  - intros r Hin. assert (listener_route_ok r) as Hok.
    { unfold validateCenterNodeListenerState in Hv'. destruct (NodeListenerValidate _) as [[]|]; [|discriminate].
      cbn [rbind] in Hv'. rewrite check_listener_routes_spec, Forall_forall in Hv'. by apply Hv'. }
    split; [done|]. rewrite listener_sorted_routes, slice_sort_perm in Hin.
    apply list_elem_of_fmap in Hin as (r0 & -> & Hin). cbn [nl_listener] in Hin. rewrite Hr in Hin.
    apply list_elem_of_lookup in Hin as [i Hi]. destruct (Forall2_lookup_r _ _ _ _ _ H2 Hi) as (row & Hrow & E1 & _ & E3 & E4).
    split; [done|]. exists row. apply list_elem_of_lookup_2 in Hrow. rewrite slice_sort_perm in Hrow.
    apply list_elem_of_In, filter_In in Hrow as [Hin Hsel]. rewrite <- list_elem_of_In in Hin. done.
  - intros E. rewrite E, sort_nil in H2. apply Forall2_nil_inv_l in H2.
    rewrite H2 in Hr. by destruct (He H2) as (_ & ? & ?).
Qed.

(** ** The gateway *)

(** The paths of the Center that are public: the installers, the Agent binaries and the
    callback of a decommissioned host. *)
Definition bootstrap_paths : list string :=
  ["/install/docker.sh"; "/install/agent.sh"; binaryPath; callbackPath].

Definition system_safe (r : Route) : Prop :=
  rt_system r = true → rt_tls_enabled r = true ∧
  (rt_listener_kind r = "public" → ∀ u, u ∈ rt_upstreams r → us_address u = CenterAlias →
     rt_path r ∈ bootstrap_paths).

Section Gateway.
Context {U : UrlReader} {Srt : SliceSorter}.

Definition system_ok (r : Route) : Prop := rt_system r = true ∧ system_safe r.

Lemma system_route_safe id hostname path alias port kind :
  kind ≠ "public" ∨ alias ≠ CenterAlias ∨ path ∈ bootstrap_paths →
  system_ok (system_route id hostname path alias port kind).
Proof.
  intros H. split; [done|]. intros _. split; [done|]. cbn. intros Hk u ->%list_elem_of_singleton Ha. naive_solver.
Qed.

Ltac safe_routes :=
  repeat apply List.Forall_cons; try apply List.Forall_nil; apply system_route_safe;
  first [by left|right; left; discriminate|right; right; set_solver].

Lemma system_routes_safe c h : Forall system_ok (system_routes c h).
Proof. unfold system_routes, bootstrap_paths. safe_routes. Qed.

Lemma alias_routes_safe message own routes aliases l :
  (∀ h, Forall system_ok (routes h)) → alias_routes message own routes aliases = Ok l →
  Forall system_ok l.
Proof.
  intros Hs. revert l. induction aliases as [|a aliases IH]; intros l; cbn [alias_routes]; [by intros [= <-]|].
  destruct (wrapped _ _) as [h|]; [|discriminate]. cbn [rbind].
  destruct (alias_routes _ _ _ aliases) as [rest|]; [|discriminate]. cbn [rbind]. intros [= <-].
  specialize (IH rest eq_refl). destruct (_ =?s own); [done|]. by apply Forall_app.
Qed.

Lemma append_system_safe rd routes listeners :
  appendSystemGatewayRoutes rd = Ok (routes, listeners) → Forall system_ok routes.
Proof.
  unfold appendSystemGatewayRoutes. destruct (sy_headscale rd); [|by intros [= <- _]].
  destruct (sy_binding rd); [|by intros [= <- _]]. destruct (negb _); [by intros [= <- _]|].
  destruct (List.find _ _) as [c|]; [|discriminate]. destruct (sy_center rd); [|discriminate].
  destruct (wrapped _ _) as [ch|]; [|discriminate]. cbn [rbind].
  destruct (wrapped _ _) as [hh|]; [|discriminate]. cbn [rbind].
  destruct (alias_routes _ _ _ _) as [ca|] eqn:Ec; [|discriminate]. cbn [rbind].
  destruct (alias_routes _ _ _ (sy_headscale_aliases rd)) as [ha|] eqn:Eh; [|discriminate]. cbn [rbind].
  intros H. assert (routes = system_routes ch hh ++ ca ++ ha) as -> by congruence. repeat apply Forall_app_2.
  - apply system_routes_safe.
  - eapply alias_routes_safe, Ec. intros h. unfold center_alias_routes. safe_routes.
  - eapply alias_routes_safe, Eh. intros h. unfold headscale_alias_routes, bootstrap_paths. safe_routes.
Qed.

(** The routes of publications: one per row, with its host name, protocol and endpoints, on
    the listener of its kind. *)
Record row_route (row : gateway_route_row) (r : Route) : Prop := mk_row_route {
  rr_id : rt_id r = gr_id row;
  rr_hostname : rt_hostname r = gr_hostname row;
  rr_system : rt_system r = false;
  rr_path : rt_path r = "";
  rr_protocol : rt_protocol r = gr_protocol row;
  rr_listener : (rt_listener_kind r, rt_tls_enabled r) = (fst (fst (route_listener row)), snd (route_listener row));
  rr_upstreams : ∃ values us, gr_upstreams row = Some values ∧ route_upstreams values = Ok us ∧ rt_upstreams r ≡ₚ us
}.

Lemma route_upstreams_in values us u :
  route_upstreams values = Ok us → u ∈ us → ∃ v port, v ∈ values ∧ SplitHostPort v = Some (us_address u, port).
Proof.
  revert us. induction values as [|v values IH]; intros us; cbn [route_upstreams]; [intros [= <-]; set_solver|].
  destruct (SplitHostPort v) as [[host port]|] eqn:E; [|discriminate]. destruct (route_upstreams values) as [rest|]; [|discriminate].
  cbn [rbind]. intros [= <-] [->|Hu]%elem_of_cons.
  - exists v, port. split; [left|done].
  - destruct (IH rest eq_refl Hu) as (w & q & Hw & Hq). exists w, q. split; [by right|done].
Qed.

Lemma gateway_routes_spec rows listeners routes listeners' :
  gateway_routes rows listeners = Ok (routes, listeners') → Forall2 row_route rows routes.
Proof.
  revert listeners routes. induction rows as [|row rows IH]; intros listeners routes; cbn [gateway_routes].
  { intros [= <- _]. constructor. }
  destruct (route_listener row) as [[kind address] tls] eqn:El. destruct (gr_upstreams row) as [l|] eqn:Eu; [|discriminate].
  destruct (route_upstreams _) as [us|] eqn:Ev; [|discriminate]. cbn [rbind].
  destruct (gateway_routes rows _) as [[rest ls]|] eqn:Er; [|discriminate]. cbn [rbind fst snd]. intros [= <- <-].
  constructor; [|by eapply IH]. split; rewrite ?El; try done. exists l, us. by split_and!.
Qed.

Lemma row_route_sorted row r : row_route row r → row_route row (sorted_route r).
Proof.
  intros [H1 H2 H3 H4 H5 H6 (values & us & E1 & E2 & E3)]. split; try done. exists values, us. split; [done|]. split; [done|].
  cbn. unfold sort_upstreams. by rewrite slice_sort_perm.
Qed.

(** Only publications of the public kind are on the public listener. *)
Lemma public_row row r : row_route row r → rt_listener_kind r = "public" → gr_kind row = publicationPublic.
Proof.
  intros Hr Hk. pose proof (rr_listener _ _ Hr) as [= E _]. rewrite Hk in E. unfold route_listener in E.
  destruct (_ =?s publicationCloudflare); [discriminate|]. destruct (String.eqb_spec (gr_kind row) publicationPublic); [done|].
  destruct (_ =?s publicationHeadscale); discriminate.
Qed.
End Gateway.

(** A publication whose endpoint is the Center: that of the subscription service. *)
Definition publishes_center (row : gateway_route_row) : Prop :=
  ∃ values v port, gr_upstreams row = Some values ∧ v ∈ values ∧ SplitHostPort v = Some (CenterAlias, port).


(** ** Witnesses *)
#[local] Instance sample_port : GlivelaPort := {| RealityBackendPort := 8443 |}.

Definition sample_entry (id sni : string) : listener_row :=
  mk_listener_row id sni "10.0.0.4:8443" "app" "node" "docker" "" meridianAppKey 2 443 false false
    "meridian/entry" None (Some (mk_meridian_columns "ready" true 3 3 true)) None "" "tcp"
    "application_node" "node" "public_shared_443" "applying" "running".

Definition sample_reads : ListenerReads :=
  mk_listener_reads [sample_entry "p2" "b.example.com"; sample_entry "p1" "a.example.com"] (λ _ _, None) 1
    (Some (mk_profile_columns "198.51.100.7" "198.51.100.7" PublicModeDirect (Some [KindPublic]) true)) [].

Definition sample_listener : NodeListenerState :=
  mk_node_listener 4 "node" (mk_shared "198.51.100.7" 443 "" 0 true
    [mk_layer4 "p1" "a.example.com" "node" true "v2" [mk_upstream "10.0.0.4" 8443];
     mk_layer4 "p2" "b.example.com" "node" true "v2" [mk_upstream "10.0.0.4" 8443]]).

Lemma node_listener_serves_its_own_entries_witness :
  validateCenterNodeListenerState sample_listener = Ok tt ∧ nl_revision sample_listener = 4.
Proof.
  destruct (node_listener_serves_its_own_entries sample_reads "node" 4 None sample_listener) as (H1 & H2 & _).
  - lia.
  - discriminate.
  - vm_compute. reflexivity.
  - exact (conj H1 H2).
Defined.

#[local] Instance sample_url : UrlReader := {| url_Parse s := Some ("https", s) |}.

Definition sample_system : SystemReads :=
  mk_system_reads (Some "hs.example.com") (Some "198.51.100.7")
    [mk_candidate "198.51.100.7" "eth0" KindPublic 0; mk_candidate "100.64.0.1" "tailscale0" KindHeadscale 0]
    (Some "center.example.com") [] [].

Definition sample_publication : gateway_route_row :=
  mk_gateway_route_row "pub-1" "sub.example.com" "http" (Some ["vastora-center:8080"]) true publicationPublic "ready" "running"
    "" "" "198.51.100.7".

