(* ===== verification/Desired.v ===== *)
(** * Desired states: queueing, claiming and recording results

    internal/center: the tables [gateway_components], [gateway_states],
    [node_listener_states] and [cloudflare_tunnels] with the routes and publications
    that mirror them, and the migrations that hand entries over to node listeners and
    tunnel connectors (orchestration.go, node_listeners.go, tunnel.go, topology.go,
    store_agent.go and the gateway part of [claimNextTask] in deployment_tasks.go).

    A function returns the tables at its commit; an error is a rollback.  The rows of
    other tables, the sealed tunnel token, the gateway's certificates and encoding/json
    are the parameter [Sources]. *)
From S2P Require Import Prelude GoText GoTime GoNet TaskIds Networking Gateway Store Execution.
From S2P Require Import Ingress.

(** ** The tables *)

(** A row of a desired state.  [gateway_components] names the columns [generation] and
    [applied_generation], and its payload is [desired_status]. *)
Record desired_row := mk_desired {
  dr_desired : Z; dr_applied : Z; dr_payload : string; dr_status : string; dr_attempt : Z;
  dr_lease : string; dr_error : string; dr_updated : string
}.
Record route_row := mk_route_row {
  rr_gateway : string; rr_publication : string; rr_site : string; rr_desired : Z; rr_applied : Z; rr_status : string;
  rr_error : string; rr_updated : string
}.
Record publication_row := mk_publication {
  pb_id : string; pb_kind : string; pb_owner : string; pb_entry : string; pb_dns : string;
  pb_desired : Z; pb_applied : Z; pb_status : string; pb_error : string; pb_action : bool; pb_updated : string
}.
Record cutover_row := mk_cutover {
  ct_publication : string; ct_legacy : string; ct_node : string; ct_listener_ready : bool;
  ct_publication_ready : bool; ct_dns_reconciled : bool
}.
Record tunnel_cutover_row := mk_tunnel_cutover {
  tc_publication : string; tc_legacy : string; tc_reconciled : bool
}.

Record Desk := mk_desk {
  dk_components : gmap string desired_row; dk_gateways : gmap string desired_row;
  dk_listeners : gmap string desired_row; dk_tunnels : gmap string desired_row;
  dk_routes : list route_row; dk_publications : list publication_row;
  dk_marker : option string; dk_cutovers : option (list cutover_row);       (* a table, unless dropped *)
  dk_tunnel_marker : option string; dk_tunnel_cutovers : option (list tunnel_cutover_row);
  dk_events : list task_event
}.

Definition with_components m (d : Desk) : Desk :=
  mk_desk m (dk_gateways d) (dk_listeners d) (dk_tunnels d) (dk_routes d) (dk_publications d)
    (dk_marker d) (dk_cutovers d) (dk_tunnel_marker d) (dk_tunnel_cutovers d) (dk_events d).
Definition with_gateways m (d : Desk) : Desk :=
  mk_desk (dk_components d) m (dk_listeners d) (dk_tunnels d) (dk_routes d) (dk_publications d)
    (dk_marker d) (dk_cutovers d) (dk_tunnel_marker d) (dk_tunnel_cutovers d) (dk_events d).
Definition with_listeners m (d : Desk) : Desk :=
  mk_desk (dk_components d) (dk_gateways d) m (dk_tunnels d) (dk_routes d) (dk_publications d)
    (dk_marker d) (dk_cutovers d) (dk_tunnel_marker d) (dk_tunnel_cutovers d) (dk_events d).
Definition with_tunnels m (d : Desk) : Desk :=
  mk_desk (dk_components d) (dk_gateways d) (dk_listeners d) m (dk_routes d) (dk_publications d)
    (dk_marker d) (dk_cutovers d) (dk_tunnel_marker d) (dk_tunnel_cutovers d) (dk_events d).
Definition with_routes l (d : Desk) : Desk :=
  mk_desk (dk_components d) (dk_gateways d) (dk_listeners d) (dk_tunnels d) l (dk_publications d)
    (dk_marker d) (dk_cutovers d) (dk_tunnel_marker d) (dk_tunnel_cutovers d) (dk_events d).
Definition with_publications l (d : Desk) : Desk :=
  mk_desk (dk_components d) (dk_gateways d) (dk_listeners d) (dk_tunnels d) (dk_routes d) l
    (dk_marker d) (dk_cutovers d) (dk_tunnel_marker d) (dk_tunnel_cutovers d) (dk_events d).
Definition with_migration marker cutovers (d : Desk) : Desk :=
  mk_desk (dk_components d) (dk_gateways d) (dk_listeners d) (dk_tunnels d) (dk_routes d) (dk_publications d)
    marker cutovers (dk_tunnel_marker d) (dk_tunnel_cutovers d) (dk_events d).
Definition with_tunnel_migration marker cutovers (d : Desk) : Desk :=
  mk_desk (dk_components d) (dk_gateways d) (dk_listeners d) (dk_tunnels d) (dk_routes d) (dk_publications d)
    (dk_marker d) (dk_cutovers d) marker cutovers (dk_events d).
Definition with_event e (d : Desk) : Desk :=
  mk_desk (dk_components d) (dk_gateways d) (dk_listeners d) (dk_tunnels d) (dk_routes d) (dk_publications d)
    (dk_marker d) (dk_cutovers d) (dk_tunnel_marker d) (dk_tunnel_cutovers d) (dk_events d ++ [e]).

(** [recordTaskEvent] on these tables. *)
Definition record_event (taskID agentID kind : string) (revision : Z) (event message : string) (now : Z)
    (d : Desk) : Desk :=
  let m := trim_space message in
  with_event (mk_task_event taskID agentID kind revision event
    (if 1024 <? str_len m then String.substring 0 1024 m else m) (rfc3339nano now)) d.

(** ** Rows *)

(** The upsert of a queued revision; [reset] also sets the attempt to zero. *)
Definition queue_row (revision : Z) (payload : string) (reset : bool) (now : Z) (old : option desired_row)
    : desired_row :=
  match old with
  | None => mk_desired revision 0 payload "pending" 0 "" "" (rfc3339nano now)
  | Some r => mk_desired revision (dr_applied r) payload "pending" (if reset then 0 else dr_attempt r)
                "" "" (rfc3339nano now)
  end.

(** The claim of a pending revision. *)
Definition claim_row (now : Z) (r : desired_row) : desired_row :=
  mk_desired (dr_desired r) (dr_applied r) (dr_payload r) "applying" (dr_attempt r + 1)
    (lease now taskLeaseDuration) (dr_error r) (rfc3339nano now).

Definition claimable (r : desired_row) : bool :=
  (dr_applied r <? dr_desired r) && (dr_status r =?s "pending").

(** The result of a revision. *)
Definition settle_row (applied : Z) (status error : string) (now : Z) (r : desired_row) : desired_row :=
  mk_desired (dr_desired r) applied (dr_payload r) status (dr_attempt r) "" error (rfc3339nano now).

(** [strings.TrimSpace] and the first 1024 bytes. *)
Definition short_error (e : string) : string :=
  let e := trim_space e in if 1024 <? str_len e then String.substring 0 1024 e else e.

(** ** What the tables are combined with *)
Record TunnelTaskState := mk_tunnel_state {
  ts_revision : Z; ts_status : string; ts_image : string; ts_token : string; ts_ingress : list TunnelTaskIngress
}.

Class Sources := {
  src_system : Desk → string → SystemReads;
  src_routes : Desk → string → list gateway_route_row;
  src_listener : Desk → string → ListenerReads;
  src_ingress : Desk → string → list tunnel_row;
  gatewayCertificates : Desk → string → DesiredState → res (list Certificate);
  tunnel_token : string → res string;
  CloudflaredImage : string;
  gateway_Marshal : DesiredState → string;
  gateway_Unmarshal : string → option DesiredState;
  listener_Marshal : NodeListenerState → string;
  listener_Unmarshal : string → option NodeListenerState;
  tunnel_Marshal : TunnelTaskState → string;
  tunnel_Unmarshal : string → option TunnelTaskState
}.

Section Desired.
Context {U : UrlReader} {GP : GlivelaPort} {Srt : SliceSorter} {Src : Sources} {SH : StateHash}.

Definition revision_of (m : gmap string desired_row) (id : string) : Z :=
  match m !! id with Some r => dr_desired r | None => 0 end.

(** ** Queueing *)
Definition queueGatewayState (gatewayID : string) (now : Z) (d : Desk) : res Desk :=
  let revision := revision_of (dk_gateways d) gatewayID + 1 in
  let! state := desiredGatewayState (src_system d gatewayID) (src_routes d gatewayID) revision in
  let d1 := with_gateways (<[gatewayID := queue_row revision (gateway_Marshal state) false now
                                           (dk_gateways d !! gatewayID)]> (dk_gateways d)) d in
  let d2 := with_routes (sql_update (λ r, rr_gateway r =?s gatewayID)
              (λ r, mk_route_row (rr_gateway r) (rr_publication r) (rr_site r) revision (rr_applied r) "pending"
                      (rr_error r) (rfc3339nano now)) (dk_routes d1)) d1 in
  Ok (record_event (gatewayRouteTaskID gatewayID revision) gatewayID "gateway.routes.apply" revision
        "queued" "full gateway desired state queued" now d2).

Definition saveNodeListenerState (state : NodeListenerState) (now : Z) (message : string) (d : Desk)
    : res Desk :=
  validateCenterNodeListenerState state ;;!
  let id := nl_node_id state in
  let d1 := with_listeners (<[id := queue_row (nl_revision state) (listener_Marshal state) false now
                                     (dk_listeners d !! id)]> (dk_listeners d)) d in
  Ok (record_event (nodeListenerTaskID id (nl_revision state)) id "node.listener.apply" (nl_revision state)
        "queued" message now d1).

Definition queueNodeListenerState (nodeID : string) (now : Z) (d : Desk) : built Desk :=
  let? state := desiredNodeListenerState (src_listener d nodeID) nodeID
                  (revision_of (dk_listeners d) nodeID + 1) in
  of_res (saveNodeListenerState state now "node-local listener desired state queued" d).

(** The publications of a tunnel connector. *)
Definition of_connector (agentID : string) (p : publication_row) : bool :=
  (pb_owner p =?s "tunnel_connector") && (pb_entry p =?s agentID) && (pb_kind p =?s "cloudflare_tunnel")
  && negb (pb_status p =?s "stopped").

Definition queueTunnelState (agentID : string) (now : Z) (d : Desk) : res Desk :=
  match dk_tunnels d !! agentID with
  | None => Err "center: configure Cloudflare before creating a Tunnel publication"
  | Some row =>
      let! ingress := tunnelIngressForNode agentID (src_ingress d agentID) in
      let status := match ingress with [] => "stopped" | _ => "running" end in
      let revision := dr_desired row + 1 in
      let state := mk_tunnel_state revision status CloudflaredImage "" ingress in
      let d1 := with_tunnels (<[agentID := queue_row revision (tunnel_Marshal state) true now (Some row)]>
                                (dk_tunnels d)) d in
      let d2 := with_publications (sql_update (of_connector agentID)
                  (λ p, mk_publication (pb_id p) (pb_kind p) (pb_owner p) (pb_entry p) (pb_dns p) revision
                          (pb_applied p) "pending" "" (pb_action p) (rfc3339nano now)) (dk_publications d1)) d1 in
      Ok (record_event (tunnelTaskID agentID revision) agentID "tunnel.state.apply" revision "queued"
            "Cloudflare Tunnel desired state queued" now d2)
  end.

(** *** Components (topology.go, store_agent.go, application_runtime_migration.go) *)

(** A node selected as a gateway of a site. *)
Definition select_gateway (siteID agentID : string) (now : Z) (d : Desk) : Desk :=
  let row := match dk_components d !! agentID with
             | None => mk_desired 1 0 "running" "pending" 0 "" "" (rfc3339nano now)
             | Some r => mk_desired (dr_desired r + 1) (dr_applied r) "running" "pending" (dr_attempt r) "" ""
                           (rfc3339nano now)
             end in
  record_event (gatewayComponentTaskID agentID (dr_desired row)) agentID "gateway.component.apply"
    (dr_desired row) "queued" ("gateway selected for site " +:+ siteID) now
    (with_components (<[agentID := row]> (dk_components d)) d).

(** A gateway that serves nothing any more: stopped, and its desired state removed. *)
Definition stop_gateway (siteID agentID : string) (now : Z) (d : Desk) : res Desk :=
  match dk_components d !! agentID with
  | None => Err "sql: no rows in result set"
  | Some r =>
      let row := mk_desired (dr_desired r + 1) (dr_applied r) "stopped" "pending" (dr_attempt r) "" ""
                   (rfc3339nano now) in
      let d1 := with_components (<[agentID := row]> (dk_components d)) d in
      let d2 := record_event (gatewayComponentTaskID agentID (dr_desired row)) agentID
                  "gateway.component.apply" (dr_desired row) "queued" ("gateway removed from site " +:+ siteID)
                  now d1 in
      Ok (with_gateways (delete agentID (dk_gateways d2)) d2)
  end.

(** The end of a node's role as a gateway of the site. *)
Definition deselect_gateway (siteID agentID : string) (now : Z) (d : Desk) : res Desk :=
  let d1 := with_routes (List.filter (λ r, negb ((rr_site r =?s siteID) && (rr_gateway r =?s agentID)))
                           (dk_routes d)) d in
  let! d2 := match dk_listeners d1 !! agentID with
             | Some _ => to_res (queueNodeListenerState agentID now d1)
             | None => Ok d1
             end in
  let! sys := appendSystemGatewayRoutes (src_system d2 agentID) in
  match fst sys with
  | [] => stop_gateway siteID agentID now d2
  | _ => queueGatewayState agentID now d2
  end.

Definition unhealthy_message : string := "gateway health check failed; queued for reconcile".

Definition queueUnhealthyGatewayReconcile (agentID : string) (now : Z) (d : Desk) : res Desk :=
  match dk_gateways d !! agentID with
  | Some r =>
      if (dr_applied r <? dr_desired r) || negb (dr_status r =?s "ready") then Ok d
      else queueGatewayState agentID now d
  | None =>
      match dk_components d !! agentID with
      | Some r =>
          if (dr_payload r =?s "running") && (dr_status r =?s "ready") then
            let row := mk_desired (dr_desired r + 1) (dr_applied r) (dr_payload r) "failed" (dr_attempt r) ""
                         unhealthy_message (rfc3339nano now) in
            Ok (record_event (gatewayComponentTaskID agentID (dr_desired row)) agentID
                  "gateway.component.apply" (dr_desired row) "queued" unhealthy_message now
                  (with_components (<[agentID := row]> (dk_components d)) d))
          else Ok d
      | None => Ok d
      end
  end.

Definition queueMismatchedGatewayReconcile (agentID : string) (liveRevision : Z) (liveHash : string) (now : Z)
    (d : Desk) : res Desk :=
  match dk_gateways d !! agentID with
  | None => Ok d
  | Some r =>
      if negb (dr_status r =?s "ready") || negb (dr_desired r =? dr_applied r) then Ok d else
      match gateway_Unmarshal (dr_payload r) with
      | Some desired =>
          if negb (is_ok (Validate desired)) || negb (ds_revision desired =? dr_desired r)
          then Err "center: stored gateway desired state is invalid" else
          let! certificates := gatewayCertificates d agentID desired in
          let! expectedHash := ConfigurationHash desired certificates in
          if (liveRevision =? dr_applied r) && (liveHash =?s expectedHash) then Ok d
          else queueGatewayState agentID now d
      | None => Err "center: stored gateway desired state is invalid"
      end
  end.

(** The shared entries of a node. *)
Definition of_listener (nodeID : string) (p : publication_row) : bool :=
  (pb_owner p =?s "application_node") && (pb_entry p =?s nodeID) && (pb_kind p =?s "public_shared_443")
  && negb (pb_status p =?s "stopped").

Definition set_publication (desired applied : Z) (status error : string) (action : bool) (now : Z)
    (p : publication_row) : publication_row :=
  mk_publication (pb_id p) (pb_kind p) (pb_owner p) (pb_entry p) (pb_dns p) desired applied status error action
    (rfc3339nano now).

Definition queueMismatchedNodeListenerReconcile (nodeID : string) (healthy : bool) (liveRevision : Z)
    (liveHash : string) (now : Z) (d : Desk) : res Desk :=
  match dk_listeners d !! nodeID with
  | None => Ok d
  | Some r =>
      if negb (dr_status r =?s "ready") || negb (dr_desired r =? dr_applied r) then Ok d else
      match listener_Unmarshal (dr_payload r) with
      | Some desired =>
          if negb (is_ok (validateCenterNodeListenerState desired)) || negb (nl_node_id desired =?s nodeID)
             || negb (nl_revision desired =? dr_desired r)
          then Err "center: stored node-listener desired state is invalid" else
          let! expectedHash := NodeListenerConfigurationHash desired in
          if healthy && (liveRevision =? dr_applied r) && (liveHash =?s expectedHash) then Ok d else
          let reason := if healthy then "node-direct listener state differs from Center; queued for reconcile"
                        else "node-direct listener health check failed; queued for reconcile" in
          let d1 := with_publications (sql_update (of_listener nodeID)
                      (λ p, set_publication (pb_desired p) (pb_applied p) "degraded" reason (pb_action p) now p)
                      (dk_publications d)) d in
          to_res (queueNodeListenerState nodeID now d1)
      | None => Err "center: stored node-listener desired state is invalid"
      end
  end.

(** *** Other writers (application_runtime_migration.go, cloudflare_tunnel_operation.go,
    agent_reinstall_listener.go) *)

(** The desired states an Agent with a newer runtime contract is given again;
    [deployments] is the outcome for its applications. *)
Definition queueApplicationRuntimeMigration (deployments : res unit) (agentID : string) (generation now : Z)
    (d : Desk) : res Desk :=
  let idle r := (dr_status r =?s "ready") && (dr_desired r =? dr_applied r) in
  deployments ;;!
  let! d1 := match dk_components d !! agentID with
             | Some r =>
                 if (dr_payload r =?s "running") && idle r
                    && match dk_gateways d !! agentID with Some g => idle g | None => true end
                 then
                   let row := mk_desired (dr_desired r + 1) (dr_applied r) (dr_payload r) "pending" 0 "" ""
                                (rfc3339nano now) in
                   queueGatewayState agentID now
                     (record_event (gatewayComponentTaskID agentID (dr_desired row)) agentID
                        "gateway.component.apply" (dr_desired row) "queued"
                        ("application runtime generation " +:+ decimal generation) now
                        (with_components (<[agentID := row]> (dk_components d)) d))
                 else Ok d
             | None => Ok d
             end in
  let! d2 := match dk_listeners d1 !! agentID with
             | Some r => if idle r then to_res (queueNodeListenerState agentID now d1) else Ok d1
             | None => Ok d1
             end in
  match dk_tunnels d2 !! agentID with
  | Some r => if idle r then queueTunnelState agentID now d2 else Ok d2
  | None => Ok d2
  end.

(** The row of a created tunnel, at the end of [completeCloudflareTunnelOperation]. *)
Definition save_tunnel (agentID : string) (now : Z) (d : Desk) : res Desk :=
  match dk_tunnels d !! agentID with
  | Some _ => Err "center: save Cloudflare Tunnel"
  | None => Ok (with_tunnels (<[agentID := mk_desired 0 0 "{}" "stopped" 0 "" "" (rfc3339nano now)]>
                                (dk_tunnels d)) d)
  end.

Definition MaxInt64 : Z := 2 ^ 63 - 1.

(** [QueueAgentReinstallListener] for an entry that is not queued yet.  [reviewed] are the
    checks of the operation, the plan and its network approval, which yield what is
    restored; [prepared] the outcome of recording the task with its digest. *)
Definition QueueAgentReinstallListener (reviewed : Desk → res nodeListenerRestoreTarget)
    (prepared : Desk → res unit) (agentID : string) (now : Z) (d : Desk) : res Desk :=
  let! target := reviewed d in
  let revision := revision_of (dk_listeners d) agentID in
  let attempt := match dk_listeners d !! agentID with Some r => dr_attempt r | None => 0 end in
  if (revision <? 0) || (revision =? MaxInt64) || (attempt <? 0) || (attempt =? MaxInt64)
  then Err errExecutionAuthorization else
  let! state := to_res (buildNodeListenerState (src_listener d agentID) agentID (revision + 1) (Some target)) in
  let! d1 := saveNodeListenerState state now
               "Restore reviewed Glivela entry; public access verification remains pending" d in
  prepared d1 ;;! Ok d1.

(** ** Claiming *)
Inductive desired_payload :=
| ComponentPayload (operation : string)
| GatewayPayload (state : DesiredState) (certificates : list Certificate)
| ListenerPayload (state : NodeListenerState)
| TunnelPayload (state : TunnelTaskState).

Record desired_task := mk_desired_task {
  dt_kind : string; dt_id : string; dt_attempt : Z; dt_revision : Z; dt_payload : desired_payload
}.

Definition claimed_event (agentID : string) (task : desired_task) (now : Z) (d : Desk) : Desk :=
  record_event (dt_id task) agentID (dt_kind task) (dt_revision task) "claimed"
    ("attempt " +:+ decimal (dt_attempt task)) now d.

(** The claim of [gateway.component.apply]. *)
Definition claim_component (agentID : string) (now : Z) (d : Desk) : res (option (desired_task * Desk)) :=
  match dk_components d !! agentID with
  | Some r =>
      if negb (claimable r) then Ok None else
      let task := mk_desired_task "gateway.component.apply" (gatewayComponentTaskID agentID (dr_desired r))
                    (dr_attempt r + 1) (dr_desired r) (ComponentPayload (dr_payload r)) in
      Ok (Some (task, claimed_event agentID task now
                        (with_components (<[agentID := claim_row now r]> (dk_components d)) d)))
  | None => Ok None
  end.

(** The claim of [gateway.routes.apply]: the component runs and is ready. *)
Definition claim_routes (agentID : string) (now : Z) (d : Desk) : res (option (desired_task * Desk)) :=
  match dk_gateways d !! agentID, dk_components d !! agentID with
  | Some r, Some c =>
      if negb (claimable r) || negb (dr_payload c =?s "running") || negb (dr_status c =?s "ready")
      then Ok None else
      match gateway_Unmarshal (dr_payload r) with
      | Some state =>
          if negb (is_ok (Validate state)) || negb (ds_revision state =? dr_desired r)
          then Err "center: invalid stored gateway desired state" else
          let! certificates := gatewayCertificates d agentID state in
          let task := mk_desired_task "gateway.routes.apply" (gatewayRouteTaskID agentID (dr_desired r))
                        (dr_attempt r + 1) (dr_desired r) (GatewayPayload state certificates) in
          let d1 := with_gateways (<[agentID := claim_row now r]> (dk_gateways d)) d in
          let d2 := with_routes (sql_update (λ x, (rr_gateway x =?s agentID) && (rr_desired x =? dr_desired r))
                      (λ x, mk_route_row (rr_gateway x) (rr_publication x) (rr_site x) (rr_desired x) (rr_applied x)
                              "applying" (rr_error x) (rfc3339nano now)) (dk_routes d1)) d1 in
          Ok (Some (task, claimed_event agentID task now d2))
      | None => Err "center: invalid stored gateway desired state"
      end
  | _, _ => Ok None
  end.

Definition claimNodeListenerTask (nodeID : string) (now : Z) (d : Desk) : res (option (desired_task * Desk)) :=
  match dk_listeners d !! nodeID with
  | Some r =>
      if negb (claimable r) then Ok None else
      match listener_Unmarshal (dr_payload r) with
      | Some state =>
          if negb (is_ok (validateCenterNodeListenerState state)) || negb (nl_node_id state =?s nodeID)
             || negb (nl_revision state =? dr_desired r)
          then Err "center: invalid stored node listener desired state" else
          let task := mk_desired_task "node.listener.apply" (nodeListenerTaskID nodeID (dr_desired r))
                        (dr_attempt r + 1) (dr_desired r) (ListenerPayload state) in
          Ok (Some (task, claimed_event nodeID task now
                            (with_listeners (<[nodeID := claim_row now r]> (dk_listeners d)) d)))
      | None => Err "center: invalid stored node listener desired state"
      end
  | None => Ok None
  end.

Definition claimTunnelTask (agentID : string) (now : Z) (d : Desk) : res (option (desired_task * Desk)) :=
  match dk_tunnels d !! agentID with
  | Some r =>
      if negb (claimable r) then Ok None else
      match tunnel_Unmarshal (dr_payload r) with
      | Some state =>
          if negb (ts_revision state =? dr_desired r) || negb (str_in (ts_status state) ["running"; "stopped"])
             || (trim_space (ts_image state) =?s "")
          then Err "center: invalid stored Tunnel desired state" else
          let! token := tunnel_token agentID in
          let state := mk_tunnel_state (ts_revision state) (ts_status state) (ts_image state) token
                         (ts_ingress state) in
          let task := mk_desired_task "tunnel.state.apply" (tunnelTaskID agentID (dr_desired r))
                        (dr_attempt r + 1) (dr_desired r) (TunnelPayload state) in
          Ok (Some (task, claimed_event agentID task now
                            (with_tunnels (<[agentID := claim_row now r]> (dk_tunnels d)) d)))
      | None => Err "center: invalid stored Tunnel desired state"
      end
  | None => Ok None
  end.

(** ** Migrations *)
Definition finishNodeListenerMigration (d : Desk) : Desk := with_migration None None d.
Definition finishTunnelConnectorMigration (d : Desk) : Desk := with_tunnel_migration None None d.

Definition set_cutover (listener publication : bool) (c : cutover_row) : cutover_row :=
  mk_cutover (ct_publication c) (ct_legacy c) (ct_node c) listener publication (ct_dns_reconciled c).

Definition publication_stopped (d : Desk) (id : string) : bool :=
  existsb (λ p, (pb_id p =?s id) && (pb_status p =?s "stopped")) (dk_publications d).

(** The legacy gateways of which every cutover is ready, in order and once. *)
Definition ready_gateways (cutovers : list cutover_row) : list string :=
  slice_sort (λ a b, a <?s b) (remove_dups (map ct_legacy
    (List.filter (λ c, negb (existsb (λ p, (ct_legacy p =?s ct_legacy c)
                              && (negb (ct_listener_ready p) || negb (ct_publication_ready p))) cutovers))
       cutovers))).

Fixpoint retire_gateways (l : list string) (now : Z) (d : Desk) : res Desk :=
  match l with
  | [] => Ok d
  | gatewayID :: l' =>
      let! d1 := match dk_components d !! gatewayID with
                 | Some c => if dr_payload c =?s "running" then queueGatewayState gatewayID now d else Ok d
                 | None => Ok d
                 end in
      let d2 := with_migration (dk_marker d1)
                  (option_map (List.filter (λ c, negb (ct_legacy c =?s gatewayID))) (dk_cutovers d1)) d1 in
      retire_gateways l' now d2
  end.

Definition retireReadyLegacyGatewayCutovers (now : Z) (d : Desk) : res Desk :=
  match dk_cutovers d with
  | None => Err "SQL logic error: no such table"
  | Some cutovers =>
      let! d1 := retire_gateways (ready_gateways cutovers) now d in
      match dk_cutovers d1 with
      | Some [] => Ok (finishNodeListenerMigration d1)
      | _ => Ok d1
      end
  end.

Definition update_cutovers (wh : cutover_row → bool) (set_row : cutover_row → cutover_row) (d : Desk) : res Desk :=
  match dk_cutovers d with
  | None => Err "SQL logic error: no such table"
  | Some l => Ok (with_migration (dk_marker d) (Some (sql_update wh set_row l)) d)
  end.

Definition cutover_invalid : string := "center: node-listener migration cutover state is invalid".

Definition completeNodeListenerMigrationCutovers (nodeID : string) (now : Z) (d : Desk) : res Desk :=
  match dk_marker d with
  | None => Ok d
  | Some marker =>
      if negb (marker =?s "applying") then Err cutover_invalid else
      let! d1 := update_cutovers (λ c, ct_node c =?s nodeID)
                   (λ c, set_cutover true (if publication_stopped d (ct_publication c) then true
                                           else ct_publication_ready c) c) d in
      retireReadyLegacyGatewayCutovers now d1
  end.

Definition completeNodeListenerMigrationPublication (publicationID : string) (now : Z) (d : Desk) : res Desk :=
  match dk_marker d with
  | None => Ok d
  | Some marker =>
      if negb (marker =?s "applying") then Err cutover_invalid else
      let! d1 := update_cutovers (λ c, ct_publication c =?s publicationID)
                   (λ c, set_cutover (ct_listener_ready c) true c) d in
      if sql_exists (λ c, ct_publication c =?s publicationID) (default [] (dk_cutovers d))
      then retireReadyLegacyGatewayCutovers now d1 else Ok d1
  end.

Definition nodeListenerMigrationDNSPending (publicationID : string) (d : Desk) : res bool :=
  match dk_marker d with
  | None => Ok false
  | Some marker =>
      if negb (marker =?s "applying") then Err cutover_invalid else
      match dk_cutovers d with
      | None => Err "SQL logic error: no such table"
      | Some l => match sql_row (λ c, ct_publication c =?s publicationID) l with
                  | Some c => Ok (negb (ct_dns_reconciled c))
                  | None => Ok false
                  end
      end
  end.

Definition completeNodeListenerMigrationDNS (publicationID : string) (d : Desk) : res Desk :=
  update_cutovers (λ c, ct_publication c =?s publicationID)
    (λ c, mk_cutover (ct_publication c) (ct_legacy c) (ct_node c) (ct_listener_ready c) (ct_publication_ready c) true) d.

(** The nodes that replace gateways, queued; an entry that lacks a prerequisite is
    stopped for the operator and counts as handed over. *)
Fixpoint activate_nodes (l : list string) (now : Z) (d : Desk) : res Desk :=
  match l with
  | [] => Ok d
  | nodeID :: l' =>
      match queueNodeListenerState nodeID now d with
      | Built d1 => activate_nodes l' now d1
      | Broken e => Err e
      | Prerequisite cause =>
          let d1 := with_publications (sql_update (of_listener nodeID)
                      (λ p, set_publication (pb_desired p) (pb_applied p) "stopped"
                              ("migration requires action: " +:+ cause) true now p) (dk_publications d)) d in
          let! d2 := update_cutovers (λ c, ct_node c =?s nodeID) (set_cutover true true) d1 in
          activate_nodes l' now d2
      end
  end.

Definition activateMigratedNodeListeners (now : Z) (d : Desk) : res Desk :=
  match dk_marker d with
  | None => Ok d
  | Some marker =>
      if negb (str_in marker ["pending"; "applying"]) then Err "center: node-listener migration marker is invalid"
      else match dk_cutovers d with
      | None => Err (if marker =?s "applying" then "center: node-listener migration cutover table is unavailable"
                     else "SQL logic error: no such table")
      | Some cutovers =>
          if marker =?s "applying" then Ok d else
          let! d1 := activate_nodes (slice_sort (λ a b, a <?s b) (remove_dups (map ct_node cutovers))) now d in
          let! d2 := update_cutovers (λ c, publication_stopped d1 (ct_publication c))
                       (λ c, set_cutover (ct_listener_ready c) true c) d1 in
          match dk_cutovers d2 with
          | Some [] => Ok (finishNodeListenerMigration d2)
          | l => retireReadyLegacyGatewayCutovers now (with_migration (Some "applying") l d2)
          end
      end
  end.

(** *** Tunnel connectors *)
Definition tunnel_cutover_invalid : string := "center: Tunnel connector migration cutover state is invalid".

Definition retireMigratedTunnelConnector (publicationID : string) (now : Z) (d : Desk) : res Desk :=
  match dk_tunnel_marker d with
  | None => Ok d
  | Some marker =>
      if negb (marker =?s "applying") then Err tunnel_cutover_invalid else
      match dk_tunnel_cutovers d with
      | None => Err "SQL logic error: no such table"
      | Some l =>
          match sql_row (λ c, tc_publication c =?s publicationID) l with
          | None => Ok d
          | Some c =>
              let d1 := with_routes (List.filter (λ r, negb (rr_publication r =?s publicationID)) (dk_routes d)) d in
              let! d2 := match dk_components d1 !! tc_legacy c with
                         | Some g => if dr_payload g =?s "running"
                                     then queueGatewayState (tc_legacy c) now d1 else Ok d1
                         | None => Ok d1
                         end in
              let l' := List.filter (λ c, negb (tc_publication c =?s publicationID)) l in
              match l' with
              | [] => Ok (finishTunnelConnectorMigration d2)
              | _ => Ok (with_tunnel_migration (dk_tunnel_marker d2) (Some l') d2)
              end
          end
      end
  end.

Definition activateMigratedTunnelConnectors (d : Desk) : res Desk :=
  match dk_tunnel_marker d with
  | None => Ok d
  | Some marker =>
      if negb (str_in marker ["pending"; "applying"]) then Err "center: Tunnel connector migration marker is invalid"
      else match dk_tunnel_cutovers d with
      | None => Err "center: Tunnel connector migration cutover table is unavailable"
      | Some l =>
          if marker =?s "applying" then Ok d
          else match l with
               | [] => Ok (finishTunnelConnectorMigration d)
               | _ => Ok (with_tunnel_migration (Some "applying") (Some l) d)
               end
      end
  end.

Definition completeTunnelConnectorMigrationReconcile (publicationID : string) (d : Desk) : res Desk :=
  match dk_tunnel_cutovers d with
  | None => Err "SQL logic error: no such table"
  | Some l =>
      let wh c := tc_publication c =?s publicationID in
      if sql_affected wh l =? 1
      then Ok (with_tunnel_migration (dk_tunnel_marker d)
                 (Some (sql_update wh (λ c, mk_tunnel_cutover (tc_publication c) (tc_legacy c) true) l)) d)
      else Err "center: Tunnel connector migration changed while reconciling"
  end.

(** ** Recording results *)

(** [publicationVerificationTarget]: a publication and its revision. *)
Abbreviation target := (string * Z)%type.

(** What a projection does: [None] leaves the tables untouched without calling the
    commit of the execution; otherwise the tables at the commit and the verifications
    to schedule after it. *)
Definition projection := res (option (Desk * list target)).

(** The commit of the execution's own state, which may refuse. *)
Definition committed (commit : Desk → res unit) (d : Desk) (targets : list target) : projection :=
  commit d ;;! Ok (Some (d, targets)).

Definition result_event (succeeded : bool) : string := if succeeded then "succeeded" else "failed".

Definition projectGatewayComponent (commit : Desk → res unit) (agentID : string) (generation expectedAttempt : Z)
    (succeeded : bool) (taskError : string) (now : Z) (d : Desk) : projection :=
  let taskError := short_error taskError in
  match dk_components d !! agentID with
  | None => Err "center: gateway component task not found"
  | Some r =>
      if (generation <? dr_desired r) || (generation <=? dr_applied r) then Ok None
      else if negb (generation =? dr_desired r) || negb (dr_status r =?s "applying")
      then Err "center: gateway component task is not active"
      else if (expectedAttempt <=? 0) || negb (expectedAttempt =? dr_attempt r)
      then Err "center: stale task result" else
      let status := if negb succeeded then "failed"
                    else if dr_payload r =?s "stopped" then "stopped" else "ready" in
      let row := settle_row (if succeeded then generation else dr_applied r) status taskError now r in
      let d1 := with_components (<[agentID := row]> (dk_components d)) d in
      let! d2 := if succeeded && (dr_payload r =?s "running")
                 then match dk_listeners d1 !! agentID with
                      | Some _ => to_res (queueNodeListenerState agentID now d1)
                      | None => Ok d1
                      end
                 else Ok d1 in
      committed commit
        (record_event (gatewayComponentTaskID agentID generation) agentID "gateway.component.apply" generation
           (result_event succeeded) taskError now d2) []
  end.

(** The publications behind the routes of a revision. *)
Definition routed (rows : list route_row) (agentID : string) (revision : route_row → Z) (value : Z)
    (p : publication_row) : bool :=
  existsb (λ r, (rr_publication r =?s pb_id p) && (rr_gateway r =?s agentID) && (revision r =? value)) rows.

Definition gateway_verification (agentID : string) (p : publication_row) : bool :=
  (pb_entry p =?s agentID) && (pb_owner p =?s "site_gateway") && (pb_kind p =?s "public_direct")
  && negb (pb_status p =?s "stopped").

Definition targets_of (wh : publication_row → bool) (d : Desk) : list target :=
  map (λ p, (pb_id p, pb_desired p)) (List.filter wh (dk_publications d)).

(** A publication after its gateway applied it: a failure of managed DNS stays. *)
Definition gateway_applied_publication (now : Z) (p : publication_row) : publication_row :=
  let failed := (pb_status p =?s "failed") && negb (pb_dns p =?s "manual") in
  set_publication (pb_desired p) (pb_desired p)
    (if (pb_kind p =?s "public_direct") && failed then "failed"
     else if str_in (pb_kind p) ["public_direct"; "cloudflare_tunnel"] then "applying" else "ready")
    (if failed then pb_error p else "") (pb_action p) now p.

Definition projectGatewayState (commit : Desk → res unit) (agentID : string) (revision expectedAttempt : Z)
    (succeeded : bool) (taskError : string) (now : Z) (d : Desk) : projection :=
  let taskError := short_error taskError in
  match dk_gateways d !! agentID with
  | None => Err "center: gateway desired state not found"
  | Some r =>
      if revision <=? dr_applied r then Ok None
      else if revision <? dr_desired r then Ok None
      else if negb (revision =? dr_desired r) then Err "center: stale gateway result"
      else if negb (dr_status r =?s "applying") then Err "center: gateway task is not active"
      else if (expectedAttempt <=? 0) || negb (expectedAttempt =? dr_attempt r)
      then Err "center: stale gateway result" else
      let row := if succeeded then settle_row revision "ready" "" now r
                 else settle_row (dr_applied r) "failed" taskError now r in
      let d1 := with_gateways (<[agentID := row]> (dk_gateways d)) d in
      let d2 := with_routes (sql_update (λ x, (rr_gateway x =?s agentID) && (rr_desired x =? revision))
                  (λ x, mk_route_row (rr_gateway x) (rr_publication x) (rr_site x) (rr_desired x)
                          (if succeeded then revision else rr_applied x) (if succeeded then "ready" else "failed")
                          (if succeeded then "" else taskError) (rfc3339nano now)) (dk_routes d1)) d1 in
      let d3 := with_publications
                  (if succeeded
                   then sql_update (routed (dk_routes d2) agentID rr_applied revision)
                          (gateway_applied_publication now) (dk_publications d2)
                   else sql_update (routed (dk_routes d2) agentID rr_desired revision)
                          (λ p, set_publication (pb_desired p) (pb_applied p) "failed" taskError (pb_action p) now p)
                          (dk_publications d2)) d2 in
      let d4 := record_event (gatewayRouteTaskID agentID revision) agentID "gateway.routes.apply" revision
                  (result_event succeeded) taskError now d3 in
      committed commit d4 (if succeeded then targets_of (gateway_verification agentID) d4 else [])
  end.

(** A shared entry after its listener applied it: an outstanding failure of managed DNS
    stays until the verification settles it. *)
Definition listener_applied_publication (now : Z) (p : publication_row) : publication_row :=
  let keep := (pb_dns p =?s "cloudflare") && (pb_status p =?s "failed") && negb (pb_error p =?s "") in
  set_publication (pb_desired p) (pb_desired p) (if keep then pb_status p else "applying")
    (if keep then pb_error p else "") (pb_action p) now p.

Definition listener_verification (nodeID : string) (p : publication_row) : bool :=
  (pb_owner p =?s "application_node") && (pb_entry p =?s nodeID) && (pb_kind p =?s "public_shared_443")
  && str_in (pb_status p) ["applying"; "failed"] && (pb_applied p =? pb_desired p) && negb (pb_action p).

(** [completeReinstallListener].  [task] is the attempt of the reviewed task
    ([reinstallListenerTask]); [running] tells whether its preparation row was running. *)
Definition completeReinstallListener (task : res (option Z)) (running : bool) (commit : Desk → res unit)
    (agentID : string) (revision attempt : Z) (succeeded : bool) (taskError : string) (now : Z) (d : Desk)
    : projection :=
  let! reviewed := task in
  if negb (bool_decide (reviewed = Some attempt)) then Err errExecutionAuthorization else
  match dk_listeners d !! agentID with
  | None => Err errExecutionAuthorization
  | Some r =>
      if negb ((dr_desired r =? revision) && (dr_attempt r =? attempt) && (dr_status r =?s "applying"))
         || negb running
      then Err errExecutionAuthorization else
      let row := settle_row (if succeeded then dr_desired r else dr_applied r)
                   (if succeeded then "ready" else "failed") (if succeeded then "" else taskError) now r in
      committed commit
        (record_event (nodeListenerTaskID agentID revision) agentID "node.listener.apply" revision
           (result_event succeeded) "Entry listener receipt recorded; public access verification remains pending" now
           (with_listeners (<[agentID := row]> (dk_listeners d)) d)) []
  end.

(** [recovering]: the node is being reinstalled, or the task belongs to a recovery,
    whose completion is [reinstallListener]. *)
Definition projectNodeListenerState (recovering : bool) (reinstallListener : Desk → projection)
    (commit : Desk → res unit) (agentID : string) (revision expectedAttempt : Z)
    (succeeded : bool) (taskError : string) (now : Z) (d : Desk) : projection :=
  let taskError := short_error taskError in
  if recovering then reinstallListener d else
  match dk_listeners d !! agentID with
  | None => Err "center: node listener desired state not found"
  | Some r =>
      if (revision <=? dr_applied r) || (revision <? dr_desired r)
         || ((revision =? dr_desired r) && (expectedAttempt <? dr_attempt r)) then Ok None
      else if negb (revision =? dr_desired r) || (dr_attempt r <? expectedAttempt)
      then Err "center: stale node listener result"
      else if negb (dr_status r =?s "applying") then Ok None else
      let! found :=
        if succeeded then
          let d1 := with_listeners (<[agentID := settle_row (dr_desired r) "ready" "" now r]> (dk_listeners d)) d in
          let d2 := with_publications (sql_update (λ p, of_listener agentID p && negb (pb_action p))
                      (listener_applied_publication now) (dk_publications d1)) d1 in
          let! d3 := completeNodeListenerMigrationCutovers agentID now d2 in
          Ok (d3, targets_of (listener_verification agentID) d2)
        else
          let d1 := with_listeners (<[agentID := settle_row (dr_applied r) "failed" taskError now r]>
                                      (dk_listeners d)) d in
          Ok (with_publications (sql_update (of_listener agentID)
                (λ p, set_publication (pb_desired p) (pb_applied p) "failed" taskError (pb_action p) now p)
                (dk_publications d1)) d1, []) in
      committed commit
        (record_event (nodeListenerTaskID agentID revision) agentID "node.listener.apply" revision
           (result_event succeeded) taskError now (fst found)) (snd found)
  end.

Definition projectTunnelState (commit : Desk → res unit) (agentID : string) (revision expectedAttempt : Z)
    (succeeded : bool) (taskError : string) (now : Z) (d : Desk) : projection :=
  let taskError := short_error taskError in
  match dk_tunnels d !! agentID with
  | None => Err "center: Tunnel desired state not found"
  | Some r =>
      if revision <=? dr_applied r then Ok None
      else if (revision <? dr_desired r) || ((revision =? dr_desired r) && (expectedAttempt <? dr_attempt r))
      then Ok None
      else if negb (revision =? dr_desired r) || (dr_attempt r <? expectedAttempt)
      then Err "center: stale Tunnel result"
      else if negb (dr_status r =?s "applying") then Ok None else
      let row := settle_row (if succeeded then revision else dr_applied r)
                   (if succeeded then "ready" else "failed") taskError now r in
      let d1 := with_tunnels (<[agentID := row]> (dk_tunnels d)) d in
      let wh p := of_connector agentID p && (pb_desired p <=? revision) in
      let d2 := with_publications (sql_update wh
                  (λ p, set_publication (pb_desired p) (if succeeded then pb_desired p else pb_applied p)
                          (if succeeded then "applying" else "failed") taskError (pb_action p) now p)
                  (dk_publications d1)) d1 in
      let d3 := record_event (tunnelTaskID agentID revision) agentID "tunnel.state.apply" revision
                  (result_event succeeded) taskError now d2 in
      committed commit d3 (if succeeded then targets_of wh d3 else [])
  end.
End Desired.

(** ** Decisions about a claimed revision

    The statements of tasks.go, execution_disposition.go and execution_confirmation.go
    on these tables; they differ in the table's name only. *)
Inductive decision := Release | Interrupt | Abandon | Requeue | Confirm.

Definition set_status (status error : string) (now : Z) (r : desired_row) : desired_row :=
  mk_desired (dr_desired r) (dr_applied r) (dr_payload r) status (dr_attempt r) "" error (rfc3339nano now).

Definition decide_row (k : decision) (revision attempt now : Z) (r : desired_row) : desired_row :=
  let exact := (dr_desired r =? revision) && (dr_attempt r =? attempt) in
  match k with
  | Release => if exact && (dr_status r =?s "applying") then set_status "pending" (dr_error r) now r else r
  | Interrupt =>
      if (dr_status r =?s "applying") && negb (dr_lease r =?s "") && (dr_lease r <=?s rfc3339nano now)
      then set_status "failed" "Execution interrupted; manual verification required" now r else r
  | Abandon =>
      if exact && str_in (dr_status r) ["applying"; "failed"; "pending"]
      then set_status "failed" (dr_error r) now r else r
  | Requeue =>
      if exact && str_in (dr_status r) ["applying"; "failed"; "pending"]
      then set_status "pending" (dr_error r) now r else r
  | Confirm =>
      if exact && str_in (dr_status r) ["applying"; "failed"]
      then mk_desired (dr_desired r) (dr_applied r) (dr_payload r) "applying" (dr_attempt r) (dr_lease r)
             (dr_error r) (dr_updated r)
      else r
  end.
