(* ===== verification/DesiredSpec.v ===== *)
(** * Desired states converge, and a result belongs to what was claimed

    Every operation of [Desired] moves the rows of the four tables in a few ways; over
    any interleaving the rows stay well formed, no task identity is issued twice while a
    row lives, and a success is recorded for the payload that was issued under its
    revision and attempt. *)
From S2P Require Import Prelude GoText GoTime GoNet Orders TaskIds Networking Gateway GatewaySpec Store Execution.
From S2P Require Import Ingress IngressSpec Desired.

Inductive dtable := TComponent | TGateway | TListener | TTunnel.

#[global] Instance dtable_eq_dec : EqDecision dtable.
Proof. solve_decision. Defined.

Definition rows (t : dtable) (d : Desk) : gmap string desired_row :=
  match t with
  | TComponent => dk_components d | TGateway => dk_gateways d
  | TListener => dk_listeners d | TTunnel => dk_tunnels d
  end.

(** ** Moves of a row *)

(** Moves that issue nothing. *)
Inductive quiet : option desired_row → option desired_row → Prop :=
| quiet_insert r :
    dr_desired r = 1 → dr_applied r = 0 → dr_attempt r = 0 → dr_status r = "pending" →
    quiet None (Some r)
| quiet_queue r r' :
    dr_desired r' = dr_desired r + 1 → dr_applied r' = dr_applied r →
    dr_attempt r' = dr_attempt r ∨ dr_attempt r' = 0 → dr_status r' = "pending" ∨ dr_status r' = "failed" →
    quiet (Some r) (Some r')
| quiet_settle r r' :
    dr_status r = "applying" → dr_desired r' = dr_desired r → dr_payload r' = dr_payload r →
    dr_attempt r' = dr_attempt r →
    dr_applied r' = dr_applied r ∧ dr_status r' = "failed" ∨
    dr_applied r' = dr_desired r ∧ (dr_status r' = "ready" ∨ dr_status r' = "stopped") →
    quiet (Some r) (Some r')
| quiet_created r :
    dr_desired r = 0 → dr_applied r = 0 → dr_attempt r = 0 → dr_status r = "stopped" →
    quiet None (Some r)
| quiet_renewed r r' :
    dr_desired r' = dr_desired r → dr_applied r' = dr_applied r → dr_attempt r' = dr_attempt r →
    dr_payload r' = dr_payload r → dr_status r' = dr_status r → quiet (Some r) (Some r').

(** The rows of every table move quietly. *)
Definition Quiet (d d' : Desk) : Prop := ∀ t id, rtc quiet (rows t d !! id) (rows t d' !! id).

#[global] Instance Quiet_preorder : PreOrder Quiet.
Proof.
  split; [intros d t id; apply rtc_refl|]. intros d1 d2 d3 H1 H2 t id. by etrans; [apply H1|apply H2].
Qed.

Lemma Quiet_same d d' : (∀ t, rows t d' = rows t d) → Quiet d d'.
Proof. intros H t id. by rewrite H. Qed.

(** One row of one table moves. *)
Lemma Quiet_row t id r d d' :
  rows t d' = <[id := r]> (rows t d) → (∀ t', t' ≠ t → rows t' d' = rows t' d) →
  quiet (rows t d !! id) (Some r) → Quiet d d'.
Proof.
  intros Ht Ho Hq t' id'. destruct (decide (t' = t)) as [-> |Hne]; [|by rewrite Ho].
  rewrite Ht. destruct (decide (id' = id)) as [-> |Hid].
  - rewrite lookup_insert_eq. by apply rtc_once.
  - by rewrite lookup_insert_ne.
Qed.

Ltac other_tables := intros []; intros; done.

Section Moves.
Context {U : UrlReader} {GP : GlivelaPort} {Srt : SliceSorter} {Src : Sources} {SH : StateHash}.

Lemma quiet_queue_row m id payload reset now :
  quiet (m !! id) (Some (queue_row (revision_of m id + 1) payload reset now (m !! id))).
Proof.
  unfold revision_of, queue_row. destruct (m !! id) as [r|].
  - apply quiet_queue; cbn; auto. destruct reset; auto.
  - by apply quiet_insert.
Qed.

Lemma queueGatewayState_row id now d d' :
  queueGatewayState id now d = Ok d' →
  ∃ state, desiredGatewayState (src_system d id) (src_routes d id) (revision_of (dk_gateways d) id + 1) = Ok state ∧
    dk_gateways d' = <[id := queue_row (revision_of (dk_gateways d) id + 1) (gateway_Marshal state) false now
                               (dk_gateways d !! id)]> (dk_gateways d) ∧
    (∀ t, t ≠ TGateway → rows t d' = rows t d) ∧ dk_cutovers d' = dk_cutovers d ∧ dk_marker d' = dk_marker d.
Proof.
  unfold queueGatewayState. destruct (desiredGatewayState _ _ _) as [state|]; [|discriminate]. cbn [rbind].
  intros [= <-]. exists state. split_and!; try done; try other_tables.
Qed.

Lemma Quiet_queueGatewayState id now d d' : queueGatewayState id now d = Ok d' → Quiet d d'.
Proof.
  intros (state & _ & Hg & Ho & _)%queueGatewayState_row.
  eapply (Quiet_row TGateway id); [exact Hg|exact Ho|]. apply quiet_queue_row.
Qed.

(** The constructed listener has the revision and the node it is built for. *)
Lemma build_identity rd nodeID revision restore s :
  buildNodeListenerState rd nodeID revision restore = Built s → nl_revision s = revision ∧ nl_node_id s = nodeID.
Proof.
  unfold buildNodeListenerState. destruct (listener_routes _ _ _ _) as [routes| |]; [|discriminate..]. cbn [bbind].
  destruct routes as [|r routes]; [destruct restore; [discriminate|by intros [= <-]]|].
  destruct (negb _); [discriminate|].
  destruct (match restore with Some _ => _ | None => _ end) as [bind| |]; [|discriminate..]. cbn [bbind].
  destruct (_ && _); [discriminate|].
  destruct (validateCenterNodeListenerState _); [|discriminate]. cbn [of_res bbind]. by intros [= <-].
Qed.

Lemma queueNodeListenerState_row id now d d' :
  queueNodeListenerState id now d = Built d' →
  ∃ state, desiredNodeListenerState (src_listener d id) id (revision_of (dk_listeners d) id + 1) = Built state ∧
    validateCenterNodeListenerState state = Ok tt ∧ nl_node_id state = id ∧
    nl_revision state = revision_of (dk_listeners d) id + 1 ∧
    dk_listeners d' = <[id := queue_row (revision_of (dk_listeners d) id + 1) (listener_Marshal state) false now
                                (dk_listeners d !! id)]> (dk_listeners d) ∧
    (∀ t, t ≠ TListener → rows t d' = rows t d) ∧ dk_cutovers d' = dk_cutovers d ∧ dk_marker d' = dk_marker d.
Proof.
  unfold queueNodeListenerState. destruct (desiredNodeListenerState _ _ _) as [s| |] eqn:Eb; [|discriminate..].
  cbn [bbind]. pose proof Eb as Eb'. apply build_identity in Eb as [Er En]. unfold saveNodeListenerState.
  destruct (validateCenterNodeListenerState s) as [[]|] eqn:Ev; [|discriminate]. cbn [rbind of_res]. intros [= <-].
  exists s. split_and!; try done; try other_tables. cbn. by rewrite En, Er.
Qed.

Lemma Quiet_queueNodeListenerState id now d d' : queueNodeListenerState id now d = Built d' → Quiet d d'.
Proof.
  intros (state & _ & _ & _ & _ & Hg & Ho & _)%queueNodeListenerState_row.
  eapply (Quiet_row TListener id); [exact Hg|exact Ho|]. apply quiet_queue_row.
Qed.

Lemma to_res_ok {A} (b : built A) a : to_res b = Ok a → b = Built a.
Proof. destruct b; cbn; congruence. Qed.

Lemma Quiet_queueTunnelState id now d d' : queueTunnelState id now d = Ok d' → Quiet d d'.
Proof.
  unfold queueTunnelState. destruct (dk_tunnels d !! id) as [r|] eqn:E; [|discriminate].
  destruct (tunnelIngressForNode _ _); [|discriminate]. cbn [rbind]. intros [= <-].
  eapply (Quiet_row TTunnel id); [reflexivity|other_tables|]. cbn. rewrite E. apply quiet_queue; cbn; auto.
Qed.

Lemma Quiet_select_gateway site id now d : Quiet d (select_gateway site id now d).
Proof.
  unfold select_gateway. eapply (Quiet_row TComponent id); [reflexivity|other_tables|]. cbn.
  destruct (dk_components d !! id) as [r|]; [apply quiet_queue; cbn; auto|by apply quiet_insert].
Qed.

Lemma Quiet_unhealthy id now d d' : queueUnhealthyGatewayReconcile id now d = Ok d' → Quiet d d'.
Proof.
  unfold queueUnhealthyGatewayReconcile. destruct (dk_gateways d !! id) as [r|].
  - destruct (_ || _); [by intros [= <-]|apply Quiet_queueGatewayState].
  - destruct (dk_components d !! id) as [r|] eqn:E; [|by intros [= <-]].
    destruct (_ && _); [|by intros [= <-]]. intros [= <-].
    eapply (Quiet_row TComponent id); [reflexivity|other_tables|]. cbn. rewrite E. apply quiet_queue; cbn; auto.
Qed.

Lemma Quiet_mismatched id revision hash now d d' :
  queueMismatchedGatewayReconcile id revision hash now d = Ok d' → Quiet d d'.
Proof.
  unfold queueMismatchedGatewayReconcile. destruct (dk_gateways d !! id); [|by intros [= <-]].
  destruct (_ || _); [by intros [= <-]|]. destruct (gateway_Unmarshal _); [|discriminate].
  destruct (_ || _); [discriminate|]. destruct (gatewayCertificates _ _ _); [|discriminate]. cbn [rbind].
  destruct (ConfigurationHash _ _); [|discriminate]. cbn [rbind].
  destruct (_ && _); [by intros [= <-]|apply Quiet_queueGatewayState].
Qed.

Lemma Quiet_mismatched_listener id healthy revision hash now d d' :
  queueMismatchedNodeListenerReconcile id healthy revision hash now d = Ok d' → Quiet d d'.
Proof.
  unfold queueMismatchedNodeListenerReconcile. destruct (dk_listeners d !! id); [|by intros [= <-]].
  destruct (_ || _); [by intros [= <-]|]. destruct (listener_Unmarshal _); [|discriminate].
  destruct (_ || _); [discriminate|]. destruct (NodeListenerConfigurationHash _); [|discriminate]. cbn [rbind].
  destruct (_ && _); [by intros [= <-]|]. intros H%to_res_ok%Quiet_queueNodeListenerState.
  etrans; [|exact H]. apply Quiet_same. by intros [].
Qed.

(** *** The migrations *)
Lemma Quiet_retire_gateways l now d d' : retire_gateways l now d = Ok d' → Quiet d d'.
Proof.
  revert d. induction l as [|g l IH]; intros d; cbn [retire_gateways]; [by intros [= <-]|].
  destruct (match dk_components d !! g with Some _ => _ | None => _ end) as [d1|] eqn:E; [|discriminate]. cbn [rbind].
  intros H%IH. transitivity d1.
  - destruct (dk_components d !! g) as [c|]; [|by injection E as <-].
    destruct (_ =?s "running"); [by eapply Quiet_queueGatewayState|by injection E as <-].
  - etrans; [|exact H]. apply Quiet_same. by intros [].
Qed.

Lemma Quiet_retireReady now d d' : retireReadyLegacyGatewayCutovers now d = Ok d' → Quiet d d'.
Proof.
  unfold retireReadyLegacyGatewayCutovers. destruct (dk_cutovers d); [|discriminate].
  destruct (retire_gateways _ _ _) as [d1|] eqn:E; [|discriminate]. cbn [rbind].
  apply Quiet_retire_gateways in E.
  assert (Quiet d1 (finishNodeListenerMigration d1)) as Hf by (apply Quiet_same; by intros []).
  destruct (dk_cutovers d1) as [[|]|]; intros [= <-]; [by etrans|done|done].
Qed.

Lemma Quiet_update_cutovers wh f d d' : update_cutovers wh f d = Ok d' → Quiet d d'.
Proof.
  unfold update_cutovers. destruct (dk_cutovers d); [|discriminate]. intros [= <-]. apply Quiet_same. by intros [].
Qed.

Lemma Quiet_cutovers id now d d' : completeNodeListenerMigrationCutovers id now d = Ok d' → Quiet d d'.
Proof.
  unfold completeNodeListenerMigrationCutovers. destruct (dk_marker d); [|by intros [= <-]].
  destruct (negb _); [discriminate|]. destruct (update_cutovers _ _ _) as [d1|] eqn:E; [|discriminate]. cbn [rbind].
  intros H%Quiet_retireReady. etrans; [by eapply Quiet_update_cutovers|exact H].
Qed.

(** The migrations leave the listeners alone. *)
Lemma retire_listeners l now d d' : retire_gateways l now d = Ok d' → dk_listeners d' = dk_listeners d.
Proof.
  revert d. induction l as [|g l IH]; intros d; cbn [retire_gateways]; [by intros [= <-]|].
  destruct (match dk_components d !! g with Some _ => _ | None => _ end) as [d1|] eqn:E; [|discriminate]. cbn [rbind].
  intros ->%IH. cbn. destruct (dk_components d !! g) as [c|]; [|by injection E as <-].
  destruct (_ =?s "running"); [|by injection E as <-].
  apply queueGatewayState_row in E as (_ & _ & _ & Ho & _). by apply (Ho TListener).
Qed.

Lemma cutovers_listeners id now d d' :
  completeNodeListenerMigrationCutovers id now d = Ok d' → dk_listeners d' = dk_listeners d.
Proof.
  unfold completeNodeListenerMigrationCutovers. destruct (dk_marker d); [|by intros [= <-]].
  destruct (negb _); [discriminate|]. unfold update_cutovers. destruct (dk_cutovers d); [|discriminate].
  cbn [rbind]. unfold retireReadyLegacyGatewayCutovers. cbn [dk_cutovers with_migration].
  destruct (retire_gateways _ _ _) as [d1|] eqn:E; [|discriminate]. cbn [rbind]. apply retire_listeners in E.
  destruct (dk_cutovers d1) as [[|]|]; intros [= <-]; done.
Qed.

Lemma Quiet_cutover_publication id now d d' :
  completeNodeListenerMigrationPublication id now d = Ok d' → Quiet d d'.
Proof.
  unfold completeNodeListenerMigrationPublication. destruct (dk_marker d); [|by intros [= <-]].
  destruct (negb _); [discriminate|]. destruct (update_cutovers _ _ _) as [d1|] eqn:E; [|discriminate]. cbn [rbind].
  apply Quiet_update_cutovers in E. destruct (sql_exists _ _); [|by intros [= <-]].
  intros H%Quiet_retireReady. by etrans.
Qed.

Lemma Quiet_activate_nodes l now d d' : activate_nodes l now d = Ok d' → Quiet d d'.
Proof.
  revert d. induction l as [|n l IH]; intros d; cbn [activate_nodes]; [by intros [= <-]|].
  destruct (queueNodeListenerState n now d) as [d1|cause|e] eqn:E; [| |discriminate].
  - intros H%IH. etrans; [by eapply Quiet_queueNodeListenerState|exact H].
  - destruct (update_cutovers _ _ _) as [d2|] eqn:E2; [|discriminate]. cbn [rbind]. intros H%IH.
    apply Quiet_update_cutovers in E2. etrans; [|exact H]. etrans; [|exact E2]. apply Quiet_same. by intros [].
Qed.

Lemma Quiet_activate now d d' : activateMigratedNodeListeners now d = Ok d' → Quiet d d'.
Proof.
  unfold activateMigratedNodeListeners. destruct (dk_marker d) as [m|]; [|by intros [= <-]].
  destruct (negb _); [discriminate|]. destruct (dk_cutovers d); [|discriminate].
  destruct (m =?s "applying"); [by intros [= <-]|].
  destruct (activate_nodes _ _ _) as [d1|] eqn:E1; [|discriminate]. cbn [rbind].
  destruct (update_cutovers _ _ _) as [d2|] eqn:E2; [|discriminate]. cbn [rbind].
  apply Quiet_activate_nodes in E1. apply Quiet_update_cutovers in E2.
  assert (∀ m l, Quiet d2 (with_migration m l d2)) as Hm by (intros; apply Quiet_same; by intros []).
  destruct (dk_cutovers d2) as [[|c l']|]; [intros [= <-]|intros H%Quiet_retireReady..];
    (etrans; [exact E1|]; etrans; [exact E2|]; [apply Hm || (etrans; [apply Hm|exact H])]).
Qed.

Lemma Quiet_retireTunnel id now d d' : retireMigratedTunnelConnector id now d = Ok d' → Quiet d d'.
Proof.
  unfold retireMigratedTunnelConnector. destruct (dk_tunnel_marker d); [|by intros [= <-]].
  destruct (negb _); [discriminate|]. destruct (dk_tunnel_cutovers d) as [l|]; [|discriminate].
  destruct (sql_row _ _) as [c|]; [|by intros [= <-]].
  set (d1 := with_routes _ d). assert (Quiet d d1) as H1 by (apply Quiet_same; by intros []).
  destruct (match dk_components d1 !! _ with Some _ => _ | None => _ end) as [d2|] eqn:E; [|discriminate]. cbn [rbind].
  assert (Quiet d1 d2) as H2.
  { destruct (dk_components d1 !! _) as [g|]; [|by injection E as <-].
    destruct (_ =?s "running"); [by eapply Quiet_queueGatewayState|by injection E as <-]. }
  assert (∀ m l, Quiet d2 (with_tunnel_migration m l d2)) as Hm by (intros; apply Quiet_same; by intros []).
  destruct (List.filter _ l); intros [= <-]; (etrans; [exact H1|]; etrans; [exact H2|]; apply Hm).
Qed.

(** *** The other writers *)
Lemma Quiet_runtime deployments id generation now d d' :
  queueApplicationRuntimeMigration deployments id generation now d = Ok d' → Quiet d d'.
Proof.
  unfold queueApplicationRuntimeMigration. cbv zeta. destruct deployments as [[]|]; [|discriminate]. cbn [rbind].
  lazymatch goal with |- rbind ?m _ = _ → _ => destruct m as [d1|] eqn:E1; [|discriminate] end. cbn [rbind].
  lazymatch goal with |- rbind ?m _ = _ → _ => destruct m as [d2|] eqn:E2; [|discriminate] end. cbn [rbind].
  intros E3. transitivity d1; [|transitivity d2].
  - destruct (dk_components d !! id) as [r|] eqn:Er; [|by injection E1 as <-].
    destruct (_ && _); [|by injection E1 as <-]. apply Quiet_queueGatewayState in E1. etrans; [|exact E1].
    eapply (Quiet_row TComponent id); [reflexivity|other_tables|]. cbn. rewrite Er. apply quiet_queue; cbn; auto.
  - destruct (dk_listeners d1 !! id) as [r|]; [|by injection E2 as <-].
    destruct (_ && _); [|by injection E2 as <-]. by eapply Quiet_queueNodeListenerState, to_res_ok.
  - destruct (dk_tunnels d2 !! id) as [r|]; [|by injection E3 as <-].
    destruct (_ && _); [|by injection E3 as <-]. by eapply Quiet_queueTunnelState.
Qed.

Lemma Quiet_save_tunnel id now d d' : save_tunnel id now d = Ok d' → Quiet d d'.
Proof.
  unfold save_tunnel. destruct (dk_tunnels d !! id) eqn:E; [discriminate|]. intros [= <-].
  eapply (Quiet_row TTunnel id); [reflexivity|other_tables|]. cbn. rewrite E. by apply quiet_created.
Qed.

Lemma Quiet_restore reviewed prepared id now d d' :
  QueueAgentReinstallListener reviewed prepared id now d = Ok d' → Quiet d d'.
Proof.
  unfold QueueAgentReinstallListener. destruct (reviewed d) as [target|]; [|discriminate]. cbn [rbind].
  destruct (_ || _); [discriminate|].
  destruct (to_res _) as [state|] eqn:Eb; [|discriminate]. apply to_res_ok, build_identity in Eb as [Er En].
  cbn [rbind]. unfold saveNodeListenerState. destruct (validateCenterNodeListenerState state) as [[]|]; [|discriminate].
  cbn [rbind]. destruct (prepared _) as [[]|]; [|discriminate]. cbn [rbind]. intros [= <-].
  subst id. eapply (Quiet_row TListener (nl_node_id state)); [reflexivity|other_tables|].
  rewrite Er. cbn [rows]. apply quiet_queue_row.
Qed.

(** The first guard of a function that succeeded. *)
Ltac passed G :=
  lazymatch goal with |- (if ?b then _ else _) = _ → _ => destruct b eqn:G; [discriminate|] end.

(** *** Results *)

(** A result settles the row of exactly its revision and attempt. *)
Definition settles (t : dtable) (id : string) (revision attempt : Z) (succeeded : bool) (d d' : Desk) : Prop :=
  ∃ r d1 r1, rows t d !! id = Some r ∧ dr_status r = "applying" ∧ dr_desired r = revision ∧ dr_attempt r = attempt ∧
    rows t d1 = <[id := r1]> (rows t d) ∧ (∀ t', t' ≠ t → rows t' d1 = rows t' d) ∧
    dr_desired r1 = revision ∧ dr_payload r1 = dr_payload r ∧ dr_attempt r1 = attempt ∧
    dr_applied r1 = (if succeeded then revision else dr_applied r) ∧
    (if succeeded then dr_status r1 = "ready" ∨ dr_status r1 = "stopped" else dr_status r1 = "failed") ∧
    Quiet d1 d' ∧ rows t d' !! id = Some r1.

Lemma settles_quiet t id revision attempt succeeded d d' :
  settles t id revision attempt succeeded d d' → Quiet d d'.
Proof.
  intros (r & d1 & r1 & Hr & Hs & Hd & Ha & H1 & Ho & E1 & E2 & E3 & E4 & E5 & Hq & _).
  etrans; [|exact Hq]. eapply (Quiet_row t id); [exact H1|exact Ho|]. rewrite Hr.
  apply quiet_settle; try congruence. destruct succeeded; [right; split; [congruence|done]|left; done].
Qed.

Lemma committed_ok commit d targets d' targets' :
  committed commit d targets = Ok (Some (d', targets')) → d' = d ∧ targets' = targets.
Proof. unfold committed. destruct (commit d) as [[]|]; [|discriminate]. cbn. intros H. split; congruence. Qed.

Ltac settled_row r d1 r1 :=
  exists r, d1, r1; split_and!; try done; try lia; try other_tables;
  try (etrans; [eassumption|]; apply Quiet_same; by intros []); try (apply Quiet_same; by intros []).

Lemma projectGatewayComponent_settles commit id generation attempt succeeded e now d d' targets :
  projectGatewayComponent commit id generation attempt succeeded e now d = Ok (Some (d', targets)) →
  settles TComponent id generation attempt succeeded d d'.
Proof.
  unfold projectGatewayComponent. destruct (dk_components d !! id) as [r|] eqn:Er; [|discriminate].
  passed G1. passed G2.
  passed G3. bool_prop. subst.
  set (r1 := settle_row _ _ _ _ r). set (d1 := with_components _ d).
  destruct (if succeeded && _ then _ else _) as [d2|] eqn:E2; [|discriminate]. cbn [rbind].
  intros [-> _]%committed_ok.
  assert (Quiet d1 d2 ∧ dk_components d2 = dk_components d1) as [Hq Hc].
  { destruct (succeeded && _); [|by injection E2 as <-].
    destruct (dk_listeners d1 !! id); [|by injection E2 as <-]. apply to_res_ok in E2.
    split; [by eapply Quiet_queueNodeListenerState|].
    apply queueNodeListenerState_row in E2 as (st & _ & _ & _ & _ & _ & Ho & _). by apply (Ho TComponent). }
  settled_row r d1 r1; cbn.
  - destruct succeeded; [|done]. cbn. destruct (_ =?s "stopped"); auto.
  - rewrite Hc. apply lookup_insert_eq.
Qed.

Lemma projectGatewayState_settles commit id revision attempt succeeded e now d d' targets :
  projectGatewayState commit id revision attempt succeeded e now d = Ok (Some (d', targets)) →
  settles TGateway id revision attempt succeeded d d'.
Proof.
  unfold projectGatewayState. destruct (dk_gateways d !! id) as [r|] eqn:Er; [|discriminate].
  passed G0. passed G1.
  passed G2. passed G3.
  passed G4. bool_prop. subst.
  set (r1 := if succeeded then settle_row _ _ _ _ _ else settle_row _ _ _ _ _). set (d1 := with_gateways _ d).
  intros [-> _]%committed_ok.
  settled_row r d1 r1; try (subst r1; by destruct succeeded); cbn.
  - subst r1. destruct succeeded; cbn; auto.
  - apply lookup_insert_eq.
Qed.

Lemma projectTunnelState_settles commit id revision attempt succeeded e now d d' targets :
  projectTunnelState commit id revision attempt succeeded e now d = Ok (Some (d', targets)) →
  settles TTunnel id revision attempt succeeded d d'.
Proof.
  unfold projectTunnelState. destruct (dk_tunnels d !! id) as [r|] eqn:Er; [|discriminate].
  passed G0. passed G1.
  passed G2. passed G3. bool_prop. subst.
  assert (dr_attempt r = attempt) as Ha.
  { rewrite Z.eqb_refl in *. cbn [andb] in *. bool_prop. lia. }
  set (r1 := settle_row _ _ _ _ r). set (d1 := with_tunnels _ d).
  intros [-> _]%committed_ok.
  settled_row r d1 r1; cbn.
  - destruct succeeded; cbn; auto.
  - apply lookup_insert_eq.
Qed.

Lemma completeReinstallListener_settles task running commit id revision attempt succeeded e now d d' targets :
  completeReinstallListener task running commit id revision attempt succeeded e now d = Ok (Some (d', targets)) →
  settles TListener id revision attempt succeeded d d'.
Proof.
  unfold completeReinstallListener. destruct task as [k|]; [|discriminate]. cbn [rbind]. passed G0.
  destruct (dk_listeners d !! id) as [r|] eqn:Er; [|discriminate]. passed G1. bool_prop. subst.
  set (r1 := settle_row _ _ _ now r). set (d1 := with_listeners _ d). intros [-> _]%committed_ok.
  settled_row r d1 r1; cbn.
  - destruct succeeded; cbn; auto.
  - apply lookup_insert_eq.
Qed.

Lemma projectNodeListenerState_settles reinstall commit id revision attempt succeeded e now d d' targets :
  projectNodeListenerState false reinstall commit id revision attempt succeeded e now d = Ok (Some (d', targets)) →
  settles TListener id revision attempt succeeded d d'.
Proof.
  unfold projectNodeListenerState. destruct (dk_listeners d !! id) as [r|] eqn:Er; [|discriminate].
  passed G1.
  passed G2. passed G3. bool_prop. subst.
  assert (dr_attempt r = attempt) as Ha.
  { rewrite Z.eqb_refl in *. cbn [andb] in *. bool_prop. lia. }
  set (r1 := settle_row (if succeeded then dr_desired r else dr_applied r) (if succeeded then "ready" else "failed")
               (if succeeded then "" else short_error e) now r).
  set (d1 := with_listeners (<[id := r1]> (dk_listeners d)) d).
  lazymatch goal with |- rbind ?m _ = _ → _ => destruct m as [[d3 ts]|] eqn:E; [|discriminate] end. cbn [rbind fst snd].
  intros [-> _]%committed_ok.
  assert (Quiet d1 d3 ∧ dk_listeners d3 = dk_listeners d1) as [Hq Hc].
  { destruct succeeded; [|injection E as <- _; split; [apply Quiet_same; by intros []|done]].
    destruct (completeNodeListenerMigrationCutovers _ _ _) as [d3'|] eqn:Em; [|discriminate]. cbn [rbind] in E.
    injection E as <- _. split.
    - apply Quiet_cutovers in Em. etrans; [|exact Em]. apply Quiet_same. by intros [].
    - by rewrite (cutovers_listeners _ _ _ _ Em). }
  settled_row r d1 r1; cbn.
  - destruct succeeded; cbn; auto.
  - rewrite Hc. apply lookup_insert_eq.
Qed.
End Moves.

(** ** Runs *)

(** A task that was issued: its table and node, its revision and attempt, and the
    stored payload it was made from. *)
Record issue := mk_issue {
  is_table : dtable; is_node : string; is_revision : Z; is_attempt : Z; is_payload : string
}.
Definition identity (i : issue) : dtable * string * Z * Z :=
  (is_table i, is_node i, is_revision i, is_attempt i).

(** The identifier and attempt under which an execution of the task is stored. *)
Definition task_identity (t : dtable) (node : string) (revision : Z) : string :=
  match t with
  | TComponent => gatewayComponentTaskID node revision | TGateway => gatewayRouteTaskID node revision
  | TListener => nodeListenerTaskID node revision | TTunnel => tunnelTaskID node revision
  end.

Section Runs.
Context {U : UrlReader} {GP : GlivelaPort} {Srt : SliceSorter} {Src : Sources} {SH : StateHash}.

Definition claim (t : dtable) : string → Z → Desk → res (option (desired_task * Desk)) :=
  match t with
  | TComponent => claim_component | TGateway => claim_routes
  | TListener => claimNodeListenerTask | TTunnel => claimTunnelTask
  end.

(** A row that is claimed. *)
Lemma claim_spec t id now d task d' :
  claim t id now d = Ok (Some (task, d')) →
  ∃ r, rows t d !! id = Some r ∧ claimable r = true ∧
    rows t d' = <[id := claim_row now r]> (rows t d) ∧ (∀ t', t' ≠ t → rows t' d' = rows t' d) ∧
    dt_revision task = dr_desired r ∧ dt_attempt task = dr_attempt r + 1 ∧
    dt_id task = task_identity t id (dr_desired r).
Proof.
  assert (∀ {A} (x y : A), Ok (Some x) = Ok (Some y) → x = y) as Hinj by (intros ? ? ? [= ->]; done).
  destruct t; cbn [claim rows task_identity].
  - unfold claim_component. destruct (dk_components d !! id) as [r|]; [|discriminate].
    destruct (claimable r) eqn:Ec; [|discriminate]. cbn [negb]. intros [= <- <-]%Hinj.
    exists r. split_and!; try done. other_tables.
  - unfold claim_routes. destruct (dk_gateways d !! id) as [r|]; [|discriminate].
    destruct (dk_components d !! id); [|discriminate]. destruct (claimable r) eqn:Ec; [|discriminate]. cbn [negb orb].
    destruct (_ || _); [discriminate|]. destruct (gateway_Unmarshal _); [|discriminate].
    destruct (_ || _); [discriminate|]. destruct (gatewayCertificates _ _ _); [|discriminate]. cbn [rbind].
    intros [= <- <-]%Hinj. exists r. split_and!; try done. other_tables.
  - unfold claimNodeListenerTask. destruct (dk_listeners d !! id) as [r|]; [|discriminate].
    destruct (claimable r) eqn:Ec; [|discriminate]. cbn [negb]. destruct (listener_Unmarshal _); [|discriminate].
    destruct (_ || _); [discriminate|]. intros [= <- <-]%Hinj. exists r. split_and!; try done. other_tables.
  - unfold claimTunnelTask. destruct (dk_tunnels d !! id) as [r|]; [|discriminate].
    destruct (claimable r) eqn:Ec; [|discriminate]. cbn [negb]. destruct (tunnel_Unmarshal _); [|discriminate].
    destruct (_ || _); [discriminate|]. destruct (tunnel_token _); [|discriminate]. cbn [rbind].
    intros [= <- <-]%Hinj. exists r. split_and!; try done. other_tables.
Qed.

(** The result of a task.  A listener of a node that is being restored ([recovery]: the
    reviewed attempt and whether it is running) has its own completion. *)
Definition project (t : dtable) (recovery : option (res (option Z) * bool)) (commit : Desk → res unit)
    (id : string) (revision attempt : Z)
    (succeeded : bool) (e : string) (now : Z) (d : Desk) : projection :=
  match t with
  | TComponent => projectGatewayComponent commit id revision attempt succeeded e now d
  | TGateway => projectGatewayState commit id revision attempt succeeded e now d
  | TListener =>
      projectNodeListenerState (is_Some_b recovery)
        (match recovery with
         | Some (task, running) =>
             completeReinstallListener task running commit id revision attempt succeeded (short_error e) now
         | None => λ _, Ok None
         end) commit id revision attempt succeeded e now d
  | TTunnel => projectTunnelState commit id revision attempt succeeded e now d
  end.

Lemma project_settles t recovery commit id revision attempt succeeded e now d d' targets :
  project t recovery commit id revision attempt succeeded e now d = Ok (Some (d', targets)) →
  settles t id revision attempt succeeded d d'.
Proof.
  destruct t; [apply projectGatewayComponent_settles|apply projectGatewayState_settles
              |destruct recovery as [[task running]|]|apply projectTunnelState_settles].
  - apply completeReinstallListener_settles.
  - apply projectNodeListenerState_settles.
Qed.

(** The tasks whose row still lives. *)
Definition living (d : Desk) (I : list issue) : list issue :=
  List.filter (λ i, is_Some_b (rows (is_table i) d !! is_node i)) I.

(** The operations of the Center on these tables, in any order, with the tasks that were
    issued while their row lived: removing a gateway deletes the row of its routes, and
    deleting a node all of its rows.  A decision concerns a task that was issued. *)
Inductive desk_step : Desk * list issue → Desk * list issue → Prop :=
| step_queue_gateway id now d d' I : queueGatewayState id now d = Ok d' → desk_step (d, I) (d', I)
| step_queue_listener id now d d' I : queueNodeListenerState id now d = Built d' → desk_step (d, I) (d', I)
| step_queue_tunnel id now d d' I : queueTunnelState id now d = Ok d' → desk_step (d, I) (d', I)
| step_select site id now d I : desk_step (d, I) (select_gateway site id now d, I)
| step_unhealthy id now d d' I : queueUnhealthyGatewayReconcile id now d = Ok d' → desk_step (d, I) (d', I)
| step_mismatched id revision hash now d d' I :
    queueMismatchedGatewayReconcile id revision hash now d = Ok d' → desk_step (d, I) (d', I)
| step_listener_mismatched id healthy revision hash now d d' I :
    queueMismatchedNodeListenerReconcile id healthy revision hash now d = Ok d' → desk_step (d, I) (d', I)
| step_activate now d d' I : activateMigratedNodeListeners now d = Ok d' → desk_step (d, I) (d', I)
| step_cutover id now d d' I :
    completeNodeListenerMigrationPublication id now d = Ok d' → desk_step (d, I) (d', I)
| step_tunnel_cutover id now d d' I : retireMigratedTunnelConnector id now d = Ok d' → desk_step (d, I) (d', I)
| step_runtime deployments id generation now d d' I :
    queueApplicationRuntimeMigration deployments id generation now d = Ok d' → desk_step (d, I) (d', I)
| step_save_tunnel id now d d' I : save_tunnel id now d = Ok d' → desk_step (d, I) (d', I)
| step_restore reviewed prepared id now d d' I :
    QueueAgentReinstallListener reviewed prepared id now d = Ok d' → desk_step (d, I) (d', I)
| step_other d d' I : (∀ t, rows t d' = rows t d) → desk_step (d, I) (d', I)
| step_renew t id r lease updated d d' I :
    rows t d !! id = Some r →
    rows t d' = <[id := mk_desired (dr_desired r) (dr_applied r) (dr_payload r) (dr_status r) (dr_attempt r) lease
                          (dr_error r) updated]> (rows t d) →
    (∀ t', t' ≠ t → rows t' d' = rows t' d) → desk_step (d, I) (d', I)
| step_deselect site id now d d' I : deselect_gateway site id now d = Ok d' → desk_step (d, I) (d', living d' I)
| step_delete id d d' I : (∀ t, rows t d' = delete id (rows t d)) → desk_step (d, I) (d', living d' I)
| step_claim t id now d task d' r I :
    claim t id now d = Ok (Some (task, d')) → rows t d !! id = Some r →
    desk_step (d, I) (d', mk_issue t id (dt_revision task) (dt_attempt task) (dr_payload r) :: I)
| step_result t recovery commit id revision attempt succeeded e now d d' targets I :
    project t recovery commit id revision attempt succeeded e now d = Ok (Some (d', targets)) → desk_step (d, I) (d', I)
| step_decide t id k revision attempt now r d d' I i :
    i ∈ I → identity i = (t, id, revision, attempt) → rows t d !! id = Some r →
    rows t d' = <[id := decide_row k revision attempt now r]> (rows t d) →
    (∀ t', t' ≠ t → rows t' d' = rows t' d) → desk_step (d, I) (d', I).

Abbreviation runs := (rtc desk_step).

(** ** The invariant *)
Record row_ok (t : dtable) (id : string) (I : list issue) (r : desired_row) : Prop := mk_row_ok {
  ok_revisions : 0 <= dr_applied r <= dr_desired r;
  ok_attempt : 0 <= dr_attempt r;
  ok_open : dr_status r = "pending" ∨ dr_status r = "failed" ∨ dr_status r = "applying" →
    dr_applied r < dr_desired r;
  ok_applying : dr_status r = "applying" →
    mk_issue t id (dr_desired r) (dr_attempt r) (dr_payload r) ∈ I;
  ok_issued : ∀ i, i ∈ I → is_table i = t → is_node i = id →
    is_revision i < dr_desired r ∨
    is_revision i = dr_desired r ∧ is_attempt i <= dr_attempt r ∧ is_payload i = dr_payload r
}.

Record desk_ok (s : Desk * list issue) : Prop := mk_desk_ok {
  ok_rows : ∀ t id r, rows t (fst s) !! id = Some r → row_ok t id (snd s) r;
  ok_present : ∀ i, i ∈ snd s → is_Some (rows (is_table i) (fst s) !! is_node i);
  ok_unique : NoDup (map identity (snd s))
}.

(** A quiet move keeps a row in order; an inserted row has no issues. *)
Lemma quiet_ok t id I o o' :
  quiet o o' → (∀ r, o = Some r → row_ok t id I r) →
  (o = None → ∀ i, i ∈ I → is_table i = t → is_node i ≠ id) →
  (∀ r, o' = Some r → row_ok t id I r) ∧ is_Some o'.
Proof.
  intros Hq Ho Hn. destruct Hq as [r E1 E2 E3 E4|r r' E1 E2 E3 E4|r r' E0 E1 E2 E3 E4|r E1 E2 E3 E4|r r' E1 E2 E3 E4 E5];
    (split; [|by eauto]).
  - intros ? [= <-]. split; [lia|lia|lia|by rewrite E4|]. intros i Hi Ht Hid. by destruct (Hn eq_refl i Hi Ht).
  - intros ? [= <-]. destruct (Ho r eq_refl) as [R1 R2 R3 R4 R5]. split; [lia|destruct E3; lia|lia| |].
    + destruct E4 as [-> | ->]; discriminate.
    + intros i Hi Ht Hid. left. destruct (R5 i Hi Ht Hid) as [?|(? & _)]; lia.
  - intros ? [= <-]. destruct (Ho r eq_refl) as [R1 R2 R3 R4 R5]. specialize (R3 ltac:(auto)).
    split; rewrite ?E1, ?E2, ?E3; [destruct E4 as [[-> _]|[-> _]]; lia|lia| | |done].
    + destruct E4 as [[-> _]|[-> [-> | ->]]]; [lia|naive_solver..].
    + destruct E4 as [[_ ->]|[_ [-> | ->]]]; discriminate.
  - intros ? [= <-]. split; rewrite ?E1, ?E2, ?E3, ?E4; [lia|lia|naive_solver|discriminate|].
    intros i Hi Ht Hid. by destruct (Hn eq_refl i Hi Ht).
  - intros ? [= <-]. destruct (Ho r eq_refl) as [R1 R2 R3 R4 R5].
    split; rewrite ?E1, ?E2, ?E3, ?E4, ?E5; auto.
Qed.

Lemma Quiet_ok d d' I : Quiet d d' → desk_ok (d, I) → desk_ok (d', I).
Proof.
  intros Hq [O1 O2 O3]. cbn in *.
  assert (∀ t id, (∀ r, rows t d' !! id = Some r → row_ok t id I r) ∧
    (is_Some (rows t d !! id) → is_Some (rows t d' !! id))) as H.
  { intros t id. specialize (Hq t id).
    assert (∀ r, rows t d !! id = Some r → row_ok t id I r) as Hr by (intros r; apply O1).
    assert (rows t d !! id = None → ∀ i, i ∈ I → is_table i = t → is_node i ≠ id) as Hn.
    { intros E i Hi <- <-. destruct (O2 i Hi) as [r Hi']. congruence. }
    revert Hr Hn. induction Hq as [o|o o1 o2 H1 H2 IH]; [done|]. intros Hr Hn.
    destruct (quiet_ok t id I _ _ H1 Hr Hn) as [Hr1 [r1 E1]].
    destruct IH as [Hr2 Hs]; [done|congruence|]. split; [done|]. intros _. apply Hs. by exists r1. }
  split; cbn; [intros t id; apply H|intros i Hi; by apply H, O2|done].
Qed.

(** Rows that are deleted take their tasks with them. *)
Lemma living_ok d d' I :
  (∀ t id r, rows t d' !! id = Some r → rows t d !! id = Some r) → desk_ok (d, I) → desk_ok (d', living d' I).
Proof.
  intros Hs [O1 O2 O3]. cbn in *.
  assert (∀ i, i ∈ living d' I ↔ i ∈ I ∧ is_Some (rows (is_table i) d' !! is_node i)) as Hl.
  { intros i. unfold living. rewrite list_elem_of_In, filter_In, <- list_elem_of_In.
    destruct (rows (is_table i) d' !! is_node i); cbn; [by split; intros [? ?]; eauto|].
    split; [intros [_ ?]; discriminate|intros [_ [? ?]]; discriminate]. }
  split; cbn [fst snd].
  - intros t id r Hr. destruct (O1 t id r (Hs t id r Hr)) as [R1 R2 R3 R4 R5]. split; try done.
    + intros Ha. apply Hl. split; [auto|]. cbn. by eauto.
    + intros i [Hi _]%Hl. auto.
  - intros i [_ Hi]%Hl. done.
  - clear -O3. induction I as [|i I IH]; [done|]. cbn in *. apply NoDup_cons in O3 as [Hn Hd].
    destruct (is_Some_b _); [|auto]. cbn. apply NoDup_cons. split; [|auto]. intros Hin. apply Hn.
    apply list_elem_of_fmap in Hin as (x & -> & Hx%list_elem_of_In). apply filter_In in Hx as [Hx _].
    apply list_elem_of_fmap. exists x. split; [done|]. by apply list_elem_of_In.
Qed.

(** Removing a gateway: quiet moves, and then the row of its routes may go. *)
Lemma deselect_moves site id now d d' :
  deselect_gateway site id now d = Ok d' →
  ∃ d1, Quiet d d1 ∧ ∀ t i r, rows t d' !! i = Some r → rows t d1 !! i = Some r.
Proof.
  unfold deselect_gateway. cbv zeta. set (d1 := with_routes _ d).
  assert (Quiet d d1) as H1 by (apply Quiet_same; by intros []).
  lazymatch goal with |- rbind ?m _ = _ → _ => destruct m as [d2|] eqn:E2; [|discriminate] end. cbn [rbind].
  assert (Quiet d1 d2) as H2.
  { destruct (dk_listeners d1 !! id); [|by injection E2 as <-]. by eapply Quiet_queueNodeListenerState, to_res_ok. }
  destruct (appendSystemGatewayRoutes _) as [sys|]; [|discriminate]. cbn [rbind].
  destruct (fst sys) as [|route l].
  - unfold stop_gateway. destruct (dk_components d2 !! id) as [c|] eqn:Ec; [|discriminate]. intros [= <-].
    exists (with_components (<[id := mk_desired (dr_desired c + 1) (dr_applied c) "stopped" "pending" (dr_attempt c) "" ""
                              (rfc3339nano now)]> (dk_components d2)) d2). split.
    + etrans; [exact H1|]. etrans; [exact H2|]. eapply (Quiet_row TComponent id); [reflexivity|other_tables|].
      cbn. rewrite Ec. apply quiet_queue; cbn; auto.
    + intros [] i r; cbn; try done. intros [_ ?]%lookup_delete_Some. done.
  - intros H%Quiet_queueGatewayState. exists d'. split; [by do 2 (etrans; [eassumption|])|done].
Qed.

Lemma claim_ok t id now d task d' r I :
  claim t id now d = Ok (Some (task, d')) → rows t d !! id = Some r → desk_ok (d, I) →
  desk_ok (d', mk_issue t id (dt_revision task) (dt_attempt task) (dr_payload r) :: I).
Proof.
  intros Hc Hr [O1 O2 O3]. apply claim_spec in Hc as (r' & Hr' & Hcl & Hrow & Ho & -> & -> & _).
  assert (r' = r) as -> by congruence. unfold claimable in Hcl. bool_prop. cbn in *.
  destruct (O1 t id r Hr) as [R1 R2 R3 R4 R5]. split; cbn [fst snd].
  - intros t' id' r0. destruct (decide (t' = t)) as [-> |Ht].
    + rewrite Hrow. intros [[<- <-]|[Hne Hl0]]%lookup_insert_Some.
      * split; cbn; [lia|lia|lia|by left|].
        intros i [-> |Hi]%elem_of_cons Hti Hni; [right; cbn; split_and!; [done|lia|done]|].
        destruct (R5 i Hi Hti Hni) as [?|(? & ? & ?)]; [by left|right; split_and!; [done|lia|done]].
      * destruct (O1 t id' r0 Hl0) as [Q1 Q2 Q3 Q4 Q5]. split; try done; [by right; apply Q4|].
        intros i [-> |Hi]%elem_of_cons Hti Hni; [by destruct Hne|by apply Q5].
    + rewrite Ho by done. intros Hl0. destruct (O1 t' id' r0 Hl0) as [Q1 Q2 Q3 Q4 Q5]. split; try done; [by right; apply Q4|].
      intros i [-> |Hi]%elem_of_cons Hti Hni; [by destruct Ht|by apply Q5].
  - intros i [-> |Hi]%elem_of_cons; cbn; [rewrite Hrow, lookup_insert_eq; by eauto|].
    destruct (decide (is_table i = t)) as [Et|Ht]; [|rewrite Ho by done; by apply O2].
    rewrite Et, Hrow. destruct (decide (is_node i = id)) as [-> |Hne]; [rewrite lookup_insert_eq; by eauto|].
    rewrite lookup_insert_ne, <- Et by done. by apply O2.
  - apply NoDup_cons. split; [|done]. intros (i & Ei & Hi)%list_elem_of_fmap. unfold identity in Ei. cbn in Ei.
    injection Ei as Et En Er Ea. destruct (R5 i Hi (eq_sym Et) (eq_sym En)) as [?|(_ & ? & _)]; lia.
Qed.

Lemma decide_ok t id k revision attempt now r I :
  row_ok t id I r → (∃ i, i ∈ I ∧ identity i = (t, id, revision, attempt)) →
  row_ok t id I (decide_row k revision attempt now r).
Proof.
  intros [R1 R2 R3 R4 R5] (i & Hi & Ei).
  assert (∀ status error, (status = "pending" ∨ status = "failed") →
    dr_status r = "applying" ∨ dr_status r = "failed" ∨ dr_status r = "pending" →
    row_ok t id I (set_status status error now r)) as Hs.
  { intros status error Hst Hr. split; cbn; try done; [intros _; apply R3; naive_solver|].
    destruct Hst as [-> | ->]; discriminate. }
  destruct k; unfold decide_row.
  - destruct (_ && _) eqn:E; [|done]. bool_prop. apply Hs; auto.
  - destruct (_ && _) eqn:E; [|done]. bool_prop. apply Hs; auto.
  - destruct (_ && _) eqn:E; [|done]. bool_prop. apply Hs; auto.
    match goal with H : str_in _ _ = true |- _ => apply str_in_spec in H; set_solver end.
  - destruct (_ && _) eqn:E; [|done]. bool_prop. apply Hs; auto.
    match goal with H : str_in _ _ = true |- _ => apply str_in_spec in H; set_solver end.
  - destruct (_ && _) eqn:E; [|done]. bool_prop.
    match goal with H : str_in _ _ = true |- _ => apply str_in_spec in H; rename H into Hst end.
    unfold identity in Ei. injection Ei as Et En Er Ea.
    split; cbn; try done; [intros _; apply R3; set_solver|]. intros _.
    destruct (R5 i Hi Et En) as [?|(E1 & E2 & E3)]; [lia|].
    destruct i as [it ino ir ia ip]. cbn in *. by subst.
Qed.

Lemma step_ok s s' : desk_step s s' → desk_ok s → desk_ok s'.
Proof.
  destruct 1 as [| | | | | | | | | | | | |d d' I H|t id r lease updated d d' I Hr Hrow Ho|site id now d d' I H|id d d' I H
    |t id now d task d' r I H Hr|t recovery commit id revision attempt succeeded e now d d' targets I H
    |t id k revision attempt now r d d' I i Hi Ei Hr Hrow Ho]; try (apply Quiet_ok; by eauto using
    Quiet_queueGatewayState, Quiet_queueNodeListenerState, Quiet_queueTunnelState, Quiet_select_gateway,
    Quiet_unhealthy, Quiet_mismatched, Quiet_mismatched_listener, Quiet_activate, Quiet_cutover_publication,
    Quiet_retireTunnel, Quiet_runtime, Quiet_save_tunnel, Quiet_restore, Quiet_same).
  - apply Quiet_ok. eapply (Quiet_row t id); [exact Hrow|exact Ho|]. rewrite Hr. by apply quiet_renewed.
  - intros Hok. apply deselect_moves in H as (d1 & Hq & Hs). eapply living_ok; [exact Hs|]. by eapply Quiet_ok.
  - apply living_ok. intros t i r. rewrite H. by intros [_ ?]%lookup_delete_Some.
  - by eapply claim_ok.
  - eapply Quiet_ok, settles_quiet, project_settles, H.
  - intros [O1 O2 O3]. cbn in *. split; cbn [fst snd]; [| |done].
    + intros t' id' r0. destruct (decide (t' = t)) as [-> |Ht]; [|rewrite Ho by done; apply O1].
      rewrite Hrow. intros [[<- <-]|[Hne H0]]%lookup_insert_Some; [|by apply O1].
      apply decide_ok; [by apply O1|by exists i].
    + intros j Hj. destruct (decide (is_table j = t)) as [Et|Ht]; [|rewrite Ho by done; by apply O2].
      rewrite Et, Hrow. destruct (decide (is_node j = id)) as [-> |Hne]; [rewrite lookup_insert_eq; by eauto|].
      rewrite lookup_insert_ne, <- Et by done. by apply O2.
Qed.

Lemma runs_ok s s' : runs s s' → desk_ok s → desk_ok s'.
Proof. induction 1; eauto using step_ok. Qed.
End Runs.

(** C8 -- Over any interleaving of queueing, claims, results, decisions, migrations, the
    restoration of a listener, the removal of gateways and the deletion of nodes, a result
    belongs to what was claimed in the present life of its row ([I] holds the tasks that
    were issued since the row they come from was created; a gateway that is selected
    again starts over): the applied revision never exceeds the desired one; no revision
    and attempt of a living row is issued twice; a row that is being applied was issued
    with its present payload; and a result, ordinary or of a restored listener, is
    recorded only for a revision and attempt that was issued, whose payload is still the
    one desired, so the revision marked as applied is the content the Agent was given. *)
Theorem results_belong_to_their_claims {U : UrlReader} {GP : GlivelaPort} {Srt : SliceSorter} {Src : Sources}
    {SH : StateHash} d0 d I :
  desk_ok (d0, []) → rtc desk_step (d0, []) (d, I) →
  NoDup (map identity I) ∧
  (∀ t id r, rows t d !! id = Some r →
     0 <= dr_applied r <= dr_desired r ∧
     (dr_status r = "applying" → mk_issue t id (dr_desired r) (dr_attempt r) (dr_payload r) ∈ I)) ∧
  (∀ t recovery commit id revision attempt succeeded e now d' targets,
     project t recovery commit id revision attempt succeeded e now d = Ok (Some (d', targets)) →
     ∃ r r', rows t d !! id = Some r ∧ rows t d' !! id = Some r' ∧
       mk_issue t id revision attempt (dr_payload r) ∈ I ∧ dr_desired r' = revision ∧
       dr_payload r' = dr_payload r ∧ dr_applied r' = (if succeeded then revision else dr_applied r)).
Proof.
  intros H0 Hrun. destruct (runs_ok _ _ Hrun H0) as [O1 O2 O3]. cbn in *. split_and!; [done|..].
  - intros t id r Hr. destruct (O1 t id r Hr) as [R1 _ _ R4 _]. done.
  - intros t recovery commit id revision attempt succeeded e now d' targets H.
    apply project_settles in H as (r & d1 & r1 & Hr & Hs & <- & <- & _ & _ & E1 & E2 & _ & E4 & _ & _ & Hr1).
    exists r, r1. split_and!; try done. by apply (O1 t id r Hr).
Qed.

(** ** Progress *)
Section Progress.
Context {U : UrlReader} {GP : GlivelaPort} {Srt : SliceSorter} {Src : Sources} {SH : StateHash}.

Lemma is_ok_true {A} (r : res A) a : r = Ok a → is_ok r = true.
Proof. by intros ->. Qed.

Lemma queued_claimable m id payload reset now :
  (∀ r, m !! id = Some r → 0 <= dr_applied r <= dr_desired r) →
  claimable (queue_row (revision_of m id + 1) payload reset now (m !! id)) = true.
Proof.
  intros H. unfold claimable, revision_of, queue_row. destruct (m !! id) as [r|]; [|done]. cbn.
  specialize (H r eq_refl). rewrite (proj2 (Z.ltb_lt _ _)) by lia. done.
Qed.

(** A queued listener state is claimed as it was built. *)
Lemma queued_listener_claim id now now' d d1 :
  (∀ s, desiredNodeListenerState (src_listener d id) id (revision_of (dk_listeners d) id + 1) = Built s →
     listener_Unmarshal (listener_Marshal s) = Some s) →
  (∀ r, dk_listeners d !! id = Some r → 0 <= dr_applied r <= dr_desired r) →
  queueNodeListenerState id now d = Built d1 →
  ∃ state d2, claimNodeListenerTask id now' d1 =
    Ok (Some (mk_desired_task "node.listener.apply" (nodeListenerTaskID id (revision_of (dk_listeners d) id + 1))
                (match dk_listeners d !! id with Some r => dr_attempt r | None => 0 end + 1)
                (revision_of (dk_listeners d) id + 1) (ListenerPayload state), d2)) ∧
    validateCenterNodeListenerState state = Ok tt ∧ nl_node_id state = id ∧ dk_marker d2 = dk_marker d.
Proof.
  intros Hrt Hrow (state & Hb & Hv & Hn & Hr & Hl & _ & _ & Hm)%queueNodeListenerState_row. unfold claimNodeListenerTask.
  rewrite Hl, lookup_insert_eq, queued_claimable by done. cbn [negb].
  set (row := queue_row _ _ _ _ _).
  assert (dr_payload row = listener_Marshal state ∧ dr_desired row = revision_of (dk_listeners d) id + 1 ∧
    dr_attempt row = match dk_listeners d !! id with Some r => dr_attempt r | None => 0 end) as (Ep & Ed & Ea).
  { subst row. unfold queue_row. by destruct (dk_listeners d !! id). }
  rewrite Ep, (Hrt _ Hb), (is_ok_true _ _ Hv), Hn, Hr, Ed, Ea, String.eqb_refl, Z.eqb_refl. cbn [negb orb].
  eexists state, _. split_and!; [reflexivity|done|done|done].
Qed.

(** The result of a claimed task is recorded, when the execution's commit agrees and no
    migration interferes. *)
Lemma claimed_result t id now now' e d task d' commit :
  (∀ r, rows t d !! id = Some r → 0 <= dr_attempt r) →
  claim t id now d = Ok (Some (task, d')) → (∀ x, commit x = Ok tt) → t ≠ TComponent → dk_marker d' = None →
  ∃ d'' targets, project t None commit id (dt_revision task) (dt_attempt task) true e now' d' = Ok (Some (d'', targets)).
Proof.
  intros Hatt Hc Hcommit Ht Hm. apply claim_spec in Hc as (r & Hr & Hcl & Hrow & _ & -> & -> & _).
  specialize (Hatt r Hr). unfold claimable in Hcl. bool_prop.
  assert (rows t d' !! id = Some (claim_row now r)) as Hlook by (by rewrite Hrow, lookup_insert_eq).
  assert ((dr_desired r <=? dr_applied r) = false) as Hle by lia.
  assert ((dr_attempt r + 1 <=? 0) = false) as Hpos by lia.
  destruct t; cbn [rows project] in *; [done|..].
  - unfold projectGatewayState. rewrite Hlook. cbn [claim_row dr_applied dr_desired dr_status dr_attempt].
    rewrite Hle, Z.ltb_irrefl, Z.eqb_refl, String.eqb_refl, Hpos, Z.eqb_refl. cbn [negb orb].
    unfold committed. rewrite Hcommit. cbn. eauto.
  - unfold projectNodeListenerState. rewrite Hlook. cbn [claim_row dr_applied dr_desired dr_status dr_attempt].
    rewrite Hle, !Z.ltb_irrefl, Z.eqb_refl, String.eqb_refl. cbn [negb orb andb].
    unfold completeNodeListenerMigrationCutovers. cbn [dk_marker with_publications with_listeners]. rewrite Hm.
    cbn [rbind]. unfold committed. rewrite Hcommit. cbn. eauto.
  - unfold projectTunnelState. rewrite Hlook. cbn [claim_row dr_applied dr_desired dr_status dr_attempt].
    rewrite Hle, !Z.ltb_irrefl, Z.eqb_refl, String.eqb_refl. cbn [negb orb andb].
    unfold committed. rewrite Hcommit. cbn. eauto.
Qed.
End Progress.


(** ** Witnesses *)
#[local] Existing Instances sample_port sample_url merge_sorter.
#[local] Instance sample_hash_codec : StateHash :=
  {| state_json _ := ""; listener_json _ := ""; certificates_json _ := ""; state_sha256 s := s |}.

(** A node with a shared entry and a bundled control plane. *)
#[local] Instance sample_sources : Sources := {|
  src_system _ _ := sample_system; src_routes _ _ := []; src_listener _ _ := sample_reads; src_ingress _ _ := [];
  gatewayCertificates _ _ _ := Ok []; tunnel_token _ := Ok "token"; CloudflaredImage := "cloudflared";
  gateway_Marshal s := decimal (ds_revision s);
  gateway_Unmarshal t := match desiredGatewayState sample_system [] (default 0 (parse_int64 t)) with
                         | Ok s => Some s | Err _ => None end;
  listener_Marshal s := decimal (nl_revision s);
  listener_Unmarshal t := match desiredNodeListenerState sample_reads "node" (default 0 (parse_int64 t)) with
                          | Built s => Some s | _ => None end;
  tunnel_Marshal _ := ""; tunnel_Unmarshal _ := None
|}.

Definition empty_desk : Desk := mk_desk ∅ ∅ ∅ ∅ [] [] None None None None [].

Lemma empty_desk_ok : desk_ok (empty_desk, []).
Proof.
  split; cbn; [|intros i Hi; by apply not_elem_of_nil in Hi|constructor].
  intros t id r H. exfalso. destruct t; discriminate H.
Qed.

Definition queued_desk : Desk :=
  match queueNodeListenerState "node" 0 empty_desk with Built d => d | _ => empty_desk end.
Definition claimed_desk : Desk :=
  match claimNodeListenerTask "node" 0 queued_desk with Ok (Some (_, d)) => d | _ => empty_desk end.

Lemma queue_step : desk_step (empty_desk, []) (queued_desk, []).
Proof. apply (step_queue_listener "node" 0). vm_compute. reflexivity. Qed.

Lemma claim_step : desk_step (queued_desk, []) (claimed_desk, [mk_issue TListener "node" 1 1 "1"]).
Proof.
  eassert (claim TListener "node" 0 queued_desk = Ok (Some (_, claimed_desk))) as H by (vm_compute; reflexivity).
  eassert (rows TListener queued_desk !! "node" = Some _) as Hr by (vm_compute; reflexivity).
  exact (step_claim TListener "node" 0 queued_desk _ claimed_desk _ [] H Hr).
Qed.

Lemma results_belong_to_their_claims_witness :
  NoDup (map identity [mk_issue TListener "node" 1 1 "1"]) ∧
  mk_issue TListener "node" 1 1 "1" ∈ [mk_issue TListener "node" 1 1 "1"].
Proof.
  destruct (results_belong_to_their_claims empty_desk claimed_desk [mk_issue TListener "node" 1 1 "1"]
              empty_desk_ok (rtc_l _ _ _ _ queue_step (rtc_once _ _ claim_step))) as (H1 & H2 & _).
  split; [exact H1|]. eassert (rows TListener claimed_desk !! "node" = Some _) as Hr by (vm_compute; reflexivity).
  exact (proj2 (H2 TListener "node" _ Hr) eq_refl).
Defined.

