(* ===== verification/Migration.v ===== *)
(** * Handing entries over, and removing a gateway

    The migration to node listeners retires a legacy gateway only when every entry it
    served is ready elsewhere, and ends with the last of them; and what removing a
    gateway and reporting an unhealthy one do to their next tasks. *)
From S2P Require Import Prelude GoText GoTime GoNet Orders TaskIds Networking Gateway GatewaySpec Store Execution.
From S2P Require Import Ingress IngressSpec Desired DesiredSpec.

(** A cutover that is done, and a gateway all of whose cutovers are. *)
Definition handed_over (c : cutover_row) : Prop := ct_listener_ready c = true ∧ ct_publication_ready c = true.
Definition all_handed_over (l : list cutover_row) (gateway : string) : Prop :=
  ∀ c, c ∈ l → ct_legacy c = gateway → handed_over c.

Section Retire.
Context {U : UrlReader} {GP : GlivelaPort} {Srt : SliceSorter} {Src : Sources} {SH : StateHash}.

Lemma ready_gateways_spec l g :
  g ∈ ready_gateways l ↔ (∃ c, c ∈ l ∧ ct_legacy c = g) ∧ all_handed_over l g.
Proof.
  unfold ready_gateways. rewrite slice_sort_perm, elem_of_remove_dups, list_elem_of_fmap.
  assert (∀ c, negb (existsb (λ p, (ct_legacy p =?s ct_legacy c)
      && (negb (ct_listener_ready p) || negb (ct_publication_ready p))) l) = true ↔ all_handed_over l (ct_legacy c)) as Hr.
  { intros c. rewrite negb_true_iff, <- not_true_iff_false, existsb_exists. unfold all_handed_over, handed_over. split.
    - intros H p Hp E. apply list_elem_of_In in Hp.
      destruct (ct_listener_ready p) eqn:E1, (ct_publication_ready p) eqn:E2; try done;
        destruct H; exists p; by rewrite E, String.eqb_refl, E1, E2.
    - intros H (p & Hp%list_elem_of_In & Hx). bool_prop.
      match goal with E : ct_legacy p = _ |- _ => destruct (H p Hp E) as [E1 E2] end.
      rewrite E1, E2 in *. discriminate. }
  split.
  - intros (c & -> & Hc). apply list_elem_of_In, filter_In in Hc as [Hin Hc]. rewrite <- list_elem_of_In in Hin.
    split; [by exists c|by apply Hr].
  - intros ((c & Hin & <-) & Ha). exists c. split; [done|]. apply list_elem_of_In, filter_In.
    rewrite <- list_elem_of_In. split; [done|]. by apply Hr.
Qed.

Lemma ready_gateways_nodup l : NoDup (ready_gateways l).
Proof. unfold ready_gateways. rewrite slice_sort_perm. apply NoDup_remove_dups. Qed.

Lemma retire_gateways_spec gs now d d' l :
  NoDup gs → dk_cutovers d = Some l → retire_gateways gs now d = Ok d' →
  dk_cutovers d' = Some (List.filter (λ c, negb (str_in (ct_legacy c) gs)) l) ∧ dk_marker d' = dk_marker d ∧
  (∀ g, dk_components d' !! g = dk_components d !! g) ∧
  (∀ g, revision_of (dk_gateways d') g =
        revision_of (dk_gateways d) g +
        (if str_in g gs && match dk_components d !! g with Some c => dr_payload c =?s "running" | None => false end
         then 1 else 0)).
Proof.
  revert d l. induction gs as [|g0 gs IH]; intros d l Hnd Hl; cbn [retire_gateways].
  { intros [= <-]. split_and!; try done; [|intros; cbn; lia].
    rewrite Hl. f_equal. clear. induction l as [|c l IH]; cbn; [done|]. by f_equal. }
  apply NoDup_cons in Hnd as [Hg0 Hnd].
  lazymatch goal with |- rbind ?m _ = _ → _ => destruct m as [d1|] eqn:E; [|discriminate] end. cbn [rbind].
  assert (dk_cutovers d1 = Some l ∧ dk_marker d1 = dk_marker d ∧ (∀ g, dk_components d1 !! g = dk_components d !! g) ∧
    (∀ g, revision_of (dk_gateways d1) g = revision_of (dk_gateways d) g +
      (if (g =?s g0) && match dk_components d !! g with Some c => dr_payload c =?s "running" | None => false end
       then 1 else 0))) as (F1 & F2 & F3 & F4).
  { destruct (dk_components d !! g0) as [c|] eqn:Ec.
    - destruct (dr_payload c =?s "running") eqn:Ep.
      + apply queueGatewayState_row in E as (st & _ & Hg & Ho & Hc & Hm).
        split_and!; [congruence|done|intros g; specialize (Ho TComponent ltac:(done)); cbn in Ho; by rewrite Ho|]. intros g. rewrite Hg. unfold revision_of.
        destruct (String.eqb_spec g g0) as [-> |Hne].
        * rewrite lookup_insert_eq, Ec, Ep. cbn. unfold queue_row. by destruct (dk_gateways d !! g0).
        * rewrite lookup_insert_ne by done. cbn. lia.
      + injection E as <-. split_and!; try done. intros g. destruct (String.eqb_spec g g0) as [-> |]; [rewrite Ec, Ep|]; cbn; lia.
    - injection E as <-. split_and!; try done. intros g. destruct (String.eqb_spec g g0) as [-> |]; [rewrite Ec|]; cbn; lia. }
  rewrite F1. cbn [option_map]. intros H. apply (IH _ (List.filter (λ c, negb (ct_legacy c =?s g0)) l)) in H as (G1 & G2 & G3 & G4);
    [|done|done]. cbn [dk_components dk_gateways with_migration] in *. split_and!.
  - rewrite G1. f_equal. clear. induction l as [|c l IH]; cbn; [done|].
    cbn [str_in existsb]. destruct (ct_legacy c =?s g0); cbn [negb orb List.filter]; [done|]. fold (str_in (ct_legacy c) gs).
    destruct (str_in (ct_legacy c) gs); cbn; by rewrite IH.
  - rewrite G2. done.
  - intros g. by rewrite G3, F3.
  - intros g. rewrite G4, F4, F3. cbn [str_in existsb]. destruct (String.eqb_spec g g0) as [-> |]; cbn [orb andb].
    + assert (str_in g0 gs = false) as -> by (apply not_true_iff_false; by rewrite str_in_spec).
      cbn. lia.
    + fold (str_in g gs). lia.
Qed.
End Retire.

(** The migration to node listeners never leaves an entry without a server and
    comes to its end: a legacy gateway's cutovers are dropped exactly when every one of
    them has a ready listener and a ready publication; a gateway so retired that still
    runs is given one new revision without the moved entries, and no other gateway is
    touched; the migration is over exactly when nothing remains to hand over. *)
Theorem legacy_gateways_retire_when_handed_over {U : UrlReader} {GP : GlivelaPort} {Srt : SliceSorter}
    {Src : Sources} now d d' l :
  dk_cutovers d = Some l → retireReadyLegacyGatewayCutovers now d = Ok d' →
  (∀ c, c ∈ l → c ∈ default [] (dk_cutovers d') ↔ ¬ all_handed_over l (ct_legacy c)) ∧
  (∀ c, c ∈ default [] (dk_cutovers d') → c ∈ l) ∧
  (dk_cutovers d' = None ↔ ∀ c, c ∈ l → all_handed_over l (ct_legacy c)) ∧
  (dk_cutovers d' = None → dk_marker d' = None) ∧
  (∀ g, revision_of (dk_gateways d') g =
     revision_of (dk_gateways d) g +
     (if bool_decide (g ∈ ready_gateways l)
         && match dk_components d !! g with Some c => dr_payload c =?s "running" | None => false end
      then 1 else 0)).
Proof.
  intros Hl. unfold retireReadyLegacyGatewayCutovers. rewrite Hl.
  destruct (retire_gateways _ _ _) as [d1|] eqn:E; [|discriminate]. cbn [rbind].
  eapply retire_gateways_spec in E as (H1 & H2 & _ & H4); [|apply ready_gateways_nodup|exact Hl].
  set (rest := List.filter _ l) in H1.
  assert (∀ c, c ∈ rest ↔ c ∈ l ∧ ¬ all_handed_over l (ct_legacy c)) as Hrest.
  { intros c. unfold rest. rewrite list_elem_of_In, filter_In, <- list_elem_of_In, negb_true_iff, <- not_true_iff_false, str_in_spec.
    rewrite ready_gateways_spec. split; [|naive_solver]. intros [Hc Hn]. split; [done|]. intros Ha. apply Hn. split; [by exists c|done]. }
  assert (∀ g, revision_of (dk_gateways d1) g = revision_of (dk_gateways d) g +
     (if bool_decide (g ∈ ready_gateways l)
         && match dk_components d !! g with Some c => dr_payload c =?s "running" | None => false end then 1 else 0)) as Hg.
  { intros g. rewrite H4. assert (str_in g (ready_gateways l) = bool_decide (g ∈ ready_gateways l)) as ->; [|done].
    apply eq_true_iff_eq. by rewrite str_in_spec, bool_decide_eq_true. }
  rewrite H1. destruct rest as [|c0 rest']; intros [= <-]; cbn [dk_cutovers dk_marker dk_gateways finishNodeListenerMigration with_migration default].
  - assert (∀ c, c ∈ l → all_handed_over l (ct_legacy c)) as Hall.
    { intros c Hc. destruct (decide (ct_legacy c ∈ ready_gateways l)) as [[_ ?]%ready_gateways_spec|Hn]; [done|].
      exfalso. apply (not_elem_of_nil c), Hrest. split; [done|]. intros Ha. apply Hn, ready_gateways_spec. by eauto. }
    split_and!; [|by intros c ?%not_elem_of_nil|done|done|done].
    intros c Hc. split; [by intros ?%not_elem_of_nil|]. intros Hn. destruct Hn. by apply Hall.
  - rewrite H1. cbn [default]. split_and!; try done; [|by intros c [? _]%Hrest|].
    + intros c Hc. rewrite Hrest. by split; [intros [_ ?]|split].
    + split; [done|]. intros Ha. exfalso. destruct (proj1 (Hrest c0)) as [Hc Hn]; [by left|]. by apply Hn, Ha.
Qed.

(** ** Two tasks that do not come *)

(** A gateway without a stored state that reports itself unhealthy is given a new
    generation "queued for reconcile" whose row is [failed], so no claim takes it: it
    waits until an operator or a later selection queues it again. *)
Theorem unhealthy_component_is_not_claimed {U : UrlReader} {GP : GlivelaPort} {Srt : SliceSorter} {Src : Sources}
    id now now' d d' r :
  dk_gateways d !! id = None → dk_components d !! id = Some r → dr_payload r = "running" →
  dr_status r = "ready" → queueUnhealthyGatewayReconcile id now d = Ok d' →
  (∃ row, dk_components d' !! id = Some row ∧ dr_desired row = dr_desired r + 1 ∧
     dr_error row = unhealthy_message) ∧
  claim_component id now' d' = Ok None.
Proof.
  intros Hg Hc Hp Hs. unfold queueUnhealthyGatewayReconcile. rewrite Hg, Hc, Hp, Hs. rewrite !String.eqb_refl. cbn [andb].
  intros [= <-]. cbn [dk_components with_components record_event with_event]. split.
  - eexists. rewrite lookup_insert_eq. split; [done|]. done.
  - unfold claim_component. cbn [dk_components with_components record_event with_event]. rewrite lookup_insert_eq.
    unfold claimable. cbn [dr_status]. by rewrite andb_false_r.
Qed.

(** A gateway that is removed from its site and selected again starts over at the
    first revision and attempt: the first task it is given has the identifier and
    attempt of the first task it was ever given, which the unique key of executions
    refuses while that execution is kept. *)
Theorem reselected_gateway_repeats_its_task {U : UrlReader} {GP : GlivelaPort} {Srt : SliceSorter} {Src : Sources}
    site site' id now1 now2 now3 d d1 d2 task d3 :
  stop_gateway site id now1 d = Ok d1 →
  queueGatewayState id now2 (select_gateway site' id now2 d1) = Ok d2 →
  ∀ ready, dk_gateways ready = dk_gateways d2 → claim_routes id now3 ready = Ok (Some (task, d3)) →
  dt_id task = gatewayRouteTaskID id 1 ∧ dt_attempt task = 1 ∧
  ∀ st old new, old ∈ executions st → te_task_id old = gatewayRouteTaskID id 1 → te_attempt old = 1 →
    te_task_id new = dt_id task → te_attempt new = dt_attempt task →
    insert_execution new st = (st, Err "UNIQUE constraint failed").
Proof.
  unfold stop_gateway. destruct (dk_components d !! id) as [r|]; [|discriminate]. intros [= <-].
  intros (state & _ & Hg & _)%queueGatewayState_row ready Hready Hc.
  apply (claim_spec TGateway) in Hc as (row & Hrow & _ & _ & _ & Er & Ea & Ei). cbn [rows task_identity] in *.
  rewrite Hready, Hg, lookup_insert_eq in Hrow. cbn [dk_gateways select_gateway record_event with_event with_components with_gateways] in Hrow.
  unfold revision_of, queue_row in Hrow. rewrite lookup_delete_eq in Hrow. injection Hrow as <-.
  cbn [dr_desired dr_attempt] in *. change (0 + 1) with 1 in *. split_and!; [done|done|]. intros st old new Hold Eo1 Eo2 En1 En2. unfold insert_execution.
  rewrite En1, En2, Ei, Ea. assert (sql_exists (λ x, (te_task_id x =?s gatewayRouteTaskID id 1) && (te_attempt x =? 1))
    (executions st) = true) as ->; [|by rewrite orb_true_r].
  apply sql_exists_spec. exists old. rewrite Eo1, Eo2, String.eqb_refl. done.
Qed.

(** ** Witnesses *)
#[local] Existing Instances sample_port sample_url merge_sorter sample_hash_codec sample_sources.

Definition sample_cutovers : list cutover_row :=
  [mk_cutover "p1" "g1" "node" true true false; mk_cutover "p2" "g2" "node" true false false].
Definition migrating_desk : Desk := with_migration (Some "applying") (Some sample_cutovers) empty_desk.

Lemma legacy_gateways_retire_when_handed_over_witness :
  mk_cutover "p2" "g2" "node" true false false ∈
    default [] (dk_cutovers (with_migration (Some "applying") (Some [mk_cutover "p2" "g2" "node" true false false]) empty_desk)).
Proof.
  destruct (legacy_gateways_retire_when_handed_over 0 migrating_desk
    (with_migration (Some "applying") (Some [mk_cutover "p2" "g2" "node" true false false]) empty_desk) sample_cutovers)
    as (H & _).
  - reflexivity.
  - vm_compute. reflexivity.
  - apply H; [right; left|]. intros Ha.
    destruct (Ha (mk_cutover "p2" "g2" "node" true false false)) as [_ Hp]; [right; left|reflexivity|discriminate Hp].
Defined.

Definition ready_desk : Desk :=
  with_components {["node" := mk_desired 3 3 "running" "ready" 4 "" "" ""]} empty_desk.

Lemma unhealthy_component_is_not_claimed_witness :
  ∃ d', queueUnhealthyGatewayReconcile "node" 0 ready_desk = Ok d' ∧ claim_component "node" 0 d' = Ok None.
Proof.
  eassert (queueUnhealthyGatewayReconcile "node" 0 ready_desk = Ok _) as H by (vm_compute; reflexivity).
  eexists. split; [exact H|].
  exact (proj2 (unhealthy_component_is_not_claimed "node" 0 0 ready_desk _ _ eq_refl eq_refl eq_refl eq_refl H)).
Defined.

Definition served_desk : Desk := with_gateways {["node" := mk_desired 1 1 "1" "ready" 1 "" "" ""]} ready_desk.
Definition stopped_desk : Desk :=
  match stop_gateway "site" "node" 0 served_desk with Ok d => d | Err _ => empty_desk end.
Definition reselected_desk : Desk :=
  match queueGatewayState "node" 0 (select_gateway "site" "node" 0 stopped_desk) with
  | Ok d => d | Err _ => empty_desk end.
Definition started_desk : Desk :=
  with_components {["node" := mk_desired 5 5 "running" "ready" 5 "" "" ""]} reselected_desk.

Lemma reselected_gateway_repeats_its_task_witness :
  ∃ task d3, claim_routes "node" 0 started_desk = Ok (Some (task, d3)) ∧
    dt_id task = gatewayRouteTaskID "node" 1 ∧ dt_attempt task = 1.
Proof.
  assert (stop_gateway "site" "node" 0 served_desk = Ok stopped_desk) as H1 by (vm_compute; reflexivity).
  assert (queueGatewayState "node" 0 (select_gateway "site" "node" 0 stopped_desk) = Ok reselected_desk) as H2
    by (vm_compute; reflexivity).
  eassert (claim_routes "node" 0 started_desk = Ok (Some (_, _))) as H by (vm_compute; reflexivity).
  eexists _, _. split; [exact H|].
  destruct (reselected_gateway_repeats_its_task "site" "site" "node" 0 0 0 served_desk stopped_desk reselected_desk
    _ _ H1 H2 started_desk eq_refl H) as (E1 & E2 & _).
  exact (conj E1 E2).
Defined.
