(* ===== verification/Notifier.v ===== *)
(** * Waking Agents that wait for work

    internal/center/change_notifier.go and [waitAndClaimTask] (deployment_tasks.go).  The
    methods of the notifier hold its mutex, so each is one step; the loop of a waiting
    request is a state machine that interleaves with other requests and with the writers
    that commit work and notify.  Channels are numbered; a channel is only ever closed. *)
From S2P Require Import Prelude.

Abbreviation channel := nat (only parsing).

Record changeNotifier := mk_notifier {
  nt_waiters : gmap string (gset channel); nt_closed : gset channel; nt_next : channel
}.

Definition waiting (n : changeNotifier) (key : string) : gset channel := default ∅ (nt_waiters n !! key).

Definition subscribe (key : string) (n : changeNotifier) : channel * changeNotifier :=
  (nt_next n,
   mk_notifier (<[key := {[ nt_next n ]} ∪ waiting n key]> (nt_waiters n)) (nt_closed n) (S (nt_next n))).

Definition unsubscribe (key : string) (waiter : channel) (n : changeNotifier) : changeNotifier :=
  let rest := waiting n key ∖ {[ waiter ]} in
  mk_notifier (if bool_decide (rest = ∅) then delete key (nt_waiters n) else <[key := rest]> (nt_waiters n))
    (nt_closed n) (nt_next n).

Definition notify (key : string) (n : changeNotifier) : changeNotifier :=
  match nt_waiters n !! key with
  | None => n
  | Some l => mk_notifier (delete key (nt_waiters n)) (l ∪ nt_closed n) (nt_next n)
  end.

(** ** A waiting request *)

(** Where the loop is: about to subscribe, about to query with the channel it
    subscribed, blocked on the channel, or returned, with or without a task. *)
Inductive pc := Subscribing | Querying (ch : channel) | Blocked (ch : channel) | Returned (task : bool).

Record waiter := mk_waiter { wt_key : string; wt_pc : pc }.

(** The requests, the writers that committed and have still to notify, and the keys
    with work that can be claimed. *)
Record system := mk_system {
  sy_notifier : changeNotifier; sy_waiters : gmap nat waiter; sy_pending : list string;
  sy_work : gset string
}.

(** [wait], capped; a request that does not wait queries once and returns. *)
Definition second : Z := 1000000000.
Definition bounded_wait (wait : Z) : option Z :=
  if wait <=? 0 then None else Some (if 30 * second <? wait then 30 * second else wait).

Definition move (s : system) (i : nat) (w : waiter) (p : pc) (n : changeNotifier) (work : gset string) : system :=
  mk_system n (<[i := mk_waiter (wt_key w) p]> (sy_waiters s)) (sy_pending s) work.

(** The steps of request [i].  [fails] is a query that returns an error. *)
Inductive wait_step (i : nat) : system → system → Prop :=
| wait_subscribe s w :
    sy_waiters s !! i = Some w → wt_pc w = Subscribing →
    wait_step i s (move s i w (Querying (fst (subscribe (wt_key w) (sy_notifier s))))
                     (snd (subscribe (wt_key w) (sy_notifier s))) (sy_work s))
| wait_claim s w ch :
    sy_waiters s !! i = Some w → wt_pc w = Querying ch → wt_key w ∈ sy_work s →
    wait_step i s (move s i w (Returned true) (unsubscribe (wt_key w) ch (sy_notifier s))
                     (sy_work s ∖ {[ wt_key w ]}))
| wait_fails s w ch :
    sy_waiters s !! i = Some w → wt_pc w = Querying ch →
    wait_step i s (move s i w (Returned false) (unsubscribe (wt_key w) ch (sy_notifier s)) (sy_work s))
| wait_block s w ch :
    sy_waiters s !! i = Some w → wt_pc w = Querying ch → wt_key w ∉ sy_work s →
    wait_step i s (move s i w (Blocked ch) (sy_notifier s) (sy_work s))
| wait_expire s w ch :                                     (* the deadline, or the context *)
    sy_waiters s !! i = Some w → wt_pc w = Blocked ch →
    wait_step i s (move s i w (Returned false) (unsubscribe (wt_key w) ch (sy_notifier s)) (sy_work s))
| wait_wake s w ch :
    sy_waiters s !! i = Some w → wt_pc w = Blocked ch → ch ∈ nt_closed (sy_notifier s) →
    wait_step i s (move s i w Subscribing (sy_notifier s) (sy_work s)).

Inductive sys_step : system → system → Prop :=
| sys_arrive i key s :
    sy_waiters s !! i = None →
    sys_step s (mk_system (sy_notifier s) (<[i := mk_waiter key Subscribing]> (sy_waiters s))
                  (sy_pending s) (sy_work s))
| sys_wait i s s' : wait_step i s s' → sys_step s s'
| sys_commit key s :
    sys_step s (mk_system (sy_notifier s) (sy_waiters s) (key :: sy_pending s) ({[ key ]} ∪ sy_work s))
| sys_notify key l1 l2 s :
    sy_pending s = l1 ++ key :: l2 →
    sys_step s (mk_system (notify key (sy_notifier s)) (sy_waiters s) (l1 ++ l2) (sy_work s)).

Definition initial : system := mk_system (mk_notifier ∅ ∅ 0) ∅ [] ∅.

(** ** The invariant *)
Definition channel_of (p : pc) : option channel :=
  match p with Querying ch | Blocked ch => Some ch | _ => None end.

Record sys_ok (s : system) : Prop := mk_sys_ok {
  (* a registered channel is new, open and held by exactly one request of its key *)
  ok_registered : ∀ key ch, ch ∈ waiting (sy_notifier s) key →
    (ch < nt_next (sy_notifier s))%nat ∧ (ch ∉ nt_closed (sy_notifier s)) ∧
    ∃ i w, sy_waiters s !! i = Some w ∧ wt_key w = key ∧ channel_of (wt_pc w) = Some ch;
  (* a channel in use is registered under its key or closed *)
  ok_used : ∀ i w ch, sy_waiters s !! i = Some w → channel_of (wt_pc w) = Some ch →
    (ch < nt_next (sy_notifier s))%nat ∧
    (ch ∈ waiting (sy_notifier s) (wt_key w) ∨ ch ∈ nt_closed (sy_notifier s));
  ok_distinct : ∀ i j w v ch, sy_waiters s !! i = Some w → sy_waiters s !! j = Some v →
    channel_of (wt_pc w) = Some ch → channel_of (wt_pc v) = Some ch → i = j;
  ok_closed : ∀ ch, ch ∈ nt_closed (sy_notifier s) → (ch < nt_next (sy_notifier s))%nat;
  ok_nonempty : ∀ key l, nt_waiters (sy_notifier s) !! key = Some l → l ≠ ∅;
  (* committed work that a blocked request has not seen is still to be announced *)
  ok_awake : ∀ i w ch, sy_waiters s !! i = Some w → wt_pc w = Blocked ch → wt_key w ∈ sy_work s →
    wt_key w ∈ sy_pending s ∨ ch ∈ nt_closed (sy_notifier s)
}.

Lemma waiting_subscribe key key' n :
  waiting (snd (subscribe key n)) key' = (if decide (key' = key) then {[ nt_next n ]} ∪ waiting n key else waiting n key').
Proof.
  unfold waiting. cbn. destruct (decide (key' = key)) as [-> |Hne]; [by rewrite lookup_insert_eq|].
  by rewrite lookup_insert_ne.
Qed.

Lemma waiting_unsubscribe key key' ch n :
  waiting (unsubscribe key ch n) key' =
  (if decide (key' = key) then waiting n key ∖ {[ ch ]} else waiting n key').
Proof.
  unfold waiting at 1. cbn. case_bool_decide as Hb; destruct (decide (key' = key)) as [-> |Hne].
  - rewrite lookup_delete_eq. by rewrite Hb.
  - by rewrite lookup_delete_ne.
  - by rewrite lookup_insert_eq.
  - by rewrite lookup_insert_ne.
Qed.

Lemma waiting_notify key key' n :
  waiting (notify key n) key' = (if decide (key' = key) then ∅ else waiting n key').
Proof.
  unfold notify. destruct (nt_waiters n !! key) as [l|] eqn:E; unfold waiting; cbn; destruct (decide (key' = key)) as [-> |Hne].
  - by rewrite lookup_delete_eq.
  - by rewrite lookup_delete_ne.
  - by rewrite E.
  - done.
Qed.

Lemma closed_notify key n : nt_closed (notify key n) = waiting n key ∪ nt_closed n.
Proof. unfold notify, waiting. destruct (nt_waiters n !! key); cbn; set_solver. Qed.

Lemma next_notify key n : nt_next (notify key n) = nt_next n.
Proof. unfold notify. by destruct (nt_waiters n !! key). Qed.

Lemma nonempty_unsubscribe key ch n key' l :
  (∀ k l, nt_waiters n !! k = Some l → l ≠ ∅) → nt_waiters (unsubscribe key ch n) !! key' = Some l → l ≠ ∅.
Proof.
  intros H. cbn. case_bool_decide as Hb.
  - intros [_ Hl]%lookup_delete_Some. by eapply H.
  - intros [[<- <-]|[_ Hl]]%lookup_insert_Some; [done|by eapply H].
Qed.

(** A request that lets its channel go. *)
Lemma leave_ok s i w ch task work :
  sys_ok s → sy_waiters s !! i = Some w → channel_of (wt_pc w) = Some ch → work ⊆ sy_work s →
  sys_ok (move s i w (Returned task) (unsubscribe (wt_key w) ch (sy_notifier s)) work).
Proof.
  intros [O1 O2 O3 O4 O5 O6] Hi Hch Hw. split; cbn [move sy_notifier sy_waiters sy_pending sy_work].
  - intros key c. rewrite waiting_unsubscribe. intros Hc.
    assert (c ∈ waiting (sy_notifier s) key ∧ (key = wt_key w → c ≠ ch)) as [Hc' Hn].
    { destruct (decide (key = wt_key w)) as [-> |]; set_solver. }
    destruct (O1 key c Hc') as (L & N & j & v & Hj & Hk & Hv). split_and!; [done|done|].
    exists j, v. rewrite lookup_insert_ne; [done|]. intros <-. apply Hn; [congruence|congruence].
  - intros j v c [[<- <-]|[Hne Hj]]%lookup_insert_Some Hc; [discriminate|].
    destruct (O2 j v c Hj Hc) as [L [H|H]]; (split; [done|]); [|by right]. left. rewrite waiting_unsubscribe.
    destruct (decide (wt_key v = wt_key w)) as [E|]; [|done]. rewrite <- E. apply elem_of_difference. split; [done|].
    intros ->%elem_of_singleton. by destruct Hne; apply (O3 i j w v ch).
  - intros j k v u c [[<- <-]|[Hne Hj]]%lookup_insert_Some; [discriminate|].
    intros [[<- <-]|[Hne' Hk]]%lookup_insert_Some; [discriminate|]. by apply O3.
  - done.
  - intros key l. by apply nonempty_unsubscribe.
  - intros j v c [[<- <-]|[Hne Hj]]%lookup_insert_Some Hp Hk; [discriminate|]. apply (O6 j v c); auto.
Qed.

(** A request that keeps its channel or drops a closed one. *)
Lemma keep_ok s i w p :
  sys_ok s → sy_waiters s !! i = Some w →
  (channel_of p = channel_of (wt_pc w) ∨
   channel_of p = None ∧ ∀ ch, channel_of (wt_pc w) = Some ch → ch ∈ nt_closed (sy_notifier s)) →
  (∀ ch, p = Blocked ch → wt_key w ∉ sy_work s) →
  sys_ok (move s i w p (sy_notifier s) (sy_work s)).
Proof.
  intros [O1 O2 O3 O4 O5 O6] Hi Hp Hb. split; cbn [move sy_notifier sy_waiters sy_pending sy_work]; try done.
  - intros key c Hc. destruct (O1 key c Hc) as (L & N & j & v & Hj & Hk & Hv). split_and!; [done|done|].
    destruct (decide (j = i)) as [-> |Hne]; [|exists j, v; by rewrite lookup_insert_ne].
    assert (v = w) as -> by congruence. destruct Hp as [Hp|[_ Hp]]; [|by destruct N; apply Hp].
    eexists i, _. rewrite lookup_insert_eq. split_and!; [done|done|]. cbn. congruence.
  - intros j v c [[<- <-]|[Hne Hj]]%lookup_insert_Some Hc; [|by apply (O2 j)]. cbn in *.
    destruct Hp as [Hp|[Hp _]]; [|congruence]. apply (O2 i w); [done|congruence].
  - intros j k v u c [[<- <-]|[Hne Hj]]%lookup_insert_Some; intros [[<- <-]|[Hne' Hk]]%lookup_insert_Some; cbn; try done.
    + intros Hc Hc'. destruct Hp as [Hp|[Hp _]]; [|congruence]. apply (O3 i k w u c); congruence.
    + intros Hc Hc'. destruct Hp as [Hp|[Hp _]]; [|congruence]. apply (O3 j i v w c); congruence.
    + by apply O3.
  - intros j v c [[<- <-]|[Hne Hj]]%lookup_insert_Some Hpc Hk; [|by apply (O6 j)]. cbn in *. by destruct (Hb c).
Qed.

Lemma subscribe_ok s i w :
  sys_ok s → sy_waiters s !! i = Some w → wt_pc w = Subscribing →
  sys_ok (move s i w (Querying (nt_next (sy_notifier s))) (snd (subscribe (wt_key w) (sy_notifier s))) (sy_work s)).
Proof.
  intros [O1 O2 O3 O4 O5 O6] Hi Hpc. set (n := sy_notifier s) in *.
  assert (∀ c, c ∈ nt_closed n → c ≠ nt_next n) as Hnew by (intros c Hc ->; specialize (O4 _ Hc); lia).
  split; cbn [move sy_notifier sy_waiters sy_pending sy_work].
  - intros key c. rewrite waiting_subscribe. intros Hc.
    assert (key = wt_key w ∧ c = nt_next n ∨ c ∈ waiting n key) as [[-> ->]|Hc'].
    { destruct (decide (key = wt_key w)) as [-> |]; set_solver. }
    + cbn. split_and!; [lia|intros Hc'; by destruct (Hnew _ Hc')|]. eexists i, _. by rewrite lookup_insert_eq.
    + destruct (O1 key c Hc') as (L & N & j & v & Hj & Hk & Hv). cbn. split_and!; [lia|done|].
      exists j, v. rewrite lookup_insert_ne; [done|]. intros <-. assert (v = w) as -> by congruence. by rewrite Hpc in Hv.
  - intros j v c [[<- <-]|[Hne Hj]]%lookup_insert_Some Hc.
    + cbn in Hc. injection Hc as <-. split; [cbn; lia|]. left. cbn [wt_key]. rewrite waiting_subscribe, decide_True by done. set_solver.
    + destruct (O2 j v c Hj Hc) as [L [H|H]]; (split; [cbn; lia|]); [|by right]. left. rewrite waiting_subscribe.
      destruct (decide (wt_key v = wt_key w)) as [E|]; [rewrite <- E; set_solver|done].
  - intros j k v u c [[<- <-]|[Hne Hj]]%lookup_insert_Some; intros [[<- <-]|[Hne' Hk]]%lookup_insert_Some; cbn; try done.
    + intros [= <-] Hc'. destruct (O2 k u _ Hk Hc'). lia.
    + intros Hc [= <-]. destruct (O2 j v _ Hj Hc). lia.
    + by apply O3.
  - intros c Hc. specialize (O4 c Hc). cbn. lia.
  - cbn. intros key l [[<- <-]|[_ Hl]]%lookup_insert_Some; [set_solver|by eapply O5].
  - intros j v c [[<- <-]|[Hne Hj]]%lookup_insert_Some Hp Hk; [discriminate|]. by apply (O6 j v c).
Qed.

Lemma step_keeps_ok s s' : sys_step s s' → sys_ok s → sys_ok s'.
Proof.
  destruct 1 as [i key s Hi|i s s' Hs|key s|key l1 l2 s Hp]; intros Hok.
  - destruct Hok as [O1 O2 O3 O4 O5 O6]. split; cbn; try done.
    + intros k c Hc. destruct (O1 k c Hc) as (L & N & j & v & Hj & Hk & Hv). split_and!; [done|done|].
      exists j, v. rewrite lookup_insert_ne; [done|]. intros <-. congruence.
    + intros j v c [[<- <-]|[Hne Hj]]%lookup_insert_Some; [discriminate|]. by apply (O2 j).
    + intros j k v u c [[<- <-]|[Hne Hj]]%lookup_insert_Some; [discriminate|].
      intros [[<- <-]|[Hne' Hk]]%lookup_insert_Some; [discriminate|]. by apply O3.
    + intros j v c [[<- <-]|[Hne Hj]]%lookup_insert_Some; [discriminate|]. by apply (O6 j).
  - destruct Hs as [s w Hi Hpc|s w ch Hi Hpc Hw|s w ch Hi Hpc|s w ch Hi Hpc Hw|s w ch Hi Hpc|s w ch Hi Hpc Hc].
    + by apply subscribe_ok.
    + apply leave_ok; [done|done|by rewrite Hpc|set_solver].
    + apply leave_ok; [done|done|by rewrite Hpc|done].
    + apply keep_ok; [done|done|left; by rewrite Hpc|by intros]. 
    + apply leave_ok; [done|done|by rewrite Hpc|done].
    + apply keep_ok; [done|done|right; rewrite Hpc; split; [done|by intros ? [= <-]]|discriminate].
  - destruct Hok as [O1 O2 O3 O4 O5 O6]. split; cbn; try done. intros i w ch Hi Hpc Hk.
    apply elem_of_union in Hk as [->%elem_of_singleton|Hk]; [left; by left|].
    destruct (O6 i w ch Hi Hpc Hk) as [?|?]; [left; by right|by right].
  - destruct Hok as [O1 O2 O3 O4 O5 O6]. split; cbn.
    + intros k c. rewrite waiting_notify. destruct (decide (k = key)) as [-> |Hne]; [set_solver|]. intros Hc.
      destruct (O1 k c Hc) as (L & N & j & v & Hj & Hk & Hv). rewrite next_notify, closed_notify. split_and!; [done| |by exists j, v].
      intros [Hc'|?]%elem_of_union; [|done]. destruct (O1 key c Hc') as (_ & _ & j' & v' & Hj' & Hk' & Hv').
      assert (j = j') as <- by (by eapply O3). congruence.
    + intros j v c Hj Hc. rewrite next_notify, closed_notify, waiting_notify. destruct (O2 j v c Hj Hc) as [L [H|H]]; (split; [done|]).
      * destruct (decide (wt_key v = key)) as [<- |]; [right; set_solver|by left].
      * right. set_solver.
    + done.
    + intros c. rewrite next_notify, closed_notify. intros [Hc|Hc]%elem_of_union; [by apply (O1 key)|by apply O4].
    + intros k l. unfold notify. destruct (nt_waiters (sy_notifier s) !! key); cbn; [|apply O5].
      intros [_ Hl]%lookup_delete_Some. by eapply O5.
    + intros i w ch Hi Hpc Hk. rewrite closed_notify.
      destruct (O6 i w ch Hi Hpc Hk) as [Hin|?]; [|right; set_solver]. rewrite Hp in Hin.
      destruct (decide (wt_key w = key)) as [<- |Hne]; [|left; set_solver]. right.
      destruct (O2 i w ch Hi) as [_ [?|?]]; [by rewrite Hpc|set_solver|set_solver].
Qed.

Lemma initial_ok : sys_ok initial.
Proof. split; cbn; unfold waiting; cbn; try (intros; by rewrite ?lookup_empty in *); set_solver. Qed.

Lemma reachable_ok s : rtc sys_step initial s → sys_ok s.
Proof.
  intros H. assert (∀ s0, rtc sys_step s0 s → sys_ok s0 → sys_ok s) as Hind.
  { induction 1; eauto using step_keeps_ok. }
  eapply Hind, initial_ok. done.
Qed.

(** C9 -- No wakeup is lost: over any interleaving of waiting requests, commits and
    notifications, a request that is blocked while work for its Agent is committed and
    announced has its channel closed, and from there it subscribes and queries again
    and, undisturbed, returns with the task; and when every request has returned no
    channel stays registered. *)
Theorem no_wakeup_is_lost s :
  rtc sys_step initial s →
  (∀ i w ch, sy_waiters s !! i = Some w → wt_pc w = Blocked ch → wt_key w ∈ sy_work s →
     wt_key w ∉ sy_pending s →
     ch ∈ nt_closed (sy_notifier s) ∧
     ∃ s' w', rtc (wait_step i) s s' ∧ sy_waiters s' !! i = Some w' ∧ wt_pc w' = Returned true) ∧
  ((∀ i w, sy_waiters s !! i = Some w → ∃ task, wt_pc w = Returned task) → nt_waiters (sy_notifier s) = ∅).
Proof.
  intros Hr. apply reachable_ok in Hr as [O1 O2 O3 O4 O5 O6]. split.
  - intros i w ch Hi Hpc Hk Hn. destruct (O6 i w ch Hi Hpc Hk) as [?|Hc]; [done|]. split; [done|].
    eexists _, _. split; [|split].
    + eapply rtc_l; [by eapply wait_wake|]. eapply rtc_l; [eapply wait_subscribe; [apply lookup_insert_eq|done]|].
      eapply rtc_once. eapply wait_claim; [apply lookup_insert_eq|done|done].
    + apply lookup_insert_eq.
    + done.
  - intros Hall. apply map_empty. intros key. destruct (nt_waiters (sy_notifier s) !! key) as [l|] eqn:E; [|done].
    destruct (set_choose_L l (O5 key l E)) as [c Hc].
    destruct (O1 key c) as (_ & _ & i & w & Hi & _ & Hch); [unfold waiting; by rewrite E|].
    destruct (Hall i w Hi) as [task Ht]. by rewrite Ht in Hch.
Qed.

(** ** A request that blocks, and work that arrives *)
Definition blocked_system : system :=
  mk_system (snd (subscribe "agent:a" (sy_notifier initial))) {[0%nat := mk_waiter "agent:a" (Blocked 0)]} [] ∅.
Definition woken_system : system :=
  mk_system (notify "agent:a" (sy_notifier blocked_system)) (sy_waiters blocked_system) [] {["agent:a"]}.

Lemma woken_reachable : rtc sys_step initial woken_system.
Proof.
  eapply rtc_l; [apply (sys_arrive 0%nat "agent:a"); reflexivity|].
  eapply rtc_l; [eapply sys_wait, (wait_subscribe 0%nat); [apply lookup_insert_eq|reflexivity]|].
  eapply rtc_l; [eapply sys_wait, (wait_block 0%nat); [apply lookup_insert_eq|reflexivity|]|].
  { cbn. set_solver. }
  eapply rtc_l; [apply (sys_commit "agent:a")|].
  eapply rtc_l; [apply (sys_notify "agent:a" [] []); reflexivity|].
  match goal with |- rtc _ ?x ?y => assert (x = y) as ->; [|apply rtc_refl] end.
  vm_compute. reflexivity.
Qed.

Lemma no_wakeup_is_lost_witness : 0%nat ∈ nt_closed (sy_notifier woken_system).
Proof.
  destruct (no_wakeup_is_lost woken_system woken_reachable) as [H _].
  refine (proj1 (H 0%nat (mk_waiter "agent:a" (Blocked 0)) 0%nat _ _ _ _)).
  - reflexivity.
  - reflexivity.
  - cbn. set_solver.
  - cbn. set_solver.
Defined.
