(* ===== verification/TaskClaims.v ===== *)
(** * Claims of one table

    internal/center: the function of each task table that [claimNextTask] tries in
    turn.  It selects a pending row of the Agent, checks it, marks it as running under
    a lease and a new attempt, and returns the task.  It runs in the transaction of the
    claim, so a claim that is not committed leaves no trace.

    What a claim reads of tables and columns outside the model enters as the record
    [ClaimReads]: the capabilities of the Agent, the stored inputs after decoding and
    validation, and the outcomes of the joins with other tables. *)
From S2P Require Import Prelude GoText GoTime TaskIds Store Execution Handoff Updates.

(** The reads of the tables outside the model, and two procedures that write such
    tables. *)
Record ClaimReads := mk_claim_reads {
  cl_capability : string → bool;                (* json_extract(capabilities_json,'$.<name>')=1 *)
  cl_link_revision : Z;                         (* '$.meridianLinkRevision' *)
  cl_targets : task_row → string;               (* targets_json *)
  cl_input : task_row → res string;             (* the stored input after decoding and the checks of
                                                   the claim, or the error it reports *)
  cl_site_bound : task_row → bool;              (* the joins of node_sites and applications on the Agent *)
  cl_site : task_row → res (string * Z * string);  (* nodeSiteTask: owner, revision and task *)
  cl_callback_url : res string;                 (* agentDecommissionCallbackURL *)
  cl_business_retired : bool;
  cl_cutover_freezes : bool;                    (* meridianCutoverBlocksLandingChanges *)
  cl_cutover_owns : bool;                       (* meridianOwnsLegacyLanding *)
  cl_refresh_required : bool;
  cl_referenced : task_row → res unit;          (* the applied plan keeps a referenced service *)
  cl_refresh : M unit;                          (* refreshClientLandingSources *)
  cl_server_ready : task_row → bool;            (* the landing server of a proxy state serves it *)
  cl_prerequisites : task_row → res bool;       (* clientLandingRoutePrerequisites *)
  cl_reinstall : task_row → option string       (* the task, unless the node changed since inspection *)
}.

Definition in_table (table : business_table) (t : task_row) : bool := bool_decide (tr_table t = table).

(** A pending row of the Agent. *)
Definition pending_row (table : business_table) (agentID : string) (t : task_row) : bool :=
  in_table table t && (tr_agent_id t =?s agentID) && (tr_state t =?s "pending").

(** [SET state=?,attempt=attempt+1,lease_expires_at=?,updated_at=?]. *)
Definition started (state : string) (now : Z) (t : task_row) : task_row :=
  set_tr_updated (rfc3339nano now)
    (set_tr_lease (rfc3339nano (now + taskLeaseDuration))
       (set_tr_attempt (tr_attempt t + 1) (set_tr_state state t))).

(** The statement that takes a row: [wh] names it, and it is still pending in the
    attempt that was read. *)
Definition take_row (table : business_table) (wh : task_row → bool) (attempt : Z)
    (set_row : task_row → task_row) : M Z :=
  update_tasks (λ t, in_table table t && wh t && (tr_state t =?s "pending") && (tr_attempt t =? attempt))
    set_row.

Definition plain_task (id kind : string) (attempt revision : Z) (input : string) : AgentTask :=
  mk_task id kind attempt revision "" false None None None None None None None None input.

Definition application_task (id kind : string) (attempt : Z) (application input : string) : AgentTask :=
  mk_task id kind attempt 1 application false None None None None None None None None input.

Section Host.
Context (rd : ClaimReads).

Definition claimTailscaleUpdate (agentID : string) (now : Z) : M (option AgentTask) :=
  do! row := query (λ st, sql_row (pending_row tailscale_update_tasks agentID) (tasks st)) in
  match row with
  | None => ok None
  | Some t =>
      do! input := lift (cl_input rd t) in
      do! n := take_row tailscale_update_tasks (λ x, tr_id x =?s tr_id t) (tr_attempt t)
                 (started "running" now) in
      expect_one n errStaleTaskLease ;;;
      ok (Some (plain_task (tr_id t) "tailscale.update" (tr_attempt t + 1) 1 input))
  end.

Definition claimNodeSecurity (agentID : string) (now : Z) : M (option AgentTask) :=
  do! row := query (λ st, sql_row (λ t, pending_row node_security_tasks agentID t
                                        && cl_capability rd "nodeSecurity") (tasks st)) in
  match row with
  | None => ok None
  | Some t =>
      do! input := lift (cl_input rd t) in
      do! n := take_row node_security_tasks (λ x, tr_id x =?s tr_id t) (tr_attempt t)
                 (started "running" now) in
      expect_one n errStaleTaskLease ;;;
      ok (Some (plain_task (tr_id t) "node.security" (tr_attempt t + 1) 1 input))
  end.

Definition claimIPQuality (agentID : string) (now : Z) : M (option AgentTask) :=
  do! row := query (λ st, sql_row (λ t, pending_row ip_quality_checks agentID t
                                        && cl_capability rd "ipQuality") (tasks st)) in
  match row with
  | None => ok None
  | Some t =>
      do! input := lift (cl_input rd t) in
      do! n := take_row ip_quality_checks (λ x, (tr_id x =?s tr_id t) && (tr_agent_id x =?s agentID))
                 (tr_attempt t) (started "running" now) in
      expect_one n errStaleTaskLease ;;;
      recordTaskEvent (tr_id t) agentID "node.ip-quality" 1 "claimed" "" now ;;;
      ok (Some (plain_task (tr_id t) "node.ip-quality" (tr_attempt t + 1) 1 input))
  end.

(** [tr_kind] of a recovery is its action. *)
Definition claimXrayConfigurationRecovery (agentID : string) (now : Z) : M (option AgentTask) :=
  do! row := query (λ st, sql_row (pending_row xray_configuration_recoveries agentID) (tasks st)) in
  match row with
  | None => ok None
  | Some t =>
      let kind := if tr_kind t =?s "inspect" then "xray.configuration.inspect"
                  else "xray.configuration.apply" in
      do! input := lift (cl_input rd t) in
      do! n := take_row xray_configuration_recoveries
                 (λ x, (tr_id x =?s tr_id t) && (tr_agent_id x =?s agentID)) (tr_attempt t)
                 (started "running" now) in
      expect_one n errStaleTaskLease ;;;
      recordTaskEvent (tr_id t) agentID kind 1 "claimed" "" now ;;;
      ok (Some (plain_task (tr_id t) kind (tr_attempt t + 1) 1 input))
  end.

(** [token] is the random callback token of the cleanup. *)
Definition claimAgentDecommission {L : Libraries} (agentID token : string) (now : Z)
    : M (option AgentTask) :=
  do! row := query (λ st, sql_row (pending_row agent_decommissions agentID) (tasks st)) in
  match row with
  | None => ok None
  | Some t =>
      let taskID := agentDecommissionTaskID agentID in
      do! url := lift (cl_callback_url rd) in
      do! n := take_row agent_decommissions (λ x, tr_agent_id x =?s agentID) (tr_attempt t)
                 (λ x, set_tr_error "" (set_tr_callback (token_hash token) (started "running" now x))) in
      expect_one n "center: Agent host cleanup changed while claiming" ;;;
      recordTaskEvent taskID agentID "agent.decommission" 1 "claimed"
        ("attempt " +:+ decimal (tr_attempt t + 1)) now ;;;
      ok (Some (plain_task taskID "agent.decommission" (tr_attempt t + 1) 1 (url +:+ " " +:+ token)))
  end.

(** ** Diagnostics *)
Definition link_kinds : list string := ["meridian.link-bandwidth"; "meridian.link-bandwidth-server"].
Definition osReinstallInspectionTargets : string :=
  "[" +:+ String (Ascii.ascii_of_nat 34) "os-reinstall-inspect-v1" +:+ String (Ascii.ascii_of_nat 34) "]".

(** The kinds of diagnostics the Agent supports. *)
Definition diagnostic_supported (t : task_row) : bool :=
  ((tr_kind t =?s "node.network-quality") && cl_capability rd "networkDiagnostics")
  || ((tr_kind t =?s "node.return-route") && cl_capability rd "returnRoute")
  || ((tr_kind t =?s "node.international-bandwidth") && cl_capability rd "bandwidthDiagnostics")
  || ((tr_kind t =?s "node.host-profile") && cl_capability rd "hostProfile"
      && ((cl_targets rd t =?s "[]")
          || ((cl_targets rd t =?s osReinstallInspectionTargets)
              && cl_capability rd "osReinstallPreflight")))
  || (str_in (tr_kind t) link_kinds && cl_capability rd "meridianLinkBandwidth"
      && (cl_link_revision rd =? 2)).

(** [ORDER BY created_at,kind LIMIT 1] as a fold that keeps the first least row. *)
Definition first_by {A} (less : A → A → bool) (l : list A) : option A :=
  fold_left (λ best t, match best with
                       | None => Some t
                       | Some b => if less t b then Some t else best
                       end) l None.

Definition created_then_kind (a b : task_row) : bool :=
  (tr_created_at a <?s tr_created_at b)
  || ((tr_created_at a =?s tr_created_at b) && (tr_kind a <?s tr_kind b)).

(** A pair measurement that was not started within four minutes has expired. *)
Definition expire_links (agentID : string) (now : Z) : M Z :=
  update_tasks
    (λ t, pending_row node_diagnostic_checks agentID t && str_in (tr_kind t) link_kinds
          && (tr_attempt t =? 0) && (tr_created_at t <?s rfc3339nano (now - 4 * minute)))
    (λ t, set_tr_error "expired" (set_tr_state "failed" t)).

Definition claimNodeDiagnostic (agentID : string) (now : Z) : M (option AgentTask) :=
  expire_links agentID now ;;;
  do! row := query (λ st, first_by created_then_kind
               (sql_select (λ t, pending_row node_diagnostic_checks agentID t && diagnostic_supported t)
                  (tasks st))) in
  match row with
  | None => ok None
  | Some t =>
      do! input := lift (cl_input rd t) in
      do! n := take_row node_diagnostic_checks
                 (λ x, (tr_id x =?s tr_id t) && (tr_agent_id x =?s agentID)) (tr_attempt t)
                 (started "running" now) in
      expect_one n errStaleTaskLease ;;;
      recordTaskEvent (tr_id t) agentID (tr_kind t) (tr_revision t) "claimed" "" now ;;;
      ok (Some (plain_task (tr_id t) (tr_kind t) (tr_attempt t + 1) (tr_revision t) input))
  end.

(** ** Websites *)

(** The task of the current revision of its site, whose application runs. *)
Definition site_current (st : Store) (agentID : string) (t : task_row) : bool :=
  pending_row node_site_tasks agentID t && cl_site_bound rd t
  && sql_exists (λ n, (ns_application_id n =?s tr_application_id t) && (ns_revision n =? tr_revision t))
       (node_sites st)
  && sql_exists (λ a, (ap_id a =?s tr_application_id t) && (ap_status a =?s "running")) (applications st).

Definition claimNodeSite (agentID : string) (now : Z) : M (option AgentTask) :=
  do! row := query (λ st, oldest_by tr_updated_at (sql_select (site_current st agentID) (tasks st))) in
  match row with
  | None => ok None
  | Some t =>
      do! site := lift (cl_site rd t) in
      let '(owner, revision, input) := site in
      fail_if (negb (owner =?s agentID) || negb (revision =? tr_revision t))
        "center: stale node site binding" ;;;
      do! n := take_row node_site_tasks (λ x, tr_id x =?s tr_id t) (tr_attempt t)
                 (started "running" now) in
      expect_one n errStaleTaskLease ;;;
      ok (Some (mk_task (tr_id t) "node.site.certificate" (tr_attempt t + 1) revision
                  (tr_application_id t) false None None None None None None None None input))
  end.

(** ** Applications *)

(** [(?='' OR id=?)]. *)
Definition required (requiredID : string) (t : task_row) : bool :=
  (requiredID =?s "") || (tr_id t =?s requiredID).

Definition claimApplicationAdoption (agentID requiredID : string) (now : Z) : M (option AgentTask) :=
  do! row := query (λ st, oldest_by tr_created_at
               (sql_select (λ t, pending_row application_adoptions agentID t && required requiredID t)
                  (tasks st))) in
  match row with
  | None => ok None
  | Some t =>
      do! input := lift (cl_input rd t) in
      take_row application_adoptions (λ x, tr_id x =?s tr_id t) (tr_attempt t) (started "running" now) ;;;
      ok (Some (application_task (tr_id t) "application.adopt" (tr_attempt t + 1) (tr_application_id t)
                  input))
  end.

(** [tr_kind] of a maintenance is its action. *)
Definition claimApplicationMaintenance (agentID requiredID : string) (now : Z) : M (option AgentTask) :=
  do! row := query (λ st, oldest_by tr_created_at
               (sql_select (λ t, pending_row application_maintenance agentID t && required requiredID t)
                  (tasks st))) in
  match row with
  | None => ok None
  | Some t =>
      do! input := lift (cl_input rd t) in
      do! n := take_row application_maintenance (λ x, tr_id x =?s tr_id t) (tr_attempt t)
                 (started "running" now) in
      expect_one n errStaleTaskLease ;;;
      recordTaskEvent (tr_id t) agentID "application.maintenance" 1 "claimed" "Package maintenance claimed"
        now ;;;
      ok (Some (mk_task (tr_id t) "application.maintenance" (tr_attempt t + 1) 1 (tr_application_id t) false
                  None None None None None (Some (tr_kind t)) None None input))
  end.

(** ** Desired states *)

(** [desired_revision > applied_revision AND status = 'pending']. *)
Definition state_due (table : business_table) (agentID : string) (t : task_row) : bool :=
  pending_row table agentID t && (tr_applied_revision t <? tr_revision t).

(** The statement that takes a desired state. *)
Definition take_state (table : business_table) (t : task_row) (message : string) (now : Z) : M unit :=
  do! n := take_row table (λ x, (tr_agent_id x =?s tr_agent_id t) && (tr_revision x =? tr_revision t))
             (tr_attempt t) (started "applying" now) in
  expect_one n message.

Definition state_task (t : task_row) (kind id input : string) : AgentTask :=
  plain_task id kind (tr_attempt t + 1) (tr_revision t) input.

Definition claimLandingServerTask (nodeID : string) (now : Z) : M (option AgentTask) :=
  if cl_business_retired rd || cl_cutover_freezes rd then ok None else
  do! row := query (λ st, sql_row (state_due landing_server_states nodeID) (tasks st)) in
  match row with
  | None => ok None
  | Some t =>
      do! input := lift (cl_input rd t) in
      do! current :=
        (if cl_refresh_required rd then
           lift (cl_referenced rd t) ;;;
           cl_refresh rd ;;;
           do! again := query (λ st, sql_row (state_due landing_server_states nodeID) (tasks st)) in
           match again with
           | None => fail errNoRows
           | Some t' =>
               do! input' := lift (match cl_input rd t' with
                                   | Ok x => Ok x
                                   | Err _ => Err "center: invalid recomposed landing service configuration"
                                   end) in
               ok (t', input')
           end
         else ok (t, input)) in
      let '(t', input') := current in
      take_state landing_server_states t' errStaleTaskLease now ;;;
      let task := state_task t' "landing.server.apply" (landingServerTaskID nodeID (tr_revision t')) input' in
      recordTaskEvent (at_id task) nodeID (at_kind task) (tr_revision t') "claimed"
        "landing service task claimed" now ;;;
      ok (Some task)
  end.

Definition claimLandingProxyTask (nodeID : string) (now : Z) : M (option AgentTask) :=
  if cl_business_retired rd || cl_cutover_owns rd then ok None else
  do! row := query (λ st, sql_row (λ t, state_due landing_proxy_states nodeID t && cl_server_ready rd t)
                            (tasks st)) in
  match row with
  | None => ok None
  | Some t =>
      do! input := lift (cl_input rd t) in
      do! ready := lift (cl_prerequisites rd t) in
      if negb ready then ok None else
      take_state landing_proxy_states t errStaleTaskLease now ;;;
      let task := state_task t "landing.proxy.apply" (landingProxyTaskID nodeID (tr_revision t)) input in
      recordTaskEvent (at_id task) nodeID (at_kind task) (tr_revision t) "claimed"
        "landing proxy task claimed" now ;;;
      ok (Some task)
  end.

Definition claimed_attempt (agentID : string) (task : AgentTask) (now : Z) : M unit :=
  recordTaskEvent (at_id task) agentID (at_kind task) (at_revision task) "claimed"
    ("attempt " +:+ decimal (at_attempt task)) now.

Definition claimNodeListenerTask (nodeID : string) (now : Z) : M (option AgentTask) :=
  do! row := query (λ st, sql_row (state_due node_listener_states nodeID) (tasks st)) in
  match row with
  | None => ok None
  | Some t =>
      do! input := lift (cl_input rd t) in
      take_state node_listener_states t "center: node listener task changed while claiming" now ;;;
      let task := state_task t "node.listener.apply" (nodeListenerTaskID nodeID (tr_revision t)) input in
      claimed_attempt nodeID task now ;;;
      ok (Some task)
  end.

(** The claim of [gateway.component.apply]; the input is [desired_status]. *)
Definition claim_component (agentID : string) (now : Z) : M (option AgentTask) :=
  do! row := query (λ st, sql_row (state_due gateway_components agentID) (tasks st)) in
  match row with
  | None => ok None
  | Some t =>
      do! input := lift (cl_input rd t) in
      take_state gateway_components t "center: gateway component task changed while claiming" now ;;;
      let task := state_task t "gateway.component.apply" (gatewayComponentTaskID agentID (tr_revision t)) input in
      claimed_attempt agentID task now ;;;
      ok (Some task)
  end.

(** The component of the Agent runs and is ready. *)
Definition gateway_serves (agentID : string) (st : Store) : bool :=
  sql_exists (λ c, in_table gateway_components c && (tr_agent_id c =?s agentID) && (tr_state c =?s "ready")
                   && match cl_input rd c with Ok desired => desired =?s "running" | Err _ => false end)
    (tasks st).

(** The claim of [gateway.routes.apply]; the routes of the revision become applying. *)
Definition claim_routes (agentID : string) (now : Z) : M (option AgentTask) :=
  do! row := query (λ st, sql_row (λ t, state_due gateway_states agentID t && gateway_serves agentID st)
                            (tasks st)) in
  match row with
  | None => ok None
  | Some t =>
      do! input := lift (cl_input rd t) in
      take_state gateway_states t "center: gateway desired state changed while claiming" now ;;;
      update_side (λ r, bool_decide (sd_table r = routes) && (sd_key r =?s agentID)
                        && (sd_revision r =? tr_revision t))
        (set_side_status "applying" (rfc3339nano now)) ;;;
      let task := state_task t "gateway.routes.apply" (gatewayRouteTaskID agentID (tr_revision t)) input in
      claimed_attempt agentID task now ;;;
      ok (Some task)
  end.

Definition claimTunnelTask (agentID : string) (now : Z) : M (option AgentTask) :=
  do! row := query (λ st, sql_row (state_due cloudflare_tunnels agentID) (tasks st)) in
  match row with
  | None => ok None
  | Some t =>
      do! input := lift (cl_input rd t) in
      take_state cloudflare_tunnels t "center: Tunnel desired state changed while claiming" now ;;;
      let task := state_task t "tunnel.state.apply" (tunnelTaskID agentID (tr_revision t)) input in
      claimed_attempt agentID task now ;;;
      ok (Some task)
  end.

(** ** Reinstallation *)

(** [claimOSReinstall]: the task, or [true] when the request was rejected because the
    node changed. *)
Definition claimOSReinstall (agentID : string) (now : Z) : M (option AgentTask * bool) :=
  do! row := query (λ st, sql_row (λ t, pending_row os_reinstall_tasks agentID t && (tr_attempt t =? 0))
                            (tasks st)) in
  match row with
  | None => ok (None, false)
  | Some t =>
      let own := λ x, (tr_id x =?s tr_id t) && (tr_agent_id x =?s agentID) in
      match cl_reinstall rd t with
      | None =>
          do! n := take_row os_reinstall_tasks own 0
                     (λ x, set_tr_updated (rfc3339nano now)
                             (set_tr_error "Node changed since inspection; inspect again"
                                (set_tr_state "cancelled" x))) in
          expect_one n errStaleTaskLease ;;;
          recordTaskEvent (tr_id t) agentID "node.os-reinstall" 1 "failed"
            "Node changed before reinstall was claimed" now ;;;
          ok (None, true)
      | Some input =>
          do! n := take_row os_reinstall_tasks own 0 (started "running" now) in
          expect_one n errStaleTaskLease ;;;
          recordTaskEvent (tr_id t) agentID "node.os-reinstall" 1 "claimed" "" now ;;;
          ok (Some (plain_task (tr_id t) "node.os-reinstall" 1 1 input), false)
      end
  end.

(** A machine that is being reinstalled runs no other task. *)
Definition os_reinstall_open (agentID : string) (st : Store) : bool :=
  sql_exists (λ t, in_table os_reinstall_tasks t && (tr_agent_id t =?s agentID)
                   && negb (str_in (tr_state t) ["succeeded"; "cancelled"])) (tasks st).

End Host.
