(* ===== verification/Dispatch.v ===== *)
(** * Choosing the next task of an Agent

    internal/center/deployment_tasks.go ([claimNextTask], [claimApplicationDeployment]),
    execution_claim.go ([claimExecutionTask]), application_command_tasks.go
    ([claimApplicationCommand]) and the claim of a machine that is being restored
    (agent_reinstall_preparation.go, agent_reinstall_listener.go,
    agent_reinstall_runtime.go).

    [claimNextTask] runs in two phases: checks and recoveries outside a transaction, and
    a transaction that repeats the checks, tries the claims of TaskClaims.v in a fixed
    order and commits the first task together with its permission.  A transaction that
    ends without calling the commit closure is rolled back. *)
From S2P Require Import Prelude GoText GoTime TaskIds Store Execution Claims Handoff Updates Leases.
From S2P Require Import TaskClaims.

(** The reads of [claimApplicationDeployment] outside the model, for one deployment. *)
Record DeploymentReads := mk_deployment_reads {
  dp_preparation : res bool;                    (* validateReinstallPreparation *)
  dp_monitor : res (option string);             (* reinstallMonitorRestoreTask: its credentials *)
  dp_current : res (option string);             (* reinstallCurrentTask: its credentials *)
  dp_manifest : res string;                     (* the decoded task *)
  dp_identity : res unit;                       (* owner, permissions, package identity, adoption state *)
  dp_official : bool;                           (* an install or upgrade of the official catalog *)
  dp_authorized : bool;                         (* the catalog still authorises the manifest *)
  dp_pre_status : string;                       (* pre_dispatch_application_status *)
  dp_generation : Z;                            (* the required runtime generation *)
  dp_address_ok : bool;                         (* no service address, or a parsable one *)
  dp_secrets : res unit;                        (* sealed secrets and registry credential open *)
  dp_progress : res unit                        (* recordReinstallPreparationProgress *)
}.

(** What the checks of a command's input decide, for its kind.  They read the accounts,
    endpoints and migrations of the packages, and write such tables in two cases. *)
Inductive prepared_command :=
| Claimable (fields : AgentTask)                (* the decoded payload, and the revision *)
| Deferred (writes : M unit)                    (* [return nil, nil]: not ready, or superseded *)
| Unclaimable (writes : M unit) (revision : Z) (cause : string)
                                                (* the mirrors of the command; then it is failed *)
| Refused (e : string).                         (* [return nil, err] *)

(** The reads of a claim outside the model, and the procedures that write such tables. *)
Record DispatchReads := mk_dispatch_reads {
  dx_claims : ClaimReads;
  dx_promoting : bool;                          (* gatewayPromotionPrepared *)
  dx_promoting_tx : bool;                       (* and again inside the transaction *)
  dx_aliases : M unit;                          (* beginDueSystemEndpointAliasRetirements *)
  dx_mirror : M unit;                           (* the Meridian part of recoverExpiredTasks *)
  dx_key_valid : bool;                          (* the Agent reported a valid X25519 key *)
  dx_generation : Z;                            (* agents.runtime_generation *)
  dx_landing_only : bool;                       (* '$.landingOnly' *)
  dx_native : AgentTask → bool;                 (* controlplane.NativeLifecycleAllowed of its package *)
  dx_deployable : task_row → bool;              (* the other conditions on a pending deployment *)
  dx_deployment : task_row → DeploymentReads;
  dx_attach : AgentTask → Store → res AgentTask;   (* attachPackageRecovery *)
  dx_receipt : AgentTask → option string;       (* PackageRecovery.ReceiptSHA256, when attached *)
  dx_queues : M unit;                           (* due resets, and commands queued for them *)
  dx_commandable : task_row → bool;             (* no pilot checkpoint of its application *)
  dx_reviewed : reinstall_row → task_row → bool;   (* the four authorities of a reinstallation *)
  dx_migration : task_row → bool;               (* '$.migrationId' of its input is not empty *)
  dx_prepare : Store → task_row → prepared_command;
  dx_reinstall_task : res string;               (* pendingAgentReinstallTask *)
  dx_listener_task : res (option (string * Z)); (* reinstallListenerTask: identifier and attempt *)
  dx_listener_taken : bool;                     (* the preparation row was pending *)
  dx_runtime_bound : task_row → bool;           (* a preparation whose deployment succeeded *)
  dx_runtime_valid : task_row → res unit;       (* validateReinstallPreparation *)
  dx_runtime : task_row → res (Z * string);     (* revision and payload, with the reviewed digest *)
  dx_runtime_operation : task_row → string      (* the operation of its preparation *)
}.

Definition applicationTaskRevision : Z := 1.
Definition ApplicationRuntimeGeneration : Z := 2.
Definition packageRecoveryVersion : string := "0.1.0-alpha.292".
Definition errApplicationCommandDiscarded : string :=
  "center: unclaimable application command was failed closed".

(** A task with its permission. *)
Record authorized_task := mk_authorized {
  ta_task : AgentTask; ta_authorization : ExecutionAuthorization
}.

(** How a transaction ends: with a committed task, with a committed rejection, or
    uncommitted. *)
Inductive outcome := Dispatched (t : authorized_task) | Discarded | Idle.

Section Dispatch.
Context {L : Libraries} {C : ControlCodec}.
Context (rd : DispatchReads) (Version : string) (scope : option (gset string)) (token : string).
(** The commit closure of the caller. *)
Context (commitAuthorized : option AgentTask → M (option authorized_task)).
Context (agentID : string) (now : Z).

(** ** The commit closure of a claim *)

(** The kinds a landing-only node may run, besides a native package. *)
Definition landing_kinds : list string :=
  ["landing.server.apply"; "agent.update"; "agent.decommission"; "node.security";
   "node.site.certificate"; "tailscale.update"].

Definition commitTask (task : option AgentTask) : M (option authorized_task) :=
  match task with
  | None => commitAuthorized None
  | Some t =>
      let nativeLifecycle := (at_kind t =?s "application.apply") && dx_native rd t in
      fail_if (dx_landing_only rd && negb nativeLifecycle && negb (str_in (at_kind t) landing_kinds))
        "center: task is not authorized for a landing-only node" ;;;
      commitAuthorized (Some t)
  end.

(** [if err := commitTask(tx, task); err != nil { return nil, err }; return task, nil]. *)
Definition deliver (task : option AgentTask) : M outcome :=
  do! r := commitTask task in
  ok (match r with Some t => Dispatched t | None => Discarded end).

(** [fmt.Errorf("...: %w", err)]. *)
Definition wrap_error {A} (prefix : string) (m : M A) : M A :=
  λ st, match m st with
        | (st', Err e) => (st', Err (prefix +:+ e))
        | r => r
        end.

(** The task of a claim is delivered; without one the next claim is tried. *)
Definition or_else (claim : M (option AgentTask)) (next : M outcome) : M outcome :=
  do! task := claim in
  match task with Some t => deliver (Some t) | None => next end.

(** [defer tx.Rollback()]: only a committed outcome keeps the writes. *)
Definition claim_transaction (m : M outcome) : M (option authorized_task) :=
  λ st, match m st with
        | (st', Ok (Dispatched t)) => (st', Ok (Some t))
        | (st', Ok Discarded) => (st', Ok None)
        | (_, Ok Idle) => (st, Ok None)
        | (_, Err e) => (st, Err e)
        end.

(** ** Deployments *)

(** [readPendingApplicationDeployment]. *)
Definition pending_deployment (requiredTaskID : string) (st : Store) : option task_row :=
  oldest_by tr_created_at
    (sql_select (λ t, pending_row deployments agentID t && dx_deployable rd t && required requiredTaskID t)
       (tasks st)).

Definition deployment_task (t : task_row) (restore : option string) (rest : string) : AgentTask :=
  mk_task (tr_id t) "application.apply" (tr_attempt t + 1) applicationTaskRevision (tr_application_id t)
    (tr_reconciliation_requested t) None None None None restore None None None rest.

Definition catalog_message : string := "Refresh the app catalog and retry this operation.".

(** A first dispatch that the catalog no longer authorises is failed. *)
Definition reject_deployment (t : task_row) : M outcome :=
  let stamp := rfc3339nano now in
  update_tasks (λ x, in_table deployments x && (tr_id x =?s tr_id t))
    (λ x, set_tr_updated stamp (set_tr_error catalog_message (set_tr_state "failed" x))) ;;;
  update_applications (λ a, (ap_id a =?s tr_application_id t) && (ap_status a =?s "pending"))
    (set_application_status (dp_pre_status (dx_deployment rd t)) stamp) ;;;
  recordTaskEvent (tr_id t) agentID "application.apply" applicationTaskRevision "failed" catalog_message
    now ;;;
  deliver None.

Definition claimApplicationDeployment (generation : Z) (t : task_row) : M outcome :=
  let dp := dx_deployment rd t in
  do! prepared := lift (dp_preparation dp) in
  do! restoredMonitor := lift (dp_monitor dp) in
  do! currentRestore := lift (dp_current dp) in
  let preparation := prepared || is_Some_b restoredMonitor || is_Some_b currentRestore in
  do! rest := lift (dp_manifest dp) in
  lift (dp_identity dp) ;;;
  if negb preparation && (tr_attempt t =? 0) && negb (tr_reconciliation_requested t) && dp_official dp
     && negb (dp_authorized dp)
  then reject_deployment t
  else
    let restore := match restoredMonitor with Some _ => restoredMonitor | None => currentRestore end in
    let task := deployment_task t restore rest in
    fail_if ((dp_generation dp <? 0) || (ApplicationRuntimeGeneration <? dp_generation dp))
      "center: deployment requires an unsupported application runtime generation" ;;;
    if generation <? dp_generation dp then ok Idle else
    fail_if (negb (dp_address_ok dp)) "center: deployment target has an invalid private service address" ;;;
    lift (dp_secrets dp) ;;;
    do! n := take_row deployments (λ x, tr_id x =?s tr_id t) (tr_attempt t) (started "running" now) in
    expect_one n "center: application task changed while claiming" ;;;
    update_applications (λ a, (ap_id a =?s tr_application_id t) && negb preparation)
      (set_application_status "deploying" (rfc3339nano now)) ;;;
    lift (if preparation then dp_progress dp else Ok tt) ;;;
    claimed_attempt agentID task now ;;;
    wrap_error "center: commit task claim: " (deliver (Some task)).

(** ** A machine that is being restored *)

Definition claimReinstallListener (id : string) : M outcome :=
  do! expected := lift (dx_listener_task rd) in
  match expected with
  | None => fail errExecutionAuthorization
  | Some (expectedID, expectedAttempt) =>
      do! task := claimNodeListenerTask (dx_claims rd) agentID now in
      match task with
      | None => fail errExecutionAuthorization
      | Some t =>
          fail_if (negb (at_id t =?s expectedID) || negb (at_attempt t =? expectedAttempt))
            errExecutionAuthorization ;;;
          fail_if (negb (dx_listener_taken rd)) errExecutionAuthorization ;;;
          deliver (Some t)
      end
  end.

(** The command of [reinstallRuntimeTask]. *)
Definition runtime_command (id : string) (st : Store) : option task_row :=
  sql_row (λ c, in_table application_commands c && (tr_id c =?s id) && (tr_agent_id c =?s agentID)
                && (tr_gateway_node_id c =?s agentID) && (tr_kind c =?s "meridian.runtime.apply")
                && negb (tr_reconciliation_requested c) && negb (tr_reconciliation_required c)
                && dx_runtime_bound rd c) (tasks st).

(** [reinstallRuntimeTask(.., false)]. *)
Definition reinstallRuntimeTask (id : string) (st : Store) : res (option (task_row * AgentTask)) :=
  match runtime_command id st with
  | None => if has_prefix "reinstall-runtime-" id then Err errExecutionAuthorization else Ok None
  | Some c =>
      dx_runtime_valid rd c ;;!
      guard_err (1 <? tr_attempt c) errExecutionAuthorization ;;!
      let! payload := dx_runtime rd c in
      Ok (Some (c, plain_task id "application.command" 1 (fst payload) (snd payload)))
  end.

Definition set_reinstall_updated (stamp : string) (r : reinstall_row) : reinstall_row :=
  mk_reinstall (ro_id r) (ro_agent_id r) (ro_authorized_by r) (ro_plan_revision r) (ro_plan_json r)
    (ro_previous_fingerprint r) (ro_replacement_fingerprint r) (ro_private_identity_json r) (ro_private_isolation r)
    (ro_attempt r) (ro_state r) (ro_enrollment_token_hash r) (ro_sealed_enrollment r) (ro_last_error r)
    (ro_created_at r) stamp.

(** [recordReinstallRuntimeProgress]. *)
Definition recordReinstallRuntimeProgress (operation : string) : M unit :=
  λ st, (with_reinstalls (sql_update (λ r, ro_id r =?s operation) (set_reinstall_updated (rfc3339nano now))
           (reinstall_operations st)) st, Ok tt).

Definition claimReinstallRuntime (id : string) : M outcome :=
  do! task := (λ st, (st, reinstallRuntimeTask id st)) in
  match task with
  | None => fail errExecutionAuthorization
  | Some (c, t) =>
      do! n := take_row application_commands (λ x, tr_id x =?s id) 0 (started "running" now) in
      expect_one n errExecutionAuthorization ;;;
      recordReinstallRuntimeProgress (dx_runtime_operation rd c) ;;;
      recordTaskEvent id agentID (at_kind t) (at_revision t) "claimed" "Restore approved runtime" now ;;;
      deliver (Some t)
  end.

(** The Agent is active and presents the current credential. *)
Definition credential_valid (credential : string) (st : Store) : bool :=
  sql_affected (λ a, (ag_id a =?s agentID) && (ag_status a =?s "active")
                     && (ag_credential_revoked_at a =?s "")
                     && (ag_credential_hash a =?s token_hash credential)) (agents st) =? 1.

Definition claimAgentReinstallTask (credential requiredTaskID : string) : M (option authorized_task) :=
  claim_transaction (
    do! paused := query executionClaimsPaused in
    fail_if paused errExecutionBlocked ;;;
    do! authorized := query (credential_valid credential) in
    fail_if (negb authorized) errExecutionAuthorization ;;;
    do! version := (λ st, (st, agent_version agentID st)) in
    fail_if (agentVersionBehindTarget version Version) errExecutionBlocked ;;;
    do! blocked := query (unresolvedExecutionBlocksAgentWork agentID version) in
    fail_if blocked errExecutionBlocked ;;;
    do! id := lift (dx_reinstall_task rd) in
    if has_prefix "node-listener-" id then claimReinstallListener id
    else if has_prefix "reinstall-runtime-" id then claimReinstallRuntime id
    else
      do! pending := query (pending_deployment id) in
      match pending with
      | None => fail errNoRows
      | Some t => claimApplicationDeployment (dx_generation rd) t
      end).

(** ** Ordinary work *)

(** With unresolved executions only a configuration recovery or an independent Agent
    update is claimed. *)
Definition fenced_work (requiredTaskID version : string) : M outcome :=
  or_else (claimXrayConfigurationRecovery (dx_claims rd) agentID now)
    (if requiredTaskID =?s "" then
       do! updateBlocked := query (unresolvedExecutionBlocksAgentUpdate agentID version) in
       if updateBlocked then fail errExecutionBlocked
       else or_else (claimAgentUpdate scope agentID now) (fail errExecutionBlocked)
     else fail errExecutionBlocked).

(** An older Agent may only repeat a reviewed package operation. *)
Definition outdated_work (requiredTaskID version : string) : M outcome :=
  if agentVersionBehindTarget version packageRecoveryVersion then ok Idle else
  do! pending := query (pending_deployment requiredTaskID) in
  match pending with
  | None => ok Idle
  | Some t =>
      do! rest := lift (dp_manifest (dx_deployment rd t)) in
      let pending := mk_task (tr_id t) "application.apply" (tr_attempt t + 1) 0 (tr_application_id t) false
                       None None None None None None None None rest in
      do! reviewed := (λ st, (st, dx_attach rd pending st)) in
      match dx_receipt rd reviewed with
      | Some "" => claimApplicationDeployment (dx_generation rd) t
      | _ => ok Idle
      end
  end.

(** ** Commands of applications *)

(** The commands that remain when the business functions are retired. *)
Definition retained_commands : list string :=
  ["pulse.node.reporting"; "pulse.node.rotate"; "pulse.enrollment.inspect"; "pulse.enrollment.create"].

Definition command_selected (st : Store) (t : task_row) : bool :=
  pending_row application_commands agentID t
  && (negb (cl_business_retired (dx_claims rd)) || str_in (tr_kind t) retained_commands)
  && dx_commandable rd t
  && negb (sql_exists (λ r, (ro_agent_id r =?s tr_gateway_node_id t)
                            && negb (str_in (ro_state r) ["superseded"; "completed"])
                            && negb (dx_reviewed rd r t)) (reinstall_operations st)).

(** Controller commands outside a migration come last. *)
Definition controller_last (t : task_row) : bool := (tr_kind t =?s "3xui.controller.manage") && negb (dx_migration rd t).
Definition command_before (t u : task_row) : bool :=
  if Bool.eqb (controller_last t) (controller_last u) then tr_created_at t <?s tr_created_at u
  else negb (controller_last t).

Definition command_unavailable : string := "center: application command is permanently unavailable".

(** [strings.TrimPrefix]. *)
Definition trim_prefix (prefix s : string) : string :=
  if has_prefix prefix s then String.substring (String.length prefix) (String.length s - String.length prefix) s else s.

Definition applicationCommandFailureMessage (cause : string) : string :=
  truncate_message (trim_prefix (command_unavailable +:+ ": ") (trim_space cause)).

Definition failUnclaimableApplicationCommand (commandID : string) (revision : Z) (cause : string) : M unit :=
  let message := applicationCommandFailureMessage cause in
  do! n := update_tasks (λ t, in_table application_commands t && (tr_id t =?s commandID) && (tr_state t =?s "pending"))
             (λ t, set_tr_updated (rfc3339nano now) (set_tr_error message (set_tr_lease "" (set_tr_state "failed" t)))) in
  expect_one n "center: application command changed while failing an unsafe claim" ;;;
  recordTaskEvent commandID agentID "application.command" (Z.max 1 revision) "failed" message now.

Definition command_task (t : task_row) (f : AgentTask) : AgentTask :=
  mk_task (tr_id t) "application.command" (tr_attempt t + 1) (at_revision f) "" (tr_reconciliation_requested t)
    (at_meridian_acceptance f) (at_senulun_reporting f) (at_senulun_rotation f) (at_senulun_inspection f) None None
    (at_client_action f) (at_node_command_worker f) (at_rest f).

Definition claimApplicationCommand : M (option AgentTask) :=
  (if cl_business_retired (dx_claims rd) then ok tt else dx_queues rd) ;;;
  do! row := query (λ st, first_by command_before (sql_select (command_selected st) (tasks st))) in
  match row with
  | None => ok None
  | Some t =>
      do! prepared := query (λ st, dx_prepare rd st t) in
      match prepared with
      | Refused e => fail e
      | Deferred writes => writes ;;; ok None
      | Unclaimable writes revision cause =>
          writes ;;;
          failUnclaimableApplicationCommand (tr_id t) revision cause ;;;
          fail errApplicationCommandDiscarded
      | Claimable fields =>
          do! n := take_row application_commands (λ x, tr_id x =?s tr_id t) (tr_attempt t)
                     (λ x, set_tr_error "" (started "running" now x)) in
          expect_one n "center: application operation changed while claiming" ;;;
          claimed_attempt agentID (command_task t fields) now ;;;
          match at_node_command_worker fields with
          | Some worker =>
              update_side (λ r, bool_decide (sd_table r = three_x_ui_nodes) && (sd_key r =?s worker))
                (set_side_status "applying" (rfc3339nano now))
          | None => ok tt
          end ;;;
          ok (Some (command_task t fields))
      end
  end.

(** The command claim: a command that cannot be claimed is failed and committed. *)
Definition command_or_else (next : M outcome) : M outcome :=
  λ st, match claimApplicationCommand st with
        | (st', Err e) => if e =?s errApplicationCommandDiscarded then deliver None st' else (st', Err e)
        | (st', Ok (Some t)) => deliver (Some t) st'
        | (st', Ok None) => next st'
        end.

(** The claims of the node itself, in their order. *)
Definition host_work : M outcome :=
  or_else (claimAgentDecommission (dx_claims rd) agentID token now)
  (or_else (claimXrayConfigurationRecovery (dx_claims rd) agentID now)
  (or_else (claimTailscaleUpdate (dx_claims rd) agentID now)
  (or_else (claimNodeSite (dx_claims rd) agentID now)
  (or_else (claimNodeSecurity (dx_claims rd) agentID now)
  (or_else (claimNodeDiagnostic (dx_claims rd) agentID now)
  (or_else (claimIPQuality (dx_claims rd) agentID now) (ok Idle))))))).

(** The claims of desired states, in their order. *)
Definition state_work : M outcome :=
  or_else (claimLandingServerTask (dx_claims rd) agentID now)
  (or_else (claimLandingProxyTask (dx_claims rd) agentID now)
  (or_else (claimNodeListenerTask (dx_claims rd) agentID now)
  (or_else (claim_component (dx_claims rd) agentID now)
  (or_else (claim_routes (dx_claims rd) agentID now)
  (or_else (wrap_error "center: read Tunnel desired state: "
              (claimTunnelTask (dx_claims rd) agentID now)) host_work))))).

(** Applications before everything else. *)
Definition current_work (requiredTaskID : string) : M outcome :=
  or_else (claimApplicationAdoption (dx_claims rd) agentID requiredTaskID now)
  (or_else (claimApplicationMaintenance (dx_claims rd) agentID requiredTaskID now)
     (do! pending := query (pending_deployment requiredTaskID) in
      match pending with
      | Some t => claimApplicationDeployment (dx_generation rd) t
      | None => if requiredTaskID =?s "" then command_or_else state_work else ok Idle
      end)).

(** An Agent without unresolved executions: a reinstallation owns the node, an update
    comes before every other task. *)
Definition free_work (requiredTaskID version : string) : M outcome :=
  let rest :=
    do! osReinstallBlocked := query (os_reinstall_open agentID) in
    fail_if osReinstallBlocked errExecutionBlocked ;;;
    or_else (if requiredTaskID =?s "" then claimAgentUpdate scope agentID now else ok None)
      (if agentVersionBehindTarget version Version then outdated_work requiredTaskID version
       else current_work requiredTaskID) in
  if requiredTaskID =?s "" then
    do! reinstall := claimOSReinstall (dx_claims rd) agentID now in
    match reinstall with
    | (_, true) => deliver None
    | (Some t, false) => deliver (Some t)
    | (None, false) => rest
    end
  else rest.

(** The body of the transaction of [claimNextTask]. *)
Definition claim_work (credential requiredTaskID version : string) : M outcome :=
  if dx_promoting_tx rd then ok Idle else
  do! reinstalling := query (λ st, agentReinstallBlocked st agentID) in
  fail_if reinstalling errExecutionBlocked ;;;
  do! paused := query executionClaimsPaused in
  fail_if paused errExecutionBlocked ;;;
  do! authorized := query (credential_valid credential) in
  fail_if (negb authorized) "center: invalid Agent credential" ;;;
  do! tailscalePending := query (λ st, tailscale_pending st agentID) in
  if tailscalePending then ok Idle else
  do! executionBlocked := query (unresolvedExecutionBlocksAgentWork agentID version) in
  if executionBlocked then fenced_work requiredTaskID version else free_work requiredTaskID version.

Definition claimNextTask (credential requiredTaskID : string) : M (option authorized_task) :=
  authenticateAgent agentID credential ;;;
  if dx_promoting rd then ok None else
  do! tailscaleWaiting := query (λ st, tailscale_pending st agentID) in
  if tailscaleWaiting then ok None else
  do! reinstalling := query (λ st, agentReinstallBlocked st agentID) in
  if reinstalling then claimAgentReinstallTask credential requiredTaskID else
  do! paused := query executionClaimsPaused in
  fail_if paused errExecutionBlocked ;;;
  dx_aliases rd ;;;
  do! version := (λ st, (st, match agent_version agentID st with
                             | Ok v => if dx_key_valid rd then Ok v
                                       else Err "center: Agent must heartbeat before claiming encrypted tasks"
                             | Err _ => Err "center: Agent must heartbeat before claiming encrypted tasks"
                             end)) in
  recoverExpiredTasks agentID (dx_mirror rd) now ;;;
  claim_transaction (claim_work credential requiredTaskID version).

End Dispatch.

(** ** A claim with its permission (execution_claim.go) *)
Section Claim.
Context {L : Libraries} {C : ControlCodec}.

(** The commit closure: the package recovery is attached and the permission stored in
    the transaction of the claim.  [id] is the random identifier of the permission. *)
Definition authorize (rd : DispatchReads) (agentID sessionID id : string)
    (reads : AgentTask → AuthorizationReads) (now : Z) (task : option AgentTask)
    : M (option authorized_task) :=
  match task with
  | None => ok None
  | Some t =>
      do! t' := (λ st, (st, dx_attach rd t st)) in
      do! auth := persistExecutionAuthorization agentID sessionID id t' (reads t') now in
      ok (Some (mk_authorized t' auth))
  end.

(** One round of [claimExecutionTask]; the waiting between rounds is that of
    Notifier.v. *)
Definition claimExecutionTask (rd : DispatchReads) (Version : string) (scope : option (gset string))
    (token agentID credential sessionID id : string) (allowed : ReinstallReads)
    (reads : AgentTask → AuthorizationReads) (now : Z) : M (option authorized_task) :=
  executionClaimAllowed agentID sessionID allowed now ;;;
  claimNextTask rd Version scope token (authorize rd agentID sessionID id reads now) agentID now
    credential "".

End Claim.
