(* ===== verification/DispatchSpec.v ===== *)
(** * What the choice of a task guarantees

    Every claim of TaskClaims.v leaves executions and sessions alone and returns only a
    task whose row it has put under a lease in that very attempt ([Claims]).  From this
    [claimExecutionTask] is shown to refine the protocol of Protocol.v, so that the
    safety theorems hold for it, and the conditions under which a task is delivered are
    derived. *)
From S2P Require Import Prelude GoText GoTime TaskIds Store Execution Claims Handoff Updates Leases.
From S2P Require Import Hoare Guards Lifecycle Evolution Legacy Protocol TaskClaims Dispatch.

(** ** Operations on business tables *)

(** Executions, their events and the sessions are the same. *)
Record framed (st st' : Store) : Prop := mk_framed {
  fr_executions : executions st' = executions st;
  fr_events : execution_events st' = execution_events st;
  fr_sessions : sessions st' = sessions st;
  fr_history : session_history st' = session_history st
}.

#[export] Instance framed_preorder : PreOrder framed.
Proof.
  split; [by split|]. intros a b c [] []. split; congruence.
Qed.

Definition Business {A} (m : M A) : Prop := ∀ st, framed st (fst (m st)).

Lemma business_of_op m : business_op m → Business m.
Proof. intros H st. destruct (H st) as (?&?&?&?). by split. Qed.

Section Rules.
Context {A B : Type}.
Implicit Types (m : M A) (k : A → M B).

Lemma business_reads m : reads m → Business m.
Proof. intros H st. rewrite H. reflexivity. Qed.
Lemma business_bind m k : Business m → (∀ a, Business (k a)) → Business (bindM m k).
Proof.
  intros Hm Hk st. unfold bindM. specialize (Hm st). destruct (m st) as [st1 [a|e]]; simpl in *; [|done].
  etrans; [exact Hm|apply Hk].
Qed.
Lemma business_wrap p m : Business m → Business (wrap_error p m).
Proof. intros Hm st. unfold wrap_error. specialize (Hm st). by destruct (m st) as [st1 [a|e]]. Qed.
End Rules.

Lemma business_update_tasks wh f : Business (update_tasks wh f).
Proof. intros st. by split. Qed.
Lemma business_update_side wh f : Business (update_side wh f).
Proof. intros st. by split. Qed.
Lemma business_update_applications wh f : Business (update_applications wh f).
Proof. intros st. by split. Qed.
Lemma business_event t a k r e m n : Business (recordTaskEvent t a k r e m n).
Proof. intros st. by split. Qed.
Lemma business_expect n e : Business (expect_one n e).
Proof. apply business_reads, reads_fail_if. Qed.

Create HintDb business.
Create HintDb claims.
#[export] Hint Resolve business_update_tasks business_update_side business_update_applications
  business_event business_expect : business.

Ltac business_step :=
  lazymatch goal with
  | |- Business (bindM _ _) => apply business_bind; [|intros ?]
  | |- Business (wrap_error _ _) => apply business_wrap
  | |- Business (match ?x with _ => _ end) => destruct x
  | |- Business _ => first [solve [eauto with business] | apply business_reads; solve [auto with vastora]]
  end.
Ltac business := repeat business_step.

(** ** Rows under a lease *)

(** The identifier under which a row is issued as a task. *)
Definition issued_id (t : task_row) : string :=
  match tr_table t with
  | landing_proxy_states => landingProxyTaskID (tr_agent_id t) (tr_revision t)
  | landing_server_states => landingServerTaskID (tr_agent_id t) (tr_revision t)
  | gateway_states => gatewayRouteTaskID (tr_agent_id t) (tr_revision t)
  | gateway_components => gatewayComponentTaskID (tr_agent_id t) (tr_revision t)
  | node_listener_states => nodeListenerTaskID (tr_agent_id t) (tr_revision t)
  | cloudflare_tunnels => tunnelTaskID (tr_agent_id t) (tr_revision t)
  | agent_decommissions => agentDecommissionTaskID (tr_agent_id t)
  | _ => tr_id t
  end.

(** The task is an attempt of one of the Agent's rows, started now under a lease. *)
Record leased (agentID : string) (now : Z) (task : AgentTask) (st : Store) : Prop := mk_leased {
  ls_row : ∃ t, t ∈ tasks st ∧ tr_agent_id t = agentID ∧ issued_id t = at_id task ∧
    tr_attempt t = at_attempt task ∧ tr_state t ∈ ["running"; "applying"] ∧
    tr_lease_expires_at t = lease now taskLeaseDuration
}.

(** The command that restores a runtime is taken by its identifier; the command it was read
    from, with this identifier, belongs to the Agent. *)
Definition restored_command (now : Z) (task : AgentTask) (st : Store) : Prop :=
  at_kind task = "application.command" ∧ has_prefix "reinstall-runtime-" (at_id task) = true ∧ at_attempt task = 1 ∧
  ∃ t, t ∈ tasks st ∧ tr_table t = application_commands ∧ tr_id t = at_id task ∧ tr_attempt t = 1 ∧
    tr_state t = "running" ∧ tr_lease_expires_at t = lease now taskLeaseDuration.

Definition held (agentID : string) (now : Z) (task : AgentTask) (st : Store) : Prop :=
  leased agentID now task st ∨ restored_command now task st.

Lemma first_by_in {A} (less : A → A → bool) l t : first_by less l = Some t → t ∈ l.
Proof.
  unfold first_by.
  assert (G : ∀ l b, fold_left (λ best t, match best with
                       | None => Some t | Some b => if less t b then Some t else best end) l b = Some t →
                     b = Some t ∨ t ∈ l); [|by intros [|]%G].
  clear l. induction l as [|x l IH]; simpl; intros b H; [by left|].
  destruct (IH _ H) as [Hb|?]; [|right; by right]. destruct b as [b|]; [|injection Hb as ->; right; by left].
  destruct (less x b); [injection Hb as ->; right; by left|by left].
Qed.

Lemma oldest_by_in {A} (created : A → string) l t : oldest_by created l = Some t → t ∈ l.
Proof. apply first_by_in. Qed.

Lemma select_in {A} (wh : A → bool) l t : t ∈ sql_select wh l → t ∈ l ∧ wh t = true.
Proof. unfold sql_select. rewrite list_elem_of_In, filter_In, <- list_elem_of_In. done. Qed.

(** A row whose statement selected it is among the updated ones. *)
Lemma updated_in {A} (wh : A → bool) f l t : t ∈ l → wh t = true → f t ∈ sql_update wh f l.
Proof.
  intros Hin Hw. unfold sql_update. apply list_elem_of_fmap. exists t. by rewrite Hw.
Qed.

Lemma pending_row_spec table a t :
  pending_row table a t = true → tr_table t = table ∧ tr_agent_id t = a ∧ tr_state t = "pending".
Proof.
  unfold pending_row, in_table. intros H. by bool_prop.
Qed.

Lemma state_due_pending table a t : state_due table a t = true → pending_row table a t = true.
Proof. unfold state_due. intros H. by bool_prop. Qed.

Section Statements.
Context {B : Type}.
Implicit Types (R : Store → B → Prop).

Lemma wp_take_row table wh attempt f (k : Z → M B) a t st R :
  t ∈ tasks st → pending_row table a t = true → tr_attempt t = attempt → wh t = true →
  (∀ n st1, framed st st1 → f t ∈ tasks st1 → wp (k n) st1 R) →
  wp (bindM (take_row table wh attempt f) k) st R.
Proof.
  intros Hin Hp <- Hw Hk. unfold take_row. apply wp_update_tasks. apply Hk; [by split|].
  simpl. apply updated_in; [done|]. apply pending_row_spec in Hp as (Ht & _ & Hs).
  unfold in_table. by rewrite Hw, Hs, Z.eqb_refl, bool_decide_true.
Qed.

Lemma wp_quiet {A} (m : M A) (k : A → M B) st R :
  Business m → (∀ st, tasks (fst (m st)) = tasks st) →
  (∀ a st1, framed st st1 → tasks st1 = tasks st → wp (k a) st1 R) → wp (bindM m k) st R.
Proof.
  intros Hb Ht Hk. apply wp_bind. intros st1 a E. apply Hk.
  - specialize (Hb st). by rewrite E in Hb.
  - specialize (Ht st). by rewrite E in Ht.
Qed.
End Statements.

Lemma wp_wrap {A} p (m : M A) st Q : wp m st Q → wp (wrap_error p m) st Q.
Proof.
  intros Hm st' r E. unfold wrap_error in E. destruct (m st) as [st1 [x|e]] eqn:Em; [|discriminate E].
  simplify_eq. by apply Hm.
Qed.

(** Membership among concrete kinds. *)
Lemma kind_in k K : str_in k K = true → k ∈ K.
Proof. apply str_in_spec. Qed.

Lemma kinds_in K K' : forallb (λ k, str_in k K') K = true → ∀ k, k ∈ K → k ∈ K'.
Proof. rewrite forallb_forall. intros H k Hk. apply kind_in, H. by apply list_elem_of_In. Qed.

(** A claim of the Agent: business tables only, and a task of one of the kinds [K]
    whose row is under a lease. *)
Definition Claims (agentID : string) (now : Z) (K : list string) (m : M (option AgentTask)) : Prop :=
  ∀ st, wp m st (λ st' r, framed st st' ∧
    ∀ task, r = Some task → at_kind task ∈ K ∧ leased agentID now task st').

Lemma claims_none a now K : Claims a now K (ok None).
Proof. intros st. apply wp_ok. split; [reflexivity|done]. Qed.

Lemma claims_mono a now K K' m : (∀ k, k ∈ K → k ∈ K') → Claims a now K m → Claims a now K' m.
Proof.
  intros HK Hm st. eapply wp_mono; [apply Hm|]. intros st' r [Hf Hr]. split; [done|].
  intros task E. destruct (Hr task E). auto.
Qed.

Lemma claims_wrap a now K p m : Claims a now K m → Claims a now K (wrap_error p m).
Proof. intros Hm st. apply wp_wrap, Hm. Qed.

(** The row of a claim is found, then taken, and the rest leaves the tasks alone. *)
Lemma claimed_row {A} (find : Store → option A) (k : A → M (option AgentTask)) a now (K : list string) st :
  (∀ x, find st = Some x → wp (k x) st (λ st' r, framed st st' ∧
     ∀ task, r = Some task → at_kind task ∈ K ∧ leased a now task st')) →
  wp (bindM (query find) (λ row, match row with None => ok None | Some x => k x end)) st
    (λ st' r, framed st st' ∧ ∀ task, r = Some task → at_kind task ∈ K ∧ leased a now task st').
Proof.
  intros H. apply wp_query. destruct (find st) eqn:E; [by apply H|].
  apply wp_ok. split; [reflexivity|done].
Qed.

(** What follows from the row that was found. *)
Ltac row_found H :=
  lazymatch type of H with
  | sql_row _ _ = Some _ => apply sql_row_spec in H as [? H]
  | oldest_by _ _ = Some _ => apply oldest_by_in, select_in in H as [? H]
  | first_by _ _ = Some _ => apply first_by_in, select_in in H as [? H]
  end.

(** The row of the claim, after its update, is the lease of the task. *)
Ltac claim_done :=
  apply wp_ok; split; [repeat (etrans; [eassumption|]); reflexivity|];
  intros ? [= <-]; split; [cbn; set_solver|]; split;
  repeat match goal with Ht : tasks _ = tasks _ |- _ => rewrite Ht; clear Ht end;
  eexists; split; [eassumption|]; cbn;
  repeat match goal with H : tr_agent_id _ = _ |- _ => rewrite H end;
  unfold issued_id; cbn;
  repeat match goal with H : tr_table _ = _ |- _ => rewrite H end;
  repeat match goal with H : tr_agent_id _ = _ |- _ => rewrite H end;
  repeat split; set_solver.

Ltac claim_quiet :=
  apply wp_quiet; [solve [business]
                  |first [done | by intros ?; unfold expect_one, fail_if; case_match]
                  |intros ? ? ? ?].

Section Single.
Context {L : Libraries} (rd : ClaimReads) (a : string) (now : Z).

Ltac claim_row H :=
  let Ht := fresh in let Ha := fresh in let Hs := fresh in
  pose proof (pending_row_spec _ _ _ H) as (Ht & Ha & Hs);
  eapply wp_take_row; [done|exact H|reflexivity|by rewrite ?Ha, ?String.eqb_refl, ?Z.eqb_refl|];
  intros ? ? ? ?; repeat claim_quiet; claim_done.

Lemma claims_tailscale : Claims a now ["tailscale.update"] (claimTailscaleUpdate rd a now).
Proof. intros st. apply claimed_row. intros t H. row_found H. repeat wp_step. claim_row H. Qed.

Lemma claims_security : Claims a now ["node.security"] (claimNodeSecurity rd a now).
Proof.
  intros st. apply claimed_row. intros t H. row_found H. bool_prop. repeat wp_step. claim_row H.
Qed.

Lemma claims_ip_quality : Claims a now ["node.ip-quality"] (claimIPQuality rd a now).
Proof.
  intros st. apply claimed_row. intros t H. row_found H. bool_prop. repeat wp_step. claim_row H.
Qed.

Lemma claims_xray :
  Claims a now ["xray.configuration.inspect"; "xray.configuration.apply"]
    (claimXrayConfigurationRecovery rd a now).
Proof.
  intros st. apply claimed_row. intros t H. row_found H. cbv zeta.
  destruct (tr_kind t =?s "inspect"); repeat wp_step; claim_row H.
Qed.

Lemma claims_decommission token :
  Claims a now ["agent.decommission"] (claimAgentDecommission rd a token now).
Proof.
  intros st. apply claimed_row. intros t H. row_found H. cbv zeta. repeat wp_step. claim_row H.
Qed.

Lemma claims_site : Claims a now ["node.site.certificate"] (claimNodeSite rd a now).
Proof.
  intros st. apply claimed_row. intros t H. row_found H. unfold site_current in H. bool_prop.
  apply wp_lift. intros [[owner revision] input] _. repeat wp_step. claim_row H.
Qed.

Lemma claims_adoption required :
  Claims a now ["application.adopt"] (claimApplicationAdoption rd a required now).
Proof.
  intros st. apply claimed_row. intros t H. row_found H. bool_prop. repeat wp_step. claim_row H.
Qed.

Lemma claims_maintenance required :
  Claims a now ["application.maintenance"] (claimApplicationMaintenance rd a required now).
Proof.
  intros st. apply claimed_row. intros t H. row_found H. bool_prop. repeat wp_step. claim_row H.
Qed.
(** The kinds of diagnostics. *)
Definition diagnostic_kinds : list string :=
  ["node.network-quality"; "node.return-route"; "node.international-bandwidth"; "node.host-profile"]
  ++ link_kinds.

Lemma diagnostic_supported_kind t : diagnostic_supported rd t = true → tr_kind t ∈ diagnostic_kinds.
Proof.
  unfold diagnostic_supported, diagnostic_kinds, str_in. intros H.
  repeat (apply orb_prop in H as [H|H]); bool_prop;
    try (match goal with H : tr_kind t = _ |- _ => rewrite H; set_solver end).
  apply existsb_exists in H as (x & Hx & ->%String.eqb_eq). apply elem_of_app. right.
  by apply list_elem_of_In.
Qed.

Lemma claims_diagnostic : Claims a now diagnostic_kinds (claimNodeDiagnostic rd a now).
Proof.
  intros st. unfold claimNodeDiagnostic, expire_links. apply wp_update_tasks.
  match goal with |- wp _ ?s _ => set (st0 := s) end.
  assert (F0 : framed st st0) by by split.
  eapply wp_mono; [apply (claimed_row _ _ a now diagnostic_kinds)|].
  - intros t H. row_found H. bool_prop. repeat wp_step.
    match goal with H : diagnostic_supported _ _ = true |- _ => apply diagnostic_supported_kind in H end.
    claim_row H.
  - intros st' r [F ?]. split; [by etrans|done].
Qed.

Lemma wp_take_state {B} table t message (k : unit → M B) st R :
  t ∈ tasks st → state_due table a t = true →
  (∀ st1, framed st st1 → started "applying" now t ∈ tasks st1 → wp (k tt) st1 R) →
  wp (bindM (take_state table t message now) k) st R.
Proof.
  intros Hin Hd Hk. apply state_due_pending in Hd. apply wp_bind. unfold take_state.
  eapply wp_take_row; [done|exact Hd|reflexivity|by rewrite !String.eqb_refl, Z.eqb_refl|].
  intros n st1 Hf Hs. unfold expect_one. wp_step. by apply Hk.
Qed.

Ltac claim_state H :=
  eapply wp_take_state; [done|exact H|]; intros ? ? ?; cbv zeta; repeat claim_quiet;
  apply state_due_pending, pending_row_spec in H as (?&?&?); claim_done.

Lemma claims_landing_proxy : Claims a now ["landing.proxy.apply"] (claimLandingProxyTask rd a now).
Proof.
  intros st. unfold claimLandingProxyTask. destruct (_ || _); [apply claims_none|].
  apply claimed_row. intros t H. row_found H. bool_prop. do 2 wp_step. wp_step; [apply claims_none|].
  claim_state H.
Qed.

Lemma claims_listener : Claims a now ["node.listener.apply"] (claimNodeListenerTask rd a now).
Proof. intros st. apply claimed_row. intros t H. row_found H. wp_step. claim_state H. Qed.

Lemma claims_component : Claims a now ["gateway.component.apply"] (claim_component rd a now).
Proof. intros st. apply claimed_row. intros t H. row_found H. wp_step. claim_state H. Qed.

Lemma claims_routes : Claims a now ["gateway.routes.apply"] (claim_routes rd a now).
Proof. intros st. apply claimed_row. intros t H. row_found H. bool_prop. wp_step. claim_state H. Qed.

Lemma claims_tunnel : Claims a now ["tunnel.state.apply"] (claimTunnelTask rd a now).
Proof. intros st. apply claimed_row. intros t H. row_found H. wp_step. claim_state H. Qed.

Lemma claims_landing_server :
  Business (cl_refresh rd) → Claims a now ["landing.server.apply"] (claimLandingServerTask rd a now).
Proof.
  intros Hr st. unfold claimLandingServerTask. destruct (_ || _); [apply claims_none|].
  apply claimed_row. intros t H. row_found H. wp_step. apply wp_bind.
  apply (wp_mono _ _ (λ st1 '(t', _), framed st st1 ∧ t' ∈ tasks st1 ∧
                        state_due landing_server_states a t' = true)).
  - case_match; [|by apply wp_ok]. wp_step. apply wp_bind. intros st1 [] E.
    specialize (Hr st). rewrite E in Hr. wp_step. wp_step; [|wp_step].
    match goal with H : sql_row _ _ = Some _ |- _ => row_found H end.
    wp_step. by apply wp_ok.
  - intros st1 [t' input'] (Hf & Hin & Hd). claim_state Hd.
Qed.

(** The update of the Agent itself. *)
Lemma claims_update scope : Claims a now ["agent.update"] (claimAgentUpdate scope a now).
Proof.
  intros st. unfold claimAgentUpdate. destruct (negb _); [apply claims_none|].
  apply claimed_row. unfold pending_update, is_update. intros t H. row_found H.
  apply wp_bind. intros st1 n [= <- <-]. bool_prop.
  match goal with |- wp _ (with_tasks (sql_update ?w ?f _) _) _ =>
    assert (Hin : f t ∈ sql_update w f (tasks st)) by
      (apply (updated_in w f); [done|]; 
       match goal with H : tr_agent_id t = a, H' : tr_state t = _, Ht : tr_table t = _ |- _ =>
         by rewrite H, H', Ht, !String.eqb_refl, Z.eqb_refl end)
  end.
  match goal with |- wp _ ?s _ => set (st1 := s); change (sql_update _ _ _) with (tasks st1) in Hin end.
  assert (F1 : framed st st1) by by split.
  repeat claim_quiet. claim_done.
Qed.

Lemma claims_reinstall st :
  wp (claimOSReinstall rd a now) st (λ st' '(r, _), framed st st' ∧
    ∀ task, r = Some task → at_kind task ∈ ["node.os-reinstall"] ∧ leased a now task st').
Proof.
  unfold claimOSReinstall. apply wp_query. destruct (sql_row _ _) as [t|] eqn:H; [|by apply wp_ok].
  row_found H. bool_prop. cbv zeta.
  match goal with H : tr_attempt t = 0 |- _ => rename H into Hz end.
  destruct (cl_reinstall rd t) as [input|].
  - pose proof (pending_row_spec _ _ _ H) as (Ht & Ha & Hs).
    eapply wp_take_row; [done|exact H|exact Hz|by rewrite Ha, !String.eqb_refl|]. intros n st1 Hf Hin.
    repeat claim_quiet. apply wp_ok. split; [repeat (etrans; [eassumption|]); reflexivity|].
    intros task [= <-]. split; [set_solver|]. split. exists (started "running" now t).
    repeat match goal with Ht : tasks _ = tasks _ |- _ => rewrite Ht; clear Ht end.
    unfold issued_id. cbn. rewrite Ht, Hz. repeat split; try done. set_solver.
  - intros st' [r b] E. split.
    + match type of E with ?m st = _ => assert (B : Business m) by business end.
      specialize (B st). by rewrite E in B.
    + intros task ->. exfalso. unfold bindM, take_row, update_tasks, expect_one, fail_if, ok in E.
      destruct (negb _) in E; discriminate E.
Qed.
End Single.

(** ** Delivery *)
Section Delivery.
Context {L : Libraries} {C : ControlCodec}.
Context (rd : DispatchReads) (Version : string) (scope : option (gset string)) (token : string).
Context (a sessionID id : string) (reads : AgentTask → AuthorizationReads) (now : Z).

(** The procedures outside the model write business tables only, and the recovery that is
    attached to a task does not change what it is. *)
Record dispatch_ok : Prop := mk_dispatch_ok {
  do_aliases : business_op (dx_aliases rd);
  do_mirror : business_op (dx_mirror rd);
  do_refresh : business_op (cl_refresh (dx_claims rd));
  do_queues : business_op (dx_queues rd);
  do_deferred : ∀ st t m, dx_prepare rd st t = Deferred m → business_op m;
  do_unclaimable : ∀ st t m revision cause, dx_prepare rd st t = Unclaimable m revision cause → business_op m;
  do_attach : ∀ task st task', dx_attach rd task st = Ok task' →
    at_id task' = at_id task ∧ at_kind task' = at_kind task ∧ at_attempt task' = at_attempt task
}.
Context (Hok : dispatch_ok).

Abbreviation commit := (authorize rd a sessionID id reads now).

(** The transaction from [st] ended in [st']: a delivered task is of one of the kinds
    [K], its row was under a lease when the permission was stored, and nothing else but
    business tables changed. *)
Definition delivered (K : list string) (st st' : Store) (r : outcome) : Prop :=
  match r with
  | Dispatched ta =>
      ∃ st1 task, framed st st1 ∧ at_kind task ∈ K ∧
        held a now task st1 ∧
        commitTask rd commit (Some task) st1 = (st', Ok (Some ta))
  | _ => framed st st'
  end.

Definition Delivers (K : list string) (m : M outcome) : Prop := ∀ st, wp m st (delivered K st).

Lemma delivered_trans K st st1 st' r : framed st st1 → delivered K st1 st' r → delivered K st st' r.
Proof.
  intros Hf. destruct r; simpl; [|intros ?; by etrans|intros ?; by etrans].
  intros (st2 & task & ? & ? & ? & ?). exists st2, task. split; [by etrans|done].
Qed.

Lemma delivers_idle K : Delivers K (ok Idle).
Proof. intros st. apply wp_ok. simpl. reflexivity. Qed.

Lemma delivers_fail K e : Delivers K (fail e).
Proof. intros st. apply wp_fail. Qed.

Lemma delivers_none K : Delivers K (deliver rd commit None).
Proof. intros st. unfold deliver. cbn. apply wp_ok. simpl. reflexivity. Qed.

Lemma commit_some task st : wp (commitTask rd commit (Some task)) st (λ _ r, ∃ ta, r = Some ta).
Proof.
  unfold commitTask. cbv zeta. wp_step. unfold authorize. wp_step. apply wp_bind. intros st' auth _.
  apply wp_ok. eauto.
Qed.

Lemma deliver_some K task st :
  at_kind task ∈ K → held a now task st →
  wp (deliver rd commit (Some task)) st (delivered K st).
Proof.
  intros Hk Hl. unfold deliver. apply wp_bind. intros st' r E. apply wp_ok.
  destruct (commit_some task st st' r E) as [ta ->]. by exists st, task.
Qed.

Lemma delivers_business {A} K (m : M A) k :
  Business m → (∀ x, Delivers K (k x)) → Delivers K (bindM m k).
Proof.
  intros Hm Hk st. apply wp_bind. intros st1 x E. specialize (Hm st). rewrite E in Hm.
  eapply wp_mono; [apply Hk|]. intros st' r. by apply delivered_trans.
Qed.

Lemma delivers_reads {A} K (m : M A) k :
  Hoare.reads m → (∀ x, Delivers K (k x)) → Delivers K (bindM m k).
Proof. intros Hm Hk. by apply delivers_business; [apply business_reads|]. Qed.

Lemma delivers_or_else K m next :
  Claims a now K m → Delivers K next → Delivers K (or_else rd commit m next).
Proof.
  intros Hm Hn st. unfold or_else. apply wp_bind. eapply wp_mono; [apply Hm|].
  intros st1 [task|] [Hf Hr].
  - destruct (Hr task eq_refl) as [Hk Hl].
    eapply wp_mono; [apply deliver_some; [done|by left]|]. intros st' r. by apply delivered_trans.
  - eapply wp_mono; [apply Hn|]. intros st' r. by apply delivered_trans.
Qed.

Lemma pending_deployment_spec required st t :
  pending_deployment rd a required st = Some t → t ∈ tasks st ∧ pending_row deployments a t = true.
Proof. intros H. unfold pending_deployment in H. row_found H. by bool_prop. Qed.

Lemma reject_delivers K t : Delivers K (reject_deployment rd commit a now t).
Proof.
  unfold reject_deployment. cbv zeta.
  repeat (apply delivers_business; [solve [business]|intros ?]). apply delivers_none.
Qed.

Lemma deployment_delivers K generation t st :
  "application.apply" ∈ K → t ∈ tasks st → pending_row deployments a t = true →
  wp (claimApplicationDeployment rd commit a now generation t) st (delivered K st).
Proof.
  intros HK Hin Hp. unfold claimApplicationDeployment. cbv zeta. do 5 wp_step.
  destruct (_ && _ && _ && _ && _).
  - apply reject_delivers.
  - wp_step. wp_step; [by apply wp_ok|]. do 2 wp_step.
    pose proof (pending_row_spec _ _ _ Hp) as (Ht & Ha & Hs).
    eapply wp_take_row; [done|exact Hp|reflexivity|by rewrite String.eqb_refl|]. intros n st1 Hf Hin1.
    repeat claim_quiet.
    eapply wp_mono; [apply wp_wrap, deliver_some|].
    + exact HK.
    + left. split. exists (started "running" now t).
      repeat match goal with Ht : tasks _ = tasks _ |- _ => rewrite Ht; clear Ht end.
      unfold issued_id. cbn. rewrite Ht. repeat split; try done. set_solver.
    + intros st' r. apply delivered_trans. repeat (etrans; [eassumption|]). reflexivity.
Qed.

Lemma delivered_mono K K' st st' r : (∀ k, k ∈ K → k ∈ K') → delivered K st st' r → delivered K' st st' r.
Proof.
  intros HK. destruct r; simpl; [|done|done]. intros (st1 & task & ? & ? & ? & ?). exists st1, task. eauto.
Qed.

Lemma delivers_mono K K' m : (∀ k, k ∈ K → k ∈ K') → Delivers K m → Delivers K' m.
Proof. intros HK Hm st. eapply wp_mono; [apply Hm|]. intros st' r. by apply delivered_mono. Qed.

(** ** The branches *)
Definition recovery_kinds : list string := ["xray.configuration.inspect"; "xray.configuration.apply"].
Definition update_kinds : list string := ["agent.update"].

(** With unresolved executions. *)
Definition fenced_kinds : list string := recovery_kinds ++ update_kinds.
(** For an Agent older than the Center. *)
Definition outdated_kinds : list string := ["node.os-reinstall"; "agent.update"; "application.apply"].
Definition state_kinds : list string :=
  ["landing.server.apply"; "landing.proxy.apply"; "node.listener.apply"; "gateway.component.apply";
   "gateway.routes.apply"; "tunnel.state.apply"; "agent.decommission"] ++ recovery_kinds
  ++ ["tailscale.update"; "node.site.certificate"; "node.security"] ++ diagnostic_kinds
  ++ ["node.ip-quality"].
Definition task_kinds : list string :=
  ["node.os-reinstall"; "agent.update"; "application.apply"; "application.adopt"; "application.maintenance";
   "application.command"] ++ state_kinds.

Ltac claim_one :=
  eapply claims_mono; [|first [apply claims_wrap; solve [auto with claims] | solve [auto with claims]]];
  by apply kinds_in.

#[local] Hint Resolve claims_tailscale claims_security claims_ip_quality claims_xray claims_decommission
  claims_site claims_adoption claims_maintenance claims_diagnostic claims_landing_proxy claims_listener
  claims_component claims_routes claims_tunnel claims_update : claims.

Lemma host_delivers : Delivers state_kinds (host_work rd token commit a now).
Proof.
  unfold host_work. repeat (apply delivers_or_else; [claim_one|]). apply delivers_idle.
Qed.

Lemma state_delivers : Delivers state_kinds (state_work rd token commit a now).
Proof.
  unfold state_work. apply delivers_or_else.
  { eapply claims_mono; [|apply claims_landing_server, business_of_op, Hok]. by apply kinds_in. }
  do 5 (apply delivers_or_else; [claim_one|]). apply host_delivers.
Qed.

Lemma business_claimed_attempt task n : Business (claimed_attempt a task n).
Proof. apply business_event. Qed.
Lemma business_take_row table wh k f : Business (take_row table wh k f).
Proof. apply business_update_tasks. Qed.
#[local] Hint Resolve business_claimed_attempt business_take_row : business.

Lemma business_queues : Business (if cl_business_retired (dx_claims rd) then ok tt else dx_queues rd).
Proof. destruct (cl_business_retired _); [by apply business_reads|]. apply business_of_op, Hok. Qed.

(** The command claim writes business tables only, however it ends. *)
Lemma command_business : Business (claimApplicationCommand rd a now).
Proof.
  unfold claimApplicationCommand. apply business_bind; [apply business_queues|intros _]. apply business_bind; [by business|].
  intros [t|]; [|by business]. intros st. unfold bindM at 1. cbn [query].
  destruct (dx_prepare rd st t) as [fields|m|m revision cause|e] eqn:E; (match goal with |- framed _ (fst (?k _)) => assert (B : Business k); [|apply B] end).
  - business.
  - apply business_bind; [by eapply business_of_op, do_deferred|by business].
  - apply business_bind; [by eapply business_of_op, do_unclaimable|]. intros _.
    unfold failUnclaimableApplicationCommand. by business.
  - by business.
Qed.

Lemma claims_command : Claims a now ["application.command"] (claimApplicationCommand rd a now).
Proof.
  intros st. unfold claimApplicationCommand. apply wp_bind. intros st1 [] E1.
  pose proof (business_queues st) as Hf1. rewrite E1 in Hf1. cbn in Hf1. clear E1.
  eapply wp_mono; [apply (claimed_row _ _ a now ["application.command"])|].
  - intros t H. row_found H. unfold command_selected in H. bool_prop. wp_step.
    destruct (dx_prepare rd st1 t) as [fields|m|m revision cause|e] eqn:E; [| | |apply wp_fail].
    + pose proof (pending_row_spec _ _ _ H) as (Ht & Ha & Hs).
      eapply wp_take_row; [done|exact H|reflexivity|by rewrite String.eqb_refl|]. intros n st2 ? ?.
      destruct (at_node_command_worker fields); repeat claim_quiet; claim_done.
    + apply wp_bind. intros st2 [] E2. apply wp_ok. split; [|done].
      pose proof (business_of_op _ (do_deferred Hok _ _ _ E) st1) as Hb. by rewrite E2 in Hb.
    + apply wp_bind. intros st2 [] _. apply wp_bind. intros st3 [] _. apply wp_fail.
  - intros st' res [Hf Hr]. split; [by etrans|done].
Qed.

Lemma command_delivers K next :
  "application.command" ∈ K → Delivers K next → Delivers K (command_or_else rd commit a now next).
Proof.
  intros HK Hn st st' r E. unfold command_or_else in E. pose proof (command_business st) as Hf.
  destruct (claimApplicationCommand rd a now st) as [st1 [[task|]|e]] eqn:Ec; simpl in Hf.
  - destruct (claims_command st st1 (Some task) Ec) as [_ Hc]. destruct (Hc task eq_refl) as [Hk%list_elem_of_singleton Hl].
    eapply delivered_trans; [exact Hf|]. eapply deliver_some; [by rewrite Hk|by left|exact E].
  - eapply delivered_trans; [exact Hf|]. by apply (Hn st1).
  - case_match; [|discriminate E]. eapply delivered_trans; [exact Hf|]. by apply (delivers_none K st1).
Qed.

(** A pending deployment is claimed, or else [next]. *)
Lemma pending_delivers K required (k : task_row → M outcome) next :
  (∀ t st, t ∈ tasks st → pending_row deployments a t = true → wp (k t) st (delivered K st)) →
  Delivers K next →
  Delivers K (bindM (query (pending_deployment rd a required))
                (λ row, match row with Some t => k t | None => next end)).
Proof.
  intros Hk Hn st. apply wp_query. destruct (pending_deployment _ _ _ _) as [t|] eqn:E; [|apply Hn].
  apply pending_deployment_spec in E as [? ?]. by apply Hk.
Qed.

Lemma current_delivers required : Delivers task_kinds (current_work rd token commit a now required).
Proof.
  unfold current_work. do 2 (apply delivers_or_else; [claim_one|]). apply pending_delivers.
  - intros t st ? ?. apply deployment_delivers; [by apply kind_in|done|done].
  - case_match; [|apply delivers_idle]. apply command_delivers; [by apply kind_in|].
    eapply delivers_mono; [|apply state_delivers]. by apply kinds_in.
Qed.

Lemma outdated_delivers required version :
  Delivers outdated_kinds (outdated_work rd commit a now required version).
Proof.
  unfold outdated_work. case_match; [apply delivers_idle|]. apply pending_delivers; [|apply delivers_idle].
  intros t st Hin Hp. wp_step. cbv zeta. wp_step.
  destruct (dx_receipt rd a1) as [[|]|]; try apply delivers_idle.
  apply deployment_delivers; [by apply kind_in|done|done].
Qed.
(** ** The transaction *)

(** What holds in the database in which the transaction of a claim begins. *)
Record admissible (credential version : string) (st : Store) (task : AgentTask) : Prop := mk_admissible {
  am_not_paused : executionClaimsPaused st = false;
  am_credential : credential_valid a credential st = true;
  am_tailscale : tailscale_pending st a = false;
  am_reinstall : agentReinstallBlocked st a = false;
  am_kind : at_kind task ∈ task_kinds;
  am_fence : unresolvedExecutionBlocksAgentWork a version st = true →
    at_kind task ∈ recovery_kinds ∨
    (at_kind task = "agent.update" ∧ unresolvedExecutionBlocksAgentUpdate a version st = false);
  am_outdated : agentVersionBehindTarget version Version = true →
    at_kind task ∈ recovery_kinds ++ outdated_kinds;
  am_os_reinstall : os_reinstall_open a st = true →
    at_kind task ∈ recovery_kinds ++ ["agent.update"; "node.os-reinstall"];
  am_landing_only : dx_landing_only rd = true →
    at_kind task ∈ landing_kinds ∨ at_kind task = "application.apply" ∧ dx_native rd task = true
}.

(** A delivered task passed the filter of landing-only nodes. *)
Lemma commit_landing task st st' ta :
  commitTask rd commit (Some task) st = (st', Ok (Some ta)) → dx_landing_only rd = true →
  at_kind task ∈ landing_kinds ∨ at_kind task = "application.apply" ∧ dx_native rd task = true.
Proof.
  intros E HL. unfold commitTask, bindM, fail_if in E. rewrite HL in E.
  destruct (str_in (at_kind task) landing_kinds) eqn:Ek.
  - left. by apply str_in_spec.
  - right. destruct ((at_kind task =?s "application.apply") && dx_native rd task) eqn:En;
      [by bool_prop|]. discriminate E.
Qed.

(** Nothing is claimed by [claimOSReinstall]: the database is as before. *)
Lemma reinstall_none st : wp (claimOSReinstall (dx_claims rd) a now) st
  (λ st' r, r = (None, false) → st' = st).
Proof.
  unfold claimOSReinstall. wp_step. wp_step; [|by wp_step]. cbv zeta.
  wp_step; intros st' r E ->; unfold bindM, take_row, update_tasks, expect_one, fail_if, ok in E;
    destruct (negb _) in E; discriminate E.
Qed.

Lemma xray_none st : wp (claimXrayConfigurationRecovery (dx_claims rd) a now) st
  (λ st' r, r = None → st' = st).
Proof.
  unfold claimXrayConfigurationRecovery. wp_step. wp_step; [|by wp_step]. cbv zeta. wp_step.
  intros st' r E ->; unfold bindM, take_row, update_tasks, expect_one, fail_if, ok in E.
  destruct (negb _) in E; discriminate E.
Qed.

(** A recovery, or an update when active work and host helpers allow it. *)
Lemma fenced_delivers version st :
  wp (fenced_work rd scope commit a now "" version) st
    (delivered (recovery_kinds ++ if unresolvedExecutionBlocksAgentUpdate a version st then []
                                  else update_kinds) st).
Proof.
  unfold fenced_work, or_else at 1. apply wp_bind. intros st1 r E.
  destruct (claims_xray (dx_claims rd) a now st st1 r E) as [Hf Hr].
  pose proof (xray_none st st1 r E) as Hn. destruct r as [task|].
  - destruct (Hr task eq_refl) as [Hk Hl].
    eapply wp_mono; [apply (deliver_some recovery_kinds); [done|by left]|]. intros st' r Hd.
    eapply delivered_trans; [exact Hf|]. eapply delivered_mono; [|exact Hd]. intros k ?.
    apply elem_of_app. by left.
  - rewrite (Hn eq_refl). cbn [String.eqb]. wp_step. destruct (unresolvedExecutionBlocksAgentUpdate _ _ _);
      [apply delivers_fail|]. apply delivers_or_else; [claim_one|apply delivers_fail].
Qed.

(** The outcome of the transaction. *)
Definition claimed (P : AgentTask → Prop) (st st' : Store) (r : outcome) : Prop :=
  match r with
  | Dispatched ta =>
      ∃ st1 task, framed st st1 ∧ P task ∧ held a now task st1 ∧
        commitTask rd commit (Some task) st1 = (st', Ok (Some ta))
  | _ => framed st st'
  end.

Lemma delivered_claimed K (P : AgentTask → Prop) st st' r :
  (∀ task, at_kind task ∈ K →
     (dx_landing_only rd = true → at_kind task ∈ landing_kinds ∨
        at_kind task = "application.apply" ∧ dx_native rd task = true) → P task) →
  delivered K st st' r → claimed P st st' r.
Proof.
  intros HP. destruct r; simpl; [|done|done]. intros (st1 & task & ? & ? & ? & E).
  exists st1, task. split; [done|]. split; [|done]. apply HP; [done|]. by eapply commit_landing.
Qed.

Lemma free_claimed credential version st :
  executionClaimsPaused st = false → credential_valid a credential st = true →
  tailscale_pending st a = false → agentReinstallBlocked st a = false →
  unresolvedExecutionBlocksAgentWork a version st = false →
  wp (free_work rd Version scope token commit a now "" version) st
    (claimed (admissible credential version st) st).
Proof.
  intros Hp Hc Ht Hre Hb. unfold free_work. cbn [String.eqb]. cbv zeta. apply wp_bind. intros st1 [r rejected] E.
  destruct (claims_reinstall (dx_claims rd) a now st st1 (r, rejected) E) as [Hf Hr].
  pose proof (reinstall_none st st1 _ E) as Hn. destruct rejected.
  { destruct r; (eapply wp_mono; [apply (delivers_none [])|]; intros st' r' Hd;
      eapply delivered_claimed; [|by eapply delivered_trans]; by intros t ?%not_elem_of_nil). }
  destruct r as [task|].
  { destruct (Hr task eq_refl) as [Hk Hl]. eapply wp_mono; [apply (deliver_some ["node.os-reinstall"]); [done|by left]|].
    intros st' r' Hd. eapply delivered_claimed; [|by eapply delivered_trans].
    intros t Hkt%list_elem_of_singleton Hland.
    split; try done; try congruence; intros; rewrite Hkt; by apply kind_in. }
  rewrite (Hn eq_refl). wp_step. apply wp_fail_if. intros Hopen.
  destruct (agentVersionBehindTarget version Version) eqn:Hv.
  - eapply wp_mono; [apply (delivers_or_else outdated_kinds); [claim_one|apply outdated_delivers]|].
    intros st' r'. apply delivered_claimed. intros t Hk Hland.
    split; try done; try congruence; intros; [|apply elem_of_app; by right].
    revert Hk. by apply kinds_in.
  - eapply wp_mono; [apply (delivers_or_else task_kinds); [claim_one|apply current_delivers]|].
    intros st' r'. apply delivered_claimed. intros t Hk Hland. split; try done; congruence.
Qed.

Lemma work_claimed credential version st :
  wp (claim_work rd Version scope token commit a now credential "" version) st
    (claimed (admissible credential version st) st).
Proof.
  unfold claim_work. destruct (dx_promoting_tx rd); [apply wp_ok; simpl; reflexivity|].
  repeat match goal with |- wp (if _ then _ else _) _ _ => fail 1 | _ => wp_step end.
  destruct (tailscale_pending st a) eqn:Ht; [apply wp_ok; simpl; reflexivity|]. wp_step. bool_prop.
  destruct (unresolvedExecutionBlocksAgentWork a version st) eqn:Hb; [|by apply free_claimed].
  eapply wp_mono; [apply fenced_delivers|]. intros st' r. apply delivered_claimed. intros t Hk Hland.
  assert (Hk' : at_kind t ∈ recovery_kinds ∨
    at_kind t = "agent.update" ∧ unresolvedExecutionBlocksAgentUpdate a version st = false).
  { apply elem_of_app in Hk as [?|Hk]; [by left|].
    destruct (unresolvedExecutionBlocksAgentUpdate _ _ _); [by apply not_elem_of_nil in Hk|].
    right. split; [|done]. by apply list_elem_of_singleton in Hk. }
  assert (Hf : at_kind t ∈ fenced_kinds).
  { apply elem_of_app. destruct Hk' as [?|[-> _]]; [by left|right; by apply kind_in]. }
  split; try done; intros; revert Hf; by apply kinds_in.
Qed.

Definition restore_kinds : list string := ["node.listener.apply"; "application.command"; "application.apply"].

(** A machine that is being restored: its one recovery task. *)
Record restoring (credential version : string) (st : Store) (task : AgentTask) : Prop := mk_restoring {
  rs_not_paused : executionClaimsPaused st = false;
  rs_credential : credential_valid a credential st = true;
  rs_kind : at_kind task ∈ restore_kinds;
  rs_current : agentVersionBehindTarget version Version = false;
  rs_resolved : unresolvedExecutionBlocksAgentWork a version st = false;
  rs_landing_only : dx_landing_only rd = true →
    at_kind task ∈ landing_kinds ∨ at_kind task = "application.apply" ∧ dx_native rd task = true
}.

Lemma restore_listener_delivers listener :
  Delivers restore_kinds (claimReinstallListener rd commit a now listener).
Proof.
  unfold claimReinstallListener. apply delivers_reads; [auto with vastora|].
  intros [[expectedID expectedAttempt]|]; [|apply delivers_fail]. intros st. apply wp_bind.
  eapply wp_mono; [apply claims_listener|]. intros st1 [task|] [Hf Hr]; [|apply wp_fail].
  destruct (Hr task eq_refl) as [Hk Hl]. do 2 wp_step.
  eapply wp_mono; [apply (deliver_some restore_kinds); [|by left]|].
  - revert Hk. by apply kinds_in.
  - intros st' r. by apply delivered_trans.
Qed.

Lemma restore_runtime_delivers command :
  has_prefix "reinstall-runtime-" command = true → Delivers restore_kinds (claimReinstallRuntime rd commit a now command).
Proof.
  intros Hpre st. unfold claimReinstallRuntime. apply wp_bind. intros st0 task E. injection E as <- E.
  unfold reinstallRuntimeTask in E. destruct (runtime_command rd a command st) as [c|]; [|rewrite Hpre in E; discriminate E].
  destruct (dx_runtime_valid rd c) as [[]|]; [|discriminate E]. cbn [rbind] in E. unfold guard_err in E.
  destruct (1 <? tr_attempt c); [discriminate E|]. cbn [rbind] in E.
  destruct (dx_runtime rd c) as [[revision payload]|]; [|discriminate E]. cbn [rbind fst snd] in E. injection E as <-.
  unfold take_row. apply wp_update_tasks. apply wp_bind. intros st1 [] E1. unfold expect_one, fail_if in E1.
  destruct (sql_affected _ _ =? 1) eqn:En in E1; [|discriminate E1]. injection E1 as <-. apply Z.eqb_eq in En.
  apply sql_affected_1 in En as (t & Hin & Hw). rewrite !andb_true_iff in Hw. destruct Hw as [[[Htab Hid] Hst] Hat].
  unfold in_table in Htab. bool_prop.
  set (st1 := with_tasks _ st). assert (started "running" now t ∈ tasks st1) as Hin1.
  { apply (updated_in _ (started "running" now)); [done|]. unfold in_table. by rewrite Hid, String.eqb_refl, Hst, Hat, bool_decide_true. }
  apply wp_quiet; [intros ?; by split|done|]. intros [] st2 Hf2 Ht2. claim_quiet.
  eapply wp_mono; [apply (deliver_some restore_kinds)|].
  - by apply kind_in.
  - right. split; [done|]. split; [done|]. split; [done|]. exists (started "running" now t).
    split; [congruence|]. cbn. rewrite Hat. done.
  - intros st' r. apply delivered_trans. assert (framed st st1) as Hf1 by (by split). do 2 (etrans; [eassumption|]). done.
Qed.

(** The outcome of a transaction that was committed or rolled back. *)
Definition settled (P : AgentTask → Prop) (st st' : Store) (r : option authorized_task) : Prop :=
  match r with
  | Some ta =>
      ∃ st1 task, framed st st1 ∧ P task ∧ held a now task st1 ∧
        commitTask rd commit (Some task) st1 = (st', Ok (Some ta))
  | None => framed st st'
  end.

Lemma claimed_settled {X} (A : X → Prop) (P : X → AgentTask → Prop) m st :
  wp m st (λ st' r, ∃ x, A x ∧ claimed (P x) st st' r) →
  wp (claim_transaction m) st (λ st' r, ∃ x, A x ∧ settled (P x) st st' r).
Proof.
  intros Hm st' r E. unfold claim_transaction in E.
  destruct (m st) as [st1 [[ta| |]|e]] eqn:Em; simplify_eq; destruct (Hm _ _ Em) as (x & Ha & Hc);
    exists x; (split; [done|]); simpl in *; [done|done|reflexivity].
Qed.

Lemma claim_transaction_fails m st st' e : claim_transaction m st = (st', Err e) → st' = st.
Proof.
  unfold claim_transaction. destruct (m st) as [st1 [[ta| |]|e']]; intros; by simplify_eq.
Qed.

Lemma work_settled credential version st :
  wp (claim_transaction (claim_work rd Version scope token commit a now credential "" version)) st
    (settled (admissible credential version st) st).
Proof.
  eapply wp_mono; [apply (claimed_settled (λ _ : unit, True) (λ _, admissible credential version st))|].
  - eapply wp_mono; [apply work_claimed|]. intros st' r H. by exists tt.
  - by intros st' r (x & _ & H).
Qed.

Lemma restore_settled credential required st :
  wp (claimAgentReinstallTask rd Version commit a now credential required) st (λ st' r,
    ∃ version, agent_version a st = Ok version ∧ settled (restoring credential version st) st st' r).
Proof.
  unfold claimAgentReinstallTask. apply claimed_settled.
  do 9 wp_step. bool_prop.
  match goal with |- wp ?m _ _ => assert (D : Delivers restore_kinds m) end.
  { case_match; [apply restore_listener_delivers|]. case_match; [by apply restore_runtime_delivers|].
    apply pending_delivers; [|apply delivers_fail]. intros t st1 ? ?.
    by apply deployment_delivers; [apply kind_in|..]. }
  match goal with H : agent_version a st = Ok ?v |- _ => rename H into Hv; rename v into version end.
  eapply wp_mono; [apply D|]. intros st' r Hd. exists version. split; [done|]. revert Hd.
  apply delivered_claimed. intros task Hk Hland. by split.
Qed.
End Delivery.
