(* ===== verification/ClaimSafety.v ===== *)
(** * Claims refine the protocol

    [claimExecutionTask] is a run of the transition system of Protocol.v, so every
    theorem about reachable databases holds for a Center that hands out work with it;
    and a task it delivers was admissible in the database in which its transaction
    began. *)
From S2P Require Import Prelude GoText GoTime TaskIds Store Execution Claims Handoff Updates Leases.
From S2P Require Import Hoare Lifecycle Evolution Legacy Protocol TaskClaims Dispatch DispatchSpec.
From S2P Require Import Samples Traces.

Section Refinement.
Context {L : Libraries} {C : ControlCodec} {RC : ReceiptCodec}.
Context (rd : DispatchReads) (Version : string) (scope : option (gset string)) (token : string).
Context (a sessionID id : string) (reads : AgentTask → AuthorizationReads) (now : Z).
Context (Hok : dispatch_ok rd).

Lemma framed_step st st' : framed st st' → rtc step st st'.
Proof. intros []. by apply rtc_once, step_environment. Qed.

Lemma business_step_to {A} (m : M A) st : Business m → rtc step st (fst (m st)).
Proof. intros H. apply framed_step, H. Qed.

Lemma rtc_bind {A B} (m : M A) (k : A → M B) st :
  rtc step st (fst (m st)) → (∀ st' x, m st = (st', Ok x) → rtc step st' (fst (k x st'))) →
  rtc step st (fst (bindM m k st)).
Proof.
  intros Hm Hk. unfold bindM. destruct (m st) as [st1 [x|e]] eqn:E; [|exact Hm].
  etrans; [exact Hm|]. by apply Hk.
Qed.

Lemma rtc_read {A B} (m : M A) (k : A → M B) st :
  Hoare.reads m → (∀ x, rtc step st (fst (k x st))) → rtc step st (fst (bindM m k st)).
Proof.
  intros Hm Hk. apply rtc_bind; [by rewrite Hm|]. intros st' x E. specialize (Hm st). rewrite E in Hm.
  simpl in Hm. subst. apply Hk.
Qed.

(** The commit closure adds exactly one offer, for the task with its recovery attached. *)
Lemma commit_offers task st st' ta :
  commitTask rd (authorize rd a sessionID id reads now) (Some task) st = (st', Ok (Some ta)) →
  dx_attach rd task st = Ok (ta_task ta) ∧ offer a sessionID id (ta_task ta) now st ∧
  st' = inserted st (offered_execution a sessionID id (ta_task ta) now) ∧ rtc step st st' ∧
  ta_authorization ta = mk_authorization id ExecutionProtocol (sha256_hex (task_json (ta_task ta))).
Proof.
  intros E. unfold commitTask in E. cbv zeta in E. unfold bindM at 1, fail_if in E.
  destruct (_ && _ && _) in E; [discriminate E|]. cbn [ok] in E. unfold authorize, bindM in E.
  destruct (dx_attach rd task st) as [t'|e] eqn:Ea; [|discriminate E].
  destruct (persistExecutionAuthorization _ _ _ _ _ _ _) as [st1 [auth|e]] eqn:Ep; [|discriminate E].
  unfold ok in E. injection E as <- <-. simpl.
  pose proof (persist_wp a sessionID id t' (reads t') now st st1 auth Ep) as (-> & Ho & ->).
  split; [done|]. split; [done|]. split; [done|]. split; [|done]. apply rtc_once.
  pose proof (step_persist a sessionID id t' (reads t') now st) as Hs. by rewrite Ep in Hs.
Qed.

Lemma settled_any P st st' r :
  settled rd a sessionID id reads now P st st' r →
  settled rd a sessionID id reads now (λ _, True) st st' r.
Proof. destruct r; [|done]. intros (st1 & task & ? & _ & ?). by exists st1, task. Qed.

Lemma settled_steps st m :
  wp m st (settled rd a sessionID id reads now (λ _, True) st) → (∀ st' e, m st = (st', Err e) → st' = st) →
  rtc step st (fst (m st)).
Proof.
  intros Hm He. destruct (m st) as [st' [[ta|]|e]] eqn:E; simpl.
  - destruct (Hm _ _ E) as (st1 & task & Hf & _ & _ & Hc). apply commit_offers in Hc as (_ & _ & _ & Hs & _).
    etrans; [by apply framed_step|exact Hs].
  - apply framed_step. exact (Hm _ _ E).
  - by rewrite (He _ _ eq_refl).
Qed.

Abbreviation commit := (authorize rd a sessionID id reads now).

Lemma claim_next_steps credential st :
  rtc step st (fst (claimNextTask rd Version scope token commit a now credential "" st)).
Proof.
  unfold claimNextTask. apply rtc_read; [apply reads_authenticate|]. intros _.
  case_match; [reflexivity|]. apply rtc_read; [auto with vastora|]. intros [|]; [reflexivity|].
  apply rtc_read; [auto with vastora|]. intros [|].
  { apply settled_steps; [|intros st' e; apply claim_transaction_fails].
    eapply wp_mono; [by apply restore_settled|]. intros st' r (version & _ & Hs). by eapply settled_any. }
  apply rtc_read; [auto with vastora|]. intros paused. apply rtc_read; [auto with vastora|]. intros _.
  apply rtc_bind; [apply business_step_to, business_of_op, Hok|]. intros st1 _ _.
  apply rtc_read; [auto with vastora|]. intros version.
  apply rtc_bind; [apply rtc_once, step_operation, op_recover_tasks, Hok|]. intros st2 _ _.
  apply settled_steps; [|intros st' e; apply claim_transaction_fails].
  eapply wp_mono; [by apply work_settled|]. intros st' r Hs. by eapply settled_any.
Qed.

(** Claiming work refines the protocol: whatever an Agent's claim does -- recover
    expired leases, fail or expire rows, select a task, store its permission, or give
    up -- the database moves along steps of the protocol, so mutual exclusion, one-use
    permissions and the other theorems on reachable databases hold for it. *)
Theorem claims_refine_the_protocol credential allowed st :
  rtc step st
    (fst (claimExecutionTask rd Version scope token a credential sessionID id allowed reads now st)).
Proof.
  unfold claimExecutionTask. apply rtc_bind.
  - apply rtc_once, (step_operation (executionClaimAllowed _ _ _ _)), op_claim.
  - intros st' _ _. apply claim_next_steps.
Qed.

Lemma bind_ok {A B} (m : M A) (k : A → M B) st st' y :
  bindM m k st = (st', Ok y) → ∃ st1 x, m st = (st1, Ok x) ∧ k x st1 = (st', Ok y).
Proof. unfold bindM. destruct (m st) as [st1 [x|e]]; [eauto|discriminate]. Qed.

(** The transaction in which a claim found its task; [version] is what the Agent had
    reported when the claim read it. *)
Lemma claim_next_delivered credential st st' ta :
  claimNextTask rd Version scope token commit a now credential "" st = (st', Ok (Some ta)) →
  ∃ st1 version st0, rtc step st st1 ∧ agent_version a st1 = Ok version ∧ rtc step st1 st0 ∧
    (settled rd a sessionID id reads now (admissible rd Version a credential version st0) st0 st' (Some ta)
     ∨ settled rd a sessionID id reads now (restoring rd Version a credential version st0) st0 st' (Some ta)).
Proof.
  unfold claimNextTask. intros (st1 & [] & E1 & E)%bind_ok.
  pose proof (reads_authenticate a credential st) as Hr. rewrite E1 in Hr. simpl in Hr. subst st1.
  destruct (dx_promoting rd); [discriminate E|]. unfold bindM at 1 in E. cbn [query] in E.
  destruct (tailscale_pending st a); [discriminate E|]. unfold bindM at 1 in E. cbn [query] in E.
  destruct (agentReinstallBlocked st a).
  { apply restore_settled in E as (version & Hv & E); [|done]. exists st, version, st.
    split; [reflexivity|]. split; [done|]. split; [reflexivity|]. by right. }
  unfold bindM at 1 in E. cbn [query] in E. apply bind_ok in E as (st1 & [] & E1' & E).
  unfold fail_if in E1'. destruct (executionClaimsPaused st); [discriminate E1'|]. injection E1' as <-.
  apply bind_ok in E as (st2 & [] & E2 & E). apply bind_ok in E as (st3 & version & E3 & E).
  apply bind_ok in E as (st4 & [] & E4 & E). injection E3 as <- Hv. exists st2, version, st4.
  pose proof (business_step_to (dx_aliases rd) st (business_of_op _ (do_aliases rd Hok))) as S2.
  rewrite E2 in S2. pose proof (rtc_once _ _ (step_operation _ st2
    (op_recover_tasks a (dx_mirror rd) now (do_mirror rd Hok)))) as S4. rewrite E4 in S4.
  split; [done|]. split; [by destruct (agent_version a st2); destruct (dx_key_valid rd); simplify_eq|].
  split; [done|]. left. by eapply work_settled.
Qed.

(** What a claim stores for the task it delivers. *)
Lemma claim_offers credential allowed st st' ta :
  claimExecutionTask rd Version scope token a credential sessionID id allowed reads now st
    = (st', Ok (Some ta)) →
  ∃ st2, offer a sessionID id (ta_task ta) now st2 ∧
    st' = inserted st2 (offered_execution a sessionID id (ta_task ta) now) ∧
    ta_authorization ta = mk_authorization id ExecutionProtocol (sha256_hex (task_json (ta_task ta))).
Proof.
  unfold claimExecutionTask. intros (stc & [] & _ & E)%bind_ok.
  apply claim_next_delivered in E as (st1 & version & st0 & _ & _ & _ & Hd).
  assert (∃ st2 task, commitTask rd commit (Some task) st2 = (st', Ok (Some ta))) as (st2 & task & Hc).
  { destruct Hd as [(st2 & task & ? & ? & ? & ?)|(st2 & task & ? & ? & ? & ?)]; exists st2, task; auto. }
  apply commit_offers in Hc as (_ & Ho & Es & _ & Ea). by exists st2.
Qed.


End Refinement.

(** ** An example: a security task of a node *)
Definition security_row : task_row :=
  mk_task_row node_security_tasks "security-1" "agent-1" 0 0 0 "pending" "" "" "" false false "" "" "" "" ""
    "" "" "" "" "" "" "".

Definition security_store : Store := with_tasks [security_row] Run.registered.

Definition sample_claims : ClaimReads :=
  mk_claim_reads (λ _, true) 0 (λ _, "[]") (λ _, Ok "input") (λ _, false) (λ _, Err "none") (Err "none")
    false false false false (λ _, Ok tt) (ok tt) (λ _, false) (λ _, Ok false) (λ _, None).

Definition sample_dispatch : DispatchReads :=
  mk_dispatch_reads sample_claims false false (ok tt) (ok tt) true 2 true (λ _, false) (λ _, true)
    (λ _, mk_deployment_reads (Ok false) (Ok None) (Ok None) (Err "none") (Ok tt) false true "" 0 true (Ok tt)
            (Ok tt))
    (λ task _, Ok task) (λ _, None) (ok tt) (λ _, true) (λ _ _, false) (λ _, false) (λ _ _, Deferred (ok tt))
    (Err "none") (Ok None) false (λ _, false) (λ _, Ok tt) (λ _, Err "none") (λ _, "").

Lemma sample_dispatch_ok : dispatch_ok sample_dispatch.
Proof. split; try done; simpl; intros; by simplify_eq. Qed.

Definition security_claim : M (option authorized_task) :=
  claimExecutionTask sample_dispatch "1.0.0" None "token" "agent-1" "credential" sample_session "execution-1"
    (mk_reinstall_reads (Err "") (Err "") (Err "") (Err "") (Err "")) (λ _, sample_reads)
    (sample_time + second).

Definition security_task : AgentTask := plain_task "security-1" "node.security" 1 1 "input".
Definition delivered_security : authorized_task :=
  mk_authorized security_task
    (mk_authorization "execution-1" ExecutionProtocol (sha256_hex (task_json security_task))).

(** A command of an application: the older of two is claimed, in its next attempt. *)
Definition command_row (id created : string) (attempt : Z) : task_row :=
  mk_task_row application_commands id "agent-1" 0 0 attempt "pending" "" "failed before" "" false true "app-1" "" "3xui.client.manage"
    "" "" "" "" "" "" "" "agent-1" created.

Definition command_dispatch : DispatchReads :=
  mk_dispatch_reads sample_claims false false (ok tt) (ok tt) true 2 false (λ _, false) (λ _, true)
    (dx_deployment sample_dispatch) (λ task _, Ok task) (λ _, None) (ok tt) (λ _, true) (λ _ _, false) (λ _, false)
    (λ _ t, Claimable (plain_task (tr_id t) "" 0 3 "payload")) (Err "none") (Ok None) false (λ _, false) (λ _, Ok tt)
    (λ _, Err "none") (λ _, "").

Example oldest_command_is_claimed :
  let result := claimApplicationCommand command_dispatch "agent-1" sample_time
    (with_tasks [command_row "command-2" "2026-01-02" 0; command_row "command-1" "2026-01-01" 4] Run.registered) in
  option_map (λ r, option_map (λ t, (at_id t, at_attempt t, at_revision t, at_reconcile t)) r)
    (match snd result with Ok r => Some r | Err _ => None end) = Some (Some ("command-1", 5, 3, true)) ∧
  map (λ t, (tr_id t, tr_state t, tr_attempt t, tr_error t)) (tasks (fst result)) =
    [("command-2", "pending", 0, "failed before"); ("command-1", "running", 5, "")].
Proof. split; vm_compute; reflexivity. Qed.

Lemma claims_refine_the_protocol_witness :
  snd (security_claim security_store) = Ok (Some delivered_security) ∧
  rtc step security_store (fst (security_claim security_store)).
Proof.
  split; [vm_compute; reflexivity|].
  apply (claims_refine_the_protocol sample_dispatch "1.0.0" None "token" "agent-1" sample_session "execution-1"
           (λ _, sample_reads) (sample_time + second) sample_dispatch_ok "credential").
Defined.

