(* ===== verification/DeskRefinement.v ===== *)
(** * The two views of a desired state

    Desired.v models the desired-state tables with their payloads, routes and
    publications; the dispatcher claims from the task rows of Store.v, which carry only
    the columns every task has.  The claims of the two agree: on mirrored databases they
    take the same row, give the same task or the same error, and stay mirrored. *)
From S2P Require Import Prelude GoText GoTime TaskIds Gateway Store Execution Handoff Ingress Desired DesiredSpec.
From S2P Require Import IngressSpec Hoare TaskClaims Samples.

Definition table_of (T : dtable) : business_table :=
  match T with
  | TComponent => gateway_components | TGateway => gateway_states
  | TListener => node_listener_states | TTunnel => cloudflare_tunnels
  end.

(** The row of a node in a table. *)
Definition own (T : dtable) (node : string) (t : task_row) : bool :=
  in_table (table_of T) t && (tr_agent_id t =?s node).

(** The columns both views have. *)
Definition task_columns (t : task_row) : Z * Z * string * Z * string * string * string :=
  (tr_revision t, tr_applied_revision t, tr_state t, tr_attempt t, tr_lease_expires_at t, tr_error t,
   tr_updated_at t).
Definition row_columns (r : desired_row) : Z * Z * string * Z * string * string * string :=
  (dr_desired r, dr_applied r, dr_status r, dr_attempt r, dr_lease r, dr_error r, dr_updated r).

Record mirrors (d : Desk) (st : Store) : Prop := mk_mirrors {
  mi_unique : ∀ T a, sql_affected (own T a) (tasks st) <= 1;
  mi_rows : ∀ T a, task_columns <$> sql_row (own T a) (tasks st) = row_columns <$> rows T d !! a
}.

(** ** Rows of a keyed table *)
Lemma affected_cons {A} (wh : A → bool) x l :
  sql_affected wh (x :: l) = (if wh x then 1 else 0) + sql_affected wh l.
Proof. unfold sql_affected, sql_select. cbn. destruct (wh x); cbn [length]; lia. Qed.

Lemma affected_nonneg {A} (wh : A → bool) l : 0 <= sql_affected wh l.
Proof. unfold sql_affected. lia. Qed.

(** With one row per key a narrower search finds that row or nothing. *)
Lemma row_narrow {A} (wh p : A → bool) l :
  sql_affected wh l <= 1 →
  sql_row (λ t, wh t && p t) l = match sql_row wh l with Some t => if p t then Some t else None | None => None end.
Proof.
  induction l as [|x l IH]; [done|]. rewrite affected_cons. intros Hu. unfold sql_row in *. cbn.
  destruct (wh x) eqn:Hx; cbn [andb]; [|apply IH; lia]. destruct (p x); [done|].
  pose proof (affected_nonneg wh l).
  assert (E : ∀ y, In y l → wh y = false).
  { intros y Hy. destruct (wh y) eqn:Hwy; [|done]. exfalso.
    assert (0 < sql_affected wh l); [|lia]. unfold sql_affected, sql_select.
    assert (In y (List.filter wh l)) as Hin by by apply filter_In.
    destruct (List.filter wh l); [done|]. cbn [length]. lia. }
  clear -E. induction l as [|y l IH]; [done|]. cbn. rewrite E by by left. cbn. apply IH. intros z Hz.
  apply E. by right.
Qed.

Lemma row_ext {A} (p q : A → bool) l : (∀ x, p x = q x) → sql_row p l = sql_row q l.
Proof. intros E. unfold sql_row. induction l as [|x l IH]; [done|]. cbn. by rewrite E, IH. Qed.

Lemma affected_ext {A} (p q : A → bool) l : (∀ x, p x = q x) → sql_affected p l = sql_affected q l.
Proof. intros E. induction l as [|x l IH]; [done|]. by rewrite !affected_cons, E, IH. Qed.

Lemma exists_ext {A} (p q : A → bool) l : (∀ x, p x = q x) → sql_exists p l = sql_exists q l.
Proof. intros E. unfold sql_exists. induction l as [|x l IH]; [done|]. cbn. by rewrite E, IH. Qed.

Lemma exists_narrow {A} (wh p : A → bool) l :
  sql_affected wh l <= 1 →
  sql_exists (λ t, wh t && p t) l = match sql_row wh l with Some t => p t | None => false end.
Proof.
  intros Hu. pose proof (row_narrow wh p l Hu) as E.
  destruct (sql_exists (λ t, wh t && p t) l) eqn:Ex.
  - destruct (sql_row wh l) as [t|] eqn:Er.
    + destruct (p t) eqn:Hp; [done|]. apply sql_exists_spec in Ex as (x & Hx & Hw).
      pose proof (sql_row_none _ _ E x Hx) as Hn. cbn in Hn. congruence.
    + apply sql_exists_spec in Ex as (x & Hx & Hw). pose proof (sql_row_none _ _ E x Hx) as Hn. cbn in Hn.
      congruence.
  - destruct (sql_row wh l) as [t|] eqn:Er; [|done]. apply sql_row_spec in Er as [Hin Hwt].
    rewrite sql_exists_false in Ex. specialize (Ex t Hin). cbn in Ex. rewrite Hwt in Ex. done.
Qed.

(** An update that keeps the key. *)
Lemma row_updated {A} (wh w : A → bool) (f : A → A) l :
  (∀ x, wh (f x) = wh x) →
  sql_row wh (sql_update w f l) = (λ x, if w x then f x else x) <$> sql_row wh l.
Proof.
  intros Hf. unfold sql_row, sql_update. induction l as [|x l IH]; [done|]. cbn.
  replace (wh (if w x then f x else x)) with (wh x) by (destruct (w x); by rewrite ?Hf).
  destruct (wh x); [done|]. apply IH.
Qed.

Lemma affected_updated {A} (wh w : A → bool) (f : A → A) l :
  (∀ x, wh (f x) = wh x) → sql_affected wh (sql_update w f l) = sql_affected wh l.
Proof.
  intros Hf. induction l as [|x l IH]; [done|]. change (sql_update w f (x :: l)) with
    ((if w x then f x else x) :: sql_update w f l). rewrite !affected_cons, IH.
  by destruct (w x); rewrite ?Hf.
Qed.

Lemma affected_narrow {A} (wh p : A → bool) l t :
  sql_affected wh l <= 1 → sql_row wh l = Some t → p t = true →
  sql_affected (λ x, wh x && p x) l = 1.
Proof.
  induction l as [|x l IH]; [done|]. rewrite !affected_cons. unfold sql_row. cbn. intros Hu.
  pose proof (affected_nonneg wh l) as H0. pose proof (affected_nonneg (λ x, wh x && p x) l) as H1.
  destruct (wh x) eqn:Hx; [|cbn; intros; apply IH; [lia|done|done]]. intros [= ->] Hp. rewrite Hp. cbn.
  assert (sql_affected (λ x, wh x && p x) l <= sql_affected wh l); [|lia].
  clear. induction l as [|y l IH]; [done|]. rewrite !affected_cons. destruct (wh y), (p y); cbn; lia.
Qed.

Section Claims.
Context {U : UrlReader} {GP : GlivelaPort} {Srt : SliceSorter} {Src : Sources} {SH : StateHash}.
Context (rd : ClaimReads).

(** What a claim reads of the payload of a row. *)
Definition row_input (T : dtable) (d : Desk) (node : string) (r : desired_row) : res string :=
  match T with
  | TComponent => Ok (dr_payload r)
  | TGateway =>
      match gateway_Unmarshal (dr_payload r) with
      | Some state =>
          if negb (is_ok (Validate state)) || negb (ds_revision state =? dr_desired r)
          then Err "center: invalid stored gateway desired state"
          else let! _ := gatewayCertificates d node state in Ok (dr_payload r)
      | None => Err "center: invalid stored gateway desired state"
      end
  | TListener =>
      match listener_Unmarshal (dr_payload r) with
      | Some state =>
          if negb (is_ok (validateCenterNodeListenerState state)) || negb (nl_node_id state =?s node)
             || negb (nl_revision state =? dr_desired r)
          then Err "center: invalid stored node listener desired state" else Ok (dr_payload r)
      | None => Err "center: invalid stored node listener desired state"
      end
  | TTunnel =>
      match tunnel_Unmarshal (dr_payload r) with
      | Some state =>
          if negb (ts_revision state =? dr_desired r) || negb (str_in (ts_status state) ["running"; "stopped"])
             || (trim_space (ts_image state) =?s "")
          then Err "center: invalid stored Tunnel desired state"
          else let! _ := tunnel_token node in Ok (dr_payload r)
      | None => Err "center: invalid stored Tunnel desired state"
      end
  end.

(** The reads of the dispatcher are those of the payloads. *)
Definition reads_payloads (d : Desk) (st : Store) : Prop :=
  ∀ T a t r, sql_row (own T a) (tasks st) = Some t → rows T d !! a = Some r →
    cl_input rd t = row_input T d a r.

(** The claim of a table in the dispatcher. *)
Definition state_claim (T : dtable) : string → Z → M (option AgentTask) :=
  match T with
  | TComponent => TaskClaims.claim_component rd | TGateway => TaskClaims.claim_routes rd
  | TListener => TaskClaims.claimNodeListenerTask rd | TTunnel => TaskClaims.claimTunnelTask rd
  end.

(** Two claims that agree. *)
Definition agree (st' : Store) (x : res (option AgentTask)) (y : res (option (desired_task * Desk))) : Prop :=
  match x, y with
  | Ok None, Ok None => True
  | Err e, Err e' => e = e'
  | Ok (Some task), Ok (Some (task', d')) =>
      at_id task = dt_id task' ∧ at_kind task = dt_kind task' ∧ at_attempt task = dt_attempt task' ∧
      at_revision task = dt_revision task' ∧ mirrors d' st'
  | _, _ => False
  end.

Context (d : Desk) (st : Store) (Hm : mirrors d st) (Hr : reads_payloads d st) (a : string) (now : Z).

(** The row a claim looks for, in both views. *)
Lemma due_row T : sql_row (state_due (table_of T) a) (tasks st) =
  match sql_row (own T a) (tasks st) with
  | Some t => if (tr_state t =?s "pending") && (tr_applied_revision t <? tr_revision t) then Some t else None
  | None => None
  end.
Proof.
  rewrite <- (row_narrow (own T a) (λ t, (tr_state t =?s "pending") && (tr_applied_revision t <? tr_revision t)))
    by apply Hm.
  apply row_ext. intros t. unfold state_due, pending_row, own. by rewrite !andb_assoc.
Qed.

(** Both views have the row, with the same columns and the same input, or neither has. *)
Lemma mirror_case T :
  (sql_row (own T a) (tasks st) = None ∧ rows T d !! a = None) ∨
  ∃ t r, sql_row (own T a) (tasks st) = Some t ∧ rows T d !! a = Some r ∧ task_columns t = row_columns r ∧
    cl_input rd t = row_input T d a r.
Proof.
  pose proof (mi_rows d st Hm T a) as E.
  destruct (sql_row (own T a) (tasks st)) as [t|] eqn:Et, (rows T d !! a) as [r|] eqn:Er; try discriminate E;
    [|by left]. right. exists t, r. injection E as E. split; [done|]. split; [done|].
  split; [unfold task_columns, row_columns; congruence|]. by eapply Hr.
Qed.

(** The rows the statement of a claim updates. *)
Definition taken (T : dtable) (t x : task_row) : bool :=
  in_table (table_of T) x && ((tr_agent_id x =?s tr_agent_id t) && (tr_revision x =? tr_revision t))
  && (tr_state x =?s "pending") && (tr_attempt x =? tr_attempt t).

Lemma taken_own T t : sql_row (own T a) (tasks st) = Some t → tr_state t = "pending" →
  taken T t t = true ∧ tr_agent_id t = a.
Proof.
  intros [_ Ho]%sql_row_spec Hs. unfold own in Ho. bool_prop. unfold taken.
  rewrite Hs, !String.eqb_refl, !Z.eqb_refl. by split; [bool_prop; rewrite ?andb_true_r|].
Qed.

Lemma take_own T t message :
  sql_row (own T a) (tasks st) = Some t → tr_state t = "pending" →
  take_state (table_of T) t message now st =
  (with_tasks (sql_update (taken T t) (started "applying" now) (tasks st)) st, Ok tt).
Proof.
  intros Ht Hs. destruct (taken_own T t Ht Hs) as [Htk Ha].
  unfold take_state, take_row, bindM, update_tasks. fold (taken T t).
  replace (sql_affected _ _) with 1; [done|]. symmetry.
  rewrite <- (affected_narrow (own T a) (λ x, (tr_revision x =? tr_revision t) && (tr_state x =?s "pending")
                                              && (tr_attempt x =? tr_attempt t)) (tasks st) t).
  - apply affected_ext. intros x. unfold own, taken. by rewrite Ha, !andb_assoc.
  - apply Hm.
  - done.
  - by rewrite Hs, !Z.eqb_refl.
Qed.

Lemma mirrors_taken T t r d' st' :
  sql_row (own T a) (tasks st) = Some t → task_columns t = row_columns r → tr_state t = "pending" →
  rows T d' = <[a := claim_row now r]> (rows T d) → (∀ T', T' ≠ T → rows T' d' = rows T' d) →
  tasks st' = sql_update (taken T t) (started "applying" now) (tasks st) → mirrors d' st'.
Proof.
  intros Ht Hc Hs HT Ho Est. destruct (taken_own T t Ht Hs) as [Htk Ha].
  split; intros T' a'; rewrite Est; [rewrite affected_updated by done; apply Hm|].
  rewrite row_updated by done. destruct (decide (T' = T ∧ a' = a)) as [[-> ->]|Hne].
  - rewrite Ht, HT, lookup_insert_eq. cbn. rewrite Htk. f_equal.
    unfold task_columns, row_columns in *. cbn. simplify_eq. unfold lease. congruence.
  - transitivity (task_columns <$> sql_row (own T' a') (tasks st)).
    + destruct (sql_row (own T' a') (tasks st)) as [x|] eqn:Ex; [|done]. cbn.
      apply sql_row_spec in Ex as [_ Hx]. destruct (taken T t x) eqn:Hk; [|done]. exfalso. apply Hne.
      unfold own, taken, in_table in *. bool_prop. split; [|congruence].
      destruct T', T; simpl in *; congruence.
    + rewrite (mi_rows d st Hm). f_equal. destruct (decide (T' = T)) as [->|HnT]; [|by rewrite Ho].
      rewrite HT, lookup_insert_ne; [done|]. intros ->. by apply Hne.
Qed.
Lemma claimable_columns t r : task_columns t = row_columns r →
  (tr_state t =?s "pending") && (tr_applied_revision t <? tr_revision t) = claimable r.
Proof. unfold task_columns, row_columns, claimable. intros [= -> -> -> _ _ _ _]. apply andb_comm. Qed.

(** The end of a claim that took its row. *)
Lemma taken_agree T t r task task' d' st' :
  sql_row (own T a) (tasks st) = Some t → task_columns t = row_columns r → claimable r = true →
  rows T d !! a = Some r → claim T a now d = Ok (Some (task', d')) →
  at_id task = task_identity T a (tr_revision t) → at_kind task = dt_kind task' →
  at_attempt task = tr_attempt t + 1 → at_revision task = tr_revision t →
  tasks st' = sql_update (taken T t) (started "applying" now) (tasks st) →
  agree st' (Ok (Some task)) (Ok (Some (task', d'))).
Proof.
  intros Ht Hc Hcl Hrow Hd Hid Hk Hat Hrev Est.
  pose proof (claim_spec T a now d task' d' Hd) as (r' & Hr' & _ & HT & Ho & Hrev' & Hat' & Hid').
  assert (r' = r) as -> by congruence. rewrite <- (claimable_columns t r Hc) in Hcl. bool_prop.
  assert (mirrors d' st') by by eapply mirrors_taken. cbn.
  unfold task_columns, row_columns in Hc. injection Hc as E1 _ _ E4 _ _ _.
  rewrite Hid, Hid', Hk, Hat, Hat', Hrev, Hrev', E1, E4. done.
Qed.

Definition kind_of (T : dtable) : string :=
  match T with
  | TComponent => "gateway.component.apply" | TGateway => "gateway.routes.apply"
  | TListener => "node.listener.apply" | TTunnel => "tunnel.state.apply"
  end.

(** Routes are claimed only on a component that runs and is ready. *)
Definition serves (T : dtable) : bool :=
  match T with
  | TGateway => match dk_components d !! a with
                | Some c => (dr_payload c =?s "running") && (dr_status c =?s "ready")
                | None => false
                end
  | _ => true
  end.

(** The claim on the full tables, row by row. *)
Lemma desk_claim T r : rows T d !! a = Some r →
  if claimable r && serves T then
    match row_input T d a r with
    | Err e => claim T a now d = Err e
    | Ok _ => ∃ task d', claim T a now d = Ok (Some (task, d')) ∧ dt_kind task = kind_of T
    end
  else claim T a now d = Ok None.
Proof.
  destruct T; cbn [rows claim serves row_input kind_of]; intros Hrow;
    [unfold Desired.claim_component|unfold Desired.claim_routes|unfold Desired.claimNodeListenerTask
    |unfold Desired.claimTunnelTask]; rewrite Hrow; (destruct (claimable r); [|by repeat case_match]);
    cbn [negb andb orb].
  - eauto.
  - destruct (dk_components d !! a) as [c|]; [|done].
    destruct (dr_payload c =?s "running"), (dr_status c =?s "ready"); cbn [negb andb orb]; try done.
    destruct (gateway_Unmarshal _); [|done]. destruct (_ || _); [done|].
    destruct (gatewayCertificates _ _ _); cbn [rbind]; eauto.
  - destruct (listener_Unmarshal _); [|done]. destruct (_ || _); eauto.
  - destruct (tunnel_Unmarshal _); [|done]. destruct (_ || _); [done|].
    destruct (tunnel_token _); cbn [rbind]; eauto.
Qed.

Lemma desk_claim_none T : rows T d !! a = None → claim T a now d = Ok None.
Proof.
  destruct T; cbn [rows claim]; intros Hrow;
    [unfold Desired.claim_component|unfold Desired.claim_routes|unfold Desired.claimNodeListenerTask
    |unfold Desired.claimTunnelTask]; by rewrite Hrow.
Qed.

(** The component as the dispatcher sees it. *)
Lemma serves_gateway : gateway_serves rd a st = serves TGateway.
Proof.
  unfold gateway_serves, serves.
  rewrite (exists_ext _ (λ c, own TComponent a c && ((tr_state c =?s "ready") &&
    match cl_input rd c with Ok desired => desired =?s "running" | Err _ => false end)))
    by (intros c; unfold own; by rewrite !andb_assoc).
  rewrite exists_narrow by apply Hm.
  destruct (mirror_case TComponent) as [[Ht Hrow]|(t & r & Ht & Hrow & Hc & Hi)]; cbn [rows] in Hrow;
    rewrite Ht, Hrow; [done|]. rewrite Hi. cbn [row_input]. unfold task_columns, row_columns in Hc.
  injection Hc as _ _ -> _ _ _ _. apply andb_comm.
Qed.

(** The row the dispatcher takes. *)
Definition due (T : dtable) : option task_row :=
  match sql_row (own T a) (tasks st) with
  | Some t => if (tr_state t =?s "pending") && (tr_applied_revision t <? tr_revision t) && serves T
              then Some t else None
  | None => None
  end.

(** The end of a claim of the dispatcher. *)
Record takes (T : dtable) (t : task_row) (task : AgentTask) (st' : Store) : Prop := mk_takes {
  tk_id : at_id task = task_identity T a (tr_revision t);
  tk_kind : at_kind task = kind_of T;
  tk_attempt : at_attempt task = tr_attempt t + 1;
  tk_revision : at_revision task = tr_revision t;
  tk_tasks : tasks st' = sql_update (taken T t) (started "applying" now) (tasks st)
}.

Lemma due_pending T t : due T = Some t → sql_row (own T a) (tasks st) = Some t ∧ tr_state t = "pending".
Proof.
  unfold due. destruct (sql_row _ _) as [x|]; [|done]. destruct (_ && _ && _) eqn:E; [|done].
  intros [= ->]. by bool_prop.
Qed.

Lemma due_found T : serves T = true → sql_row (state_due (table_of T) a) (tasks st) = due T.
Proof.
  intros Hs. rewrite due_row. unfold due. destruct (sql_row _ _) as [t|]; [|done]. by rewrite Hs, andb_true_r.
Qed.

Lemma due_gateway :
  sql_row (λ t, state_due gateway_states a t && gateway_serves rd a st) (tasks st) = due TGateway.
Proof.
  rewrite serves_gateway. unfold due. rewrite <- (row_narrow (own TGateway a)) by apply Hm.
  apply row_ext. intros t. unfold state_due, pending_row, own. by rewrite !andb_assoc.
Qed.

Lemma store_claim T :
  match due T with
  | None => state_claim T a now st = (st, Ok None)
  | Some t =>
      match cl_input rd t with
      | Err e => state_claim T a now st = (st, Err e)
      | Ok _ => ∃ task st', state_claim T a now st = (st', Ok (Some task)) ∧ takes T t task st'
      end
  end.
Proof.
  assert (Hq : ∀ {A B} (f : Store → A) (k : A → M B), bindM (query f) k st = k (f st) st) by done.
  destruct (due T) as [t|] eqn:Ed; [pose proof (due_pending T t Ed) as [Ht Hs]; destruct (cl_input rd t) eqn:Ei|];
    destruct T; cbn [state_claim];
    try unfold TaskClaims.claim_component; try unfold TaskClaims.claim_routes;
    try unfold TaskClaims.claimNodeListenerTask; try unfold TaskClaims.claimTunnelTask; rewrite Hq;
    try rewrite due_gateway; try rewrite (due_found TComponent eq_refl : sql_row (state_due gateway_components a) _ = _);
    try rewrite (due_found TListener eq_refl : sql_row (state_due node_listener_states a) _ = _);
    try rewrite (due_found TTunnel eq_refl : sql_row (state_due cloudflare_tunnels a) _ = _); rewrite Ed;
    try done; unfold bindM at 1, lift; rewrite Ei; try done; unfold bindM at 1;
    [rewrite (take_own TComponent t _ Ht Hs : take_state gateway_components t _ now st = _)
    |rewrite (take_own TGateway t _ Ht Hs : take_state gateway_states t _ now st = _)
    |rewrite (take_own TListener t _ Ht Hs : take_state node_listener_states t _ now st = _)
    |rewrite (take_own TTunnel t _ Ht Hs : take_state cloudflare_tunnels t _ now st = _)];
    eexists _, _; (split; [reflexivity|by split]).
Qed.

(** The dispatcher's claim of a desired state agrees with the claim on the full
    tables: on mirrored databases whose payloads it reads, it finds nothing, fails with
    the same error, or delivers the task with the same identifier, kind, attempt and
    revision, after which the databases are mirrored again. *)
Theorem desired_claims_agree T :
  agree (fst (state_claim T a now st)) (snd (state_claim T a now st)) (claim T a now d).
Proof.
  pose proof (store_claim T) as Hst. unfold due in Hst.
  destruct (mirror_case T) as [[Ht Hrow]|(t & r & Ht & Hrow & Hc & Hi)]; rewrite Ht in Hst.
  - by rewrite Hst, (desk_claim_none T Hrow).
  - pose proof (desk_claim T r Hrow) as Hd. rewrite (claimable_columns t r Hc) in Hst.
    destruct (claimable r && serves T) eqn:Hcl; [|by rewrite Hst, Hd]. rewrite Hi in Hst.
    destruct (row_input T d a r) as [input|e]; [|by rewrite Hst, Hd].
    destruct Hst as (task & st' & -> & []), Hd as (task' & d' & Hd & Hk). rewrite Hd. cbn [fst snd].
    bool_prop. eapply taken_agree; eauto. congruence.
Qed.
End Claims.

(** ** An example: the listener of a node *)
#[local] Existing Instances sample_port sample_url merge_sorter sample_sources sample_hash_codec.

Definition listener_task_row : task_row :=
  mk_task_row node_listener_states "" "node" 1 0 0 "pending" "" "" (rfc3339nano 0) false false "" "" "" "" ""
    "" "" "" "" "" "" "".
Definition mirrored_store : Store := with_tasks [listener_task_row] sample_store.
Definition payload_reads : ClaimReads :=
  mk_claim_reads (λ _, true) 0 (λ _, "[]") (λ _, Ok "1") (λ _, false) (λ _, Err "none") (Err "none")
    false false false false (λ _, Ok tt) (ok tt) (λ _, false) (λ _, Ok false) (λ _, None).

Definition queued_listener : desired_row := mk_desired 1 0 "1" "pending" 0 "" "" (rfc3339nano 0).

Lemma queued_rows T a : rows T queued_desk !! a =
  if own T a listener_task_row then Some queued_listener else None.
Proof.
  assert (dk_listeners queued_desk = {["node" := queued_listener]}) as Hl by (vm_compute; reflexivity).
  assert (dk_components queued_desk = ∅) as Hc by (vm_compute; reflexivity).
  assert (dk_gateways queued_desk = ∅) as Hg by (vm_compute; reflexivity).
  assert (dk_tunnels queued_desk = ∅) as Ht by (vm_compute; reflexivity).
  unfold own. destruct T; cbn [rows]; rewrite ?Hl, ?Hc, ?Hg, ?Ht; [done|done| |done].
  change (in_table (table_of TListener) listener_task_row) with true.
  change (tr_agent_id listener_task_row) with "node". cbn [andb].
  destruct (String.eqb_spec "node" a) as [<-|Hne]; [apply lookup_singleton_eq|by apply lookup_singleton_ne].
Qed.

Lemma queued_mirrors : mirrors queued_desk mirrored_store.
Proof.
  split; intros T a; [|rewrite queued_rows];
    change (tasks mirrored_store) with [listener_task_row]; unfold sql_affected, sql_select, sql_row;
    cbn [List.filter List.find]; destruct (own T a listener_task_row); cbn; lia || done.
Qed.

Lemma queued_payloads : reads_payloads payload_reads queued_desk mirrored_store.
Proof.
  intros T a t r Ht Hr. rewrite queued_rows in Hr. destruct (own T a listener_task_row) eqn:Ho; [|discriminate Hr].
  injection Hr as <-. unfold own in Ho. apply andb_prop in Ho as [HT Ha]. apply String.eqb_eq in Ha. cbn in Ha.
  subst a. destruct T; try discriminate HT. vm_compute. reflexivity.
Qed.

Lemma desired_claims_agree_witness :
  (match snd (TaskClaims.claimNodeListenerTask payload_reads "node" 0 mirrored_store) with
   | Ok (Some task) => at_id task = "node-listener-node-r1" ∧ at_attempt task = 1%Z | _ => False end) ∧
  agree (fst (TaskClaims.claimNodeListenerTask payload_reads "node" 0 mirrored_store))
    (snd (TaskClaims.claimNodeListenerTask payload_reads "node" 0 mirrored_store))
    (claim TListener "node" 0 queued_desk).
Proof.
  split.
  - vm_compute. split; reflexivity.
  - exact (desired_claims_agree payload_reads queued_desk mirrored_store queued_mirrors queued_payloads "node" 0
             TListener).
Defined.
