(* ===== verification/Envelope.v ===== *)
(** * Encrypted tasks (internal/controlplane/crypto.go)

    A task travels from the Center to its Agent in an envelope: an ephemeral X25519
    key agrees on a secret with the Agent's key, HKDF derives an AES-GCM key from it,
    and the additional data binds the envelope to the Agent, the task and the attempt.
    Bytes are strings of 8-bit characters.  The primitives are the class [Crypto] with
    their documented laws; random keys and nonces are arguments. *)
From S2P Require Import Prelude GoText.

Class Crypto := {
  x25519_private : string → bool;               (* NewPrivateKey accepts it *)
  x25519_point : string → bool;                 (* NewPublicKey accepts it *)
  x25519_public : string → string;              (* the public key of a private key *)
  x25519_ecdh : string → string → option string;
  x25519_public_point : ∀ a, x25519_private a = true →
    x25519_point (x25519_public a) = true ∧ str_len (x25519_public a) = 32;
  x25519_agrees : ∀ a b, x25519_private a = true → x25519_private b = true →
    x25519_ecdh a (x25519_public b) = x25519_ecdh b (x25519_public a);
  hkdf_sha256 : string → string → string → string;      (* secret, salt, info: 32 bytes *)
  gcm_seal : string → string → string → string → string;   (* key, nonce, plaintext, data *)
  gcm_open : string → string → string → string → option string;
  gcm_open_seal : ∀ k n p ad, gcm_open k n (gcm_seal k n p ad) ad = Some p;
  gcm_seal_length : ∀ k n p ad, str_len (gcm_seal k n p ad) = str_len p + 16;
  sha256 : string → string
}.

Definition KeySize : Z := 32.
Definition MaxTaskPayload : Z := 4 * 1048576.
Definition envelopeVersion : Z := 1.
Definition gcm_nonce_size : Z := 12.
Definition nul : string := String (Ascii.ascii_of_nat 0) "".

Record Envelope := mk_envelope {
  en_version : Z;
  en_ephemeral_public_key : string;
  en_nonce : string;
  en_ciphertext : string
}.

(** [binary.BigEndian.PutUint64]: the [n] lowest bytes of [z], the highest first. *)
Fixpoint big_endian (n : nat) (z : Z) : string :=
  match n with
  | O => ""
  | S n' => String (Ascii.ascii_of_nat (Z.to_nat (Z.shiftr z (8 * Z.of_nat n') mod 256))) (big_endian n' z)
  end.

(** [uint64(attempt)]. *)
Definition uint64 (z : Z) : Z := z mod 2 ^ 64.

(** What [TaskAdditionalData] hashes. *)
Definition task_binding (agentID taskID : string) (attempt : Z) : string :=
  "vastora-control-plane-task-v1" +:+ nul +:+ agentID +:+ nul +:+ taskID +:+ big_endian 8 (uint64 attempt).

Section Envelope.
Context {K : Crypto}.

Definition ValidatePublicKey (publicKey : string) : res unit :=
  guard_err (negb (str_len publicKey =? KeySize)) "control plane: invalid X25519 public key" ;;!
  guard_err (negb (x25519_point publicKey)) "control plane: invalid X25519 public key".

Definition TaskAdditionalData (agentID taskID : string) (attempt : Z) : string :=
  sha256 (task_binding agentID taskID attempt).

(** [taskAEAD]: the key of the cipher. *)
Definition taskAEAD (shared ephemeralPublicKey additionalData : string) : string :=
  hkdf_sha256 shared ephemeralPublicKey ("vastora-control-plane-envelope-v1" +:+ nul +:+ additionalData).

(** [ephemeral] is the generated private key, [nonce] the random nonce. *)
Definition Seal (publicKey plaintext additionalData ephemeral nonce : string) : res Envelope :=
  guard_err ((str_len plaintext =? 0) || (MaxTaskPayload <? str_len plaintext))
    "control plane: task payload exceeds the allowed size" ;;!
  guard_err (negb (x25519_point publicKey)) "control plane: invalid Agent X25519 public key" ;;!
  match x25519_ecdh ephemeral publicKey with
  | None => Err "control plane: derive task encryption key"
  | Some shared =>
      let key := taskAEAD shared (x25519_public ephemeral) additionalData in
      Ok (mk_envelope envelopeVersion (x25519_public ephemeral) nonce
            (gcm_seal key nonce plaintext additionalData))
  end.

Definition Open (privateKey : string) (e : Envelope) (additionalData : string) : res string :=
  guard_err (negb (en_version e =? envelopeVersion) || negb (str_len (en_ephemeral_public_key e) =? KeySize)
             || (str_len (en_ciphertext e) =? 0) || (MaxTaskPayload + 64 <? str_len (en_ciphertext e)))
    "control plane: invalid encrypted task envelope" ;;!
  guard_err (negb (x25519_private privateKey)) "control plane: invalid Agent X25519 private key" ;;!
  guard_err (negb (x25519_point (en_ephemeral_public_key e)))
    "control plane: invalid ephemeral X25519 public key" ;;!
  match x25519_ecdh privateKey (en_ephemeral_public_key e) with
  | None => Err "control plane: derive task decryption key"
  | Some shared =>
      let key := taskAEAD shared (en_ephemeral_public_key e) additionalData in
      guard_err (negb (str_len (en_nonce e) =? gcm_nonce_size)) "control plane: invalid encrypted task nonce" ;;!
      match gcm_open key (en_nonce e) (en_ciphertext e) additionalData with
      | None => Err "control plane: encrypted task authentication failed"
      | Some plaintext =>
          guard_err ((str_len plaintext =? 0) || (MaxTaskPayload <? str_len plaintext))
            "control plane: decrypted task payload exceeds the allowed size" ;;!
          Ok plaintext
      end
  end.

(** What was sealed to a key is opened by its owner, under the same binding. *)
Lemma Open_Seal private plaintext ad ephemeral nonce e :
  x25519_private private = true → x25519_private ephemeral = true → str_len nonce = gcm_nonce_size →
  Seal (x25519_public private) plaintext ad ephemeral nonce = Ok e → Open private e ad = Ok plaintext.
Proof.
  intros Hp He Hn. unfold Seal, guard_err. destruct (_ || _) eqn:Es; [discriminate|]. cbn [rbind].
  destruct (x25519_public_point _ Hp) as [Hpt _]. rewrite Hpt. cbn [negb rbind].
  rewrite (x25519_agrees _ _ He Hp). destruct (x25519_ecdh private _) as [shared|] eqn:Eh; [|discriminate].
  intros [= <-]. destruct (x25519_public_point _ He) as [Hept Helen].
  unfold Open, guard_err. cbn [en_version en_ephemeral_public_key en_nonce en_ciphertext].
  rewrite Helen, gcm_seal_length. destruct (orb_false_elim _ _ Es) as [H1%Z.eqb_neq H2%Z.ltb_ge].
  rewrite Hp, Hept, Eh, Hn, gcm_open_seal, Es, Z.eqb_refl, orb_false_l.
  rewrite (proj2 (Z.eqb_neq _ _)) by (unfold str_len in *; lia).
  rewrite (proj2 (Z.ltb_ge _ _)) by lia. reflexivity.
Qed.
End Envelope.

(** ** The binding names one attempt of one task of one Agent *)

Lemma big_endian_length n z : String.length (big_endian n z) = n.
Proof. induction n; simpl; auto. Qed.

(** The value of big-endian bytes. *)
Fixpoint value_of (acc : Z) (s : string) : Z :=
  match s with
  | "" => acc
  | String c s' => value_of (acc * 256 + Z.of_nat (Ascii.nat_of_ascii c)) s'
  end.

Lemma value_of_big_endian n z acc : 0 <= z →
  value_of acc (big_endian n z) = acc * 2 ^ (8 * Z.of_nat n) + z mod 2 ^ (8 * Z.of_nat n).
Proof.
  intros Hz. revert acc. induction n as [|n IH]; intros acc.
  { cbn [big_endian value_of]. change (2 ^ (8 * Z.of_nat 0)) with 1. rewrite Z.mod_1_r. lia. }
  cbn [big_endian value_of]. rewrite IH, Ascii.nat_ascii_embedding; [|pose proof (Z.mod_pos_bound (Z.shiftr z (8 * Z.of_nat n)) 256); lia].
  rewrite Z2Nat.id by (apply Z.mod_pos_bound; lia).
  replace (8 * Z.of_nat (S n)) with (8 + 8 * Z.of_nat n) by lia.
  rewrite Z.pow_add_r by lia. change (2 ^ 8) with 256. rewrite Z.shiftr_div_pow2 by lia.
  set (m := 2 ^ (8 * Z.of_nat n)). assert (0 < m) by (apply Z.pow_pos_nonneg; lia).
  rewrite (Z.mul_comm 256 m), Z.rem_mul_r by lia. lia.
Qed.

Lemma big_endian_inj n z z' :
  0 <= z < 2 ^ (8 * Z.of_nat n) → 0 <= z' < 2 ^ (8 * Z.of_nat n) → big_endian n z = big_endian n z' → z = z'.
Proof.
  intros Hz Hz' E. apply (f_equal (value_of 0)) in E. rewrite !value_of_big_endian in E by lia.
  rewrite !Z.mod_small in E by done. lia.
Qed.

Lemma app_inj_length (a a' b b' : string) :
  String.length b = String.length b' → a +:+ b = a' +:+ b' → a = a' ∧ b = b'.
Proof.
  revert a'. induction a as [|c a IH]; intros [|c' a'] Hl E;
    pose proof (f_equal String.length E) as El; rewrite !length_app_s in El; cbn [String.length] in El; try lia.
  - done.
  - cbn [String.append] in E. injection E as -> E. destruct (IH a' Hl E) as [-> ->]. done.
Qed.

Lemma cut_nul (a a' b b' : string) :
  contains_any a [Ascii.ascii_of_nat 0] = false → contains_any a' [Ascii.ascii_of_nat 0] = false →
  a +:+ nul +:+ b = a' +:+ nul +:+ b' → a = a' ∧ b = b'.
Proof.
  revert a'. induction a as [|c a IH]; intros [|c' a'] H H' E; cbn [contains_any existsb] in H, H'.
  - cbn in E. by injection E.
  - cbn in E. injection E as <- E. rewrite Ascii.eqb_refl in H'. discriminate H'.
  - cbn in E. injection E as -> E. rewrite Ascii.eqb_refl in H. discriminate H.
  - cbn [String.append] in E. injection E as -> E. apply orb_false_elim in H as [_ H], H' as [_ H'].
    destruct (IH a' H H' E) as [-> ->]. done.
Qed.

(** Different Agents, tasks or attempts have different bindings. *)
Lemma task_binding_inj a a' t t' n n' :
  contains_any a [Ascii.ascii_of_nat 0] = false → contains_any a' [Ascii.ascii_of_nat 0] = false →
  0 <= n < 2 ^ 63 → 0 <= n' < 2 ^ 63 → task_binding a t n = task_binding a' t' n' → a = a' ∧ t = t' ∧ n = n'.
Proof.
  intros Ha Ha' Hn Hn' E. unfold task_binding in E.
  apply (app_inj_length _ _ (nul +:+ a +:+ nul +:+ t +:+ big_endian 8 (uint64 n))
           (nul +:+ a' +:+ nul +:+ t' +:+ big_endian 8 (uint64 n'))) in E as [_ E].
  2: { apply (f_equal String.length) in E. rewrite !length_app_s in *. lia. }
  cbn [String.append nul] in E. injection E as E. apply cut_nul in E as [-> E]; [|done|done].
  apply app_inj_length in E as [-> E]; [|reflexivity].
  unfold uint64 in E. apply (big_endian_inj 8) in E;
    [|rewrite Z.mod_small by lia; cbn; lia|rewrite Z.mod_small by lia; cbn; lia].
  rewrite !Z.mod_small in E by lia. done.
Qed.
