(* ===== verification/Runner.v ===== *)
(** * The Agent's task runner (internal/agent/task_runner.go, execution.go)

    An Agent executes one task at a time: it consumes the offer at the Center, asks for
    the step [apply], performs the task on its host, records what it applied under the
    step [persist], and reports one result.  The runner is an interactive program: its
    effects are requests to the Center, calls of the host, and reads of its context and
    of its local connection, whose answers come from outside.  [proc] is the free monad
    over them, so that the program can be run against recorded answers, against any
    answers (RunnerSpec.v) and against the Center of this development (EndToEnd.v). *)
From S2P Require Import Prelude GoText Redact Execution Claims Json.
From S2P Require Gateway Landing Dispatch.

(** ** Failures *)

(** An error: its text, whether [uncertainTaskOutcomeError] is in its chain, and the
    status of the first [centerResponseError] in it. *)
Record failure := mk_failure { fl_text : string; fl_uncertain : bool; fl_status : option Z }.

Definition plain (text : string) : failure := mk_failure text false None.

Definition uncertainTaskOutcome (cause : option failure) : option failure :=
  option_map (λ f, mk_failure (fl_text f) true (fl_status f)) cause.

Definition taskOutcomeIsUncertain (err : option failure) : bool :=
  match err with Some f => fl_uncertain f | None => false end.

Definition StatusConflict : Z := 409.

Definition terminalTaskAuthorityConflict (err : option failure) : bool :=
  match err with Some f => bool_decide (fl_status f = Some StatusConflict) | None => false end.

(** [errors.Join] of two errors. *)
Definition join_errors (a b : option failure) : option failure :=
  match a, b with
  | Some x, Some y =>
      Some (mk_failure (fl_text x +:+ String (Ascii.ascii_of_nat 10) "" +:+ fl_text y)
              (fl_uncertain x || fl_uncertain y)
              (match fl_status x with Some s => Some s | None => fl_status y end))
  | Some x, None => Some x
  | None, y => y
  end.

Definition safeTaskError {L : Libraries} (err : option failure) : string :=
  match err with Some f => SafeError (fl_text f) | None => "" end.

(** ** Tasks *)

(** The optional payloads of a task the runner tests for [nil]. *)
Inductive payload :=
| PNodeSite | PNodeSecurity | PTailscaleUpdate | PMeridianAcceptance | PIPQuality | PNodeDiagnostics
| POSReinstall | PSenulunReporting | PSenulunRotation | PSenulunInspection | PSenulunEnrollment
| PProtocolCommand | PXrayRecovery | PTunnelState | PApplicationCommand | PSubscriptionCommand
| PClientCommand | PNodeCommand | PControllerCommand | PMeridianRuntime | PMeridianLegacyExport
| PMeridianLegacyRetire.

#[global] Instance payload_eq_dec : EqDecision payload.
Proof. solve_decision. Defined.

(** The fields of [DeploymentTask] the runner reads; what it only passes on is part of
    the call. *)
Record DeploymentTask := mk_deployment {
  td_id : string; td_kind : string; td_attempt : Z; td_revision : Z;
  td_app_key : string; td_operation : string; td_target_version : string;
  td_source_receipt : string; td_secrets : string; td_required_generation : Z;
  td_runtime : option (string * Z);             (* Manifest.Runtime: kind and version *)
  td_grants : list string;                      (* AuthorizedCapabilities *)
  td_payloads : list payload;
  td_resume_applied : bool;                     (* MeridianRuntime.ResumeApplied *)
  td_command_action : string; td_remove_hy2 : bool;   (* ApplicationCommand *)
  td_verifier : string;                         (* MeridianAcceptance.VerifierAgentID *)
  td_reinstall_valid : bool;                    (* OSReinstall.Validate() == nil *)
  td_callback_token : string;
  td_callback_url : option string;              (* normalizeHostDecommissionCallbackURL *)
  td_gateway_state : option Gateway.DesiredState;
  td_listener_state : option Gateway.NodeListenerState;
  td_landing_server : option Landing.ServerState;
  td_landing_proxy : option Landing.DesiredState;
  td_authorization : ExecutionAuthorization
}.

Definition has (task : DeploymentTask) (p : payload) : bool := bool_decide (p ∈ td_payloads task).

(** ** The host *)

(** The calls that leave the runner.  Their argument is the task, apart from what is
    passed along in the call itself. *)
Inductive host_call :=
| CheckPorts | CheckRemoval
| ResumeAppliedMeridianMonitor | CompleteCommandResources
| BackupHost | StageReinstall | ActivateReinstall
| PrepareTailscaleUpdate | StartTailscaleUpdate
| ExecuteNodeSite | ExecuteNodeSecurity | CheckIPQuality | CheckNetworkQuality | CheckReturnRoutes
| CheckInternationalBandwidth | CheckMeridianLinkServer | CheckMeridianLinkBandwidth | CheckHostProfile
| InspectXrayConfiguration | ApplyXrayConfigurationRecovery
| ManagePackage | AdoptPackage | Deploy
| VerifyMeridianAcceptance | ExportLegacyMeridianState | ApplyMeridianRuntime
| RetireLegacyMeridianInstallation | InspectSenulunReporting | RotateSenulun | InspectSenulun | EnrollSenulun
| ApplyNodeProtocols | ApplyRealityCommand | ConfigureHY2Port | ApplySubscriptionCommand
| ApplyClientCommand | ApplyNodeCommand | ApplyControllerCommand
| ApplyGatewayState | EnsureGateway | WaitForGateway | RemoveGateway | ClearGatewayState
| ApplyLandingServer | LandingSelfIdentity | ApplyLandingProxy | ApplyNodeListener | ApplyTunnel
| ScheduleFinalRemoval | ScheduleUpdate
| CompleteSenlunIdentity | RecordApplied | CompleteNativeReplacement | ReadApplied | SyncSharedDaylight
| CompleteSharedDaylight | RemoveApplied
| FinishSenlunServiceIdentity | FinishSenlunIdentity.

#[global] Instance host_call_eq_dec : EqDecision host_call.
Proof. solve_decision. Defined.

(** [nodesecurity.Rule] with protocol [tcp] is its port; evidence is its digest. *)
Inductive argument := NoArgument | Ports (l : list Z) | Evidence (digest : string) | Secrets (s : string).

Inductive capability :=
| LandingOnly | Docker | OSReinstall | NodeSecurity | IPQuality | NetworkDiagnostics | ReturnRoute
| BandwidthDiagnostics | MeridianLinkBandwidth | HostProfile | GatewayRole | Tunnel | MeridianAcceptance.

(** The client: its session, capabilities and which of its parts are configured. *)
Record Client := mk_client {
  cl_agent_id : string;
  cl_session : string;                          (* executionSession *)
  cl_capability : capability → bool;
  cl_supports : host_call → bool;               (* the executor implements the method *)
  cl_executor : bool; cl_gateway_provisioner : bool; cl_tunnel_provisioner : bool;
  cl_decommissioner : bool; cl_updater : bool; cl_reinstaller : bool; cl_landing_server : bool;
  cl_tailscale_enrolled : bool
}.

(** The result an Agent reports: the parts of [ApplicationTaskResult] by name, and the
    generated secrets. *)
Record TaskReport := mk_report { rp_parts : list (string * string); rp_secrets : gmap string string }.

Definition no_report : TaskReport := mk_report [] ∅.
Definition with_part (name text : string) (r : TaskReport) : TaskReport :=
  mk_report (rp_parts r ++ [(name, text)]) (rp_secrets r).

(** [taskCompletion]. *)
Record taskCompletion := mk_completion {
  co_task_id : string; co_attempt : Z; co_result : TaskReport; co_error : string;
  co_reconciliation_required : bool; co_runtime_generation : Z
}.

(** ** Effects *)
Inductive request :=
| Transition (action phase : string)            (* of the execution of the task *)
| ReinstallBackup (evidence : string)
| ReinstallArm (backup prepared : string)
| BeginTailscaleUpdate
| CompleteTaskRequest (c : taskCompletion).

Inductive effect :=
| Rpc (r : request)                             (* callAgentRPC under the execution context *)
| FreshRpc (r : request)                        (* under freshTaskControlContext *)
| Host (h : host_call) (a : argument)
| Connection                                    (* store.Connection, with its pinning *)
| JoinRenewal.                                  (* <-renewalResult *)

(** What an effect answers: a value, generated secrets and an error. *)
Record answer := mk_answer { an_text : string; an_secrets : gmap string string; an_error : option failure }.

Inductive proc (A : Type) : Type :=
| Done (a : A)
| Ask (e : effect) (k : answer → proc A)
| Cancelled (k : bool → proc A).                (* ctx.Err() != nil *)
Arguments Done {A} a.
Arguments Ask {A} e k.
Arguments Cancelled {A} k.

Fixpoint bindP {A B} (p : proc A) (f : A → proc B) : proc B :=
  match p with
  | Done a => f a
  | Ask e k => Ask e (λ x, bindP (k x) f)
  | Cancelled k => Cancelled (λ b, bindP (k b) f)
  end.

Notation "'let*' x ':=' p 'in' q" := (bindP p (fun x => q))
  (at level 10, x pattern, p at level 100, q at level 200) : go_scope.

Definition ask (e : effect) : proc answer := Ask e Done.
Definition call (h : host_call) : proc answer := ask (Host h NoArgument).

(** ** Ownership of the current execution (execution.go) *)
Section Ownership.

(** [Store.activeExecution] and the contexts that were cancelled; a context is named by
    its owner. *)
Record ownership := mk_ownership {
  ow_active : option nat; ow_cancelled : gmap nat string; ow_next : nat
}.

(** [context.WithCancelCause]: the first cause stays. *)
Definition cancel (owner : nat) (cause : string) (s : ownership) : ownership :=
  mk_ownership (ow_active s)
    (match ow_cancelled s !! owner with
     | Some _ => ow_cancelled s
     | None => <[owner := cause]> (ow_cancelled s)
     end) (ow_next s).

Definition beginExecution (s : ownership) : res (nat * ownership) :=
  match ow_active s with
  | Some _ => Err "agent: another execution is still active"
  | None => Ok (ow_next s, mk_ownership (Some (ow_next s)) (ow_cancelled s) (S (ow_next s)))
  end.

(** The release function [beginExecution] returns. *)
Definition release (owner : nat) (s : ownership) : ownership :=
  let s := cancel owner "context canceled" s in
  mk_ownership (if bool_decide (ow_active s = Some owner) then None else ow_active s)
    (ow_cancelled s) (ow_next s).

Definition stopActiveExecution (cause : option string) (s : ownership) : ownership :=
  match cause, ow_active s with
  | Some c, Some owner => cancel owner c s
  | _, _ => s
  end.

End Ownership.

(** ** Predicates on tasks *)

Definition landingOnlyTaskAllowed (kind : string) : bool :=
  str_in kind ["node.site.certificate"; "landing.server.apply"; "agent.update"; "agent.decommission";
               "node.security"; "tailscale.update"].

(** [controlplane.NativeLifecycleAllowed]. *)
Definition NativeLifecycleAllowed (runtimeKind : string) (version : Z) (operation : string)
    (grants : list string) : bool :=
  if (negb (runtimeKind =?s "systemd") && negb (runtimeKind =?s "native")) || negb (version =? 2) then false
  else if negb (str_in operation ["install"; "upgrade"; "uninstall"]) then false
  else forallb (λ g, str_in g ["native-services"; "root"; "shared-caddy"]) grants
       && existsb (String.eqb "native-services") grants.

Definition senlunNativeIdentityTask (t : DeploymentTask) : bool :=
  (td_app_key t =?s "vastora-official/senlun-agent") && negb (td_source_receipt t =?s "")
  && (td_operation t =?s "install").
Definition senlunServiceIdentityTask (t : DeploymentTask) : bool :=
  (td_app_key t =?s "vastora-official/senlun") && negb (td_source_receipt t =?s "")
  && (td_operation t =?s "install").
Definition senlunIdentityTask (t : DeploymentTask) : bool :=
  senlunNativeIdentityTask t || senlunServiceIdentityTask t.
Definition daylightKey (key : string) : bool :=
  (key =?s "vastora-official/daylight") || (key =?s "vastora-official/daylight-https").
Definition proxyRuntimeApp (key : string) : bool :=
  (key =?s "vastora-official/meridian") || (key =?s "vastora-official/3x-ui").

(** The public ports a task opens. *)
Definition publicRules (t : DeploymentTask) : list Z :=
  match td_listener_state t with
  | Some s => match Gateway.sh_routes (Gateway.nl_listener s) with
              | [] => []
              | _ => [Gateway.sh_port (Gateway.nl_listener s)]
              end
  | None => []
  end ++
  match td_gateway_state t with
  | Some s => concat (map (λ l, if Gateway.ls_kind l =?s "public"
                                then List.filter (λ p, 0 <? p) [Gateway.ls_http_port l; Gateway.ls_https_port l]
                                else []) (Gateway.ds_listeners s))
  | None => []
  end.

Definition nativeLifecycle (t : DeploymentTask) : bool :=
  (td_kind t =?s "application.apply")
  && match td_runtime t with
     | Some (kind, version) => NativeLifecycleAllowed kind version (td_operation t) (td_grants t)
     | None => false
     end.

(** The payloads that belong to the application-owned controller. *)
Definition proxy_payloads : list payload :=
  [PXrayRecovery; PMeridianRuntime; PMeridianLegacyRetire; PMeridianLegacyExport; PMeridianAcceptance;
   PApplicationCommand; PSubscriptionCommand; PClientCommand; PNodeCommand; PControllerCommand;
   PProtocolCommand].

Definition proxy_task (t : DeploymentTask) : bool :=
  (td_kind t =?s "landing.server.apply") || (td_kind t =?s "landing.proxy.apply")
  || existsb (has t) proxy_payloads.

(** The payloads of [application.command], of which exactly one must be present. *)
Definition command_payloads : list payload :=
  [PMeridianAcceptance; PSenulunReporting; PSenulunRotation; PSenulunInspection; PSenulunEnrollment;
   PProtocolCommand; PApplicationCommand; PSubscriptionCommand; PClientCommand; PNodeCommand;
   PControllerCommand; PMeridianRuntime; PMeridianLegacyExport; PMeridianLegacyRetire].

Definition commands (t : DeploymentTask) : Z := Z.of_nat (length (List.filter (has t) command_payloads)).

(** ** Generated secrets *)

(** Secrets are a JSON object; encoding/json reads and writes it. *)
Class SecretsCodec := {
  secrets_decode : string → option json_object;
  secrets_encode : json_object → string
}.

Definition mergeGeneratedSecrets {SC : SecretsCodec} (raw : string) (generated : gmap string string)
    : res string :=
  match (if raw =?s "" then Some ∅ else secrets_decode raw) with
  | None => Err "agent: stored task secrets are invalid"
  | Some values => Ok (secrets_encode ((JString <$> generated) ∪ values))
  end.

(** ** Requests of an execution *)
Section Client.
Context {L : Libraries} {LH : Landing.LandingHash} {Srt : SliceSorter} {SC : SecretsCodec}.
Context (c : Client) (task : DeploymentTask).

Definition authorized_request : bool :=
  negb (cl_session c =?s "") && negb (au_id (td_authorization task) =?s "")
  && (au_protocol (td_authorization task) =? ExecutionProtocol).

(** [executionTransition]; a reply that does not confirm is an error of the request. *)
Definition executionTransition (action phase : string) : proc (option failure) :=
  if negb authorized_request then Done (Some (plain "agent: execution authorization is required"))
  else
    let* connection := ask Connection in
    match an_error connection with
    | Some e => Done (Some e)
    | None => let* reply := ask (Rpc (Transition action phase)) in Done (an_error reply)
    end.

Definition beginTailscaleUpdate : proc (option failure) :=
  let* connection := ask Connection in
  match an_error connection with
  | Some e => Done (Some e)
  | None => let* reply := ask (Rpc BeginTailscaleUpdate) in Done (an_error reply)
  end.

(** [sendTaskCompletion] and [completeTask]. *)
Definition sendTaskCompletion (completion : taskCompletion) : proc (option failure) :=
  let* connection := ask Connection in
  match an_error connection with
  | Some e => Done (Some e)
  | None => let* reply := ask (FreshRpc (CompleteTaskRequest completion)) in Done (an_error reply)
  end.

(** What the body of a task leaves: the report, its error, and whether a helper of the
    host owns the result. *)
Record attempt := mk_attempted { at_report : TaskReport; at_error : option failure; at_handed_off : bool }.

Definition failed (text : string) : proc attempt := Done (mk_attempted no_report (Some (plain text)) false).
Definition finished (r : TaskReport) (e : option failure) : proc attempt := Done (mk_attempted r e false).

(** [value, err := h(); result.part = &value]. *)
Definition keep (h : host_call) (part : string) : proc attempt :=
  let* a := call h in finished (with_part part (an_text a) no_report) (an_error a).

(** [if err == nil { result.part = &value }]. *)
Definition keep_ok (h : host_call) (part : string) : proc attempt :=
  let* a := call h in
  finished (match an_error a with None => with_part part (an_text a) no_report | Some _ => no_report end)
    (an_error a).

(** [err = h()]. *)
Definition perform (h : host_call) : proc attempt :=
  let* a := call h in finished no_report (an_error a).

(** [result, err = h()]. *)
Definition replace (h : host_call) : proc attempt :=
  let* a := call h in finished (mk_report [("result", an_text a)] (an_secrets a)) (an_error a).

(** A method of the executor, behind the capability it needs. *)
Definition checked (enabled : bool) (message : string) (p : proc attempt) : proc attempt :=
  if enabled then p else failed message.

(** ** The kinds of task *)

(** [applyLandingServerTask] and the identity of the landing peer. *)
Definition applyLandingServerTask : proc attempt :=
  match td_landing_server task with
  | None => failed "agent: invalid or unavailable landing service task"
  | Some state =>
      checked (cl_landing_server c && is_ok (Landing.ServerStateValidate state) && (0 <? td_revision task)
               && (td_revision task mod 2 ^ 64 =? Landing.ss_revision state))
        "agent: invalid or unavailable landing service task"
        (let* connection := ask Connection in
         if is_Some_b (an_error connection) || negb (an_text connection =?s Landing.ss_node_id state)
         then failed "agent: landing service task belongs to another node"
         else
           let* applied := call ApplyLandingServer in
           match an_error applied, Landing.ss_plan state with
           | None, Some _ => keep_ok LandingSelfIdentity "landingPeer"
           | e, _ => finished no_report e
           end)
  end.

(** [osreinstall.TaskKind]. *)
Definition reinstall : proc attempt :=
  checked (cl_capability c OSReinstall && cl_reinstaller c && has task POSReinstall && td_reinstall_valid task)
    "agent: OS reinstall is not available"
    (let* connection := ask Connection in
     match an_error connection with
     | Some e => finished no_report (Some e)
     | None =>
         let* backup := call BackupHost in
         match an_error backup with
         | Some e => finished no_report (Some e)
         | None =>
             let* recorded := ask (Rpc (ReinstallBackup (an_text backup))) in
             match an_error recorded with
             | Some e => finished no_report (uncertainTaskOutcome (Some e))
             | None =>
                 let* stage := ask (Host StageReinstall (Evidence (an_text backup))) in
                 match an_error stage with
                 | Some e => finished no_report (Some e)
                 | None =>
                     let* armed := ask (Rpc (ReinstallArm (an_text backup) (an_text stage))) in
                     match an_error armed with
                     | Some e => finished no_report (uncertainTaskOutcome (Some e))
                     | None =>
                         let* activated := ask (Host ActivateReinstall (Evidence (an_text stage))) in
                         Done (mk_attempted no_report (an_error activated) true)
                     end
                 end
             end
         end
     end).

(** [tailscalehost.UpdateKind]. *)
Definition tailscale_update : proc attempt :=
  checked (cl_tailscale_enrolled c && has task PTailscaleUpdate) "agent: Tailscale update is unavailable"
    (let* prepared := call PrepareTailscaleUpdate in
     match an_error prepared with
     | Some e => finished no_report (Some e)
     | None =>
         let* handoff := executionTransition "step" "handoff" in
         let* begun := (match handoff with Some e => Done (Some e) | None => beginTailscaleUpdate end) in
         match begun with
         | Some e => finished no_report (Some e)
         | None =>
             let* started := call StartTailscaleUpdate in
             Done (mk_attempted no_report (an_error started) true)
         end
     end).

(** A helper of the host takes over after the step [handoff]. *)
Definition hand_to (h : host_call) : proc attempt :=
  let* connection := ask Connection in
  match an_error connection with
  | Some e => finished no_report (Some e)
  | None =>
      let* handoff := executionTransition "step" "handoff" in
      match handoff with
      | Some e => finished no_report (Some e)
      | None =>
          let* scheduled := call h in
          Done (mk_attempted no_report (an_error scheduled) (negb (is_Some_b (an_error scheduled))))
      end
  end.

Definition decommission : proc attempt :=
  if negb (cl_decommissioner c) then failed "agent: host decommission capability is not configured"
  else match td_callback_url task with
       | None => failed "agent: invalid host decommission callback URL"
       | Some _ => checked (negb (trim_space (td_callback_token task) =?s ""))
                   "agent: host decommission callback token is missing" (hand_to ScheduleFinalRemoval)
       end.

Definition agent_update : proc attempt :=
  if negb (cl_updater c) then failed "agent: host update capability is not configured"
  else checked (negb (trim_space (td_target_version task) =?s "")) "agent: update target version is missing"
         (hand_to ScheduleUpdate).

Definition gateway_component : proc attempt :=
  checked (cl_gateway_provisioner c && cl_capability c GatewayRole)
    "agent: gateway provisioning capability is not configured"
    (if td_operation task =?s "running" then
       let* ensured := call EnsureGateway in
       match an_error ensured with
       | Some e => finished no_report (Some e)
       | None => perform WaitForGateway
       end
     else if td_operation task =?s "stopped" then
       let* removed := call RemoveGateway in
       match an_error removed with
       | Some e => finished no_report (Some e)
       | None => perform ClearGatewayState
       end
     else failed "agent: invalid gateway component operation").

Definition application_apply : proc attempt :=
  if (td_required_generation task <? 0) || (Dispatch.ApplicationRuntimeGeneration <? td_required_generation task)
  then failed "agent: application task requires runtime generation"
  else if negb (cl_executor c || (cl_capability c LandingOnly && nativeLifecycle task))
  then failed "agent: application capability is not configured"
  else if match td_runtime task with Some (kind, _) => kind =?s "docker" | None => false end
          && negb (cl_capability c Docker)
  then failed "agent: Docker capability is not configured"
  else replace Deploy.

(** [application.command]. *)
Definition application_command : proc attempt :=
  if negb (cl_capability c Docker) || negb (commands task =? 1)
  then failed "agent: application command received without Docker capability"
  else if has task PMeridianAcceptance then
    let* connection := ask Connection in
    if is_Some_b (an_error connection) || negb (td_verifier task =?s an_text connection)
    then failed "agent: recovery verifier identity mismatch"
    else checked (cl_supports c VerifyMeridianAcceptance && cl_capability c MeridianAcceptance)
           "agent: recovery client capability is not configured"
           (keep_ok VerifyMeridianAcceptance "meridianAcceptance")
  else if has task PMeridianLegacyExport then keep_ok ExportLegacyMeridianState "meridianLegacyExport"
  else if has task PMeridianRuntime then
    checked (cl_supports c ApplyMeridianRuntime) "agent: Glivela runtime capability is not configured"
      (let* applied := call ApplyMeridianRuntime in
       match an_error applied with
       | Some e => finished no_report (Some e)
       | None =>
           let r := with_part "meridianRuntime" (an_text applied) no_report in
           if cl_supports c CompleteCommandResources then
             let* observed := call CompleteCommandResources in
             finished (with_part "resources" (an_text observed) r) (an_error observed)
           else finished r None
       end)
  else if has task PMeridianLegacyRetire then
    checked (cl_supports c RetireLegacyMeridianInstallation)
      "agent: Glivela legacy retirement capability is not configured"
      (keep_ok RetireLegacyMeridianInstallation "meridianLegacyRetire")
  else if has task PSenulunReporting then
    checked (cl_supports c InspectSenulunReporting) "agent: Senulun reporting capability is not configured"
      (keep_ok InspectSenulunReporting "pulseReporting")
  else if has task PSenulunRotation then
    checked (cl_supports c RotateSenulun) "agent: Senulun rotation capability is not configured"
      (keep_ok RotateSenulun "pulseRotation")
  else if has task PSenulunInspection then
    checked (cl_supports c InspectSenulun) "agent: Senulun inspection capability is not configured"
      (keep_ok InspectSenulun "pulseInspection")
  else if has task PSenulunEnrollment then
    checked (cl_supports c EnrollSenulun) "agent: Senulun enrollment capability is not configured"
      (keep_ok EnrollSenulun "pulseEnrollment")
  else if has task PProtocolCommand then keep_ok ApplyNodeProtocols "protocolCommand"
  else if has task PApplicationCommand then
    let* applied := call ApplyRealityCommand in
    let r := with_part "applicationCommand" (an_text applied) no_report in
    match an_error applied with
    | None =>
        if (td_command_action task =?s "remove") && td_remove_hy2 task then
          if cl_supports c ConfigureHY2Port then
            let* cleaned := call ConfigureHY2Port in finished r (an_error cleaned)
          else finished r (uncertainTaskOutcome (Some (plain "agent: protocol port cleanup is unavailable")))
        else finished r None
    | e => finished r e
    end
  else if has task PSubscriptionCommand then keep_ok ApplySubscriptionCommand "subscriptionCommand"
  else if has task PClientCommand then keep_ok ApplyClientCommand "clientCommand"
  else if has task PNodeCommand then keep_ok ApplyNodeCommand "nodeCommand"
  else keep_ok ApplyControllerCommand "controllerCommand".

(** A diagnostic of the node: the executor's method, its capability and its payload. *)
Definition diagnostic (h : host_call) (enabled : bool) (p : payload) (part message : string) : proc attempt :=
  checked (cl_supports c h && enabled && has task p) message (keep h part).

(** The switch on the kind. *)
Definition execute : proc attempt :=
  let kind := td_kind task in
  if kind =?s "node.os-reinstall" then reinstall
  else if kind =?s "tailscale.update" then tailscale_update
  else if kind =?s "node.site.certificate" then
    checked (has task PNodeSite) "agent: missing node site task" (keep ExecuteNodeSite "nodeSite")
  else if kind =?s "node.security" then
    checked (cl_capability c NodeSecurity && has task PNodeSecurity)
      "agent: node security capability is not configured" (keep ExecuteNodeSecurity "nodeSecurity")
  else if kind =?s "node.ip-quality" then
    diagnostic CheckIPQuality (cl_capability c IPQuality && cl_capability c Docker) PIPQuality "ipQuality"
      "agent: IP quality capability is not configured"
  else if kind =?s "node.network-quality" then
    diagnostic CheckNetworkQuality (cl_capability c NetworkDiagnostics) PNodeDiagnostics "nodeDiagnostics"
      "agent: network diagnostics capability is not configured"
  else if kind =?s "node.return-route" then
    diagnostic CheckReturnRoutes (cl_capability c ReturnRoute) PNodeDiagnostics "nodeDiagnostics"
      "agent: return-route capability is not configured"
  else if kind =?s "node.international-bandwidth" then
    diagnostic CheckInternationalBandwidth (cl_capability c BandwidthDiagnostics) PNodeDiagnostics
      "nodeDiagnostics" "agent: bandwidth diagnostics capability is not configured"
  else if kind =?s "meridian.link-bandwidth-server" then
    diagnostic CheckMeridianLinkServer (cl_capability c MeridianLinkBandwidth) PNodeDiagnostics
      "nodeDiagnostics" "agent: Glivela link server is unavailable"
  else if kind =?s "meridian.link-bandwidth" then
    diagnostic CheckMeridianLinkBandwidth (cl_capability c MeridianLinkBandwidth) PNodeDiagnostics
      "nodeDiagnostics" "agent: Glivela link bandwidth is unavailable"
  else if kind =?s "node.host-profile" then
    diagnostic CheckHostProfile (cl_capability c HostProfile) PNodeDiagnostics "nodeDiagnostics"
      "agent: host profile capability is not configured"
  else if kind =?s "xray.configuration.inspect" then
    diagnostic InspectXrayConfiguration true PXrayRecovery "xrayRecovery"
      "agent: Xray configuration recovery is unavailable"
  else if kind =?s "xray.configuration.apply" then
    diagnostic ApplyXrayConfigurationRecovery true PXrayRecovery "xrayRecovery"
      "agent: Xray configuration recovery is unavailable"
  else if kind =?s "application.maintenance" then
    checked (cl_supports c ManagePackage) "agent: package maintenance is unavailable" (replace ManagePackage)
  else if kind =?s "application.adopt" then
    checked (cl_supports c AdoptPackage) "agent: package adoption is unavailable" (replace AdoptPackage)
  else if kind =?s "application.apply" then application_apply
  else if kind =?s "application.command" then application_command
  else if kind =?s "gateway.routes.apply" then
    checked (is_Some_b (td_gateway_state task) && cl_capability c GatewayRole)
      "agent: gateway task received without gateway capability" (perform ApplyGatewayState)
  else if kind =?s "gateway.component.apply" then gateway_component
  else if kind =?s "landing.server.apply" then applyLandingServerTask
  else if kind =?s "landing.proxy.apply" then
    checked (cl_capability c Docker && (0 <? td_revision task)
             && match td_landing_proxy task with
                | Some s => td_revision task mod 2 ^ 64 =? Landing.ld_revision s | None => false end)
      "agent: invalid landing proxy task" (perform ApplyLandingProxy)
  else if kind =?s "node.listener.apply" then
    checked (is_Some_b (td_listener_state task) && cl_capability c Docker)
      "agent: node listener task received without Docker capability" (perform ApplyNodeListener)
  else if kind =?s "tunnel.state.apply" then
    checked (cl_tunnel_provisioner c && cl_capability c Tunnel && has task PTunnelState)
      "agent: tunnel task received without tunnel capability" (perform ApplyTunnel)
  else if kind =?s "agent.decommission" then decommission
  else if kind =?s "agent.update" then agent_update
  else failed "agent: unsupported task kind".

(** The checks before the switch. *)
Definition preflight : proc (option failure) :=
  let* ports := (match publicRules task with
                 | [] => Done None
                 | rules => let* a := ask (Host CheckPorts (Ports rules)) in Done (an_error a)
                 end) in
  match ports with
  | Some e => Done (Some e)
  | None => if td_kind task =?s "agent.decommission"
            then let* a := call CheckRemoval in Done (an_error a) else Done None
  end.

Definition body : proc attempt :=
  let* refused := preflight in
  match refused with
  | Some e => finished no_report (Some e)
  | None =>
      if cl_capability c LandingOnly && negb (landingOnlyTaskAllowed (td_kind task)) && negb (nativeLifecycle task)
      then failed "agent: task is not authorized for a landing-only node"
      else if (td_kind task =?s "application.command") && has task PMeridianRuntime && td_resume_applied task then
        checked (cl_supports c ResumeAppliedMeridianMonitor && cl_supports c CompleteCommandResources
                 && cl_capability c Docker)
          "agent: applied proxy monitor recovery is unavailable"
          (let* resumed := call ResumeAppliedMeridianMonitor in
           let r := with_part "meridianRuntime" (an_text resumed) no_report in
           match an_error resumed with
           | Some e => finished r (Some e)
           | None => let* observed := call CompleteCommandResources in
                     finished (with_part "resources" (an_text observed) r) (an_error observed)
           end)
      else if proxy_task task
      then failed "agent: proxy execution belongs to the application-owned controller"
      else execute
  end.

(** ** After the body *)

(** What a completed deployment records on the node. *)
Definition persist_applied (secrets : string) : proc (option failure) :=
  if senlunIdentityTask task then
    let* a := call CompleteSenlunIdentity in Done (an_error a)
  else
    let* recorded := ask (Host RecordApplied (Secrets secrets)) in
    match an_error recorded with
    | Some e => Done (Some e)
    | None =>
        let* replaced := call CompleteNativeReplacement in
        match an_error replaced with
        | Some e => Done (Some e)
        | None =>
            if daylightKey (td_app_key task) then
              let* installed := call ReadApplied in
              let* synced := (match an_error installed with
                              | Some e => Done (Some e)
                              | None => let* a := call SyncSharedDaylight in Done (an_error a)
                              end) in
              let* completed := (match synced with
                                 | Some e => Done (Some e)
                                 | None => let* a := call CompleteSharedDaylight in Done (an_error a)
                                 end) in
              Done (uncertainTaskOutcome completed)
            else Done None
        end
    end.

(** The step [persist] and the records of an application. *)
Definition persist (installs committed : bool) (secrets : string) (err : option failure) : proc (option failure) :=
  match err with
  | Some e => Done (Some e)
  | None =>
      if negb (td_kind task =?s "application.apply") then Done None
      else if installs then
        let* step := executionTransition "step" "persist" in
        let* e := (match step with Some e => Done (Some e) | None => persist_applied secrets end) in
        Done (if negb (td_source_receipt task =?s "") || committed then uncertainTaskOutcome e else e)
      else
        let* step := executionTransition "step" "persist" in
        match step with
        | Some e => Done (Some e)
        | None => let* a := call RemoveApplied in Done (an_error a)
        end
  end.

(** The cleanup of an identity migration, after its result was accepted. *)
Definition finish_identity : proc (option failure) :=
  if senlunServiceIdentityTask task then
    if cl_supports c FinishSenlunServiceIdentity then
      let* a := call FinishSenlunServiceIdentity in Done (an_error a)
    else Done (Some (plain "agent: Senlun service identity cleanup requires review"))
  else let* a := call FinishSenlunIdentity in Done (an_error a).

(** The single report of an execution. *)
Definition report_result (result : TaskReport) (err : option failure) : proc (option failure) :=
  Cancelled (λ cancelled,
    let completion := mk_completion (td_id task) (td_attempt task) result (safeTaskError err)
                        (cancelled || taskOutcomeIsUncertain err)
                        (if td_kind task =?s "application.apply" then Dispatch.ApplicationRuntimeGeneration else 0) in
    let* completeErr := sendTaskCompletion completion in
    match completeErr, err with
    | None, None => if senlunIdentityTask task then finish_identity else Done None
    | _, _ => Done completeErr
    end).

(** The end of [processTask] for a task whose result the runner owns. *)
Definition conclude (result : TaskReport) (err : option failure) : proc (option failure) :=
  let installs := negb (td_operation task =?s "uninstall") in
  let applies := (td_kind task =?s "application.apply") && installs in
  let merged := if applies && negb (bool_decide (rp_secrets result = ∅))
                then mergeGeneratedSecrets (td_secrets task) (rp_secrets result) else Ok (td_secrets task) in
  let err := match merged with Ok _ => err | Err e => join_errors err (Some (plain e)) end in
  let secrets := match merged with Ok s => s | Err _ => td_secrets task end in
  let committed := applies && proxyRuntimeApp (td_app_key task)
                   && negb (trim_space (default "" (rp_secrets result !! "api_token")) =?s "") in
  let err := if committed then uncertainTaskOutcome err else err in
  let* err := persist installs committed secrets err in
  report_result result err.

Definition processTask : proc (option failure) :=
  let* step := executionTransition "step" "apply" in
  match step with
  | Some e => Done (Some e)
  | None =>
      let* a := body in
      if at_handed_off a then Done None else conclude (at_report a) (at_error a)
  end.

(** [processTaskWithLeaseInterval] after [beginExecution]; whether the session is over. *)
Definition processTaskWithLease : proc bool :=
  let* start := executionTransition "start" "" in
  match start with
  | Some e => Done (terminalTaskAuthorityConflict (Some e))
  | None =>
      let* processErr := processTask in
      let* renewal := ask JoinRenewal in
      Done (terminalTaskAuthorityConflict (an_error renewal) || terminalTaskAuthorityConflict processErr)
  end.

End Client.
