(* ===== verification/Wire.v ===== *)
(** * The control channel of Center and Agent

    The Center's side of the channel (internal/center/agent_grpc.go,
    agent_grpc_actions.go, control_plane_crypto.go) and the Agent's translation of its
    statuses and of an assignment (internal/agent/center_grpc.go, task_runner.go).  A
    handler authenticates the Agent, decodes the document and calls the operation of
    the store; its answer is a document or a status.  Documents that do not decode are
    [None]. *)
From S2P Require Import Prelude GoText Redact GoTime Store Execution Claims Handoff Workflows Updates Leases Envelope Runner.

(** ** Statuses *)
Inductive grpc_code :=
| Unauthenticated | PermissionDenied | FailedPrecondition | Aborted | InvalidArgument | NotFound
| Unavailable | Internal | DeadlineExceeded.

#[global] Instance grpc_code_eq_dec : EqDecision grpc_code.
Proof. solve_decision. Defined.

Record status := mk_status { sts_code : grpc_code; sts_message : string }.

(** A handler: the store it leaves, and its reply or status. *)
Definition handler (A : Type) : Type := Store → Store * (A + status).

Section Center.
Context {L : Libraries} {C : ControlCodec}.

(** [grpcTaskError]. *)
Definition grpcTaskError (e : string) : status :=
  if str_in e [errExecutionBlocked; errExecutionAuthorization; errStaleTaskLease]
  then mk_status FailedPrecondition (SafeError e)
  else mk_status Internal "agent operation failed".

(** An operation of the store as a handler. *)
Definition respond {A} (on_error : string → status) (m : M A) : handler A :=
  λ st, match m st with (st', Ok a) => (st', inl a) | (st', Err e) => (st', inr (on_error e)) end.

Definition reject {A} (code : grpc_code) (message : string) : handler A :=
  λ st, (st, inr (mk_status code message)).

(** [authenticate] and [decodeAgentDocument]. *)
Definition authenticated {A B} (agentID credential : string) (document : option A) (k : A → handler B)
    : handler B :=
  λ st, if (trim_space agentID =?s "") || negb (is_ok (snd (authenticateAgent agentID credential st)))
        then (st, inr (mk_status Unauthenticated "agent authentication failed"))
        else match document with
             | None => (st, inr (mk_status InvalidArgument "invalid document"))
             | Some value => k value st
             end.

(** [controlplane.ExecutionTransitionRequest]. *)
Record ExecutionTransitionRequest := mk_transition {
  tq_session : string; tq_action : string; tq_digest : string; tq_phase : string; tq_unknown : bool;
  tq_error : string; tq_backup : option BackupEvidence; tq_arm : option (string * string);
  tq_reconnect : option string
}.

(** The outcomes of the verifications that the operations of the store take as
    arguments, and the later readings of the clock. *)
Record TransitionReads := mk_transition_reads {
  tx_tunnel : res unit; tx_stop_now : Z; tx_digest : string → string; tx_verify : task_row → res string;
  tx_durable : bool; tx_recoverable : task_row → bool; tx_reconnected : task_row → bool; tx_later : Z
}.

Definition RegisterSession (agentID credential : string) (document : option (string * Z)) (now : Z)
    : handler unit :=
  authenticated agentID credential document (λ value,
    respond grpcTaskError (RegisterExecutionSession agentID credential (fst value) (snd value) now)).

Definition TransitionExecution (agentID credential executionID : string)
    (document : option ExecutionTransitionRequest) (rd : TransitionReads) (now : Z) : handler bool :=
  authenticated agentID credential document (λ value,
    let session := tq_session value in
    let confirm (m : M unit) : handler bool := respond grpcTaskError (m ;;; ok true) in
    if tq_action value =?s "helper-observe"
    then respond grpcTaskError (λ st, (st, UpdateHelperObserved agentID session executionID now st))
    else if tq_action value =?s "start"
    then confirm (StartExecution agentID session executionID (tq_digest value) now (tx_tunnel rd) (tx_stop_now rd))
    else if tq_action value =?s "step"
    then confirm (CheckExecutionStep agentID session executionID (tq_phase value) now)
    else if tq_action value =?s "renew" then confirm (RenewExecution agentID session executionID now)
    else if tq_action value =?s "os-reinstall-backup" then
      match tq_backup value with
      | None => reject InvalidArgument "reinstall backup is required"
      | Some evidence =>
          confirm (RecordOSReinstallBackup agentID session executionID evidence (tx_digest rd) (tx_verify rd)
                     (tx_durable rd) now (tx_later rd))
      end
    else if tq_action value =?s "os-reinstall-arm" then
      match tq_arm value with
      | None => reject InvalidArgument "reinstall arming evidence is required"
      | Some (backup, prepared) =>
          confirm (ArmOSReinstall agentID session executionID backup prepared (tx_digest rd) (tx_recoverable rd) now)
      end
    else if tq_action value =?s "os-reinstall-reconnect" then
      match tq_reconnect value with
      | None => reject InvalidArgument "reinstall reconnect evidence is required"
      | Some taskID =>
          confirm (CompleteOSReinstall agentID credential session executionID taskID (tx_reconnected rd) now)
      end
    else if tq_action value =?s "helper-step"
    then confirm (CheckUpdateHelperStep agentID session executionID (tq_phase value) now)
    else if tq_action value =?s "stop"
    then confirm (StopExecution agentID session executionID (tq_unknown value) (tq_error value) now)
    else reject InvalidArgument "invalid execution action").

Definition RenewLease (agentID credential taskID : string) (document : option Z) (now : Z) : handler Z :=
  authenticated agentID credential document (λ attempt,
    respond grpcTaskError (RenewTaskLease agentID credential taskID attempt now)).

Definition BeginTailscale (agentID credential taskID : string) (document : option (string * string * Z))
    (now : Z) : handler unit :=
  authenticated agentID credential document (λ value,
    let '(executionID, sessionID, attempt) := value in
    respond grpcTaskError
      (Handoff.beginTailscaleUpdate agentID credential taskID executionID sessionID attempt now)).

(** The statuses of [CompleteTask]: an execution that does not match, a result that is
    not received, and a failed projection, commit or follow-up. *)
Definition completion_status (agentID taskID : string) (value : TaskResult) (now : Z) (st : Store) (e : string)
    : status :=
  if negb (sql_exists
       (λ r, (te_id r =?s rt_execution_id value) && (te_agent_id r =?s agentID)
             && (te_task_id r =?s taskID) && (te_attempt r =? rt_attempt value)
             && (te_session_id r =?s rt_session_id value)) (executions st))
  then mk_status FailedPrecondition "execution authorization is no longer valid"
  else if negb (is_ok (snd (StoreExecutionResult agentID (rt_session_id value) (rt_execution_id value)
                   (if rt_result value =?s "" then "{}" else rt_result value) (rt_succeeded value)
                   (rt_reconciliation_required value) (rt_error value) (rt_generation value)
                   (rt_host_update_helper value) now st)))
  then grpcTaskError e
  else if e =?s errInvalidReconciliationDisposition
  then mk_status InvalidArgument "invalid reconciliation disposition"
  else mk_status FailedPrecondition errTaskResult.

Definition Complete (agentID credential taskID : string) (document : option TaskResult) (project follow_up : M unit)
    (now disposed_now final_now : Z) : handler unit :=
  authenticated agentID credential document (λ value st,
    respond (completion_status agentID taskID value now st)
      (CompleteTask agentID taskID value project follow_up now disposed_now final_now) st).

(** ** Assignments *)

Definition EncryptAgentTask {K : Crypto} (agentID : string) (task : AgentTask)
    (ephemeral nonce : string) (st : Store) : res Envelope :=
  match sql_row (λ a, (ag_id a =?s agentID) && (ag_status a =?s "active")
                      && (ag_credential_revoked_at a =?s "")) (agents st) with
  | None => Err "center: Agent encryption identity is unavailable"
  | Some a =>
      match ValidatePublicKey (ag_public_key a) with
      | Err _ => Err "center: Agent must enroll again to establish its encryption identity"
      | Ok _ => Seal (ag_public_key a) (task_json task)
                  (TaskAdditionalData agentID (at_id task) (at_attempt task)) ephemeral nonce
      end
  end.

Record Assignment := mk_assignment {
  as_task_id : string; as_attempt : Z; as_execution_id : string; as_protocol : Z; as_digest : string;
  as_envelope : Envelope
}.

(** The frame [Connect] sends for a claimed task. *)
Definition assignment_of (task : AgentTask) (auth : ExecutionAuthorization) (e : Envelope) : Assignment :=
  mk_assignment (at_id task) (at_attempt task) (au_id auth) (au_protocol auth) (au_digest auth) e.

End Center.

(** ** The Agent's side *)

(** [agentGRPCError]: the statuses that become a [centerResponseError]. *)
Definition http_status (code : grpc_code) : option Z :=
  match code with
  | Unauthenticated => Some 401
  | PermissionDenied => Some 403
  | FailedPrecondition | Aborted => Some StatusConflict
  | InvalidArgument => Some 400
  | NotFound => Some 404
  | Unavailable => Some 503
  | Internal | DeadlineExceeded => None
  end.

Definition agentGRPCError (s : status) : failure :=
  mk_failure ((match http_status (sts_code s) with
               | Some _ => "agent: Center request failed: "
               | None => "agent: Center gRPC request: "
               end) +:+ sts_message s) false (http_status (sts_code s)).

(** The Agent decodes the task with its own types and refuses unknown fields, so it may
    refuse a document of a Center of another version; what it decodes has the fields of
    the document, which both name alike. *)
Class AgentCodec `{Libraries} := {
  agent_decode : string → option DeploymentTask;
  agent_decode_task : ∀ t d, agent_decode (task_json t) = Some d →
    td_id d = at_id t ∧ td_kind d = at_kind t ∧ td_attempt d = at_attempt t ∧ td_revision d = at_revision t
}.

Definition authorize_task (task : DeploymentTask) (auth : ExecutionAuthorization) : DeploymentTask :=
  mk_deployment (td_id task) (td_kind task) (td_attempt task) (td_revision task) (td_app_key task)
    (td_operation task) (td_target_version task) (td_source_receipt task) (td_secrets task)
    (td_required_generation task) (td_runtime task) (td_grants task) (td_payloads task)
    (td_resume_applied task) (td_command_action task) (td_remove_hy2 task) (td_verifier task)
    (td_reinstall_valid task) (td_callback_token task) (td_callback_url task) (td_gateway_state task)
    (td_listener_state task) (td_landing_server task) (td_landing_proxy task) auth.

Section Agent.
Context {L : Libraries} {K : Crypto} {AC : AgentCodec}.

Definition decryptGRPCAssignment (agentID privateKey : string) (a : Assignment) : res DeploymentTask :=
  let! plaintext := Open privateKey (as_envelope a) (TaskAdditionalData agentID (as_task_id a) (as_attempt a)) in
  guard_err (negb (as_protocol a =? ExecutionProtocol) || (as_execution_id a =?s "")
             || negb (as_digest a =?s sha256_hex plaintext))
    "agent: invalid execution authorization or content digest" ;;!
  match agent_decode plaintext with
  | None => Err "agent: Center returned an invalid encrypted task"
  | Some task =>
      guard_err (negb (td_id task =?s as_task_id a) || negb (td_attempt task =? as_attempt a)
                 || (td_id task =?s "") || (td_attempt task <=? 0))
        "agent: encrypted task identity does not match its envelope" ;;!
      Ok (authorize_task task (mk_authorization (as_execution_id a) (as_protocol a) (as_digest a)))
  end.

End Agent.
