(* ===== verification/WireSpec.v ===== *)
(** * The task an Agent decodes is the task the Center authorised

    The round trip of an assignment, what an accepted assignment proves, and which
    refusals of the Center end the session of an Agent. *)
From S2P Require Import Prelude GoText GoTime Store Hoare Execution Claims Protocol Samples Traces.
From S2P Require Import Envelope Runner Wire.

(** A passed guard. *)
Lemma guard_passed {A} b e (k : res A) x : (guard_err b e ;;! k) = Ok x → b = false ∧ k = Ok x.
Proof. by destruct b. Qed.

Section Assignments.
Context {L : Libraries} {C : ControlCodec} {K : Crypto} {AC : AgentCodec}.

(** The content the Center authorised and sealed to the key of its Agent is opened by that
    Agent as it is; when its decoder admits the document, the Agent has the task with
    exactly the stored permission. *)
Lemma sealed_task_opens private a id task st auth ephemeral nonce e row :
  x25519_private private = true → x25519_private ephemeral = true → str_len nonce = gcm_nonce_size →
  sql_row (λ x, (ag_id x =?s a) && (ag_status x =?s "active") && (ag_credential_revoked_at x =?s ""))
    (agents st) = Some row → ag_public_key row = x25519_public private →
  EncryptAgentTask a task ephemeral nonce st = Ok e → at_id task ≠ "" → 0 < at_attempt task → id ≠ "" →
  auth = mk_authorization id ExecutionProtocol (sha256_hex (task_json task)) →
  Open private e (TaskAdditionalData a (at_id task) (at_attempt task)) = Ok (task_json task) ∧
  decryptGRPCAssignment a private (assignment_of task auth e) =
    match agent_decode (task_json task) with
    | Some d => Ok (authorize_task d auth)
    | None => Err "agent: Center returned an invalid encrypted task"
    end.
Proof.
  intros Hp He Hn Hrow Hkey Hseal Hid Hat Hex ->.
  unfold EncryptAgentTask in Hseal. rewrite Hrow, Hkey in Hseal.
  destruct (ValidatePublicKey _); [|discriminate].
  apply (Open_Seal private) in Hseal; [|done..]. split; [exact Hseal|]. unfold decryptGRPCAssignment.
  cbn [assignment_of as_envelope as_task_id as_attempt as_protocol as_execution_id as_digest
       au_id au_protocol au_digest].
  rewrite Hseal. cbn [rbind]. rewrite Z.eqb_refl, String.eqb_refl, (proj2 (String.eqb_neq _ _) Hex).
  cbn [negb orb guard_err rbind]. destruct (agent_decode (task_json task)) as [d|] eqn:Hd; [|done].
  apply agent_decode_task in Hd as (Hi & Hk & Hm & Hr).
  rewrite Hi, Hm, String.eqb_refl, Z.eqb_refl, (proj2 (String.eqb_neq _ _) Hid).
  by rewrite (proj2 (Z.leb_gt _ _) Hat).
Qed.

(** What an assignment the Agent accepts proves: its digest is that of the decoded
    content, whose identity is the one the envelope was bound to. *)
Lemma accepted_assignment a private x d :
  decryptGRPCAssignment a private x = Ok d →
  ∃ plaintext task, Open private (as_envelope x) (TaskAdditionalData a (as_task_id x) (as_attempt x)) = Ok plaintext ∧
    agent_decode plaintext = Some task ∧
    d = authorize_task task (mk_authorization (as_execution_id x) ExecutionProtocol (sha256_hex plaintext)) ∧
    td_id d = as_task_id x ∧ td_attempt d = as_attempt x ∧ td_id d ≠ "" ∧ 0 < td_attempt d ∧ as_execution_id x ≠ "".
Proof.
  unfold decryptGRPCAssignment. destruct (Open _ _ _) as [plaintext|]; [|discriminate]. cbn [rbind].
  intros [E1 H]%guard_passed. destruct (agent_decode plaintext) as [task|] eqn:Ed; [|discriminate H].
  apply guard_passed in H as [E2 [= <-]]. bool_prop.
  exists plaintext, task. split_and!; cbn; congruence || lia || done.
Qed.
End Assignments.

(** ** Refusals *)
Section Refusals.
Context {L : Libraries}.

(** The refusals that say the Agent's authority is gone end its session: exactly the
    sentinel errors of the protocol become conflicts. *)
Lemma refusal_is_terminal e :
  terminalTaskAuthorityConflict (Some (agentGRPCError (grpcTaskError e))) =
  str_in e [errExecutionBlocked; errExecutionAuthorization; errStaleTaskLease].
Proof. unfold grpcTaskError. by destruct (str_in e _). Qed.

End Refusals.

(** ** A concrete channel

    A private key is its own public key, the agreed secret is the two keys in order, and
    the seal is a tag of sixteen characters before the plaintext. *)
Module Channel.
Definition tag : string := "authentication-t".

Fixpoint drop_tag (t s : string) : option string :=
  match t, s with
  | "", _ => Some s
  | String c t', String d s' => if Ascii.eqb c d then drop_tag t' s' else None
  | _, _ => None
  end.

Lemma drop_tag_app t s : drop_tag t (t +:+ s) = Some s.
Proof. induction t as [|c t IH]; [done|]. change (String c t +:+ s) with (String c (t +:+ s)). cbn [drop_tag]. by rewrite Ascii.eqb_refl. Qed.

Definition ordered (a b : string) : string :=
  match String.compare a b with Gt => b +:+ a | _ => a +:+ b end.

Lemma ordered_comm a b : ordered a b = ordered b a.
Proof.
  unfold ordered. rewrite (String.compare_antisym a b).
  destruct (String.compare b a) eqn:E; [|done..]. apply String.compare_eq_iff in E. by subst.
Qed.

#[global] Program Instance crypto : Crypto := {|
  x25519_private a := str_len a =? 32;
  x25519_point a := str_len a =? 32;
  x25519_public a := a;
  x25519_ecdh a b := Some (ordered a b);
  hkdf_sha256 secret salt info := secret +:+ salt +:+ info;
  gcm_seal _ _ p _ := tag +:+ p;
  gcm_open _ _ s _ := drop_tag tag s;
  sha256 s := s
|}.
Next Obligation. intros a H. split; [exact H|]. by apply Z.eqb_eq. Qed.
Next Obligation. intros a b _ _. cbn. by rewrite ordered_comm. Qed.
Next Obligation. intros k n p ad. apply drop_tag_app. Qed.
Next Obligation. intros k n p ad. unfold str_len. rewrite length_app_s. cbn. lia. Qed.

Definition unauthorized : ExecutionAuthorization := mk_authorization "" 0 "".

(** The Agent's reading of a task. *)
Definition deployment (t : AgentTask) : DeploymentTask :=
  mk_deployment (at_id t) (at_kind t) (at_attempt t) (at_revision t) "" "" "" "" "" 0 None []
    (if at_kind t =?s "node.security" then [PNodeSecurity] else []) false "" false "" false "" None None None
    None None unauthorized.

#[global] Program Instance codec : AgentCodec := {|
  agent_decode s := deployment <$> sample_task_of_json s
|}.
Next Obligation.
  intros t d H. change (deployment <$> sample_task_of_json (sample_task_json t) = Some d) in H.
  rewrite sample_task_round_trip in H. by injection H as <-.
Qed.

(** The policy of a node, and its offer. *)
Definition task : AgentTask :=
  mk_task "node-security-1" "node.security" 1 1 "" false None None None None None None None None "".
Definition execution : string := "execution-9".
Definition offer : Store * res ExecutionAuthorization :=
  persistExecutionAuthorization "agent-1" sample_session execution task sample_reads (sample_time + second)
    Run.registered.

Definition private_key : string := "0123456789abcdef0123456789abcdef".
Definition ephemeral_key : string := "fedcba9876543210fedcba9876543210".
Definition nonce : string := "nonce-123456".

Definition authorization : ExecutionAuthorization :=
  match snd offer with Ok a => a | Err _ => unauthorized end.
Definition envelope : Envelope :=
  match EncryptAgentTask "agent-1" task ephemeral_key nonce (fst offer) with
  | Ok e => e
  | Err _ => mk_envelope 0 "" "" ""
  end.
Definition assignment : Assignment := assignment_of task authorization envelope.

Lemma offered : offer = (fst offer, Ok authorization).
Proof. vm_compute. reflexivity. Qed.

Lemma sealed : EncryptAgentTask "agent-1" task ephemeral_key nonce (fst offer) = Ok envelope.
Proof. vm_compute. reflexivity. Qed.

End Channel.
