(* ===== verification/RunnerSpec.v ===== *)
(** * What the Agent's runner does, whatever it is answered

    The history of a run is the list of its effects with their answers.  [spec I p tr Q]
    says that from history [tr] the program [p] issues an effect only when [I] allows it
    and ends in [Q]; [reaches p tr p'] that [p] with the answers of [tr] has come to [p'],
    at any point, so that a property of it also holds when the process dies there. *)
From S2P Require Import Prelude GoText Redact RedactSpec Execution Claims Samples Runner.
From S2P Require Gateway Landing Dispatch.

Abbreviation history := (list (effect * answer)).

(** ** The logic *)
Section Logic.
Context (I : history → effect → Prop).

Fixpoint spec {A} (p : proc A) (tr : history) (Q : history → A → Prop) : Prop :=
  match p with
  | Done a => Q tr a
  | Ask e k => I tr e ∧ ∀ x, spec (k x) (tr ++ [(e, x)]) Q
  | Cancelled k => ∀ b, spec (k b) tr Q
  end.

Lemma spec_mono {A} (p : proc A) tr Q Q' :
  spec p tr Q → (∀ tr' a, Q tr' a → Q' tr' a) → spec p tr Q'.
Proof.
  revert tr. induction p as [a|e k IH|k IH]; simpl; intros tr H HQ; [auto| |eauto].
  destruct H as [Hi H]. split; [done|]. intros x. by eapply IH.
Qed.

Lemma spec_bind {A B} (p : proc A) (f : A → proc B) tr Q :
  spec p tr (λ tr' a, spec (f a) tr' Q) → spec (bindP p f) tr Q.
Proof.
  revert tr. induction p as [a|e k IH|k IH]; simpl; intros tr H; [done| |eauto].
  destruct H as [Hi H]. split; [done|]. eauto.
Qed.

Lemma spec_ask e tr (Q : history → answer → Prop) :
  I tr e → (∀ x, Q (tr ++ [(e, x)]) x) → spec (ask e) tr Q.
Proof. by split. Qed.

End Logic.

(** A run that has come to a point. *)
Inductive reaches {A} : proc A → history → proc A → Prop :=
| reaches_here p : reaches p [] p
| reaches_ask e k x tr p : reaches (k x) tr p → reaches (Ask e k) ((e, x) :: tr) p
| reaches_cancelled k b tr p : reaches (k b) tr p → reaches (Cancelled k) tr p.

Lemma spec_reaches {A} I (p p' : proc A) tr tr' Q :
  spec I p tr Q → reaches p tr' p' → spec I p' (tr ++ tr') Q.
Proof.
  intros H Hr. revert tr H. induction Hr as [p|e k x tr' p Hr IH|k b tr' p Hr IH]; intros tr H.
  - by rewrite app_nil_r.
  - destruct H as [_ H]. specialize (IH _ (H x)). by rewrite <- app_assoc in IH.
  - apply IH, H.
Qed.

(** ** Facts about histories *)

(** The Center accepted a request. *)
Definition accepted (tr : history) (r : request) : Prop :=
  ∃ e x, (e, x) ∈ tr ∧ an_error x = None ∧ (e = Rpc r ∨ e = FreshRpc r).

Definition host_of (p : effect * answer) : list host_call :=
  match fst p with Host h _ => [h] | _ => [] end.
Definition hosts (tr : history) : list host_call := concat (map host_of tr).

Definition reports_of (p : effect * answer) : list taskCompletion :=
  match fst p with Rpc (CompleteTaskRequest c) | FreshRpc (CompleteTaskRequest c) => [c] | _ => [] end.
Definition reports (tr : history) : list taskCompletion := concat (map reports_of tr).

(** The effects whose failure is the failure of the task: the calls of the host and the
    requests to the Center under the execution. *)
Definition counted (e : effect) : bool := match e with Host _ _ | Rpc _ => true | _ => false end.

(** Every one of them succeeded. *)
Definition clean (tr : history) : Prop := ∀ e x, (e, x) ∈ tr → counted e = true → an_error x = None.

Lemma accepted_app tr tr' r : accepted tr r → accepted (tr ++ tr') r.
Proof. intros (e & x & H & Hx). exists e, x. split; [apply elem_of_app; by left|done]. Qed.

Lemma accepted_new tr r x : an_error x = None → accepted (tr ++ [(Rpc r, x)]) r.
Proof. intros H. exists (Rpc r), x. split; [apply elem_of_app; right; by left|by eauto]. Qed.

Lemma hosts_app tr tr' : hosts (tr ++ tr') = hosts tr ++ hosts tr'.
Proof. unfold hosts. by rewrite map_app, concat_app. Qed.

Lemma reports_app tr tr' : reports (tr ++ tr') = reports tr ++ reports tr'.
Proof. unfold reports. by rewrite map_app, concat_app. Qed.

Lemma clean_app tr e x : clean tr → (counted e = true → an_error x = None) → clean (tr ++ [(e, x)]).
Proof.
  intros H Hx e' y Hin. apply elem_of_app in Hin as [Hin|Hin]; [by eapply H|].
  apply list_elem_of_singleton in Hin. by simplify_eq.
Qed.

(** ** Accounts *)

(** The texts with which the runner refuses a task by itself. *)
Definition refusals : list string :=
  ["agent: execution authorization is required"; "agent: stored task secrets are invalid";
   "agent: task is not authorized for a landing-only node"; "agent: applied proxy monitor recovery is unavailable";
   "agent: proxy execution belongs to the application-owned controller"; "agent: unsupported task kind";
   "agent: OS reinstall is not available"; "agent: Tailscale update is unavailable";
   "agent: missing node site task"; "agent: node security capability is not configured";
   "agent: IP quality capability is not configured"; "agent: network diagnostics capability is not configured";
   "agent: return-route capability is not configured"; "agent: bandwidth diagnostics capability is not configured";
   "agent: Glivela link server is unavailable"; "agent: Glivela link bandwidth is unavailable";
   "agent: host profile capability is not configured"; "agent: Xray configuration recovery is unavailable";
   "agent: package maintenance is unavailable"; "agent: package adoption is unavailable";
   "agent: application task requires runtime generation"; "agent: application capability is not configured";
   "agent: Docker capability is not configured"; "agent: application command received without Docker capability";
   "agent: Senulun reporting capability is not configured"; "agent: Senulun rotation capability is not configured";
   "agent: Senulun inspection capability is not configured"; "agent: Senulun enrollment capability is not configured";
   "agent: gateway task received without gateway capability"; "agent: gateway provisioning capability is not configured";
   "agent: invalid gateway component operation"; "agent: node listener task received without Docker capability";
   "agent: tunnel task received without tunnel capability"; "agent: host decommission capability is not configured";
   "agent: invalid host decommission callback URL"; "agent: host decommission callback token is missing";
   "agent: host update capability is not configured"; "agent: update target version is missing"].

(** The error of a run accounts for its history: it begins with the text of every failure
    that counts and is uncertain when one of them is; and there is none unless something
    failed or the runner refused. *)
Record told (tr : history) (err : option failure) : Prop := mk_told {
  to_failures : ∀ e x f, (e, x) ∈ tr → counted e = true → an_error x = Some f →
    ∃ g rest, err = Some g ∧ fl_text g = fl_text f +:+ rest ∧ (fl_uncertain f = true → fl_uncertain g = true);
  to_cause : ∀ g, err = Some g → (∃ e x, (e, x) ∈ tr ∧ an_error x ≠ None) ∨
    ∃ t rest, t ∈ refusals ∧ fl_text g = t +:+ rest
}.

Lemma told_none tr : told tr None ↔ clean tr.
Proof.
  split.
  - intros [H _] e x Hin Hc. destruct (an_error x) as [f|] eqn:E; [|done].
    destruct (H _ _ _ Hin Hc E) as (g & ? & ? & _). discriminate.
  - intros H. split; [|discriminate]. intros e x f Hin Hc E. rewrite (H _ _ Hin Hc) in E. discriminate.
Qed.

(** The last effect is none that counts. *)
Lemma told_connection tr x err : told tr err → told (tr ++ [(Connection, x)]) err.
Proof.
  intros [H1 H2]. split.
  - intros e y f [Hin|Hin]%elem_of_app Hc E; [by eapply H1|].
    apply list_elem_of_singleton in Hin. by simplify_eq.
  - intros g Eg. destruct (H2 g Eg) as [(e & y & Hin & Hy)|?]; [|by right].
    left. exists e, y. split; [apply elem_of_app; by left|done].
Qed.

(** The failure of the last effect. *)
Lemma told_last tr e x err : clean tr → an_error x = err → told (tr ++ [(e, x)]) err.
Proof.
  intros H <-. split.
  - intros e' y f Hin Hc E. apply elem_of_app in Hin as [Hin|Hin].
    + rewrite (H _ _ Hin Hc) in E. discriminate.
    + apply list_elem_of_singleton in Hin. simplify_eq. exists f, "". by rewrite app_nil_s.
  - intros g E. left. exists e, x. split; [apply elem_of_app; right; by left|congruence].
Qed.

Lemma told_refusal tr t : clean tr → t ∈ refusals → told tr (Some (plain t)).
Proof.
  intros H Ht. split.
  - intros e x f Hin Hc E. rewrite (H _ _ Hin Hc) in E. discriminate.
  - intros g [= <-]. right. exists t, "". by rewrite app_nil_s.
Qed.

Lemma told_uncertain tr err : told tr err → told tr (uncertainTaskOutcome err).
Proof.
  intros [H1 H2]. split.
  - intros e x f Hin Hc E. destruct (H1 _ _ _ Hin Hc E) as (g & rest & -> & Ht & _).
    eexists _, rest. split; [reflexivity|done].
  - destruct err as [g|]; [|discriminate]. intros g' [= <-]. exact (H2 g eq_refl).
Qed.

Lemma told_join tr err t : told tr err → t ∈ refusals → told tr (join_errors err (Some (plain t))).
Proof.
  intros H Ht. destruct err as [g|]; [|by apply told_refusal; [apply told_none|]]. destruct H as [H1 H2].
  split.
  - intros e x f Hin Hc E. destruct (H1 _ _ _ Hin Hc E) as (g' & rest & [= <-] & Hg & Hu).
    eexists _, _. split; [reflexivity|]. cbn [fl_text fl_uncertain plain]. rewrite Hg. split; [apply app_assoc_s|].
    intros Hf. by rewrite (Hu Hf).
  - intros g' [= <-]. destruct (H2 _ eq_refl) as [?|(t' & rest & Hin & Hg)]; [by left|]. right.
    eexists t', _. split; [done|]. cbn [fl_text]. rewrite Hg. apply app_assoc_s.
Qed.

(** ** The discipline *)

(** The calls that only a handed-over step, a recorded backup, a grant or the step
    [persist] allows. *)
Definition persisting : list host_call :=
  [CompleteSenlunIdentity; RecordApplied; CompleteNativeReplacement; ReadApplied; SyncSharedDaylight;
   CompleteSharedDaylight; RemoveApplied].
Definition finishing : list host_call := [FinishSenlunServiceIdentity; FinishSenlunIdentity].
Definition handing_over : list host_call := [StartTailscaleUpdate; ScheduleFinalRemoval; ScheduleUpdate].

(** The writers of the proxy, which belong to the application's own controller. *)
Definition proxy_writers : list host_call :=
  [InspectXrayConfiguration; ApplyXrayConfigurationRecovery; VerifyMeridianAcceptance;
   ExportLegacyMeridianState; ApplyMeridianRuntime; RetireLegacyMeridianInstallation; ApplyNodeProtocols;
   ApplyRealityCommand; ConfigureHY2Port; ApplySubscriptionCommand; ApplyClientCommand; ApplyNodeCommand;
   ApplyControllerCommand; ApplyLandingServer; LandingSelfIdentity; ApplyLandingProxy].

(** The part of a run in which a call is made. *)
Definition part_of (h : host_call) : Z :=
  if bool_decide (h ∈ finishing) then 3 else if bool_decide (h ∈ persisting) then 2
  else if bool_decide (h ∈ [CheckPorts; CheckRemoval]) then 0 else 1.

(** A call of the host is allowed. *)
Record host_allowed (tr : history) (h : host_call) : Prop := mk_host_allowed {
  ha_started : accepted tr (Transition "start" "");
  ha_step : accepted tr (Transition "step" "apply");
  ha_once : h ∉ hosts tr;
  ha_persist : h ∈ persisting → accepted tr (Transition "step" "persist");
  ha_handoff : h ∈ handing_over → accepted tr (Transition "step" "handoff");
  ha_begun : h = StartTailscaleUpdate → accepted tr BeginTailscaleUpdate;
  ha_stage : h = StageReinstall → ∃ evidence, accepted tr (ReinstallBackup evidence);
  ha_armed : h = ActivateReinstall → ∃ backup stage, accepted tr (ReinstallArm backup stage);
  ha_reported : reports tr = [] ∨ h ∈ finishing ∧ ∃ c, accepted tr (CompleteTaskRequest c);
  ha_writer : h ∉ proxy_writers
}.

(** A report is the only one, and its error accounts for the history. *)
Definition report_allowed {L : Libraries} (tr : history) (c : taskCompletion) : Prop :=
  accepted tr (Transition "start" "") ∧ reports tr = [] ∧
  ∃ err, co_error c = safeTaskError err ∧ told tr err ∧
    (taskOutcomeIsUncertain err = true → co_reconciliation_required c = true).

Definition disciplined {L : Libraries} (task : DeploymentTask) (tr : history) (e : effect) : Prop :=
  match e with
  | Host h _ => host_allowed tr h
  | Rpc (CompleteTaskRequest _) => False
  | FreshRpc (CompleteTaskRequest c) =>
      report_allowed tr c ∧ co_task_id c = td_id task ∧ co_attempt c = td_attempt task
  | Rpc (Transition action _) =>
      if action =?s "start" then Forall (λ p, fst p = Connection) tr
      else accepted tr (Transition "start" "") ∧ reports tr = []
  | Rpc _ | FreshRpc _ => accepted tr (Transition "start" "") ∧ reports tr = []
  | Connection | JoinRenewal => True
  end.

(** ** Points of a run *)

(** After the step [apply]: nothing is reported yet, and the calls made are those of
    earlier parts followed by [l]. *)
Record ready (n : Z) (tr : history) (l : list host_call) : Prop := mk_ready {
  rd_started : accepted tr (Transition "start" "");
  rd_step : accepted tr (Transition "step" "apply");
  rd_reports : reports tr = [];
  rd_hosts : ∃ l0, hosts tr = l0 ++ l ∧ Forall (λ h, part_of h < n) l0
}.

(** A call without a condition of its own. *)
Definition ordinary (h : host_call) : bool :=
  negb (bool_decide (h ∈ persisting ++ finishing ++ handing_over ++ proxy_writers
                       ++ [StageReinstall; ActivateReinstall])).

Lemma ready_fresh n tr l h : ready n tr l → n <= part_of h → h ∉ l → h ∉ hosts tr.
Proof.
  intros [_ _ _ (l0 & -> & Hl)] Hn Hh. rewrite elem_of_app. intros [Hin|?]; [|done].
  rewrite Forall_forall in Hl. specialize (Hl h Hin). lia.
Qed.

Lemma ready_host n tr l h a x : ready n tr l → ready n (tr ++ [(Host h a, x)]) (l ++ [h]).
Proof.
  intros [Hs Hp Hr (l0 & E & Hl)]. split; [by apply accepted_app..| |].
  - by rewrite reports_app, Hr.
  - exists l0. by rewrite hosts_app, E, <- app_assoc.
Qed.

Lemma ready_other n tr l e x :
  ready n tr l → host_of (e, x) = [] → reports_of (e, x) = [] → ready n (tr ++ [(e, x)]) l.
Proof.
  intros [Hs Hp Hr (l0 & E & Hl)] Hh Hc. split; [by apply accepted_app..| |].
  - rewrite reports_app, Hr. unfold reports. cbn. by rewrite Hc.
  - exists l0. rewrite hosts_app, E. unfold hosts at 1. cbn. by rewrite Hh, !app_nil_r.
Qed.

Lemma ready_later n m tr l : ready n tr l → n <= m → Forall (λ h, part_of h < m) l → ready m tr [].
Proof.
  intros [Hs Hp Hr (l0 & E & Hl)] Hn Hf. split; [done..|]. exists (l0 ++ l).
  rewrite app_nil_r. split; [done|]. apply Forall_app. split; [|done].
  eapply Forall_impl; [exact Hl|]. cbn. lia.
Qed.

Section Discipline.
Context {L : Libraries} {LH : Landing.LandingHash} {Srt : SliceSorter} {SC : SecretsCodec}.
Context (c : Client) (task : DeploymentTask).
Local Abbreviation runs p tr Q := (spec (disciplined task) p tr Q).

Lemma runs_call n h a tr l (Q : history → answer → Prop) :
  ready n tr l → n <= part_of h → h ∉ l → ordinary h = true →
  (∀ x, ready n (tr ++ [(Host h a, x)]) (l ++ [h]) → Q (tr ++ [(Host h a, x)]) x) →
  runs (ask (Host h a)) tr Q.
Proof.
  intros Hr Hn Hh Ho HQ. apply spec_ask; [|intros x; by apply HQ, ready_host].
  unfold ordinary in Ho. apply negb_true_iff, bool_decide_eq_false in Ho. rewrite !elem_of_app in Ho.
  pose proof Hr as [Hs Hp Hc _]. split; try done.
  - by eapply ready_fresh.
  - tauto.
  - tauto.
  - intros ->. exfalso. apply Ho. right; right; left. by left.
  - intros ->. exfalso. apply Ho. do 4 right. by left.
  - intros ->. exfalso. apply Ho. do 4 right. right. by left.
  - by left.
  - tauto.
Qed.

Lemma runs_special n h a tr l (Q : history → answer → Prop) :
  ready n tr l → n <= part_of h → h ∉ l →
  (h ∈ persisting → accepted tr (Transition "step" "persist")) →
  (h ∈ handing_over → accepted tr (Transition "step" "handoff")) →
  (h = StartTailscaleUpdate → accepted tr BeginTailscaleUpdate) →
  (h = StageReinstall → ∃ evidence, accepted tr (ReinstallBackup evidence)) →
  (h = ActivateReinstall → ∃ backup stage, accepted tr (ReinstallArm backup stage)) → h ∉ proxy_writers →
  (∀ x, ready n (tr ++ [(Host h a, x)]) (l ++ [h]) → Q (tr ++ [(Host h a, x)]) x) →
  runs (ask (Host h a)) tr Q.
Proof.
  intros Hr Hn Hh H1 H2 H3 H4 H5 H6 HQ. apply spec_ask; [|intros x; by apply HQ, ready_host].
  pose proof Hr as [Hs Hp Hc _]. split; try done; [by eapply ready_fresh|by left].
Qed.

(** A history that continues another one with requests that end in [err], without calling
    the host or reporting. *)
Record quiet (n : Z) (l : list host_call) (tr tr' : history) (err : option failure) : Prop := mk_quiet {
  qu_ready : ready n tr' l;
  qu_told : clean tr → told tr' err;
  qu_accepted : ∀ r, accepted tr r → accepted tr' r
}.

Lemma quiet_refusal n l tr t : ready n tr l → t ∈ refusals → quiet n l tr tr (Some (plain t)).
Proof. intros Hr Ht. split; [done|intros H; by apply told_refusal|done]. Qed.

Lemma quiet_last n l tr e x :
  ready n tr l → host_of (e, x) = [] → reports_of (e, x) = [] → quiet n l tr (tr ++ [(e, x)]) (an_error x).
Proof.
  intros Hr Hh He. split; [by apply ready_other| |intros r H; by apply accepted_app].
  intros H. by apply told_last.
Qed.

Lemma quiet_trans n l tr tr1 tr2 err : quiet n l tr tr1 None → quiet n l tr1 tr2 err → quiet n l tr tr2 err.
Proof.
  intros [_ C1 A1] [R2 C2 A2]. split; [done| |auto]. intros H. by apply C2, told_none, C1.
Qed.

Lemma runs_connection n tr l (Q : history → answer → Prop) :
  ready n tr l → (∀ tr' x, quiet n l tr tr' (an_error x) → Q tr' x) → runs (ask Connection) tr Q.
Proof. intros Hr HQ. apply spec_ask; [done|]. intros x. apply HQ. by apply quiet_last. Qed.

Lemma runs_rpc n tr l r (Q : history → answer → Prop) :
  ready n tr l → (match r with Transition a _ => a ≠ "start" | CompleteTaskRequest _ => False | _ => True end) →
  (∀ tr' x, quiet n l tr tr' (an_error x) → (an_error x = None → accepted tr' r) → Q tr' x) →
  runs (ask (Rpc r)) tr Q.
Proof.
  intros Hr Hn HQ. pose proof Hr as [Hs _ Hc _]. apply spec_ask.
  - destruct r as [a p|e|b p| |]; cbn; try done. by rewrite (proj2 (String.eqb_neq _ _) Hn).
  - intros x. apply HQ; [|apply accepted_new]. apply quiet_last; [done|done|by destruct r].
Qed.

(** A request after the connection was read. *)
Lemma runs_request n tr l r (Q : history → option failure → Prop) :
  ready n tr l → (match r with Transition a _ => a ≠ "start" | CompleteTaskRequest _ => False | _ => True end) →
  (∀ tr' e, quiet n l tr tr' e → (e = None → accepted tr' r) → Q tr' e) →
  runs (let* connection := ask Connection in
        match an_error connection with
        | Some e => Done (Some e)
        | None => let* reply := ask (Rpc r) in Done (an_error reply)
        end) tr Q.
Proof.
  intros Hr Hn HQ. apply spec_bind. eapply runs_connection; [done|]. intros tr1 x Q1.
  destruct (an_error x) as [e|]; [apply HQ; [done|discriminate]|].
  apply spec_bind. eapply runs_rpc; [apply Q1|done|]. intros tr2 y Q2 Hy.
  apply HQ; [by eapply quiet_trans|done].
Qed.

Lemma runs_transition n tr l action phase (Q : history → option failure → Prop) :
  ready n tr l → action ≠ "start" →
  (∀ tr' e, quiet n l tr tr' e → (e = None → accepted tr' (Transition action phase)) → Q tr' e) →
  runs (executionTransition c task action phase) tr Q.
Proof.
  intros Hr Ha HQ. unfold executionTransition. destruct (negb _); [|by apply runs_request with n l].
  apply HQ; [|discriminate]. apply quiet_refusal; [done|]. apply (bool_decide_unpack _). vm_compute. exact I.
Qed.

Lemma runs_begin_tailscale n tr l (Q : history → option failure → Prop) :
  ready n tr l →
  (∀ tr' e, quiet n l tr tr' e → (e = None → accepted tr' BeginTailscaleUpdate) → Q tr' e) →
  runs beginTailscaleUpdate tr Q.
Proof. intros Hr HQ. by apply runs_request with n l. Qed.

(** ** The body *)

Definition body_done (tr : history) (a : attempt) : Prop :=
  ready 2 tr [] ∧ (at_handed_off a = false → told tr (at_error a)).

Ltac concrete := solve [vm_compute; discriminate | apply (bool_decide_unpack _); vm_compute; exact I].

Ltac absent := let H := fresh in intros H; apply (bool_decide_pack _) in H; vm_compute in H; destruct H.

(** The history so far is clean. *)
Ltac clean_now :=
  first [assumption
        |apply clean_app; [clean_now|congruence || done]
        |apply told_none; match goal with
           | C : clean ?t → told ?t' ?e, E : ?e = None |- told ?t' None => rewrite <- E; apply C; clean_now
           | C : clean ?t → told ?t' None |- told ?t' None => apply C; clean_now
           end].

(** The error of a body accounts for its history. *)
Ltac told_now :=
  lazymatch goal with
  | |- told _ (uncertainTaskOutcome _) => apply told_uncertain; told_now
  | |- told _ (Some (plain _)) => apply told_refusal; [clean_now|concrete]
  | |- told (_ ++ [_]) _ => apply told_last; [clean_now|congruence]
  | C : clean ?t → told ?t' _ |- told ?t' _ => refine (eq_rect _ (told t') (C ltac:(clean_now)) _ _); congruence
  | |- told _ None => apply told_none; clean_now
  end.

(** One step of a body, and its end. *)
Ltac body_end :=
  split; [eapply ready_later; [eassumption|lia|]; repeat constructor
         |cbn [at_error at_handed_off]; intros ?; try done; told_now].

Ltac body_step :=
  lazymatch goal with
  | |- spec _ (bindP _ _) _ _ => apply spec_bind
  | |- spec _ (call ?h) _ _ => unfold call
  | |- spec _ (ask (Host ?h _)) _ _ =>
      eapply runs_call; [eassumption|concrete|concrete|reflexivity|]; intros ?x ?R; cbn [app] in *
  | |- spec _ (ask Connection) _ _ =>
      eapply runs_connection; [eassumption|]; intros ?tr ?x [?R ?C ?A]
  | |- spec _ (failed _) _ _ => unfold failed
  | |- spec _ (finished _ _) _ _ => unfold finished
  | |- spec _ (checked ?b _ _) _ _ => unfold checked; destruct b eqn:?
  | |- spec _ (Done _) _ _ => cbn [spec]
  | |- spec _ (if ?b then _ else _) _ _ => destruct b eqn:?
  | |- spec _ (match ?x with _ => _ end) _ _ => destruct x eqn:?
  | |- body_done _ _ => body_end
  end.

Ltac body_walk := repeat body_step.

Lemma runs_reinstall tr : ready 1 tr [] → clean tr → runs (reinstall c task) tr body_done.
Proof.
  intros R0 C0. unfold reinstall. body_step; [|body_walk]. do 2 body_step. body_step; [body_walk|].
  do 3 body_step. body_step; [body_walk|].
  body_step. eapply runs_rpc; [eassumption|done|]. intros trb1 xb1 [Rb1 Cb1 Ab1] Hb1. body_step; [body_walk|].
  body_step. eapply runs_special; [eassumption|concrete|concrete|absent|absent|done|eauto|done|concrete|].
  intros xb2 Rb2. cbn [app] in Rb2. body_step; [body_walk|].
  body_step. eapply runs_rpc; [eassumption|done|]. intros trb3 xb3 [Rb3 Cb3 Ab3] Hb3. body_step; [body_walk|].
  body_step. eapply runs_special; [eassumption|concrete|concrete|absent|absent|done|done|eauto|concrete|].
  intros xb4 Rb4. cbn [app] in Rb4. body_walk.
Qed.

Lemma runs_tailscale tr : ready 1 tr [] → clean tr → runs (tailscale_update c task) tr body_done.
Proof.
  intros R0 C0. unfold tailscale_update. body_step; [|body_walk]. do 3 body_step. body_step; [body_walk|].
  body_step. eapply runs_transition; [eassumption|done|]. intros trb1 e1 [Rb1 Cb1 Ab1] Hb1. body_step.
  eapply (spec_mono _ _ _ (λ tr' e, ready 1 tr' [PrepareTailscaleUpdate] ∧ told tr' e ∧
    (e = None → accepted tr' (Transition "step" "handoff") ∧ accepted tr' BeginTailscaleUpdate))).
  - destruct e1 as [e|]; [split_and!; [done|told_now|discriminate]|]. eapply runs_begin_tailscale; [eassumption|].
    intros trb2 e2 [Rb2 Cb2 Ab2] Hb2. split_and!; [done|told_now|]. intros He. split; [by apply Ab2, Hb1|by apply Hb2].
  - intros trb2 e2 (Rb2 & Tb2 & Hb2). destruct e2 as [e|].
    { unfold finished. cbn [spec]. split; [|done]. eapply ready_later; [eassumption|lia|repeat constructor]. }
    destruct Hb2 as [Hh Hs]; [done|].
    apply spec_bind. unfold call.
    eapply runs_special; [eassumption|concrete|concrete|absent|done|done|done|done|concrete|].
    intros xb3 Rb3. cbn [app] in Rb3. body_walk.
Qed.

Lemma runs_hand_to h tr :
  ready 1 tr [] ∨ ready 1 tr [CheckRemoval] → clean tr → h ∈ [ScheduleFinalRemoval; ScheduleUpdate] →
  runs (hand_to c task h) tr body_done.
Proof.
  intros R0 C0 Hh. assert (ready 1 tr []) as R1.
  { destruct R0 as [?|R]; [done|]. eapply ready_later; [exact R|lia|]. repeat constructor. }
  unfold hand_to. do 2 body_step. body_step; [body_walk|]. body_step.
  eapply runs_transition; [eassumption|done|]. intros trb1 e1 [Rb1 Cb1 Ab1] Hb1. body_step; [body_walk|].
  do 2 body_step.
  assert (part_of h = 1 ∧ h ∈ handing_over ∧ (h ∉ persisting) ∧ (h ∉ proxy_writers) ∧ h ≠ StartTailscaleUpdate
          ∧ h ≠ StageReinstall ∧ h ≠ ActivateReinstall) as (Hp & Ho & Hn1 & Hn2 & Hn3 & Hn4 & Hn5).
  { rewrite elem_of_cons, list_elem_of_singleton in Hh. destruct Hh as [->| ->]; split_and!; concrete || done. }
  eapply runs_special; [eassumption|lia|apply not_elem_of_nil|done|auto|done|done|done|done|].
  intros xb2 Rb2. cbn [app] in Rb2. split.
  - eapply ready_later; [exact Rb2|lia|]. repeat constructor. lia.
  - cbn [at_error at_handed_off]. intros _. told_now.
Qed.

Lemma runs_component tr : ready 1 tr [] → clean tr → runs (gateway_component c task) tr body_done.
Proof. intros R0 C0. unfold gateway_component, perform. body_walk. Qed.

Lemma runs_apply tr : ready 1 tr [] → clean tr → runs (application_apply c task) tr body_done.
Proof. intros R0 C0. unfold application_apply, Runner.replace. body_walk. Qed.

(** A task that is not for the proxy controller carries none of its payloads. *)
Lemma no_proxy_payload p : proxy_task task = false → p ∈ proxy_payloads → has task p = false.
Proof.
  unfold proxy_task. intros H Hp. bool_prop. apply not_true_iff_false. intros Ht.
  apply not_true_iff_false in H0. apply H0, existsb_exists. exists p. split; [by apply list_elem_of_In|done].
Qed.

Lemma runs_command tr :
  proxy_task task = false → ready 1 tr [] → clean tr → runs (application_command c task) tr body_done.
Proof.
  intros Hp R0 C0. unfold application_command.
  assert (∀ p, p ∈ proxy_payloads → has task p = false) as Hn by (intros; by apply no_proxy_payload).
  assert (commands task = Z.of_nat (length (List.filter (has task)
            [PSenulunReporting; PSenulunRotation; PSenulunInspection; PSenulunEnrollment]))) as Hc.
  { unfold commands, command_payloads. cbn [List.filter].
    rewrite !(Hn PMeridianAcceptance), !(Hn PProtocolCommand), !(Hn PApplicationCommand),
      !(Hn PSubscriptionCommand), !(Hn PClientCommand), !(Hn PNodeCommand), !(Hn PControllerCommand),
      !(Hn PMeridianRuntime), !(Hn PMeridianLegacyExport), !(Hn PMeridianLegacyRetire) by concrete.
    done. }
  rewrite Hc, (Hn PMeridianAcceptance), (Hn PMeridianLegacyExport), (Hn PMeridianRuntime),
    (Hn PMeridianLegacyRetire), (Hn PProtocolCommand), (Hn PApplicationCommand), (Hn PSubscriptionCommand),
    (Hn PClientCommand), (Hn PNodeCommand) by concrete.
  unfold keep_ok. destruct (negb _ || _) eqn:Eg; [body_walk|].
  destruct (has task PSenulunReporting) eqn:E1; [body_walk|].
  destruct (has task PSenulunRotation) eqn:E2; [body_walk|].
  destruct (has task PSenulunInspection) eqn:E3; [body_walk|].
  destruct (has task PSenulunEnrollment) eqn:E4; [body_walk|].
  exfalso. cbn [List.filter] in Eg. rewrite E1, E2, E3, E4 in Eg. cbn in Eg. by rewrite orb_true_r in Eg.
Qed.

Lemma runs_execute tr :
  proxy_task task = false → ready 1 tr [] → clean tr → runs (execute c task) tr body_done.
Proof.
  intros Hp R0 C0. unfold execute, diagnostic, keep, perform, Runner.replace.
  repeat (lazymatch goal with |- spec _ (if td_kind task =?s ?k then _ else _) _ _ =>
            destruct (String.eqb_spec (td_kind task) k) as [Hk|_] end;
          [solve [auto using runs_reinstall, runs_tailscale, runs_apply, runs_command, runs_component
                 |exfalso; unfold proxy_task in Hp; by rewrite Hk in Hp
                 |rewrite (no_proxy_payload PXrayRecovery Hp) by concrete; rewrite andb_false_r; body_walk
                 |unfold decommission, agent_update; body_walk; apply runs_hand_to; auto; concrete
                 |body_walk]|]).
  body_walk.
Qed.

Lemma runs_body tr : ready 0 tr [] → clean tr → runs (body c task) tr body_done.
Proof.
  intros R0 C0. unfold body. apply spec_bind.
  eapply (spec_mono _ _ _ (λ tr' e, ready 1 tr' [] ∧ told tr' e)).
  - unfold preflight. apply spec_bind.
    eapply (spec_mono _ _ _ (λ tr' e, (ready 0 tr' [] ∨ ready 0 tr' [CheckPorts]) ∧ told tr' e)).
    + destruct (publicRules task) as [|r l]; [by split; [left|apply told_none]|]. do 2 body_step. split; [by right|told_now].
    + intros tr1 e1 [R1 C1].
      assert (ready 1 tr1 []) as R2.
      { destruct R1 as [R1|R1]; (eapply ready_later; [exact R1|lia|repeat constructor]). }
      destruct e1 as [e|]; [by split|]. apply told_none in C1.
      destruct (td_kind task =?s "agent.decommission"); [|by split; [|apply told_none]].
      clear R2. destruct R1 as [R1|R1]; do 3 body_step;
        (split; [eapply ready_later; [eassumption|lia|repeat constructor]|told_now]).
  - intros tr1 e1 [R1 C1]. destruct e1 as [e|].
    { unfold finished. cbn [spec]. split; [|done]. eapply ready_later; [eassumption|lia|constructor]. }
    apply told_none in C1.
    body_step; [body_walk|]. body_step; [body_walk|]. body_step; [body_walk|]. by apply runs_execute.
Qed.

(** ** After the body *)

Definition kept (n : Z) (tr : history) (e : option failure) : Prop := ready n tr [] ∧ told tr e.

Lemma kept_uncertain n tr e : kept n tr e → kept n tr (uncertainTaskOutcome e).
Proof. intros [H1 H2]. split; [done|by apply told_uncertain]. Qed.

(** A record of what was applied: it needs the step [persist]. *)
Lemma runs_record h a tr l (Q : history → answer → Prop) :
  ready 2 tr l → clean tr → accepted tr (Transition "step" "persist") → h ∈ persisting → h ∉ l →
  (∀ x tr', ready 2 tr' (l ++ [h]) → told tr' (an_error x) →
     accepted tr' (Transition "step" "persist") → Q tr' x) →
  runs (ask (Host h a)) tr Q.
Proof.
  intros R C A Hp Hl HQ.
  assert (part_of h = 2 ∧ (h ∉ handing_over) ∧ (h ∉ proxy_writers) ∧ h ≠ StartTailscaleUpdate
          ∧ h ≠ StageReinstall ∧ h ≠ ActivateReinstall) as (Hn & H1 & H2 & H3 & H4 & H5).
  { unfold persisting in Hp. rewrite !elem_of_cons, elem_of_nil in Hp.
    destruct Hp as [->|[->|[->|[->|[->|[->|[->|[]]]]]]]]; split_and!; concrete || done. }
  eapply runs_special; [done|lia|done|done|done|done|done|done|done|].
  intros x R'. apply HQ; [done|by apply told_last|by apply accepted_app].
Qed.

Ltac record := unfold call; eapply runs_record; [eassumption|first [assumption|by apply told_none]|assumption|concrete|concrete|];
  let x := fresh "x" in let tr := fresh "tr" in intros x tr ?R ?C ?A; cbn [app] in *.
Ltac kept_end := split; [eapply ready_later; [eassumption|lia|repeat constructor]|assumption].

Lemma runs_persist_applied secrets tr :
  ready 2 tr [] → clean tr → accepted tr (Transition "step" "persist") →
  runs (persist_applied task secrets) tr (kept 3).
Proof.
  intros R0 C0 A0. unfold persist_applied. destruct (senlunIdentityTask task).
  { apply spec_bind. record. kept_end. }
  apply spec_bind. record. destruct (an_error x) as [e|]; [kept_end|].
  apply spec_bind. record. destruct (an_error x0) as [e|]; [kept_end|].
  destruct (daylightKey _); [|kept_end].
  apply spec_bind. record. apply spec_bind.
  eapply (spec_mono _ _ _ (λ tr' e, (ready 2 tr' [RecordApplied; CompleteNativeReplacement; ReadApplied] ∨
      ready 2 tr' [RecordApplied; CompleteNativeReplacement; ReadApplied; SyncSharedDaylight]) ∧
      told tr' e ∧ accepted tr' (Transition "step" "persist"))).
  - destruct (an_error x1) as [e|]; [by split; [left|]|]. apply spec_bind. record. split; [by right|done].
  - intros tr3 e3 (R3 & C3 & A3). apply spec_bind.
    eapply (spec_mono _ _ _ (kept 3)); [|intros tr4 e4 K4; by apply kept_uncertain].
    destruct e3 as [e|].
    + destruct R3 as [R3|R3]; kept_end.
    + apply spec_bind. destruct R3 as [R3|R3]; record; kept_end.
Qed.

Lemma runs_persist installs committed secrets err tr :
  kept 2 tr err → runs (persist c task installs committed secrets err) tr (kept 3).
Proof.
  intros [R0 C0]. unfold persist.
  assert (∀ tr' e, kept 2 tr' e → kept 3 tr' e) as Hk.
  { intros tr' e [R' C']. split; [|done]. eapply ready_later; [exact R'|lia|constructor]. }
  destruct err as [e|]; [by apply Hk|]. pose proof (proj1 (told_none _) C0) as C.
  destruct (negb (td_kind task =?s _)); [by apply Hk|].
  destruct installs.
  - apply spec_bind. eapply runs_transition; [done|done|]. intros tr1 e1 [R1 C1 A1] H1. apply spec_bind.
    eapply (spec_mono _ _ _ (kept 3)).
    + destruct e1 as [e|]; [by apply Hk; split; [|auto]|]. apply runs_persist_applied; [done| |auto].
      by apply told_none, C1.
    + intros tr2 e2 K2. cbn. destruct (_ || committed); [by apply kept_uncertain|done].
  - apply spec_bind. eapply runs_transition; [done|done|]. intros tr1 e1 [R1 C1 A1] H1.
    destruct e1 as [e|]; [by apply Hk; split; [|auto]|]. specialize (C1 C). specialize (H1 eq_refl).
    apply spec_bind. record. kept_end.
Qed.

(** A call that finishes an identity migration, after its report was accepted. *)
Lemma runs_finish h tr x0 completion :
  ready 3 tr [] → an_error x0 = None → h ∈ finishing →
  runs (let* a := call h in Done (an_error a)) (tr ++ [(FreshRpc (CompleteTaskRequest completion), x0)]) (λ _ _, True).
Proof.
  intros R Hx Hh. apply spec_bind, spec_ask; [|done].
  assert (part_of h = 3 ∧ (h ∉ persisting) ∧ (h ∉ handing_over) ∧ (h ∉ proxy_writers) ∧ h ≠ StartTailscaleUpdate
          ∧ h ≠ StageReinstall ∧ h ≠ ActivateReinstall) as (Hn & H0 & H1 & H2 & H3 & H4 & H5).
  { unfold finishing in Hh. rewrite elem_of_cons, list_elem_of_singleton in Hh.
    destruct Hh as [->| ->]; split_and!; concrete || done. }
  pose proof R as [Hs Hp _ _]. split; try done; [by apply accepted_app..| |].
  - rewrite hosts_app. cbn. rewrite app_nil_r. eapply ready_fresh; [exact R|lia|apply not_elem_of_nil].
  - right. split; [done|]. exists completion, (FreshRpc (CompleteTaskRequest completion)), x0.
    split; [apply elem_of_app; right; by left|by eauto].
Qed.

Lemma runs_report result err tr : kept 3 tr err → runs (report_result c task result err) tr (λ _ _, True).
Proof.
  intros [R C]. unfold report_result. cbn [spec]. intros cancelled. apply spec_bind. unfold sendTaskCompletion.
  apply spec_bind, spec_ask; [done|]. intros x.
  pose proof (ready_other 3 tr [] Connection x R eq_refl eq_refl) as R1.
  destruct (an_error x) as [e|]; [by destruct err|]. apply spec_bind, spec_ask.
  - split; [|done]. pose proof R1 as [Hs _ Hr _]. split; [done|]. split; [done|]. exists err. cbn.
    split; [done|]. split; [by apply told_connection|]. intros ->. by rewrite orb_true_r.
  - intros y. cbn [spec]. destruct (an_error y) eqn:Ey; [by destruct err|]. destruct err; [done|].
    destruct (senlunIdentityTask task); [|done]. unfold finish_identity.
    repeat case_match; try done; (apply runs_finish; [done|done|concrete]).
Qed.

Lemma runs_conclude result err tr : kept 2 tr err → runs (conclude c task result err) tr (λ _ _, True).
Proof.
  intros [R C]. unfold conclude. cbv zeta. apply spec_bind. eapply spec_mono.
  - apply runs_persist.
    assert (∀ b e, kept 2 tr e → kept 2 tr (if b : bool then uncertainTaskOutcome e else e)) as Hu.
    { intros [] e; [apply kept_uncertain|done]. }
    apply Hu. split; [done|]. destruct (_ && negb _); [|done].
    destruct (mergeGeneratedSecrets _ _) as [?|e] eqn:Em; [done|]. unfold mergeGeneratedSecrets in Em.
    repeat case_match; simplify_eq; (apply told_join; [done|concrete]).
  - intros tr' e K. by apply runs_report.
Qed.

Lemma runs_process tr :
  accepted tr (Transition "start" "") → hosts tr = [] → reports tr = [] → clean tr →
  runs (processTask c task) tr (λ _ _, True).
Proof.
  intros Hs Hh Hr Hc. unfold processTask. apply spec_bind.
  eapply (spec_mono _ _ _ (λ tr' e, e = None → ready 0 tr' [] ∧ clean tr')).
  - unfold executionTransition. destruct (negb _); [discriminate|]. apply spec_bind, spec_ask; [done|].
    intros x. destruct (an_error x) eqn:Ex; [discriminate|]. apply spec_bind, spec_ask.
    + cbn. split; [by apply accepted_app|]. by rewrite reports_app, Hr.
    + intros y. cbn. intros Hy. split.
      * split; [by do 2 apply accepted_app|by apply accepted_new| |].
        -- by rewrite !reports_app, Hr.
        -- exists []. rewrite !hosts_app, Hh. done.
      * by do 2 (apply clean_app; [|done]).
  - intros tr1 e1 H1. destruct e1 as [e|]; [done|]. destruct (H1 eq_refl) as [R1 C1].
    apply spec_bind. eapply spec_mono; [by apply runs_body|].
    intros tr2 a [R2 C2]. cbn. destruct (at_handed_off a); [done|]. apply runs_conclude. split; [done|auto].
Qed.

Lemma runs_task : runs (processTaskWithLease c task) [] (λ _ _, True).
Proof.
  unfold processTaskWithLease. apply spec_bind.
  eapply (spec_mono _ _ _ (λ tr' e, e = None → accepted tr' (Transition "start" "") ∧ hosts tr' = [] ∧ reports tr' = [] ∧ clean tr')).
  - unfold executionTransition. destruct (negb _); [discriminate|]. apply spec_bind, spec_ask; [done|].
    intros x. destruct (an_error x) eqn:Ex; [discriminate|]. apply spec_bind, spec_ask.
    + cbn. by repeat constructor.
    + intros y. cbn. intros Hy. split; [by apply (accepted_new [(Connection, x)])|].
      split; [done|]. split; [done|]. apply (clean_app [(Connection, x)]); [|done].
      apply (clean_app []); [by intros ? ? ?%not_elem_of_nil|done].
  - intros tr1 e1 H1. destruct e1 as [e|]; [done|]. destruct (H1 eq_refl) as (Hs & Hh & Hr & Hc).
    apply spec_bind. eapply spec_mono; [by apply runs_process|]. intros tr2 e2 _. apply spec_bind, spec_ask; done.
Qed.

Lemma host_call_allowed tr h a k :
  reaches (processTaskWithLease c task) tr (Ask (Host h a) k) → host_allowed tr h.
Proof. intros Hr. by destruct (spec_reaches _ _ _ _ _ _ runs_task Hr) as [? _]. Qed.

(** C3 -- The host is touched only with authority: at any point of any run, whatever the
    Center, the network and the host answered, a call of the host is about to be made
    only after the Center accepted the start and the step [apply] of this execution, no
    call is made twice, what was applied is recorded only after the step [persist], a
    helper takes over only after the step [handoff] (and, for Tailscale, the Center's
    record of it), a reinstallation is staged only after its backup was received and
    activated only after it was armed, after a report only the cleanup of an accepted
    one follows, and the writers that belong to the application's controller are never
    called. *)
Theorem host_calls_are_authorized tr h a k :
  reaches (processTaskWithLease c task) tr (Ask (Host h a) k) →
  accepted tr (Transition "start" "") ∧ accepted tr (Transition "step" "apply") ∧ (h ∉ hosts tr) ∧
  (h ∈ persisting → accepted tr (Transition "step" "persist")) ∧
  (h ∈ handing_over → accepted tr (Transition "step" "handoff")) ∧
  (h = StartTailscaleUpdate → accepted tr BeginTailscaleUpdate) ∧
  (h = StageReinstall → ∃ evidence, accepted tr (ReinstallBackup evidence)) ∧
  (h = ActivateReinstall → ∃ backup stage, accepted tr (ReinstallArm backup stage)) ∧
  (reports tr = [] ∨ h ∈ finishing ∧ ∃ report, accepted tr (CompleteTaskRequest report)) ∧ (h ∉ proxy_writers).
Proof.
  intros [] %host_call_allowed. by split_and!.
Qed.

End Discipline.

(** ** Ownership *)

(** Owners are numbered in the order in which they began. *)
Definition owned (s : ownership) : Prop :=
  (∀ o, ow_active s = Some o → (o < ow_next s)%nat) ∧ (∀ o c, ow_cancelled s !! o = Some c → (o < ow_next s)%nat).

(** One execution is active at a time; the late abort or release of an earlier one
    neither cancels nor releases it, and a stop reaches exactly the active one. *)
Lemma ownership_is_exclusive s owner s' :
  owned s → beginExecution s = Ok (owner, s') →
  owned s' ∧ (∀ x, beginExecution s' ≠ Ok x) ∧ ow_cancelled s' !! owner = None ∧
  (∀ old cause, old ≠ owner →
     ow_active (cancel old cause s') = Some owner ∧ ow_cancelled (cancel old cause s') !! owner = None ∧
     ow_active (release old s') = Some owner ∧ ow_cancelled (release old s') !! owner = None) ∧
  (∀ cause, ow_cancelled (stopActiveExecution (Some cause) s') !! owner = Some cause) ∧
  ow_active (release owner s') = None.
Proof.
  intros [Ha Hc]. unfold beginExecution. destruct (ow_active s) eqn:E; [discriminate|]. intros [= <- <-].
  assert (ow_cancelled s !! ow_next s = None) as Hn.
  { destruct (ow_cancelled s !! ow_next s) eqn:Ec; [|done]. apply Hc in Ec. lia. }
  split; [split; cbn; [intros o [= <-]; lia|intros o x Hx; apply Hc in Hx; lia]|].
  split; [done|]. split; [done|]. split; [|split].
  - intros old cause Hne. unfold release, cancel. cbn.
    rewrite (bool_decide_false (Some (ow_next s) = Some old)) by congruence.
    destruct (ow_cancelled s !! old); by rewrite ?lookup_insert_ne by congruence.
  - intros cause. unfold stopActiveExecution, cancel. cbn. rewrite Hn. apply lookup_insert_eq.
  - unfold release, cancel. cbn. by rewrite bool_decide_true.
Qed.

(** ** Concrete runs *)

(** The point a program comes to with the given answers, uncancelled. *)
Fixpoint after {A} (xs : list answer) (p : proc A) : history * proc A :=
  match p with
  | Done a => ([], Done a)
  | Ask e k =>
      match xs with
      | [] => ([], Ask e k)
      | x :: xs' => let '(tr, p') := after xs' (k x) in ((e, x) :: tr, p')
      end
  | Cancelled k => after xs (k false)
  end.

Lemma after_reaches {A} xs (p : proc A) : reaches p (fst (after xs p)) (snd (after xs p)).
Proof.
  revert xs. induction p as [a|e k IH|k IH]; intros xs; cbn.
  - constructor.
  - destruct xs as [|x xs]; [constructor|]. specialize (IH x xs). destruct (after xs (k x)) as [tr p'].
    by constructor.
  - by eapply reaches_cancelled.
Qed.

(** A run of a node's security policy. *)
Module Policy.
#[global] Instance landing_hash : Landing.LandingHash := {| Landing.sha256_hex s := "sha256-" +:+ s |}.
#[global] Instance secrets_codec : SecretsCodec := {| secrets_decode _ := Some ∅; secrets_encode _ := "{}" |}.

Definition client : Client :=
  mk_client "agent-1" sample_session (λ _, true) (λ _, true) true true true true true true true true.
Definition authorization (digest : string) : ExecutionAuthorization :=
  mk_authorization "execution-9" ExecutionProtocol digest.
Definition task : DeploymentTask :=
  mk_deployment "node-security-1" "node.security" 1 1 "" "" "" "" "" 0 None [] [PNodeSecurity] false "" false
    "" false "" None None None None None (authorization "digest").

Definition yes : answer := mk_answer "" ∅ None.

(** Connection, start, connection and step, each answered; and the policy and the
    connection of the report. *)
Definition to_apply : list answer := replicate 4 yes.
Definition to_report : list answer := replicate 6 yes.

Definition next_host {A} (p : proc A) : option host_call :=
  match p with Ask (Host h _) _ => Some h | _ => None end.
Definition next_report {A} (p : proc A) : option taskCompletion :=
  match p with Ask (FreshRpc (CompleteTaskRequest r)) _ => Some r | _ => None end.

Lemma host_calls_are_authorized_witness :
  next_host (snd (after to_apply (processTaskWithLease client task))) = Some ExecuteNodeSecurity ∧
  accepted (fst (after to_apply (processTaskWithLease client task))) (Transition "step" "apply").
Proof.
  pose proof (after_reaches to_apply (processTaskWithLease client task)) as H.
  assert (next_host (snd (after to_apply (processTaskWithLease client task))) = Some ExecuteNodeSecurity) as Hn
    by (vm_compute; reflexivity).
  split; [exact Hn|]. destruct (snd (after _ _)) as [|[r|r|h a| |] k|]; try discriminate Hn.
  exact (proj1 (proj2 (host_calls_are_authorized client task _ _ _ _ H))).
Defined.

(** The policy fails without a known outcome. *)
Definition boom : failure := mk_failure "policy: rules are half loaded" true None.
Definition to_failure : list answer := replicate 4 yes ++ [mk_answer "" ∅ (Some boom); yes].


Example success_is_reported :
  option_map co_error (next_report (snd (after to_report (processTaskWithLease client task)))) = Some "".
Proof. vm_compute. reflexivity. Qed.
End Policy.
