(* ===== verification/EndToEnd.v ===== *)
(** * Center and Agents together

    The composition of the Agent's runner with the Center: any number of runs, of any
    processes on any machines, started with any assignment that decrypts (also a
    replayed one), over a network that loses requests and replies, beside everything
    else that happens at the Center.  A run that dies is one that makes no more steps. *)
From S2P Require Import Prelude GoText GoTime Store Hoare Execution Guards Claims Handoff Workflows Legacy.
From S2P Require Import Leases Lifecycle Evolution Protocol Samples Traces Envelope Runner Wire WireSpec RunnerSpec.
From S2P Require Landing.

(** A run of the runner: its client and task, what it did and was answered, what is left
    of its program, and whether its context is cancelled. *)
Record run := mk_run {
  ru_client : Client; ru_credential : string; ru_task : DeploymentTask;
  ru_history : history; ru_program : proc bool; ru_cancelled : bool
}.

Record world := mk_world { wd_center : Store; wd_runs : list run }.

Definition ru_execution (r : run) : string := au_id (td_authorization (ru_task r)).
Definition ru_agent (r : run) : string := cl_agent_id (ru_client r).
Definition ru_session (r : run) : string := cl_session (ru_client r).

Section World.
Context {L : Libraries} {C : ControlCodec} {RC : ReceiptCodec} {K : Crypto} {AC : AgentCodec}.
Context {LH : Landing.LandingHash} {Srt : SliceSorter} {SC : SecretsCodec}.
(** The JSON text of a report. *)
Context (report_json : TaskReport → string).

(** The document of a transition of the run's execution. *)
Definition transition_document (r : run) (action phase : string) (backup : option BackupEvidence)
    (arm : option (string * string)) : ExecutionTransitionRequest :=
  mk_transition (ru_session r) action (au_digest (td_authorization (ru_task r))) phase false "" backup arm None.

(** The document of a completion. *)
Definition completion_document (r : run) (c : taskCompletion) : TaskResult :=
  mk_task_result (ru_execution r) (ru_session r) false (co_attempt c) (co_error c =?s "") (co_error c)
    (report_json (co_result c)) (co_reconciliation_required c) (Some (co_runtime_generation c)).

(** The Center serves a request of a run: the store it leaves, and whether it accepts. *)
Inductive served (r : run) : request → Store → Store → bool → Prop :=
| served_transition action phase rd now st st' reply :
    TransitionExecution (ru_agent r) (ru_credential r) (ru_execution r)
      (Some (transition_document r action phase None None)) rd now st = (st', reply) →
    served r (Transition action phase) st st' (match reply with inl b => b | inr _ => false end)
| served_backup text evidence rd now st st' reply :
    TransitionExecution (ru_agent r) (ru_credential r) (ru_execution r)
      (Some (transition_document r "os-reinstall-backup" "" (Some evidence) None)) rd now st = (st', reply) →
    served r (ReinstallBackup text) st st' (match reply with inl b => b | inr _ => false end)
| served_arm backup prepared rd now st st' reply :
    TransitionExecution (ru_agent r) (ru_credential r) (ru_execution r)
      (Some (transition_document r "os-reinstall-arm" "" None (Some (backup, prepared)))) rd now st = (st', reply) →
    served r (ReinstallArm backup prepared) st st' (match reply with inl b => b | inr _ => false end)
| served_tailscale now st st' reply :
    BeginTailscale (ru_agent r) (ru_credential r) (td_id (ru_task r))
      (Some (ru_execution r, ru_session r, td_attempt (ru_task r))) now st = (st', reply) →
    served r BeginTailscaleUpdate st st' (match reply with inl _ => true | inr _ => false end)
| served_complete c project follow_up now disposed_now final_now st st' reply :
    business_op project → business_op follow_up →
    Complete (ru_agent r) (ru_credential r) (co_task_id c) (Some (completion_document r c)) project follow_up
      now disposed_now final_now st = (st', reply) →
    served r (CompleteTaskRequest c) st st' (match reply with inl _ => true | inr _ => false end).

(** The run goes on with an answer; a failed request cancels its context. *)
Definition answered (r : run) (e : effect) (x : answer) (k : answer → proc bool) : run :=
  mk_run (ru_client r) (ru_credential r) (ru_task r) (ru_history r ++ [(e, x)]) (k x)
    (ru_cancelled r || match e with Rpc _ | FreshRpc _ => is_Some_b (an_error x) | _ => false end).

Definition cancelled (r : run) : run :=
  mk_run (ru_client r) (ru_credential r) (ru_task r) (ru_history r) (ru_program r) true.

Definition request_of (e : effect) : option request :=
  match e with Rpc r | FreshRpc r => Some r | _ => None end.

(** A step of one run at a Center. *)
Inductive run_step (st : Store) (r : run) : Store → run → Prop :=
| rs_delivered e q k x st' accepts :
    ru_program r = Ask e k → request_of e = Some q → served r q st st' accepts →
    (an_error x = None → accepts = true) → run_step st r st' (answered r e x k)
| rs_undelivered e q k x :
    ru_program r = Ask e k → request_of e = Some q → an_error x ≠ None → run_step st r st (answered r e x k)
| rs_local e k x :
    ru_program r = Ask e k → request_of e = None → run_step st r st (answered r e x k)
| rs_context k :
    ru_program r = Cancelled k →
    run_step st r st (mk_run (ru_client r) (ru_credential r) (ru_task r) (ru_history r) (k (ru_cancelled r))
                        (ru_cancelled r))
| rs_cancel : run_step st r st (cancelled r).

(** A new run of any process with any accepted assignment. *)
Definition launched (r : run) : Prop :=
  ru_history r = [] ∧ ru_program r = processTaskWithLease (ru_client r) (ru_task r) ∧ ru_cancelled r = false ∧
  ∃ private x, decryptGRPCAssignment (ru_agent r) private x = Ok (ru_task r).

Inductive world_step : world → world → Prop :=
| ws_center st st' runs : step st st' → world_step (mk_world st runs) (mk_world st' runs)
| ws_launch st runs r : launched r → world_step (mk_world st runs) (mk_world st (runs ++ [r]))
| ws_run st st' runs i r r' :
    runs !! i = Some r → run_step st r st' r' → world_step (mk_world st runs) (mk_world st' (<[i := r']> runs)).

Definition world_initial (w : world) : Prop := initial (wd_center w) ∧ wd_runs w = [].
Definition world_reachable (w : world) : Prop := ∃ w0, world_initial w0 ∧ rtc world_step w0 w.

(** ** Serving is a step of the protocol *)

Lemma confirm_store e (m : M unit) st : fst (respond e (m ;;; ok true) st) = fst (m st).
Proof. unfold respond, bindM. by destruct (m st) as [st' [[]|]]. Qed.

Lemma confirm_ok e (m : M unit) st st' b : respond e (m ;;; ok true) st = (st', inl b) → m st = (st', Ok tt).
Proof. unfold respond, bindM. destruct (m st) as [st1 [[]|]]; cbn; intros H; by simplify_eq. Qed.

Lemma operation_once m st : operation m → rtc step st (fst (m st)).
Proof. intros H. by apply rtc_once, step_operation. Qed.

Lemma authenticated_store {A B} a c (document : option A) (k : A → handler B) st :
  (∀ v, rtc step st (fst (k v st))) → rtc step st (fst (authenticated a c document k st)).
Proof. intros H. unfold authenticated. by repeat case_match. Qed.

Lemma transition_steps a c e document rd now st :
  rtc step st (fst (TransitionExecution a c e document rd now st)).
Proof.
  apply authenticated_store. intros v. cbv zeta.
  assert (∀ m, operation m → rtc step st (fst (respond grpcTaskError (m ;;; ok true) st))) as Hop.
  { intros m Hm. rewrite confirm_store. by apply operation_once. }
  repeat match goal with |- rtc step st (fst ((if ?b then _ else _) st)) => destruct b end.
  - unfold respond. by destruct (UpdateHelperObserved _ _ _ _ _).
  - apply Hop, op_start.
  - apply Hop, op_check.
  - apply Hop, op_renew.
  - destruct (tq_backup v); [apply Hop, op_backup|done].
  - destruct (tq_arm v) as [[]|]; [apply Hop, op_arm|done].
  - destruct (tq_reconnect v); [apply Hop, op_complete_reinstall|done].
  - apply Hop, op_helper_step.
  - apply Hop, op_stop.
  - done.
Qed.

Lemma served_steps r q st st' b : served r q st st' b → rtc step st st'.
Proof.
  destruct 1 as [? ? ? ? ? ? ? H|? ? ? ? ? ? ? H|? ? ? ? ? ? ? H|? ? ? ? H|? ? ? ? ? ? ? ? ? Hp Hf H];
    apply (f_equal fst) in H; cbn [fst] in H; subst st'; [apply transition_steps..| |].
  - unfold BeginTailscale. apply authenticated_store.
    intros [[e s] k]. unfold respond. pose proof (operation_once (Handoff.beginTailscaleUpdate (ru_agent r)
      (ru_credential r) (td_id (ru_task r)) e s k now) st (op_begin_tailscale _ _ _ _ _ _ _)) as Ho.
    by destruct (Handoff.beginTailscaleUpdate _ _ _ _ _ _ _ st) as [? []].
  - unfold Complete. apply authenticated_store.
    intros v. unfold respond. pose proof (operation_once (CompleteTask (ru_agent r) (co_task_id c) v project
      follow_up now disposed_now final_now) st (op_complete _ _ _ _ _ _ _ _ Hp Hf)) as Ho.
    by destruct (CompleteTask _ _ _ _ _ _ _ _ st) as [? []].
Qed.

(** ** Authorised content *)

(** The task an execution was authorised for. *)
Definition authorised_for (r : task_execution) (t : AgentTask) : Prop :=
  te_task_id r = at_id t ∧ te_attempt r = at_attempt t ∧ te_kind r = at_kind t ∧
  te_digest r = sha256_hex (task_json t).

Definition authentic (st : Store) : Prop :=
  ∀ r, r ∈ executions st → active r = true → ∃ t, authorised_for r t.

Lemma authorised_step r r' t : row_step r r' → authorised_for r t → authorised_for r' t.
Proof. intros [] (H1 & H2 & H3 & H4). split_and!; congruence. Qed.

Lemma authentic_step st st' : step st st' → authentic st → authentic st'.
Proof.
  assert (∀ st st', evolve st st' → authentic st → authentic st') as Hev.
  { intros s s' H Ha r' Hr' Hac. destruct (rows_step_origin _ _ _ (ev_rows _ _ H) Hr') as (r & Hr & Hs).
    destruct (Ha r Hr (state_le_active _ _ (rs_state _ _ Hs) Hac)) as [t Ht]. exists t. by eapply authorised_step. }
  destruct 1 as [m s Hop|a s id task rd n st|a c input n st|st st' H1 H2 H3 H4]; intros Ha.
  - apply (Hev s); [by apply operation_evolves|done].
  - pose proof (persist_wp a s id task rd n st) as Hok. pose proof (persist_unchanged a s id task rd n st) as Herr.
    destruct (persistExecutionAuthorization a s id task rd n st) as [st' [x|e]] eqn:E; cbn.
    + destruct (Hok _ _ E) as (-> & _ & _). intros r Hr Hac. cbn in Hr.
      apply elem_of_app in Hr as [Hr| ->%list_elem_of_singleton]; [by apply Ha|]. by exists task.
    + by rewrite (Herr _ _ E).
  - pose proof (import_wp a c input n st) as Hok. pose proof (import_unchanged a c input n st) as Herr.
    destruct (ImportLegacyReceipt a c input n st) as [st' [x|e]] eqn:E; cbn.
    + destruct (Hok _ _ E) as [->|(r & -> & _ & _ & Hn)]; [done|]. intros r' Hr Hac. cbn in Hr.
      apply elem_of_app in Hr as [Hr| ->%list_elem_of_singleton]; [by apply Ha|congruence].
    + by rewrite (Herr _ _ E).
  - apply (Hev st); [by apply evolve_frame|done].
Qed.

(** ** The invariant *)

(** The execution of a run, which the Center started for this run's session and content. *)
Definition started_at (st : Store) (r : run) (row : task_execution) (t : AgentTask) : Prop :=
  row ∈ executions st ∧ te_id row = ru_execution r ∧ te_agent_id row = ru_agent r ∧
  te_session_id row = ru_session r ∧ te_digest row = au_digest (td_authorization (ru_task r)) ∧
  te_state row ≠ Offered ∧ authorised_for row t.

Definition start_accepted (r : run) : Prop := accepted (ru_history r) (Transition "start" "").

Record world_ok (w : world) : Prop := mk_world_ok {
  wo_reachable : reachable (wd_center w);
  wo_authentic : authentic (wd_center w);
  wo_run : ∀ i r, wd_runs w !! i = Some r →
    reaches (processTaskWithLease (ru_client r) (ru_task r)) (ru_history r) (ru_program r) ∧
    ∃ private x, decryptGRPCAssignment (ru_agent r) private x = Ok (ru_task r);
  wo_started : ∀ i r, wd_runs w !! i = Some r → start_accepted r → ∃ row t, started_at (wd_center w) r row t;
  wo_unique : ∀ i j r r', wd_runs w !! i = Some r → wd_runs w !! j = Some r' → i ≠ j →
    start_accepted r → start_accepted r' → ru_execution r ≠ ru_execution r'
}.

Lemma started_later st st' r row t :
  reachable st → rtc step st st' → started_at st r row t → ∃ row', started_at st' r row' t.
Proof.
  intros Hr Hs (Hin & H1 & H2 & H3 & H4 & H5 & H6).
  destruct (steps_preserve _ _ Hs) as [Hl _]. destruct (later_row _ _ _ Hl Hin) as (row' & Hin' & Hst).
  exists row'. split; [done|]. pose proof Hst as []. split_and!; try congruence.
  - intros Ho. rewrite Ho in rs_state. by destruct (te_state row).
  - by eapply authorised_step.
Qed.

Lemma authentic_steps st st' : rtc step st st' → authentic st → authentic st'.
Proof. induction 1; [done|]. eauto using authentic_step. Qed.

(** The Center moves on; the runs stay. *)
Lemma world_ok_center st st' runs : rtc step st st' → world_ok (mk_world st runs) → world_ok (mk_world st' runs).
Proof.
  intros Hs [Hr Ha Hrun Hst Hun]. cbn in *. split; cbn; [by eapply reachable_steps|by eapply authentic_steps|done| |done].
  intros i r Hi Hacc. destruct (Hst i r Hi Hacc) as (row & t & H). destruct (started_later _ _ _ _ _ Hr Hs H) as [row' H'].
  by exists row', t.
Qed.

Lemma reaches_trans {A} (p p' p'' : proc A) tr tr' :
  reaches p tr p' → reaches p' tr' p'' → reaches p (tr ++ tr') p''.
Proof. induction 1; cbn; intros; [done|constructor; auto|eapply reaches_cancelled; eauto]. Qed.

(** A run that goes on without a newly accepted start. *)
Lemma world_ok_run st runs i r r' :
  world_ok (mk_world st runs) → runs !! i = Some r →
  ru_client r' = ru_client r → ru_task r' = ru_task r →
  reaches (processTaskWithLease (ru_client r) (ru_task r)) (ru_history r') (ru_program r') →
  (start_accepted r' → start_accepted r ∨
     (∃ row t, started_at st r row t) ∧
     ∀ j x, runs !! j = Some x → i ≠ j → start_accepted x → ru_execution x ≠ ru_execution r) →
  world_ok (mk_world st (<[i := r']> runs)).
Proof.
  intros [Hr Ha Hrun Hst Hun] Hi Hc Ht Hreach Hacc. cbn in *.
  assert (ru_execution r' = ru_execution r) as He by (unfold ru_execution; congruence).
  assert (∀ row t, started_at st r row t → started_at st r' row t) as Hsa.
  { intros row t H. unfold started_at, ru_agent, ru_session in *. by rewrite He, Hc, Ht. }
  split; cbn; [done|done| | |].
  - intros j x Hj. destruct (decide (i = j)) as [<-|Hne].
    + rewrite list_lookup_insert_eq in Hj by (by eapply lookup_lt_Some). injection Hj as <-.
      rewrite Hc, Ht. split; [done|]. unfold ru_agent. rewrite Hc. by apply (Hrun i).
    + rewrite list_lookup_insert_ne in Hj by done. by apply (Hrun j).
  - intros j x Hj Hs. destruct (decide (i = j)) as [<-|Hne].
    + rewrite list_lookup_insert_eq in Hj by (by eapply lookup_lt_Some). injection Hj as <-.
      destruct (Hacc Hs) as [Ho|[(row & t & H) _]].
      * destruct (Hst i r Hi Ho) as (row & t & H). exists row, t. by apply Hsa.
      * exists row, t. by apply Hsa.
    + rewrite list_lookup_insert_ne in Hj by done. by apply (Hst j).
  - assert (∀ j x, runs !! j = Some x → i ≠ j → start_accepted r' → start_accepted x →
              ru_execution r' ≠ ru_execution x) as Hnew.
    { intros j x Hj Hne Hs Hx. rewrite He. destruct (Hacc Hs) as [Ho|[_ H]]; [by eapply (Hun i j)|].
      intros E. by apply (H j x Hj Hne Hx). }
    intros j1 j2 x1 x2 H1 H2 Hne A1 A2.
    destruct (decide (i = j1)) as [<-|N1], (decide (i = j2)) as [<-|N2]; [done| | |].
    + rewrite list_lookup_insert_eq in H1 by (by eapply lookup_lt_Some). injection H1 as <-.
      rewrite list_lookup_insert_ne in H2 by done. by eapply Hnew.
    + rewrite list_lookup_insert_eq in H2 by (by eapply lookup_lt_Some). injection H2 as <-.
      rewrite list_lookup_insert_ne in H1 by done. intros E. by eapply (Hnew j1 x1).
    + rewrite list_lookup_insert_ne in H1, H2 by done. by eapply (Hun j1 j2).
Qed.

(** The start of a run was served: its offer is consumed. *)
Lemma start_served r q b st st' :
  authentic st → served r q st st' b → q = Transition "start" "" → b = true →
  (∃ old, old ∈ executions st ∧ te_id old = ru_execution r ∧ te_state old = Offered) ∧
  ∃ row t, started_at st' r row t.
Proof.
  intros Ha Hs Eq Eb. destruct Hs as [action phase rd now st st' reply H| | | |]; try discriminate.
  injection Eq as -> ->. destruct reply as [confirmed|]; [|discriminate]. unfold TransitionExecution, authenticated in H.
  destruct (_ || _); [discriminate|]. apply confirm_ok in H.
  cbn [tq_session tq_digest transition_document] in H.
  unfold StartExecution, bindM at 1 in H. destruct (guarded _ _ _ st) as [st1 [u|e]] eqn:Hg; [|discriminate].
  destruct (tx_tunnel rd); [|discriminate]. unfold Store.ok in H. injection H as ->.
  apply guarded_effect in Hg as (old & Hin & Hw & Hnew). bool_prop. unfold state_eqb in *. bool_prop.
  split; [by exists old|]. destruct (Ha old Hin) as [t Ht]; [unfold active; by rewrite H3|].
  eexists _, t. split; [exact Hnew|]. by split_and!.
Qed.

Lemma accepted_snoc tr e x q :
  accepted (tr ++ [(e, x)]) q → accepted tr q ∨ an_error x = None ∧ request_of e = Some q.
Proof.
  intros (e' & x' & Hin & Hx & He). apply elem_of_app in Hin as [Hin|Hin]; [left; by exists e', x'|].
  apply list_elem_of_singleton in Hin. simplify_eq. right. split; [done|]. by destruct He as [->| ->].
Qed.

Lemma world_step_ok w w' : world_step w w' → world_ok w → world_ok w'.
Proof.
  destruct 1 as [st st' runs Hs|st runs r Hl|st st' runs i r r' Hi Hrs]; intros Hok.
  - eapply world_ok_center; [by apply rtc_once|done].
  - destruct Hok as [Hr Ha Hrun Hst Hun]. cbn in *. destruct Hl as (Hh & Hp & Hc & Hd).
    assert (¬ start_accepted r) as Hn.
    { unfold start_accepted. rewrite Hh. intros (e & x & Hin & _). by apply not_elem_of_nil in Hin. }
    assert (∀ j x, (runs ++ [r]) !! j = Some x → start_accepted x → runs !! j = Some x) as Hj.
    { intros j x Hx Hs. apply lookup_app_Some in Hx as [Hx|[_ Hx]]; [done|].
      apply list_lookup_singleton_Some in Hx as [_ <-]. done. }
    split; cbn; [done|done| | |].
    + intros j x Hx. apply lookup_app_Some in Hx as [Hx|[_ Hx]]; [by apply (Hrun j)|].
      apply list_lookup_singleton_Some in Hx as [_ <-]. rewrite Hh, Hp. split; [constructor|done].
    + intros j x Hx Hs. eapply (Hst j); eauto.
    + intros j1 j2 x1 x2 H1 H2 Hne A1 A2. eapply (Hun j1 j2); eauto.
  - destruct (wo_run _ Hok i r Hi) as [Hreach _].
    assert (∀ e k x, ru_program r = Ask e k →
      reaches (processTaskWithLease (ru_client r) (ru_task r)) (ru_history (answered r e x k)) (ru_program (answered r e x k)))
      as Hnext.
    { intros e k x Hp. rewrite Hp in Hreach. cbn. eapply reaches_trans; [exact Hreach|]. repeat constructor. }
    destruct Hrs as [e q k x st' accepts Hp Hq Hsv Hacc|e q k x Hp Hq Hx|e k x Hp Hq|k Hp|].
    + pose proof (served_steps _ _ _ _ _ Hsv) as Hsteps.
      pose proof (world_ok_center _ _ _ Hsteps Hok) as Hok'.
      eapply world_ok_run; [exact Hok'|exact Hi|done|done|by apply Hnext|].
      intros [Hs|[Hx He]]%accepted_snoc; [by left|]. right. rewrite Hq in He. injection He as ->.
      apply start_served in Hsv as [(old & Hin & Hid & Ho) Hrow]; [|apply Hok|done|auto].
      split; [exact Hrow|]. intros j y Hj Hne Hy E.
      destruct (wo_started _ Hok j y Hj Hy) as (row & t & Hin' & Hid' & _ & _ & _ & Hn & _).
      assert (row = old) as ->; [|done].
      eapply (nodup_key_eq te_id); [apply wf_id, inv_well_formed, reachable_inv, Hok|done|done|congruence].
    + eapply world_ok_run; [exact Hok|exact Hi|done|done|by apply Hnext|].
      intros [Hs|[Hx' _]]%accepted_snoc; [by left|congruence].
    + eapply world_ok_run; [exact Hok|exact Hi|done|done|by apply Hnext|].
      intros [Hs|[_ He]]%accepted_snoc; [by left|congruence].
    + eapply world_ok_run; [exact Hok|exact Hi|done|done| |by left]. cbn. rewrite Hp in Hreach.
      rewrite <- (app_nil_r (ru_history r)). eapply reaches_trans; [exact Hreach|].
      eapply reaches_cancelled. constructor.
    + eapply world_ok_run; [exact Hok|exact Hi|done|done|exact Hreach|by left].
Qed.

Lemma world_reachable_ok w : world_reachable w → world_ok w.
Proof.
  intros (w0 & [Hi Hn] & Hs). assert (world_ok w0) as H0.
  { destruct w0 as [st runs]. cbn in *. subst runs. split; cbn; [by exists st| |done..].
    intros r Hr. destruct Hi as [Hi _]. rewrite Hi in Hr. by apply not_elem_of_nil in Hr. }
  clear Hi Hn. induction Hs; [done|]. eauto using world_step_ok.
Qed.

(** ** What the runs did *)

Lemma reaches_split {A} (p p' : proc A) tr1 e x tr2 :
  reaches p (tr1 ++ (e, x) :: tr2) p' → ∃ k, reaches p tr1 (Ask e k).
Proof.
  remember (tr1 ++ (e, x) :: tr2) as tr eqn:E. intros H. revert tr1 E.
  induction H as [p|e' k x' tr p Hr IH|k b tr p Hr IH]; intros tr1 E.
  - by destruct tr1.
  - destruct tr1 as [|y tr1]; cbn in E; simplify_eq; [by exists k; constructor|].
    destruct (IH tr1 eq_refl) as [k' Hk]. exists k'. by constructor.
  - destruct (IH tr1 E) as [k' Hk]. exists k'. by eapply reaches_cancelled.
Qed.

Lemma runner_hosts c task tr p :
  reaches (processTaskWithLease c task) tr p →
  NoDup (hosts tr) ∧ (hosts tr ≠ [] → accepted tr (Transition "start" "")).
Proof.
  intros Hr. assert (∀ tr1 h a x tr2, tr = tr1 ++ (Host h a, x) :: tr2 →
    (h ∉ hosts tr1) ∧ accepted tr1 (Transition "start" ""))
    as Hat.
  { intros tr1 h a x tr2 ->. apply reaches_split in Hr as [k Hk].
    by destruct (host_call_allowed c task tr1 h a k Hk). }
  clear Hr. induction tr as [|[e x] tr IH] using rev_ind; [split; [constructor|done]|].
  destruct IH as [IHn IHs]. { intros tr1 h a y tr2 ->. apply (Hat tr1 h a y (tr2 ++ [(e, x)])). by rewrite <- app_assoc. }
  rewrite hosts_app. destruct (decide (host_of (e, x) = [])) as [Hn|Hn].
  - unfold hosts at 2 4. cbn. rewrite Hn. cbn. rewrite app_nil_r. split; [done|].
    intros H. by apply accepted_app, IHs.
  - destruct e as [| |h a| |]; try done. destruct (Hat tr h a x [] eq_refl) as [Hh Hs]. split.
    + apply NoDup_app. split; [done|]. split; [|apply NoDup_singleton].
      intros y Hy Hin. apply list_elem_of_singleton in Hin. by subst y.
    + intros _. by apply accepted_app.
Qed.

(** SHA-256 without collisions. *)
Definition collision_free : Prop := ∀ x y, sha256_hex x = sha256_hex y → x = y.

(** The content a run executes is the content that was authorised. *)
Lemma executed_content st r row t :
  collision_free → started_at st r row t → (∃ private x, decryptGRPCAssignment (ru_agent r) private x = Ok (ru_task r)) →
  td_id (ru_task r) = at_id t ∧ td_kind (ru_task r) = at_kind t ∧ td_attempt (ru_task r) = at_attempt t.
Proof.
  intros Hcf (_ & _ & _ & _ & Hdig & _ & (_ & _ & _ & Ht)) (private & x & Hx).
  apply accepted_assignment in Hx as (plaintext & d & _ & Hd & E & _).
  rewrite Hdig, E in Ht. cbn in Ht. apply Hcf in Ht. subst plaintext.
  apply agent_decode_task in Hd as (H1 & H2 & H3 & _).
  rewrite E. cbn. done.
Qed.

(** C2 -- Nothing is executed twice: in every state of Center and Agents that can be
    reached, however assignments are replayed, processes restarted or run side by side
    and requests and replies lost, (1) no run calls the same operation of its host
    twice; (2) a run that touched its host holds an execution which the Center started
    for exactly its Agent, session and content; (3) two runs that touched a host have
    different executions, and different tasks or attempts unless SHA-256 collides; and
    (4) of the runs of one Agent at most one still has a live permission (explicit
    configuration recoveries apart). *)
Theorem executed_at_most_once w :
  world_reachable w →
  (∀ i r, wd_runs w !! i = Some r →
     NoDup (hosts (ru_history r)) ∧
     (hosts (ru_history r) ≠ [] → ∃ row t, started_at (wd_center w) r row t ∧
        (collision_free → td_id (ru_task r) = at_id t ∧ td_kind (ru_task r) = at_kind t ∧
                          td_attempt (ru_task r) = at_attempt t))) ∧
  (∀ i j r r', wd_runs w !! i = Some r → wd_runs w !! j = Some r' → i ≠ j →
     hosts (ru_history r) ≠ [] → hosts (ru_history r') ≠ [] →
     ru_execution r ≠ ru_execution r' ∧
     (collision_free → (td_id (ru_task r), td_attempt (ru_task r)) ≠ (td_id (ru_task r'), td_attempt (ru_task r'))) ∧
     (∀ row row' t t', started_at (wd_center w) r row t → started_at (wd_center w) r' row' t' →
        ru_agent r = ru_agent r' → live row = true → live row' = true →
        recovery_kind (te_kind row) = false → recovery_kind (te_kind row') = false → False)).
Proof.
  intros Hok%world_reachable_ok.
  assert (∀ i r, wd_runs w !! i = Some r → hosts (ru_history r) ≠ [] → start_accepted r) as Hacc.
  { intros i r Hi. apply (runner_hosts _ _ _ _ (proj1 (wo_run _ Hok i r Hi))). }
  assert (∀ i r, wd_runs w !! i = Some r → hosts (ru_history r) ≠ [] → ∃ row t, started_at (wd_center w) r row t ∧
        (collision_free → td_id (ru_task r) = at_id t ∧ td_kind (ru_task r) = at_kind t ∧
                          td_attempt (ru_task r) = at_attempt t)) as Hst.
  { intros i r Hi Hh. destruct (wo_started _ Hok i r Hi (Hacc i r Hi Hh)) as (row & t & H). exists row, t.
    split; [done|]. intros Hcf. eapply executed_content; [done|exact H|]. by apply (wo_run _ Hok i r Hi). }
  split.
  - intros i r Hi. split; [|by apply (Hst i)]. apply (runner_hosts _ _ _ _ (proj1 (wo_run _ Hok i r Hi))).
  - intros i j r r' Hi Hj Hne Hh Hh'.
    assert (ru_execution r ≠ ru_execution r') as Hx by (eapply (wo_unique _ Hok i j); eauto).
    pose proof (reachable_inv _ (wo_reachable _ Hok)) as Hinv. split; [done|]. split.
    + intros Hcf E. injection E as E1 E2.
      destruct (Hst i r Hi Hh) as (row & t & Hr & Ht). destruct (Hst j r' Hj Hh') as (row' & t' & Hr' & Ht').
      destruct (Ht Hcf) as (T1 & _ & T3), (Ht' Hcf) as (T1' & _ & T3').
      destruct Hr as (Hin & Hid & _ & _ & _ & _ & (A1 & A2 & _)), Hr' as (Hin' & Hid' & _ & _ & _ & _ & (B1 & B2 & _)).
      assert (row = row') as <-; [|congruence].
      eapply (nodup_key_eq attempt_key); [apply wf_attempt, inv_well_formed, Hinv|done|done|].
      unfold attempt_key. congruence.
    + intros row row' t t' (Hin & Hid & Ha & _) (Hin' & Hid' & Ha' & _) Hag L1 L2 K1 K2.
      assert (row = row') as <-; [|congruence]. apply (inv_exclusive _ Hinv); congruence.
Qed.
End World.

(** ** A reachable world *)

(** The run goes on with an answer, and its next request. *)
Definition advance (x : answer) (r : run) : run :=
  match ru_program r with
  | Ask e k => answered r e x k
  | _ => r
  end.
Definition next_effect (r : run) : option effect :=
  match ru_program r with Ask e _ => Some e | _ => None end.

Section Advance.
Context {L : Libraries} {C : ControlCodec} (report_json : TaskReport → string).

Lemma advance_local st r e x :
  next_effect r = Some e → request_of e = None → run_step report_json st r st (advance x r).
Proof.
  unfold next_effect, advance. intros H Hq. destruct (ru_program r) as [|e' k|] eqn:E; try done.
  injection H as ->. by apply rs_local.
Qed.

Lemma advance_served st st' r e q x :
  next_effect r = Some e → request_of e = Some q → served report_json r q st st' true →
  run_step report_json st r st' (advance x r).
Proof.
  unfold next_effect, advance. intros H Hq Hs. destruct (ru_program r) as [|e' k|] eqn:E; try done.
  injection H as ->. by eapply rs_delivered.
Qed.
End Advance.

(** An Agent that received the offer of [Channel] and executes it. *)
Module Executed.
Import Channel Policy.
Definition report_json (_ : TaskReport) : string := "{}".

Definition task : DeploymentTask :=
  match decryptGRPCAssignment "agent-1" private_key assignment with
  | Ok d => d
  | Err _ => Policy.task
  end.
Definition fresh : run :=
  mk_run client "credential" task [] (processTaskWithLease client task) false.

Definition reads : TransitionReads :=
  mk_transition_reads (Ok tt) 0 (λ x, x) (λ _, Err "") true (λ _, false) (λ _, false) 0.
Definition started : Store :=
  fst (TransitionExecution "agent-1" "credential" execution
         (Some (transition_document fresh "start" "" None None)) reads (sample_time + 2 * second) (fst offer)).
Definition applying : Store :=
  fst (TransitionExecution "agent-1" "credential" execution
         (Some (transition_document fresh "step" "apply" None None)) reads (sample_time + 3 * second) started).

Definition at_step (n : nat) : run := Nat.iter n (advance yes) fresh.
Definition reached : world := mk_world applying [at_step 5].

Lemma reached_ok : world_reachable report_json reached.
Proof.
  exists (mk_world sample_store []). split; [done|].
  eapply rtc_l; [apply ws_center, (step_operation (RegisterExecutionSession "agent-1" "credential" sample_session 2
                                     sample_time)), op_register|].
  eapply rtc_l; [apply ws_center, (step_persist "agent-1" sample_session execution Channel.task sample_reads
                                     (sample_time + second))|].
  eapply rtc_l; [eapply (ws_launch _ _ _ fresh)|].
  { split; [done|]. split; [done|]. split; [done|]. exists private_key, assignment. vm_compute. reflexivity. }
  eapply rtc_l; [eapply (ws_run _ _ _ _ 0 fresh (at_step 1)); [done|]; eapply advance_local; vm_compute; reflexivity|].
  eapply rtc_l; [eapply (ws_run _ _ started _ 0 (at_step 1) (at_step 2)); [done|];
                 eapply advance_served; [vm_compute; reflexivity..|]|].
  { apply (served_transition _ _ "start" "" reads (sample_time + 2 * second) _ _ (inl true)). vm_compute. reflexivity. }
  eapply rtc_l; [eapply (ws_run _ _ _ _ 0 (at_step 2) (at_step 3)); [done|]; eapply advance_local; vm_compute; reflexivity|].
  eapply rtc_l; [eapply (ws_run _ _ applying _ 0 (at_step 3) (at_step 4)); [done|];
                 eapply advance_served; [vm_compute; reflexivity..|]|].
  { apply (served_transition _ _ "step" "apply" reads (sample_time + 3 * second) _ _ (inl true)). vm_compute. reflexivity. }
  eapply rtc_l; [eapply (ws_run _ _ _ _ 0 (at_step 4) (at_step 5)); [done|]; eapply advance_local; vm_compute; reflexivity|].
  done.
Qed.

Lemma executed_at_most_once_witness :
  hosts (ru_history (at_step 5)) = [ExecuteNodeSecurity] ∧
  ∃ row t, started_at applying (at_step 5) row t.
Proof.
  assert (hosts (ru_history (at_step 5)) = [ExecuteNodeSecurity]) as Hh by (vm_compute; reflexivity).
  split; [exact Hh|].
  destruct (proj1 (executed_at_most_once report_json reached reached_ok) 0%nat (at_step 5) eq_refl) as [_ H].
  destruct (H ltac:(rewrite Hh; discriminate)) as (row & t & Hs & _). exists row, t. exact Hs.
Defined.
End Executed.
