(* ===== verification/Transfer.v ===== *)
(** * Handing over the receipts of the previous protocol

    internal/agent/legacy_receipt_export.go and legacy_receipt_transfer.go: before an
    Agent receives tasks it moves the unresolved receipts of its own database to the
    Center, one at a time: it reads the first one, sends it, and deletes it only after
    the Center confirmed the same evidence.  Requests and replies may be lost. *)
From S2P Require Import Prelude GoText GoTime Store Hoare Execution Claims Legacy Lifecycle Evolution Protocol.
From S2P Require Import Samples Traces Envelope Runner Wire WireSpec.

(** ** The Agent's table *)

(** A row of [task_receipts]; [task_id] is its primary key. *)
Record task_receipt := mk_task_receipt {
  rc_task_id : string; rc_kind : string; rc_attempt : Z; rc_generation : Z; rc_hash : string;
  rc_state : string; rc_sealed : string; rc_created_at : string; rc_updated_at : string
}.

#[global] Instance task_receipt_eq_dec : EqDecision task_receipt.
Proof. solve_decision. Defined.

Definition pending_receipt (afterID : string) (r : task_receipt) : bool :=
  (afterID <?s rc_task_id r) && negb (rc_state r =?s "acknowledged").

(** [ORDER BY task_id LIMIT 1]. *)
Fixpoint first_by_id (l : list task_receipt) : option task_receipt :=
  match l with
  | [] => None
  | r :: l' =>
      match first_by_id l' with
      | Some r' => Some (if rc_task_id r' <?s rc_task_id r then r' else r)
      | None => Some r
      end
  end.

Definition legacy_invalid : string :=
  "agent: legacy receipt evidence is invalid; retain local state for manual review".

Definition receipt_of (r : task_receipt) (completion : string) : LegacyReceipt :=
  mk_receipt (rc_task_id r) (rc_kind r) (rc_attempt r) (rc_generation r) (rc_hash r) (rc_state r)
    completion (rc_created_at r) (rc_updated_at r).

Section Transfer.
Context {L : Libraries} {C : ControlCodec} {RC : ReceiptCodec}.
(** [secret.Open] under the Agent's key: the additional data and the sealed text. *)
Context (agent_open : string → string → option string).

(** The evidence of a row and its digest. *)
Definition receipt_evidence (r : task_receipt) : res (LegacyReceipt * string) :=
  guard_err ((rc_task_id r =?s "") || (rc_kind r =?s "") || (rc_attempt r <=? 0)
             || negb (str_len (rc_hash r) =? 32) || (rc_generation r <? 0)) legacy_invalid ;;!
  guard_err (negb (is_Some_b (parse_rfc3339 (rc_created_at r)))
             || negb (is_Some_b (parse_rfc3339 (rc_updated_at r)))) legacy_invalid ;;!
  guard_err (LegacyReceiptMaxCompletionBytes + 1024 <? str_len (rc_sealed r)) legacy_invalid ;;!
  let! completion :=
    (if 0 <? str_len (rc_sealed r) then
       match agent_open ("agent-task-completion:" +:+ rc_task_id r) (rc_sealed r) with
       | None => Err legacy_invalid
       | Some raw =>
           guard_err (LegacyReceiptMaxCompletionBytes <? str_len raw) legacy_invalid ;;!
           match completion_identity raw with
           | None => Err legacy_invalid
           | Some (taskID, attempt) =>
               guard_err (negb (taskID =?s rc_task_id r) || negb (attempt =? rc_attempt r)) legacy_invalid ;;!
               Ok raw
           end
       end
     else
       guard_err (str_in (rc_state r) ["completed"; "reconciliation_required"; "reconciliation_acknowledged"])
         legacy_invalid ;;!
       Ok "") in
  let! encoded := EncodeLegacyReceipt (receipt_of r completion) in
  Ok (receipt_of r completion, snd encoded).

(** [readLegacyReceipt] of the Agent, and [NextLegacyReceipt]. *)
Definition NextLegacyReceipt (afterID : string) (db : list task_receipt) : res (option (LegacyReceipt * string)) :=
  match first_by_id (List.filter (pending_receipt afterID) db) with
  | None => Ok None
  | Some r => let! e := receipt_evidence r in Ok (Some e)
  end.

Definition RetireLegacyReceipt (taskID digest : string) (db : list task_receipt) : list task_receipt * res unit :=
  match NextLegacyReceipt "" db with
  | Err e => (db, Err e)
  | Ok None => (db, Err "agent: legacy receipt changed before archival retirement")
  | Ok (Some (item, current)) =>
      if negb (lr_task_id item =?s taskID) || negb (current =?s digest)
      then (db, Err "agent: legacy receipt changed before archival retirement")
      else
        let removed := Z.of_nat (length (List.filter (λ r, rc_task_id r =?s taskID) db)) in
        if negb (removed =? 1) then (db, Err "agent: legacy receipt was not retired")
        else (List.filter (λ r, negb (rc_task_id r =?s taskID)) db, Ok tt)
  end.

(** ** The request *)

(** The Center's handler [ImportLegacyReceipts]: the confirmation names the archive and
    the digest. *)
Definition ImportLegacyReceipts (agentID credential : string) (document : option LegacyReceiptImport) (now : Z)
    : handler (bool * string * string) :=
  authenticated agentID credential document (λ value,
    respond (λ _, mk_status FailedPrecondition "legacy receipt rejected")
      (do! id := ImportLegacyReceipt agentID credential value now in ok (true, id, li_digest value))).

(** What the network does with one request: the connection of the Agent may be missing,
    the request may not arrive, the reply may be lost. *)
Record delivery := mk_delivery {
  dl_connection : option failure; dl_arrives : bool; dl_replies : bool; dl_failure : failure; dl_now : Z
}.

Definition deliver (agentID credential : string) (d : delivery) (input : LegacyReceiptImport) (st : Store)
    : Store * ((bool * string * string) + failure) :=
  if negb (dl_arrives d) then (st, inr (dl_failure d))
  else
    let '(st', reply) := ImportLegacyReceipts agentID credential (Some input) (dl_now d) st in
    (st', if negb (dl_replies d) then inr (dl_failure d)
          else match reply with inl ack => inl ack | inr s => inr (agentGRPCError s) end).

(** ** The loop *)
Context (agentID credential sessionID : string).

(** [TransferLegacyReceipts]: [None] while it waits for what the network does with the
    next request. *)
Fixpoint TransferLegacyReceipts (net : list delivery) (db : list task_receipt) (st : Store)
    : option (list task_receipt * Store * option failure) :=
  match NextLegacyReceipt "" db with
  | Err e => Some (db, st, Some (plain e))
  | Ok None => Some (db, st, None)
  | Ok (Some (item, digest)) =>
      if sessionID =?s "" then Some (db, st, Some (plain "agent: legacy evidence transfer requires a registered session"))
      else
        match net with
        | [] => None
        | d :: net' =>
            match dl_connection d with
            | Some e => Some (db, st, Some e)
            | None =>
                let '(st', reply) := deliver agentID credential d (mk_import sessionID digest item) st in
                match reply with
                | inr e => Some (db, st', Some e)
                | inl (archived, id, confirmed) =>
                    if negb archived || negb (id =?s LegacyReceiptArchiveID agentID (lr_task_id item) (lr_attempt item))
                       || negb (confirmed =?s digest)
                    then Some (db, st', Some (plain "agent: Center did not confirm matching legacy evidence"))
                    else
                      match RetireLegacyReceipt (lr_task_id item) digest db with
                      | (db', Err e) => Some (db', st', Some (plain e))
                      | (db', Ok _) => TransferLegacyReceipts net' db' st'
                      end
                end
            end
        end
  end.

(** The statuses after which [transferLegacyReceiptsBeforeTasks] tries again; [transient]
    are timeouts, temporary name failures, EAGAIN and EINTR. *)
Definition retryable (transient : failure → bool) (e : failure) : bool :=
  match fl_status e with
  | Some s => bool_decide (s ∈ [429; 502; 503; 504])
  | None => transient e
  end.

(** ** The first row *)

Lemma first_by_id_in l r : first_by_id l = Some r → r ∈ l.
Proof.
  revert r. induction l as [|x l IH]; [done|]. cbn. intros r H. destruct (first_by_id l) as [y|].
  - injection H as <-. destruct (_ <?s _); [right; by apply IH|left].
  - injection H as <-. left.
Qed.

Lemma first_by_id_none l : first_by_id l = None → l = [].
Proof. destruct l as [|x l]; [done|]. cbn. by destruct (first_by_id l). Qed.

(** It is the least. *)
Lemma first_by_id_least l r x : first_by_id l = Some r → x ∈ l → (rc_task_id x <?s rc_task_id r) = false.
Proof.
  revert r. induction l as [|y l IH]; [done|]. cbn. intros r H Hx.
  destruct (first_by_id l) as [z|] eqn:E.
  - specialize (IH z eq_refl). injection H as <-. apply elem_of_cons in Hx as [->|Hx].
    + destruct (rc_task_id z <?s rc_task_id y) eqn:Ez; [|apply ltb_irrefl_s].
      destruct (rc_task_id y <?s rc_task_id z) eqn:Ey; [|done].
      by rewrite <- (ltb_trans_s _ _ _ Ez Ey), ltb_irrefl_s.
    + destruct (rc_task_id z <?s rc_task_id y) eqn:Ez; [by apply IH|]. eapply nltb_trans_s; [by apply IH|done].
  - apply first_by_id_none in E. subst l. injection H as <-. apply elem_of_cons in Hx as [->|Hx].
    + apply ltb_irrefl_s.
    + by apply not_elem_of_nil in Hx.
Qed.

(** ** The archive of the Center *)

(** The Center keeps this evidence of this Agent. *)
Definition archived (st : Store) (item : LegacyReceipt) : Prop :=
  ∃ row raw digest, EncodeLegacyReceipt item = Ok (raw, digest) ∧ row ∈ executions st ∧
    te_id row = LegacyReceiptArchiveID agentID (lr_task_id item) (lr_attempt item) ∧
    te_agent_id row = agentID ∧ te_kind row = "legacy.receipt" ∧ te_digest row = digest ∧
    unseal ("execution-task:" +:+ te_id row) (te_sealed_task row) = Some raw.

Lemma archived_later st st' item : rtc step st st' → archived st item → archived st' item.
Proof.
  intros Hs (row & raw & digest & He & Hin & H1 & H2 & H3 & H4 & H5).
  destruct (steps_preserve _ _ Hs) as [Hl _]. destruct (later_row _ _ _ Hl Hin) as (row' & Hin' & []).
  exists row', raw, digest. split_and!; congruence.
Qed.

(** An accepted import is archived. *)
Lemma import_archives input now st :
  wp (ImportLegacyReceipt agentID credential input now) st (λ st' id,
    id = LegacyReceiptArchiveID agentID (lr_task_id (li_receipt input)) (lr_attempt (li_receipt input)) ∧
    archived st' (li_receipt input)).
Proof.
  unfold ImportLegacyReceipt. apply wp_bind.
  eapply wp_mono; [apply wp_reads, reads_authenticate|]. intros ? [] ->. cbv zeta.
  destruct (EncodeLegacyReceipt (li_receipt input)) as [[raw digest]|] eqn:Ee; [|wp_step].
  repeat wp_step.
  - split; [done|]. bool_prop. apply sql_row_spec in Heqo as [Hin Hr]. bool_prop.
    exists t, raw, digest. split_and!; try congruence.
  - apply wp_bind. intros st1 [] (-> & _)%insert_execution_ok. apply wp_ok. split; [done|].
    eexists _, raw, digest. split; [done|]. split; [apply elem_of_app; right; by left|].
    cbn. split_and!; try done. apply unseal_seal.
Qed.

Lemma import_delivered d input st st' reply :
  deliver agentID credential d input st = (st', reply) →
  rtc step st st' ∧
  (∀ b id confirmed, reply = inl (b, id, confirmed) → archived st' (li_receipt input)).
Proof.
  unfold deliver. destruct (dl_arrives d); cbn [negb]; [|by intros [= <- <-]].
  destruct (ImportLegacyReceipts _ _ _ _ st) as [st1 r1] eqn:E. intros [= <- <-].
  unfold ImportLegacyReceipts, authenticated in E.
  destruct (_ || _); [injection E as <- <-; split; [done|]; by destruct (negb _)|].
  unfold respond, bindM in E. pose proof (import_archives input (dl_now d) st) as Ha.
  pose proof (step_import agentID credential input (dl_now d) st) as Hs.
  destruct (ImportLegacyReceipt _ _ _ _ st) as [st2 [id|e]] eqn:Ei; injection E as <- <-;
    (split; [by apply rtc_once|]).
  - intros b i c _. by apply (Ha st2 id).
  - by destruct (negb _).
Qed.

(** ** One receipt at a time *)

Lemma next_receipt db item digest :
  NextLegacyReceipt "" db = Ok (Some (item, digest)) →
  ∃ r, r ∈ db ∧ pending_receipt "" r = true ∧ receipt_evidence r = Ok (item, digest) ∧ lr_task_id item = rc_task_id r.
Proof.
  unfold NextLegacyReceipt. destruct (first_by_id _) as [r|] eqn:Ef; [|discriminate].
  destruct (receipt_evidence r) as [[i g]|] eqn:Ee; [|discriminate]. intros [= <- <-].
  apply first_by_id_in, list_elem_of_In, filter_In in Ef as [Hin Hu]. exists r.
  split; [by apply list_elem_of_In|]. split; [done|]. split; [done|].
  unfold receipt_evidence in Ee. repeat (apply guard_passed in Ee as [_ Ee]).
  destruct (if 0 <? _ then _ else _); [|discriminate]. cbn [rbind] in Ee.
  destruct (EncodeLegacyReceipt _); [|discriminate]. by injection Ee as <- _.
Qed.

(** The rows that stay after the retirement of one of them. *)
Lemma retired_rows db r :
  NoDup (map rc_task_id db) → r ∈ db → pending_receipt "" r = true →
  let rest := List.filter (λ x, negb (rc_task_id x =?s rc_task_id r)) db in
  length (List.filter (λ x, rc_task_id x =?s rc_task_id r) db) = 1%nat ∧
  NoDup (map rc_task_id rest) ∧ (∀ x, x ∈ rest → x ∈ db) ∧ (∀ x, x ∈ db → x = r ∨ x ∈ rest) ∧
  (S (length (List.filter (pending_receipt "") rest)) = length (List.filter (pending_receipt "") db))%nat.
Proof.
  intros Hn Hin Hu rest. subst rest.
  induction db as [|y db IH]; [by apply not_elem_of_nil in Hin|].
  cbn [map] in Hn. apply NoDup_cons in Hn as [Hy Hn]. cbn [List.filter].
  destruct (decide (rc_task_id y = rc_task_id r)) as [E|E].
  - assert (y = r) as ->.
    { apply elem_of_cons in Hin as [->|Hin]; [done|]. exfalso. apply Hy. rewrite E. by apply list_elem_of_fmap_2. }
    assert (List.filter (λ x, rc_task_id x =?s rc_task_id r) db = [] ∧
            List.filter (λ x, negb (rc_task_id x =?s rc_task_id r)) db = db) as [-> ->].
    { clear -Hy. induction db as [|z db IH]; [done|]. cbn [map] in Hy. apply not_elem_of_cons in Hy as [Hz Hy].
      destruct (IH Hy) as [I1 I2]. cbn. rewrite (proj2 (String.eqb_neq _ _)) by congruence. cbn. by rewrite I1, I2. }
    rewrite String.eqb_refl. cbn [negb]. rewrite Hu. cbn [length].
    split_and!; try done; [by intros x Hx; right|by intros x [->|Hx]%elem_of_cons; [left|right]].
  - apply elem_of_cons in Hin as [->|Hin]; [done|]. destruct (IH Hn Hin) as (H1 & H2 & H3 & H4 & H5).
    rewrite (proj2 (String.eqb_neq _ _) E). cbn [negb map List.filter]. split; [done|]. split; [|split; [|split]].
    + apply NoDup_cons. split; [|done]. intros (x & Ex & Hx)%list_elem_of_fmap. apply Hy. rewrite Ex.
      by apply list_elem_of_fmap_2, H3.
    + intros x [->|Hx]%elem_of_cons; [left|right; by apply H3].
    + intros x [->|Hx]%elem_of_cons; [right; left|]. destruct (H4 x Hx) as [->|]; [by left|right; by right].
    + destruct (pending_receipt "" y); cbn [length]; lia.
Qed.

Lemma retire_receipt db r item digest :
  NoDup (map rc_task_id db) → r ∈ db → pending_receipt "" r = true → lr_task_id item = rc_task_id r →
  NextLegacyReceipt "" db = Ok (Some (item, digest)) →
  RetireLegacyReceipt (lr_task_id item) digest db =
    (List.filter (λ x, negb (rc_task_id x =?s rc_task_id r)) db, Ok tt).
Proof.
  intros Hn Hin Hu Hi Hx. unfold RetireLegacyReceipt. rewrite Hx, !String.eqb_refl. cbn [negb orb]. rewrite Hi.
  destruct (retired_rows db r Hn Hin Hu) as [-> _]. done.
Qed.

(** ** The transfer *)

(** C15 -- Receipts are moved, never lost, and the transfer ends: once the network has
    dealt with as many requests as there are unresolved receipts, however it loses
    requests and replies, the transfer has returned; the Center made only steps of its
    protocol; every receipt is still in the Agent's database as it was or its evidence
    is archived at the Center; nothing else in the database changed; and without an
    error no unresolved receipt is left. *)
Theorem receipts_are_moved_not_lost net db st :
  NoDup (map rc_task_id db) → (length (List.filter (pending_receipt "") db) <= length net)%nat →
  ∃ db' st' e, TransferLegacyReceipts net db st = Some (db', st', e) ∧
    rtc step st st' ∧ (∀ r, r ∈ db' → r ∈ db) ∧
    (∀ r, r ∈ db → r ∈ db' ∨ pending_receipt "" r = true ∧
       ∃ item digest, receipt_evidence r = Ok (item, digest) ∧ archived st' item) ∧
    (e = None → List.filter (pending_receipt "") db' = []).
Proof.
  assert (∀ (db : list task_receipt) st e, e ≠ None → rtc step st st ∧ (∀ r : task_receipt, r ∈ db → r ∈ db) ∧
    (∀ r, r ∈ db → r ∈ db ∨ pending_receipt "" r = true ∧
       ∃ item digest, receipt_evidence r = Ok (item, digest) ∧ archived st item) ∧
    (e = None (A := failure) → List.filter (pending_receipt "") db = [])) as Hstop.
  { intros db0 st0 e He. split_and!; try done. intros r Hr. by left. }
  revert db st. induction net as [|d net IH]; intros db st Hn Hl; cbn [TransferLegacyReceipts];
    destruct (NextLegacyReceipt "" db) as [[[item digest]|]|e] eqn:Hx.
  all: try (eexists _, _, _; split; [reflexivity|]; by apply Hstop).
  all: try (eexists _, _, _; split; [reflexivity|]; split; [done|]; split; [done|]; split; [by left|];
            intros _; unfold NextLegacyReceipt in Hx; destruct (first_by_id _) eqn:Ef; [by destruct (receipt_evidence _)|];
            by apply first_by_id_none).
  - exfalso. destruct (next_receipt db item digest Hx) as (r & Hin & Hu & _).
    assert (r ∈ List.filter (pending_receipt "") db) as Hf by (apply list_elem_of_In, filter_In; split; [by apply list_elem_of_In|done]).
    destruct (List.filter _ db); [by apply not_elem_of_nil in Hf|]. cbn in Hl. lia.
  - destruct (next_receipt db item digest Hx) as (r & Hin & Hu & He & Hi).
    destruct (sessionID =?s ""); [eexists _, _, _; split; [reflexivity|]; by apply Hstop|].
    destruct (dl_connection d); [eexists _, _, _; split; [reflexivity|]; by apply Hstop|].
    destruct (deliver _ _ _ _ _) as [st1 reply] eqn:Hd. apply import_delivered in Hd as [Hs Ha].
    destruct reply as [[[b id] confirmed]|e].
    2: { eexists _, _, _; split; [reflexivity|]. destruct (Hstop db st1 (Some e)) as (_ & H2 & H3 & H4); [done|]. done. }
    destruct (_ || _).
    { eexists _, _, _; split; [reflexivity|]. destruct (Hstop db st1 (Some (plain ""))) as (_ & H2 & H3 & H4); [done|]. done. }
    rewrite (retire_receipt db r) by done.
    destruct (retired_rows db r Hn Hin Hu) as (_ & Hn' & Hsub & Hcase & Hlen). cbn [length] in Hl.
    destruct (IH (List.filter (λ x, negb (rc_task_id x =?s rc_task_id r)) db) st1 Hn') as
      (db' & st' & e & E & Hs' & Hsub' & Hkeep & Hend); [lia|].
    exists db', st', e. split; [exact E|]. split; [by etrans|]. split; [intros x Hx'; by apply Hsub, Hsub'|].
    split; [|exact Hend]. intros x Hx'. destruct (Hcase x Hx') as [->|Hr]; [|by apply Hkeep].
    right. split; [done|]. exists item, digest. split; [done|]. eapply archived_later; [exact Hs'|].
    by apply (Ha b id confirmed).
Qed.
End Transfer.

(** ** A transfer whose first reply is lost *)
Module Handover.
Definition old (id state : string) : task_receipt :=
  mk_task_receipt id "application.apply" 1 0 "0123456789abcdef0123456789abcdef" state "" "2025-01-01T00:00:00Z"
    "2025-01-01T00:00:00Z".
Definition table : list task_receipt := [old "task-2" "processing"; old "task-1" "processing"; old "task-0" "acknowledged"].
Definition good : delivery := mk_delivery None true true (plain "") sample_time.
Definition lost : delivery := mk_delivery None true false (plain "timeout") sample_time.

Definition first_try := TransferLegacyReceipts sample_unseal "agent-1" "credential" sample_session [good; lost] table Run.registered.
Definition second_try :=
  match first_try with
  | Some (db, st, _) => TransferLegacyReceipts sample_unseal "agent-1" "credential" sample_session [good] db st
  | None => None
  end.

Example first_try_stops : option_map (λ p, (map rc_task_id (fst (fst p)), length (executions (snd (fst p))))) first_try
  = Some (["task-2"; "task-0"], 2%nat).
Proof. vm_compute. reflexivity. Qed.

Example second_try_ends : option_map (λ p, (map rc_task_id (fst (fst p)), length (executions (snd (fst p))), snd p)) second_try
  = Some (["task-0"], 2%nat, None).
Proof. vm_compute. reflexivity. Qed.

Lemma receipts_are_moved_not_lost_witness :
  ∃ db' st' e, first_try = Some (db', st', e) ∧
    (∀ r, r ∈ table → r ∈ db' ∨ pending_receipt "" r = true ∧
       ∃ item digest, receipt_evidence sample_unseal r = Ok (item, digest) ∧ archived "agent-1" st' item).
Proof.
  destruct (receipts_are_moved_not_lost sample_unseal "agent-1" "credential" sample_session [good; lost] table
              Run.registered) as (db' & st' & e & E & _ & _ & H & _).
  - apply (bool_decide_unpack _). vm_compute. exact I.
  - vm_compute. lia.
  - exists db', st', e. split; [exact E|exact H].
Defined.
End Handover.
