(* ===== verification/Session.v ===== *)
(** * The session of an Agent and the streams of the Center

    [RunTasks] (internal/agent/task_runner.go) registers an execution session, reports a
    reinstallation, hands over old receipts, and then opens streams on which it receives
    one task at a time; it starts a new session only when the Center says that its
    authority is gone.  [Connect] (internal/center/agent_grpc.go) is the other end: it
    answers each ready frame with one claimed and sealed task, and a newer stream of an
    Agent replaces the older one.  The loop is a state machine over what it is answered;
    one step is one call or one reading of its context. *)
From S2P Require Import Prelude GoText GoTime Store Hoare Execution Guards Claims Lifecycle Evolution Legacy Protocol.
From S2P Require Import Contracts TaskClaims Dispatch DispatchSpec ClaimSafety Samples Traces.
From S2P Require Import Envelope Runner Wire WireSpec Transfer.

(** ** The loop of the Agent *)

(** Where the loop is. *)
Inductive place :=
| NewSession                                    (* newExecutionSessionID *)
| Registering                                   (* registerExecutionSession *)
| Reconnecting                                  (* reinstallReconnect *)
| Transferring                                  (* TransferLegacyReceipts *)
| LoopHead                                      (* for !terminal && ctx.Err() == nil *)
| Opening                                       (* openTaskStream *)
| StreamHead                                    (* for ctx.Err() == nil *)
| Receiving                                     (* Send and Recv *)
| Processing (task : DeploymentTask)            (* processTaskWithLease *)
| Closing (terminal : bool)                     (* closeStream, then the test *)
| Pausing (next : place)                        (* waitForTaskRetry *)
| Stopped.

Inductive agent_call := Register | Reconnect | Transfer | OpenStream.

(** What a step is answered.  A frame that is no assignment, and an error of [Send] or
    [Recv], are [None]. *)
Inductive event :=
| SessionMade (r : res string)
| Called (c : agent_call) (e : option failure)
| FrameReceived (a : option Assignment)
| TaskProcessed (terminal : bool)
| Tick.

Record loop := mk_loop { lp_place : place; lp_session : string }.

Definition loop_start : loop := mk_loop NewSession "".

Section Loop.
Context {L : Libraries} {K : Crypto} {AC : AgentCodec}.
Context (agentID privateKey : string) (transient : failure → bool).

Definition goto (p : place) (s : loop) : loop := mk_loop p (lp_session s).

(** A call that is tried again every second until it succeeds. *)
Definition retry (here next : place) (e : option failure) : place :=
  match e with None => next | Some _ => Pausing here end.

(** One step of [RunTasks]; [cancelled] is [ctx.Err() != nil]. *)
Definition loop_step (cancelled : bool) (s : loop) (ev : event) : option loop :=
  match lp_place s, ev with
  | NewSession, SessionMade (Ok session) => Some (mk_loop Registering session)
  | NewSession, SessionMade (Err _) => Some (goto Stopped s)
  | Registering, Called Register e => Some (goto (retry Registering Reconnecting e) s)
  | Reconnecting, Called Reconnect e => Some (goto (retry Reconnecting Transferring e) s)
  | Transferring, Called Transfer None => Some (goto LoopHead s)
  | Transferring, Called Transfer (Some e) =>
      Some (goto (if cancelled || negb (retryable transient e) then Stopped else Pausing Transferring) s)
  | LoopHead, Tick => Some (goto (if cancelled then Pausing NewSession else Opening) s)
  | Opening, Called OpenStream e => Some (goto (retry LoopHead StreamHead e) s)
  | StreamHead, Tick => Some (goto (if cancelled then Closing false else Receiving) s)
  | Receiving, FrameReceived None => Some (goto (Closing false) s)
  | Receiving, FrameReceived (Some a) =>
      Some (goto (match decryptGRPCAssignment agentID privateKey a with
                  | Ok task => Processing task
                  | Err _ => Closing false
                  end) s)
  | Processing _, TaskProcessed true => Some (goto (Closing true) s)
  | Processing _, TaskProcessed false => Some (goto StreamHead s)
  | Closing terminal, Tick =>
      Some (goto (if terminal || cancelled then Pausing NewSession else Pausing LoopHead) s)
  | Pausing next, Tick => Some (goto (if cancelled then Stopped else next) s)
  | _, _ => None
  end.

(** The loop has come to [s] over the events [tr]; the context stays cancelled once it is. *)
Inductive loop_run : list event → bool → loop → Prop :=
| loop_run_start : loop_run [] false loop_start
| loop_run_cancel tr s : loop_run tr false s → loop_run tr true s
| loop_run_step tr c s ev s' :
    loop_run tr c s → loop_step c s ev = Some s' → loop_run (tr ++ [ev]) c s'.

(** ** What precedes a task *)

Definition is_session (ev : event) : bool := match ev with SessionMade _ => true | _ => false end.

(** The events of the current session, with the one that made it. *)
Fixpoint current (tr : list event) : list event :=
  match tr with
  | [] => []
  | ev :: tr' => if existsb is_session tr' then current tr' else ev :: tr'
  end.

Lemma current_app tr ev :
  current (tr ++ [ev]) = if is_session ev then [ev] else current tr ++ [ev].
Proof.
  induction tr as [|x tr IH]; cbn [app current].
  - cbn. by destruct (is_session ev).
  - rewrite existsb_app. cbn [existsb]. rewrite orb_false_r. destruct (is_session ev) eqn:E.
    + rewrite orb_true_r. exact IH.
    + rewrite orb_false_r. by destruct (existsb is_session tr).
Qed.

(** The events that have happened in the current session at a place, in this order. *)
Definition done_at (session : string) (p : place) : list event :=
  let made := SessionMade (Ok session) in
  let registered := [made; Called Register None] in
  let reconnected := registered ++ [Called Reconnect None] in
  let transferred := reconnected ++ [Called Transfer None] in
  match p with
  | NewSession | Stopped | Pausing NewSession => []
  | Registering | Pausing Registering => [made]
  | Reconnecting | Pausing Reconnecting => registered
  | Transferring | Pausing Transferring => reconnected
  | LoopHead | Opening | Closing _ | Pausing _ => transferred
  | StreamHead | Receiving | Processing _ => transferred ++ [Called OpenStream None]
  end.

(** The places a pause goes back to. *)
Definition resumable (p : place) : bool :=
  match p with NewSession | Registering | Reconnecting | Transferring | LoopHead => true | _ => false end.

Record loop_ok (tr : list event) (c : bool) (s : loop) : Prop := mk_loop_ok {
  lo_done : sublist (done_at (lp_session s) (lp_place s)) (current tr);
  lo_task : ∀ task, lp_place s = Processing task →
    ∃ a, FrameReceived (Some a) ∈ current tr ∧ decryptGRPCAssignment agentID privateKey a = Ok task;
  lo_closing : lp_place s = Closing true → TaskProcessed true ∈ current tr;
  lo_pausing : lp_place s = Pausing NewSession → c = true ∨ TaskProcessed true ∈ current tr;
  lo_new : lp_place s = NewSession → tr = [] ∨ TaskProcessed true ∈ current tr;
  lo_stopped : lp_place s = Stopped → c = true ∨
    (∃ e, last tr = Some (SessionMade (Err e))) ∨
    (∃ e, last tr = Some (Called Transfer (Some e)) ∧ retryable transient e = false);
  lo_nested : ∀ p, lp_place s = Pausing p → resumable p = true
}.

Lemma loop_run_ok tr c s : loop_run tr c s → loop_ok tr c s.
Proof.
  induction 1 as [|tr s Hr IH|tr c s ev s' Hr IH Hs].
  - by split; try done; left.
  - destruct IH as [H1 H2 H3 H4 H5 H6 H7]. split; try done; intros; by left.
  - destruct IH as [H1 H2 H3 H4 H5 H6 H7]. destruct s as [p session]. cbn [lp_place lp_session] in *.
    assert (∀ l ev, sublist l (current tr) → sublist l (current tr ++ [ev])) as Hext.
    { intros l x Hl. by apply sublist_inserts_r. }
    assert (∀ l ev, sublist l (current tr) → sublist (l ++ [ev]) (current tr ++ [ev])) as Hsnoc.
    { intros l x Hl. by apply sublist_app. }
    assert (∀ l1 l2, sublist (l1 ++ l2) (current tr) → sublist l1 (current tr)) as Hpre.
    { intros l1 l2 Hl. etrans; [apply sublist_inserts_r; reflexivity|exact Hl]. }
    assert (∀ x, TaskProcessed true ∈ current tr → TaskProcessed true ∈ current tr ++ [x]) as Hin.
    { intros x Hx. apply elem_of_app. by left. }
    assert (∀ x, x ∈ current tr ++ [x]) as Hlast by (intros x; apply elem_of_app; right; by left).
    unfold loop_step in Hs. cbn [lp_place] in Hs.
    destruct p as [| | | | | | | |task|terminal|next|], ev as [[session'|e]|[] [e|]|[a|]|[]|];
      try discriminate Hs; injection Hs as <-; unfold goto, retry; cbn [lp_place lp_session].
    all: try (pose proof (H7 next eq_refl) as Hnext; destruct next; try discriminate Hnext).
    all: repeat match goal with
         | |- context [if ?b then _ else _] => destruct b eqn:?
         | |- context [match decryptGRPCAssignment ?a ?b ?c with _ => _ end] =>
             destruct (decryptGRPCAssignment a b c) eqn:?
         end.
    all: split; cbn [lp_place lp_session]; rewrite ?current_app, ?last_snoc; cbn [is_session]; intros; simplify_eq.
    all: try (by eauto using sublist_nil_l).
    all: try match goal with H : _ || _ = true |- _ => apply orb_true_iff in H as [->|H] end.
    all: bool_prop; try (by eauto 6).
    all: try (by apply (Hsnoc (done_at session Registering))).
    all: destruct (H4 eq_refl) as [|Ht]; [done|]; auto.
Qed.

(** C13 -- The order of a session: a task is processed only in a session that was made,
    registered at the Center, had reported a reinstallation, had handed over its old
    receipts and had opened a stream, in this order and since it was made; the task was
    decoded from an assignment received in this session; and a new session is made only
    after the Center said that the authority of the current one is gone. *)
Theorem tasks_follow_the_handshake tr c s :
  loop_run tr c s →
  (∀ task, lp_place s = Processing task →
     sublist [SessionMade (Ok (lp_session s)); Called Register None; Called Reconnect None; Called Transfer None;
              Called OpenStream None] (current tr) ∧
     ∃ a, FrameReceived (Some a) ∈ current tr ∧ decryptGRPCAssignment agentID privateKey a = Ok task) ∧
  (lp_place s = NewSession → tr = [] ∨ TaskProcessed true ∈ current tr).
Proof.
  intros [Hd Ht _ _ Hn _ _]%loop_run_ok. split; [|exact Hn]. intros task Hp. split; [|by apply Ht].
  by rewrite Hp in Hd.
Qed.

(** ** The end of the loop *)

(** The steps a cancelled loop can still make. *)
Definition rank (p : place) : nat :=
  match p with
  | Stopped => 0
  | Pausing _ => 1
  | Closing _ | LoopHead => 2
  | StreamHead => 3
  | Opening | Processing _ => 4
  | Receiving | Transferring => 5
  | Reconnecting => 6
  | Registering => 7
  | NewSession => 8
  end.

(** The event a place waits for. *)
Definition expects (p : place) (ev : event) : bool :=
  match p, ev with
  | NewSession, SessionMade _ => true
  | Registering, Called Register _ | Reconnecting, Called Reconnect _ | Transferring, Called Transfer _
  | Opening, Called OpenStream _ => true
  | (LoopHead | StreamHead | Closing _ | Pausing _), Tick => true
  | Receiving, FrameReceived _ => true
  | Processing _, TaskProcessed _ => true
  | _, _ => false
  end.

Lemma step_expected c s ev : (∃ s', loop_step c s ev = Some s') ↔ expects (lp_place s) ev = true.
Proof.
  split.
  - intros [s' H]. unfold loop_step in H. by repeat case_match.
  - intros H. unfold loop_step, expects in *. repeat case_match; simplify_eq; eauto.
Qed.

Lemma cancelled_step s ev s' : loop_step true s ev = Some s' → (rank (lp_place s') < rank (lp_place s))%nat.
Proof.
  destruct s as [p session]. unfold loop_step. cbn [lp_place orb]. intros H.
  destruct p, ev as [[]|[] []|[a|]|[]|]; try discriminate H; injection H as <-; cbn; try lia.
  all: repeat case_match; cbn; lia.
Qed.

(** The steps of a loop whose context stays as it is. *)
Inductive loop_steps (c : bool) : loop → list event → loop → Prop :=
| loop_steps_nil s : loop_steps c s [] s
| loop_steps_cons s ev s1 tr s' : loop_step c s ev = Some s1 → loop_steps c s1 tr s' → loop_steps c s (ev :: tr) s'.

Lemma cancelled_steps s evs s' :
  loop_steps true s evs s' → (length evs + rank (lp_place s') <= rank (lp_place s))%nat.
Proof.
  induction 1 as [s0|s0 ev s1 evs s' H1 H2 IH]; cbn [length]; [lia|]. apply cancelled_step in H1. lia.
Qed.

(** C14 -- A cancelled Agent stops, and only that ends it: from the cancellation on the
    loop makes at most eight more steps, whatever it is answered, and until it has
    returned it waits for the answer of exactly one call; and it has returned only when
    it was cancelled, when no session could be made, or when old receipts were refused
    for good. *)
Theorem cancelled_loop_returns tr c s :
  loop_run tr c s →
  (∀ evs s', loop_steps true s evs s' → (length evs + rank (lp_place s') <= 8)%nat) ∧
  (lp_place s ≠ Stopped → ∃ ev, expects (lp_place s) ev = true ∧
     ∀ ev', expects (lp_place s) ev' = true → ∃ s', loop_step c s ev' = Some s') ∧
  (lp_place s = Stopped → c = true ∨ (∃ e, last tr = Some (SessionMade (Err e))) ∨
     (∃ e, last tr = Some (Called Transfer (Some e)) ∧ retryable transient e = false)).
Proof.
  intros [_ _ _ _ _ Hstop _]%loop_run_ok. split; [|split; [|exact Hstop]].
  - intros evs s' Hs%cancelled_steps.
    assert (rank (lp_place s) <= 8)%nat by (destruct (lp_place s); cbn; lia). lia.
  - intros Hp. assert (∃ ev, expects (lp_place s) ev = true) as [ev He].
    { destruct (lp_place s); [by eexists (SessionMade (Ok ""))|by eexists (Called Register None)|
        by eexists (Called Reconnect None)|by eexists (Called Transfer None)|by eexists Tick|
        by eexists (Called OpenStream None)|by eexists Tick|by eexists (FrameReceived None)|
        by eexists (TaskProcessed true)|by eexists Tick|by eexists Tick|done]. }
    exists ev. split; [done|]. intros ev' He'. by apply step_expected.
Qed.
End Loop.

(** ** Streams of the Center *)

(** The stream in use by each Agent, the streams whose context is cancelled, and the
    Agent of every stream; streams are numbered. *)
Record streams := mk_streams {
  sm_current : gmap string nat; sm_cancelled : gset nat; sm_agent : gmap nat string; sm_next : nat
}.

Definition no_streams : streams := mk_streams ∅ ∅ ∅ 0.

Definition replaceStream (agentID : string) (s : streams) : nat * streams :=
  (sm_next s,
   mk_streams (<[agentID := sm_next s]> (sm_current s))
     (match sm_current s !! agentID with Some previous => {[ previous ]} ∪ sm_cancelled s | None => sm_cancelled s end)
     (<[sm_next s := agentID]> (sm_agent s)) (S (sm_next s))).

(** The function [replaceStream] returns. *)
Definition release_stream (agentID : string) (n : nat) (s : streams) : streams :=
  mk_streams (if bool_decide (sm_current s !! agentID = Some n) then delete agentID (sm_current s) else sm_current s)
    ({[ n ]} ∪ sm_cancelled s) (sm_agent s) (sm_next s).

Inductive stream_step : streams → streams → Prop :=
| stream_opens agentID s : stream_step s (snd (replaceStream agentID s))
| stream_ends agentID n s : sm_agent s !! n = Some agentID → stream_step s (release_stream agentID n s).

(** A stream that is not cancelled is the one its Agent uses. *)
Definition streams_ok (s : streams) : Prop :=
  (∀ n a, sm_agent s !! n = Some a → n ∉ sm_cancelled s → sm_current s !! a = Some n) ∧
  (∀ n a, sm_agent s !! n = Some a → (n < sm_next s)%nat) ∧
  (∀ a n, sm_current s !! a = Some n → sm_agent s !! n = Some a).

Lemma stream_step_ok s s' : stream_step s s' → streams_ok s → streams_ok s'.
Proof.
  intros Hs (H1 & H2 & H3).
  assert (sm_agent s !! sm_next s = None) as Hnew.
  { destruct (sm_agent s !! sm_next s) eqn:E; [|done]. apply H2 in E. lia. }
  destruct Hs as [a s|a n s Ha].
  - split; [|split]; cbn.
    + intros n b [[<- <-]|[Hne Hb]]%lookup_insert_Some Hc; [by rewrite lookup_insert_eq|].
      destruct (decide (a = b)) as [->|Hab].
      * exfalso. assert (n ∉ sm_cancelled s) as Hn by (destruct (sm_current s !! b); set_solver).
        pose proof (H1 n b Hb Hn) as E. rewrite E in Hc. set_solver.
      * rewrite lookup_insert_ne by done. apply H1; [done|]. destruct (sm_current s !! a); set_solver.
    + intros n b [[<- <-]|[_ Hb]]%lookup_insert_Some; [lia|]. apply H2 in Hb. lia.
    + intros b n [[<- <-]|[Hne Hb]]%lookup_insert_Some; [by rewrite lookup_insert_eq|].
      rewrite lookup_insert_ne; [by apply H3|]. intros E. apply H3 in Hb. congruence.
  - split; [|split]; cbn; [| done |].
    + intros m b Hb Hm. assert (m ≠ n ∧ m ∉ sm_cancelled s) as [Hmn Hc] by set_solver.
      pose proof (H1 m b Hb Hc) as E. case_bool_decide as Ecur; [|done].
      rewrite lookup_delete_ne; [done|]. intros ->. congruence.
    + intros b m. case_bool_decide; [|apply H3]. intros [_ Hb]%lookup_delete_Some. by apply H3.
Qed.

(** Of the streams of an Agent at most one is served, whatever order they open and end in. *)
Lemma one_stream_is_served s n m a :
  rtc stream_step no_streams s → sm_agent s !! n = Some a → sm_agent s !! m = Some a →
  n ∉ sm_cancelled s → m ∉ sm_cancelled s → n = m.
Proof.
  intros Hs. assert (streams_ok s) as (H1 & _).
  { assert (streams_ok no_streams) as H0 by (split; [|split]; cbn; intros ?? H; by rewrite lookup_empty in H).
    induction Hs; [done|]. eauto using stream_step_ok. }
  intros Hn Hm Hcn Hcm. pose proof (H1 n a Hn Hcn). pose proof (H1 m a Hm Hcm). congruence.
Qed.

(** ** What a stream sends *)
Section Connect.
Context {L : Libraries} {C : ControlCodec} {K : Crypto} {AC : AgentCodec}.
Context (rd : DispatchReads) (Version : string) (scope : option (gset string)) (token : string).
(** [task.LandingProxyState.Active()]. *)
Context (proxy_active : AgentTask → bool).

(** The first frame of [Connect]. *)
Definition connect_hello (agentID sessionID : string) (protocol : Z) (credential : string)
    (allowed : ReinstallReads) (now : Z) : handler unit :=
  if (agentID =?s "") || (sessionID =?s "") || negb (protocol =? ExecutionProtocol)
  then reject InvalidArgument "invalid Agent stream hello"
  else authenticated agentID credential (Some tt) (λ _,
         respond grpcTaskError (executionClaimAllowed agentID sessionID allowed now)).

Definition needs_landing_access (task : AgentTask) : bool :=
  (at_kind task =?s "landing.server.apply") || (at_kind task =?s "landing.proxy.apply") && proxy_active task.

(** The answer to a ready frame, for one round of [waitForAssignment]; [synced] is whether
    [syncLandingAccess] succeeds. *)
Definition serve_ready (agentID credential sessionID id : string) (allowed : ReinstallReads)
    (reads : AgentTask → AuthorizationReads) (synced : bool) (ephemeral nonce : string) (now : Z)
    : handler (option Assignment) :=
  λ st,
    match claimExecutionTask rd Version scope token agentID credential sessionID id allowed reads now st with
    | (st', Err e) => (st', inr (grpcTaskError e))
    | (st', Ok None) => (st', inl None)
    | (st', Ok (Some ta)) =>
        if needs_landing_access (ta_task ta) && negb synced
        then (st', inr (mk_status Unavailable "landing access could not be synchronized"))
        else match EncryptAgentTask agentID (ta_task ta) ephemeral nonce st' with
             | Err _ => (st', inr (mk_status Unavailable "task encryption failed"))
             | Ok e => (st', inl (Some (assignment_of (ta_task ta) (ta_authorization ta) e)))
             end
    end.

Lemma sql_affected_last {A} (wh : A → bool) t r :
  (∀ x, x ∈ t → wh x = false) → wh r = true → sql_affected wh (t ++ [r]) = 1.
Proof.
  intros Ht Hr. unfold sql_affected, sql_select. rewrite List.filter_app. cbn. rewrite Hr.
  assert (List.filter wh t = []) as ->; [|done].
  induction t as [|x t IH]; [done|]. cbn. rewrite (Ht x) by left. apply IH. intros y Hy. apply Ht. by right.
Qed.

Lemma guarded_store wh f e st : fst (guarded wh f e st) = fst (update_executions (wh st) f st).
Proof. unfold guarded, bindM, update_executions, expect_one, fail_if. by destruct (negb _). Qed.

(** An offer that was just stored starts: it runs, or, when the tunnel it needs could not
    be prepared, it is left unresolved. *)
Lemma fresh_offer_starts a s id task now st now' stop_now tunnel :
  offer a s id task now st → representable (now + taskLeaseDuration) → representable now' →
  now' + second <= now + taskLeaseDuration →
  ∃ st' r, StartExecution a s id (sha256_hex (task_json task)) now' tunnel stop_now
             (inserted st (offered_execution a s id task now))
           = (st', match tunnel with Ok _ => Ok tt | Err _ => Err tunnel_message end) ∧
    r ∈ executions st' ∧ te_id r = id ∧ te_state r = (if is_ok tunnel then Running else Unknown).
Proof.
  intros [[Hid _ _ _] Hs _ _ _] Hr Hr' Hlt.
  set (new := offered_execution a s id task now). set (st0 := inserted st new).
  unfold StartExecution. match goal with |- context [guarded ?w ?g _] => set (wh := w); set (f := g) end.
  assert (guarded wh f errExecutionAuthorization st0 = (fst (update_executions (wh st0) f st0), Ok tt)) as Hg.
  { unfold guarded, expect_one, bindM, update_executions. subst st0. change (executions (inserted st new)) with (executions st ++ [new]).
    rewrite sql_affected_last; [done| |].
    - intros x Hx. specialize (Hid x Hx). cbn in Hid. subst wh. cbn. by rewrite (proj2 (String.eqb_neq _ _) Hid).
    - subst wh new. cbn. change (session_current (inserted st _) a s) with (session_current st a s).
      rewrite !String.eqb_refl, Hs. cbn. unfold lease. by rewrite unexpired_early. }
  set (st1 := fst (update_executions (wh st0) f st0)) in *.
  assert (f new ∈ executions st1) as Hnew.
  { apply guarded_effect in Hg as (r & Hin & Hw & Hf). assert (r = new) as ->; [|done]. subst st0.
    apply elem_of_app in Hin as [Hin|Hin]; [|by apply list_elem_of_singleton in Hin]. exfalso.
    apply (Hid r Hin). subst wh. cbn in Hw. bool_prop. done. }
  assert (session_current st1 a s = true) as Hs1 by exact Hs. clearbody st1.
  unfold bindM. rewrite Hg. destruct tunnel as [[]|e].
  - exists st1, (f new). split; [done|]. split; [done|]. done.
  - unfold StopExecution. rewrite guarded_store.
    match goal with |- context [update_executions ?w ?g st1] =>
      pose proof (update_executions_row w g st1 (f new) Hnew) as Hrow;
      assert (w (f new) = true) as Hw by (subst new; cbn; by rewrite !String.eqb_refl, Hs1) end.
    cbv beta in Hrow. rewrite Hw in Hrow. eexists _, _. split; [reflexivity|]. split; [exact Hrow|done].
Qed.

(** C12 -- From the queue to the runner: what a stream sends for a ready frame opens, with
    the key the Center stores for the Agent and in the place of this Agent, task and
    attempt only, to exactly the content of the stored offer, whose digest it carries; the
    Agent has the offered task with the offer's permission, unless its decoder refuses the
    document and it reports that; and, as the first thing that happens and before the
    lease of the offer ends, the start under this session and digest consumes the offer:
    it is accepted and the execution runs, or, when the tunnel the task needs could not be
    prepared, it is refused and the execution is left unresolved. *)
Theorem sent_assignment_starts agentID credential sessionID id allowed reads synced ephemeral nonce now
    st st' x private row now' stop_now :
  dispatch_ok rd →
  serve_ready agentID credential sessionID id allowed reads synced ephemeral nonce now st = (st', inl (Some x)) →
  x25519_private private = true → x25519_private ephemeral = true → str_len nonce = gcm_nonce_size → id ≠ "" →
  sql_row (λ r, (ag_id r =?s agentID) && (ag_status r =?s "active") && (ag_credential_revoked_at r =?s ""))
    (agents st') = Some row → ag_public_key row = x25519_public private →
  representable (now + taskLeaseDuration) → representable now' → now' + second <= now + taskLeaseDuration →
  ∃ task offered,
    offered ∈ executions st' ∧ te_id offered = id ∧ te_agent_id offered = agentID ∧ te_session_id offered = sessionID ∧
    te_state offered = Offered ∧ te_task_id offered = at_id task ∧ te_attempt offered = at_attempt task ∧
    te_kind offered = at_kind task ∧ te_digest offered = sha256_hex (task_json task) ∧
    Open private (as_envelope x) (TaskAdditionalData agentID (at_id task) (at_attempt task)) = Ok (task_json task) ∧
    decryptGRPCAssignment agentID private x =
      match agent_decode (task_json task) with
      | Some d => Ok (authorize_task d (mk_authorization id ExecutionProtocol (te_digest offered)))
      | None => Err "agent: Center returned an invalid encrypted task"
      end ∧
    (∀ d, decryptGRPCAssignment agentID private x = Ok d →
       td_id d = te_task_id offered ∧ td_attempt d = te_attempt offered ∧ td_kind d = te_kind offered) ∧
    (∀ tunnel, ∃ st'' r,
       StartExecution agentID sessionID id (te_digest offered) now' tunnel stop_now st'
         = (st'', match tunnel with Ok _ => Ok tt | Err _ => Err tunnel_message end) ∧
       r ∈ executions st'' ∧ te_id r = id ∧ te_state r = (if is_ok tunnel then Running else Unknown)) ∧
    (∀ a' t' n', contains_any agentID [Ascii.ascii_of_nat 0] = false → contains_any a' [Ascii.ascii_of_nat 0] = false →
       at_attempt task < 2 ^ 63 → 0 <= n' < 2 ^ 63 →
       task_binding a' t' n' = task_binding agentID (at_id task) (at_attempt task) →
       a' = agentID ∧ t' = at_id task ∧ n' = at_attempt task).
Proof.
  intros Hok Hs Hp He Hn Hid Hrow Hkey Hr Hr' Hlt. unfold serve_ready in Hs.
  destruct (claimExecutionTask _ _ _ _ _ _ _ _ _ _ _ st) as [st1 [[ta|]|e]] eqn:Hc; try discriminate Hs.
  destruct (needs_landing_access _ && _); [discriminate Hs|].
  destruct (EncryptAgentTask _ _ _ _ st1) as [env|] eqn:Hseal; [|discriminate Hs]. injection Hs as <- <-.
  apply claim_offers in Hc as (st2 & Ho & -> & Ha); [|done]. pose proof Ho as [_ _ _ Hat Htask].
  destruct (sealed_task_opens private agentID id (ta_task ta) _ _ _ _ _ row Hp He Hn Hrow Hkey Hseal
              Htask Hat Hid Ha) as [Hopen Hd].
  exists (ta_task ta), (offered_execution agentID sessionID id (ta_task ta) now).
  split; [apply elem_of_app; right; by left|]. do 8 (split; [done|]). split; [exact Hopen|].
  split; [by rewrite Hd, Ha|]. split; [|split].
  - intros d. rewrite Hd. destruct (agent_decode _) as [d0|] eqn:Ed; [|discriminate]. intros [= <-].
    apply agent_decode_task in Ed as (H1 & H2 & H3 & _). by split_and!.
  - intros tunnel. by apply fresh_offer_starts.
  - intros a' t' n' Hz Hz' Hb Hb' E. apply task_binding_inj in E; [done|done|done|done|lia].
Qed.
End Connect.

(** ** A session that receives and starts a task *)
Module Served.
Import Channel.
Definition serve : Store * (option Assignment + status) :=
  serve_ready sample_dispatch "1.0.0" None "token" (λ _, false) "agent-1" "credential" sample_session
    "execution-1" (mk_reinstall_reads (Err "") (Err "") (Err "") (Err "") (Err "")) (λ _, sample_reads) true
    ephemeral_key nonce (sample_time + second) security_store.
Definition sent : Assignment :=
  match snd serve with inl (Some x) => x | _ => assignment end.

Lemma sent_assignment_starts_witness :
  ∃ task, Open private_key (as_envelope sent) (TaskAdditionalData "agent-1" (at_id task) (at_attempt task))
            = Ok (task_json task) ∧
    ∃ st'' r, StartExecution "agent-1" sample_session "execution-1" (sha256_hex (task_json task))
              (sample_time + 2 * second) (Ok tt) 0 (fst serve) = (st'', Ok tt) ∧
      r ∈ executions st'' ∧ te_id r = "execution-1" ∧ te_state r = Running.
Proof.
  destruct (sent_assignment_starts sample_dispatch "1.0.0" None "token" (λ _, false) "agent-1" "credential"
    sample_session "execution-1" (mk_reinstall_reads (Err "") (Err "") (Err "") (Err "") (Err "")) (λ _, sample_reads)
    true ephemeral_key nonce (sample_time + second) security_store (fst serve) sent private_key sample_agent
    (sample_time + 2 * second) 0) as (task & offered & _ & _ & _ & _ & _ & _ & _ & _ & Hg & Ho & _ & _ & Hs & _).
  - exact sample_dispatch_ok.
  - vm_compute. reflexivity.
  - vm_compute. reflexivity.
  - vm_compute. reflexivity.
  - vm_compute. reflexivity.
  - discriminate.
  - vm_compute. reflexivity.
  - vm_compute. reflexivity.
  - unfold representable, sample_time, taskLeaseDuration, minute, second. lia.
  - unfold representable, sample_time, second. lia.
  - unfold taskLeaseDuration, minute, second. lia.
  - exists task. split; [exact Ho|]. rewrite <- Hg. exact (Hs (Ok tt)).
Defined.

(** The Agent decodes it. *)
Example sent_assignment_is_decoded :
  option_map (λ d, (td_kind d, td_attempt d, au_id (td_authorization d)))
    (match decryptGRPCAssignment "agent-1" private_key sent with Ok d => Some d | Err _ => None end)
  = Some ("node.security", 1, "execution-1").
Proof. vm_compute. reflexivity. Qed.

(** The loop of the Agent up to this task, and after the loss of its authority. *)
Definition handshake : list event :=
  [SessionMade (Ok sample_session); Called Register None; Called Reconnect (Some (plain "busy")); Tick;
   Called Reconnect None; Called Transfer None; Tick; Called OpenStream None; Tick; FrameReceived (Some sent)].

Fixpoint run_loop (s : loop) (tr : list event) : option loop :=
  match tr with
  | [] => Some s
  | ev :: tr' =>
      match loop_step "agent-1" private_key (λ _, false) false s ev with Some s' => run_loop s' tr' | None => None end
  end.

Lemma run_loop_runs tr0 s tr s' :
  loop_run "agent-1" private_key (λ _, false) tr0 false s → run_loop s tr = Some s' →
  loop_run "agent-1" private_key (λ _, false) (tr0 ++ tr) false s'.
Proof.
  revert tr0 s. induction tr as [|ev tr IH]; intros tr0 s Hr H; cbn in H.
  - injection H as <-. by rewrite app_nil_r.
  - destruct (loop_step _ _ _ _ _ _) as [s1|] eqn:E; [|done].
    rewrite (cons_middle ev tr0 tr), app_assoc. eapply IH; [|exact H]. by eapply loop_run_step.
Qed.

Definition processing : loop :=
  default loop_start (run_loop loop_start handshake).
Definition received_task : DeploymentTask :=
  match lp_place processing with Processing t => t | _ => Channel.deployment Channel.task end.

Lemma processing_runs : loop_run "agent-1" private_key (λ _, false) handshake false processing.
Proof. apply (run_loop_runs [] loop_start); [constructor|]. vm_compute. reflexivity. Qed.

Lemma tasks_follow_the_handshake_witness :
  lp_place processing = Processing received_task ∧ td_kind received_task = "node.security" ∧
  sublist [Called Register None; Called Reconnect None; Called Transfer None; Called OpenStream None] (current handshake).
Proof.
  assert (lp_place processing = Processing received_task) as Hp by (vm_compute; reflexivity).
  split; [exact Hp|]. split; [vm_compute; reflexivity|].
  destruct (tasks_follow_the_handshake "agent-1" private_key (λ _, false) handshake false processing processing_runs)
    as [H _].
  destruct (H received_task Hp) as [Hs _]. etrans; [|exact Hs]. by apply sublist_cons.
Defined.

Lemma cancelled_loop_returns_witness :
  loop_run "agent-1" private_key (λ _, false) handshake true processing ∧
  ∀ evs s', loop_steps "agent-1" private_key (λ _, false) true processing evs s' → (length evs <= 8)%nat.
Proof.
  assert (loop_run "agent-1" private_key (λ _, false) handshake true processing) as Hr
    by (apply loop_run_cancel, processing_runs).
  split; [exact Hr|]. intros evs s' Hs.
  destruct (cancelled_loop_returns "agent-1" private_key (λ _, false) handshake true processing Hr) as [H _].
  specialize (H evs s' Hs). lia.
Defined.
End Served.
