(* ===== verification/Admin.v ===== *)
(** * Administrators and their sessions

    internal/center/store_auth.go, session_renewal.go and the handlers of
    server_setup_auth.go and server.go that use them: the first administrator, signing
    in, the throttling of failed attempts, sessions with their renewal, and changes of
    the password.  Random values and readings of the clock are arguments; Argon2,
    base64 and HMAC are the class [PasswordHash]. *)
From Stdlib Require Import Ascii.
From S2P Require Import Prelude GoText GoTime.

Definition adminPasswordMinLength : Z := 10.
Definition sessionLifetime : Z := 24 * hour.
Definition sessionMaximumLifetime : Z := 7 * 24 * hour.
Definition sessionRenewalWindow : Z := 12 * hour.
Definition loginFailureWindow : Z := 15 * minute.
Definition loginLockoutDuration : Z := 15 * minute.
Definition loginFailureRetention : Z := 24 * hour.
Definition loginMaxFailures : Z := 5.

(** ** Passwords *)

Class PasswordHash := {
  argon2id : string → string → string;                    (* password, salt *)
  argon2id_length : ∀ p s, str_len (argon2id p s) = 32;
  base64 : string → string;
  base64_decode : string → option string;
  base64_round_trip : ∀ s, base64_decode (base64 s) = Some s;
  base64_plain : ∀ s, contains_any (base64 s) ["$"%char] = false;
  hmac_hex : string → string;                             (* under the Center's key *)
  token_digest : string → string                          (* tokenHash *)
}.

(** [strings.Split] at one character. *)
Fixpoint split_on (c : Ascii.ascii) (cur s : string) : list string :=
  match s with
  | "" => [cur]
  | String d s' => if Ascii.eqb d c then cur :: split_on c "" s' else split_on c (cur +:+ String d "") s'
  end.

(** The length of the first rune of a text, as package utf8 decodes it: an invalid byte
    is a rune of its own. *)
Definition rune_length (l : list nat) : nat :=
  let cont b := Nat.leb 128 b && Nat.leb b 191 in
  let within lo hi b := Nat.leb lo b && Nat.leb b hi in
  match l with
  | a :: b :: c :: d :: _ =>
      if within 194 223 a && cont b then 2
      else if ((Nat.eqb a 224 && within 160 191 b) || (within 225 236 a && cont b) || (Nat.eqb a 237 && within 128 159 b)
               || (within 238 239 a && cont b)) && cont c then 3
      else if ((Nat.eqb a 240 && within 144 191 b) || (within 241 243 a && cont b) || (Nat.eqb a 244 && within 128 143 b))
              && cont c && cont d then 4
      else 1
  | [a; b; c] =>
      if within 194 223 a && cont b then 2
      else if ((Nat.eqb a 224 && within 160 191 b) || (within 225 236 a && cont b) || (Nat.eqb a 237 && within 128 159 b)
               || (within 238 239 a && cont b)) && cont c then 3
      else 1
  | [a; b] => if within 194 223 a && cont b then 2 else 1
  | _ => 1
  end%nat.

Fixpoint count_runes (fuel : nat) (l : list nat) : Z :=
  match fuel, l with
  | S n, _ :: _ => 1 + count_runes n (drop (rune_length l) l)
  | _, _ => 0
  end.

(** [utf8.RuneCountInString]. *)
Definition rune_count (s : string) : Z := count_runes (String.length s) (bytes_of s).

Definition name_char (first : bool) (c : nat) : bool :=
  (Nat.leb 65 c && Nat.leb c 90) || (Nat.leb 97 c && Nat.leb c 122) || (Nat.leb 48 c && Nat.leb c 57)
  || negb first && (Nat.eqb c 46 || Nat.eqb c 95 || Nat.eqb c 45).

(** [usernamePattern]. *)
Definition usernamePattern (s : string) : bool :=
  match bytes_of s with
  | c :: l => name_char true c && forallb (name_char false) l && Nat.leb 2 (length l) && Nat.leb (length l) 63
  | [] => false
  end.

(** Equality under [COLLATE NOCASE]. *)
Definition nocase (a b : string) : bool := bool_decide (map fold_ascii (bytes_of a) = map fold_ascii (bytes_of b)).

Section Passwords.
Context {P : PasswordHash}.

Definition hashPassword (salt password : string) : string :=
  "argon2id$v=19$m=65536,t=3,p=2$" +:+ base64 salt +:+ "$" +:+ base64 (argon2id password salt).

Definition verifyPassword (password encoded : string) : bool :=
  match split_on "$"%char "" encoded with
  | [kind; version; parameters; salt; digest] =>
      if negb (kind =?s "argon2id") || negb (version =?s "v=19") || negb (parameters =?s "m=65536,t=3,p=2") then false
      else match base64_decode salt, base64_decode digest with
           | Some salt, Some expected => (str_len expected =? 32) && (expected =?s argon2id password salt)
           | _, _ => false
           end
  | _ => false
  end.

End Passwords.

(** ** Tables *)

Record admin_row := mk_admin { ad_id : string; ad_username : string; ad_password_hash : string; ad_created_at : string }.

Record session_row := mk_session {
  ss_token_hash : string; ss_csrf_token : string; ss_admin_id : string; ss_expires_at : string;
  ss_absolute_expires_at : string
}.

Record failure_row := mk_failure_row {
  lf_failed_count : Z; lf_window_started_at : string; lf_blocked_until : string; lf_updated_at : string
}.

(** [login_failures] has the primary key [(scope, key_hash)]. *)
Record access := mk_access {
  ac_admins : list admin_row; ac_sessions : list session_row; ac_failures : gmap (string * string) failure_row
}.

Definition no_access : access := mk_access [] [] ∅.

Definition with_sessions (l : list session_row) (s : access) : access :=
  mk_access (ac_admins s) l (ac_failures s).
Definition with_failures (m : gmap (string * string) failure_row) (s : access) : access :=
  mk_access (ac_admins s) (ac_sessions s) m.

(** The random values of a new session. *)
Record tokens := mk_tokens { tk_session : string; tk_csrf : string }.

Section Access.
Context {P : PasswordHash}.

(** ** Sessions *)

Definition createSession (adminID : string) (now : Z) (t : tokens) (s : access) : res access :=
  if sql_exists (λ r, ss_token_hash r =?s token_digest (tk_session t)) (ac_sessions s)
     || negb (sql_exists (λ a, ad_id a =?s adminID) (ac_admins s))
  then Err "center: create session"
  else Ok (with_sessions (ac_sessions s ++
         [mk_session (token_digest (tk_session t)) (tk_csrf t) adminID (rfc3339nano (now + sessionLifetime))
            (rfc3339nano (now + sessionMaximumLifetime))]) s).

Definition CreateFirstAdmin (username password salt adminID : string) (t : tokens) (now : Z) (s : access)
    : access * res unit :=
  let username := trim_space username in
  if negb (usernamePattern username) then
    (s, Err "center: username must be 3 to 64 characters using letters, numbers, dots, underscores, or hyphens")
  else if rune_count password <? adminPasswordMinLength then (s, Err "center: password must be at least 10 characters")
  else if negb (Z.of_nat (length (ac_admins s)) =? 0) then (s, Err "center: setup is already complete")
  else
    let created := mk_access (ac_admins s ++ [mk_admin adminID username (hashPassword salt password) (rfc3339nano now)])
                     (ac_sessions s) (ac_failures s) in
    match createSession adminID now t created with
    | Ok s' => (s', Ok tt)
    | Err e => (s, Err e)
    end.

Definition find_admin (username : string) (s : access) : option admin_row :=
  sql_row (λ a, nocase (ad_username a) username) (ac_admins s).

Definition Authenticate (username password : string) (t : tokens) (now : Z) (s : access) : access * res unit :=
  match find_admin (trim_space username) s with
  | None => (s, Err "center: sign-in failed")
  | Some a =>
      if negb (verifyPassword password (ad_password_hash a)) then (s, Err "center: sign-in failed")
      else match createSession (ad_id a) now t s with
           | Ok s' => (s', Ok tt)
           | Err e => (s, Err e)
           end
  end.

Definition find_session (token : string) (s : access) : option session_row :=
  sql_row (λ r, ss_token_hash r =?s token_digest token) (ac_sessions s).

(** [expires.After(now)] for a stored time. *)
Definition still_open (text : string) (now : Z) : bool :=
  match parse_rfc3339 text with Some t => now <? t | None => false end.

Definition ValidateSession (token csrf : string) (mutation : bool) (now : Z) (s : access) : res unit :=
  guard_err (token =?s "") "center: authentication required" ;;!
  match find_session token s with
  | None => Err "center: session is invalid"
  | Some r =>
      guard_err (negb (still_open (ss_expires_at r) now)) "center: session has expired" ;;!
      guard_err (mutation && negb (ss_csrf_token r =?s csrf)) "center: CSRF token is invalid"
  end.

Definition SessionAdminID (token : string) (now : Z) (s : access) : res string :=
  guard_err (token =?s "") "center: authentication required" ;;!
  match find_session token s with
  | None => Err "center: session is invalid"
  | Some r =>
      guard_err (negb (still_open (ss_expires_at r) now)) "center: session has expired" ;;!
      Ok (ss_admin_id r)
  end.

Definition errRenewalSessionInvalid : string := "center: session is invalid or expired".

(** The new expiry, when the session was renewed. *)
Definition renewSession (token : string) (now : Z) (s : access) : access * res (option (string * Z)) :=
  match find_session token s with
  | None => (s, Err errRenewalSessionInvalid)
  | Some r =>
      match parse_rfc3339 (ss_expires_at r), parse_rfc3339 (ss_absolute_expires_at r) with
      | Some expires, Some deadline =>
          if negb (now <? expires) || negb (now <? deadline) then (s, Err errRenewalSessionInvalid)
          else if sessionRenewalWindow <? expires - now then (s, Ok None)
          else
            let next := if deadline <? now + sessionLifetime then deadline else now + sessionLifetime in
            if next <=? expires then (s, Ok None)
            else
              let wh x := (ss_token_hash x =?s token_digest token) && (ss_expires_at x =?s ss_expires_at r)
                          && (ss_absolute_expires_at x =?s ss_absolute_expires_at r) in
              let s' := with_sessions (sql_update wh
                          (λ x, mk_session (ss_token_hash x) (ss_csrf_token x) (ss_admin_id x) (rfc3339nano next)
                                  (ss_absolute_expires_at x)) (ac_sessions s)) s in
              if sql_affected wh (ac_sessions s) =? 0
              then (s', let! _ := ValidateSession token "" false now s' in Ok None)
              else (s', Ok (Some (ss_csrf_token r, next)))
      | _, _ => (s, Err errRenewalSessionInvalid)
      end
  end.

(** [requireAuth]: the request reaches its handler.  The clock is read by the check and
    by the renewal. *)
Definition requireAuth (token csrf : string) (mutation logout : bool) (now renewal_now : Z) (s : access) : access * bool :=
  match ValidateSession token csrf mutation now s with
  | Err _ => (s, false)
  | Ok _ => if logout then (s, true)
            else let '(s', r) := renewSession token renewal_now s in (s', is_ok r)
  end.

Definition Logout (token : string) (s : access) : access * res unit :=
  if token =?s "" then (s, Err "center: authentication required")
  else
    let wh r := ss_token_hash r =?s token_digest token in
    if negb (sql_affected wh (ac_sessions s) =? 1)
    then (with_sessions (List.filter (λ r, negb (wh r)) (ac_sessions s)) s, Err "center: session is invalid")
    else (with_sessions (List.filter (λ r, negb (wh r)) (ac_sessions s)) s, Ok tt).

Definition ReauthenticateAdmin (adminID password : string) (s : access) : res unit :=
  if (trim_space adminID =?s "") || (password =?s "") then Err "center: current password is incorrect"
  else match sql_row (λ a, ad_id a =?s trim_space adminID) (ac_admins s) with
       | Some a => guard_err (negb (verifyPassword password (ad_password_hash a))) "center: current password is incorrect"
       | None => Err "center: current password is incorrect"
       end.

Definition ChangePassword (token currentPassword newPassword salt : string) (now : Z) (s : access) : access * res unit :=
  if token =?s "" then (s, Err "center: authentication required")
  else if rune_count newPassword <? adminPasswordMinLength then
    (s, Err "center: new password must be at least 10 characters")
  else if currentPassword =?s newPassword then (s, Err "center: new password must be different")
  else
    match find_session token s with
    | None => (s, Err "center: session is invalid")
    | Some r =>
        match sql_row (λ a, ad_id a =?s ss_admin_id r) (ac_admins s) with
        | None => (s, Err "center: session is invalid")
        | Some a =>
            if negb (still_open (ss_expires_at r) now) then (s, Err "center: session has expired")
            else if negb (verifyPassword currentPassword (ad_password_hash a))
            then (s, Err "center: current password is incorrect")
            else
              let wh x := (ad_id x =?s ad_id a) && (ad_password_hash x =?s ad_password_hash a) in
              if negb (sql_affected wh (ac_admins s) =? 1)
              then (s, Err "center: administrator password changed concurrently; retry")
              else
                (mk_access
                   (sql_update wh (λ x, mk_admin (ad_id x) (ad_username x) (hashPassword salt newPassword) (ad_created_at x))
                      (ac_admins s))
                   (List.filter (λ x, negb ((ss_admin_id x =?s ad_id a) && negb (ss_token_hash x =?s token_digest token)))
                      (ac_sessions s))
                   (ac_failures s), Ok tt)
        end
    end.

(** ** Throttling *)

Definition loginFailureKey (scope value : string) : string :=
  hmac_hex ("vastora-login-" +:+ scope +:+ String (Ascii.ascii_of_nat 0) "" +:+ value).

Definition account_key (username : string) : string * string :=
  ("account", loginFailureKey "account" (to_lower (trim_space username))).
Definition client_key (address : string) : string * string :=
  ("client", loginFailureKey "client" (trim_space address)).

(** The zero value of [time.Time]. *)
Definition zero_time : Z := -62135596800 * second.

Definition later_block (k : string * string) (s : access) (blockedUntil : Z) : res Z :=
  match ac_failures s !! k with
  | None => Ok blockedUntil
  | Some r =>
      match parse_rfc3339 (lf_blocked_until r) with
      | None => Err "center: stored login throttle is invalid"
      | Some value => Ok (if blockedUntil <? value then value else blockedUntil)
      end
  end.

(** The time to wait; 0 when the attempt is admitted. *)
Definition LoginThrottle (username address : string) (now : Z) (s : access) : res Z :=
  let! b1 := later_block (account_key username) s zero_time in
  let! b2 := later_block (client_key address) s b1 in
  Ok (if now <? b2 then b2 - now else 0).

Definition loginBackoff (failures : Z) : Z :=
  let failures := if failures <? 1 then 1 else failures in
  let failures := if 5 <? failures then 5 else failures in
  Z.shiftl 1 failures * second.

(** The row after one more failure. *)
Definition count_failure (now : Z) (row : option failure_row) : res (failure_row * Z) :=
  let! start :=
    (match row with
     | None => Ok (0, now)
     | Some r =>
         match parse_rfc3339 (lf_window_started_at r) with
         | None => Err "center: stored login throttle is invalid"
         | Some w => Ok (if negb (now <? w + loginFailureWindow) then (0, now) else (lf_failed_count r, w))
         end
     end) in
  let count := fst start + 1 in
  let locked := loginMaxFailures <=? count in
  let delay := if locked then loginLockoutDuration else loginBackoff count in
  let window := if locked then now else snd start in
  Ok (mk_failure_row count (rfc3339nano window) (rfc3339nano (now + delay)) (rfc3339nano now), delay).

Definition record_key (now : Z) (k : string * string) (s : access) : res (access * Z) :=
  let! counted := count_failure now (ac_failures s !! k) in
  Ok (with_failures (<[k := fst counted]> (ac_failures s)) s, snd counted).

Definition expire_failures (now : Z) (s : access) : access :=
  with_failures (filter (λ kr, negb (lf_updated_at (snd kr) <?s rfc3339nano (now - loginFailureRetention)))
                   (ac_failures s)) s.

Definition RecordLoginFailure (username address : string) (includeAccount : bool) (now : Z) (s : access)
    : access * res Z :=
  let recorded :=
    (let s1 := expire_failures now s in
     let! a := (if includeAccount then record_key now (account_key username) s1 else Ok (s1, 0)) in
     let! c := record_key now (client_key address) (fst a) in
     Ok (fst c, Z.max (snd a) (snd c))) in
  match recorded with
  | Ok (s', longest) => (s', Ok longest)
  | Err e => (s, Err e)
  end.

Definition ClearLoginFailures (username address : string) (s : access) : access :=
  with_failures (delete (client_key address) (delete (account_key username) (ac_failures s))) s.

(** ** Signing in *)

(** A request of [handleLogin]: what [loginContext] and the check of the challenge find,
    and the readings of the clock by the three steps. *)
Record login := mk_login {
  lg_username : string; lg_password : string; lg_context : res (string * bool);   (* address, captcha required *)
  lg_challenge : bool; lg_tokens : tokens; lg_throttle_now : Z; lg_session_now : Z; lg_record_now : Z
}.

Inductive login_outcome := Unavailable | ServerError | Throttled | CaptchaFailed | InvalidCredentials | SignedIn.

#[global] Instance login_outcome_eq_dec : EqDecision login_outcome.
Proof. solve_decision. Defined.

(** [handleLogin], which holds [loginMu]. *)
Definition handleLogin (l : login) (s : access) : access * login_outcome :=
  match lg_context l with
  | Err _ => (s, Unavailable)
  | Ok (address, captcha) =>
      match LoginThrottle (lg_username l) address (lg_throttle_now l) s with
      | Err _ => (s, ServerError)
      | Ok retry =>
          if 0 <? retry then (s, Throttled)
          else if captcha && negb (lg_challenge l) then
            match RecordLoginFailure (lg_username l) address false (lg_record_now l) s with
            | (s', Err _) => (s', ServerError)
            | (s', Ok _) => (s', CaptchaFailed)
            end
          else
            match Authenticate (lg_username l) (lg_password l) (lg_tokens l) (lg_session_now l) s with
            | (s', Err _) =>
                match RecordLoginFailure (lg_username l) address true (lg_record_now l) s' with
                | (s'', Err _) => (s'', ServerError)
                | (s'', Ok _) => (s'', InvalidCredentials)
                end
            | (s', Ok _) => (ClearLoginFailures (lg_username l) address s', SignedIn)
            end
      end
  end.

End Access.
