(* ===== verification/AdminSpec.v ===== *)
(** * What protects the administrator's account

    The rate at which a password can be guessed, the lifetime of sessions, and the
    finality of their revocation, over any sequence of requests. *)
From Stdlib Require Import Ascii.
From S2P Require Import Prelude GoText GoTime Admin.

(** ** Passwords *)

Lemma split_plain c cur s : contains_any s [c] = false → split_on c cur s = [cur +:+ s].
Proof.
  revert cur. induction s as [|d s IH]; intros cur H; cbn [split_on].
  - by rewrite app_nil_s.
  - cbn [contains_any existsb] in H. apply orb_false_elim in H as [Hd H]. rewrite orb_false_r in Hd.
    rewrite Hd, IH by done. by rewrite app_assoc_s.
Qed.

Lemma split_at c cur s rest :
  contains_any s [c] = false → split_on c cur (s +:+ String c rest) = (cur +:+ s) :: split_on c "" rest.
Proof.
  revert cur. induction s as [|d s IH]; intros cur H.
  - change ("" +:+ String c rest) with (String c rest). cbn [split_on]. by rewrite Ascii.eqb_refl, app_nil_s.
  - cbn [contains_any existsb] in H. apply orb_false_elim in H as [Hd H]. rewrite orb_false_r in Hd.
    change (String d s +:+ String c rest) with (String d (s +:+ String c rest)). cbn [split_on].
    rewrite Hd, IH by done. by rewrite app_assoc_s.
Qed.

(** A hash accepts exactly the passwords with the same derived key. *)
Lemma verify_hash {P : PasswordHash} salt p p' :
  verifyPassword p' (hashPassword salt p) = (argon2id p salt =?s argon2id p' salt).
Proof.
  unfold verifyPassword, hashPassword.
  change ("argon2id$v=19$m=65536,t=3,p=2$" +:+ base64 salt +:+ "$" +:+ base64 (argon2id p salt))
    with ("argon2id" +:+ String "$" ("v=19" +:+ String "$" ("m=65536,t=3,p=2" +:+ String "$"
            (base64 salt +:+ String "$" (base64 (argon2id p salt)))))).
  rewrite !split_at by (reflexivity || apply base64_plain). rewrite split_plain by apply base64_plain.
  repeat match goal with |- context ["" +:+ ?x] => change ("" +:+ x) with x end.
  rewrite !String.eqb_refl, !base64_round_trip, argon2id_length. done.
Qed.

(** ** Guesses *)

(** A failed attempt on an account: when it was recorded, and the count and the start of
    the window it left. *)
Record guess := mk_guess { gu_time : Z; gu_count : Z; gu_window : Z }.

Definition delay_of (count : Z) : Z :=
  if loginMaxFailures <=? count then loginLockoutDuration else loginBackoff count.

Definition guess_ok (g : guess) : Prop :=
  1 <= gu_count g <= 5 ∧ gu_window g <= gu_time g ∧ (gu_count g = 1 ∨ gu_count g = 5 → gu_window g = gu_time g).

(** The next attempt on the account that is not turned away. *)
Definition follows (g h : guess) : Prop :=
  gu_time g + delay_of (gu_count g) <= gu_time h ∧
  (gu_count h = 1 ∧ gu_window h = gu_time h ∧ gu_window g + loginFailureWindow <= gu_time h ∨
   gu_count h = gu_count g + 1 ∧ gu_time h < gu_window g + loginFailureWindow ∧
   gu_window h = if loginMaxFailures <=? gu_count h then gu_time h else gu_window g).

Lemma delay_cases c : 1 <= c <= 5 → (c = 5 ∧ delay_of c = 15 * minute) ∨ (c < 5 ∧ 0 <= delay_of c).
Proof.
  intros Hc. assert (c = 1 ∨ c = 2 ∨ c = 3 ∨ c = 4 ∨ c = 5) as [->|[->|[->|[->| ->]]]] by lia;
    [right; split; [lia|vm_compute; discriminate]..|left; done].
Qed.

Lemma follows_ok g h : guess_ok g → follows g h → guess_ok h.
Proof.
  destruct g as [t0 c0 w0], h as [t c w]. unfold guess_ok, follows. cbn.
  unfold loginFailureWindow, loginMaxFailures, minute. intros (Hc & Hw & H5) [Hd [(-> & -> & _)|(-> & Hlt & ->)]]; [lia|].
  destruct (delay_cases _ Hc) as [[-> Hdl]|[E Hdl]]; unfold minute in *.
  - specialize (H5 (or_intror eq_refl)). lia.
  - destruct (5 <=? c0 + 1) eqn:E5; bool_prop; lia.
Qed.

(** A chain of attempts, the oldest first. *)
Fixpoint chain (g : guess) (l : list guess) : Prop :=
  match l with
  | [] => True
  | h :: l' => follows g h ∧ chain h l'
  end.

Lemma follows_time g h : guess_ok g → follows g h → gu_time g <= gu_time h.
Proof.
  intros (Hc & _) [Hd _]. destruct (delay_cases _ Hc) as [[_ E]|[_ E]]; unfold minute, second in *; lia.
Qed.

Lemma chain_time g l h : guess_ok g → chain g l → last (g :: l) = Some h → gu_time g <= gu_time h.
Proof.
  revert g. induction l as [|x l IH]; intros g Hg Hc Hl; [by injection Hl as ->|]. destruct Hc as [Hf Hc]. rewrite ?last_cons_cons in Hl.
  etrans; [by eapply follows_time|]. apply (IH x); [by eapply follows_ok|done|done].
Qed.

(** A locked account. *)
Lemma locked_step g h : guess_ok g → gu_count g = 5 → follows g h → gu_time g + 15 * minute <= gu_time h.
Proof. intros (Hc & _) E [Hd _]. destruct (delay_cases _ Hc) as [[_ D]|[D _]]; lia. Qed.

(** The window is over after at most five more attempts. *)
Lemma window_ends g l h :
  guess_ok g → chain g l → 6 - gu_count g <= Z.of_nat (length l) → last (g :: l) = Some h →
  gu_window g + 15 * minute <= gu_time h.
Proof.
  revert g. induction l as [|x l IH]; intros g Hg Hc Hn Hl.
  { destruct Hg as (H & _). cbn in Hn. lia. }
  destruct Hc as [Hf Hc]. rewrite last_cons_cons in Hl. pose proof (follows_ok _ _ Hg Hf) as Hx.
  pose proof (chain_time x l h Hx Hc Hl) as Ht. pose proof Hg as (Hcg & Hw & _).
  pose proof Hf as [Hd [(_ & _ & Hr)|(Hcx & _ & Hwx)]].
  { unfold loginFailureWindow in Hr. lia. }
  destruct (decide (gu_count g = 5)) as [E|E]; [pose proof (locked_step g x Hg E Hf); lia|].
  unfold loginMaxFailures in Hwx. destruct (5 <=? gu_count x) eqn:E5; bool_prop.
  - assert (gu_count x = 5) as Ex by lia. destruct l as [|y l]; [cbn in Hn; lia|].
    destruct Hc as [Hy Hc]. rewrite last_cons_cons in Hl.
    pose proof (locked_step x y Hx Ex Hy). pose proof (chain_time y l h (follows_ok _ _ Hx Hy) Hc Hl).
    pose proof (follows_time g x Hg Hf). lia.
  - rewrite <- Hwx. apply IH; [done|done| |done]. cbn [length] in Hn. lia.
Qed.

(** Nine attempts on one account take at least a quarter of an hour. *)
Lemma nine_guesses g l h :
  guess_ok g → chain g l → 8 <= Z.of_nat (length l) → last (g :: l) = Some h → gu_time g + 15 * minute <= gu_time h.
Proof.
  intros Hg Hc Hn Hl. assert (10 - gu_count g <= Z.of_nat (length l) ∨ gu_count g = 1) as Hcase.
  { destruct Hg as (Hcg & _). lia. }
  destruct Hcase as [Hm|E1].
  2: { pose proof Hg as (_ & _ & Hw). rewrite <- (Hw (or_introl E1)). eapply window_ends; [done|done|lia|done]. }
  clear Hn. revert g Hg Hc Hm Hl. induction l as [|x l IH]; intros g Hg Hc Hm Hl.
  { destruct Hg as (H & _). cbn in Hm. lia. }
  destruct Hc as [Hf Hc]. rewrite last_cons_cons in Hl. pose proof (follows_ok _ _ Hg Hf) as Hx.
  pose proof (chain_time x l h Hx Hc Hl) as Ht. pose proof Hg as (Hcg & _). cbn [length] in Hm.
  destruct (decide (gu_count g = 5)) as [E|E]; [pose proof (locked_step g x Hg E Hf); lia|].
  pose proof (follows_time g x Hg Hf). pose proof Hf as [_ [(Hcx & Hwx & _)|(Hcx & _ & _)]].
  - pose proof (window_ends x l h Hx Hc ltac:(lia) Hl). lia.
  - pose proof (IH x Hx Hc ltac:(lia) Hl). lia.
Qed.

(** ** Sequences of requests *)
Section Requests.
Context {P : PasswordHash}.

Inductive access_op :=
| OpSetup (username password salt adminID : string) (t : tokens) (now : Z)
| OpLogin (l : login)
| OpRequest (token csrf : string) (mutation logout : bool) (now renewal_now : Z)
| OpLogout (token : string)
| OpChangePassword (token current new salt : string) (now : Z).

Definition run_op (op : access_op) (s : access) : access :=
  match op with
  | OpSetup u p salt i t now => fst (CreateFirstAdmin u p salt i t now s)
  | OpLogin l => fst (handleLogin l s)
  | OpRequest t c m o now now' => fst (requireAuth t c m o now now' s)
  | OpLogout t => fst (Logout t s)
  | OpChangePassword t c n salt now => fst (ChangePassword t c n salt now s)
  end.

(** The readings of the clock. *)
Definition op_clock (op : access_op) : list Z :=
  match op with
  | OpSetup _ _ _ _ _ now | OpChangePassword _ _ _ _ now => [now]
  | OpRequest _ _ _ _ now now' => [now; now']
  | OpLogin l => [lg_throttle_now l; lg_session_now l; lg_record_now l]
  | OpLogout _ => []
  end.

(** The clock does not go back, and shows a year before 8000. *)
Definition sane (t : Z) : Prop := 0 <= t < 190000000000 * second.
Fixpoint chronological (from : Z) (l : list Z) : Prop :=
  match l with
  | [] => True
  | t :: l' => from <= t ∧ sane t ∧ chronological t l'
  end.

(** What a request adds to the attempts on [k]. *)
Definition add_guess (k : string * string) (op : access_op) (s : access) (acc : list Z) : list Z :=
  match op with
  | OpLogin l =>
      if decide (account_key (lg_username l) = k) then
        match snd (handleLogin l s) with
        | InvalidCredentials => acc ++ [lg_record_now l]
        | SignedIn => []
        | _ => acc
        end
      else acc
  | _ => acc
  end.

(** The failed attempts on an account since the last time it was signed in to, with the
    times at which they were recorded, the oldest first. *)
Fixpoint guesses (k : string * string) (ops : list access_op) (s : access) (acc : list Z) : list Z :=
  match ops with
  | [] => acc
  | op :: ops' => guesses k ops' (run_op op s) (add_guess k op s acc)
  end.

(** ** Rows *)
Definition row_of (g : guess) : failure_row :=
  mk_failure_row (gu_count g) (rfc3339nano (gu_window g)) (rfc3339nano (gu_time g + delay_of (gu_count g)))
    (rfc3339nano (gu_time g)).

Definition row_ok (now : Z) (r : failure_row) : Prop :=
  ∃ g, r = row_of g ∧ sane (gu_window g) ∧ sane (gu_time g) ∧ gu_time g <= now.

Lemma delay_bound c : 0 <= delay_of c <= 15 * minute.
Proof.
  unfold delay_of, loginMaxFailures, loginLockoutDuration, loginBackoff.
  destruct (5 <=? c) eqn:E5; [vm_compute; by split|]. bool_prop. destruct (c <? 1) eqn:E1; bool_prop.
  - vm_compute. by split.
  - rewrite (proj2 (Z.ltb_ge 5 c)) by lia.
    assert (c = 1 ∨ c = 2 ∨ c = 3 ∨ c = 4) as [->|[->|[->| ->]]] by lia; vm_compute; by split.
Qed.

Lemma sane_representable t d : sane t → -(7 * 24 * hour) <= d <= 7 * 24 * hour → representable (t + d).
Proof. unfold sane, representable, hour, minute, second. lia. Qed.

Lemma parse_sane t d : sane t → -(7 * 24 * hour) <= d <= 7 * 24 * hour → parse_rfc3339 (rfc3339nano (t + d)) = Some (t + d).
Proof. intros Ht Hd. by apply parse_rfc3339nano, sane_representable. Qed.

Lemma parse_sane_0 t : sane t → parse_rfc3339 (rfc3339nano t) = Some t.
Proof. intros Ht. rewrite <- (Z.add_0_r t) at 1. rewrite parse_sane; [f_equal; lia|done|unfold hour, minute, second; lia]. Qed.

Lemma parse_block g : sane (gu_time g) →
  parse_rfc3339 (lf_blocked_until (row_of g)) = Some (gu_time g + delay_of (gu_count g)).
Proof. intros Ht. apply parse_sane; [done|]. pose proof (delay_bound (gu_count g)). unfold hour, minute, second in *. lia. Qed.

(** The attempt after [g], or the first one. *)
Definition next_guess (now : Z) (g : option guess) : guess :=
  match g with
  | None => mk_guess now 1 now
  | Some g =>
      if negb (now <? gu_window g + loginFailureWindow) then mk_guess now 1 now
      else mk_guess now (gu_count g + 1) (if loginMaxFailures <=? gu_count g + 1 then now else gu_window g)
  end.

Lemma count_failure_next now g :
  (∀ x, g = Some x → sane (gu_window x)) →
  ∃ d, count_failure now (option_map row_of g) = Ok (row_of (next_guess now g), d).
Proof.
  intros Hs. unfold count_failure. destruct g as [g|]; cbn [option_map row_of lf_window_started_at rbind].
  - rewrite parse_sane_0 by (by apply Hs). cbn [rbind]. unfold next_guess.
    destruct (negb _); cbn [fst snd]; eexists; reflexivity.
  - eexists. reflexivity.
Qed.

Lemma next_guess_follows now g :
  gu_time g + delay_of (gu_count g) <= now → follows g (next_guess now (Some g)).
Proof.
  intros Hd. unfold next_guess. destruct (negb _) eqn:E; bool_prop.
  - split; [done|]. left. cbn. done.
  - split; [done|]. right. cbn. done.
Qed.

Lemma next_guess_sane now g : sane now → (∀ x, g = Some x → sane (gu_window x)) →
  sane (gu_window (next_guess now g)) ∧ gu_time (next_guess now g) = now.
Proof.
  intros Hn Hs. unfold next_guess. destruct g as [g|]; [|done].
  destruct (negb _); [done|]. cbn. split; [|done]. destruct (_ <=? _); [done|]. by apply Hs.
Qed.

(** ** The invariant of the throttle *)

(** [gs] are the attempts on the account [k] since it was last signed in to. *)
Record throttled (k : string * string) (now : Z) (s : access) (gs : list guess) : Prop := mk_throttled {
  th_rows : ∀ key r, ac_failures s !! key = Some r → row_ok now r;
  th_chain : match gs with [] => True | g :: l => guess_ok g ∧ chain g l end;
  th_row : match last gs with
           | None => ac_failures s !! k = None
           | Some g => sane (gu_window g) ∧ sane (gu_time g) ∧
               (ac_failures s !! k = Some (row_of g) ∨ ac_failures s !! k = None ∧ gu_time g + 23 * hour <= now)
           end
}.

Lemma throttled_later k now now' s s' gs :
  throttled k now s gs → now <= now' → ac_failures s' = ac_failures s → throttled k now' s' gs.
Proof.
  intros [Hr Hc Hl] Hn E. split; rewrite ?E.
  - intros key r H. destruct (Hr key r H) as (g & H1 & H2 & H3 & H4). exists g. split_and!; try done. lia.
  - done.
  - destruct (last gs) as [g|]; [|done]. destruct Hl as (H1 & H2 & [H|[H H']]); split_and!; auto. right. split; [done|lia].
Qed.

Lemma expired_old now t : sane t → sane now → (rfc3339nano t <?s rfc3339nano (now - loginFailureRetention)) = true →
  t + 23 * hour <= now.
Proof.
  intros Ht Hn H. unfold loginFailureRetention in H. apply rfc3339nano_lt_inv in H.
  - unfold hour, minute, second in *. Z.div_mod_to_equations. lia.
  - rewrite <- (Z.add_0_r t). apply sane_representable; [done|]. unfold hour, minute, second. lia.
  - unfold Z.sub. apply sane_representable; [done|]. unfold hour, minute, second. lia.
Qed.

Lemma throttled_expire k now s gs : sane now → throttled k now s gs → throttled k now (expire_failures now s) gs.
Proof.
  intros Hn [Hr Hc Hl]. split; [|done|]; cbn [expire_failures with_failures ac_failures].
  - intros key r [H _]%map_lookup_filter_Some. by eapply Hr.
  - destruct (last gs) as [g|].
    + destruct Hl as (H1 & H2 & Hcase). split; [done|]. split; [done|].
      destruct (filter _ (ac_failures s) !! k) as [r|] eqn:E.
      * apply map_lookup_filter_Some in E as [E _]. destruct Hcase as [H|[H _]]; rewrite H in E; [left|done]. congruence.
      * right. split; [done|]. destruct Hcase as [H|[_ H]]; [|done].
        apply map_lookup_filter_None in E as [E|E]; [congruence|]. specialize (E _ H). cbn in E.
        apply expired_old; [done|done|]. destruct (_ <?s _) eqn:Et; [done|]. exfalso. by apply E.
    + apply map_lookup_filter_None. by left.
Qed.

(** One more failure of some key. *)
Lemma record_key_at now s key g :
  ac_failures s !! key = option_map row_of g → (∀ x, g = Some x → sane (gu_window x)) →
  ∃ d, record_key now key s = Ok (with_failures (<[key := row_of (next_guess now g)]> (ac_failures s)) s, d).
Proof. intros Hg Hs. unfold record_key. rewrite Hg. destruct (count_failure_next now g Hs) as [d ->]. by exists d. Qed.

Lemma next_row_ok now g : sane now → (∀ x, g = Some x → sane (gu_window x)) → row_ok now (row_of (next_guess now g)).
Proof.
  intros Hn Hs. destruct (next_guess_sane now g Hn Hs) as [H1 H2]. exists (next_guess now g). by rewrite H2.
Qed.

Lemma throttled_other k now s gs key :
  sane now → throttled k now s gs → key ≠ k → ∃ s' d, record_key now key s = Ok (s', d) ∧ throttled k now s' gs.
Proof.
  intros Hn [Hr Hc Hl] Hk.
  assert (∃ g, ac_failures s !! key = option_map row_of g ∧ ∀ x, g = Some x → sane (gu_window x)) as (g & Hg & Hs).
  { destruct (ac_failures s !! key) as [r|] eqn:E; [|by exists None].
    destruct (Hr key r E) as (g & -> & Hw & _). exists (Some g). split; [done|]. by intros x [= <-]. }
  destruct (record_key_at now s key g Hg Hs) as [d E]. eexists _, d. split; [exact E|].
  split; [|done|]; cbn [with_failures ac_failures].
  - intros key' r [[<- <-]|[_ H]]%lookup_insert_Some; [by apply next_row_ok|]. by eapply Hr.
  - by rewrite lookup_insert_ne.
Qed.

Lemma chain_snoc g l x h : chain g l → last (g :: l) = Some x → follows x h → chain g (l ++ [h]).
Proof.
  revert g. induction l as [|y l IH]; intros g Hc Hl Hf; [by injection Hl as ->|].
  destruct Hc as [H1 H2]. rewrite last_cons_cons in Hl. split; [done|]. by apply IH.
Qed.

Lemma chain_last_ok g l x : guess_ok g → chain g l → last (g :: l) = Some x → guess_ok x.
Proof.
  revert g. induction l as [|y l IH]; intros g Hg Hc Hl; [by injection Hl as ->|].
  destruct Hc as [H1 H2]. rewrite last_cons_cons in Hl. apply (IH y); [by eapply follows_ok|done|done].
Qed.

Lemma throttled_own k now s gs :
  sane now → throttled k now s gs → (∀ g, last gs = Some g → gu_time g + delay_of (gu_count g) <= now) →
  ∃ s' d h, record_key now k s = Ok (s', d) ∧ gu_time h = now ∧ throttled k now s' (gs ++ [h]).
Proof.
  intros Hn [Hr Hc Hl] Hw.
  assert (∃ g, ac_failures s !! k = option_map row_of g ∧ (∀ x, g = Some x → sane (gu_window x)) ∧
    match last gs with Some y => follows y (next_guess now g) | None => guess_ok (next_guess now g) end)
    as (g & Hg & Hs & Hf).
  { destruct (last gs) as [y|] eqn:Ey; [|exists None; split_and!; try done; unfold guess_ok; cbn; lia].
    destruct Hl as (Hy1 & Hy2 & [Hrow|[Hrow Hold]]); specialize (Hw y eq_refl).
    - exists (Some y). split; [done|]. split; [by intros ? [= <-]|]. by apply next_guess_follows.
    - exists None. split; [done|]. split; [done|]. split; [done|]. left. cbn. split_and!; try done.
      destruct gs as [|x l]; [done|]. destruct Hc as [Hx Hch].
      destruct (chain_last_ok x l y Hx Hch Ey) as (_ & Hwy & _).
      unfold loginFailureWindow, hour, minute, second in *. lia. }
  destruct (record_key_at now s k g Hg Hs) as [d E]. destruct (next_guess_sane now g Hn Hs) as [H1 H2].
  eexists _, d, (next_guess now g). split; [exact E|]. split; [done|]. split; cbn [with_failures ac_failures].
  - intros key r [[<- <-]|[_ H]]%lookup_insert_Some; [by apply next_row_ok|by eapply Hr].
  - destruct gs as [|x l]; cbn [app]; [by split|]. destruct Hc as [Hx Hch]. split; [done|].
    destruct (last (x :: l)) as [y|] eqn:Ey; [|by rewrite last_cons in Ey; destruct (last l)].
    by eapply chain_snoc.
  - rewrite last_snoc. split; [done|]. rewrite H2. split; [done|]. left. by rewrite lookup_insert_eq.
Qed.

(** ** Requests keep the invariant *)

Lemma throttle_admits username address now s k gs retry :
  throttled k now s gs → LoginThrottle username address now s = Ok retry → (0 <? retry) = false →
  account_key username = k → ∀ g, last gs = Some g → gu_time g + delay_of (gu_count g) <= now.
Proof.
  intros [Hr Hc Hl] Ht Hz Hk g Hg. rewrite Hg in Hl. destruct Hl as (H1 & H2 & [Hrow|[_ Hold]]).
  2: { pose proof (delay_bound (gu_count g)). unfold hour, minute, second in *. lia. }
  unfold LoginThrottle in Ht. rewrite Hk in Ht. unfold later_block in Ht. rewrite Hrow, parse_block in Ht by done.
  cbn [rbind] in Ht. set (b1 := if zero_time <? _ then _ else _) in Ht.
  assert (gu_time g + delay_of (gu_count g) <= b1) as Hb1 by (unfold b1; destruct (zero_time <? _) eqn:E; bool_prop; lia).
  destruct (ac_failures s !! client_key address) as [r|]; [destruct (parse_rfc3339 _) as [v|]; [|discriminate Ht]|];
    cbn [rbind] in Ht; injection Ht as <-; repeat case_match; bool_prop; lia.
Qed.

Lemma client_is_not_account address username : client_key address ≠ account_key username.
Proof. unfold client_key, account_key. congruence. Qed.

Lemma record_keeps username address account now s k gs :
  sane now → fst k = "account" → throttled k now s gs →
  (account = true → account_key username = k → ∀ g, last gs = Some g → gu_time g + delay_of (gu_count g) <= now) →
  ∃ s' d gs', RecordLoginFailure username address account now s = (s', Ok d) ∧ throttled k now s' gs' ∧
    map gu_time gs' = map gu_time gs ++ (if account && bool_decide (account_key username = k) then [now] else []).
Proof.
  intros Hn Hk Ht Hw. unfold RecordLoginFailure. apply (throttled_expire k now s gs Hn) in Ht.
  assert (client_key address ≠ k) as Hck by (intros <-; discriminate Hk).
  assert (∃ s1 d1 gs', (if account then record_key now (account_key username) (expire_failures now s)
                        else Ok (expire_failures now s, 0)) = Ok (s1, d1) ∧ throttled k now s1 gs' ∧
    map gu_time gs' = map gu_time gs ++ (if account && bool_decide (account_key username = k) then [now] else []))
    as (s1 & d1 & gs' & E1 & T1 & M1).
  { destruct account; cbn [andb]; [|exists (expire_failures now s), 0, gs; by rewrite app_nil_r].
    case_bool_decide as Ek.
    - rewrite Ek. destruct (throttled_own k now _ gs Hn Ht) as (s1 & d1 & h & E & Eh & T); [by apply Hw|].
      exists s1, d1, (gs ++ [h]). split; [done|]. split; [done|]. by rewrite map_app, <- Eh.
    - destruct (throttled_other k now _ gs (account_key username) Hn Ht Ek) as (s1 & d1 & E & T).
      exists s1, d1, gs. by rewrite app_nil_r. }
  destruct (throttled_other k now s1 gs' (client_key address) Hn T1 Hck) as (s2 & d2 & E2 & T2).
  exists s2, (Z.max d1 d2), gs'. cbv zeta. rewrite E1. cbn [rbind fst snd]. rewrite E2. done.
Qed.

Lemma authenticate_failures u p t now s : ac_failures (fst (Authenticate u p t now s)) = ac_failures s.
Proof. unfold Authenticate, createSession. by repeat case_match; simplify_eq/=. Qed.

(** Requests other than signing in do not touch the failures. *)
Lemma other_failures op s : (∀ l, op ≠ OpLogin l) → ac_failures (run_op op s) = ac_failures s.
Proof.
  intros H. destruct op as [u p salt i t now|l|t c m o now now'|t|t c n salt now]; [| by destruct (H l)| | |]; cbn.
  - unfold CreateFirstAdmin, createSession. by repeat case_match; simplify_eq/=.
  - unfold requireAuth, renewSession. by repeat case_match; simplify_eq/=.
  - unfold Logout. by repeat case_match.
  - unfold ChangePassword. by repeat case_match.
Qed.

Definition clock_end (from : Z) (op : access_op) : Z := default from (last (op_clock op)).

Lemma throttled_clear k now u a s gs :
  fst k = "account" → throttled k now s gs →
  ∃ gs', throttled k now (ClearLoginFailures u a s) gs' ∧
    map gu_time gs' = if decide (account_key u = k) then [] else map gu_time gs.
Proof.
  intros Hk [Hr Hc Hl]. assert (client_key a ≠ k) as Hck by (intros <-; discriminate Hk).
  assert (∀ key r, ac_failures (ClearLoginFailures u a s) !! key = Some r → row_ok now r) as Hrows.
  { intros key r H. cbn in H. apply lookup_delete_Some in H as [_ H]. apply lookup_delete_Some in H as [_ H]. by eapply Hr. }
  destruct (decide (account_key u = k)) as [E|E].
  - exists []. split; [|done]. split; [done|done|]. cbn. rewrite lookup_delete_ne by done. rewrite E. apply lookup_delete_eq.
  - exists gs. split; [|done]. split; [done|done|]. cbn. by rewrite !lookup_delete_ne.
Qed.

Lemma op_keeps k from op s gs :
  fst k = "account" → throttled k from s gs → chronological from (op_clock op) →
  ∃ gs', throttled k (clock_end from op) (run_op op s) gs' ∧ map gu_time gs' = add_guess k op s (map gu_time gs).
Proof.
  intros Hk Ht Hch. destruct (match op with OpLogin _ => true | _ => false end) eqn:El.
  2: { exists gs. split; [|by destruct op]. eapply throttled_later; [exact Ht| |apply other_failures; by intros l ->].
       destruct op; cbn in *; destruct_and?; lia || done. }
  destruct op as [|l| | |]; try discriminate El. cbn in Hch. destruct Hch as (H1 & S1 & H2 & S2 & H3 & S3 & _).
  assert (throttled k (lg_record_now l) s gs) as Ht3 by (eapply throttled_later; [exact Ht|lia|done]).
  cbn [clock_end op_clock last default run_op add_guess].
  assert (∃ gs', throttled k (lg_record_now l) (fst (handleLogin l s)) gs' ∧
    map gu_time gs' = match snd (handleLogin l s) with
                      | InvalidCredentials => map gu_time gs ++ (if bool_decide (account_key (lg_username l) = k) then [lg_record_now l] else [])
                      | SignedIn => if decide (account_key (lg_username l) = k) then [] else map gu_time gs
                      | _ => map gu_time gs end) as (gs' & T & M).
  { unfold handleLogin. destruct (lg_context l) as [[address captcha]|]; [|by exists gs].
    destruct (LoginThrottle _ _ _ s) as [retry|] eqn:Eth; [|by exists gs].
    destruct (0 <? retry) eqn:Er; [by exists gs|]. destruct (captcha && _).
    - destruct (record_keeps (lg_username l) address false _ s k gs S3 Hk Ht3) as (s' & d & gs' & -> & T & M); [done|].
      exists gs'. cbn [andb] in M. rewrite app_nil_r in M. done.
    - pose proof (authenticate_failures (lg_username l) (lg_password l) (lg_tokens l) (lg_session_now l) s) as Ef.
      destruct (Authenticate _ _ _ _ s) as [s1 [u|e]]; cbn [fst] in Ef.
      + apply (throttled_clear k); [done|]. eapply throttled_later; [exact Ht3|lia|done].
      + destruct (record_keeps (lg_username l) address true (lg_record_now l) s1 k gs S3 Hk) as (s' & d & gs' & -> & T & M).
        * eapply throttled_later; [exact Ht3|lia|done].
        * intros _ Hu g Hg. etrans; [|exact (Z.le_trans _ _ _ H2 H3)].
          eapply throttle_admits; [|exact Eth|done|exact Hu|exact Hg]. eapply throttled_later; [exact Ht|lia|done].
        * by exists gs'. }
  exists gs'. split; [exact T|]. rewrite M. clear M T.
  destruct (decide (account_key (lg_username l) = k)) as [E|E].
  - by rewrite bool_decide_true.
  - rewrite bool_decide_false, app_nil_r by done. by destruct (snd (handleLogin l s)).
Qed.

Lemma guesses_throttled k ops from s gs :
  fst k = "account" → throttled k from s gs → chronological from (concat (map op_clock ops)) →
  ∃ now s' gs', throttled k now s' gs' ∧ map gu_time gs' = guesses k ops s (map gu_time gs).
Proof.
  intros Hk. revert from s gs. induction ops as [|op ops IH]; intros from s gs Ht Hch; [by exists from, s, gs|].
  assert (chronological from (op_clock op) ∧ chronological (clock_end from op) (concat (map op_clock ops))) as [C1 C2].
  { cbn in Hch. unfold clock_end. revert from Ht Hch. generalize (concat (map op_clock ops)) as rest.
    generalize (op_clock op) as l. intros l rest from _. revert from. induction l as [|t l IHl]; intros from Hch; [done|].
    destruct Hch as (A & B & Hch). destruct (IHl t Hch) as [I1 I2]. split; [done|].
    rewrite last_cons. by destruct (last l). }
  destruct (op_keeps k from op s gs Hk Ht C1) as (gs1 & T1 & M1).
  destruct (IH _ _ _ T1 C2) as (now & s' & gs' & T & M). exists now, s', gs'. split; [exact T|]. rewrite M, M1. done.
Qed.

(** ** One account, one key *)

Lemma fold_below c : (fold_ascii c < 128)%nat → (c < 128)%nat.
Proof. unfold fold_ascii. destruct (_ && _) eqn:E; [|done]. apply andb_prop in E as [_ E]. apply Nat.leb_le in E. lia. Qed.

Lemma lower_ascii l : Forall (λ c, (c < 128)%nat) l → lower_bytes l = map fold_ascii l.
Proof.
  induction 1 as [|c l Hc Hl IH]; [done|]. cbn [map]. rewrite <- IH.
  do 128 (destruct c as [|c]; [reflexivity|]). lia.
Qed.

Lemma name_char_below first c : name_char first c = true → (c < 128)%nat.
Proof.
  unfold name_char. intros H. repeat (apply orb_true_iff in H as [H|H]);
    repeat match goal with
    | H : _ && _ = true |- _ => apply andb_prop in H as [? ?]
    | H : _ || _ = true |- _ => apply orb_true_iff in H as [H|H]
    | H : Nat.leb _ _ = true |- _ => apply Nat.leb_le in H
    | H : Nat.eqb _ _ = true |- _ => apply Nat.eqb_eq in H
    end; lia.
Qed.

Lemma name_below name : usernamePattern name = true → Forall (λ c, (c < 128)%nat) (bytes_of name).
Proof.
  unfold usernamePattern. destruct (bytes_of name) as [|c l]; [done|]. intros H. bool_prop.
  constructor; [by eapply name_char_below|]. apply Forall_forall. intros x Hx.
  rewrite forallb_forall in *. apply (name_char_below false). by match goal with H : ∀ _, _ → _ |- _ => apply H, list_elem_of_In end.
Qed.

(** Every way of writing a user name that finds the account counts against it. *)
Lemma account_has_one_key name u :
  usernamePattern name = true → nocase name (trim_space u) = true →
  account_key u = ("account", loginFailureKey "account" (to_lower name)).
Proof.
  intros Hn%name_below He. unfold nocase in He. apply bool_decide_eq_true in He. unfold account_key, to_lower.
  assert (Forall (λ c, (c < 128)%nat) (bytes_of (trim_space u))) as Hu.
  { assert (Forall (λ c, (c < 128)%nat) (map fold_ascii (bytes_of (trim_space u)))) as H.
    { rewrite <- He. clear -Hn. induction Hn as [|c l Hc Hl IH]; [done|]. cbn. constructor; [|done].
      unfold fold_ascii. destruct (_ && _) eqn:E; [|done]. apply andb_prop in E as [_ E]. apply Nat.leb_le in E. lia. }
    clear -H. induction (bytes_of (trim_space u)) as [|c l IH]; [done|]. cbn in H. inv H. constructor; [by apply fold_below|auto]. }
  by rewrite (lower_ascii _ Hn), (lower_ascii _ Hu), He.
Qed.

(** ** The rate of guesses *)

Lemma chain_take g l n : chain g l → chain g (take n l).
Proof. revert g n. induction l as [|x l IH]; intros g [|n] H; try done. destruct H as [H1 H2]. split; [done|by apply IH]. Qed.

Lemma nine_apart g l i x y :
  guess_ok g → chain g l → (g :: l) !! i = Some x → (g :: l) !! (i + 8)%nat = Some y → gu_time x + 15 * minute <= gu_time y.
Proof.
  revert g i. induction l as [|z l IH]; intros g i Hg Hc Hx Hy.
  - destruct i; [|done]. done.
  - destruct Hc as [Hf Hc]. destruct i as [|i].
    + injection Hx as ->. cbn [Nat.add] in Hy.
      apply (nine_guesses x (take 8 (z :: l))); [done|by apply (chain_take x (z :: l)); split| |].
      * apply lookup_lt_Some in Hy. cbn [length] in Hy. rewrite length_take. cbn [length]. lia.
      * change (x :: take 8 (z :: l)) with (take 9 (x :: z :: l)). rewrite (take_S_r _ 8 y) by done. by rewrite last_snoc.
    + apply (IH z i); [by eapply follows_ok|done|done|done].
Qed.

(** C26 -- Passwords are guessed slowly: over any sequence of requests, from any addresses,
    under any spelling of the user name that finds the account and with challenges passed
    or not, any nine failed attempts on an account in a row span at least fifteen
    minutes, unless it was signed in to in between. *)
Theorem guesses_are_throttled name ops :
  usernamePattern name = true → chronological 0 (concat (map op_clock ops)) →
  let k := ("account", loginFailureKey "account" (to_lower name)) in
  (∀ u, nocase name (trim_space u) = true → account_key u = k) ∧
  (∀ i t t', guesses k ops no_access [] !! i = Some t → guesses k ops no_access [] !! (i + 8)%nat = Some t' →
     t + 15 * minute <= t').
Proof.
  intros Hn Hch k. split; [intros u; by apply account_has_one_key|]. intros i t t' Hi Hj.
  destruct (guesses_throttled k ops 0 no_access [] eq_refl) as (now & s' & gs & [_ Hc _] & M); [|done|].
  { split; cbn; try done. }
  cbn [map] in M. rewrite <- M in Hi, Hj. rewrite list_lookup_fmap in Hi, Hj.
  destruct (gs !! i) as [x|] eqn:Ex; [|done]. destruct (gs !! (i + 8)%nat) as [y|] eqn:Ey; [|done].
  injection Hi as <-. injection Hj as <-. destruct gs as [|g l]; [by destruct i|]. destruct Hc as [Hg Hc].
  by eapply nine_apart.
Qed.

(** ** Sessions *)

(** The session a request may make: the digest of its token and its time. *)
Definition op_issues (op : access_op) : option (string * Z) :=
  match op with
  | OpSetup _ _ _ _ t now => Some (token_digest (tk_session t), now)
  | OpLogin l => Some (token_digest (tk_session (lg_tokens l)), lg_session_now l)
  | _ => None
  end.

Definition run_ops (ops : list access_op) (s : access) : access := fold_left (λ s op, run_op op s) ops s.

(** A stored session was made at [t0] and ends at the latest seven days later. *)
Definition bounded (issued : string * Z → Prop) (r : session_row) : Prop :=
  ∃ t0 e, issued (ss_token_hash r, t0) ∧ sane t0 ∧ ss_absolute_expires_at r = rfc3339nano (t0 + sessionMaximumLifetime) ∧
    ss_expires_at r = rfc3339nano e ∧ 0 <= e <= t0 + sessionMaximumLifetime.

Lemma bounded_expiry issued r : bounded issued r →
  ∃ t0 e, issued (ss_token_hash r, t0) ∧ sane t0 ∧ parse_rfc3339 (ss_absolute_expires_at r) = Some (t0 + sessionMaximumLifetime) ∧
    ss_absolute_expires_at r = rfc3339nano (t0 + sessionMaximumLifetime) ∧
    parse_rfc3339 (ss_expires_at r) = Some e ∧ e <= t0 + sessionMaximumLifetime.
Proof.
  intros (t0 & e & H1 & H2 & H3 & H4 & H5). exists t0, e. rewrite H3, H4.
  split; [done|]. split; [done|]. split; [apply parse_sane; [done|unfold sessionMaximumLifetime, hour, minute, second; lia]|].
  split; [done|]. split; [|lia]. apply parse_rfc3339nano.
  unfold sane, representable, sessionMaximumLifetime, hour, minute, second in *. lia.
Qed.

(** The rows after a request: old ones that may have been renewed, and the new one. *)
Lemma created_rows adminID now t s s' :
  createSession adminID now t s = Ok s' → sane now →
  ∀ r, r ∈ ac_sessions s' → r ∈ ac_sessions s ∨ bounded (λ p, p = (token_digest (tk_session t), now)) r.
Proof.
  unfold createSession. destruct (_ || _); [discriminate|]. intros [= <-] Hs r. cbn.
  intros [Hr|Hr]%elem_of_app; [by left|]. apply list_elem_of_singleton in Hr as ->. right.
  exists now, (now + sessionLifetime). cbn. split_and!; try done;
    unfold sane, sessionLifetime, sessionMaximumLifetime, hour, minute, second in *; lia.
Qed.

Lemma renewed_rows token now s issued :
  sane now → (∀ r, r ∈ ac_sessions s → bounded issued r) →
  ∀ r, r ∈ ac_sessions (fst (renewSession token now s)) → bounded issued r.
Proof.
  intros Hn Hb r. unfold renewSession. destruct (find_session token s) as [x|] eqn:Ef; [|by apply Hb].
  destruct (parse_rfc3339 (ss_expires_at x)) as [expires|]; [|by apply Hb].
  destruct (parse_rfc3339 (ss_absolute_expires_at x)) as [deadline|] eqn:Ed; [|by apply Hb].
  destruct (_ || _); [by apply Hb|]. destruct (_ <? _); [by apply Hb|]. cbv zeta.
  set (next := if deadline <? now + sessionLifetime then deadline else now + sessionLifetime).
  destruct (next <=? expires); [by apply Hb|].
  set (wh := λ x0 : session_row, _). set (s' := with_sessions _ s).
  assert (r ∈ ac_sessions s' → bounded issued r) as H.
  { unfold s'. cbn. intros (y & Hy & ->)%elem_of_sql_update. destruct (wh y) eqn:Ew; [|by apply Hb].
    unfold wh in Ew. bool_prop. destruct (bounded_expiry issued y (Hb y Hy)) as (t0 & e & I1 & I2 & I3 & I4 & _).
    exists t0, next. cbn. split; [done|]. split; [done|]. split; [done|]. split; [done|].
    assert (deadline = t0 + sessionMaximumLifetime) as -> by congruence.
    unfold next. destruct (_ <? now + sessionLifetime) eqn:E; bool_prop;
      unfold sane, sessionLifetime, sessionMaximumLifetime, hour, minute, second in *; lia. }
  by destruct (_ =? 0).
Qed.

Lemma record_sessions u a b now s : ac_sessions (fst (RecordLoginFailure u a b now s)) = ac_sessions s.
Proof.
  assert (∀ k s1 s2 d, record_key now k s1 = Ok (s2, d) → ac_sessions s2 = ac_sessions s1) as Hk.
  { intros k s1 s2 d. unfold record_key. destruct (count_failure _ _) as [[]|]; [|discriminate]. by intros [= <- _]. }
  unfold RecordLoginFailure. cbv zeta. set (m := if b then _ else _).
  assert (∀ s1 d, m = Ok (s1, d) → ac_sessions s1 = ac_sessions s) as Hm.
  { intros s1 d. unfold m. destruct b; [intros H; by apply Hk in H|]. by intros [= <- _]. }
  destruct m as [[s1 d1]|]; [|done]. cbn [rbind fst snd]. specialize (Hm s1 d1 eq_refl).
  destruct (record_key now (client_key a) s1) as [[s2 d2]|] eqn:E; [|done]. cbn. apply Hk in E. congruence.
Qed.

Lemma op_rows op s issued :
  (∀ t, t ∈ op_clock op → sane t) → (∀ r, r ∈ ac_sessions s → bounded issued r) →
  ∀ r, r ∈ ac_sessions (run_op op s) → bounded (λ p, issued p ∨ op_issues op = Some p) r.
Proof.
  intros Hc Hb.
  assert (∀ (I J : string * Z → Prop) r, (∀ p, I p → J p) → bounded I r → bounded J r) as Hmono.
  { intros I J r HIJ (t0 & e & H1 & H2). exists t0, e. auto. }
  assert (∀ r, r ∈ ac_sessions s → bounded (λ p, issued p ∨ op_issues op = Some p) r) as Hold.
  { intros r Hr. eapply Hmono; [|by apply Hb]. by left. }
  assert (∀ adminID now t s0 s', createSession adminID now t s0 = Ok s' → ac_sessions s0 = ac_sessions s → sane now →
    op_issues op = Some (token_digest (tk_session t), now) →
    ∀ r, r ∈ ac_sessions s' → bounded (λ p, issued p ∨ op_issues op = Some p) r) as Hnew.
  { intros adminID now t s0 s' E Es Hs Hi r Hr. destruct (created_rows _ _ _ _ _ E Hs r Hr) as [H|H].
    - rewrite Es in H. by apply Hold.
    - eapply Hmono; [|exact H]. intros p ->. by right. }
  intros r. destruct op as [u p salt i t now|l|t c m o now now'|t|t c n salt now]; cbn [run_op op_clock] in *.
  - unfold CreateFirstAdmin. cbv zeta. repeat (case_match; [by apply Hold|]).
    destruct (createSession i now t _) as [s'|] eqn:E; [|by apply Hold]. eapply Hnew; [exact E|done|apply Hc; left|done].
  - unfold handleLogin. destruct (lg_context l) as [[address captcha]|]; [|by apply Hold].
    destruct (LoginThrottle _ _ _ s) as [retry|]; [|by apply Hold]. destruct (0 <? retry); [by apply Hold|].
    destruct (captcha && _).
    { pose proof (record_sessions (lg_username l) address false (lg_record_now l) s) as E.
      destruct (RecordLoginFailure _ _ _ _ s) as [s' []]; cbn in *; rewrite E; apply Hold. }
    unfold Authenticate. destruct (find_admin _ s) as [a|]; [destruct (negb _)|].
    2: destruct (createSession (ad_id a) (lg_session_now l) (lg_tokens l) s) as [s'|] eqn:E.
    2: { intros Hr. eapply Hnew; [exact E|done|apply Hc; right; left|done|exact Hr]. }
    all: pose proof (record_sessions (lg_username l) address true (lg_record_now l) s) as Es;
      destruct (RecordLoginFailure _ _ _ _ s) as [s' []]; cbn in *; rewrite Es; apply Hold.
  - unfold requireAuth. destruct (ValidateSession _ _ _ _ s); [|by apply Hold]. destruct o; [by apply Hold|].
    pose proof (renewed_rows t now' s issued ltac:(apply Hc; right; left) Hb r) as H. destruct (renewSession t now' s) as [s' x].
    cbn in *. intros Hr. eapply Hmono; [|by apply H]. by left.
  - intros Hr. apply Hold. revert Hr. unfold Logout. repeat case_match; cbn; [done|..];
      intros [Hr _]%list_elem_of_In%filter_In; by apply list_elem_of_In.
  - intros Hr. apply Hold. revert Hr. unfold ChangePassword. repeat (case_match; try done). cbn.
    intros [Hr _]%list_elem_of_In%filter_In. by apply list_elem_of_In.
Qed.

(** The primary key of [sessions]. *)
Definition unique_tokens (s : access) : Prop := NoDup (map ss_token_hash (ac_sessions s)).

Lemma filter_keys (f : session_row → bool) l : NoDup (map ss_token_hash l) → NoDup (map ss_token_hash (List.filter f l)).
Proof.
  induction l as [|r l IH]; [done|]. cbn. intros [Hn Hl]%NoDup_cons. destruct (f r); [|by apply IH]. cbn.
  apply NoDup_cons. split; [|by apply IH]. intros (x & E & Hx)%list_elem_of_fmap. apply Hn. rewrite E.
  apply list_elem_of_fmap_2. by apply list_elem_of_In, filter_In, proj1, list_elem_of_In in Hx.
Qed.

Lemma create_unique adminID now t s s' : createSession adminID now t s = Ok s' → unique_tokens s → unique_tokens s'.
Proof.
  unfold createSession, unique_tokens. destruct (_ || _) eqn:E; [discriminate|]. intros [= <-] Hn. cbn.
  apply orb_false_elim in E as [E _]. rewrite map_app. apply NoDup_app. split; [done|]. split; [|apply NoDup_singleton].
  intros x (r & Ex & Hr)%list_elem_of_fmap Hin. apply list_elem_of_singleton in Hin. cbn in Hin.
  rewrite sql_exists_false in E. specialize (E r Hr). apply String.eqb_neq in E. congruence.
Qed.

Lemma op_unique op s : unique_tokens s → unique_tokens (run_op op s).
Proof.
  intros Hu. destruct op as [u p salt i t now|l|t c m o now now'|t|t c n salt now]; cbn [run_op].
  - unfold CreateFirstAdmin. cbv zeta. repeat (case_match; [done|]).
    destruct (createSession i now t _) as [s'|] eqn:E; [|done]. by eapply create_unique.
  - unfold handleLogin. destruct (lg_context l) as [[address captcha]|]; [|done].
    destruct (LoginThrottle _ _ _ s) as [retry|]; [|done]. destruct (0 <? retry); [done|].
    assert (∀ b, unique_tokens (fst (RecordLoginFailure (lg_username l) address b (lg_record_now l) s))) as Hr.
    { intros b. unfold unique_tokens. by rewrite record_sessions. }
    destruct (captcha && _); [specialize (Hr false); by destruct (RecordLoginFailure _ _ _ _ s) as [s' []]|].
    unfold Authenticate. destruct (find_admin _ s) as [a|]; [destruct (negb _)|].
    2: destruct (createSession (ad_id a) (lg_session_now l) (lg_tokens l) s) as [s'|] eqn:E;
       [by apply (create_unique _ _ _ _ _ E)|].
    all: specialize (Hr true); by destruct (RecordLoginFailure _ _ _ _ s) as [s' []].
  - unfold requireAuth. destruct (ValidateSession _ _ _ _ s); [|done]. destruct o; [done|].
    assert (unique_tokens (fst (renewSession t now' s))) as H; [|by destruct (renewSession t now' s)].
    unfold renewSession. repeat (case_match; try done); cbn; unfold unique_tokens; cbn;
      by rewrite (sql_update_key ss_token_hash).
  - unfold Logout. repeat case_match; try done; by apply filter_keys.
  - unfold ChangePassword. repeat (case_match; try done). by apply filter_keys.
Qed.

Lemma run_ops_ok ops s issued from :
  chronological from (concat (map op_clock ops)) → unique_tokens s → (∀ r, r ∈ ac_sessions s → bounded issued r) →
  unique_tokens (run_ops ops s) ∧
  ∀ r, r ∈ ac_sessions (run_ops ops s) → bounded (λ p, issued p ∨ ∃ op, op ∈ ops ∧ op_issues op = Some p) r.
Proof.
  assert (∀ l from, chronological from l → ∀ t, t ∈ l → sane t) as Hsane.
  { induction l as [|x l IH]; intros f Hch t Ht; [by apply not_elem_of_nil in Ht|]. destruct Hch as (_ & Hx & Hch).
    apply elem_of_cons in Ht as [->|Ht]; [done|by eapply IH]. }
  intros Hch Hu Hb. pose proof (Hsane _ _ Hch) as Hs. clear Hch Hsane. revert s issued Hu Hb Hs.
  induction ops as [|op ops IH]; intros s issued Hu Hb Hs; cbn.
  - split; [done|]. intros r Hr. destruct (Hb r Hr) as (t0 & e & H1 & H2). exists t0, e. split; [by left|done].
  - destruct (IH (run_op op s) (λ p, issued p ∨ op_issues op = Some p)) as [H1 H2].
    + by apply op_unique.
    + apply op_rows; [|done]. intros t Ht. apply Hs. cbn. apply elem_of_app. by left.
    + intros t Ht. apply Hs. cbn. apply elem_of_app. by right.
    + split; [done|]. intros r Hr. destruct (H2 r Hr) as (t0 & e & [[Hi|Hi]|(op' & Hop & Hi)] & Hrest);
        exists t0, e; (split; [|done]); [by left|right; exists op; split; [left|done]|right; exists op'; split; [by right|done]].
Qed.

Lemma guard_err_ok {A} b e (k : res A) x : (guard_err b e ;;! k) = Ok x → b = false ∧ k = Ok x.
Proof. by destruct b. Qed.

Lemma validated_row token csrf m now s :
  ValidateSession token csrf m now s = Ok tt →
  ∃ r, find_session token s = Some r ∧ still_open (ss_expires_at r) now = true ∧ (m = true → ss_csrf_token r = csrf).
Proof.
  unfold ValidateSession. intros [_ H]%guard_err_ok. destruct (find_session token s) as [r|]; [|discriminate H].
  exists r. split; [done|]. apply guard_err_ok in H as [H1 H2]. bool_prop. split; [done|]. intros ->.
  unfold guard_err in H2. destruct (negb _) eqn:E; [discriminate H2|]. by bool_prop.
Qed.

(** A token that no stored session has. *)
Lemma no_session token s : find_session token s = None ↔ ∀ r, r ∈ ac_sessions s → ss_token_hash r ≠ token_digest token.
Proof.
  unfold find_session. split.
  - intros H r Hr. pose proof (sql_row_none _ _ H r Hr) as E. by apply String.eqb_neq in E.
  - intros H. destruct (sql_row _ _) as [r|] eqn:E; [|done]. apply sql_row_spec in E as [Hr E]. bool_prop. by destruct (H r Hr).
Qed.

Lemma logged_out token s : snd (Logout token s) = Ok tt → find_session token (fst (Logout token s)) = None.
Proof.
  unfold Logout. destruct (token =?s ""); [discriminate|]. destruct (negb _); [discriminate|]. intros _.
  apply no_session. cbn. intros r [_ H]%list_elem_of_In%filter_In. apply negb_true_iff in H. by apply String.eqb_neq in H.
Qed.

Lemma password_change_revokes own current new salt now s token r r' :
  unique_tokens s → snd (ChangePassword own current new salt now s) = Ok tt → token_digest token ≠ token_digest own →
  find_session token s = Some r → find_session own s = Some r' → ss_admin_id r = ss_admin_id r' →
  find_session token (fst (ChangePassword own current new salt now s)) = None.
Proof.
  intros Hu Hok Hne Hr Hr' Ha. unfold ChangePassword in *. repeat (case_match; try discriminate Hok).
  apply no_session. cbn. intros x [Hx Hf]%list_elem_of_In%filter_In Ex. apply list_elem_of_In in Hx.
  simplify_eq. apply sql_row_spec in Hr as [Hin Hh].
  match goal with H : sql_row _ (ac_admins s) = Some _ |- _ => apply sql_row_spec in H as [_ Hid] end. bool_prop.
  assert (x = r) as ->; [eapply (nodup_key_eq ss_token_hash); [exact Hu|done|done|congruence]|].
  apply andb_false_iff in Hf as [Hf|Hf]; bool_prop; congruence.
Qed.

(** C27 -- Sessions end: over any sequence of requests, (1) a token is accepted only for a
    session that was made by a sign-in or the setup, and less than seven days after it,
    however often it was renewed; (2) signing out removes the session, and a change of
    the password removes every other session of the administrator; and (3) a token
    without a session is refused after any further requests, unless the same token is
    drawn again. *)
Theorem sessions_end ops1 ops2 token :
  chronological 0 (concat (map op_clock ops1)) → chronological 0 (concat (map op_clock ops2)) →
  let s := run_ops ops1 no_access in
  (∀ csrf m now, ValidateSession token csrf m now s = Ok tt →
     ∃ op t0, op ∈ ops1 ∧ op_issues op = Some (token_digest token, t0) ∧ now < t0 + 7 * 24 * hour) ∧
  (snd (Logout token s) = Ok tt → find_session token (fst (Logout token s)) = None) ∧
  (∀ own current new salt now r r', snd (ChangePassword own current new salt now s) = Ok tt →
     token_digest token ≠ token_digest own → find_session token s = Some r → find_session own s = Some r' →
     ss_admin_id r = ss_admin_id r' → find_session token (fst (ChangePassword own current new salt now s)) = None) ∧
  (∀ s', (s' = s ∨ s' = fst (Logout token s) ∨ (∃ own c n salt now, s' = fst (ChangePassword own c n salt now s))) →
     find_session token s' = None → (∀ op t, op ∈ ops2 → op_issues op ≠ Some (token_digest token, t)) →
     ∀ csrf m now, ValidateSession token csrf m now (run_ops ops2 s') ≠ Ok tt).
Proof.
  intros Hc1 Hc2 s.
  destruct (run_ops_ok ops1 no_access (λ _, False) 0 Hc1) as [Hu Hb]; [apply NoDup_nil_2|intros r Hr; by apply not_elem_of_nil in Hr|].
  fold s in Hu, Hb. split; [|split; [apply logged_out|split; [intros; by eapply password_change_revokes|]]].
  - intros csrf m now (r & Hr & Ho & _)%validated_row. apply sql_row_spec in Hr as [Hin Hh]. bool_prop.
    destruct (bounded_expiry _ r (Hb r Hin)) as (t0 & e & [[]|(op & Hop & Hi)] & _ & _ & _ & Hp & He).
    exists op, t0. split; [done|]. split; [congruence|]. unfold still_open in Ho. rewrite Hp in Ho. bool_prop.
    unfold sessionMaximumLifetime in He. lia.
  - intros s' Hs' Hno Hfresh csrf m now (r & Hr & _)%validated_row.
    assert (unique_tokens s' ∧ ∀ x, x ∈ ac_sessions s' → x ∈ ac_sessions s) as [Hu' Hsub].
    { destruct Hs' as [->|[->|(own & c & n & salt & t & ->)]]; [done| |].
      - split; [apply (op_unique (OpLogout token) s Hu)|]. unfold Logout. intros x. repeat case_match; cbn; try done;
          intros [Hx _]%list_elem_of_In%filter_In; by apply list_elem_of_In.
      - split; [apply (op_unique (OpChangePassword own c n salt t) s Hu)|]. unfold ChangePassword. intros x.
        repeat (case_match; try done). cbn. intros [Hx _]%list_elem_of_In%filter_In. by apply list_elem_of_In. }
    destruct (run_ops_ok ops2 s' (λ p, fst p ≠ token_digest token) 0 Hc2 Hu') as [_ Hb'].
    { intros x Hx. destruct (Hb x (Hsub x Hx)) as (t0 & e & _ & Hrest). exists t0, e. split; [|done].
      by apply (proj1 (no_session token s') Hno). }
    apply sql_row_spec in Hr as [Hin Hh]. bool_prop.
    destruct (Hb' r Hin) as (t0 & e & [Hi|(op & Hop & Hi)] & _); [done|].
    rewrite Hh in Hi. by apply (Hfresh op t0 Hop).
Qed.
End Requests.

(** ** An account under attack *)
Module Attack.
Fixpoint write_bits (s : string) : string :=
  match s with
  | "" => ""
  | String (Ascii a b c d e f g h) s' =>
      let bit (x : bool) r := String (if x then "1" else "0")%char r in
      bit a (bit b (bit c (bit d (bit e (bit f (bit g (bit h (write_bits s'))))))))
  end.

Fixpoint read_bits (s : string) : string :=
  match s with
  | String a (String b (String c (String d (String e (String f (String g (String h s'))))))) =>
      let bit x := Ascii.eqb x "1" in
      String (Ascii (bit a) (bit b) (bit c) (bit d) (bit e) (bit f) (bit g) (bit h)) (read_bits s')
  | _ => ""
  end.

Lemma read_write_bits s : read_bits (write_bits s) = s.
Proof.
  induction s as [|[a b c d e f g h] s IH]; [done|]. cbn [write_bits read_bits]. rewrite IH.
  by destruct a, b, c, d, e, f, g, h.
Qed.

Lemma write_bits_plain s : contains_any (write_bits s) ["$"%char] = false.
Proof.
  induction s as [|[a b c d e f g h] s IH]; [done|]. cbn [write_bits contains_any]. rewrite IH.
  by destruct a, b, c, d, e, f, g, h.
Qed.

#[global] Program Instance password_hash : PasswordHash := {|
  argon2id p s := if p =?s "correct horse" then "0123456789abcdef0123456789abcdef" else "fedcba9876543210fedcba9876543210";
  base64 := write_bits;
  base64_decode s := Some (read_bits s);
  hmac_hex s := s;
  token_digest s := "digest-" +:+ s
|}.
Next Obligation. intros p s. cbn. by destruct (p =?s "correct horse"). Qed.
Next Obligation. intros s. cbn. by rewrite read_write_bits. Qed.
Next Obligation. apply write_bits_plain. Qed.

Definition start : Z := 1767225600 * second.
Definition setup : access_op :=
  OpSetup "Admin" "correct horse" "salt" "admin-1" (mk_tokens "first" "csrf") start.
Definition try_at (t : Z) (password : string) : access_op :=
  OpLogin (mk_login " admin " password (Ok ("192.0.2.1", false)) true (mk_tokens "second" "csrf")
             (start + t * second) (start + t * second) (start + t * second)).

(** As fast as the throttle admits; the attempts after 1, 8 and 40 seconds are turned away. *)
Definition attempts : list access_op :=
  setup :: map (λ t, try_at t "guess") [0; 1; 2; 6; 8; 14; 30; 40; 930; 932; 936; 944; 960].

Example throttled_attempts :
  map (λ t, (t - start) / second) (guesses (account_key "Admin") attempts no_access []) =
  [0; 2; 6; 14; 30; 930; 932; 936; 944; 960].
Proof. vm_compute. reflexivity. Qed.

Example signs_in_again : snd (handleLogin (match try_at 2000 "correct horse" with OpLogin l => l | _ => mk_login "" "" (Err "") false (mk_tokens "" "") 0 0 0 end)
  (run_ops attempts no_access)) = SignedIn.
Proof. vm_compute. reflexivity. Qed.

Lemma chronological_attempts : chronological 0 (concat (map op_clock attempts)).
Proof. cbn. unfold sane, start, second. lia. Qed.

Lemma guesses_are_throttled_witness :
  guesses (account_key "Admin") attempts no_access [] !! 0%nat = Some start ∧
  start + 15 * minute <= start + 944 * second.
Proof.
  split; [vm_compute; reflexivity|].
  apply (proj2 (guesses_are_throttled "Admin" attempts ltac:(vm_compute; reflexivity) chronological_attempts) 0%nat);
    vm_compute; reflexivity.
Defined.

Lemma sessions_end_witness :
  ValidateSession "first" "csrf" true (start + hour) (run_ops attempts no_access) = Ok tt ∧
  (∃ op t0, op ∈ attempts ∧ op_issues op = Some ("digest-first", t0) ∧ start + hour < t0 + 7 * 24 * hour) ∧
  ValidateSession "first" "csrf" true (start + hour) (run_ops [try_at 3000 "correct horse"] (fst (Logout "first" (run_ops attempts no_access))))
    ≠ Ok tt.
Proof.
  assert (ValidateSession "first" "csrf" true (start + hour) (run_ops attempts no_access) = Ok tt) as Hv
    by (vm_compute; reflexivity).
  assert (chronological 0 (concat (map op_clock [try_at 3000 "correct horse"]))) as Hc
    by (cbn; unfold sane, start, second; lia).
  destruct (sessions_end attempts [try_at 3000 "correct horse"] "first" chronological_attempts Hc) as (H1 & H2 & _ & H4).
  split; [exact Hv|]. split; [exact (H1 "csrf" true (start + hour) Hv)|].
  apply H4; [right; left; reflexivity|apply H2; vm_compute; reflexivity|].
  intros op t Hop. apply list_elem_of_singleton in Hop. subst op. discriminate.
Defined.
End Attack.
