(* ===== verification/Vault.v ===== *)
(** * Sealed secrets and their one-time delivery

    internal/center/secret_delivery.go, store_secrets.go and deployment_config.go: the
    table of sealed secrets, the credentials of deployments, and the deliveries that show
    a secret to one operation of one administrator until it is acknowledged.  The rows
    keep the columns that these operations read.  Random identifiers are arguments, and
    so is the clock: its readings within one operation only fill columns that are not
    compared here.  Digests are the texts of [sha256_hex]. *)
From Stdlib Require Import Ascii.
From S2P Require Import Prelude GoText GoTime Execution Admin.
From S2P Require Ingress.

(** ** Tables *)
Record secret_row := mk_secret { sc_id : string; sc_sealed : string; sc_created_at : string; sc_updated_at : string }.

Record delivery_row := mk_delivery {
  sd_kind : string; sd_owner_id : string; sd_operation_key_hash : string; sd_request_hash : string;
  sd_resource_id : string; sd_state : string; sd_created_at : string; sd_updated_at : string
}.

Record deployment_row := mk_deployment {
  dp_id : string; dp_agent_id : string; dp_app_key : string; dp_operation : string; dp_state : string;
  dp_reconciliation_required : bool; dp_secret_id : option string; dp_application_id : string; dp_error : string;
  dp_created_at : string; dp_updated_at : string
}.

Record application_row := mk_application {
  ap_id : string; ap_node_id : string; ap_app_key : string; ap_role : string; ap_status : string
}.

Record command_row := mk_command { cm_id : string; cm_state : string; cm_result_secret_id : option string }.

(** [credentialRotationRecord], without the agent of its application. *)
Record rotation_row := mk_rotation {
  rt_id : string; rt_application_id : string; rt_admin_id : string; rt_operation_key_hash : string;
  rt_request_hash : string; rt_target : string; rt_secret_id : option string; rt_cpa_deployment_id : string;
  rt_keeper_deployment_id : string; rt_state : string; rt_last_error : string; rt_created_at : string;
  rt_updated_at : string
}.

Record audit_row := mk_audit {
  au_task_id : string; au_agent_id : string; au_kind : string; au_event : string; au_message : string
}.

Record vault := mk_vault {
  vt_secrets : list secret_row; vt_deliveries : list delivery_row; vt_deployments : list deployment_row;
  vt_applications : list application_row; vt_commands : list command_row; vt_rotations : list rotation_row;
  vt_events : list audit_row
}.

Definition with_secrets l v := mk_vault l (vt_deliveries v) (vt_deployments v) (vt_applications v) (vt_commands v) (vt_rotations v) (vt_events v).
Definition with_deliveries l v := mk_vault (vt_secrets v) l (vt_deployments v) (vt_applications v) (vt_commands v) (vt_rotations v) (vt_events v).
Definition with_deployments l v := mk_vault (vt_secrets v) (vt_deliveries v) l (vt_applications v) (vt_commands v) (vt_rotations v) (vt_events v).
Definition with_commands l v := mk_vault (vt_secrets v) (vt_deliveries v) (vt_deployments v) (vt_applications v) l (vt_rotations v) (vt_events v).
Definition with_rotations l v := mk_vault (vt_secrets v) (vt_deliveries v) (vt_deployments v) (vt_applications v) (vt_commands v) l (vt_events v).
Definition with_events l v := mk_vault (vt_secrets v) (vt_deliveries v) (vt_deployments v) (vt_applications v) (vt_commands v) (vt_rotations v) l.

(** ** Operations on the tables

    [V A]: the tables that are left, and the result or the error.  [vtx] is a
    transaction. *)
Definition V (A : Type) : Type := vault → vault * res A.
Definition vok {A} (a : A) : V A := λ v, (v, Ok a).
Definition verr {A} (e : string) : V A := λ v, (v, Err e).
Definition vbind {A B} (m : V A) (k : A → V B) : V B :=
  λ v, match m v with (v', Ok a) => k a v' | (v', Err e) => (v', Err e) end.
Definition vread {A} (f : vault → res A) : V A := λ v, (v, f v).
Definition vget {A} (f : vault → A) : V A := λ v, (v, Ok (f v)).
Definition vset (f : vault → vault) : V unit := λ v, (f v, Ok tt).
Definition vfail_if (b : bool) (e : string) : V unit := if b then verr e else vok tt.
Definition vtx {A} (m : V A) : V A :=
  λ v, match m v with (v', Ok a) => (v', Ok a) | (_, Err e) => (v, Err e) end.

Notation "'get!' x ':=' m 'in' k" := (vbind m (fun x => k))
  (at level 10, x pattern, m at level 100, k at level 200) : go_scope.
Notation "m ';;>' k" := (vbind m (fun _ => k)) (at level 199, right associativity) : go_scope.

(** ** Formats *)
Record cpaCredentialValues := mk_cpa { cv_management_key : string; cv_api_key : string }.

#[global] Instance cpa_eq_dec : EqDecision cpaCredentialValues.
Proof. solve_decision. Defined.

(** The fields of [DeploymentRequest] that identify a request for credentials. *)
Record credential_request := mk_credential_request {
  cq_agent_id : string; cq_app_key : string; cq_role : string; cq_config : string; cq_operation : string;
  cq_delete_data : bool; cq_registry_credential_id : option string
}.

(** JSON of the structures that are sealed; an object of strings is a map. *)
Class SecretCodec := {
  values_of_json : string → option (gmap string string);
  cpa_json : cpaCredentialValues → string;
  cpa_of_json : string → option cpaCredentialValues;
  cpa_round_trip : ∀ c, cpa_of_json (cpa_json c) = Some c;
  cpa_json_fields : ∀ c, cpa_json c ≠ "" ∧ cpa_json c ≠ "{}";
  (* the canonical payload of [deploymentSecretRequestHash], [None] when the
     configuration does not decode *)
  request_payload : credential_request → option string;
  (* a JSON object with one text field set *)
  object_with : string → string → string → option string
}.

Section Vault.
Context {L : Libraries} {J : SecretCodec} {P : PasswordHash}.

(** ** Secrets *)
Definition putSecret (id value additionalData : string) (now : Z) : V string :=
  get! taken := vget (λ v, sql_exists (λ r, sc_id r =?s id) (vt_secrets v)) in
  vfail_if taken "center: save secret" ;;>
  vset (λ v, with_secrets (vt_secrets v ++ [mk_secret id (seal additionalData value) (rfc3339nano now) (rfc3339nano now)]) v) ;;>
  vok id.

Definition getSecret (id additionalData : string) (v : vault) : res string :=
  match sql_row (λ r, sc_id r =?s id) (vt_secrets v) with
  | None => Err "center: read secret"
  | Some r => match unseal additionalData (sc_sealed r) with
              | Some value => Ok value
              | None => Err "center: decrypt secret"
              end
  end.

(** [DELETE FROM secrets WHERE id = ?]: the references of deployments and rotations
    refuse it, that of a command is set to NULL. *)
Definition delete_secret (id : string) : V unit :=
  get! used := vget (λ v, sql_exists (λ r, bool_decide (dp_secret_id r = Some id)) (vt_deployments v)
                          || sql_exists (λ r, bool_decide (rt_secret_id r = Some id)) (vt_rotations v)) in
  vfail_if used "FOREIGN KEY constraint failed" ;;>
  vset (λ v, with_commands (sql_update (λ r, bool_decide (cm_result_secret_id r = Some id))
                              (λ r, mk_command (cm_id r) (cm_state r) None) (vt_commands v))
               (with_secrets (List.filter (λ r, negb (sc_id r =?s id)) (vt_secrets v)) v)).

Definition vault_event (taskID agentID kind event message : string) : V unit :=
  let m := trim_space message in
  let m := if 1024 <? str_len m then String.substring 0 1024 m else m in
  vset (λ v, with_events (vt_events v ++ [mk_audit taskID agentID kind event m]) v).

(** ** Deliveries *)
Definition deploymentCredentialsDelivery : string := "deployment_credentials".
Definition applicationCommandDelivery : string := "application_command_result".

(** [secretOperationKeyPattern]. *)
Definition secretOperationKeyPattern (s : string) : bool :=
  forallb (name_char false) (bytes_of s) && (16 <=? str_len s) && (str_len s <=? 128).

Definition normalizeSecretOperation (ownerID operationKey : string) : res (string * string) :=
  let ownerID := trim_space ownerID in
  let operationKey := trim_space operationKey in
  guard_err ((ownerID =?s "") || (256 <? str_len ownerID)) "center: authenticated secret delivery owner is required" ;;!
  guard_err (negb (secretOperationKeyPattern operationKey))
    "center: Idempotency-Key must contain 16 to 128 letters, digits, dots, underscores, or hyphens" ;;!
  Ok (ownerID, sha256_hex operationKey).

Definition deploymentSecretRequestHash (q : credential_request) : res string :=
  match request_payload q with
  | Some encoded => Ok (sha256_hex encoded)
  | None => Err "center: deployment configuration must be valid JSON"
  end.

Definition commandSecretRequestHash (commandID : string) : string :=
  sha256_hex (applicationCommandDelivery +:+ ":" +:+ commandID).

Definition readSecretDelivery (kind ownerID operationKeyHash : string) (v : vault) : option delivery_row :=
  sql_row (λ r, (sd_kind r =?s kind) && (sd_owner_id r =?s ownerID) && (sd_operation_key_hash r =?s operationKeyHash))
    (vt_deliveries v).

(** The primary key is the operation; a resource has one delivery. *)
Definition insertSecretDelivery (kind ownerID operationKeyHash requestHash resourceID : string) (now : Z) : V unit :=
  get! taken := vget (λ v, sql_exists (λ r, (sd_kind r =?s kind)
                  && ((sd_owner_id r =?s ownerID) && (sd_operation_key_hash r =?s operationKeyHash)
                      || (sd_resource_id r =?s resourceID))) (vt_deliveries v)) in
  vfail_if taken "center: create secret delivery" ;;>
  vset (λ v, with_deliveries (vt_deliveries v ++
               [mk_delivery kind ownerID operationKeyHash requestHash resourceID "pending" (rfc3339nano now) (rfc3339nano now)]) v).

Definition validateSecretDelivery (delivery : delivery_row) (resourceID requestHash : string) : res unit :=
  guard_err (negb (sd_resource_id delivery =?s resourceID) || negb (sd_request_hash delivery =?s requestHash))
    "center: Idempotency-Key was already used for a different operation" ;;!
  guard_err (negb (sd_state delivery =?s "pending")) "center: one-time result was already acknowledged".

(** ** Credentials of a deployment *)
Definition keeperAppKey : string := "vastora-official/keeper".
Definition threeXUIRoleMaster : string := "master".

Definition errDeploymentNotFound : string := "center: deployment not found".

Definition deploymentByID (id : string) (v : vault) : res deployment_row :=
  match sql_row (λ r, dp_id r =?s id) (vt_deployments v) with
  | Some r => Ok r
  | None => Err errDeploymentNotFound
  end.

(** The text of a field, [values[key]] of a map of strings. *)
Definition field (m : gmap string string) (key : string) : string := default "" (m !! key).

Definition deploymentCredentials (deploymentID : string) (v : vault) : res (string * string) :=
  match sql_row (λ r, dp_id r =?s deploymentID) (vt_deployments v) with
  | None => Err "center: one-time deployment credentials are unavailable"
  | Some d =>
      match dp_secret_id d with
      | None => Err "center: one-time deployment credentials are unavailable"
      | Some secretID =>
          match sql_row (λ r, sc_id r =?s secretID) (vt_secrets v) with
          | None => Err "center: one-time deployment credentials are unavailable"
          | Some r =>
              match unseal ("deployment:" +:+ deploymentID) (sc_sealed r) with
              | None => Err "center: one-time deployment credentials are invalid"
              | Some plain =>
                  match values_of_json plain with
                  | None => Err "center: one-time deployment credentials are invalid"
                  | Some m =>
                      if (dp_app_key d =?s Ingress.threeXUIAppKey) && (dp_operation d =?s "install")
                         && negb (trim_space (field m "username") =?s "") && negb (trim_space (field m "password") =?s "")
                      then Ok (field m "username", field m "password")
                      else Err "center: one-time deployment credentials are invalid"
                  end
              end
          end
      end
  end.

(** A repeated request: the deployment and its credentials, or nothing to repeat. *)
Definition replayDeploymentCredentials (ownerID operationKeyHash requestHash : string) (v : vault)
    : res (option (deployment_row * (string * string))) :=
  match readSecretDelivery deploymentCredentialsDelivery ownerID operationKeyHash v with
  | None => Ok None
  | Some delivery =>
      validateSecretDelivery delivery (sd_resource_id delivery) requestHash ;;!
      let! deployment := deploymentByID (sd_resource_id delivery) v in
      let! credentials := deploymentCredentials (sd_resource_id delivery) v in
      Ok (Some (deployment, credentials))
  end.

Definition RevealDeploymentCredentials (deploymentID ownerID operationKey : string) (v : vault) : res (string * string) :=
  let! op := normalizeSecretOperation ownerID operationKey in
  match readSecretDelivery deploymentCredentialsDelivery (fst op) (snd op) v with
  | None => Err "center: one-time deployment credentials are unavailable"
  | Some delivery =>
      guard_err (negb (sd_resource_id delivery =?s trim_space deploymentID) || negb (sd_state delivery =?s "pending"))
        "center: one-time deployment credentials are unavailable" ;;!
      deploymentCredentials (sd_resource_id delivery) v
  end.

Definition acknowledge (now : Z) (r : delivery_row) : delivery_row :=
  mk_delivery (sd_kind r) (sd_owner_id r) (sd_operation_key_hash r) (sd_request_hash r) (sd_resource_id r)
    "acknowledged" (sd_created_at r) (rfc3339nano now).

Definition AcknowledgeDeploymentCredentials (deploymentID ownerID operationKey : string) (now : Z) : V unit :=
  get! op := vread (λ _, normalizeSecretOperation ownerID operationKey) in
  let wh r := (sd_kind r =?s deploymentCredentialsDelivery) && (sd_owner_id r =?s fst op)
              && (sd_operation_key_hash r =?s snd op) && (sd_resource_id r =?s trim_space deploymentID)
              && (sd_state r =?s "pending") in
  get! changed := vget (λ v, sql_affected wh (vt_deliveries v)) in
  vset (λ v, with_deliveries (sql_update wh (acknowledge now) (vt_deliveries v)) v) ;;>
  vfail_if (negb (changed =? 1)) "center: one-time deployment credentials are unavailable".

(** ** Results of commands *)
Definition RevealApplicationCommandResult (commandID ownerID operationKey : string) (now : Z) : V string :=
  let commandID := trim_space commandID in
  get! op := vread (λ _, normalizeSecretOperation ownerID operationKey) in
  let requestHash := commandSecretRequestHash commandID in
  vtx (
    get! delivery := vget (readSecretDelivery applicationCommandDelivery (fst op) (snd op)) in
    (match delivery with
     | Some d => vread (λ _, validateSecretDelivery d commandID requestHash)
     | None =>
         get! owned := vget (λ v, sql_exists (λ r, (sd_kind r =?s applicationCommandDelivery)
                                                   && (sd_resource_id r =?s commandID)) (vt_deliveries v)) in
         vfail_if owned "center: one-time application result is owned by a different delivery operation" ;;>
         insertSecretDelivery applicationCommandDelivery (fst op) (snd op) requestHash commandID now
     end) ;;>
    vread (λ v,
      match sql_row (λ r, (cm_id r =?s commandID) && (cm_state r =?s "succeeded")) (vt_commands v) with
      | Some c =>
          match cm_result_secret_id c with
          | Some secretID =>
              match sql_row (λ r, sc_id r =?s secretID) (vt_secrets v) with
              | Some r => match unseal ("application-command:" +:+ commandID) (sc_sealed r) with
                          | Some plain => Ok plain
                          | None => Err "center: one-time application result is invalid"
                          end
              | None => Err "center: one-time application result is unavailable"
              end
          | None => Err "center: one-time application result is unavailable"
          end
      | None => Err "center: one-time application result is unavailable"
      end)).

Definition AcknowledgeApplicationCommandResult (commandID ownerID operationKey : string) (now : Z) : V unit :=
  let commandID := trim_space commandID in
  get! op := vread (λ _, normalizeSecretOperation ownerID operationKey) in
  vtx (
    get! delivery := vget (readSecretDelivery applicationCommandDelivery (fst op) (snd op)) in
    vfail_if (match delivery with
              | Some d => negb (is_ok (validateSecretDelivery d commandID (commandSecretRequestHash commandID)))
              | None => true
              end) "center: one-time application result is unavailable" ;;>
    get! secretID := vread (λ v,
      match sql_row (λ r, (cm_id r =?s commandID) && (cm_state r =?s "succeeded")
                          && is_Some_b (cm_result_secret_id r)) (vt_commands v) with
      | Some c => Ok (default "" (cm_result_secret_id c))
      | None => Err "center: one-time application result is unavailable"
      end) in
    vset (λ v, with_commands (sql_update (λ r, cm_id r =?s commandID) (λ r, mk_command (cm_id r) (cm_state r) None)
                                (vt_commands v)) v) ;;>
    delete_secret secretID ;;>
    vset (λ v, with_deliveries (sql_update (λ r, (sd_kind r =?s applicationCommandDelivery) && (sd_owner_id r =?s fst op)
                                                 && (sd_operation_key_hash r =?s snd op))
                                  (acknowledge now) (vt_deliveries v)) v)).

(** ** Stored credentials of an application *)

(** [ORDER BY updated_at DESC, rowid DESC LIMIT 1]. *)
Definition latest {A} (key : A → string) (l : list A) : option A :=
  fold_left (λ best r, match best with
                       | Some b => if key b <=?s key r then Some r else Some b
                       | None => Some r
                       end) l None.

Definition decodeCPACredentialValues (raw : string) : res cpaCredentialValues :=
  match cpa_of_json raw with
  | Some c => if (trim_space (cv_management_key c) =?s "") || (trim_space (cv_api_key c) =?s "")
                 || (cv_management_key c =?s cv_api_key c)
              then Err "center: stored CPA credentials are invalid" else Ok c
  | None => Err "center: stored CPA credentials are invalid"
  end.

Inductive ApplicationCredentials :=
| ThreeXUICredentials (username password : string)
| CPACredentials (managementKey clientAPIKey : string).

Definition configured (d : deployment_row) : bool :=
  (dp_state d =?s "succeeded") && str_in (dp_operation d) ["install"; "upgrade"; "configure"] && is_Some_b (dp_secret_id d).

Definition RevealApplicationCredentials (acc : access) (applicationID adminID currentPassword : string)
    : V ApplicationCredentials :=
  vread (λ _, ReauthenticateAdmin adminID currentPassword acc) ;;>
  let applicationID := trim_space applicationID in
  get! found := vread (λ v,
    match sql_row (λ a, (ap_id a =?s applicationID) && negb (ap_status a =?s "stopped")) (vt_applications v) with
    | None => Err "center: stored application credentials are unavailable"
    | Some a =>
        match latest dp_updated_at (List.filter (λ d, (dp_application_id d =?s ap_id a) && configured d) (vt_deployments v)) with
        | None => Err "center: stored application credentials are unavailable"
        | Some d => Ok (a, d)
        end
    end) in
  let '(a, d) := found in
  get! plain := vread (getSecret (default "" (dp_secret_id d)) ("deployment:" +:+ dp_id d)) in
  get! credentials := vread (λ _,
    if ap_app_key a =?s Ingress.threeXUIAppKey then
      guard_err (negb (ap_role a =?s threeXUIRoleMaster)) "center: stored application credentials are unavailable" ;;!
      match values_of_json plain with
      | Some m => if (trim_space (field m "username") =?s "") || (trim_space (field m "password") =?s "")
                  then Err "center: stored 3x-ui credentials are invalid"
                  else Ok (ThreeXUICredentials (field m "username") (field m "password"))
      | None => Err "center: stored 3x-ui credentials are invalid"
      end
    else if ap_app_key a =?s Ingress.cpaAppKey then
      let! c := decodeCPACredentialValues plain in Ok (CPACredentials (cv_management_key c) (cv_api_key c))
    else Err "center: this application does not expose managed credentials") in
  vault_event applicationID (ap_node_id a) "security.credentials.reveal" "succeeded"
    ("current " +:+ ap_app_key a +:+ " credentials revealed after administrator reauthentication by " +:+ adminID) ;;>
  vok credentials.

(** [currentCPACredentials]. *)
Definition currentCPACredentials (agentID : string) (v : vault) : res cpaCredentialValues :=
  match latest dp_updated_at (List.filter (λ d, (dp_agent_id d =?s agentID) && (dp_app_key d =?s Ingress.cpaAppKey) && configured d)
                                (vt_deployments v)) with
  | None => Err "center: previous CPA credentials were not found"
  | Some d =>
      let! plain := getSecret (default "" (dp_secret_id d)) ("deployment:" +:+ dp_id d) v in
      decodeCPACredentialValues plain
  end.

End Vault.
