(* ===== verification/Rotation.v ===== *)
(** * Rotation of the credentials of CPA

    internal/center/application_credentials.go: an administrator replaces the management
    or the client key of a CPA application.  The new credentials are sealed with the
    rotation, installed by a deployment of CPA and, for the management key, by one of its
    Keeper, and forgotten when both have succeeded.  Of CreateDeployment (deployment.go)
    the parts are here that a rotation depends on: the repetition of a deployment by its
    identifier, the fence of active tasks, the secrets and the insertion; what its other
    checks decide is an argument. *)
From Stdlib Require Import Ascii.
From S2P Require Import Prelude GoText GoTime Execution Admin Vault.
From S2P Require Ingress.

(** ** Deployments *)

(** What the checks of [CreateDeployment] that are not modelled decide: those before the
    fence of active tasks, before the secrets and before the insertion; the secrets of
    the configuration, the application, the identifier of the new secret, and the two
    random keys of an installation. *)
Record create_reads := mk_create_reads {
  ce_first : res unit; ce_second : res unit; ce_third : res unit; ce_base : string; ce_application_id : string;
  ce_secret_id : string; ce_tokens : string * string
}.

(** The fields of [DeploymentRequest] of a rotation. *)
Record deployment_request := mk_request {
  rq_id : string; rq_agent_id : string; rq_app_key : string; rq_operation : string;
  rq_cpa_credentials : option cpaCredentialValues; rq_cpa_management_key : string
}.

Section Rotation.
Context {L : Libraries} {J : SecretCodec} {P : PasswordHash}.

(** [activeDeployment(...).Installed]. *)
Definition HasActiveDeployment (agentID appKey : string) (v : vault) : bool :=
  match latest dp_created_at (List.filter (λ d,
          (dp_agent_id d =?s agentID) && (dp_state d =?s "succeeded")
          && sql_exists (λ a, (ap_id a =?s dp_application_id d) && (ap_node_id a =?s dp_agent_id d) && (ap_app_key a =?s appKey))
               (vt_applications v)) (vt_deployments v)) with
  | Some d => str_in (dp_operation d) ["install"; "upgrade"; "configure"]
  | None => false
  end.

(** [tokens] are the random keys of an installation. *)
Definition withCPACredentials (agentID operation : string) (tokens : string * string)
    (overrides : option cpaCredentialValues) (v : vault) : res string :=
  let! current := (if operation =?s "install" then Ok (mk_cpa (fst tokens) (snd tokens))
                   else currentCPACredentials agentID v) in
  let values := default current overrides in
  guard_err ((trim_space (cv_management_key values) =?s "") || (trim_space (cv_api_key values) =?s "")
             || (cv_management_key values =?s cv_api_key values))
    "center: CPA management and client credentials must be distinct non-empty values" ;;!
  Ok (cpa_json values).

Definition withCPASecret (agentID raw managementOverride : string) (v : vault) : res string :=
  guard_err (negb (HasActiveDeployment agentID Ingress.cpaAppKey v))
    "center: Keeper requires a successful CPA installation on this Agent" ;;!
  let! cpa := currentCPACredentials agentID v in
  let managementKey := if negb (trim_space managementOverride =?s "") then managementOverride else cv_management_key cpa in
  match object_with raw "cpa_management_key" managementKey with
  | Some values => Ok values
  | None => Err "center: CPA management key is unavailable"
  end.

(** An unfinished deployment of the application on the node. *)
Definition active_task (agentID appKey : string) (v : vault) : bool :=
  sql_exists (λ d, (dp_agent_id d =?s agentID)
    && ((dp_app_key d =?s appKey)
        || sql_exists (λ a, (ap_id a =?s dp_application_id d) && (ap_node_id a =?s agentID) && (ap_app_key a =?s appKey))
             (vt_applications v))
    && (str_in (dp_state d) ["pending"; "running"] || dp_reconciliation_required d)) (vt_deployments v).

Definition deployment_secrets (rd : create_reads) (q : deployment_request) (v : vault) : res string :=
  let! secrets := (if (rq_app_key q =?s Ingress.cpaAppKey) && negb (rq_operation q =?s "uninstall")
                   then withCPACredentials (rq_agent_id q) (rq_operation q) (ce_tokens rd) (rq_cpa_credentials q) v
                   else Ok (ce_base rd)) in
  if (rq_app_key q =?s keeperAppKey) && negb (rq_operation q =?s "uninstall")
  then withCPASecret (rq_agent_id q) secrets (rq_cpa_management_key q) v else Ok secrets.

(** The new row; [deployments_one_active_task_idx] admits one unfinished deployment. *)
Definition insert_deployment (rd : create_reads) (q : deployment_request) (secrets : string) (now : Z) : V unit :=
  vtx (
    get! secretID := (if negb (secrets =?s "") && negb (secrets =?s "{}")
                      then get! id := putSecret (ce_secret_id rd) secrets ("deployment:" +:+ rq_id q) now in vok (Some id)
                      else vok None) in
    get! refused := vget (λ v, sql_exists (λ d, dp_id d =?s rq_id q) (vt_deployments v)
      || sql_exists (λ d, (dp_agent_id d =?s rq_agent_id q) && (dp_app_key d =?s rq_app_key q)
                          && (str_in (dp_state d) ["pending"; "running"] || dp_reconciliation_required d)) (vt_deployments v)) in
    vfail_if refused "center: create deployment" ;;>
    vset (λ v, with_deployments (vt_deployments v ++
      [mk_deployment (rq_id q) (rq_agent_id q) (rq_app_key q) (rq_operation q) "pending" false secretID
         (ce_application_id rd) "" (rfc3339nano now) (rfc3339nano now)]) v)).

Definition CreateDeployment (rd : create_reads) (q : deployment_request) (now : Z) : V unit :=
  get! replay := vget (λ v, negb (rq_id q =?s "") && is_ok (deploymentByID (rq_id q) v)) in
  if replay then vok tt
  else
    vread (λ _, ce_first rd) ;;>
    get! active := vget (active_task (rq_agent_id q) (rq_app_key q)) in
    vfail_if active "center: this app already has an active deployment task on the target Agent" ;;>
    vread (λ _, ce_second rd) ;;>
    get! secrets := vread (deployment_secrets rd q) in
    vread (λ _, ce_third rd) ;;>
    insert_deployment rd q secrets now.

(** ** Rotations *)
Definition applicationCredentialRotationHash (applicationID target : string) : string :=
  sha256_hex (trim_space applicationID +:+ String (ascii_of_nat 0) "" +:+ trim_space target).

(** The rotation and the node of its application. *)
Definition joined_rotation (r : rotation_row) (v : vault) : option (rotation_row * string) :=
  match sql_row (λ a, ap_id a =?s rt_application_id r) (vt_applications v) with
  | Some a => Some (r, ap_node_id a)
  | None => None
  end.

Definition credentialRotationByOperation (adminID operationKeyHash : string) (v : vault) : option (rotation_row * string) :=
  match sql_row (λ r, (rt_admin_id r =?s adminID) && (rt_operation_key_hash r =?s operationKeyHash)) (vt_rotations v) with
  | Some r => joined_rotation r v
  | None => None
  end.

Definition credentialRotationByDeployment (deploymentID : string) (v : vault) : option (rotation_row * string) :=
  match sql_row (λ r, (rt_cpa_deployment_id r =?s deploymentID) || (rt_keeper_deployment_id r =?s deploymentID)) (vt_rotations v) with
  | Some r => joined_rotation r v
  | None => None
  end.

Definition credentialRotationSecrets (r : rotation_row) (v : vault) : res cpaCredentialValues :=
  match rt_secret_id r with
  | None => Err "center: credential rotation secret is no longer available"
  | Some id => let! plain := getSecret id ("credential-rotation:" +:+ rt_id r) v in decodeCPACredentialValues plain
  end.

Definition deploymentState (id : string) (v : vault) : option string :=
  dp_state <$> sql_row (λ d, dp_id d =?s id) (vt_deployments v).

Definition set_rotation (cpa keeper state last_error : string) (secret : option string) (now : Z) (r : rotation_row) : rotation_row :=
  mk_rotation (rt_id r) (rt_application_id r) (rt_admin_id r) (rt_operation_key_hash r) (rt_request_hash r) (rt_target r)
    secret cpa keeper state last_error (rt_created_at r) (rfc3339nano now).

(** [UPDATE application_credential_rotations .. WHERE id = ?]. *)
Definition update_rotation (id : string) (f : rotation_row → rotation_row) : V unit :=
  vset (λ v, with_rotations (sql_update (λ r, rt_id r =?s id) f (vt_rotations v)) v).

(** The unique columns. *)
Definition cpa_taken (id : string) (v : vault) : bool := sql_exists (λ r, rt_cpa_deployment_id r =?s id) (vt_rotations v).
Definition keeper_taken (id : string) (v : vault) : bool :=
  negb (id =?s "") && sql_exists (λ r, rt_keeper_deployment_id r =?s id) (vt_rotations v).

Definition refreshCredentialRotation (id : string) (v : vault) : res rotation_row :=
  match sql_row (λ r, rt_id r =?s id) (vt_rotations v) with
  | Some r => Ok r
  | None => Err "sql: no rows in result set"
  end.

Definition controlCredentialRotationError (e : string) : string :=
  let m := trim_space e in if 1024 <? str_len m then String.substring 0 1024 m else m.

Definition finishCredentialRotation (rotation : rotation_row) (agentID state message : string) (now : Z) : V rotation_row :=
  vfail_if (negb (str_in state ["succeeded"; "failed"; "action_required"])) "center: invalid credential rotation state" ;;>
  vtx (
    let wh r := (rt_id r =?s rt_id rotation) && negb (rt_state r =?s state) in
    get! changed := vget (λ v, sql_affected wh (vt_rotations v)) in
    vset (λ v, with_rotations (sql_update wh (λ r,
            set_rotation (rt_cpa_deployment_id r) (rt_keeper_deployment_id r) state message
              (if state =?s "succeeded" then None else rt_secret_id r) now r) (vt_rotations v)) v) ;;>
    if changed =? 0 then vok tt
    else
      (match rt_secret_id rotation with
       | Some id => if state =?s "succeeded" then delete_secret id else vok tt
       | None => vok tt
       end) ;;>
      vault_event (rt_application_id rotation) agentID "security.credentials.rotate"
        (if state =?s "succeeded" then "succeeded" else "failed")
        ("CPA " +:+ rt_target rotation +:+ " credential rotation " +:+ state +:+ " for administrator " +:+ rt_admin_id rotation)) ;;>
  vread (refreshCredentialRotation (rt_id rotation)).

(** The new identifiers of a retry, and what the deployments decide. *)
Record resume_reads := mk_resume_reads {
  rr_cpa_id : string; rr_keeper_id : string; rr_cpa : create_reads; rr_keeper : create_reads
}.

(** [CreateDeployment] that reports its error as a value. *)
Definition try_deployment (rd : create_reads) (q : deployment_request) (now : Z) : V (res unit) :=
  λ v, let '(v', r) := CreateDeployment rd q now v in (v', Ok r).

(** The second half: CPA has accepted the credentials. *)
Definition resume_keeper (rd : resume_reads) (rotation : rotation_row) (agentID : string) (credentials : cpaCredentialValues)
    (retry : bool) (now : Z) : V rotation_row :=
  if rt_keeper_deployment_id rotation =?s "" then finishCredentialRotation rotation agentID "succeeded" "" now
  else
    get! keeperState := vget (deploymentState (rt_keeper_deployment_id rotation)) in
    let retried := bool_decide (keeperState = Some "failed") && retry in
    let keeperID := if retried then rr_keeper_id rd else rt_keeper_deployment_id rotation in
    (if retried then
       get! taken := vget (keeper_taken keeperID) in
       vfail_if taken "UNIQUE constraint failed" ;;>
       update_rotation (rt_id rotation) (λ r, set_rotation (rt_cpa_deployment_id r) keeperID "pending" "" (rt_secret_id r) now r)
     else vok tt) ;;>
    get! created := (if retried || negb (is_Some_b keeperState)
                     then get! r := try_deployment (rr_keeper rd)
                            (mk_request keeperID agentID keeperAppKey "configure" None (cv_management_key credentials)) now in
                          vok (Some r)
                     else vok None) in
    match created with
    | Some (Err e) => finishCredentialRotation rotation agentID "action_required" (controlCredentialRotationError e) now
    | Some (Ok _) => vread (refreshCredentialRotation (rt_id rotation))
    | None =>
        if bool_decide (keeperState = Some "pending") || bool_decide (keeperState = Some "running")
        then vread (refreshCredentialRotation (rt_id rotation))
        else if bool_decide (keeperState = Some "failed")
        then finishCredentialRotation rotation agentID "action_required" "Keeper rejected the rotated CPA management credential" now
        else finishCredentialRotation rotation agentID "succeeded" "" now
    end.

Definition resumeCredentialRotation (rd : resume_reads) (rotation : rotation_row) (agentID : string) (retry : bool) (now : Z)
    : V rotation_row :=
  if rt_state rotation =?s "succeeded" then vok rotation
  else
    get! credentials := vread (credentialRotationSecrets rotation) in
    get! cpaState := vget (deploymentState (rt_cpa_deployment_id rotation)) in
    let retried := bool_decide (cpaState = Some "failed") && retry in
    let cpaID := if retried then rr_cpa_id rd else rt_cpa_deployment_id rotation in
    (if retried then
       get! taken := vget (cpa_taken cpaID) in
       vfail_if taken "UNIQUE constraint failed" ;;>
       update_rotation (rt_id rotation) (λ r, set_rotation cpaID (rt_keeper_deployment_id r) "preparing" "" (rt_secret_id r) now r)
     else vok tt) ;;>
    get! created := (if retried || negb (is_Some_b cpaState)
                     then get! r := try_deployment (rr_cpa rd)
                            (mk_request cpaID agentID Ingress.cpaAppKey "configure" (Some credentials) "") now in
                          vok (Some r)
                     else vok None) in
    match created with
    | Some (Err e) => finishCredentialRotation rotation agentID "failed" (controlCredentialRotationError e) now
    | Some (Ok _) =>
        update_rotation (rt_id rotation) (λ r, set_rotation (rt_cpa_deployment_id r) (rt_keeper_deployment_id r) "pending"
                                                 (rt_last_error r) (rt_secret_id r) now r) ;;>
        vread (refreshCredentialRotation (rt_id rotation))
    | None =>
        if bool_decide (cpaState = Some "pending") || bool_decide (cpaState = Some "running")
        then vread (refreshCredentialRotation (rt_id rotation))
        else if bool_decide (cpaState = Some "failed")
        then finishCredentialRotation rotation agentID "failed" "CPA rejected the rotated credential" now
        else resume_keeper rd rotation agentID credentials retry now
    end.

(** After the result of a deployment was committed. *)
Definition resumeCredentialRotationForDeployment (rd : resume_reads) (deploymentID : string) (now : Z) : V unit :=
  get! found := vget (credentialRotationByDeployment deploymentID) in
  match found with
  | Some (rotation, agentID) => λ v, (fst (resumeCredentialRotation rd rotation agentID false now v), Ok tt)
  | None => vok tt
  end.

(** The random values of a new rotation. *)
Record rotation_ids := mk_rotation_ids {
  ri_replacement : string; ri_rotation : string; ri_cpa : string; ri_keeper : string; ri_secret : string
}.

Definition rejected_attempt {A} (applicationID agentID adminID target message : string) (e : string) : V A :=
  vault_event applicationID agentID "security.credentials.rotate" "failed"
    ("CPA " +:+ target +:+ " credential rotation rejected for administrator " +:+ adminID +:+ ": " +:+ message) ;;>
  verr e.

Definition active_rotation (r : rotation_row) : bool := str_in (rt_state r) ["preparing"; "pending"; "action_required"].

(** The constraints of the table: a known administrator, and unused keys. *)
Definition insert_rotation (acc : access) (r : rotation_row) : V unit :=
  get! refused := vget (λ v, negb (sql_exists (λ a, ad_id a =?s rt_admin_id r) (ac_admins acc))
    || sql_exists (λ x, (rt_id x =?s rt_id r)
         || (rt_admin_id x =?s rt_admin_id r) && (rt_operation_key_hash x =?s rt_operation_key_hash r)
         || (rt_cpa_deployment_id x =?s rt_cpa_deployment_id r)
         || negb (rt_keeper_deployment_id r =?s "") && (rt_keeper_deployment_id x =?s rt_keeper_deployment_id r)) (vt_rotations v)) in
  vfail_if refused "center: create application credential rotation" ;;>
  vset (λ v, with_rotations (vt_rotations v ++ [r]) v).

Definition create_rotation (acc : access) (ids : rotation_ids) (application : application_row)
    (adminID operationKeyHash requestHash target : string) (credentials : cpaCredentialValues) (keeper : bool) (now : Z) : V unit :=
  vtx (
    get! secretID := putSecret (ri_secret ids) (cpa_json credentials) ("credential-rotation:" +:+ ri_rotation ids) now in
    insert_rotation acc (mk_rotation (ri_rotation ids) (ap_id application) adminID operationKeyHash requestHash target
      (Some secretID) (ri_cpa ids) (if keeper then ri_keeper ids else "") "preparing" "" (rfc3339nano now) (rfc3339nano now)) ;;>
    vault_event (ap_id application) (ap_node_id application) "security.credentials.rotate" "queued"
      ("CPA " +:+ target +:+ " credential rotation requested by administrator " +:+ adminID)).

Definition rotateApplicationCredentials (acc : access) (ids : rotation_ids) (rd : resume_reads)
    (applicationID adminID currentPassword operationKey target : string) (confirm approvalGranted : bool) (now : Z)
    : V rotation_row :=
  let applicationID := trim_space applicationID in
  let target := trim_space target in
  get! application := vread (λ v, match sql_row (λ a, ap_id a =?s applicationID) (vt_applications v) with
                                  | Some a => Ok a
                                  | None => Err "center: application not found"
                                  end) in
  let agentID := ap_node_id application in
  let reject message e := rejected_attempt applicationID agentID adminID target message e in
  if negb (ap_app_key application =?s Ingress.cpaAppKey) || (ap_status application =?s "stopped")
  then reject "application unavailable" "center: CPA credentials are unavailable for this application"
  else if negb (target =?s "management") && negb (target =?s "client")
  then reject "invalid target" "center: credential rotation target must be management or client"
  else if negb confirm
  then reject "confirmation missing" "center: credential rotation requires explicit confirmation"
  else
    match (if approvalGranted then Ok tt else ReauthenticateAdmin adminID currentPassword acc) with
    | Err e => reject "administrator reauthentication failed" e
    | Ok _ =>
        match normalizeSecretOperation adminID operationKey with
        | Err e => rejected_attempt applicationID agentID "" target "invalid idempotency key" e   (* the error clears adminID *)
        | Ok (adminID, operationKeyHash) =>
            let requestHash := applicationCredentialRotationHash applicationID target in
            get! existing := vget (credentialRotationByOperation adminID operationKeyHash) in
            match existing with
            | Some (rotation, agent) =>
                vfail_if (negb (rt_application_id rotation =?s applicationID) || negb (rt_request_hash rotation =?s requestHash))
                  "center: Idempotency-Key was already used for a different credential rotation" ;;>
                resumeCredentialRotation rd rotation agent true now
            | None =>
                get! active := vget (λ v, sql_exists (λ r, (rt_application_id r =?s applicationID) && active_rotation r)
                                            (vt_rotations v)) in
                if active then rejected_attempt applicationID agentID adminID target "another rotation is active"
                                 "center: another CPA credential rotation is still active"
                else
                  get! current := vget (currentCPACredentials agentID) in
                  match current with
                  | Err e => rejected_attempt applicationID agentID adminID target "current credentials unavailable" e
                  | Ok current =>
                      let credentials := if target =?s "management" then mk_cpa (ri_replacement ids) (cv_api_key current)
                                         else mk_cpa (cv_management_key current) (ri_replacement ids) in
                      get! keeper := vget (λ v, (target =?s "management")
                        && sql_exists (λ a, (ap_node_id a =?s agentID) && (ap_app_key a =?s keeperAppKey)
                                            && negb (ap_status a =?s "stopped")) (vt_applications v)) in
                      create_rotation acc ids application adminID operationKeyHash requestHash target credentials keeper now ;;>
                      get! created := vget (credentialRotationByOperation adminID operationKeyHash) in
                      match created with
                      | Some (rotation, agent) => resumeCredentialRotation rd rotation agent false now
                      | None => verr "center: credential rotation secret is no longer available"
                      end
                  end
            end
        end
    end.

End Rotation.
