(* ===== verification/VaultSpec.v ===== *)
(** * One-time results are shown to one operation, until it acknowledges them *)
From S2P Require Import Prelude GoText GoTime Execution Admin Vault Samples.
From S2P Require Ingress.

(** ** The monad *)
Lemma vbind_ok {A B} (m : V A) (k : A → V B) v v' b :
  vbind m k v = (v', Ok b) ↔ ∃ v1 a, m v = (v1, Ok a) ∧ k a v1 = (v', Ok b).
Proof.
  unfold vbind. destruct (m v) as [v1 [a|e]]; split.
  - eauto.
  - by intros (v2 & a' & [= <- <-] & H).
  - discriminate.
  - by intros (v2 & a' & [=] & _).
Qed.

Lemma vfail_if_ok b e v v' u : vfail_if b e v = (v', Ok u) ↔ b = false ∧ v' = v.
Proof. destruct u, b; cbn; split; [discriminate|by intros []|by intros [= <-]|by intros [_ ->]]. Qed.

Lemma vtx_ok {A} (m : V A) v v' a : vtx m v = (v', Ok a) ↔ m v = (v', Ok a).
Proof. unfold vtx. by destruct (m v) as [? []]. Qed.

Lemma vtx_err {A} (m : V A) v v' e : vtx m v = (v', Err e) → v' = v.
Proof. unfold vtx. destruct (m v) as [? []]; congruence. Qed.

Lemma vread_ok {A} (f : vault → res A) v v' a : vread f v = (v', Ok a) ↔ f v = Ok a ∧ v' = v.
Proof. unfold vread. split; [by intros [= <- ->]|by intros [-> ->]]. Qed.
Lemma vget_ok {A} (f : vault → A) v v' a : vget f v = (v', Ok a) ↔ a = f v ∧ v' = v.
Proof. unfold vget. split; [by intros [= <- ->]|by intros [-> ->]]. Qed.
Lemma vset_ok f v v' u : vset f v = (v', Ok u) ↔ v' = f v.
Proof. unfold vset. destruct u. split; [by intros [= <-]|by intros ->]. Qed.
Lemma vok_ok {A} (a b : A) v v' : vok a v = (v', Ok b) ↔ b = a ∧ v' = v.
Proof. unfold vok. split; [by intros [= <- ->]|by intros [-> ->]]. Qed.

(** Invert a successful run step by step. *)
Ltac vinv H :=
  repeat match type of H with
  | vbind _ _ _ = (_, Ok _) => let v := fresh "v" in let a := fresh "a" in let H1 := fresh "H" in
      apply (proj1 (vbind_ok _ _ _ _ _)) in H as (v & a & H1 & H); vinv H1
  | vtx _ _ = (_, Ok _) => apply (proj1 (vtx_ok _ _ _ _)) in H
  | vfail_if _ _ _ = (_, Ok _) => apply (proj1 (vfail_if_ok _ _ _ _ _)) in H as [H ->]
  | vread _ _ = (_, Ok _) => apply (proj1 (vread_ok _ _ _ _)) in H as [H ->]
  | vget _ _ = (_, Ok _) => apply (proj1 (vget_ok _ _ _ _)) in H as [-> ->]
  | vset _ _ = (_, Ok _) => apply (proj1 (vset_ok _ _ _ _)) in H as ->
  | vok _ _ = (_, Ok _) => apply (proj1 (vok_ok _ _ _ _)) in H as [-> ->]
  end.

(** ** Deliveries over time *)

(** The operation and the resource of a delivery. *)
Definition operation_key (r : delivery_row) : string * string * string :=
  (sd_kind r, sd_owner_id r, sd_operation_key_hash r).
Definition resource_key (r : delivery_row) : string * string := (sd_kind r, sd_resource_id r).

(** The constraints of the table. *)
Record deliveries_ok (v : vault) : Prop := mk_deliveries_ok {
  do_operations : NoDup (map operation_key (vt_deliveries v));
  do_resources : NoDup (map resource_key (vt_deliveries v))
}.

(** A delivery keeps its operation and resource, and stays acknowledged. *)
Definition continues (r r' : delivery_row) : Prop :=
  operation_key r' = operation_key r ∧ sd_resource_id r' = sd_resource_id r ∧
  (sd_state r = "acknowledged" → sd_state r' = "acknowledged").

Definition kept (P : delivery_row → Prop) (v v' : vault) : Prop :=
  ∀ r, r ∈ vt_deliveries v → P r → ∃ r', r' ∈ vt_deliveries v' ∧ continues r r'.

Lemma continues_refl r : continues r r.
Proof. done. Qed.

Lemma kept_refl P v v' : vt_deliveries v' = vt_deliveries v → kept P v v'.
Proof. intros E r Hr _. rewrite E. exists r. by split. Qed.

Lemma same_operation v r r' : deliveries_ok v → r ∈ vt_deliveries v → r' ∈ vt_deliveries v →
  operation_key r = operation_key r' → r = r'.
Proof. intros [H _]. by apply (nodup_key_eq operation_key). Qed.
Lemma same_resource v r r' : deliveries_ok v → r ∈ vt_deliveries v → r' ∈ vt_deliveries v →
  resource_key r = resource_key r' → r = r'.
Proof. intros [_ H]. by apply (nodup_key_eq resource_key). Qed.

Lemma deliveries_ok_same v v' : vt_deliveries v' = vt_deliveries v → deliveries_ok v → deliveries_ok v'.
Proof. intros E [H1 H2]. by split; rewrite E. Qed.

Section Deliveries.
Context {L : Libraries} {J : SecretCodec}.

(** ** Single operations *)

Lemma insert_delivery_ok kind o k h res now v v' :
  insertSecretDelivery kind o k h res now v = (v', Ok tt) →
  v' = with_deliveries (vt_deliveries v ++ [mk_delivery kind o k h res "pending" (rfc3339nano now) (rfc3339nano now)]) v ∧
  (∀ r, r ∈ vt_deliveries v → operation_key r ≠ (kind, o, k) ∧ resource_key r ≠ (kind, res)).
Proof.
  unfold insertSecretDelivery. intros H. vinv H. split; [done|]. intros r Hr.
  match goal with H : sql_exists _ _ = false |- _ => rename H into H1; rewrite sql_exists_false in H1 end. specialize (H1 r Hr). unfold operation_key, resource_key.
  split; intros E; injection E; intros; subst; rewrite !String.eqb_refl in H1; cbn in H1; rewrite ?orb_true_r in H1; discriminate.
Qed.

Lemma insert_delivery_keeps kind o k h res now v v' P :
  insertSecretDelivery kind o k h res now v = (v', Ok tt) → deliveries_ok v → deliveries_ok v' ∧ kept P v v'.
Proof.
  intros [-> Hn]%insert_delivery_ok [H1 H2]. split; [split|]; cbn.
  - rewrite map_app. apply NoDup_app. split; [done|]. split; [|apply NoDup_singleton].
    intros x (r & -> & Hr)%list_elem_of_fmap Hx%list_elem_of_singleton. by apply (proj1 (Hn r Hr)).
  - rewrite map_app. apply NoDup_app. split; [done|]. split; [|apply NoDup_singleton].
    intros x (r & -> & Hr)%list_elem_of_fmap Hx%list_elem_of_singleton. by apply (proj2 (Hn r Hr)).
  - intros r Hr _. exists r. cbn. split; [|done]. apply elem_of_app. by left.
Qed.

Lemma acknowledge_keeps wh now v P :
  deliveries_ok v → let v' := with_deliveries (sql_update wh (acknowledge now) (vt_deliveries v)) v in
  deliveries_ok v' ∧ kept P v v'.
Proof.
  intros [H1 H2] v'. split; [split|]; cbn.
  - by rewrite (sql_update_key operation_key).
  - by rewrite (sql_update_key resource_key).
  - intros r Hr _. exists (if wh r then acknowledge now r else r). split; [|by destruct (wh r)].
    unfold v'. cbn. apply elem_of_sql_update. by exists r.
Qed.

(** The stored result of a command. *)
Definition stored_result (v : vault) (commandID plain : string) : Prop :=
  ∃ c secretID r, sql_row (λ r, (cm_id r =?s commandID) && (cm_state r =?s "succeeded")) (vt_commands v) = Some c ∧
    cm_result_secret_id c = Some secretID ∧ sql_row (λ r, sc_id r =?s secretID) (vt_secrets v) = Some r ∧
    unseal ("application-command:" +:+ commandID) (sc_sealed r) = Some plain.

(** A successful reveal: the pending delivery of this operation, found or made. *)
Lemma reveal_ok c o k now v v' plain :
  RevealApplicationCommandResult c o k now v = (v', Ok plain) →
  ∃ op d, normalizeSecretOperation o k = Ok op ∧ d ∈ vt_deliveries v' ∧
    operation_key d = (applicationCommandDelivery, fst op, snd op) ∧ sd_resource_id d = trim_space c ∧
    sd_request_hash d = commandSecretRequestHash (trim_space c) ∧ sd_state d = "pending" ∧
    stored_result v (trim_space c) plain ∧
    (v' = v ∨ insertSecretDelivery applicationCommandDelivery (fst op) (snd op) (commandSecretRequestHash (trim_space c))
                (trim_space c) now v = (v', Ok tt)).
Proof.
  unfold RevealApplicationCommandResult. intros H. vinv H. rename H0 into Hop, H1 into Hd, v0 into v'. destruct a0.
  assert (∃ d, d ∈ vt_deliveries v' ∧ operation_key d = (applicationCommandDelivery, fst a, snd a) ∧
    sd_resource_id d = trim_space c ∧ sd_request_hash d = commandSecretRequestHash (trim_space c) ∧ sd_state d = "pending" ∧
    vt_commands v' = vt_commands v ∧ vt_secrets v' = vt_secrets v ∧
    (v' = v ∨ insertSecretDelivery applicationCommandDelivery (fst a) (snd a) (commandSecretRequestHash (trim_space c))
                (trim_space c) now v = (v', Ok tt))) as (d & Hin & D1 & D2 & D3 & D4 & Ec & Es & Hv).
  { destruct (readSecretDelivery _ _ _ v) as [d|] eqn:Ed.
    - vinv Hd. apply sql_row_spec in Ed as [Hin Ek]. unfold validateSecretDelivery, guard_err in Hd.
      destruct (_ || _) eqn:E1; [discriminate Hd|]. cbn in Hd. destruct (negb (sd_state d =?s "pending")) eqn:E2; [discriminate Hd|].
      bool_prop. exists d. unfold operation_key. split_and!; try done; [congruence|by left].
    - vinv Hd. pose proof Hd as Hins. apply insert_delivery_ok in Hd as [-> _].
      eexists. split; [apply elem_of_app; right; by left|]. cbn. by split_and!; try right. }
  exists a, d. split_and!; try done. rewrite Ec, Es in H. unfold stored_result.
  destruct (sql_row _ (vt_commands v)) as [cm|] eqn:E1; [|discriminate H].
  destruct (cm_result_secret_id cm) as [sid|] eqn:E2; [|discriminate H].
  destruct (sql_row _ (vt_secrets v)) as [sr|] eqn:E3; [|discriminate H].
  destruct (unseal _ _) as [p|] eqn:E4; [|discriminate H]. injection H as ->. by exists cm, sid, sr.
Qed.

Lemma reveal_keeps c o k now v P :
  deliveries_ok v → let v' := fst (RevealApplicationCommandResult c o k now v) in deliveries_ok v' ∧ kept P v v'.
Proof.
  intros Hv. destruct (RevealApplicationCommandResult c o k now v) as [v' [plain|e]] eqn:E; cbn.
  - apply reveal_ok in E as (op & d & _ & _ & _ & _ & _ & _ & _ & [->|Hi]); [by split; [|apply kept_refl]|].
    by eapply insert_delivery_keeps.
  - assert (v' = v) as ->; [|by split; [|apply kept_refl]]. unfold RevealApplicationCommandResult, vbind in E.
    unfold vread at 1 in E. destruct (normalizeSecretOperation o k); [by apply vtx_err in E|congruence].
Qed.

(** A successful acknowledgement: the delivery of this operation was pending, and the
    secret is deleted. *)
Lemma acknowledged_ok c o k now v v' :
  AcknowledgeApplicationCommandResult c o k now v = (v', Ok tt) →
  ∃ op d secretID, normalizeSecretOperation o k = Ok op ∧ d ∈ vt_deliveries v ∧
    operation_key d = (applicationCommandDelivery, fst op, snd op) ∧ sd_resource_id d = trim_space c ∧ sd_state d = "pending" ∧
    (∃ cm, cm ∈ vt_commands v ∧ cm_id cm = trim_space c ∧ cm_result_secret_id cm = Some secretID) ∧
    (∀ r, r ∈ vt_secrets v' → sc_id r ≠ secretID) ∧ (∀ r, r ∈ vt_secrets v' → r ∈ vt_secrets v) ∧
    (∀ cm, cm ∈ vt_commands v' → cm_id cm = trim_space c → cm_result_secret_id cm = None) ∧
    vt_deliveries v' = sql_update (λ r, (sd_kind r =?s applicationCommandDelivery) && (sd_owner_id r =?s fst op)
                                        && (sd_operation_key_hash r =?s snd op)) (acknowledge now) (vt_deliveries v).
Proof.
  unfold AcknowledgeApplicationCommandResult, delete_secret. intros H. vinv H.
  match goal with H : normalizeSecretOperation _ _ = _ |- _ => rename H into Hop end.
  match goal with H : match readSecretDelivery _ _ _ v with _ => _ end = false |- _ => rename H into Hd end.
  match goal with H : match sql_row _ (vt_commands v) with _ => _ end = Ok _ |- _ => rename H into Hc end.
  destruct (readSecretDelivery _ _ _ v) as [d|] eqn:Ed; [|discriminate Hd].
  destruct (sql_row _ (vt_commands v)) as [cm|] eqn:Ecm; [|discriminate Hc]. injection Hc as Hc.
  apply sql_row_spec in Ed as [Hin Ek], Ecm as [Hcin Eck]. apply negb_false_iff in Hd.
  unfold validateSecretDelivery, guard_err in Hd. destruct (_ || _) eqn:E1; [discriminate Hd|]. cbn in Hd.
  destruct (negb (sd_state d =?s "pending")) eqn:E2; [discriminate Hd|].
  apply andb_prop in Eck as [Eck Esome]. bool_prop. destruct (cm_result_secret_id cm) as [sid|] eqn:Esid; [|discriminate Esome].
  cbn in Hc. subst sid. exists a, d, a1. unfold operation_key. split_and!; try done; [congruence|by exists cm| | | ]; cbn.
  - intros r [_ Hr]%list_elem_of_In%filter_In. bool_prop. done.
  - intros r [Hr _]%list_elem_of_In%filter_In. by apply list_elem_of_In.
  - intros x (y & (z & Hz & ->)%elem_of_sql_update & ->)%elem_of_sql_update.
    destruct (cm_id z =?s trim_space c) eqn:Ez; bool_prop; [by destruct (bool_decide _)|].
    destruct (bool_decide (cm_result_secret_id z = Some a1)); cbn; intros; congruence.
Qed.

Lemma acknowledge_result_keeps c o k now v P :
  deliveries_ok v → let v' := fst (AcknowledgeApplicationCommandResult c o k now v) in deliveries_ok v' ∧ kept P v v'.
Proof.
  intros Hv. destruct (AcknowledgeApplicationCommandResult c o k now v) as [v' [[]|e]] eqn:E; cbn.
  - apply acknowledged_ok in E as (op & d & sid & _ & _ & _ & _ & _ & _ & _ & _ & _ & Ed).
    destruct (acknowledge_keeps (λ r, (sd_kind r =?s applicationCommandDelivery) && (sd_owner_id r =?s fst op)
                                      && (sd_operation_key_hash r =?s snd op)) now v P Hv) as [H1 H2].
    split; [by eapply deliveries_ok_same; [|exact H1]|]. intros r Hr HP. destruct (H2 r Hr HP) as (r' & Hr' & Hc).
    exists r'. split; [by rewrite Ed|done].
  - assert (v' = v) as ->; [|by split; [|apply kept_refl]].
    unfold AcknowledgeApplicationCommandResult, vbind at 1 in E. unfold vread at 1 in E.
    destruct (normalizeSecretOperation o k); [by apply vtx_err in E|congruence].
Qed.

(** ** Sequences of operations *)

(** [OpOther w]: any change of the other tables.  [OpDeleteCommand]: with the trigger that
    deletes the delivery. *)
Inductive vault_op :=
| OpReveal (commandID ownerID operationKey : string) (now : Z)
| OpAcknowledge (commandID ownerID operationKey : string) (now : Z)
| OpOffer (ownerID operationKeyHash requestHash deploymentID : string) (now : Z)
| OpAcknowledgeDeployment (deploymentID ownerID operationKey : string) (now : Z)
| OpDeleteCommand (commandID : string)
| OpOther (w : vault).

Definition run_vault (op : vault_op) (v : vault) : vault :=
  match op with
  | OpReveal c o k now => fst (RevealApplicationCommandResult c o k now v)
  | OpAcknowledge c o k now => fst (AcknowledgeApplicationCommandResult c o k now v)
  | OpOffer o k h d now => fst (insertSecretDelivery deploymentCredentialsDelivery o k h d now v)
  | OpAcknowledgeDeployment d o k now => fst (AcknowledgeDeploymentCredentials d o k now v)
  | OpDeleteCommand c =>
      with_commands (List.filter (λ r, negb (cm_id r =?s c)) (vt_commands v))
        (with_deliveries (List.filter (λ r, negb ((sd_kind r =?s applicationCommandDelivery) && (sd_resource_id r =?s c)))
                            (vt_deliveries v)) v)
  | OpOther w => with_deliveries (vt_deliveries v) w
  end.

Definition run_vault_ops (ops : list vault_op) (v : vault) : vault := fold_left (λ v op, run_vault op v) ops v.

Lemma filter_keeps_keys {A K} (key : A → K) (f : A → bool) l : NoDup (map key l) → NoDup (map key (List.filter f l)).
Proof.
  induction l as [|r l IH]; [done|]. cbn. intros [Hn Hl]%NoDup_cons. destruct (f r); [|by apply IH]. cbn.
  apply NoDup_cons. split; [|by apply IH]. intros (x & E & Hx)%list_elem_of_fmap. apply Hn. rewrite E.
  apply list_elem_of_fmap_2. by apply list_elem_of_In, filter_In, proj1, list_elem_of_In in Hx.
Qed.

(** The deliveries of the results of one command. *)
Definition of_command (c : string) (r : delivery_row) : Prop := resource_key r = (applicationCommandDelivery, c).

Lemma vault_op_keeps c op v :
  op ≠ OpDeleteCommand c → deliveries_ok v → deliveries_ok (run_vault op v) ∧ kept (of_command c) v (run_vault op v).
Proof.
  intros Hop Hv. destruct op as [c' o k now|c' o k now|o k h d now|d o k now|c'|w]; cbn [run_vault].
  - by apply reveal_keeps.
  - by apply acknowledge_result_keeps.
  - destruct (insertSecretDelivery _ o k h d now v) as [v' [[]|e]] eqn:E; cbn; [by eapply insert_delivery_keeps|].
    assert (v' = v) as ->; [|by split; [|apply kept_refl]]. unfold insertSecretDelivery, vbind, vget, vfail_if, vset, verr, vok in E.
    destruct (sql_exists _ _); congruence.
  - unfold AcknowledgeDeploymentCredentials, vbind, vread, vget, vset, vfail_if.
    destruct (normalizeSecretOperation o k) as [op|e]; [|by split; [|apply kept_refl]].
    cbv zeta. destruct (negb _); cbn [fst verr vok]; by apply acknowledge_keeps.
  - destruct Hv as [H1 H2]. split; [split; cbn; by apply filter_keeps_keys|]. intros r Hr Hc. exists r. split; [|done].
    cbn. apply list_elem_of_In, filter_In. split; [by apply list_elem_of_In|]. unfold of_command, resource_key in Hc.
    injection Hc as _ Hres. rewrite Hres. apply negb_true_iff, andb_false_iff. right. apply String.eqb_neq. congruence.
  - split; [by eapply deliveries_ok_same; [|exact Hv]|by apply kept_refl].
Qed.

Lemma continues_trans r1 r2 r3 : continues r1 r2 → continues r2 r3 → continues r1 r3.
Proof. unfold continues. intros (A1 & A2 & A3) (B1 & B2 & B3). split_and!; [congruence|congruence|auto]. Qed.

Lemma vault_ops_keep c ops v :
  OpDeleteCommand c ∉ ops → deliveries_ok v → deliveries_ok (run_vault_ops ops v) ∧ kept (of_command c) v (run_vault_ops ops v).
Proof.
  revert v. induction ops as [|op ops IH]; intros v Hops Hv; [by split; [|apply kept_refl]|].
  apply not_elem_of_cons in Hops as [Hop Hops]. destruct (vault_op_keeps c op v) as [H1 H2]; [congruence|done|].
  destruct (IH _ Hops H1) as [H3 H4]. split; [done|]. intros r Hr Hc. destruct (H2 r Hr Hc) as (r1 & Hr1 & C1).
  destruct (H4 r1 Hr1) as (r2 & Hr2 & C2); [|exists r2; split; [done|by eapply continues_trans]].
  destruct C1 as (E1 & E2 & _). unfold of_command, resource_key, operation_key in *. congruence.
Qed.

(** The operation that owns a pending delivery is shown the stored result. *)
Lemma reveal_again op d c o k now v plain :
  normalizeSecretOperation o k = Ok op → deliveries_ok v → d ∈ vt_deliveries v →
  operation_key d = (applicationCommandDelivery, fst op, snd op) → sd_resource_id d = trim_space c →
  sd_request_hash d = commandSecretRequestHash (trim_space c) → sd_state d = "pending" →
  stored_result v (trim_space c) plain → RevealApplicationCommandResult c o k now v = (v, Ok plain).
Proof.
  intros Hop Hv Hd Ek Er Eh Es (cm & sid & r & H1 & H2 & H3 & H4).
  assert (readSecretDelivery applicationCommandDelivery (fst op) (snd op) v = Some d) as Hread.
  { destruct (readSecretDelivery _ _ _ v) as [d'|] eqn:E.
    - apply sql_row_spec in E as [Hd' E]. bool_prop. f_equal. apply (same_operation v); try done. unfold operation_key in *. congruence.
    - pose proof (sql_row_none _ _ E d Hd) as Hf. unfold operation_key in Ek. injection Ek as E1 E2 E3. cbn in Hf.
      rewrite E1, E2, E3, !String.eqb_refl in Hf. discriminate Hf. }
  unfold RevealApplicationCommandResult. cbv zeta. unfold vbind at 1, vread at 1. rewrite Hop. unfold vtx, vbind, vget, vread.
  rewrite Hread. unfold validateSecretDelivery. rewrite Er, Eh, Es, !String.eqb_refl. cbn [negb orb guard_err rbind].
  by rewrite H1, H2, H3, H4.
Qed.

(** C24 -- A one-time result is shown to one operation only, as often as it asks, until it
    acknowledges it: over any sequence of operations on the tables in which the command
    is not deleted, (1) what is shown is the stored result, and asking again shows the
    same and changes nothing; (2) after it was shown to an operation, it is shown to no
    other (an operation is an administrator and the digest of a key); and (3)
    acknowledging deletes the secret, and afterwards the result is never shown or
    acknowledged again, to whomever and whatever is stored. *)
Theorem results_are_shown_once c o k now v :
  deliveries_ok v →
  (∀ plain v', RevealApplicationCommandResult c o k now v = (v', Ok plain) →
     stored_result v (trim_space c) plain ∧
     (∀ now', RevealApplicationCommandResult c o k now' v' = (v', Ok plain)) ∧
     ∀ ops c' o' k' now' plain' w, OpDeleteCommand (trim_space c) ∉ ops → trim_space c' = trim_space c →
       RevealApplicationCommandResult c' o' k' now' (run_vault_ops ops v') = (w, Ok plain') →
       normalizeSecretOperation o' k' = normalizeSecretOperation o k) ∧
  (∀ v', AcknowledgeApplicationCommandResult c o k now v = (v', Ok tt) →
     (∃ cm secretID, cm ∈ vt_commands v ∧ cm_id cm = trim_space c ∧ cm_result_secret_id cm = Some secretID ∧
        ∀ r, r ∈ vt_secrets v' → sc_id r ≠ secretID) ∧
     ∀ ops c' o' k' now', OpDeleteCommand (trim_space c) ∉ ops → trim_space c' = trim_space c →
       ¬ is_ok (snd (RevealApplicationCommandResult c' o' k' now' (run_vault_ops ops v'))) ∧
       ¬ is_ok (snd (AcknowledgeApplicationCommandResult c' o' k' now' (run_vault_ops ops v')))).
Proof.
  intros Hv. split.
  - intros plain v' H. pose proof H as Hr. apply reveal_ok in Hr as (op & d & Hop & Hd & Ek & Er & Eh & Es & Hst & Hcase).
    pose proof (reveal_keeps c o k now v (λ _, True) Hv) as Hk. rewrite H in Hk. cbn in Hk. destruct Hk as [Hv' _].
    split; [done|]. split.
    + intros now'. assert (stored_result v' (trim_space c) plain) as Hst'.
      { destruct Hcase as [->|[-> _]%insert_delivery_ok]; done. }
      by apply (reveal_again op d).
    + intros ops c' o' k' now' plain' w Hops Ec Hr. destruct (vault_ops_keep (trim_space c) ops v' Hops Hv') as [Hv2 Hkeep].
      destruct (Hkeep d Hd) as (d1 & Hd1 & C1); [unfold of_command, resource_key, operation_key in *; congruence|].
      pose proof (reveal_keeps c' o' k' now' _ (λ _, True) Hv2) as Hk. rewrite Hr in Hk. cbn in Hk. destruct Hk as [Hv3 Hk3].
      destruct (Hk3 d1 Hd1 I) as (d2 & Hd2 & C2). pose proof (continues_trans _ _ _ C1 C2) as (K1 & K2 & _).
      apply reveal_ok in Hr as (op' & d3 & Hop' & Hd3 & Ek3 & Er3 & _).
      assert (d2 = d3) as <-; [apply (same_resource w); try done; unfold resource_key, operation_key in *; congruence|].
      rewrite Hop, Hop'. f_equal. destruct op, op'. cbn in *. unfold operation_key in *. congruence.
  - intros v' H. pose proof (acknowledge_result_keeps c o k now v (λ _, True) Hv) as Hk. rewrite H in Hk. cbn in Hk.
    destruct Hk as [Hv' _]. apply acknowledged_ok in H as (op & d & sid & Hop & Hd & Ek & Er & Es & (cm & C1 & C2 & C3) & Hgone & _ & _ & Ed).
    split; [by exists cm, sid|]. intros ops c' o' k' now' Hops Ec.
    assert (acknowledge now d ∈ vt_deliveries v') as Hd'.
    { rewrite Ed. apply elem_of_sql_update. exists d. split; [done|]. unfold operation_key in Ek. injection Ek as -> -> ->.
      by rewrite !String.eqb_refl. }
    destruct (vault_ops_keep (trim_space c) ops v' Hops Hv') as [Hv2 Hkeep].
    destruct (Hkeep _ Hd') as (d1 & Hd1 & K1 & K2 & K3); [unfold of_command, resource_key, operation_key in *; cbn in *; congruence|].
    specialize (K3 eq_refl). cbn in K2. set (u := run_vault_ops ops v') in *.
    assert (resource_key d1 = (applicationCommandDelivery, trim_space c)) as Hres
      by (unfold resource_key, operation_key in *; cbn in *; congruence).
    split; intros Hok.
    + destruct (RevealApplicationCommandResult c' o' k' now' u) as [w [plain|]] eqn:Hr; [|done].
      pose proof (reveal_keeps c' o' k' now' u (λ _, True) Hv2) as Hk. rewrite Hr in Hk. cbn in Hk. destruct Hk as [Hv3 Hk3].
      destruct (Hk3 d1 Hd1 I) as (d2 & Hd2 & L1 & L2 & L3). specialize (L3 K3).
      apply reveal_ok in Hr as (op' & d3 & _ & Hd3 & Ek3 & Er3 & _ & Es3 & _).
      assert (d2 = d3) as <-; [apply (same_resource w); try done; unfold resource_key, operation_key in *; congruence|congruence].
    + destruct (AcknowledgeApplicationCommandResult c' o' k' now' u) as [w [[]|]] eqn:Hr; [|done].
      apply acknowledged_ok in Hr as (op' & d3 & sid' & _ & Hd3 & Ek3 & Er3 & Es3 & _).
      assert (d1 = d3) as <-; [apply (same_resource u); try done; unfold resource_key, operation_key in *; congruence|congruence].
Qed.
End Deliveries.

(** ** A result that is shown and acknowledged *)
Module Shown.
Definition read_pairs (l : list string) : gmap string string :=
  (fix go l := match l with a :: b :: l' => <[a := b]> (go l') | _ => ∅ end) l.

Definition read_cpa (s : string) : option cpaCredentialValues :=
  match read_fields "" s with Some [a; b] => Some (mk_cpa a b) | _ => None end.

#[global] Program Instance secret_codec : SecretCodec := {|
  values_of_json s := read_pairs <$> read_fields "" s;
  cpa_json c := write_fields [cv_management_key c; cv_api_key c];
  cpa_of_json := read_cpa;
  request_payload q := Some (write_fields [cq_agent_id q; cq_app_key q; cq_role q; cq_config q; cq_operation q]);
  object_with s key value := Some (s +:+ write_fields [key; value])
|}.
Next Obligation. intros [a b]. unfold read_cpa. cbn [cv_management_key cv_api_key]. by rewrite read_write_fields. Qed.
Next Obligation. intros [a b]. split; intros E; by apply (f_equal read_cpa) in E; unfold read_cpa in E; rewrite read_write_fields in E. Qed.

Definition start : Z := 1767225600 * second.
Definition before : vault :=
  mk_vault [mk_secret "secret-1" (sample_seal "application-command:command-1" "vless://result") "" ""] [] [] []
    [mk_command "command-1" "succeeded" (Some "secret-1")] [] [].

Definition shown : vault := fst (RevealApplicationCommandResult "command-1" "admin-1" "0123456789abcdef" start before).
Definition acknowledged : vault :=
  fst (AcknowledgeApplicationCommandResult " command-1" "admin-1" "0123456789abcdef" start shown).

Lemma before_ok : deliveries_ok before.
Proof. split; apply NoDup_nil_2. Qed.
Lemma shown_ok : deliveries_ok shown.
Proof. apply (reveal_keeps _ _ _ _ _ (λ _, True) before_ok). Qed.

Lemma results_are_shown_once_witness :
  RevealApplicationCommandResult "command-1" "admin-1" "0123456789abcdef" start before = (shown, Ok "vless://result") ∧
  RevealApplicationCommandResult "command-1" "admin-1" "0123456789abcdef" (start + 1) shown = (shown, Ok "vless://result") ∧
  AcknowledgeApplicationCommandResult " command-1" "admin-1" "0123456789abcdef" start shown = (acknowledged, Ok tt) ∧
  vt_secrets acknowledged = [] ∧
  ¬ is_ok (snd (RevealApplicationCommandResult "command-1" "admin-1" "0123456789abcdef" start
                  (run_vault_ops [OpOther before] acknowledged))).
Proof.
  assert (RevealApplicationCommandResult "command-1" "admin-1" "0123456789abcdef" start before = (shown, Ok "vless://result")) as H1
    by (vm_compute; reflexivity).
  assert (AcknowledgeApplicationCommandResult " command-1" "admin-1" "0123456789abcdef" start shown = (acknowledged, Ok tt)) as H2
    by (vm_compute; reflexivity).
  split; [exact H1|]. split.
  { exact (proj1 (proj2 (proj1 (results_are_shown_once "command-1" "admin-1" "0123456789abcdef" start before before_ok) _ _ H1)) (start + 1)). }
  split; [exact H2|]. split; [vm_compute; reflexivity|].
  destruct (results_are_shown_once " command-1" "admin-1" "0123456789abcdef" start shown shown_ok) as [_ H].
  destruct (H acknowledged H2) as [_ H3].
  refine (proj1 (H3 [OpOther before] "command-1" "admin-1" "0123456789abcdef" start _ _)).
  - intros Hin. apply list_elem_of_singleton in Hin. discriminate Hin.
  - vm_compute. reflexivity.
Defined.
End Shown.
