(* ===== verification/RotationSpec.v ===== *)
(** * A rotation is forgotten only after it was installed *)
From S2P Require Import Prelude GoText GoTime Execution Admin AdminSpec Vault Rotation VaultSpec Samples.
From S2P Require Ingress.

Section Rotations.
Context {L : Libraries} {J : SecretCodec} {P : PasswordHash}.

(** ** Secrets that stay *)

(** The secret opens to these credentials. *)
Definition holds (v : vault) (secret : option string) (label : string) (c : cpaCredentialValues) : Prop :=
  ∃ id, secret = Some id ∧ getSecret id label v = Ok (cpa_json c).

Lemma find_appended {A} (f : A → bool) l l' x : List.find f l = Some x → List.find f (l ++ l') = Some x.
Proof. induction l as [|y l IH]; [done|]. cbn. by destruct (f y). Qed.

Lemma find_filter {A} (f g : A → bool) l : (∀ x, f x = true → g x = true) → List.find f (List.filter g l) = List.find f l.
Proof.
  intros H. induction l as [|y l IH]; [done|]. cbn. destruct (g y) eqn:Eg; cbn; [by rewrite IH|].
  destruct (f y) eqn:Ef; [|done]. rewrite (H y Ef) in Eg. discriminate Eg.
Qed.

(** The secrets with these identifiers are as they were. *)
Definition secrets_kept (v v' : vault) (id : string) : Prop :=
  ∀ r, sql_row (λ r, sc_id r =?s id) (vt_secrets v) = Some r → sql_row (λ r, sc_id r =?s id) (vt_secrets v') = Some r.

Lemma holds_kept v v' secret label c :
  (∀ id, secret = Some id → secrets_kept v v' id) → holds v secret label c → holds v' secret label c.
Proof.
  intros Hk (id & -> & H). exists id. split; [done|]. unfold getSecret in *.
  destruct (sql_row _ (vt_secrets v)) as [r|] eqn:E; [|discriminate H]. by rewrite (Hk id eq_refl r E).
Qed.

Lemma put_kept l v id : secrets_kept v (with_secrets (vt_secrets v ++ l) v) id.
Proof. intros r H. cbn. by apply find_appended. Qed.

(** ** The invariant *)
Definition succeeded_deployment (v : vault) (id : string) : Prop :=
  ∃ d, d ∈ vt_deployments v ∧ dp_id d = id ∧ dp_state d = "succeeded".

Record rotation_ok (v : vault) (r : rotation_row) (c : cpaCredentialValues) : Prop := mk_rotation_ok {
  ro_secret : rt_state r ≠ "succeeded" → holds v (rt_secret_id r) ("credential-rotation:" +:+ rt_id r) c;
  ro_forgotten : rt_state r = "succeeded" → rt_secret_id r = None ∧ succeeded_deployment v (rt_cpa_deployment_id r) ∧
    (rt_keeper_deployment_id r ≠ "" → succeeded_deployment v (rt_keeper_deployment_id r));
  ro_installed : ∀ d, d ∈ vt_deployments v → dp_id d = rt_cpa_deployment_id r →
    dp_app_key d = Ingress.cpaAppKey ∧ dp_operation d = "configure" ∧
    (∃ a, a ∈ vt_applications v ∧ ap_id a = rt_application_id r ∧ ap_node_id a = dp_agent_id d) ∧
    holds v (dp_secret_id d) ("deployment:" +:+ dp_id d) c
}.

(** The states of [deployments]. *)
Definition deployment_states : list string := ["pending"; "running"; "succeeded"; "failed"].

Record vault_ok (v : vault) : Prop := mk_vault_ok {
  vo_ids : NoDup (map rt_id (vt_rotations v));
  vo_cpa : NoDup (map rt_cpa_deployment_id (vt_rotations v));
  vo_named : ∀ r, r ∈ vt_rotations v → rt_cpa_deployment_id r ≠ "";
  vo_apart : ∀ r r', r ∈ vt_rotations v → r' ∈ vt_rotations v → rt_cpa_deployment_id r ≠ rt_keeper_deployment_id r';
  vo_states : ∀ d, d ∈ vt_deployments v → dp_state d ∈ deployment_states;
  vo_rotations : ∀ r, r ∈ vt_rotations v → ∃ c, rotation_ok v r c
}.

(** A change of the tables that leaves what the invariant reads. *)
Record quiet (v v' : vault) : Prop := mk_quiet {
  qu_rotations : vt_rotations v' = vt_rotations v;
  qu_applications : vt_applications v' = vt_applications v;
  qu_succeeded : ∀ id, succeeded_deployment v id → succeeded_deployment v' id;
  qu_deployments : ∀ r d', r ∈ vt_rotations v → d' ∈ vt_deployments v' → dp_id d' = rt_cpa_deployment_id r →
    ∃ d, d ∈ vt_deployments v ∧ dp_id d = dp_id d' ∧ dp_app_key d = dp_app_key d' ∧ dp_operation d = dp_operation d' ∧
         dp_agent_id d = dp_agent_id d' ∧ dp_secret_id d = dp_secret_id d';
  qu_states : ∀ d', d' ∈ vt_deployments v' → d' ∈ vt_deployments v ∨ dp_state d' ∈ deployment_states;
  qu_secrets : ∀ id, (∃ r, r ∈ vt_rotations v ∧ rt_secret_id r = Some id) ∨ (∃ d, d ∈ vt_deployments v ∧ dp_secret_id d = Some id) →
    secrets_kept v v' id
}.

Lemma rotation_ok_quiet v v' r c : quiet v v' → r ∈ vt_rotations v → rotation_ok v r c → rotation_ok v' r c.
Proof.
  intros [Q1 Q2 Q3 Q4 _ Q5] Hr [H1 H2 H3]. split.
  - intros Hs. eapply holds_kept; [|by apply H1]. intros id E. apply Q5. left. eauto.
  - intros Hs. destruct (H2 Hs) as (A & B & C). split_and!; auto.
  - intros d' Hd' Ed'. destruct (Q4 r d' Hr Hd' Ed') as (d & Hd & E1 & E2 & E3 & E4 & E5).
    destruct (H3 d Hd) as (A & B & (a & Ha) & D); [congruence|]. rewrite Q2, <- E2, <- E3, <- E4, <- E5, <- E1.
    split_and!; try done; [by exists a|]. eapply holds_kept; [|exact D]. intros id E. apply Q5. right. eauto.
Qed.

Lemma vault_ok_quiet v v' : quiet v v' → vault_ok v → vault_ok v'.
Proof.
  intros Q [H1 H2 H6 H3 H5 H4]. pose proof Q as [Q1 _ _ _ Q5 _]. split; rewrite ?Q1; try done.
  { intros d Hd. destruct (Q5 d Hd); auto. }
  intros r Hr. destruct (H4 r Hr) as [c Hc]. exists c. by eapply rotation_ok_quiet.
Qed.

(** ** Weakest preconditions

    [vwp m Q E v]: from [v] the operation ends with a result and tables as in [Q], or with
    an error and tables as in [E]. *)
Definition vwp {A} (m : V A) (Q : A → vault → Prop) (E : vault → Prop) (v : vault) : Prop :=
  match m v with (v', Ok a) => Q a v' | (v', Err _) => E v' end.

Lemma vwp_bind {A B} (m : V A) (k : A → V B) Q E v : vwp m (λ a, vwp (k a) Q E) E v → vwp (vbind m k) Q E v.
Proof. unfold vwp, vbind. by destruct (m v) as [v' []]. Qed.
Lemma vwp_tx {A} (m : V A) Q (E : vault → Prop) v : vwp m Q (λ _, E v) v → vwp (vtx m) Q E v.
Proof. unfold vwp, vtx. by destruct (m v) as [v' []]. Qed.
Lemma vwp_read {A} (f : vault → res A) (Q : A → vault → Prop) (E : vault → Prop) v :
  E v → (∀ a, f v = Ok a → Q a v) → vwp (vread f) Q E v.
Proof. unfold vwp, vread. intros HE HQ. destruct (f v) eqn:H; auto. Qed.
Lemma vwp_fail_if b e (Q : unit → vault → Prop) (E : vault → Prop) v :
  E v → (b = false → Q tt v) → vwp (vfail_if b e) Q E v.
Proof. unfold vwp, vfail_if. destruct b; cbn; auto. Qed.
Lemma vwp_mono {A} (m : V A) (Q Q' : A → vault → Prop) (E E' : vault → Prop) v :
  vwp m Q E v → (∀ a v', Q a v' → Q' a v') → (∀ v', E v' → E' v') → vwp m Q' E' v.
Proof. unfold vwp. destruct (m v) as [v' []]; auto. Qed.

(** ** Quiet changes *)
Lemma quiet_put l v : quiet v (with_secrets (vt_secrets v ++ l) v).
Proof. split; try done; [by intros r d' _ Hd _; exists d'|by left|]. intros id _. apply put_kept. Qed.

Lemma quiet_event l v : quiet v (with_events l v).
Proof. split; try done; [by intros r d' _ Hd _; exists d'|by left|by intros id _ r H]. Qed.

(** A secret that nothing refers to. *)
Lemma quiet_delete id l v :
  (∀ r, r ∈ vt_rotations v → rt_secret_id r ≠ Some id) → (∀ d, d ∈ vt_deployments v → dp_secret_id d ≠ Some id) →
  quiet v (with_commands l (with_secrets (List.filter (λ r, negb (sc_id r =?s id)) (vt_secrets v)) v)).
Proof.
  intros Hr Hd. split; try done; [by intros r d' _ Hd' _; exists d'|by left|]. intros id' Hid x Hx. cbn. unfold sql_row in *.
  rewrite find_filter; [done|]. intros y Hy. bool_prop. apply negb_true_iff, String.eqb_neq.
  destruct Hid as [(r & H1 & H2)|(d & H1 & H2)]; [specialize (Hr r H1)|specialize (Hd d H1)]; congruence.
Qed.

(** A deployment that is not one of a rotation. *)
Lemma quiet_insert d v :
  (∀ r, r ∈ vt_rotations v → rt_cpa_deployment_id r ≠ dp_id d) → dp_state d ∈ deployment_states →
  quiet v (with_deployments (vt_deployments v ++ [d]) v).
Proof.
  intros Hn Hs. split; try done.
  - intros id (x & Hx & H). exists x. split; [apply elem_of_app; by left|done].
  - intros r d' Hr [Hd|Hd]%elem_of_app E; [by exists d'|]. apply list_elem_of_singleton in Hd as ->. by destruct (Hn r Hr).
  - intros d' [Hd|Hd]%elem_of_app; [by left|]. apply list_elem_of_singleton in Hd as ->. by right.
  - by intros id _ r H.
Qed.

(** The progress of a deployment that has not succeeded. *)
Definition progress (id state error : string) (required : bool) (now : Z) (v : vault) : vault :=
  with_deployments (sql_update (λ d, (dp_id d =?s id) && negb (dp_state d =?s "succeeded"))
    (λ d, mk_deployment (dp_id d) (dp_agent_id d) (dp_app_key d) (dp_operation d) state required (dp_secret_id d)
            (dp_application_id d) error (dp_created_at d) (rfc3339nano now)) (vt_deployments v)) v.

Lemma quiet_progress id state error required now v :
  state ∈ deployment_states → quiet v (progress id state error required now v).
Proof.
  intros Hs. split; try done.
  - intros x (d & Hd & E1 & E2). exists d. split; [|done]. cbn. apply elem_of_sql_update. exists d. split; [done|].
    rewrite E2, andb_false_r. done.
  - intros r d' Hr Hd' _. cbn in Hd'. apply elem_of_sql_update in Hd' as (d & Hd & ->). exists d. by destruct (_ && _).
  - intros d' Hd'. cbn in Hd'. apply elem_of_sql_update in Hd' as (d & Hd & ->). destruct (_ && _); [by right|by left].
  - by intros x _ r H.
Qed.

(** ** Changes of a rotation *)
Lemma rotation_ok_with l v r c : rotation_ok v r c → rotation_ok (with_rotations l v) r c.
Proof. intros [H1 H2 H3]. by split. Qed.

Lemma rotation_update_ok v wh f id :
  vault_ok v → (∀ r, wh r = true → rt_id r = id) →
  (∀ r, r ∈ vt_rotations v → wh r = true →
     rt_id (f r) = id ∧ (∀ c, rotation_ok v r c → rotation_ok v (f r) c) ∧
     (rt_cpa_deployment_id (f r) = rt_cpa_deployment_id r ∨ rt_cpa_deployment_id (f r) ≠ "" ∧
      ∀ r', r' ∈ vt_rotations v → rt_cpa_deployment_id r' ≠ rt_cpa_deployment_id (f r) ∧
                                  rt_keeper_deployment_id r' ≠ rt_cpa_deployment_id (f r)) ∧
     (rt_keeper_deployment_id (f r) = rt_keeper_deployment_id r ∨
      ∀ r', r' ∈ vt_rotations v → rt_cpa_deployment_id r' ≠ rt_keeper_deployment_id (f r)) ∧
     rt_cpa_deployment_id (f r) ≠ rt_keeper_deployment_id (f r)) →
  vault_ok (with_rotations (sql_update wh f (vt_rotations v)) v).
Proof.
  intros [H1 H2 H6 H3 H5 H4] Hwh Hf.
  assert (∀ r r', r ∈ vt_rotations v → r' ∈ vt_rotations v → wh r = true → wh r' = true → r = r') as Hone.
  { intros r r' Hr Hr' W W'. apply (nodup_key_eq rt_id (vt_rotations v)); try done. by rewrite (Hwh r W), (Hwh r' W'). }
  assert (map rt_id (sql_update wh f (vt_rotations v)) = map rt_id (vt_rotations v)) as Hids.
  { unfold sql_update. rewrite map_map. apply map_ext_in. intros r Hr%list_elem_of_In. destruct (wh r) eqn:E; [|done].
    destruct (Hf r Hr E) as [-> _]. by rewrite (Hwh r E). }
  split; cbn.
  - by rewrite Hids.
  - apply NoDup_fmap_2_strong.
    + intros x y (r & Hr & ->)%elem_of_sql_update (r' & Hr' & ->)%elem_of_sql_update E.
      destruct (wh r) eqn:W, (wh r') eqn:W'.
      * by rewrite (Hone r r').
      * exfalso. destruct (Hf r Hr W) as (_ & _ & [Ec|[_ Hfr]] & _); [|by destruct (Hfr r' Hr') as [? _]; congruence].
        rewrite Ec in E. assert (r = r') as <- by (by apply (nodup_key_eq rt_cpa_deployment_id (vt_rotations v))). congruence.
      * exfalso. destruct (Hf r' Hr' W') as (_ & _ & [Ec|[_ Hfr]] & _); [|by destruct (Hfr r Hr) as [? _]; congruence].
        rewrite Ec in E. assert (r = r') as <- by (by apply (nodup_key_eq rt_cpa_deployment_id (vt_rotations v))). congruence.
      * by apply (nodup_key_eq rt_cpa_deployment_id (vt_rotations v)).
    + apply (NoDup_fmap_1 rt_id). unfold fmap, list_fmap in *. change (NoDup (map rt_id (sql_update wh f (vt_rotations v)))). by rewrite Hids.
  - intros x (r & Hr & ->)%elem_of_sql_update. destruct (wh r) eqn:W; [|by apply H6].
    destruct (Hf r Hr W) as (_ & _ & [->|[? _]] & _); [by apply H6|done].
  - intros x y (r & Hr & ->)%elem_of_sql_update (r' & Hr' & ->)%elem_of_sql_update.
    destruct (wh r) eqn:W, (wh r') eqn:W'.
    + rewrite (Hone r' r) by done. by apply (Hf r Hr W).
    + destruct (Hf r Hr W) as (_ & _ & [Ec|[_ Hfr]] & _); [rewrite Ec; by apply H3|]. intros E. by apply (proj2 (Hfr r' Hr')).
    + destruct (Hf r' Hr' W') as (_ & _ & _ & [Ec|Hfr] & _); [rewrite Ec; by apply H3|]. by apply Hfr.
    + by apply H3.
  - done.
  - intros x (r & Hr & ->)%elem_of_sql_update. destruct (H4 r Hr) as [c Hc]. exists c. apply rotation_ok_with.
    destruct (wh r) eqn:W; [|done]. destruct (Hf r Hr W) as (_ & Hok & _). by apply Hok.
Qed.

(** ** Operations *)

(** The rotation that [rotation] was read from is not finished. *)
Record open_rotation (v : vault) (rotation r : rotation_row) : Prop := mk_open {
  or_in : r ∈ vt_rotations v;
  or_id : rt_id r = rt_id rotation;
  or_secret : rt_secret_id r = rt_secret_id rotation;
  or_application : rt_application_id r = rt_application_id rotation;
  or_state : rt_state r ≠ "succeeded"
}.

Lemma finish_ok rotation r agentID state message now v :
  vault_ok v → open_rotation v rotation r →
  (state = "succeeded" → succeeded_deployment v (rt_cpa_deployment_id r) ∧
     (rt_keeper_deployment_id r ≠ "" → succeeded_deployment v (rt_keeper_deployment_id r))) →
  vwp (finishCredentialRotation rotation agentID state message now) (λ _ v', vault_ok v') vault_ok v.
Proof.
  intros Hv [Hr Hid Hsec _ Hst] Hs. unfold finishCredentialRotation. apply vwp_bind, vwp_fail_if; [done|]. intros _.
  apply vwp_bind, vwp_tx, vwp_bind. unfold vwp at 1, vget. apply vwp_bind. unfold vwp at 1, vset. cbv beta.
  set (wh := λ r0 : rotation_row, _). set (f := λ r0 : rotation_row, set_rotation _ _ _ _ _ _ _).
  set (v1 := with_rotations _ v).
  assert (vault_ok v1) as Hv1.
  { apply (rotation_update_ok v wh f (rt_id rotation)); [done|intros x Hx; unfold wh in Hx; by bool_prop|].
    intros x Hx Hw. assert (x = r) as ->.
    { apply (nodup_key_eq rt_id (vt_rotations v)); [apply Hv|done|done|]. unfold wh in Hw. bool_prop. congruence. }
    unfold f. cbn. split; [done|]. split; [|split; [by left|split; [by left|by apply (vo_apart v Hv)]]].
    intros c [H1 H2 H3]. split; cbn; [|intros ->; rewrite String.eqb_refl; by destruct (Hs eq_refl)|done].
    intros Hne. rewrite (proj2 (String.eqb_neq _ _) Hne). by apply H1. }
  assert (∀ v2, vault_ok v2 → vwp (vread (refreshCredentialRotation (rt_id rotation))) (λ _ v', vault_ok v') vault_ok v2) as Hend.
  { intros v2 H2. by apply vwp_read. }
  destruct (_ =? 0); [unfold vwp at 1, vok; by apply Hend|]. apply vwp_bind.
  assert (∀ v2, vault_ok v2 → vwp (vault_event (rt_application_id rotation) agentID "security.credentials.rotate"
      (if state =?s "succeeded" then "succeeded" else "failed")
      ("CPA " +:+ rt_target rotation +:+ " credential rotation " +:+ state +:+ " for administrator " +:+ rt_admin_id rotation))
      (λ _, vwp (vread (refreshCredentialRotation (rt_id rotation))) (λ _ v', vault_ok v') vault_ok) (λ _, vault_ok v) v2) as Hevent.
  { intros v2 H2. unfold vwp at 1, vault_event, vset. apply Hend. eapply vault_ok_quiet; [apply quiet_event|done]. }
  destruct (rt_secret_id rotation) as [id|]; [|unfold vwp at 1, vok; by apply Hevent].
  destruct (state =?s "succeeded"); [|unfold vwp at 1, vok; by apply Hevent].
  unfold delete_secret. apply vwp_bind. unfold vwp at 1, vget. apply vwp_bind, vwp_fail_if; [done|]. intros Hused.
  unfold vwp at 1, vset. apply Hevent. apply orb_false_elim in Hused as [U1 U2]. rewrite sql_exists_false in U1. rewrite sql_exists_false in U2.
  eapply vault_ok_quiet; [|exact Hv1]. apply quiet_delete.
  - intros x Hx E. specialize (U2 x Hx). cbn in U2. by rewrite bool_decide_true in U2.
  - intros x Hx E. specialize (U1 x Hx). cbn in U1. by rewrite bool_decide_true in U1.
Qed.

(** What [CreateDeployment] may do: nothing, or add one unfinished deployment. *)
Lemma create_cases rd q now v :
  let v' := fst (CreateDeployment rd q now v) in
  v' = v ∨
  ∃ secrets secret v1, deployment_secrets rd q v = Ok secrets ∧
    (secret = None ∧ v1 = v ∧ (secrets = "" ∨ secrets = "{}") ∨
     secret = Some (ce_secret_id rd) ∧ sql_row (λ r, sc_id r =?s ce_secret_id rd) (vt_secrets v) = None ∧
     v1 = with_secrets (vt_secrets v ++ [mk_secret (ce_secret_id rd) (seal ("deployment:" +:+ rq_id q) secrets)
                                           (rfc3339nano now) (rfc3339nano now)]) v) ∧
    v' = with_deployments (vt_deployments v ++
           [mk_deployment (rq_id q) (rq_agent_id q) (rq_app_key q) (rq_operation q) "pending" false secret
              (ce_application_id rd) "" (rfc3339nano now) (rfc3339nano now)]) v1.
Proof.
  destruct (CreateDeployment rd q now v) as [v' x] eqn:E. cbn. unfold CreateDeployment, vbind at 1, vget at 1 in E.
  destruct (negb _ && _); [left; unfold vok in E; congruence|].
  unfold vbind, vread, vget, vfail_if, vok, verr in E.
  destruct (ce_first rd); [|left; congruence]. destruct (active_task _ _ v); [left; congruence|].
  destruct (ce_second rd); [|left; congruence]. destruct (deployment_secrets rd q v) as [secrets|] eqn:Es; [|left; congruence].
  destruct (ce_third rd); [|left; congruence].
  destruct (insert_deployment rd q secrets now v) as [v2 [u|e]] eqn:Ei.
  2: { left. unfold insert_deployment in Ei. apply vtx_err in Ei. congruence. }
  injection E as <- _. right. unfold insert_deployment in Ei. vinv Ei.
  destruct (negb (secrets =?s "") && negb (secrets =?s "{}")) eqn:Eb.
  - match goal with H : vbind (putSecret _ _ _ _) _ v = _ |- _ => unfold putSecret in H; vinv H end.
    exists secrets, (Some (ce_secret_id rd)). eexists. split; [done|]. split; [right|done]. split; [done|]. split; [|done].
    match goal with H : sql_exists _ (vt_secrets v) = false |- _ => rewrite sql_exists_false in H end.
    destruct (sql_row _ (vt_secrets v)) as [y|] eqn:Ey; [|done]. apply sql_row_spec in Ey as [Hy Ey].
    match goal with H : ∀ r, r ∈ vt_secrets v → _ |- _ => rewrite (H y Hy) in Ey end. discriminate Ey.
  - match goal with H : vok _ v = _ |- _ => vinv H end. exists secrets, None, v. split; [done|]. split; [left|done].
    split_and!; try done. apply andb_false_iff in Eb as [Eb|Eb]; bool_prop; auto.
Qed.

Lemma create_rotations rd q now v : vt_rotations (fst (CreateDeployment rd q now v)) = vt_rotations v.
Proof. destruct (create_cases rd q now v) as [->|(x & y & v1 & _ & Hv1 & ->)]; [done|]. cbn. by destruct Hv1 as [(_ & -> & _)|(_ & _ & ->)]. Qed.

Lemma create_other_ok rd q now v :
  vault_ok v → (∀ r, r ∈ vt_rotations v → rt_cpa_deployment_id r ≠ rq_id q) → vault_ok (fst (CreateDeployment rd q now v)).
Proof.
  intros Hv Hn. destruct (create_cases rd q now v) as [->|(secrets & secret & v1 & _ & Hv1 & ->)]; [done|].
  assert (vault_ok v1 ∧ vt_rotations v1 = vt_rotations v ∧ vt_deployments v1 = vt_deployments v) as (Hok & Er & Ed).
  { destruct Hv1 as [(_ & -> & _)|(_ & _ & ->)]; [done|]. split; [|done]. eapply vault_ok_quiet; [apply quiet_put|done]. }
  rewrite <- Ed. eapply vault_ok_quiet; [|exact Hok]. apply quiet_insert; [rewrite Er; done|left].
Qed.

(** The deployment of a rotation installs its credentials. *)
Lemma create_own_ok rd agentID r c now v :
  vault_ok v → r ∈ vt_rotations v → rt_state r ≠ "succeeded" →
  holds v (rt_secret_id r) ("credential-rotation:" +:+ rt_id r) c →
  (∃ a, a ∈ vt_applications v ∧ ap_id a = rt_application_id r ∧ ap_node_id a = agentID) →
  (∀ d, d ∈ vt_deployments v → dp_id d ≠ rt_cpa_deployment_id r) →
  vault_ok (fst (CreateDeployment rd (mk_request (rt_cpa_deployment_id r) agentID Ingress.cpaAppKey "configure" (Some c) "") now v)).
Proof.
  intros Hv Hr Hst Hc Ha Hno. set (q := mk_request _ _ _ _ _ _).
  destruct (create_cases rd q now v) as [->|(secrets & secret & v1 & Hs & Hv1 & ->)]; [done|].
  assert (secrets = cpa_json c) as ->.
  { unfold deployment_secrets, q in Hs. cbn [rq_app_key rq_operation rq_agent_id rq_cpa_credentials] in Hs.
    change (Ingress.cpaAppKey =?s Ingress.cpaAppKey) with true in Hs. change (Ingress.cpaAppKey =?s keeperAppKey) with false in Hs.
    cbn [negb andb String.eqb] in Hs. unfold withCPACredentials in Hs.
    destruct (if _ =?s "install" then _ else _) as [cur|]; [|discriminate Hs]. cbn [rbind default] in Hs.
    unfold guard_err in Hs. destruct (_ || _); [discriminate Hs|]. cbn in Hs. congruence. }
  destruct Hv1 as [(_ & _ & Hempty)|(-> & Hnone & ->)]; [destruct (cpa_json_fields c); destruct Hempty; done|].
  set (v1 := with_secrets _ v). assert (vault_ok v1) as Hok1 by (eapply vault_ok_quiet; [apply quiet_put|done]).
  destruct Hok1 as [H1 H2 H6 H3 H5 H4]. split; try done.
  { intros d [Hd|Hd]%elem_of_app; [by apply H5|]. apply list_elem_of_singleton in Hd as ->. left. }
  intros r' Hr'. destruct (H4 r' Hr') as [c' Hc']. cbn in Hr'.
  destruct (decide (rt_cpa_deployment_id r' = rt_cpa_deployment_id r)) as [E|E].
  - assert (r' = r) as -> by (by apply (nodup_key_eq rt_cpa_deployment_id (vt_rotations v))). exists c. destruct Hc' as [_ _ _].
    split; [|done|].
    + intros _. eapply holds_kept; [|exact Hc]. intros id _. apply put_kept.
    + intros d [Hd|Hd]%elem_of_app Ed; [by destruct (Hno d Hd)|]. apply list_elem_of_singleton in Hd as ->. cbn.
      split_and!; try done. exists (ce_secret_id rd). split; [done|]. unfold getSecret. cbn. unfold sql_row in *.
      assert (List.find (λ r0, sc_id r0 =?s ce_secret_id rd) (vt_secrets v ++
        [mk_secret (ce_secret_id rd) (seal ("deployment:" +:+ rt_cpa_deployment_id r) (cpa_json c)) (rfc3339nano now) (rfc3339nano now)])
        = Some (mk_secret (ce_secret_id rd) (seal ("deployment:" +:+ rt_cpa_deployment_id r) (cpa_json c)) (rfc3339nano now) (rfc3339nano now))) as ->.
      { clear -Hnone. induction (vt_secrets v) as [|y l IH]; cbn in *; [by rewrite String.eqb_refl|]. destruct (_ =?s _); [done|auto]. }
      cbn. by rewrite unseal_seal.
  - exists c'. destruct Hc' as [A B C]. assert (∀ id, succeeded_deployment v1 id → succeeded_deployment
      (with_deployments (vt_deployments v1 ++ [mk_deployment (rq_id q) (rq_agent_id q) (rq_app_key q) (rq_operation q) "pending" false
         (Some (ce_secret_id rd)) (ce_application_id rd) "" (rfc3339nano now) (rfc3339nano now)]) v1) id) as Hsucc.
    { intros id (x & Hx & H). exists x. split; [apply elem_of_app; by left|done]. }
    split; [done| |].
    + intros Hs'. destruct (B Hs') as (B1 & B2 & B3). split_and!; auto.
    + intros d [Hd|Hd]%elem_of_app Ed; [by apply C|]. apply list_elem_of_singleton in Hd as ->. cbn in Ed. congruence.
Qed.

(** New identifiers are not in use. *)
Record reads_fresh (v : vault) (rd : resume_reads) : Prop := mk_reads_fresh {
  rf_named : rr_cpa_id rd ≠ "";
  rf_cpa : ∀ d, d ∈ vt_deployments v → dp_id d ≠ rr_cpa_id rd;
  rf_rotations : ∀ r, r ∈ vt_rotations v → rt_cpa_deployment_id r ≠ rr_cpa_id rd ∧ rt_keeper_deployment_id r ≠ rr_cpa_id rd ∧
                                           rt_cpa_deployment_id r ≠ rr_keeper_id rd
}.

(** One rotation is changed, with its identifier and its secret kept. *)
Lemma update_one v rotation f :
  vault_ok v → rotation ∈ vt_rotations v → rt_state rotation ≠ "succeeded" →
  rt_id (f rotation) = rt_id rotation → rt_secret_id (f rotation) = rt_secret_id rotation →
  rt_application_id (f rotation) = rt_application_id rotation → rt_state (f rotation) ≠ "succeeded" →
  (rt_cpa_deployment_id (f rotation) = rt_cpa_deployment_id rotation ∨
   rt_cpa_deployment_id (f rotation) ≠ "" ∧ (∀ d, d ∈ vt_deployments v → dp_id d ≠ rt_cpa_deployment_id (f rotation)) ∧
   ∀ r', r' ∈ vt_rotations v → rt_cpa_deployment_id r' ≠ rt_cpa_deployment_id (f rotation) ∧
                               rt_keeper_deployment_id r' ≠ rt_cpa_deployment_id (f rotation)) →
  (rt_keeper_deployment_id (f rotation) = rt_keeper_deployment_id rotation ∨
   ∀ r', r' ∈ vt_rotations v → rt_cpa_deployment_id r' ≠ rt_keeper_deployment_id (f rotation)) →
  rt_cpa_deployment_id (f rotation) ≠ rt_keeper_deployment_id (f rotation) →
  let v' := with_rotations (sql_update (λ r, rt_id r =?s rt_id rotation) f (vt_rotations v)) v in
  vault_ok v' ∧ open_rotation v' rotation (f rotation).
Proof.
  intros Hv Hr Hst Hid Hsec Happ Hst' Hcpa Hkeeper Hne v'. split.
  - apply (rotation_update_ok v _ f (rt_id rotation)); [done|intros r E; by bool_prop|].
    intros r Hr' E. bool_prop. assert (r = rotation) as -> by (apply (nodup_key_eq rt_id (vt_rotations v)); [apply Hv|done..]).
    split; [done|]. split; [|split; [|split; done]].
    + intros c [A B C]. split; [intros _; rewrite Hid, Hsec; by apply A|done|]. destruct Hcpa as [->|(_ & Hno & _)].
      * rewrite Happ. done.
      * intros d Hd Ed. by destruct (Hno d Hd).
    + destruct Hcpa as [?|(? & _ & ?)]; [by left|by right].
  - split; try done. unfold v'. cbn. apply elem_of_sql_update. exists rotation. split; [done|]. by rewrite String.eqb_refl.
Qed.

Lemma state_cases v id s : vault_ok v → deploymentState id v = Some s →
  s ≠ "pending" → s ≠ "running" → s ≠ "failed" → succeeded_deployment v id.
Proof.
  unfold deploymentState. intros Hv H H1 H2 H3. destruct (sql_row _ _) as [d|] eqn:E; [|discriminate H]. injection H as <-.
  apply sql_row_spec in E as [Hd E]. bool_prop. exists d. split_and!; try done. pose proof (vo_states v Hv d Hd) as Hs.
  unfold deployment_states in Hs. rewrite !elem_of_cons, elem_of_nil in Hs. intuition congruence.
Qed.

Lemma no_deployment v id d : deploymentState id v = None → d ∈ vt_deployments v → dp_id d ≠ id.
Proof.
  unfold deploymentState. intros H Hd. destruct (sql_row _ _) eqn:E; [discriminate H|].
  pose proof (sql_row_none _ _ E d Hd) as Hf. cbn in Hf. by bool_prop.
Qed.

(** The creation of a deployment within a resumption. *)
Lemma vwp_try rd q now (Q : res unit → vault → Prop) E v :
  (∀ x, Q x (fst (CreateDeployment rd q now v))) → vwp (try_deployment rd q now) Q E v.
Proof. intros H. unfold vwp, try_deployment. destruct (CreateDeployment rd q now v) as [v' x] eqn:Ec. by apply (H x). Qed.

Lemma resume_keeper_ok rd rotation agentID credentials retry now v :
  vault_ok v → rotation ∈ vt_rotations v → rt_state rotation ≠ "succeeded" →
  succeeded_deployment v (rt_cpa_deployment_id rotation) → reads_fresh v rd →
  vwp (resume_keeper rd rotation agentID credentials retry now) (λ _ v', vault_ok v') vault_ok v.
Proof.
  intros Hv Hr Hst Hcpa [_ _ Hf]. unfold resume_keeper.
  assert (open_rotation v rotation rotation) as Hopen by done.
  destruct (rt_keeper_deployment_id rotation =?s "") eqn:Ek; bool_prop.
  { eapply finish_ok; [done|exact Hopen|]. by rewrite Ek. }
  apply vwp_bind. unfold vwp at 1, vget. set (keeperState := deploymentState _ v). cbv zeta.
  set (retried := bool_decide (keeperState = Some "failed") && retry). set (keeperID := if retried then rr_keeper_id rd else rt_keeper_deployment_id rotation).
  assert (∀ r', r' ∈ vt_rotations v → rt_cpa_deployment_id r' ≠ keeperID) as Hapart.
  { intros r' Hr'. unfold keeperID. destruct retried; [by apply Hf|]. by apply (vo_apart v Hv). }
  apply vwp_bind. eapply (vwp_mono _ (λ _ v1, vault_ok v1 ∧ (∃ r1, open_rotation v1 rotation r1) ∧
      (∀ r', r' ∈ vt_rotations v1 → rt_cpa_deployment_id r' ≠ keeperID) ∧ (retried = false → v1 = v)) _ vault_ok); [|clear Hopen|done].
  { destruct retried; [|unfold vwp, vok; split_and!; try done; by exists rotation].
    apply vwp_bind. unfold vwp at 1, vget. apply vwp_bind, vwp_fail_if; [done|]. intros _. unfold vwp, update_rotation, vset.
    destruct (update_one v rotation (λ r, set_rotation (rt_cpa_deployment_id r) keeperID "pending" "" (rt_secret_id r) now r)) as [U1 U2];
      try done; cbn; [by left|by right|by apply Hapart|]. split; [done|]. split; [by eexists|]. split; [|done].
    intros r' Hr'. cbn in Hr'. apply elem_of_sql_update in Hr' as (r0 & Hr0 & ->). specialize (Hapart r0 Hr0). by destruct (_ =?s _). }
  intros _ v1 (Hv1 & (r1 & Hopen1) & Hapart1 & Hsame). apply vwp_bind.
  destruct (retried || negb (is_Some_b keeperState)) eqn:Ec.
  - apply vwp_bind, vwp_try. intros x. unfold vwp at 1, vok.
    set (q := mk_request _ _ _ _ _ _). set (v2 := fst (CreateDeployment (rr_keeper rd) q now v1)).
    assert (vault_ok v2) as Hv2 by (by apply create_other_ok).
    destruct x as [u|e]; [by apply vwp_read|]. apply (finish_ok rotation r1); [done| |intros E; discriminate E].
    destruct Hopen1. split; try done. unfold v2. by rewrite create_rotations.
  - apply orb_false_elim in Ec as [Er Es]. unfold vwp at 1, vok. rewrite (Hsame Er). clear Hsame v1 Hv1 r1 Hopen1 Hapart1.
    destruct (_ || _) eqn:Ep; [by apply vwp_read|]. apply orb_false_elim in Ep as [P1 P2]. bool_prop.
    case_bool_decide as P3; [apply (finish_ok rotation rotation); [done|done|intros E; discriminate E]|].
    apply (finish_ok rotation rotation); [done|done|]. intros _. split; [done|]. intros _.
    destruct keeperState as [s|] eqn:Eks; [|discriminate Es]. apply (state_cases v _ s); try done; congruence.
Qed.

(** The node of the application of a rotation. *)
Definition node_of (v : vault) (r : rotation_row) (agentID : string) : Prop :=
  ∃ a, a ∈ vt_applications v ∧ ap_id a = rt_application_id r ∧ ap_node_id a = agentID.

Lemma rotation_credentials v r c :
  rt_state r ≠ "succeeded" → credentialRotationSecrets r v = Ok c → (∃ c', rotation_ok v r c') →
  holds v (rt_secret_id r) ("credential-rotation:" +:+ rt_id r) c.
Proof.
  intros Hst H (c' & Hok). pose proof (ro_secret _ _ _ Hok Hst) as Hh. assert (c' = c) as <-; [|done].
  destruct Hh as (id & E & Hg). unfold credentialRotationSecrets in H. rewrite E, Hg in H. cbn [rbind] in H.
  unfold decodeCPACredentialValues in H. rewrite cpa_round_trip in H. destruct (_ || _); [discriminate H|congruence].
Qed.

Lemma resume_ok rd rotation agentID retry now v :
  vault_ok v → rotation ∈ vt_rotations v → node_of v rotation agentID → reads_fresh v rd →
  vwp (resumeCredentialRotation rd rotation agentID retry now) (λ _ v', vault_ok v') vault_ok v.
Proof.
  intros Hv Hr Hnode Hfresh. unfold resumeCredentialRotation.
  destruct (rt_state rotation =?s "succeeded") eqn:Hst; bool_prop; [done|].
  apply vwp_bind, vwp_read; [done|]. intros credentials Hcred. apply vwp_bind. unfold vwp at 1, vget.
  set (cpaState := deploymentState _ v). cbv zeta. set (retried := bool_decide (cpaState = Some "failed") && retry).
  set (cpaID := if retried then rr_cpa_id rd else rt_cpa_deployment_id rotation).
  assert (open_rotation v rotation rotation) as Hopen by done.
  apply vwp_bind. eapply (vwp_mono _ (λ _ v1, vault_ok v1 ∧ (∃ r1, open_rotation v1 rotation r1 ∧ rt_cpa_deployment_id r1 = cpaID) ∧
      vt_applications v1 = vt_applications v ∧ (retried = true → ∀ d, d ∈ vt_deployments v1 → dp_id d ≠ cpaID) ∧
      holds v1 (rt_secret_id rotation) ("credential-rotation:" +:+ rt_id rotation) credentials ∧
      (retried = false → v1 = v)) _ vault_ok); [| |done].
  { pose proof (rotation_credentials v rotation credentials Hst Hcred (vo_rotations v Hv rotation Hr)) as Hh.
    destruct retried eqn:Er; [|unfold vwp, vok; split_and!; try done; by exists rotation].
    apply vwp_bind. unfold vwp at 1. apply vwp_bind, vwp_fail_if; [done|]. intros _. unfold vwp, update_rotation, vset.
    destruct Hfresh as [Hf0 Hf1 Hf2].
    destruct (update_one v rotation (λ r, set_rotation cpaID (rt_keeper_deployment_id r) "preparing" "" (rt_secret_id r) now r)) as [U1 U2];
      try done; cbn; unfold cpaID.
    - right. split; [done|]. split; [done|]. intros r' Hr'. destruct (Hf2 r' Hr') as (? & ? & _). done.
    - by left.
    - intros E. by destruct (Hf2 rotation Hr) as (_ & ? & _).
    - split; [done|]. split; [by eexists|]. by split_and!. }
  intros _ v1 (Hv1 & (r1 & Hopen1 & Hcpa1) & Happ & Hno & Hh & Hsame). apply vwp_bind.
  destruct (retried || negb (is_Some_b cpaState)) eqn:Ec.
  - apply vwp_bind, vwp_try. intros x. unfold vwp at 1, vok. set (q := mk_request _ _ _ _ _ _).
    set (v2 := fst (CreateDeployment (rr_cpa rd) q now v1)). pose proof Hopen1 as [O1 O2 O3 O4 O5].
    assert (vault_ok v2) as Hv2.
    { unfold v2, q. rewrite <- Hcpa1. apply create_own_ok; try done.
      - by rewrite O3, O2.
      - destruct Hnode as (a & A1 & A2 & A3). exists a. by rewrite Happ, O4.
      - rewrite Hcpa1. intros d Hd. destruct retried eqn:Er; [by apply Hno|]. cbn in Ec. rewrite (Hsame eq_refl) in Hd.
        apply (no_deployment v); [|done]. change (cpaState = None). by destruct cpaState. }
    assert (r1 ∈ vt_rotations v2) as Hr2 by (unfold v2; by rewrite create_rotations).
    destruct x as [u|e].
    + apply vwp_bind. unfold vwp at 1, update_rotation, vset.
      destruct (update_one v2 r1 (λ r, set_rotation (rt_cpa_deployment_id r) (rt_keeper_deployment_id r) "pending"
                                         (rt_last_error r) (rt_secret_id r) now r)) as [U1 _]; try done; cbn.
      * by left.
      * by left.
      * by apply (vo_apart v2 Hv2).
      * rewrite O2 in U1. by apply vwp_read.
    + apply (finish_ok rotation r1); [done|by split|intros E; discriminate E].
  - apply orb_false_elim in Ec as [Er Es]. unfold vwp at 1, vok. rewrite (Hsame Er).
    destruct (_ || _) eqn:Ep; [by apply vwp_read|]. apply orb_false_elim in Ep as [P1 P2]. bool_prop.
    case_bool_decide as P3; [apply (finish_ok rotation rotation); [done|done|intros E; discriminate E]|].
    apply resume_keeper_ok; try done. destruct cpaState as [s|] eqn:Eks; [|discriminate Es].
    apply (state_cases v _ s); try done; congruence.
Qed.

Lemma joined_node r v r' agentID : joined_rotation r v = Some (r', agentID) → r' = r ∧ node_of v r agentID.
Proof.
  unfold joined_rotation. destruct (sql_row _ _) as [a|] eqn:E; [|done]. intros [= <- <-]. split; [done|].
  apply sql_row_spec in E as [Ha E]. bool_prop. by exists a.
Qed.

Lemma by_operation v admin key r agentID :
  credentialRotationByOperation admin key v = Some (r, agentID) → r ∈ vt_rotations v ∧ node_of v r agentID.
Proof.
  unfold credentialRotationByOperation. destruct (sql_row _ _) as [x|] eqn:E; [|done]. intros [-> H]%joined_node.
  apply sql_row_spec in E as [Hx _]. done.
Qed.

Lemma by_deployment v id r agentID :
  credentialRotationByDeployment id v = Some (r, agentID) → r ∈ vt_rotations v ∧ node_of v r agentID.
Proof.
  unfold credentialRotationByDeployment. destruct (sql_row _ _) as [x|] eqn:E; [|done]. intros [-> H]%joined_node.
  apply sql_row_spec in E as [Hx _]. done.
Qed.

(** The random values of a new rotation are not in use. *)
Record ids_fresh (v : vault) (ids : rotation_ids) (rd : resume_reads) : Prop := mk_ids_fresh {
  if_named : ri_cpa ids ≠ "";
  if_apart : ri_cpa ids ≠ ri_keeper ids;
  if_cpa : ∀ d, d ∈ vt_deployments v → dp_id d ≠ ri_cpa ids;
  if_rotations : ∀ r, r ∈ vt_rotations v → rt_keeper_deployment_id r ≠ ri_cpa ids ∧ rt_cpa_deployment_id r ≠ ri_keeper ids;
  if_retry : rr_cpa_id rd ≠ ri_cpa ids ∧ rr_cpa_id rd ≠ ri_keeper ids ∧ rr_keeper_id rd ≠ ri_cpa ids
}.

Lemma create_rotation_ok acc ids rd application adminID key hash target credentials keeper now v :
  vault_ok v → ids_fresh v ids rd → reads_fresh v rd →
  vwp (create_rotation acc ids application adminID key hash target credentials keeper now)
     (λ _ v', vault_ok v' ∧ reads_fresh v' rd) vault_ok v.
Proof.
  intros Hv [I1 I2 I3 I4 (I5 & I6 & I7)] [F1 F2 F3]. unfold create_rotation, putSecret, insert_rotation, vault_event.
  apply vwp_tx, vwp_bind, vwp_bind. unfold vwp at 1, vget. apply vwp_bind, vwp_fail_if; [done|]. intros Hnew.
  apply vwp_bind. unfold vwp at 1, vset. unfold vwp at 1, vok. apply vwp_bind, vwp_bind. unfold vwp at 1. apply vwp_bind, vwp_fail_if; [done|].
  intros Hrow. unfold vwp at 1. unfold vwp at 1. rewrite sql_exists_false in Hnew.
  set (row := mk_rotation _ _ _ _ _ _ _ _ _ _ _ _ _) in *. set (sealed := mk_secret _ _ _ _) in *.
  apply orb_false_elim in Hrow as [_ Hrow]. cbn [with_secrets vt_rotations] in Hrow. rewrite sql_exists_false in Hrow.
  assert (∀ r, r ∈ vt_rotations v → rt_id r ≠ rt_id row ∧ rt_cpa_deployment_id r ≠ ri_cpa ids) as Hkeys.
  { intros r Hr. specialize (Hrow r Hr). cbn [rt_id rt_cpa_deployment_id row] in Hrow.
    repeat (apply orb_false_elim in Hrow as [Hrow ?]). bool_prop. done. }
  set (v1 := with_secrets (vt_secrets v ++ [sealed]) v).
  assert (vault_ok v1) as [H1 H2 H6 H3 H5 H4] by (eapply vault_ok_quiet; [apply quiet_put|done]).
  assert (rt_keeper_deployment_id row = ri_keeper ids ∨ rt_keeper_deployment_id row = "") as Hkeeper by (cbn; destruct keeper; auto).
  split.
  - eapply (vault_ok_quiet (with_rotations (vt_rotations v1 ++ [row]) v1)); [apply quiet_event|]. split; cbn.
    + rewrite map_app. apply NoDup_app. split; [done|]. split; [|apply NoDup_singleton].
      intros x (r & -> & Hr)%list_elem_of_fmap Hx%list_elem_of_singleton. by destruct (Hkeys r Hr).
    + rewrite map_app. apply NoDup_app. split; [done|]. split; [|apply NoDup_singleton].
      intros x (r & -> & Hr)%list_elem_of_fmap Hx%list_elem_of_singleton. by destruct (Hkeys r Hr).
    + intros r [Hr|Hr]%elem_of_app; [by apply H6|]. by apply list_elem_of_singleton in Hr as ->.
    + intros r r' [Hr|Hr]%elem_of_app [Hr'|Hr']%elem_of_app.
      * by apply H3.
      * apply list_elem_of_singleton in Hr' as ->. destruct Hkeeper as [->| ->]; [by apply I4|by apply H6].
      * apply list_elem_of_singleton in Hr as ->. cbn. intros E. by destruct (I4 r' Hr') as [? _].
      * apply list_elem_of_singleton in Hr as ->. apply list_elem_of_singleton in Hr' as ->.
        destruct Hkeeper as [->| ->]; done.
    + done.
    + intros r [Hr|Hr]%elem_of_app; [destruct (H4 r Hr) as [c Hc]; exists c; by apply rotation_ok_with|].
      apply list_elem_of_singleton in Hr as ->. exists credentials. split; cbn; [|done|].
      * intros _. exists (ri_secret ids). split; [done|]. unfold getSecret. cbn. unfold sql_row.
        assert (List.find (λ r, sc_id r =?s ri_secret ids) (vt_secrets v ++ [sealed]) = Some sealed) as ->.
        { clear -Hnew. induction (vt_secrets v) as [|y l IH]; cbn; [by rewrite String.eqb_refl|].
          rewrite (Hnew y) by left. apply IH. intros z Hz. apply Hnew. by right. }
        unfold sealed. cbn. by rewrite unseal_seal.
      * intros d Hd Ed. by destruct (I3 d Hd).
  - split; [done|done|]. cbn. intros r [Hr|Hr]%elem_of_app; [by apply F3|]. apply list_elem_of_singleton in Hr as ->. cbn.
    split_and!; [congruence| |congruence]. destruct keeper; congruence.
Qed.

Lemma rejected_ok {A} application agentID adminID target message e (Q : A → vault → Prop) v :
  vault_ok v → vwp (rejected_attempt application agentID adminID target message e) Q vault_ok v.
Proof.
  intros Hv. unfold rejected_attempt. apply vwp_bind. unfold vwp at 1, vault_event, vset. unfold vwp, verr.
  eapply vault_ok_quiet; [apply quiet_event|done].
Qed.

Lemma rotate_ok acc ids rd application adminID password key target confirm approved now v :
  vault_ok v → ids_fresh v ids rd → reads_fresh v rd →
  vwp (rotateApplicationCredentials acc ids rd application adminID password key target confirm approved now)
     (λ _ v', vault_ok v') vault_ok v.
Proof.
  intros Hv Hi Hr. unfold rotateApplicationCredentials. apply vwp_bind, vwp_read; [done|]. intros app _. cbv zeta.
  destruct (_ || _); [by apply rejected_ok|]. destruct (_ && _); [by apply rejected_ok|]. destruct (negb confirm); [by apply rejected_ok|].
  destruct (if approved then _ else _); [|by apply rejected_ok].
  destruct (normalizeSecretOperation adminID key) as [[admin hash]|]; [|by apply rejected_ok].
  apply vwp_bind. unfold vwp at 1, vget. destruct (credentialRotationByOperation admin hash v) as [[rotation agent]|] eqn:Ex.
  - apply vwp_bind, vwp_fail_if; [done|]. intros _. apply by_operation in Ex as [Hin Hnode]. by apply resume_ok.
  - apply vwp_bind. unfold vwp at 1. destruct (sql_exists _ _); [by apply rejected_ok|]. apply vwp_bind. unfold vwp at 1.
    destruct (currentCPACredentials _ v) as [current|]; [|by apply rejected_ok]. apply vwp_bind. unfold vwp at 1. apply vwp_bind.
    eapply vwp_mono; [by apply (create_rotation_ok acc ids rd)| |done]. intros _ v1 [Hv1 Hr1]. apply vwp_bind. unfold vwp at 1.
    destruct (credentialRotationByOperation admin hash v1) as [[rotation agent]|] eqn:Ec; [|done].
    apply by_operation in Ec as [Hin Hnode]. by apply resume_ok.
Qed.

(** ** Sequences of operations *)
Inductive rotation_step : vault → vault → Prop :=
| step_rotate acc ids rd application adminID password key target confirm approved now v :
    ids_fresh v ids rd → reads_fresh v rd →
    rotation_step v (fst (rotateApplicationCredentials acc ids rd application adminID password key target confirm approved now v))
| step_resume rd deploymentID now v :
    reads_fresh v rd → rotation_step v (fst (resumeCredentialRotationForDeployment rd deploymentID now v))
| step_progress id state error required now v :
    state ∈ deployment_states → rotation_step v (progress id state error required now v)
| step_deploy rd q now v :
    (∀ r, r ∈ vt_rotations v → rt_cpa_deployment_id r ≠ rq_id q) → rotation_step v (fst (CreateDeployment rd q now v)).

Lemma vwp_fst {A} (m : V A) (Q : vault → Prop) v : vwp m (λ _, Q) Q v → Q (fst (m v)).
Proof. unfold vwp. by destruct (m v) as [v' []]. Qed.

Lemma rotation_step_ok v v' : rotation_step v v' → vault_ok v → vault_ok v'.
Proof.
  intros [acc ids rd app adm pw key target confirm approved now w H1 H2|rd id now w H|id state error required now w H|rd q now w H] Hv.
  - apply vwp_fst. by apply rotate_ok.
  - unfold resumeCredentialRotationForDeployment, vbind, vget. destruct (credentialRotationByDeployment id w) as [[r a]|] eqn:E; [|done].
    apply by_deployment in E as [Hin Hnode]. cbn. apply vwp_fst. by apply resume_ok.
  - eapply vault_ok_quiet; [by apply quiet_progress|done].
  - by apply create_other_ok.
Qed.

Lemma steps_ok v v' : rtc rotation_step v v' → vault_ok v → vault_ok v'.
Proof. induction 1 as [|v1 v2 v3 H12 H23 IH]; [done|]. intros Hv. by apply IH, (rotation_step_ok v1). Qed.

Lemma start_ok v : vt_rotations v = [] → (∀ d, d ∈ vt_deployments v → dp_state d ∈ deployment_states) → vault_ok v.
Proof.
  intros H0 Hs. split; rewrite ?H0; try apply NoDup_nil_2; try done.
  - intros r Hr. by apply not_elem_of_nil in Hr.
  - intros r r' Hr. by apply not_elem_of_nil in Hr.
  - intros r Hr. by apply not_elem_of_nil in Hr.
Qed.

(** C25 -- A rotation is forgotten only when it was installed: whatever rotations are
    requested, repeated and resumed, and however the deployments proceed, every stored
    rotation has credentials such that (1) until it has succeeded they can be opened
    under its identifier; (2) a deployment with its identifier configures CPA on the
    node of the application with exactly them; and (3) once it has succeeded the
    rotation holds no secret, its CPA deployment has succeeded, and so has its Keeper
    deployment when it has one. *)
Theorem rotations_are_installed v0 v r :
  vt_rotations v0 = [] → (∀ d, d ∈ vt_deployments v0 → dp_state d ∈ deployment_states) → rtc rotation_step v0 v →
  r ∈ vt_rotations v →
  ∃ c, (rt_state r ≠ "succeeded" → holds v (rt_secret_id r) ("credential-rotation:" +:+ rt_id r) c) ∧
    (∀ d, d ∈ vt_deployments v → dp_id d = rt_cpa_deployment_id r →
       dp_app_key d = Ingress.cpaAppKey ∧ dp_operation d = "configure" ∧ node_of v r (dp_agent_id d) ∧
       holds v (dp_secret_id d) ("deployment:" +:+ dp_id d) c) ∧
    (rt_state r = "succeeded" → rt_secret_id r = None ∧ succeeded_deployment v (rt_cpa_deployment_id r) ∧
       (rt_keeper_deployment_id r ≠ "" → succeeded_deployment v (rt_keeper_deployment_id r))).
Proof.
  intros H0 Hs Hrtc Hr. pose proof (steps_ok _ _ Hrtc (start_ok v0 H0 Hs)) as Hv.
  destruct (vo_rotations v Hv r Hr) as [c [A B C]]. exists c. by split_and!.
Qed.
End Rotations.

(** ** Two rotations of one application *)
Module Rotated.
Import VaultSpec.Shown AdminSpec.Attack.

Definition start : Z := 1767225600 * second.
Definition minutes (n : Z) : Z := start + n * minute.

Definition installed : vault :=
  mk_vault [mk_secret "secret-0" (seal "deployment:deployment-0" (cpa_json (mk_cpa "management-0" "client-0"))) "" ""] []
    [mk_deployment "deployment-0" "node-1" Ingress.cpaAppKey "install" "succeeded" false (Some "secret-0") "application-1" ""
       (rfc3339nano start) (rfc3339nano start)]
    [mk_application "application-1" "node-1" Ingress.cpaAppKey "" "running"] [] [] [].

Definition administrators : access := mk_access [mk_admin "admin-1" "admin" "" ""] [] ∅.

(** The checks that are not modelled pass; [n] numbers the new secrets and retries. *)
Definition passing (n : string) : create_reads := mk_create_reads (Ok tt) (Ok tt) (Ok tt) "{}" "application-1" ("deployment-secret-" +:+ n) ("management-" +:+ n, "api-" +:+ n).
Definition reads (n : string) : resume_reads :=
  mk_resume_reads ("retried-" +:+ n) ("retried-keeper-" +:+ n) (passing n) (passing ("keeper-" +:+ n)).
Definition ids (n : string) : rotation_ids :=
  mk_rotation_ids ("replacement-" +:+ n) ("rotation-" +:+ n) ("cpa-" +:+ n) ("keeper-" +:+ n) ("rotation-secret-" +:+ n).

Definition rotate (n key target : string) (now : Z) (v : vault) : vault :=
  fst (rotateApplicationCredentials administrators (ids n) (reads n) "application-1" "admin-1" "" key target true true now v).
Definition settle (id state n : string) (now : Z) (v : vault) : vault :=
  fst (resumeCredentialRotationForDeployment (reads n) id now (progress id state "" false now v)).

(** The first rotation is refused by CPA, the second one succeeds. *)
Definition refused : vault :=
  settle "cpa-a" "failed" "b" (minutes 2) (rotate "a" "operation-key-of-a" "management" (minutes 1) installed).
Definition rotated : vault :=
  settle "cpa-c" "succeeded" "d" (minutes 4) (rotate "c" "operation-key-of-c" "client" (minutes 3) refused).

(** The administrator repeats the first request with its key. *)
Definition repeated : vault :=
  settle "retried-e" "succeeded" "f" (minutes 6) (rotate "e" "operation-key-of-a" "management" (minutes 5) rotated).

Example first_is_refused : map rt_state (vt_rotations refused) = ["failed"].
Proof. vm_compute. reflexivity. Qed.

(** Repeating a refused rotation installs the credentials it stored when it was made, and
    with them the client key that a later rotation has replaced. *)
Example retry_restores_a_rotated_key :
  map rt_state (vt_rotations rotated) = ["failed"; "succeeded"] ∧
  currentCPACredentials "node-1" rotated = Ok (mk_cpa "management-0" "replacement-c") ∧
  map rt_state (vt_rotations repeated) = ["succeeded"; "succeeded"] ∧
  currentCPACredentials "node-1" repeated = Ok (mk_cpa "replacement-a" "client-0").
Proof. vm_compute. done. Qed.

(** A refused key is recorded without the administrator who sent it. *)
Example refused_key_is_anonymous :
  map au_message (vt_events (rotate "a" "short" "client" (minutes 1) installed)) =
  ["CPA client credential rotation rejected for administrator : invalid idempotency key"].
Proof. vm_compute. reflexivity. Qed.

Ltac unused_ids :=
  repeat match goal with
  | |- reads_fresh _ _ => split
  | |- ids_fresh _ _ _ => split
  | |- _ ∧ _ => split
  | |- ∀ x, x ∈ _ → _ => apply Forall_forall; vm_compute; repeat (apply Forall_cons; split; [split_and?; discriminate|]); by apply Forall_nil
  | |- _ ≠ _ => by vm_compute
  end.

Lemma rotate_step n key target now v : ids_fresh v (ids n) (reads n) → reads_fresh v (reads n) → rotation_step v (rotate n key target now v).
Proof. apply step_rotate. Qed.

Lemma settle_steps id state n now v :
  state ∈ deployment_states → reads_fresh (progress id state "" false now v) (reads n) → rtc rotation_step v (settle id state n now v).
Proof. intros H1 H2. eapply rtc_l; [by apply (step_progress id state "" false now)|]. by apply rtc_once, step_resume. Qed.

Lemma reached : rtc rotation_step installed rotated.
Proof.
  eapply rtc_l; [apply (rotate_step "a" "operation-key-of-a" "management" (minutes 1)); unused_ids|].
  eapply rtc_trans; [apply (settle_steps "cpa-a" "failed" "b" (minutes 2)); [by do 3 right; left|unused_ids]|].
  eapply rtc_l; [apply (rotate_step "c" "operation-key-of-c" "client" (minutes 3)); unused_ids|].
  apply (settle_steps "cpa-c" "succeeded" "d" (minutes 4)); [by do 2 right; left|unused_ids].
Qed.

(** The second rotation has succeeded. *)
Definition succeeded_rotation : rotation_row :=
  default (mk_rotation "" "" "" "" "" "" None "" "" "" "" "" "") (vt_rotations rotated !! 1%nat).

Lemma rotations_are_installed_witness :
  rt_state succeeded_rotation = "succeeded" ∧ rt_secret_id succeeded_rotation = None ∧ succeeded_deployment rotated "cpa-c".
Proof.
  assert (rt_state succeeded_rotation = "succeeded") as Hst by (vm_compute; reflexivity).
  split; [exact Hst|].
  destruct (rotations_are_installed installed rotated succeeded_rotation) as (c & _ & _ & H).
  - reflexivity.
  - apply Forall_forall. vm_compute. repeat constructor.
  - exact reached.
  - apply list_elem_of_lookup. exists 1%nat. vm_compute. reflexivity.
  - destruct (H Hst) as (H1 & H2 & _). split; [exact H1|exact H2].
Defined.
End Rotated.
