(* ===== verification/Enrollment.v ===== *)
(** * Enrolment and replacement of machines

    internal/center/store_agent.go, agent_enrollment_status.go, agent_install.go,
    agent_reinstall_operation.go, agent_reinstall_network.go and parts of agent_removal.go
    and topology.go: how a machine becomes an Agent.  An administrator issues a token; the
    machine exchanges it once for its identity and credential, and may repeat the exchange
    when the reply was lost.  A machine is replaced by an operation that fences the old one
    first, withdraws its private network identity, and only then issues a token bound to
    the Agent.  Random values, readings of the clock and the answers of the private
    network controller are arguments; encodings are the class [EnrollmentCodec]. *)
From Stdlib Require Import Ascii.
From S2P Require Import Prelude GoText GoTime Store Execution Handoff Workflows Envelope GoNet.

Definition agentEnrollmentReplayLifetime : Z := 24 * hour.
Definition enrollmentLifetime : Z := 10 * minute.

(** ** Data *)
Record AgentEnrollment := mk_enrollment {
  en_token : string; en_site_id : string; en_center_url : string; en_installer_url : string;
  en_ca_certificate : string; en_expires_at : Z
}.

Record AgentEnrollmentSpec := mk_spec {
  sp_landing_only : bool; sp_site_id : string; sp_name : string; sp_center_url : string; sp_gateway : bool;
  sp_tunnel : bool; sp_use_headscale : bool; sp_ca_fingerprint : string; sp_ca_certificate : string
}.

(** [NodeCapabilities]; the fields that no operation reads are one text. *)
Record NodeCapabilities := mk_capabilities {
  nc_docker : bool; nc_landing_only : bool; nc_native_egress : bool; nc_gateway : bool; nc_tunnel : bool;
  nc_metrics : bool; nc_logs : bool; nc_other : string
}.

Record InstallProfile := mk_profile {
  pf_name : string; pf_center_url : string; pf_roles : list string; pf_capabilities : NodeCapabilities;
  pf_headscale_command : string; pf_headscale_url : string; pf_headscale_addresses : list string;
  pf_ca_fingerprint : string; pf_ca_certificate : string
}.

Record AgentCredential := mk_credential {
  ac_id : string; ac_credential : string; ac_name : string; ac_roles : list string;
  ac_capabilities : NodeCapabilities
}.

Record reinstallPrivateIdentity := mk_private_identity {
  pv_ownership : string; pv_endpoint : string; pv_id : string; pv_node_key : string; pv_address : string
}.

Record url := mk_url {
  u_scheme : string; u_host : string; u_hostname : string; u_user : bool; u_raw_query : string;
  u_fragment : string; u_opaque : string; u_path : string; u_raw_path : string
}.

Record ca_certificate := mk_ca {
  x_is_ca : bool; x_basic_constraints : bool; x_subject_public_key : string; x_raw : string
}.

Class EnrollmentCodec := {
  parse_url : string → option url;
  pem_decode : string → option (string * string * string);       (* type, bytes, rest *)
  pem_certificate : string → string;
  parse_certificate : string → option ca_certificate;
  roles_json : list string → string;
  roles_of_json : string → option (list string);
  capabilities_json : NodeCapabilities → string;
  capabilities_of_json : string → option NodeCapabilities;
  credential_json : AgentCredential → string;
  credential_of_json : string → option AgentCredential;
  credential_round_trip : ∀ c, credential_of_json (credential_json c) = Some c;
  enrollment_json : AgentEnrollment → string;
  enrollment_of_json : string → option AgentEnrollment;
  enrollment_round_trip : ∀ e, enrollment_of_json (enrollment_json e) = Some e;
  identity_json : reinstallPrivateIdentity → string;
  identity_of_json : string → option reinstallPrivateIdentity;
  identity_round_trip : ∀ i, identity_of_json (identity_json i) = Some i;
  request_json : string → string → string → string → string;     (* version, platform, key *)
  url_base64 : string → string;
  url_base64_decode : string → option string
}.

(** ** The tables *)
Definition with_tokens (l : list token_row) (st : Store) : Store :=
  let g := registry st in
  with_registry (mk_registry l (rg_operations g) (rg_secrets g) (rg_sites g) (rg_removals g) (rg_candidates g)
                   (rg_peers g) (rg_profiles g) (rg_profile_recoveries g)) st.
Definition with_operations (l : list enrollment_row) (st : Store) : Store :=
  let g := registry st in
  with_registry (mk_registry (rg_tokens g) l (rg_secrets g) (rg_sites g) (rg_removals g) (rg_candidates g)
                   (rg_peers g) (rg_profiles g) (rg_profile_recoveries g)) st.
Definition with_sealed (l : list sealed_row) (st : Store) : Store :=
  let g := registry st in
  with_registry (mk_registry (rg_tokens g) (rg_operations g) l (rg_sites g) (rg_removals g) (rg_candidates g)
                   (rg_peers g) (rg_profiles g) (rg_profile_recoveries g)) st.
Definition with_removals (l : gset string) (st : Store) : Store :=
  let g := registry st in
  with_registry (mk_registry (rg_tokens g) (rg_operations g) (rg_secrets g) (rg_sites g) l (rg_candidates g)
                   (rg_peers g) (rg_profiles g) (rg_profile_recoveries g)) st.
Definition with_network (candidates : list (string * string)) (peers : gmap string (string * string))
    (profiles : gmap string (option string)) (recoveries : gmap string (string * string)) (st : Store) : Store :=
  let g := registry st in
  with_registry (mk_registry (rg_tokens g) (rg_operations g) (rg_secrets g) (rg_sites g) (rg_removals g)
                   candidates peers profiles recoveries) st.

Definition tokens (st : Store) := rg_tokens (registry st).
Definition operations (st : Store) := rg_operations (registry st).
Definition sealed_secrets (st : Store) := rg_secrets (registry st).

Definition change (f : Store → Store) : M unit := λ st, (f st, Ok tt).

Definition set_bootstrap (id : option string) (t : token_row) : token_row :=
  mk_token (tk_hash t) (tk_site_id t) (tk_name t) (tk_center_url t) (tk_roles_json t) (tk_capabilities_json t) id
    (tk_ca_fingerprint t) (tk_ca_certificate_pem t) (tk_target_agent_id t) (tk_expires_at t) (tk_used_at t).
Definition set_used (now : string) (t : token_row) : token_row :=
  mk_token (tk_hash t) (tk_site_id t) (tk_name t) (tk_center_url t) (tk_roles_json t) (tk_capabilities_json t) None
    (tk_ca_fingerprint t) (tk_ca_certificate_pem t) (tk_target_agent_id t) (tk_expires_at t) (Some now).

(** [id IN (..)] for a column that may be NULL. *)
Definition null_in (id : option string) (l : list string) : bool :=
  match id with Some i => str_in i l | None => false end.

(** [DELETE FROM secrets WHERE id IN (..)]: the reference of an enrolment operation
    refuses it, that of a token is set to NULL. *)
Definition delete_secrets (ids : list string) : M unit :=
  do! used := query (λ st, sql_exists (λ o, str_in (eo_response_secret_id o) ids) (operations st)) in
  fail_if used "FOREIGN KEY constraint failed" ;;;
  change (λ st, with_tokens (sql_update (λ t, null_in (tk_bootstrap_secret_id t) ids) (set_bootstrap None) (tokens st))
                  (with_sealed (List.filter (λ s, negb (str_in (sl_id s) ids)) (sealed_secrets st)) st)).

(** [DELETE FROM agent_enrollment_operations WHERE ..] with its trigger. *)
Definition delete_operations (wh : enrollment_row → bool) : M unit :=
  do! gone := query (λ st, map eo_response_secret_id (List.filter wh (operations st))) in
  change (λ st, with_operations (List.filter (λ o, negb (wh o)) (operations st)) st) ;;;
  delete_secrets gone.

(** [DELETE FROM agent_enrollment_tokens WHERE ..] with its cascade. *)
Definition delete_tokens (wh : token_row → bool) : M unit :=
  do! gone := query (λ st, map tk_hash (List.filter wh (tokens st))) in
  change (λ st, with_tokens (List.filter (λ t, negb (wh t)) (tokens st)) st) ;;;
  delete_operations (λ o, str_in (eo_token_hash o) gone).

(** The secrets that the tokens selected by [wh] refer to. *)
Definition bootstrap_secrets (wh : token_row → bool) (st : Store) : list string :=
  omap tk_bootstrap_secret_id (List.filter wh (tokens st)).

Definition for_target (agentID : string) (t : token_row) : bool := bool_decide (tk_target_agent_id t = Some agentID).

Definition insert_token (t : token_row) : M unit :=
  do! taken := query (λ st, sql_exists (λ x, (tk_hash x =?s tk_hash t)
                 || is_Some_b (tk_target_agent_id t) && bool_decide (tk_target_agent_id x = tk_target_agent_id t)) (tokens st)) in
  fail_if taken "center: create agent enrollment" ;;;
  change (λ st, with_tokens (tokens st ++ [t]) st).

Definition insert_operation (o : enrollment_row) : M unit :=
  do! taken := query (λ st, sql_exists (λ x, (eo_token_hash x =?s eo_token_hash o)
                 || (eo_operation_id x =?s eo_operation_id o) || (eo_agent_id x =?s eo_agent_id o)) (operations st)) in
  fail_if taken "center: save Agent enrollment operation" ;;;
  change (λ st, with_operations (operations st ++ [o]) st).

Definition insert_agent (a : agent_row) : M unit :=
  do! taken := query (λ st, sql_exists (λ x, (ag_id x =?s ag_id a)
                 || (ag_credential_hash x =?s ag_credential_hash a)) (agents st)) in
  fail_if taken "center: save agent" ;;;
  change (λ st, with_agents (agents st ++ [a]) st).

Definition update_agents (wh : agent_row → bool) (f : agent_row → agent_row) : M Z :=
  λ st, (with_agents (sql_update wh f (agents st)) st, Ok (sql_affected wh (agents st))).

Definition update_reinstalls (wh : reinstall_row → bool) (f : reinstall_row → reinstall_row) : M Z :=
  λ st, (with_reinstalls (sql_update wh f (reinstall_operations st)) st, Ok (sql_affected wh (reinstall_operations st))).

(** [credential_revoked_at] and [status] of an agent. *)
Definition set_revoked (status revoked : string) (a : agent_row) : agent_row :=
  mk_agent (ag_id a) status (ag_credential_hash a) revoked (ag_version a) (ag_last_seen_at a)
    (ag_remote_update_supported a) (ag_name a) (ag_runtime_recovery a) (ag_public_key a) (ag_operating_system a)
    (ag_architecture a) (ag_applied_installations a) (ag_enrolled_at a) (ag_site_id a) (ag_roles_json a)
    (ag_capabilities_json a) (ag_gateway_healthy a) (ag_runtime_generation a) (ag_tailscale_ownership a)
    (ag_public_egress a).

(** The columns a reinstallation changes: state, error, time; attempt; sealed command. *)
Definition set_reinstall (state error now : string) (attempt : Z) (hash sealed : option string) (fingerprint isolation : string)
    (r : reinstall_row) : reinstall_row :=
  mk_reinstall (ro_id r) (ro_agent_id r) (ro_authorized_by r) (ro_plan_revision r) (ro_plan_json r)
    (ro_previous_fingerprint r) fingerprint (ro_private_identity_json r) isolation attempt state hash sealed error
    (ro_created_at r) now.

(** ** Texts *)
Definition hex_digit (n : nat) : ascii := nth n (String.list_ascii_of_string "0123456789abcdef") "0"%char.

(** [hex.EncodeToString]. *)
Definition hex_encode (s : string) : string :=
  String.string_of_list_ascii
    (flat_map (λ c, let n := nat_of_ascii c in [hex_digit (Nat.div n 16); hex_digit (Nat.modulo n 16)])
       (String.list_ascii_of_string s)).

(** [hex.DecodeString] gives 32 bytes. *)
Definition hex_digest (s : string) : bool :=
  forallb (λ c, is_Some_b (hex_value c)) (String.list_ascii_of_string s) && (str_len s =? 2 * 32).

(** [strings.TrimRight(s, "/")]. *)
Fixpoint drop_slashes (l : list ascii) : list ascii :=
  match l with c :: l' => if Ascii.eqb c "/"%char then drop_slashes l' else l | [] => [] end.
Definition trim_slashes (s : string) : string :=
  String.string_of_list_ascii (rev (drop_slashes (rev (String.list_ascii_of_string s)))).

(** [strings.TrimPrefix(s, "nodekey:")]. *)
Definition trim_node_key (s : string) : string :=
  if has_prefix "nodekey:" s then String.substring 8 (String.length s - 8) s else s.

(** [strings.EqualFold(s, "localhost")]: the long s folds to s. *)
Fixpoint fold_text (l : list nat) : list nat :=
  match l with
  | 197%nat :: 191%nat :: l' => 115%nat :: fold_text l'
  | c :: l' => fold_ascii c :: fold_text l'
  | [] => []
  end.
Definition is_localhost (s : string) : bool := bool_decide (fold_text (bytes_of s) = bytes_of "localhost").

Definition operation_char (c : nat) : bool :=
  (Nat.leb 97 c && Nat.leb c 122) || (Nat.leb 65 c && Nat.leb c 90) || (Nat.leb 48 c && Nat.leb c 57)
  || Nat.eqb c 45 || Nat.eqb c 95 || Nat.eqb c 46.

Definition validAgentEnrollmentOperationID (value : string) : bool :=
  negb ((str_len value <? 16) || (128 <? str_len value)) && forallb operation_char (bytes_of value).

(** [platform.Parse]. *)
Definition platform_Parse (operatingSystem architecture : string) : res (string * string) :=
  let os := trim_space operatingSystem in
  let arch := trim_space architecture in
  guard_err (negb (os =?s "linux") || negb (arch =?s "amd64") && negb (arch =?s "arm64"))
    "center: invalid Agent platform" ;;!
  Ok (os, arch).

(** [strconv.ParseUint(_, 10, 64)] and its canonical text. *)
Definition validHeadscaleNodeID (id : string) : bool :=
  match parse_unsigned id with
  | Some n => (n <? 2 ^ 64) && (0 <? n) && (decimal n =?s id)
  | None => false
  end.

Definition loopbackHost (host : string) : bool :=
  is_localhost host ||
  match ParseIP host with
  | Some address => is_Some_b (To4 address) && IsLoopback address
  | None => false
  end.

Section Enrollment.
Context {L : Libraries} {K : Crypto} {EC : EnrollmentCodec}.

Definition NormalizeAgentConnectURL (value : string) : res string :=
  let value := trim_slashes (trim_space value) in
  match parse_url value with
  | None => Err "center: Agent connection URL is invalid"
  | Some u =>
      guard_err ((u_host u =?s "") || u_user u || negb (u_raw_query u =?s "") || negb (u_fragment u =?s "")
                 || negb (u_opaque u =?s "")) "center: Agent connection URL is invalid" ;;!
      guard_err (negb (u_path u =?s "") || negb (u_raw_path u =?s ""))
        "center: Agent connection URL cannot contain a path" ;;!
      (if u_scheme u =?s "https" then Ok value else
       guard_err (negb (u_scheme u =?s "http") || negb (loopbackHost (u_hostname u)))
         "center: Agent connection URL must use HTTPS; HTTP is allowed only on loopback" ;;!
       Ok value)
  end.

(** [putSecret] and [getSecret] on the secrets of this component. *)
Definition putSecret (id value additionalData : string) : M string :=
  do! taken := query (λ st, sql_exists (λ s, sl_id s =?s id) (sealed_secrets st)) in
  fail_if taken "center: save secret" ;;;
  change (λ st, with_sealed (sealed_secrets st ++ [mk_sealed id (seal additionalData value)]) st) ;;;
  ok id.

Definition getSecret (id additionalData : string) (st : Store) : res string :=
  match sql_row (λ s, sl_id s =?s id) (sealed_secrets st) with
  | None => Err "center: read secret"
  | Some s => match unseal additionalData (sl_sealed s) with
              | Some value => Ok value
              | None => Err "center: decrypt secret"
              end
  end.

Definition agentEnrollmentSecretContext (token : string) : string :=
  "agent-enrollment:" +:+ hex_encode (token_hash token).

Definition agentEnrollmentOperationSecretContext (hash operationID : string) : string :=
  "agent-enrollment-operation:" +:+ hex_encode hash +:+ ":" +:+ operationID.

(** ** Profiles *)
Definition decodeAgentEnrollmentRuntime (rolesJSON capabilitiesJSON : string) : res (list string * NodeCapabilities) :=
  match roles_of_json rolesJSON, capabilities_of_json capabilitiesJSON with
  | Some roles, Some caps =>
      guard_err (Nat.eqb (length roles) 0 || Nat.ltb 2 (length roles) || negb (str_in "worker" roles))
        "center: stored Agent enrollment roles are invalid" ;;!
      guard_err (existsb (λ role, negb (role =?s "worker") && negb (role =?s "gateway")) roles)
        "center: stored Agent enrollment roles are invalid" ;;!
      guard_err (nc_landing_only caps && (nc_docker caps || nc_gateway caps || nc_tunnel caps || negb (nc_native_egress caps)))
        "center: invalid landing-only enrollment capabilities" ;;!
      guard_err (negb (nc_docker caps) && negb (nc_landing_only caps)
                 || negb (Bool.eqb (nc_gateway caps) (str_in "gateway" roles)) || nc_metrics caps || nc_logs caps)
        "center: stored Agent enrollment capabilities are invalid" ;;!
      Ok (roles, caps)
  | _, _ => Err "center: stored Agent enrollment profile is invalid"
  end.

(** The instant until which a token is good for: its own deadline, and after its use that
    of the operation. *)
Definition valid_until (hash : string) (st : Store) : res string :=
  match sql_row (λ t, tk_hash t =?s hash) (tokens st) with
  | None => Err "center: agent enrollment token is invalid"
  | Some t =>
      match tk_used_at t with
      | None => Ok (tk_expires_at t)
      | Some _ => match sql_row (λ o, eo_token_hash o =?s hash) (operations st) with
                  | Some o => Ok (eo_expires_at o)
                  | None => Err "center: agent enrollment token is invalid"
                  end
      end
  end.

Definition not_expired (validUntil : string) (now : Z) : res unit :=
  match parse_rfc3339 validUntil with
  | Some expires => guard_err (negb (now <? expires)) "center: agent enrollment token has expired"
  | None => Err "center: agent enrollment token has expired"
  end.

Definition ValidateAgentEnrollment (token : string) (now : Z) (st : Store) : res unit :=
  guard_err (trim_space token =?s "") "center: agent enrollment token is invalid" ;;!
  let! validUntil := valid_until (token_hash token) st in
  not_expired validUntil now.

(** [isolation] is the outcome of [tailscaleIsolationDesiredState]. *)
Definition AgentEnrollmentInstallProfile (token : string) (isolation : res (option (string * list string))) (now : Z)
    (st : Store) : res InstallProfile :=
  let token := trim_space token in
  guard_err (token =?s "") "center: agent enrollment token is invalid" ;;!
  let! validUntil := valid_until (token_hash token) st in
  not_expired validUntil now ;;!
  match sql_row (λ t, tk_hash t =?s token_hash token) (tokens st) with
  | None => Err "center: agent enrollment token is invalid"
  | Some t =>
      let! runtime := decodeAgentEnrollmentRuntime (tk_roles_json t) (tk_capabilities_json t) in
      match NormalizeAgentConnectURL (tk_center_url t) with
      | Err _ => Err "center: stored Agent connection URL is invalid"
      | Ok normalized =>
          guard_err (negb (normalized =?s tk_center_url t)) "center: stored Agent connection URL is invalid" ;;!
          let profile command address addresses :=
            mk_profile (tk_name t) (tk_center_url t) (fst runtime) (snd runtime) command address addresses
              (tk_ca_fingerprint t) (tk_ca_certificate_pem t) in
          match tk_bootstrap_secret_id t with
          | None => Ok (profile "" "" [])
          | Some id =>
              let! command := getSecret id (agentEnrollmentSecretContext token) st in
              let! state := isolation in
              match state with
              | None => Err "center: Headscale isolation state is unavailable"
              | Some (address, addresses) => Ok (profile command address addresses)
              end
          end
      end
  end.

(** ** Issuing a token *)

(** The name, address and certificate authority of a specification. *)
Definition normalize_spec (spec : AgentEnrollmentSpec) : res AgentEnrollmentSpec :=
  let site := trim_space (sp_site_id spec) in
  let name := trim_space (sp_name spec) in
  guard_err ((name =?s "") || (128 <? str_len name)) "center: agent name must be 1 to 128 characters" ;;!
  let! centerURL := NormalizeAgentConnectURL (sp_center_url spec) in
  let fingerprint := to_lower (trim_space (sp_ca_fingerprint spec)) in
  let pem := trim_space (sp_ca_certificate spec) in
  let result fingerprint pem :=
    mk_spec (sp_landing_only spec) site name centerURL (sp_gateway spec) (sp_tunnel spec) (sp_use_headscale spec)
      fingerprint pem in
  guard_err (negb (pem =?s "") && negb (has_prefix "https://" centerURL))
    "center: Agent CA certificate can be used only with an HTTPS Center URL" ;;!
  if negb (pem =?s "") then
    match pem_decode pem with
    | None => Err "center: Agent CA certificate must contain exactly one PEM certificate"
    | Some (kind, bytes, rest) =>
        guard_err (negb (kind =?s "CERTIFICATE") || negb (trim_space rest =?s ""))
          "center: Agent CA certificate must contain exactly one PEM certificate" ;;!
        match parse_certificate bytes with
        | None => Err "center: Agent CA certificate is invalid"
        | Some certificate =>
            guard_err (negb (x_is_ca certificate) || negb (x_basic_constraints certificate))
              "center: Agent CA certificate is invalid" ;;!
            let actual := sha256_hex (x_subject_public_key certificate) in
            guard_err (negb (fingerprint =?s "") && negb (fingerprint =?s actual))
              "center: Agent CA certificate does not match its expected fingerprint" ;;!
            guard_err (negb (actual =?s "") && negb (hex_digest actual))
              "center: Agent CA fingerprint must be a SHA-256 public-key fingerprint" ;;!
            Ok (result actual (pem_certificate (x_raw certificate)))
        end
    end
  else
    guard_err (negb (fingerprint =?s "")) "center: Agent CA certificate is required with a private CA fingerprint" ;;!
    Ok (result fingerprint pem).

(** The random values, clock readings and outside answers of one issue. *)
Record issue := mk_issue {
  is_token : string; is_secret_id : string;
  is_bootstrap : res string;              (* CreateHeadscaleBootstrap *)
  is_headscale : option string;           (* the endpoint of the configured integration *)
  is_expiry_now : Z; is_now : Z; is_seen_now : Z
}.

Definition decommissioning (agentID : string) (st : Store) : bool :=
  sql_exists (λ t, bool_decide (tr_table t = agent_decommissions) && (tr_agent_id t =?s agentID)
                   && str_in (tr_state t) ["pending"; "running"; "cleaning"]) (tasks st)
  || bool_decide (agentID ∈ rg_removals (registry st)).

(** The checks of a replacement, made when it begins, before its command is prepared and
    again when the token is issued. *)
Definition reconnectable (row : option agent_row) (blocked : bool) (status_error blocked_error : string) (now : Z) : res unit :=
  match row with
  | None => Err "center: Agent not found"
  | Some a =>
      match parse_rfc3339 (ag_last_seen_at a) with
      | None => Err "center: stored Agent heartbeat time is invalid"
      | Some seen =>
          guard_err (negb (ag_status a =?s "active") && negb (ag_status a =?s "disabled")) status_error ;;!
          guard_err blocked blocked_error ;;!
          guard_err ((ag_credential_revoked_at a =?s "") && (now - agentConnectedMaxAge <? seen))
            "center: disconnect the Agent before generating a reconnect command"
      end
  end.

Definition agent_by_id (id : string) (st : Store) : option agent_row := sql_row (λ a, ag_id a =?s id) (agents st).

(** The tokens of an agent are withdrawn and its credential revoked. *)
Definition fence_machine (agentID now : string) : M unit :=
  do! old := query (bootstrap_secrets (for_target agentID)) in
  delete_secrets old ;;;
  delete_tokens (for_target agentID) ;;;
  update_agents (λ a, ag_id a =?s agentID) (λ a, set_revoked (ag_status a) now a) ;;;
  retireAgentExecutionIdentity agentID now.

(** Expired operations, tokens and their secrets are forgotten. *)
Definition sweep_expired (now : string) : M unit :=
  let expired t := tk_expires_at t <=?s now in
  delete_operations (λ o, eo_expires_at o <=?s now) ;;;
  do! old := query (bootstrap_secrets expired) in
  delete_secrets old ;;;
  do! used := query (λ st, map eo_token_hash (operations st)) in
  delete_tokens (λ t, expired t && negb (str_in (tk_hash t) used)).

Definition saveAgentReinstallEnrollment (agentID operationID : string) (enrollment : AgentEnrollment) (now : string) : M unit :=
  do! changed := update_reinstalls
    (λ r, (ro_id r =?s operationID) && (ro_agent_id r =?s agentID) && (ro_state r =?s "preparing")
          && str_in (ro_private_isolation r) ["not_required"; "withdrawn"])
    (λ r, set_reinstall "awaiting_enrollment" (ro_last_error r) now (ro_attempt r) (Some (token_hash (en_token enrollment)))
            (Some (seal ("agent-reinstall:" +:+ operationID) (enrollment_json enrollment)))
            (ro_replacement_fingerprint r) (ro_private_isolation r) r) in
  fail_if (negb (changed =? 1)) "center: recovery command authorization changed".

(** The transaction of [createAgentEnrollment]. *)
Definition issue_enrollment (spec : AgentEnrollmentSpec) (rolesJSON capabilitiesJSON targetAgentID operationID command : string)
    (enrollment : AgentEnrollment) (i : issue) : M unit :=
  let now := rfc3339nano (is_now i) in
  transaction (
    sweep_expired now ;;;
    (if targetAgentID =?s "" then ok tt else
     do! checked := query (λ st, reconnectable (agent_by_id targetAgentID st) (decommissioning targetAgentID st)
                       "center: Agent cannot reconnect" "center: Agent decommissioning must finish before reconnecting"
                       (is_seen_now i)) in
     lift checked ;;;
     fence_machine targetAgentID now) ;;;
    do! secretID := (if command =?s "" then ok None else
                     do! id := putSecret (is_secret_id i) command (agentEnrollmentSecretContext (is_token i)) in ok (Some id)) in
    insert_token (mk_token (token_hash (is_token i)) (sp_site_id spec) (sp_name spec) (sp_center_url spec) rolesJSON
                    capabilitiesJSON secretID (sp_ca_fingerprint spec) (sp_ca_certificate spec)
                    (if targetAgentID =?s "" then None else Some targetAgentID)
                    (rfc3339nano (en_expires_at enrollment)) None) ;;;
    (if targetAgentID =?s "" then ok tt else saveAgentReinstallEnrollment targetAgentID operationID enrollment now)).

Definition createAgentEnrollment (spec : AgentEnrollmentSpec) (rolesJSON capabilitiesJSON targetAgentID operationID : string)
    (i : issue) : M AgentEnrollment :=
  do! spec := lift (normalize_spec spec) in
  do! _ := lift (decodeAgentEnrollmentRuntime rolesJSON capabilitiesJSON) in
  fail_if (sp_site_id spec =?s "") "center: enrollment site is required" ;;;
  do! site := query (λ st, bool_decide (sp_site_id spec ∈ rg_sites (registry st))) in
  fail_if (negb site) "center: enrollment site was not found" ;;;
  do! command := lift (if sp_use_headscale spec then is_bootstrap i else Ok "") in
  do! installerURL := lift (if sp_use_headscale spec
                            then match is_headscale i with
                                 | Some endpoint => Ok endpoint
                                 | None => Err "center: Headscale is not configured for public Agent bootstrap"
                                 end
                            else Ok (sp_center_url spec)) in
  let enrollment := mk_enrollment (is_token i) (sp_site_id spec) (sp_center_url spec) installerURL (sp_ca_certificate spec)
                      (is_expiry_now i + enrollmentLifetime) in
  issue_enrollment spec rolesJSON capabilitiesJSON targetAgentID operationID command enrollment i ;;;
  ok enrollment.

Definition CreateAgentEnrollment (spec : AgentEnrollmentSpec) (i : issue) : M AgentEnrollment :=
  if sp_landing_only spec && (sp_gateway spec || sp_tunnel spec || negb (sp_use_headscale spec))
  then fail "center: landing-only nodes require managed private networking and cannot provide gateway or tunnel capabilities"
  else
    let roles := "worker" :: (if sp_gateway spec then ["gateway"] else []) in
    let capabilities := mk_capabilities (negb (sp_landing_only spec)) (sp_landing_only spec) (sp_landing_only spec)
                          (sp_gateway spec) (sp_tunnel spec) false false "" in
    createAgentEnrollment spec (roles_json roles) (capabilities_json capabilities) "" "" i.

(** ** Exchanging a token *)

(** The random values and clock readings of one exchange. *)
Record exchange := mk_exchange {
  ex_id : string; ex_credential : string; ex_secret_id : string; ex_check_now : Z; ex_now : Z
}.

Definition replayAgentEnrollment (hash operationID requestHash : string) (now : Z) (st : Store) : res AgentCredential :=
  match sql_row (λ o, eo_token_hash o =?s hash) (operations st) with
  | None => Err "center: agent enrollment token is invalid"
  | Some o =>
      guard_err (negb (eo_operation_id o =?s operationID) || negb (eo_request_hash o =?s requestHash))
        "center: agent enrollment token is invalid" ;;!
      match parse_rfc3339 (eo_expires_at o) with
      | None => Err "center: Agent enrollment recovery window has expired"
      | Some expires =>
          guard_err (negb (now <? expires)) "center: Agent enrollment recovery window has expired" ;;!
          match sql_row (λ s, sl_id s =?s eo_response_secret_id o) (sealed_secrets st) with
          | None => Err "center: read Agent enrollment response"
          | Some s =>
              match unseal (agentEnrollmentOperationSecretContext hash operationID) (sl_sealed s) with
              | None => Err "center: decrypt Agent enrollment response"
              | Some encoded =>
                  match credential_of_json encoded with
                  | None => Err "center: stored Agent enrollment response is invalid"
                  | Some response =>
                      guard_err (negb (ac_id response =?s eo_agent_id o) || (ac_credential response =?s ""))
                        "center: stored Agent enrollment response is invalid" ;;!
                      guard_err (negb (sql_affected (λ a, (ag_id a =?s eo_agent_id o) && (ag_status a =?s "active")
                                          && (ag_credential_revoked_at a =?s "")
                                          && (ag_credential_hash a =?s token_hash (ac_credential response))) (agents st) =? 1))
                        "center: replayed Agent identity is no longer active" ;;!
                      Ok response
                  end
              end
          end
      end
  end.

(** The new machine of an Agent must hold another key than the replaced one; what was
    observed of the old machine is forgotten. *)
Definition acceptAgentReinstallIdentity (agentID hash publicKey now : string) : M unit :=
  let fingerprint := sha256_hex publicKey in
  do! changed := update_reinstalls
    (λ r, (ro_agent_id r =?s agentID) && bool_decide (ro_enrollment_token_hash r = Some hash)
          && (ro_state r =?s "awaiting_enrollment") && negb (ro_previous_fingerprint r =?s fingerprint))
    (λ r, set_reinstall "review_required" (ro_last_error r) now (ro_attempt r) (ro_enrollment_token_hash r) None
            fingerprint (ro_private_isolation r) r) in
  fail_if (negb (changed =? 1)) "center: replacement requires an authorized recovery command and a new machine key" ;;;
  change (λ st, let g := registry st in
    with_network (List.filter (λ c, negb (fst c =?s agentID)) (rg_candidates g)) (delete agentID (rg_peers g))
      (rg_profiles g) (rg_profile_recoveries g) st) ;;;
  update_agents (λ a, ag_id a =?s agentID)
    (λ a, mk_agent (ag_id a) (ag_status a) (ag_credential_hash a) (ag_credential_revoked_at a) (ag_version a)
            (ag_last_seen_at a) (ag_remote_update_supported a) (ag_name a) (ag_runtime_recovery a) (ag_public_key a)
            (ag_operating_system a) (ag_architecture a) (ag_applied_installations a) (ag_enrolled_at a) (ag_site_id a)
            (ag_roles_json a) (ag_capabilities_json a) (ag_gateway_healthy a) (ag_runtime_generation a)
            (ag_tailscale_ownership a) [""; ""; ""; ""]) ;;;
  do! profile := query (λ st, rg_profiles (registry st) !! agentID) in
  match profile with
  | None => ok tt
  | Some None => fail "center: invalid stored network profile"
  | Some (Some encoded) =>
      change (λ st, let g := registry st in
        with_network (rg_candidates g) (rg_peers g) (delete agentID (rg_profiles g))
          (match agent_by_id agentID st with
           | Some a => <[agentID := (ag_public_key a, encoded)]> (rg_profile_recoveries g)
           | None => rg_profile_recoveries g
           end) st)
  end.

(** [INSERT INTO agents] with the defaults of the schema. *)
Definition enrolled_agent (id name credentialHash publicKey version os arch now siteID rolesJSON capabilitiesJSON : string)
    : agent_row :=
  mk_agent id "active" credentialHash "" version now false name "" publicKey os arch 0 now siteID rolesJSON
    capabilitiesJSON false 0 "" [""; ""; ""; ""].

(** The new machine takes over the row of its Agent. *)
Definition replaced_agent (credentialHash publicKey version os arch now : string) (a : agent_row) : agent_row :=
  mk_agent (ag_id a) "active" credentialHash "" version now false (ag_name a) (ag_runtime_recovery a) publicKey os arch 0
    (ag_enrolled_at a) (ag_site_id a) (ag_roles_json a) (ag_capabilities_json a) false 0 "" (ag_public_egress a).

Definition replace_machine (agentID credentialHash publicKey version os arch hash now : string) : M unit :=
  acceptAgentReinstallIdentity agentID hash publicKey now ;;;
  do! taken := query (λ st, sql_exists (λ a, negb (ag_id a =?s agentID) && (ag_credential_hash a =?s credentialHash)) (agents st)) in
  do! blocked := query (decommissioning agentID) in
  let wh a := (ag_id a =?s agentID) && str_in (ag_status a) ["active"; "disabled"]
              && negb (ag_credential_revoked_at a =?s "") && negb blocked in
  do! any := query (λ st, sql_exists wh (agents st)) in
  fail_if (taken && any) "center: replace Agent identity" ;;;
  do! changed := update_agents wh (replaced_agent credentialHash publicKey version os arch now) in
  fail_if (negb (changed =? 1)) "center: Agent reconnect command is no longer valid" ;;;
  update_tasks (λ t, bool_decide (tr_table t = agent_updates) && (tr_agent_id t =?s agentID)
                     && str_in (tr_state t) ["pending"; "running"; "installing"])
    (λ t, set_tr_updated now (set_tr_error "superseded by Agent reconnect" (set_tr_lease "" (set_tr_state "failed" t)))) ;;;
  update_applications (λ a, ap_node_id a =?s agentID)
    (λ a, mk_application (ap_id a) (ap_status a) (ap_updated_at a) (ap_node_id a) 0) ;;;
  delete_operations (λ o, eo_agent_id o =?s agentID).

(** The first use of a token. *)
Definition consume_token (t : token_row) (operationID version os arch publicKey requestHash : string) (x : exchange)
    : M AgentCredential :=
  do! _ := lift (not_expired (tk_expires_at t) (ex_check_now x)) in
  do! runtime := lift (decodeAgentEnrollmentRuntime (tk_roles_json t) (tk_capabilities_json t)) in
  let target := default "" (tk_target_agent_id t) in
  let id := if target =?s "" then ex_id x else target in
  let now := rfc3339nano (ex_now x) in
  let response := mk_credential id (ex_credential x) (tk_name t) (fst runtime) (snd runtime) in
  do! secretID := putSecret (ex_secret_id x) (credential_json response)
                    (agentEnrollmentOperationSecretContext (tk_hash t) operationID) in
  (if target =?s ""
   then insert_agent (enrolled_agent id (tk_name t) (token_hash (ex_credential x)) publicKey version os arch now
                        (tk_site_id t) (tk_roles_json t) (tk_capabilities_json t))
   else replace_machine target (token_hash (ex_credential x)) publicKey version os arch (tk_hash t) now) ;;;
  insert_operation (mk_enrollment_row (tk_hash t) operationID requestHash id secretID
                      (rfc3339nano (ex_now x + agentEnrollmentReplayLifetime)) now) ;;;
  do! changed := (λ st, let wh r := (tk_hash r =?s tk_hash t) && negb (is_Some_b (tk_used_at r)) in
                        (with_tokens (sql_update wh (set_used now) (tokens st)) st, Ok (sql_affected wh (tokens st)))) in
  fail_if (negb (changed =? 1)) "center: agent enrollment token is invalid" ;;;
  (match tk_bootstrap_secret_id t with Some secret => delete_secrets [secret] | None => ok tt end) ;;;
  ok response.

(** The hash that identifies a request. *)
Definition enrollment_request (version os arch publicKey : string) : string :=
  sha256_hex (request_json version os arch publicKey).

Definition EnrollAgentOperation (enrollmentToken operationID version operatingSystem architecture publicKey : string)
    (x : exchange) : M AgentCredential :=
  let operationID := trim_space operationID in
  fail_if (negb (validAgentEnrollmentOperationID operationID)) "center: valid Agent enrollment operation ID is required" ;;;
  let version := trim_space version in
  fail_if ((version =?s "") || (128 <? str_len version)) "center: agent version is required" ;;;
  fail_if (negb (is_ok (ValidatePublicKey publicKey))) "center: valid Agent X25519 public key is required" ;;;
  do! target := lift (platform_Parse operatingSystem architecture) in
  let requestHash := enrollment_request version (fst target) (snd target) publicKey in
  let hash := token_hash enrollmentToken in
  transaction (
    do! row := query (λ st, sql_row (λ t, tk_hash t =?s hash) (tokens st)) in
    match row with
    | None => fail "center: agent enrollment token is invalid"
    | Some t =>
        match tk_used_at t with
        | Some _ => do! replayed := query (replayAgentEnrollment hash operationID requestHash (ex_check_now x)) in lift replayed
        | None => consume_token t operationID version (fst target) (snd target) publicKey requestHash x
        end
    end).

(** ** What an administrator sees of a token *)
Definition enrollmentStatusContext : string := "agent-enrollment-status".

Definition agentEnrollmentStatusID (token : string) : string := url_base64 (seal enrollmentStatusContext (token_hash token)).

Record AgentEnrollmentStatus := mk_status { es_state : string; es_agent_id : string; es_connected : bool }.

Definition enrollment_status (statusID : string) (now : Z) (st : Store) : res AgentEnrollmentStatus :=
  let invalid := "center: enrollment status reference is unavailable" in
  guard_err ((statusID =?s "") || (128 <? str_len statusID)) invalid ;;!
  match url_base64_decode statusID with
  | None => Err invalid
  | Some sealed =>
      match unseal enrollmentStatusContext sealed with
      | None => Err invalid
      | Some hash =>
          guard_err (negb (str_len hash =? 32)) invalid ;;!
          match sql_row (λ t, tk_hash t =?s hash) (tokens st) with
          | None => Ok (mk_status "unavailable" "" false)
          | Some t =>
              if is_Some_b (tk_used_at t) then
                match sql_row (λ o, eo_token_hash o =?s hash) (operations st) with
                | None => Ok (mk_status "unavailable" "" false)
                | Some o =>
                    match agent_by_id (eo_agent_id o) st with
                    | None => Ok (mk_status "unavailable" "" false)
                    | Some a =>
                        match parse_rfc3339 (ag_last_seen_at a), parse_rfc3339 (eo_created_at o) with
                        | None, _ => Err "center: invalid enrollment heartbeat time"
                        | _, None => Err "center: invalid enrollment registration time"
                        | Some seen, Some registered =>
                            let connected := (ag_status a =?s "active") && (ag_credential_revoked_at a =?s "")
                                             && (registered <? seen) && (now - agentConnectedMaxAge <? seen) in
                            Ok (mk_status (if connected then "connected" else "enrolled") (eo_agent_id o) connected)
                        end
                    end
                end
              else
                match parse_rfc3339 (tk_expires_at t) with
                | None => Err "center: invalid enrollment expiry time"
                | Some deadline => Ok (mk_status (if negb (now <? deadline) then "expired" else "pending") "" false)
                end
          end
      end
  end.

(** ** Revocation *)
Definition revokeAgentReconnectGrants (id : string) : M unit :=
  update_reinstalls (λ r, (ro_agent_id r =?s id) && str_in (ro_state r) ["preparing"; "awaiting_enrollment"])
    (λ r, set_reinstall "superseded" "Recovery command revoked by administrator" (ro_updated_at r) (ro_attempt r)
            (ro_enrollment_token_hash r) None (ro_replacement_fingerprint r) (ro_private_isolation r) r) ;;;
  do! old := query (bootstrap_secrets (for_target id)) in
  delete_secrets old ;;;
  delete_tokens (for_target id) ;;;
  delete_operations (λ o, eo_agent_id o =?s id).

Definition RevokeAgentCredential (agentID : string) (now : Z) : M unit :=
  let agentID := trim_space agentID in
  transaction (
    do! changed := update_agents (λ a, (ag_id a =?s agentID) && (ag_status a =?s "active"))
      (λ a, set_revoked (ag_status a) (if ag_credential_revoked_at a =?s "" then rfc3339nano now else ag_credential_revoked_at a) a) in
    fail_if (negb (changed =? 1)) "center: active Agent credential was not found" ;;;
    revokeAgentReconnectGrants agentID).

(** [DisableAgent]: [gateways] and [publications] count rows of tables that are not
    modelled. *)
Definition DisableAgent (agentID : string) (gateways publications : Z) : M unit :=
  transaction (
    do! running := query (λ st, sql_exists (λ a, (ap_node_id a =?s agentID) && negb (ap_status a =?s "stopped")) (applications st)) in
    fail_if running "center: uninstall active applications before disabling this node" ;;;
    fail_if (negb (gateways =? 0)) "center: remove this node as a Site gateway before disabling it" ;;;
    fail_if (negb (publications =? 0)) "center: stop publications using this node before disabling it" ;;;
    do! deploying := query (λ st, sql_exists (λ t, bool_decide (tr_table t = deployments) && (tr_agent_id t =?s agentID)
                              && (str_in (tr_state t) ["pending"; "running"] || tr_reconciliation_required t)) (tasks st)) in
    fail_if deploying "center: wait for active node tasks before disabling it" ;;;
    do! tunnels := query (λ st, sql_exists (λ t, bool_decide (tr_table t = cloudflare_tunnels) && (tr_agent_id t =?s agentID)
                              && negb (tr_state t =?s "stopped")) (tasks st)) in
    fail_if tunnels "center: stop the Cloudflare Tunnel connector before disabling this node" ;;;
    do! changed := update_agents (λ a, (ag_id a =?s agentID) && (ag_status a =?s "active"))
                     (λ a, set_revoked "disabled" (ag_credential_revoked_at a) a) in
    fail_if (negb (changed =? 1)) "center: active node not found").

(** [cancelRemovedAgentTasks]; [removes] tells the commands whose input asks for the
    removal of a node. *)
Definition cancelRemovedAgentTasks (removes : task_row → bool) (id : string) (now : Z) : M unit :=
  let stamp := rfc3339nano now in
  let unresolved_row t := str_in (tr_state t) ["pending"; "running"] || tr_reconciliation_required t in
  let abandon message t := set_tr_updated stamp (set_tr_error message (set_tr_lease ""
                             (set_tr_reconciliation false false (set_tr_state "failed" t)))) in
  let message := "node permanently removed; remote cleanup not performed" in
  update_tasks (λ t, bool_decide (tr_table t = deployments) && (tr_agent_id t =?s id) && unresolved_row t) (abandon message) ;;;
  update_tasks (λ t, bool_decide (tr_table t = application_commands) && (tr_agent_id t =?s id) && unresolved_row t)
    (abandon message) ;;;
  do! owned := query (λ st, map ap_id (List.filter (λ a, ap_node_id a =?s id) (applications st))) in
  update_tasks (λ t, bool_decide (tr_table t = application_commands) && (tr_state t =?s "pending") && (tr_attempt t =? 0)
                     && negb (tr_reconciliation_required t) && str_in (tr_application_id t) owned
                     && negb (tr_agent_id t =?s id) && negb ((tr_kind t =?s "3xui.node.reconcile") && removes t))
    (λ t, set_tr_updated stamp (set_tr_error "target node permanently removed" (set_tr_state "failed" t))) ;;;
  update_tasks (λ t, bool_decide (tr_table t = application_commands) && (tr_gateway_node_id t =?s id)
                     && (tr_kind t =?s "pulse.enrollment.create") && unresolved_row t)
    (abandon "target node permanently removed") ;;;
  update_tasks (λ t, bool_decide (tr_table t = agent_updates) && (tr_agent_id t =?s id)
                     && str_in (tr_state t) ["pending"; "running"; "installing"])
    (λ t, set_tr_updated stamp (set_tr_error "node permanently removed" (set_tr_lease "" (set_tr_state "failed" t)))) ;;;
  update_tasks (λ t, bool_decide (tr_table t = agent_decommissions) && (tr_agent_id t =?s id) && negb (tr_state t =?s "succeeded"))
    (λ t, set_tr_updated stamp (set_tr_error message (set_tr_lease "" (set_tr_callback "" (set_tr_state "abandoned" t))))) ;;;
  ok tt.

(** [StartAgentRemoval]: [dependencies] is the outcome of
    [validateAgentRemovalDependencies], [retry] is [retryRemovedAgentCommands], and
    [complete] tells whether the recorded removal is complete. *)
Definition StartAgentRemoval (removes : task_row → bool) (dependencies : res unit) (retry : M unit) (complete businessRetired : bool)
    (id confirmation : string) (now : Z) : M unit :=
  transaction (
    do! row := query (agent_by_id id) in
    match row with
    | None => fail "center: node not found"
    | Some a =>
        fail_if (negb (trim_space confirmation =?s trim_space (ag_name a)) || (trim_space (ag_name a) =?s ""))
          "center: node removal confirmation does not match" ;;;
        do! existing := query (λ st, bool_decide (id ∈ rg_removals (registry st))) in
        if existing && complete then ok tt else
        (if existing then (if businessRetired then ok tt else retry)
         else
           fail_if (match parse_rfc3339 (ag_last_seen_at a) with
                    | Some seen => now - agentConnectedMaxAge <? seen
                    | None => true
                    end) "center: permanent removal requires an offline node" ;;;
           lift dependencies ;;;
           update_agents (λ x, ag_id x =?s id) (set_revoked "disabled" (rfc3339nano now)) ;;;
           revokeAgentReconnectGrants id ;;;
           cancelRemovedAgentTasks removes id now) ;;;
        change (λ st, with_removals ({[ id ]} ∪ rg_removals (registry st)) st)
    end).

(** The rows of a deleted agent go with it. *)
Definition cascade_agent (id : string) (st : Store) : Store :=
  let owned r := te_agent_id r =?s id in
  let gone := map te_id (List.filter owned (executions st)) in
  {| agents := List.filter (λ a, negb (ag_id a =?s id)) (agents st); admins := admins st;
     sessions := delete id (sessions st); session_history := filter (λ p, p.1 ≠ id) (session_history st);
     executions := List.filter (λ r, negb (owned r)) (executions st);
     execution_events := List.filter (λ e, negb (str_in (ev_execution_id e) gone)) (execution_events st);
     claim_control := claim_control st; claim_control_events := claim_control_events st; tasks := tasks st;
     task_events := task_events st; applications := applications st; node_sites := node_sites st;
     reinstall_operations := List.filter (λ r, negb (ro_agent_id r =?s id)) (reinstall_operations st);
     update_recoveries := update_recoveries st; side_rows := side_rows st;
     registry :=
       let g := registry st in
       mk_registry (rg_tokens g) (rg_operations g) (rg_secrets g) (rg_sites g) (rg_removals g)
         (List.filter (λ c, negb (fst c =?s id)) (rg_candidates g)) (delete id (rg_peers g)) (delete id (rg_profiles g))
         (delete id (rg_profile_recoveries g)) |}.

(** [DeleteAgent]: [in_use] is the outcome of the queries on tables that are not
    modelled; the rows of business tables that are deleted with the node are not either. *)
Definition DeleteAgent (in_use : bool) (id : string) : M unit :=
  transaction (
    do! row := query (agent_by_id id) in
    match row with
    | None => fail "center: node not found"
    | Some a =>
        fail_if (negb (ag_status a =?s "disabled")) "center: disable node before deleting" ;;;
        do! removing := query (λ st, bool_decide (id ∈ rg_removals (registry st))) in
        do! running := query (λ st, sql_exists (λ a, (ap_node_id a =?s id) && negb (ap_status a =?s "stopped")) (applications st)) in
        do! busy := query (λ st, sql_exists (λ t, (tr_agent_id t =?s id) &&
          (bool_decide (tr_table t = deployments) && (str_in (tr_state t) ["pending"; "running"] || tr_reconciliation_required t)
           || bool_decide (tr_table t = cloudflare_tunnels) && negb (tr_state t =?s "stopped")
           || bool_decide (tr_table t = agent_updates) && str_in (tr_state t) ["pending"; "running"; "installing"]
           || bool_decide (tr_table t = agent_decommissions) && str_in (tr_state t) ["pending"; "running"; "cleaning"])) (tasks st)) in
        fail_if (in_use || removing || running || busy) "center: node still in use" ;;;
        change (λ st, with_applications (List.filter (λ a, negb ((ap_node_id a =?s id) && (ap_status a =?s "stopped"))) (applications st)) st) ;;;
        change (cascade_agent id) ;;;
        delete_tokens (for_target id) ;;;
        delete_operations (λ o, eo_agent_id o =?s id)
    end).

(** ** Replacing a machine *)
Definition readAgentReinstallOperation (agentID : string) (st : Store) : option reinstall_row :=
  sql_row (λ r, (ro_agent_id r =?s agentID) && negb (str_in (ro_state r) ["superseded"; "completed"])) (reinstall_operations st).

(** What [agentReinstallPlan] reads of tables that are not modelled: the revision of the
    plan, its private network (ownership and address) and its encoding. *)
Record plan_reads := mk_plan { pl_revision : string; pl_ownership : string; pl_private_address : string; pl_json : string }.

(** [AgentReinstallPlan.IdentityFingerprint]. *)
Definition identity_fingerprint (a : agent_row) : string :=
  if ag_public_key a =?s "" then "" else sha256_hex (ag_public_key a).

(** [endpoint] is that of the configured private network. *)
Definition captureReinstallPrivateIdentity (agentID : string) (plan : plan_reads) (endpoint : option string) (st : Store) : string :=
  match sql_row (λ r, (ro_agent_id r =?s agentID) && (ro_state r =?s "awaiting_enrollment")) (reinstall_operations st) with
  | Some r => ro_private_identity_json r
  | None =>
      let '(key, observed) := default ("", "") (rg_peers (registry st) !! agentID) in
      let address := pl_private_address plan in
      let '(key, address) := if address =?s "" then (key, observed)
                             else if negb (observed =?s address) then ("", address) else (key, address) in
      identity_json (mk_private_identity (pl_ownership plan) (default "" endpoint) "" key address)
  end.

Record AgentReinstallInput := mk_reinstall_input { ri_operation_id : string; ri_plan_revision : string; ri_confirm : bool }.

(** A command that was already issued is shown again while it can be used. *)
Definition issued_command (r : reinstall_row) (agentID adminID planRevision : string) (now : Z) (st : Store) : res AgentEnrollment :=
  guard_err (negb (ro_agent_id r =?s agentID) || negb (ro_authorized_by r =?s adminID)
             || negb (ro_plan_revision r =?s planRevision)) "center: recovery operation does not match this authorization" ;;!
  guard_err (negb (ro_state r =?s "awaiting_enrollment"))
    "center: recovery already started; inspect its saved progress before continuing" ;;!
  guard_err (negb (sql_exists (λ t, bool_decide (ro_enrollment_token_hash r = Some (tk_hash t)) && negb (is_Some_b (tk_used_at t))
                                && (rfc3339nano now <?s tk_expires_at t)) (tokens st)
                   && sql_exists (λ a, (ag_id a =?s ro_agent_id r) && negb (ag_credential_revoked_at a =?s "")) (agents st)))
    "center: recovery command is no longer valid; review the node again" ;;!
  match unseal ("agent-reinstall:" +:+ ro_id r) (default "" (ro_sealed_enrollment r)) with
  | None => Err "secret: open"
  | Some encoded =>
      match enrollment_of_json encoded with
      | Some enrollment => if en_token enrollment =?s "" then Err "center: stored recovery command is invalid" else Ok enrollment
      | None => Err "center: stored recovery command is invalid"
      end
  end.

Definition insert_reinstall (r : reinstall_row) : M unit :=
  do! taken := query (λ st, sql_exists (λ x, (ro_id x =?s ro_id r)
      || (ro_agent_id x =?s ro_agent_id r) && negb (str_in (ro_state x) ["superseded"; "completed"])) (reinstall_operations st)) in
  fail_if taken "UNIQUE constraint failed" ;;;
  change (λ st, with_reinstalls (reinstall_operations st ++ [r]) st).

(** [beginAgentReinstall]: a command that was issued before, or nothing and the machine
    is fenced.  [plan] is the outcome of the remaining reads of the plan, [seen_now] and
    [now] are readings of the clock. *)
Definition beginAgentReinstall (agentID adminID : string) (input : AgentReinstallInput) (plan : res plan_reads)
    (endpoint : option string) (seen_now now : Z) : M (option AgentEnrollment) :=
  fail_if (negb (ri_confirm input) || (trim_space adminID =?s "") || (str_len (ri_operation_id input) <? 16)
           || (128 <? str_len (ri_operation_id input)) || negb (trim_space (ri_operation_id input) =?s ri_operation_id input)
           || negb (str_len (ri_plan_revision input) =? 64))
    "center: review the recovery plan and explicitly confirm identity replacement" ;;;
  transaction (
    do! admin := query (λ st, is_admin st adminID) in
    fail_if (negb admin) "center: administrator authorization required" ;;;
    do! row := query (λ st, sql_row (λ r, ro_id r =?s ri_operation_id input) (reinstall_operations st)) in
    match row with
    | Some r =>
        do! issued := query (issued_command r agentID adminID (ri_plan_revision input) now) in
        do! enrollment := lift issued in ok (Some enrollment)
    | None =>
        do! agent := query (agent_by_id agentID) in
        match agent with
        | None => fail errNoRows
        | Some a =>
            fail_if (negb (str_in (ag_status a) ["active"; "disabled"])) errNoRows ;;;
            do! plan := lift plan in
            fail_if (negb (pl_revision plan =?s ri_plan_revision input))
              "center: recovery plan changed; review it again before confirming" ;;;
            do! blocked := query (decommissioning agentID) in
            lift (reconnectable (Some a) blocked "center: Agent removal must finish before reconnecting"
                    "center: Agent removal must finish before reconnecting" seen_now) ;;;
            do! recovery := query (readAgentReinstallOperation agentID) in
            fail_if (match recovery with Some r => negb (ro_state r =?s "awaiting_enrollment") | None => false end)
              "center: recovery already started; inspect its saved progress before continuing" ;;;
            do! previous := query (captureReinstallPrivateIdentity agentID plan endpoint) in
            let stamp := rfc3339nano now in
            update_reinstalls (λ r, (ro_agent_id r =?s agentID) && (ro_state r =?s "awaiting_enrollment"))
              (λ r, set_reinstall "superseded" (ro_last_error r) stamp (ro_attempt r) (ro_enrollment_token_hash r) None
                      (ro_replacement_fingerprint r) (ro_private_isolation r) r) ;;;
            insert_reinstall (mk_reinstall (ri_operation_id input) agentID adminID (ri_plan_revision input) (pl_json plan)
              (identity_fingerprint a) "" previous "pending" 1 "preparing" None None "" stamp stamp) ;;;
            fence_machine agentID stamp ;;;
            pauseReinstallRelatedCommands agentID stamp ;;;
            ok None
        end
    end).

Record headscale_node := mk_node { hn_id : string; hn_node_key : string; hn_addresses : list string; hn_tags : list string }.

(** The answers of the private network controller to one withdrawal: its address when it
    is available, the nodes before, whether the deletion of a node was confirmed, the
    nodes after. *)
Record controller := mk_controller {
  ct_base_url : option string; ct_before : option (list headscale_node); ct_deleted : string → bool;
  ct_after : option (list headscale_node)
}.

Definition key_matches (previous : reinstallPrivateIdentity) (n : headscale_node) : bool :=
  trim_node_key (hn_node_key n) =?s trim_node_key (pv_node_key previous).
Definition address_matches (previous : reinstallPrivateIdentity) (n : headscale_node) : bool :=
  str_in (pv_address previous) (hn_addresses n).

(** The loop over the nodes: at most one is the previous machine, and it matches in its
    key, its address, its tag and the identifier that was saved. *)
Fixpoint find_identity (previous : reinstallPrivateIdentity) (found : bool) (nodes : list headscale_node)
    : res (reinstallPrivateIdentity * bool) :=
  match nodes with
  | [] => Ok (previous, found)
  | n :: nodes' =>
      let k := key_matches previous n in
      let a := address_matches previous n in
      if negb k && negb a && negb (hn_id n =?s pv_id previous) then find_identity previous found nodes'
      else
        guard_err (negb k || negb a || negb (str_in "tag:vastora-agent" (hn_tags n)) || negb (validHeadscaleNodeID (hn_id n))
                   || negb (pv_id previous =?s "") && negb (hn_id n =?s pv_id previous) || found)
          "center: previous private identity or address ownership changed; recovery remains paused" ;;!
        find_identity (mk_private_identity (pv_ownership previous) (pv_endpoint previous) (hn_id n) (pv_node_key previous)
                         (pv_address previous)) true nodes'
  end.

(** A node of the controller that is or may be the previous machine. *)
Definition identity_present (previous : reinstallPrivateIdentity) (n : headscale_node) : bool :=
  (hn_id n =?s pv_id previous) || key_matches previous n || address_matches previous n.

Definition finishReinstallPrivateIsolation (operationID state : string) : M unit :=
  do! changed := update_reinstalls
    (λ r, (ro_id r =?s operationID) && (ro_state r =?s "preparing") && (ro_private_isolation r =?s "pending"))
    (λ r, set_reinstall (ro_state r) (ro_last_error r) (ro_updated_at r) (ro_attempt r) (ro_enrollment_token_hash r)
            (ro_sealed_enrollment r) (ro_replacement_fingerprint r) state r) in
  fail_if (negb (changed =? 1)) "center: recovery command authorization changed".

Definition set_identity (previous : string) (r : reinstall_row) : reinstall_row :=
  mk_reinstall (ro_id r) (ro_agent_id r) (ro_authorized_by r) (ro_plan_revision r) (ro_plan_json r)
    (ro_previous_fingerprint r) (ro_replacement_fingerprint r) previous (ro_private_isolation r) (ro_attempt r) (ro_state r)
    (ro_enrollment_token_hash r) (ro_sealed_enrollment r) (ro_last_error r) (ro_created_at r) (ro_updated_at r).

(** [isolateReinstallPrivateIdentity]; [shared] tells whether the address belongs to
    another node.  The statements are not in one transaction. *)
Definition isolateReinstallPrivateIdentity (agentID operationID : string) (shared : bool) (c : controller) : M unit :=
  do! row := query (λ st, sql_row (λ r, (ro_id r =?s operationID) && (ro_agent_id r =?s agentID)) (reinstall_operations st)) in
  match row with
  | None => fail errNoRows
  | Some r =>
      fail_if (negb (ro_state r =?s "preparing") || negb (ro_private_isolation r =?s "pending"))
        "center: private identity recovery requires a new explicit authorization" ;;;
      match identity_of_json (ro_private_identity_json r) with
      | None => fail "center: saved private identity evidence is invalid"
      | Some previous =>
          if (pv_ownership previous =?s "") && (pv_address previous =?s "") && (pv_node_key previous =?s "")
          then finishReinstallPrivateIsolation operationID "not_required"
          else
            fail_if (negb (pv_ownership previous =?s "managed"))
              "center: previous private network is externally managed; verify its isolation before recovery" ;;;
            fail_if ((pv_address previous =?s "") || (trim_node_key (pv_node_key previous) =?s "") || (pv_endpoint previous =?s ""))
              "center: authenticated previous private identity evidence is missing" ;;;
            fail_if shared "center: previous private address is assigned to another node" ;;;
            do! baseURL := lift (match ct_base_url c with
                                 | Some u => Ok u
                                 | None => Err "center: private controller is unavailable; recovery remains paused"
                                 end) in
            fail_if (negb (pv_endpoint previous =?s baseURL)) "center: private controller changed after recovery authorization" ;;;
            do! nodes := lift (match ct_before c with
                               | Some l => Ok l
                               | None => Err "center: private identity inspection failed; recovery remains paused"
                               end) in
            do! result := lift (find_identity previous false nodes) in
            (if snd result then
               let previous := fst result in
               do! changed := update_reinstalls
                 (λ r, (ro_id r =?s operationID) && (ro_agent_id r =?s agentID) && (ro_state r =?s "preparing")
                       && (ro_private_isolation r =?s "pending"))
                 (set_identity (identity_json previous)) in
               fail_if (negb (changed =? 1)) "center: recovery command authorization changed" ;;;
               fail_if (negb (ct_deleted c (pv_id previous)))
                 "center: private identity withdrawal was not confirmed; inspect the saved identity before continuing" ;;;
               do! remaining := lift (match ct_after c with
                                 | Some l => Ok l
                                 | None => Err "center: private identity withdrawal could not be verified; recovery remains paused"
                                 end) in
               fail_if (existsb (identity_present previous) remaining)
                 "center: previous private identity or address is still present; recovery remains paused"
             else ok tt) ;;;
            finishReinstallPrivateIsolation operationID "withdrawn"
      end
  end.

(** The network settings of the Center: connection mode and address. *)
Definition createAgentReconnectEnrollment (agentID operationID : string) (mode connectURL : string) (check_now : Z) (i : issue)
    : M AgentEnrollment :=
  let agentID := trim_space agentID in
  fail_if (agentID =?s "") "center: Agent not found" ;;;
  do! isolated := query (λ st, sql_exists (λ r, (ro_id r =?s operationID) && (ro_agent_id r =?s agentID)
      && (ro_state r =?s "preparing") && str_in (ro_private_isolation r) ["not_required"; "withdrawn"]) (reinstall_operations st)) in
  fail_if (negb isolated) "center: previous private identity must be isolated before command preparation" ;;;
  do! row := query (agent_by_id agentID) in
  match row with
  | None => fail "center: Agent not found"
  | Some a =>
      fail_if (negb (ag_status a =?s "active") && negb (ag_status a =?s "disabled")) "center: Agent cannot reconnect" ;;;
      do! seen := lift (match parse_rfc3339 (ag_last_seen_at a) with
                        | Some seen => Ok seen
                        | None => Err "center: stored Agent heartbeat time is invalid"
                        end) in
      fail_if ((ag_credential_revoked_at a =?s "") && (check_now - agentConnectedMaxAge <? seen))
        "center: disconnect the Agent before generating a reconnect command" ;;;
      do! runtime := lift (decodeAgentEnrollmentRuntime (ag_roles_json a) (ag_capabilities_json a)) in
      let caps := snd runtime in
      createAgentEnrollment
        (mk_spec false (ag_site_id a) (ag_name a) connectURL (nc_gateway caps) (nc_tunnel caps)
           ((mode =?s "headscale") || nc_landing_only caps) "" "")
        (ag_roles_json a) (ag_capabilities_json a) agentID operationID i
  end.

(** The outside world of one preparation. *)
Record preparation := mk_preparation {
  pp_shared : bool; pp_controller : controller; pp_mode : string; pp_connect_url : string; pp_check_now : Z; pp_issue : issue;
  pp_failed_now : Z
}.

(** [prepareAgentReinstallEnrollment]: a failure is recorded and keeps the fence. *)
Definition prepareAgentReinstallEnrollment (agentID operationID : string) (p : preparation) : M AgentEnrollment :=
  let failed message e : M AgentEnrollment :=
    update_reinstalls (λ r, (ro_id r =?s operationID) && (ro_state r =?s "preparing"))
      (λ r, set_reinstall "failed" message (rfc3339nano (pp_failed_now p)) (ro_attempt r) (ro_enrollment_token_hash r)
              (ro_sealed_enrollment r) (ro_replacement_fingerprint r) (ro_private_isolation r) r) ;;;
    fail e in
  λ st, match isolateReinstallPrivateIdentity agentID operationID (pp_shared p) (pp_controller p) st with
        | (st1, Err e) => failed e e st1
        | (st1, Ok _) =>
            match createAgentReconnectEnrollment agentID operationID (pp_mode p) (pp_connect_url p) (pp_check_now p) (pp_issue p) st1 with
            | (st2, Err e) => failed "center: command preparation stopped; inspect recovery before continuing" e st2
            | (st2, Ok enrollment) => (st2, Ok enrollment)
            end
        end.

Definition CreateAgentReconnectEnrollment (agentID adminID : string) (input : AgentReinstallInput) (plan : res plan_reads)
    (endpoint : option string) (seen_now now : Z) (p : preparation) : M AgentEnrollment :=
  do! cached := beginAgentReinstall (trim_space agentID) adminID input plan endpoint seen_now now in
  match cached with
  | Some enrollment => ok enrollment
  | None => prepareAgentReinstallEnrollment agentID (ri_operation_id input) p
  end.

Definition ContinueAgentReinstallIsolation (agentID adminID operationID : string) (expectedAttempt : Z) (confirm : bool) (now : Z)
    (p : preparation) : M AgentEnrollment :=
  fail_if (negb confirm || (expectedAttempt <? 1))
    "center: explicitly confirm private identity inspection before continuing" ;;;
  do! admin := query (λ st, is_admin st adminID) in
  do! revoked := query (λ st, sql_exists (λ a, (ag_id a =?s agentID) && negb (ag_credential_revoked_at a =?s "")) (agents st)) in
  do! changed := update_reinstalls
    (λ r, (ro_id r =?s operationID) && (ro_agent_id r =?s agentID) && (ro_authorized_by r =?s adminID)
          && (ro_attempt r =? expectedAttempt) && str_in (ro_state r) ["preparing"; "failed"]
          && (ro_private_isolation r =?s "pending") && admin && revoked)
    (λ r, set_reinstall "preparing" "" (rfc3339nano now) (ro_attempt r + 1) (ro_enrollment_token_hash r)
            (ro_sealed_enrollment r) (ro_replacement_fingerprint r) (ro_private_isolation r) r) in
  fail_if (negb (changed =? 1))
    "center: recovery progress changed or command preparation already started; refresh before continuing" ;;;
  prepareAgentReinstallEnrollment agentID operationID p.

End Enrollment.
