(* ===== verification/EnrollmentSpec.v ===== *)
(** * What an enrolment promises

    Every run of the operations of Enrollment.v, beside anything else that happens at the
    Center, exchanges a token for one identity and one credential, repeats a lost reply
    for as long as it may be repeated, and lets an Agent in with the credential of its
    latest enrolment only. *)
From S2P Require Import Prelude GoText GoTime Store Hoare Execution Handoff Workflows Envelope GoNet Enrollment.

(** ** Statements of Enrollment.v *)
Lemma wp_change {B} f (k : unit → M B) st R : wp (k tt) (f st) R → wp (bindM (change f) k) st R.
Proof. intros H. exact H. Qed.
Lemma wp_change_last f st R : R (f st) tt → wp (change f) st R.
Proof. intros H ?? E. unfold change in E. by simplify_eq. Qed.
Lemma wp_update_agents {B} wh f (k : Z → M B) st R :
  wp (k (sql_affected wh (agents st))) (with_agents (sql_update wh f (agents st)) st) R →
  wp (bindM (update_agents wh f) k) st R.
Proof. intros H. exact H. Qed.
Lemma wp_update_reinstalls {B} wh f (k : Z → M B) st R :
  wp (k (sql_affected wh (reinstall_operations st))) (with_reinstalls (sql_update wh f (reinstall_operations st)) st) R →
  wp (bindM (update_reinstalls wh f) k) st R.
Proof. intros H. exact H. Qed.

Lemma wp_and {A} (m : M A) st Q R : wp m st Q → wp m st R → wp m st (λ st' a, Q st' a ∧ R st' a).
Proof. intros H1 H2 st' a E. eauto. Qed.

Ltac en_step :=
  first [ wp_step
        | lazymatch goal with
          | |- wp (bindM (change _) _) _ _ => apply wp_change
          | |- wp (change _) _ _ => apply wp_change_last
          | |- wp (bindM (update_agents _ _) _) _ _ => apply wp_update_agents
          | |- wp (bindM (update_reinstalls _ _) _) _ _ => apply wp_update_reinstalls
          end ].

(** ** Rows that disappear *)

(** The columns of a token that only its use changes. *)
Definition token_key (t : token_row) := (tk_hash t, tk_target_agent_id t, tk_expires_at t, tk_used_at t).

Definition response_secret (o : enrollment_row) (st : Store) : option sealed_row :=
  sql_row (λ s, sl_id s =?s eo_response_secret_id o) (sealed_secrets st).

(** Tokens and operations may disappear, operations only when [P] holds of them and
    never without their token; what is left is as before. *)
Record shrink (P : enrollment_row → Prop) (st st' : Store) : Prop := mk_shrink {
  sh_tokens : sublist (map token_key (tokens st')) (map token_key (tokens st));
  sh_ops : ∃ keep, operations st' = List.filter keep (operations st) ∧
    ∀ o, o ∈ operations st → keep o = false → P o;
  sh_secrets : ∀ o, o ∈ operations st' → response_secret o st' = response_secret o st;
  sh_cascade : ∀ o t, o ∈ operations st' → t ∈ tokens st → tk_hash t = eo_token_hash o →
    token_key t ∈ map token_key (tokens st')
}.

Lemma in_filter {A} (f : A → bool) l x : x ∈ List.filter f l ↔ x ∈ l ∧ f x = true.
Proof. rewrite !list_elem_of_In. apply filter_In. Qed.

Lemma filter_true {A} (l : list A) : List.filter (λ _, true) l = l.
Proof. induction l; simpl; congruence. Qed.

Lemma filter_filter {A} (f g : A → bool) l : List.filter g (List.filter f l) = List.filter (λ x, f x && g x) l.
Proof. induction l as [|a l IH]; simpl; [done|]. destruct (f a); simpl; [destruct (g a)|]; congruence. Qed.

Lemma sublist_filter {A B} (k : A → B) (f : A → bool) l : sublist (map k (List.filter f l)) (map k l).
Proof. induction l as [|a l IH]; simpl; [done|]. destruct (f a); simpl; by constructor. Qed.

Lemma shrink_refl P st : shrink P st st.
Proof.
  split; [done| |done|].
  - exists (λ _, true). by rewrite filter_true.
  - intros o t _ Ht _. apply list_elem_of_In, in_map, list_elem_of_In, Ht.
Qed.

Lemma shrink_ops P st st' o : shrink P st st' → o ∈ operations st' → o ∈ operations st.
Proof. intros [_ (keep & -> & _) _ _]. by intros [? _]%in_filter. Qed.

Lemma shrink_mono (P Q : enrollment_row → Prop) st st' :
  (∀ o, o ∈ operations st → P o → Q o) → shrink P st st' → shrink Q st st'.
Proof. intros HPQ [H1 (keep & E & H2) H3 H4]. split; eauto 6. Qed.

Lemma shrink_trans P st1 st2 st3 : shrink P st1 st2 → shrink P st2 st3 → shrink P st1 st3.
Proof.
  intros A B. destruct A as [A1 (k1 & A2 & A2') A3 A4], B as [B1 (k2 & B2 & B2') B3 B4].
  split.
  - by etrans.
  - exists (λ o, k1 o && k2 o). rewrite B2, A2, filter_filter. split; [done|]. intros o Ho Hk.
    destruct (k1 o) eqn:E; [|by apply A2']. apply B2'; [|done]. rewrite A2. by apply in_filter.
  - intros o Ho. rewrite B3 by done. apply A3. rewrite B2 in Ho. by apply in_filter in Ho as [? _].
  - intros o t Ho Ht E. assert (o ∈ operations st2) as Ho2 by (rewrite B2 in Ho; by apply in_filter in Ho as [? _]).
    specialize (A4 o t Ho2 Ht E). apply list_elem_of_In, in_map_iff in A4 as (t2 & Ek & Ht2%list_elem_of_In).
    rewrite <- Ek. apply (B4 o); [done..|]. unfold token_key in Ek. congruence.
Qed.

(** Only the tables of this component changed. *)
Definition same_rest (st st' : Store) : Prop :=
  agents st' = agents st ∧ reinstall_operations st' = reinstall_operations st ∧ admins st' = admins st ∧
  executions st' = executions st ∧ sessions st' = sessions st ∧ rg_removals (registry st') = rg_removals (registry st) ∧
  tasks st' = tasks st.

Lemma same_rest_trans a b c : same_rest a b → same_rest b c → same_rest a c.
Proof. unfold same_rest. intros. destruct_and!. split_and!; congruence. Qed.

Lemma sql_row_filter {A} (f g : A → bool) l : (∀ x, g x = true → f x = true) →
  sql_row g (List.filter f l) = sql_row g l.
Proof.
  intros H. unfold sql_row. induction l as [|a l IH]; simpl; [done|].
  destruct (f a) eqn:Ef; simpl; [by rewrite IH|]. destruct (g a) eqn:Eg; [|done]. rewrite (H a Eg) in Ef. done.
Qed.

Lemma sql_row_app {A} (f : A → bool) l1 l2 :
  sql_row f (l1 ++ l2) = match sql_row f l1 with Some x => Some x | None => sql_row f l2 end.
Proof. unfold sql_row. induction l1 as [|a l1 IH]; simpl; [done|]. by destruct (f a). Qed.

Lemma delete_secrets_tokens ids st :
  wp (delete_secrets ids) st (λ st' _, map token_key (tokens st') = map token_key (tokens st)).
Proof. unfold delete_secrets. repeat en_step. unfold tokens. cbn. apply sql_update_key. by intros []. Qed.

Lemma delete_operations_tokens wh st :
  wp (delete_operations wh) st (λ st' _, map token_key (tokens st') = map token_key (tokens st)).
Proof. unfold delete_operations. repeat en_step. eapply wp_mono; [apply delete_secrets_tokens|]. by intros st' [] ->. Qed.

(** The secrets that no operation refers to. *)
Definition secret_at (id : string) (st : Store) : option sealed_row := sql_row (λ s, sl_id s =?s id) (sealed_secrets st).

Lemma delete_operations_secrets wh st :
  wp (delete_operations wh) st (λ st' _, ∀ id, (∀ o, o ∈ operations st → eo_response_secret_id o ≠ id) →
    secret_at id st' = secret_at id st).
Proof.
  unfold delete_operations, delete_secrets. repeat en_step. intros id Hid. unfold secret_at, sealed_secrets. cbn.
  apply sql_row_filter. intros s Hs%String.eqb_eq. apply negb_true_iff, not_true_iff_false. intros Hi%str_in_spec.
  apply list_elem_of_In, in_map_iff in Hi as (o & E & Ho%list_elem_of_In). apply in_filter in Ho as [Ho _].
  apply (Hid o Ho). congruence.
Qed.

Lemma delete_secrets_wp ids st :
  wp (delete_secrets ids) st (λ st' _, shrink (λ _, False) st st' ∧ same_rest st st').
Proof.
  unfold delete_secrets. repeat en_step. split; [|done]. split; simpl.
  - unfold with_tokens, tokens. cbn. rewrite (sql_update_key token_key); [done|]. by intros [].
  - exists (λ _, true). rewrite filter_true. done.
  - intros o Ho. unfold response_secret, sealed_secrets. cbn. apply sql_row_filter.
    intros s Hs%String.eqb_eq. rewrite Hs. apply negb_true_iff.
    match goal with H : sql_exists _ _ = false |- _ => by apply (proj1 (sql_exists_false _ _) H) end.
  - intros o t _ Ht _. unfold with_tokens, tokens. cbn. rewrite (sql_update_key token_key); [|by intros []].
    apply list_elem_of_In, in_map, list_elem_of_In, Ht.
Qed.

Lemma delete_operations_rest wh st :
  wp (delete_operations wh) st (λ st' _, reinstall_operations st' = reinstall_operations st ∧
    rg_candidates (registry st') = rg_candidates (registry st) ∧ rg_peers (registry st') = rg_peers (registry st) ∧
    rg_profiles (registry st') = rg_profiles (registry st) ∧ agents st' = agents st).
Proof. unfold delete_operations, delete_secrets. by repeat en_step. Qed.

(** Removing operations before their secrets, as the trigger does. *)
Lemma delete_operations_wp wh st :
  wp (delete_operations wh) st (λ st' _,
    shrink (λ o, wh o = true) st st' ∧ same_rest st st' ∧ ∀ o, o ∈ operations st' → wh o = false).
Proof.
  unfold delete_operations. repeat en_step.
  eapply wp_mono; [apply delete_secrets_wp|]. intros st' [] [[H1 (keep & H2 & H2') H3 H4] Hr].
  cbn in *. split_and!; [split|done|].
  - done.
  - exists (λ o, negb (wh o) && keep o). rewrite H2. cbn. rewrite filter_filter. split; [done|].
    intros o Ho Hk. destruct (wh o) eqn:E; [done|]. exfalso. apply (H2' o); [|done].
    apply in_filter. by rewrite E.
  - done.
  - done.
  - intros o Ho. rewrite H2 in Ho. apply in_filter in Ho as [Ho _]. apply in_filter in Ho as [_ Ho].
    by apply negb_true_iff in Ho.
Qed.

Lemma delete_tokens_wp wh st :
  wp (delete_tokens wh) st (λ st' _,
    shrink (λ o, ∃ t, t ∈ tokens st ∧ wh t = true ∧ tk_hash t = eo_token_hash o) st st' ∧ same_rest st st').
Proof.
  unfold delete_tokens. repeat en_step.
  eapply wp_mono; [apply delete_operations_wp|]. intros st' [] ([H1 (keep & H2 & H2') H3 H4] & Hr & Hkept).
  split; [|done]. split.
  - etrans; [exact H1|]. cbn. apply sublist_filter.
  - exists keep. split; [exact H2|]. intros o Ho Hk. specialize (H2' o Ho Hk). apply str_in_spec in H2'.
    apply list_elem_of_In, in_map_iff in H2' as (t & E & Ht%list_elem_of_In). apply in_filter in Ht as [Ht Hw].
    by exists t.
  - exact H3.
  - intros o t Ho Ht E. apply (H4 o); [done| |done]. cbn. apply in_filter. split; [done|].
    apply negb_true_iff. destruct (wh t) eqn:Ew; [|done]. exfalso. specialize (Hkept o Ho).
    apply not_true_iff_false in Hkept. apply Hkept, str_in_spec. rewrite <- E.
    apply list_elem_of_In, in_map, list_elem_of_In, in_filter. done.
Qed.

Lemma shrink_token P st st' t' : shrink P st st' → t' ∈ tokens st' → ∃ t, t ∈ tokens st ∧ token_key t = token_key t'.
Proof.
  intros [H _ _ _] Ht. assert (token_key t' ∈ map token_key (tokens st)) as Hin.
  { eapply sublist_subseteq; [exact H|]. apply list_elem_of_In, in_map, list_elem_of_In, Ht. }
  apply list_elem_of_In, in_map_iff in Hin as (t & E & Ht0%list_elem_of_In). by exists t.
Qed.

Lemma shrink_start P st0 st st' :
  tokens st0 = tokens st → operations st0 = operations st → sealed_secrets st0 = sealed_secrets st →
  shrink P st0 st' → shrink P st st'.
Proof.
  intros T O S [H1 H2 H3 H4]. rewrite T in H1, H4. rewrite O in H2. split; [done|done| |done].
  intros o Ho. rewrite (H3 o Ho). unfold response_secret. by rewrite S.
Qed.

Lemma shrink_all_ops st st' : shrink (λ _, False) st st' → operations st' = operations st.
Proof.
  intros [_ (keep & -> & Hk) _ _]. apply List.forallb_filter_id, forallb_forall. intros o Ho%list_elem_of_In.
  destruct (keep o) eqn:E; [done|]. by destruct (Hk o Ho E).
Qed.

(** The operations of the tokens that are bound to an agent. *)
Definition bound_to (st : Store) (agentID : string) (o : enrollment_row) : Prop :=
  ∃ t, t ∈ tokens st ∧ tk_target_agent_id t = Some agentID ∧ tk_hash t = eo_token_hash o.

(** Nothing of this component or of the agents changed. *)
Definition untouched (st st' : Store) : Prop := registry st' = registry st ∧ agents st' = agents st.

Section Effects.
Context {L : Libraries} {K : Crypto} {EC : EnrollmentCodec}.

Lemma retire_untouched a n st : untouched st (fst (retireAgentExecutionIdentity a n st)).
Proof. done. Qed.

Lemma pause_untouched a n st : untouched st (fst (pauseReinstallRelatedCommands a n st)).
Proof. done. Qed.

(** What [fence_machine] does: the tokens of the agent and what hangs on them are gone,
    and its credential is revoked. *)
Definition fenced_agents (agentID stamp : string) (l : list agent_row) : list agent_row :=
  sql_update (λ a, ag_id a =?s agentID) (λ a, set_revoked (ag_status a) stamp a) l.

Lemma delete_for_target_wp a st :
  wp (do! old := query (bootstrap_secrets (for_target a)) in delete_secrets old ;;; delete_tokens (for_target a)) st
    (λ st' _, shrink (bound_to st a) st st' ∧ same_rest st st').
Proof.
  repeat en_step. apply wp_bind. eapply wp_mono; [apply delete_secrets_wp|]. intros st1 [] [H1 R1].
  eapply wp_mono; [apply delete_tokens_wp|]. intros st2 [] [H2 R2]. split; [|by eapply same_rest_trans].
  eapply shrink_trans; [eapply shrink_mono; [|exact H1]; by intros ? ? []|]. eapply shrink_mono; [|exact H2].
  intros o _ (t & Ht & Hw & E). destruct (shrink_token _ _ _ _ H1 Ht) as (t0 & Ht0 & Ek).
  unfold for_target in Hw. apply bool_decide_eq_true in Hw. unfold token_key in Ek. simplify_eq.
  exists t0. split_and!; congruence.
Qed.

(** Two statements that begin a longer block. *)
Lemma wp_block {A B C} (m : M A) (f : A → M B) (g : A → M unit) (k : M C) (R : Store → C → Prop) st :
  wp (do! x := m in f x ;;; g x) st (λ st' _, wp k st' R) → wp (do! x := m in f x ;;; g x ;;; k) st R.
Proof.
  intros H st' c E. unfold bindM in *. unfold wp in H.
  destruct (m st) as [st1 [a|]] eqn:E1; [|discriminate]. destruct (f a st1) as [st2 [b|]] eqn:E2; [|discriminate].
  destruct (g a st2) as [st3 [[]|]] eqn:E3; [|discriminate].
  by eapply (H st3 tt).
Qed.

Lemma fence_machine_wp a stamp st :
  wp (fence_machine a stamp) st (λ st' _, ∃ st1, shrink (bound_to st a) st st1 ∧ same_rest st st1 ∧
    registry st' = registry st1 ∧ agents st' = fenced_agents a stamp (agents st)).
Proof.
  unfold fence_machine. apply wp_block. eapply wp_mono; [apply delete_for_target_wp|].
  intros st1 [] [H1 R1]. en_step. intros st' [] E.
  match type of E with retireAgentExecutionIdentity _ _ ?s = _ => pose proof (retire_untouched a stamp s) as [U1 U2] end.
  rewrite E in U1, U2. cbn in U1, U2. exists st1. destruct R1 as (Ra & R1). split_and!; [done|done|done|].
  unfold fenced_agents. by rewrite U2, Ra.
Qed.

Lemma sweep_wp stamp st :
  wp (sweep_expired stamp) st (λ st' _, shrink (λ o, (eo_expires_at o <=?s stamp) = true) st st' ∧ same_rest st st').
Proof.
  unfold sweep_expired. cbv zeta. apply wp_bind. eapply wp_mono; [apply delete_operations_wp|].
  intros st1 [] (H1 & R1 & _). repeat en_step. apply wp_bind. eapply wp_mono; [apply delete_secrets_wp|].
  intros st2 [] [H2 R2]. repeat en_step. eapply wp_mono; [apply delete_tokens_wp|]. intros st3 [] [H3 R3].
  split; [|by eauto using same_rest_trans].
  eapply shrink_trans; [exact H1|]. eapply shrink_trans; (eapply shrink_mono; [|eassumption]); [by intros ? ? []|].
  intros o Ho (t & Ht & Hw & E). exfalso. bool_prop.
  match goal with H : str_in _ _ = false |- _ => apply not_true_iff_false in H; apply H, str_in_spec end.
  rewrite E. apply list_elem_of_In, in_map, list_elem_of_In, Ho.
Qed.

Lemma put_secret_wp id value label st :
  wp (putSecret id value label) st (λ st' x, x = id ∧
    st' = with_sealed (sealed_secrets st ++ [mk_sealed id (seal label value)]) st ∧
    ∀ s, s ∈ sealed_secrets st → sl_id s ≠ id).
Proof.
  unfold putSecret. repeat en_step. split_and!; [done|done|]. intros s Hs.
  match goal with H : sql_exists _ _ = false |- _ => specialize (proj1 (sql_exists_false _ _) H s Hs) as Hn end.
  by apply String.eqb_neq.
Qed.

(** A new secret hides none that an operation refers to. *)
Lemma response_secret_app st l o s : response_secret o st = Some s →
  response_secret o (with_sealed (sealed_secrets st ++ l) st) = Some s.
Proof.
  unfold response_secret, sealed_secrets. cbn. intros H. by rewrite sql_row_app, H.
Qed.

(** ** Issuing *)
Definition fenced_for (target stamp : string) (l : list agent_row) : list agent_row :=
  if target =?s "" then l else fenced_agents target stamp l.

(** What is left of the tables before the new token, and the new token. *)
Definition issued (st : Store) (target : string) (i : issue) (st' : Store) : Prop :=
  ∃ st1 t,
    shrink (λ o, (eo_expires_at o <=?s rfc3339nano (is_now i)) = true ∨ bound_to st target o) st st1 ∧
    tokens st' = tokens st1 ++ [t] ∧ operations st' = operations st1 ∧
    (∀ o s, o ∈ operations st1 → response_secret o st1 = Some s → response_secret o st' = Some s) ∧
    tk_hash t = token_hash (is_token i) ∧ tk_used_at t = None ∧ tk_target_agent_id t ≠ Some "" ∧
    (∀ x, x ∈ tokens st1 → tk_hash x ≠ tk_hash t) ∧
    agents st' = fenced_for target (rfc3339nano (is_now i)) (agents st).

Lemma bound_to_shrink P st st1 a o : shrink P st st1 → bound_to st1 a o → bound_to st a o.
Proof.
  intros H1 (t & Ht & Hb & E). destruct (shrink_token _ _ _ _ H1 Ht) as (t0 & Ht0 & Ek).
  unfold token_key in Ek. simplify_eq. exists t0. split_and!; congruence.
Qed.

Lemma fence_target_wp target n1 n2 st :
  wp (if target =?s "" then ok tt else
      do! checked := query (λ st, reconnectable (agent_by_id target st) (decommissioning target st)
                        "center: Agent cannot reconnect" "center: Agent decommissioning must finish before reconnecting" n1) in
      lift checked ;;; fence_machine target n2) st
    (λ st' _, ∃ st1, shrink (bound_to st target) st st1 ∧ registry st' = registry st1 ∧
       agents st' = fenced_for target n2 (agents st)).
Proof.
  unfold fenced_for. destruct (target =?s "").
  - en_step. exists st. split; [apply shrink_refl|done].
  - repeat en_step. eapply wp_mono; [apply fence_machine_wp|]. intros st' [] (st1 & Hs & _ & Hg & Ha). eauto.
Qed.

Lemma bootstrap_wp command id label st :
  wp (if command =?s "" then ok None else do! id := putSecret id command label in ok (Some id)) st
    (λ st' _, tokens st' = tokens st ∧ operations st' = operations st ∧ agents st' = agents st ∧
       ∀ o s, response_secret o st = Some s → response_secret o st' = Some s).
Proof.
  destruct (command =?s ""); [by en_step|]. apply wp_bind. eapply wp_mono; [apply put_secret_wp|].
  intros st' x (-> & -> & _). en_step. split_and!; [done..|]. intros o s. apply response_secret_app.
Qed.

Lemma insert_token_wp t st :
  wp (insert_token t) st (λ st' _, st' = with_tokens (tokens st ++ [t]) st ∧ ∀ x, x ∈ tokens st → tk_hash x ≠ tk_hash t).
Proof.
  unfold insert_token. repeat en_step. split; [done|]. intros x Hx E.
  match goal with H : sql_exists _ _ = false |- _ => specialize (proj1 (sql_exists_false _ _) H x Hx) as Hn end.
  cbn in Hn. by rewrite E, eqb_refl_s in Hn.
Qed.

Lemma save_enrollment_untouched a op e n st :
  wp (saveAgentReinstallEnrollment a op e n) st (λ st' _, untouched st st').
Proof. unfold saveAgentReinstallEnrollment. by repeat en_step. Qed.

Lemma issue_wp spec roles caps target op command e i st :
  wp (issue_enrollment spec roles caps target op command e i) st (λ st' _, issued st target i st').
Proof.
  unfold issue_enrollment. cbv zeta. en_step. apply wp_bind. eapply wp_mono; [apply sweep_wp|].
  intros st1 [] [H1 (Ra & _)]. apply wp_bind. eapply wp_mono; [apply fence_target_wp|].
  intros st2 [] (st0 & Hs & Hg & Ha). apply wp_bind. eapply wp_mono; [apply bootstrap_wp|].
  intros st3 sid (Ht & Ho & Ha3 & Hsec). apply wp_bind. eapply wp_mono; [apply insert_token_wp|].
  intros st4 [] [-> Hnew].
  set (t := mk_token _ _ _ _ _ _ _ _ _ _ _ _) in *.
  assert (∀ st', untouched (with_tokens (tokens st3 ++ [t]) st3) st' → issued st target i st') as Hdone.
  { intros st' [Er Ea]. assert (tokens st3 = tokens st0) as Ht0 by (rewrite Ht; unfold tokens; by rewrite Hg).
    assert (operations st3 = operations st0) as Ho0 by (rewrite Ho; unfold operations; by rewrite Hg).
    exists st0, t. split_and!; try done.
    - eapply shrink_trans; (eapply shrink_mono; [|eassumption]); [tauto|]. right. by eapply bound_to_shrink.
    - unfold tokens at 1. rewrite Er. cbn. by rewrite Ht0.
    - unfold operations at 1. rewrite Er. cbn. exact Ho0.
    - intros o s _ Hs0. unfold response_secret, sealed_secrets. rewrite Er. cbn. apply Hsec.
      unfold response_secret, sealed_secrets. by rewrite Hg.
    - cbn. destruct (target =?s "") eqn:Et; [done|]. bool_prop. congruence.
    - intros x Hx. apply Hnew. by rewrite Ht0.
    - rewrite Ea. cbn. by rewrite Ha3, Ha, Ra. }
  destruct (target =?s ""); [en_step; by apply Hdone|].
  eapply wp_mono; [apply save_enrollment_untouched|]. intros st' []. apply Hdone.
Qed.

(** ** The first exchange *)

(** What the use of a token makes of the columns of [token_key]. *)
Definition used_key (hash stamp : string) (k : string * option string * string * option string) :=
  let '(h, target, expires, used) := k in
  (h, target, expires, if (h =?s hash) && negb (is_Some_b used) then Some stamp else used).

Definition egress_cleared (agentID : string) (l : list agent_row) : list agent_row :=
  sql_update (λ a, ag_id a =?s agentID)
    (λ a, mk_agent (ag_id a) (ag_status a) (ag_credential_hash a) (ag_credential_revoked_at a) (ag_version a)
            (ag_last_seen_at a) (ag_remote_update_supported a) (ag_name a) (ag_runtime_recovery a) (ag_public_key a)
            (ag_operating_system a) (ag_architecture a) (ag_applied_installations a) (ag_enrolled_at a) (ag_site_id a)
            (ag_roles_json a) (ag_capabilities_json a) (ag_gateway_healthy a) (ag_runtime_generation a)
            (ag_tailscale_ownership a) [""; ""; ""; ""]) l.

(** The row of an agent before a replacement: it is fenced. *)
Definition replaceable (st : Store) (agentID : string) (a : agent_row) : bool :=
  (ag_id a =?s agentID) && str_in (ag_status a) ["active"; "disabled"] && negb (ag_credential_revoked_at a =?s "")
  && negb (decommissioning agentID st).

(** The agents after an exchange: a new one, or the same with one row taken over. *)
Definition identified (st st' : Store) (target id hash : string) : Prop :=
  if target =?s ""
  then ∃ a, agents st' = agents st ++ [a] ∧ ag_id a = id ∧ ag_credential_hash a = hash ∧ ∀ x, x ∈ agents st → ag_id x ≠ id
  else ∃ f, agents st' = sql_update (replaceable st target) f (egress_cleared target (agents st)) ∧
    sql_affected (replaceable st target) (egress_cleared target (agents st)) = 1 ∧
    ∀ a, ag_id (f a) = ag_id a ∧ ag_credential_hash (f a) = hash.

(** Tokens, operations and secrets while an agent is written. *)
Definition written (target : string) (st st' : Store) : Prop :=
  shrink (λ o, eo_agent_id o = target) st st' ∧ map token_key (tokens st') = map token_key (tokens st) ∧
  (target = "" → operations st' = operations st) ∧
  ∀ id, (∀ o, o ∈ operations st → eo_response_secret_id o ≠ id) → secret_at id st' = secret_at id st.

Lemma accept_wp a hash key stamp st :
  wp (acceptAgentReinstallIdentity a hash key stamp) st (λ st' _,
    tokens st' = tokens st ∧ operations st' = operations st ∧ sealed_secrets st' = sealed_secrets st ∧
    agents st' = egress_cleared a (agents st) ∧ decommissioning a st' = decommissioning a st).
Proof.
  unfold acceptAgentReinstallIdentity. cbv zeta. do 5 en_step. unfold decommissioning. cbn.
  destruct (rg_profiles _ !! a) as [[p|]|]; repeat en_step; done.
Qed.

Lemma replace_wp a hash key version os arch th stamp st :
  a ≠ "" →
  wp (replace_machine a hash key version os arch th stamp) st (λ st' _, written a st st' ∧
    identified st st' a a hash).
Proof.
  intros Ha. unfold replace_machine. apply wp_bind. eapply wp_mono; [apply accept_wp|].
  intros st1 [] (T1 & O1 & S1 & A1 & D1). do 2 en_step. cbv zeta. do 4 en_step. apply wp_bind. intros st2 n E2.
  unfold update_tasks in E2. simplify_eq. apply wp_bind. intros st3 [] E3. unfold update_applications in E3. simplify_eq.
  eapply wp_mono; [apply wp_and; [apply delete_operations_wp|apply wp_and; [apply delete_operations_tokens|
    apply delete_operations_secrets]]|].
  intros st' [] [(Hsh & (R1 & _) & _) [Ht Hsec]]. cbn in Hsh, R1, Ht. split.
  - split; [|split_and!; [by rewrite Ht, <- T1|done|]].
    2:{ intros id Hi. rewrite Hsec by (intros o; change (o ∈ operations st1 → eo_response_secret_id o ≠ id); rewrite O1; apply Hi).
        unfold secret_at. by rewrite <- S1. }
    eapply shrink_start; [exact T1|exact O1|exact S1|].
    eapply shrink_start; [| | |eapply shrink_mono; [|exact Hsh]]; [done..|]. intros o _. apply String.eqb_eq.
  - unfold identified. assert ((a =?s "") = false) as -> by by apply String.eqb_neq.
    eexists. rewrite R1, A1. unfold replaceable. rewrite <- D1. split_and!; [done|by bool_prop; rewrite <- A1|done].
Qed.

Definition target_of (t : token_row) : string := default "" (tk_target_agent_id t).

(** The columns of the operation that records an exchange. *)
Definition records (o : enrollment_row) (t : token_row) (op rq : string) (x : exchange) (c : AgentCredential) : Prop :=
  eo_token_hash o = tk_hash t ∧ eo_operation_id o = op ∧ eo_request_hash o = rq ∧ eo_agent_id o = ac_id c ∧
  eo_expires_at o = rfc3339nano (ex_now x + agentEnrollmentReplayLifetime).

(** The sealed reply of an operation. *)
Definition keeps_reply (st : Store) (o : enrollment_row) (c : AgentCredential) : Prop :=
  ∃ s, response_secret o st = Some s ∧
    sl_sealed s = seal (agentEnrollmentOperationSecretContext (eo_token_hash o) (eo_operation_id o)) (credential_json c).

Definition granted (st : Store) (t : token_row) (op rq : string) (x : exchange) (c : AgentCredential) (st' : Store) : Prop :=
  ∃ keep o, operations st' = List.filter keep (operations st) ++ [o] ∧
    (∀ o, o ∈ operations st → keep o = false → eo_agent_id o = target_of t ∧ target_of t ≠ "") ∧
    records o t op rq x c ∧ keeps_reply st' o c ∧
    (∀ o s, o ∈ operations st → keep o = true → response_secret o st = Some s → response_secret o st' = Some s) ∧
    map token_key (tokens st') = map (used_key (tk_hash t) (rfc3339nano (ex_now x))) (map token_key (tokens st)) ∧
    ac_credential c = ex_credential x ∧ ac_id c = (if target_of t =?s "" then ex_id x else target_of t) ∧
    identified st st' (target_of t) (ac_id c) (token_hash (ex_credential x)).

Lemma insert_agent_wp a st :
  wp (insert_agent a) st (λ st' _, st' = with_agents (agents st ++ [a]) st ∧ ∀ x, x ∈ agents st → ag_id x ≠ ag_id a).
Proof.
  unfold insert_agent. repeat en_step. split; [done|]. intros x Hx E.
  match goal with H : sql_exists _ _ = false |- _ => specialize (proj1 (sql_exists_false _ _) H x Hx) as Hn end.
  cbn in Hn. by rewrite E, eqb_refl_s in Hn.
Qed.

(** The agent is written: a new row or the row of the replaced machine. *)
Lemma write_agent_wp t id hash a key version os arch stamp st :
  ag_id a = id → ag_credential_hash a = hash → (target_of t ≠ "" → id = target_of t) →
  wp (if target_of t =?s "" then insert_agent a
      else replace_machine (target_of t) hash key version os arch (tk_hash t) stamp) st
    (λ st' _, written (target_of t) st st' ∧ identified st st' (target_of t) id hash).
Proof.
  intros Hi Hh Ht. destruct (target_of t =?s "") eqn:E.
  - eapply wp_mono; [apply insert_agent_wp|]. intros st' [] [-> Hn]. unfold written, identified. rewrite E. split.
    + split_and!; [|done..]. eapply shrink_start; [..|apply shrink_refl]; done.
    + exists a. rewrite <- Hi. done.
  - bool_prop. rewrite (Ht E). by apply replace_wp.
Qed.

Lemma insert_operation_wp o st :
  wp (insert_operation o) st (λ st' _, st' = with_operations (operations st ++ [o]) st).
Proof. unfold insert_operation. by repeat en_step. Qed.

Lemma used_key_update hash stamp l :
  map token_key (sql_update (λ r, (tk_hash r =?s hash) && negb (is_Some_b (tk_used_at r))) (set_used stamp) l) =
  map (used_key hash stamp) (map token_key l).
Proof.
  unfold sql_update. rewrite !map_map. apply map_ext. intros t. unfold token_key, used_key, set_used. cbn.
  by destruct (_ && _).
Qed.

Lemma with_sealed_new st id text o :
  eo_response_secret_id o = id → (∀ s, s ∈ sealed_secrets st → sl_id s ≠ id) →
  response_secret o (with_sealed (sealed_secrets st ++ [mk_sealed id text]) st) = Some (mk_sealed id text).
Proof.
  intros Ho Hn. unfold response_secret, sealed_secrets at 1. cbn. rewrite sql_row_app.
  destruct (sql_row _ (sealed_secrets st)) as [s|] eqn:E.
  - apply sql_row_spec in E as [Hs E]. bool_prop. destruct (Hn s Hs). congruence.
  - unfold sql_row. cbn. by rewrite Ho, eqb_refl_s.
Qed.

(** The bootstrap secret of a used token is deleted; replies are kept. *)
Lemma forget_bootstrap_wp t st :
  wp (match tk_bootstrap_secret_id t with Some secret => delete_secrets [secret] | None => ok tt end) st
    (λ st' _, operations st' = operations st ∧ (∀ o, o ∈ operations st → response_secret o st' = response_secret o st) ∧
       map token_key (tokens st') = map token_key (tokens st) ∧ agents st' = agents st).
Proof.
  destruct (tk_bootstrap_secret_id t) as [b|]; [|by en_step].
  eapply wp_mono; [apply wp_and; [apply delete_secrets_wp|apply delete_secrets_tokens]|].
  intros st' [] [[Hs (Ha & _)] Ht]. pose proof (shrink_all_ops _ _ Hs) as Ho. split_and!; [done| |done|done].
  intros o Hin. apply (sh_secrets _ _ _ Hs). by rewrite Ho.
Qed.

Lemma consume_wp t op version os arch key rq x st :
  (∀ o, o ∈ operations st → ∃ s, response_secret o st = Some s) →
  wp (consume_token t op version os arch key rq x) st (λ st' c, granted st t op rq x c st').
Proof.
  intros Hfk. unfold consume_token. cbv zeta. fold (target_of t). do 2 en_step.
  match goal with H : decodeAgentEnrollmentRuntime _ _ = Ok ?r |- _ => destruct r as [roles caps] end. cbn [fst snd].
  set (id := if target_of t =?s "" then ex_id x else target_of t).
  set (c := mk_credential id (ex_credential x) (tk_name t) roles caps).
  apply wp_bind. eapply wp_mono; [apply put_secret_wp|]. intros st0 sid (-> & -> & Hnew). set (st0 := with_sealed _ st).
  apply wp_bind. eapply wp_mono; [apply (write_agent_wp t id (token_hash (ex_credential x))); [done|done|]|].
  { intros Ht. unfold id. apply String.eqb_neq in Ht. by rewrite Ht. }
  intros st1 [] [(W1 & W2 & W3 & W4) Hid]. apply wp_bind. eapply wp_mono; [apply insert_operation_wp|]. intros st2 [] ->.
  set (o := mk_enrollment_row _ _ _ _ _ _ _). apply wp_bind. intros st3 n E3. simplify_eq. en_step. apply wp_bind.
  eapply wp_mono; [apply forget_bootstrap_wp|]. intros st4 [] (F1 & F2 & F3 & F4). cbn in F1, F3, F4. en_step.
  assert (∀ p, p ∈ operations st1 ∨ p = o → response_secret p st4 = response_secret p st1) as Hsec.
  { intros p Hp. rewrite F2; [done|]. cbn. apply elem_of_app. destruct Hp as [Hp| ->]; [by left|right; by left]. }
  destruct W1 as [_ (keep & K1 & K2) K3 _]. exists keep, o. split_and!.
  - rewrite F1. unfold operations at 1. cbn. fold (operations st1). by rewrite K1.
  - intros p Hp Hk. split; [by apply K2|]. intros Ht. specialize (W3 Ht). rewrite K1 in W3.
    assert (p ∈ List.filter keep (operations st0)) as Hin by (rewrite W3; exact Hp). apply in_filter in Hin as [_ ?]. congruence.
  - done.
  - exists (mk_sealed (ex_secret_id x) (seal (agentEnrollmentOperationSecretContext (tk_hash t) op) (credential_json c))).
    split; [|done]. rewrite Hsec by by right. change (response_secret o st1) with (secret_at (ex_secret_id x) st1).
    rewrite W4; [by apply (with_sealed_new st _ _ o)|]. intros p Hp E. destruct (Hfk p Hp) as [s Hs].
    apply sql_row_spec in Hs as [Hs Hb]. bool_prop. apply (Hnew s Hs). congruence.
  - intros p s Hp Hk Hs. assert (p ∈ operations st1) as Hp1 by (rewrite K1; by apply in_filter).
    rewrite Hsec by by left. rewrite K3 by done. by apply response_secret_app.
  - rewrite F3. etrans; [apply used_key_update|]. f_equal. exact W2.
  - done.
  - done.
  - unfold identified in *. by rewrite F4.
Qed.

Definition request_of (version os arch key : string) : string :=
  enrollment_request (trim_space version) (trim_space os) (trim_space arch) key.

Lemma enroll_wp token op version os arch key x st :
  (∀ o, o ∈ operations st → ∃ s, response_secret o st = Some s) →
  wp (EnrollAgentOperation token op version os arch key x) st (λ st' c, ∃ t,
    sql_row (λ t, tk_hash t =?s token_hash token) (tokens st) = Some t ∧
    match tk_used_at t with
    | Some _ => st' = st ∧ replayAgentEnrollment (token_hash token) (trim_space op) (request_of version os arch key)
                             (ex_check_now x) st = Ok c
    | None => granted st t (trim_space op) (request_of version os arch key) x c st'
    end).
Proof.
  intros Hfk. unfold EnrollAgentOperation. cbv zeta. do 4 en_step.
  match goal with H : platform_Parse _ _ = Ok ?y |- _ => unfold platform_Parse in H; run_ok H; subst y end.
  cbn [fst snd]. fold (request_of version os arch key). en_step. en_step.
  destruct (sql_row _ (tokens st)) as [t|] eqn:Et; [|en_step]. destruct (tk_used_at t) as [u|] eqn:Eu.
  - en_step. intros st' c E. unfold lift in E. simplify_eq. exists t. by rewrite Eu.
  - eapply wp_mono; [by apply consume_wp|]. intros st' c Hg. exists t. by rewrite Eu.
Qed.

(** ** Fencing *)
Definition identity_of (a : agent_row) := (ag_id a, ag_status a, ag_credential_hash a, ag_credential_revoked_at a).

(** An agent that may authenticate. *)
Definition open_agent (a : agent_row) : Prop := ag_status a = "active" ∧ ag_credential_revoked_at a = "".

(** What fencing the agent [a] does: its tokens and operations may go, its row may no
    longer authenticate, and nothing else changes. *)
Record fences (a : string) (st st' : Store) : Prop := mk_fences {
  fc_tables : shrink (λ o, bound_to st a o ∨ eo_agent_id o = a) st st';
  fc_agents : ∀ r', r' ∈ agents st' → (ag_id r' ≠ a ∧ r' ∈ agents st) ∨ (ag_id r' = a ∧ ¬ open_agent r');
  fc_ids : sublist (map ag_id (agents st')) (map ag_id (agents st))
}.

(** The tables that [shrink] speaks of. *)
Definition same_tables (st st' : Store) : Prop :=
  tokens st' = tokens st ∧ operations st' = operations st ∧ sealed_secrets st' = sealed_secrets st.

Lemma same_registry st st' : registry st' = registry st → same_tables st st'.
Proof. unfold same_tables, tokens, operations, sealed_secrets. by intros ->. Qed.

Lemma shrink_end P st st1 st' : same_tables st1 st' → shrink P st st1 → shrink P st st'.
Proof.
  intros (T & O & S) [H1 H2 H3 H4]. split; rewrite ?T, ?O; [done|done| |done].
  intros o Ho. rewrite <- H3 by done. unfold response_secret. by rewrite S.
Qed.

(** An update of the row of one agent after which it is not open. *)
Lemma fences_update a (wh : agent_row → bool) f st st1 st' :
  shrink (λ o, bound_to st a o ∨ eo_agent_id o = a) st st1 → same_tables st1 st' →
  agents st' = sql_update wh f (agents st) →
  (∀ r, wh r = true → ag_id r = a ∧ ag_id (f r) = a ∧ ¬ open_agent (f r)) →
  (∀ r, ag_id r = a → wh r = false → ¬ open_agent r) → fences a st st'.
Proof.
  intros Hs Hg Ha Hw Ho. split.
  - by eapply shrink_end.
  - intros r'. rewrite Ha, elem_of_sql_update. intros (r & Hr & ->). destruct (wh r) eqn:E.
    + right. destruct (Hw r E) as (_ & ? & ?). done.
    + destruct (decide (ag_id r = a)); [right|left]; auto.
  - rewrite Ha. unfold sql_update. rewrite map_map. assert (map (λ r, ag_id (if wh r then f r else r)) (agents st) = map ag_id (agents st)) as ->; [|done].
    apply map_ext. intros r. destruct (wh r) eqn:E; [|done]. destruct (Hw r E) as (-> & -> & _). done.
Qed.

Lemma not_open_revoked r stamp status : stamp ≠ "" → ¬ open_agent (set_revoked status stamp r).
Proof. intros H [_ E]. done. Qed.

Lemma fence_machine_fences a n st : wp (fence_machine a (rfc3339nano n)) st (λ st' _, fences a st st').
Proof.
  eapply wp_mono; [apply fence_machine_wp|]. intros st' [] (st1 & Hs & _ & Hg & Ha).
  eapply (fences_update a); [|exact (same_registry _ _ Hg)|exact Ha|..].
  - eapply shrink_mono; [|exact Hs]. by left.
  - intros r E%String.eqb_eq. split_and!; [done|done|apply not_open_revoked, rfc3339nano_nonempty].
  - intros r E1 E2%String.eqb_neq. done.
Qed.

Lemma revoke_grants_wp a st :
  wp (revokeAgentReconnectGrants a) st (λ st' _,
    shrink (λ o, bound_to st a o ∨ eo_agent_id o = a) st st' ∧ agents st' = agents st).
Proof.
  unfold revokeAgentReconnectGrants. en_step. set (st0 := with_reinstalls _ _).
  apply wp_block. eapply wp_mono; [apply delete_for_target_wp|]. intros st1 [] [H1 (R1 & _)].
  eapply wp_mono; [apply delete_operations_wp|]. intros st2 [] (H2 & (R2 & _) & _). split; [|by rewrite R2, R1].
  eapply shrink_trans.
  - eapply shrink_mono; [|eapply shrink_start; [..|exact H1]]; [|done..]. by left.
  - eapply shrink_mono; [|exact H2]. intros o _ E%String.eqb_eq. by right.
Qed.

Lemma revoke_fences a n st : wp (RevokeAgentCredential a n) st (λ st' _, fences (trim_space a) st st').
Proof.
  unfold RevokeAgentCredential. cbv zeta. do 3 en_step. set (st0 := with_agents _ _).
  eapply wp_mono; [apply revoke_grants_wp|]. intros st' [] [Hs Ha].
  eapply (fences_update _ _ _ st st' st'); [eapply shrink_start; [..|exact Hs]; done|done|exact Ha|..].
  - intros r [E1%String.eqb_eq E2]%andb_prop. split_and!; [done|done|]. apply not_open_revoked.
    case_match; bool_prop; [apply rfc3339nano_nonempty|done].
  - intros r E1 E2 [E3 _]. cbn beta in E2. by rewrite E1, E3, !eqb_refl_s in E2.
Qed.

Lemma begin_fences a admin input plan ep n1 n2 st :
  wp (beginAgentReinstall a admin input plan ep n1 n2) st (λ st' r,
    match r with Some _ => st' = st | None => fences a st st' end).
Proof.
  unfold beginAgentReinstall. do 5 en_step. destruct (sql_row _ _) as [r|] eqn:Er; [by repeat en_step|].
  en_step. destruct (agent_by_id a st) as [g|] eqn:Eg; [|en_step]. do 9 en_step.
  apply wp_bind. unfold insert_reinstall. do 3 en_step. apply wp_bind. eapply wp_mono; [apply fence_machine_fences|].
  intros st1 [] [F1 F2 F3]. apply wp_bind. intros st2 [] E.
  match type of E with ?m = _ => pose proof (pause_untouched a (rfc3339nano n2) st1) as [U1 U2]; rewrite E in U1, U2 end.
  cbn in U1, U2. en_step. split.
  - eapply shrink_end; [exact (same_registry _ _ U1)|]. eapply shrink_start; [..|exact F1]; done.
  - rewrite U2. exact F2.
  - rewrite U2. exact F3.
Qed.

Lemma disable_fences a g p st : wp (DisableAgent a g p) st (λ st' _, fences a st st').
Proof.
  unfold DisableAgent. repeat en_step. eapply (fences_update _ _ _ st st); [apply shrink_refl|done|done|..].
  - intros r [E1%String.eqb_eq E2]%andb_prop. split_and!; [done|done|]. by intros [? _].
  - intros r E1 E2 [E3 _]. cbn beta in E2. by rewrite E1, E3, !eqb_refl_s in E2.
Qed.

Lemma delete_fences b a st : wp (DeleteAgent b a) st (λ st' _, fences a st st').
Proof.
  unfold DeleteAgent. do 2 en_step. destruct (agent_by_id a st) as [g|]; [|en_step]. do 7 en_step.
  apply wp_bind. eapply wp_mono; [apply delete_tokens_wp|]. intros st1 [] [H1 (R1 & _)].
  eapply wp_mono; [apply delete_operations_wp|]. intros st2 [] (H2 & (R2 & _) & _). split.
  - eapply shrink_trans; [eapply shrink_mono; [|eapply shrink_start; [..|exact H1]]; [|done..]|].
    + intros o _ (t & Ht & Hw & E). left. exists t. unfold for_target in Hw. by apply bool_decide_eq_true in Hw.
    + eapply shrink_mono; [|exact H2]. intros o _ E%String.eqb_eq. by right.
  - intros r. rewrite R2, R1. cbn. intros [Hr E]%in_filter. apply negb_true_iff, String.eqb_neq in E. by left.
  - rewrite R2, R1. cbn. apply sublist_filter.
Qed.

(** ** Everything else *)

(** A change that leaves tokens, operations, their replies and the identities of the
    agents alone. *)
Definition unrelated (st st' : Store) : Prop :=
  tokens st' = tokens st ∧ operations st' = operations st ∧
  (∀ o, o ∈ operations st → response_secret o st' = response_secret o st) ∧
  map identity_of (agents st') = map identity_of (agents st).

Lemma unrelated_untouched st st' : untouched st st' → unrelated st st'.
Proof. intros [H1 H2]. unfold unrelated, tokens, operations, response_secret, sealed_secrets. by rewrite H1, H2. Qed.

Lemma unrelated_trans a b c : unrelated a b → unrelated b c → unrelated a c.
Proof.
  intros (A1 & A2 & A3 & A4) (B1 & B2 & B3 & B4). split_and!; [congruence|congruence| |congruence].
  intros o Ho. rewrite B3 by (by rewrite A2). auto.
Qed.

Lemma cancel_untouched rm a n st : wp (cancelRemovedAgentTasks rm a n) st (λ st' _, untouched st st').
Proof. unfold cancelRemovedAgentTasks. cbv zeta. by repeat en_step. Qed.

Lemma removal_fences rm deps retry c b a conf n st :
  (∀ st0, unrelated st0 (fst (retry st0))) →
  wp (StartAgentRemoval rm deps retry c b a conf n) st (λ st' _,
    if bool_decide (a ∈ rg_removals (registry st)) then unrelated st st' else fences a st st').
Proof.
  intros Hretry. unfold StartAgentRemoval. do 2 en_step. destruct (agent_by_id a st) as [g|]; [|en_step].
  en_step. en_step. case_bool_decide as Hin.
  - cbn [andb]. destruct c; [by en_step|]. apply wp_bind. destruct b; [by repeat en_step|].
    intros st1 [] E. specialize (Hretry st). rewrite E in Hretry. en_step. eapply unrelated_trans; [exact Hretry|done].
  - cbn [andb]. apply wp_bind. do 3 en_step. set (st0 := with_agents _ _). apply wp_bind.
    eapply wp_mono; [apply revoke_grants_wp|]. intros st1 [] [Hs Ha]. eapply wp_mono; [apply cancel_untouched|].
    intros st2 [] [U1 U2]. en_step. eapply (fences_update _ _ _ st st1); [eapply shrink_start; [..|exact Hs]; done| | |..].
    + unfold same_tables, tokens, operations, sealed_secrets. cbn. by rewrite U1.
    + cbn. rewrite U2, Ha. done.
    + intros r E%String.eqb_eq. split_and!; [done|done|]. by intros [? _].
    + intros r E1 E2%String.eqb_neq. done.
Qed.
End Effects.
