(* ===== verification/EnrollmentHistory.v ===== *)
(** * Histories of enrolment

    The runs of the operations of Enrollment.v from an empty registry, in any order and
    beside any other change of the database, with the events an observer records; the
    invariant that ties the tables to the record; and what follows for tokens, replies and
    credentials. *)
From S2P Require Import Prelude GoText GoTime Store Hoare Guards Execution Handoff Workflows Envelope GoNet Enrollment EnrollmentSpec.
From S2P Require Import Samples WireSpec.

Inductive event :=
| Issued (hash : string) (now : Z)
| Granted (hash operation request : string) (response : AgentCredential) (now : Z)
| Repeated (hash operation request : string) (response : AgentCredential)
| Fenced (agentID : string).

Section History.
Context {L : Libraries} {K : Crypto} {EC : EnrollmentCodec}.

(** The random values of an exchange were not drawn before. *)
Definition unseen (h : list event) (x : exchange) : Prop :=
  ex_credential x ≠ "" ∧
  ∀ hash op rq c n, Granted hash op rq c n ∈ h →
    ac_id c ≠ ex_id x ∧ token_hash (ac_credential c) ≠ token_hash (ex_credential x).

(** The event of a successful exchange: the first one of its token or a repetition. *)
Definition exchanged (st : Store) (token op rq : string) (c : AgentCredential) (x : exchange) : event :=
  match sql_row (λ t, tk_hash t =?s token_hash token) (tokens st) with
  | Some t => if is_Some_b (tk_used_at t) then Repeated (token_hash token) op rq c
              else Granted (token_hash token) op rq c (ex_now x)
  | None => Repeated (token_hash token) op rq c
  end.

(** Runs, latest event first.  A refused operation changes nothing. *)
Inductive history : list event → Store → Prop :=
| h_start st : agents st = [] → tokens st = [] → operations st = [] → history [] st
| h_issue h st spec roles caps target op command e i st' :
    history h st → (∀ n, Issued (token_hash (is_token i)) n ∉ h) →
    issue_enrollment spec roles caps target op command e i st = (st', Ok tt) →
    history (Issued (token_hash (is_token i)) (is_now i) :: (if target =?s "" then h else Fenced target :: h)) st'
| h_enroll h st token op version os arch key x st' c :
    history h st → unseen h x → EnrollAgentOperation token op version os arch key x st = (st', Ok c) →
    history (exchanged st token (trim_space op) (request_of version os arch key) c x :: h) st'
| h_begin h st a admin input plan endpoint n1 n2 st' :
    history h st → beginAgentReinstall a admin input plan endpoint n1 n2 st = (st', Ok None) → history (Fenced a :: h) st'
| h_revoke h st a n st' :
    history h st → RevokeAgentCredential a n st = (st', Ok tt) → history (Fenced (trim_space a) :: h) st'
| h_disable h st a g p st' : history h st → DisableAgent a g p st = (st', Ok tt) → history (Fenced a :: h) st'
| h_remove h st rm deps retry c b a conf n st' :
    history h st → (∀ st0, unrelated st0 (fst (retry st0))) →
    StartAgentRemoval rm deps retry c b a conf n st = (st', Ok tt) →
    history (if bool_decide (a ∈ rg_removals (registry st)) then h else Fenced a :: h) st'
| h_delete h st b a st' : history h st → DeleteAgent b a st = (st', Ok tt) → history (Fenced a :: h) st'
| h_other h st st' : history h st → unrelated st st' → history h st'.

(** The credential with which an agent may authenticate: that of its latest enrolment,
    unless it was fenced since. *)
Fixpoint current (h : list event) (a : string) : option string :=
  match h with
  | [] => None
  | Granted _ _ _ c _ :: h' => if ac_id c =?s a then Some (token_hash (ac_credential c)) else current h' a
  | Fenced b :: h' => if b =?s a then None else current h' a
  | _ :: h' => current h' a
  end.

(** ** The invariant *)
(** The record itself: a token is exchanged once, a credential is handed out once, and a
    repetition repeats. *)
Record consistent (h : list event) : Prop := mk_consistent {
  cs_once : ∀ hash op rq c n op' rq' c' n', Granted hash op rq c n ∈ h → Granted hash op' rq' c' n' ∈ h →
    op' = op ∧ rq' = rq ∧ c' = c ∧ n' = n;
  cs_credentials : ∀ hash op rq c n hash' op' rq' c' n', Granted hash op rq c n ∈ h → Granted hash' op' rq' c' n' ∈ h →
    token_hash (ac_credential c') = token_hash (ac_credential c) → hash' = hash;
  cs_repeated : ∀ hash op rq c, Repeated hash op rq c ∈ h → ∃ n, Granted hash op rq c n ∈ h;
  cs_granted : ∀ hash op rq c n, Granted hash op rq c n ∈ h → ac_credential c ≠ "" ∧ ∃ m, Issued hash m ∈ h
}.

(** An operation stands for a grant, keeps its reply and has its token. *)
Definition operation_ok (h : list event) (st : Store) (o : enrollment_row) : Prop :=
  ∃ c n t, Granted (eo_token_hash o) (eo_operation_id o) (eo_request_hash o) c n ∈ h ∧ ac_id c = eo_agent_id o ∧
    eo_expires_at o = rfc3339nano (n + agentEnrollmentReplayLifetime) ∧ keeps_reply st o c ∧
    t ∈ tokens st ∧ tk_hash t = eo_token_hash o ∧ tk_used_at t ≠ None ∧
    ∀ a, tk_target_agent_id t = Some a → a = eo_agent_id o.

Record tables (h : list event) (st : Store) : Prop := mk_tables {
  tb_hashes : NoDup (map tk_hash (tokens st));
  tb_issued : ∀ t, t ∈ tokens st → ∃ n, Issued (tk_hash t) n ∈ h;
  tb_targets : ∀ t, t ∈ tokens st → tk_target_agent_id t ≠ Some "";
  tb_spent : ∀ hash op rq c n t, Granted hash op rq c n ∈ h → t ∈ tokens st → tk_hash t = hash → tk_used_at t ≠ None;
  tb_operations : ∀ o, o ∈ operations st → operation_ok h st o
}.

(** A grant whose reply can still be repeated, or was swept after its time. *)
Definition repeatable (h : list event) (st : Store) (hash : string) (n : Z) : Prop :=
  (∃ o, o ∈ operations st ∧ eo_token_hash o = hash) ∨
  ∃ x m, Issued x m ∈ h ∧ (rfc3339nano (n + agentEnrollmentReplayLifetime) <=?s rfc3339nano m) = true.

(** An open agent holds the current credential, whose grant is repeatable. *)
Definition agent_ok (h : list event) (st : Store) (a : agent_row) : Prop :=
  current h (ag_id a) = Some (ag_credential_hash a) ∧
  ∃ hash op rq c n, Granted hash op rq c n ∈ h ∧ ac_id c = ag_id a ∧
    token_hash (ac_credential c) = ag_credential_hash a ∧ repeatable h st hash n.

Record roster (h : list event) (st : Store) : Prop := mk_roster {
  rs_ids : NoDup (map ag_id (agents st));
  rs_agents : ∀ a, a ∈ agents st → open_agent a → agent_ok h st a
}.

Record ledger (h : list event) (st : Store) : Prop := mk_ledger {
  lg_log : consistent h; lg_tables : tables h st; lg_roster : roster h st
}.

(** ** Events that grant nothing *)
Definition grants_nothing (e : event) : Prop := match e with Granted _ _ _ _ _ => False | _ => True end.

Lemma granted_cons e h hash op rq c n : grants_nothing e → Granted hash op rq c n ∈ e :: h → Granted hash op rq c n ∈ h.
Proof. intros He [<-|]%elem_of_cons; done. Qed.

Lemma consistent_cons e h : grants_nothing e →
  (∀ hash op rq c, e = Repeated hash op rq c → ∃ n, Granted hash op rq c n ∈ h) → consistent h → consistent (e :: h).
Proof.
  intros He Hr [H1 H2 H3 H4]. split.
  - intros * G1%granted_cons G2%granted_cons; [by eapply H1|done|done].
  - intros * G1%granted_cons G2%granted_cons; [by eapply H2|done|done].
  - intros hash op rq c [<-|Hin]%elem_of_cons.
    + destruct (Hr hash op rq c eq_refl) as [n Hn]. exists n. by right.
    + destruct (H3 _ _ _ _ Hin) as [n Hn]. exists n. by right.
  - intros * G%granted_cons; [|done]. destruct (H4 _ _ _ _ _ G) as [? [m Hm]]. split; [done|]. exists m. by right.
Qed.

Lemma operation_ok_cons e h st o : operation_ok h st o → operation_ok (e :: h) st o.
Proof. intros (c & n & t & G & H). exists c, n, t. split; [by right|done]. Qed.

Lemma tables_cons e h st : grants_nothing e → tables h st → tables (e :: h) st.
Proof.
  intros He [H1 H2 H3 H4 H5]. split; [done| |done| |].
  - intros t Ht. destruct (H2 t Ht) as [n Hn]. exists n. by right.
  - intros * G%granted_cons; [by eapply H4|done].
  - intros o Ho. by apply operation_ok_cons, H5.
Qed.

Lemma repeatable_cons e h st hash n : repeatable h st hash n → repeatable (e :: h) st hash n.
Proof. intros [H|(x & m & Hx & E)]; [by left|right]. exists x, m. split; [by right|done]. Qed.

Lemma current_cons e h a : grants_nothing e → e ≠ Fenced a → current (e :: h) a = current h a.
Proof. intros He Hf. destruct e; [done|done|done|]. cbn. case_match; [|done]. bool_prop. congruence. Qed.

(** ** Tables that shrink *)
Lemma token_key_in st t : token_key t ∈ map token_key (tokens st) → ∃ t', t' ∈ tokens st ∧ token_key t' = token_key t.
Proof. intros (t' & E & Ht%list_elem_of_In)%list_elem_of_In%in_map_iff. by exists t'. Qed.

Lemma map_hash_key l : map tk_hash l = map (λ k, k.1.1.1) (map token_key l).
Proof. by rewrite map_map. Qed.

Lemma map_id_key l : map ag_id l = map (λ k, k.1.1.1) (map identity_of l).
Proof. by rewrite map_map. Qed.

Lemma shrink_tables P h st st' : shrink P st st' → tables h st → tables h st'.
Proof.
  intros Hs [H1 H2 H3 H4 H5]. split.
  - rewrite map_hash_key in *. eapply sublist_NoDup; [exact H1|]. apply (fmap_sublist (λ k, k.1.1.1)), (sh_tokens _ _ _ Hs).
  - intros t' Ht'. destruct (shrink_token _ _ _ _ Hs Ht') as (t & Ht & E). unfold token_key in E. simplify_eq.
    destruct (H2 t Ht) as [n Hn]. exists n. congruence.
  - intros t' Ht'. destruct (shrink_token _ _ _ _ Hs Ht') as (t & Ht & E). unfold token_key in E. simplify_eq.
    specialize (H3 t Ht). congruence.
  - intros * G Ht' Eh. destruct (shrink_token _ _ _ _ Hs Ht') as (t0 & Ht & E). unfold token_key in E. simplify_eq.
    specialize (H4 _ _ _ _ _ t0 G Ht). intros Eu. apply H4; congruence.
  - intros o Ho. destruct (H5 o (shrink_ops _ _ _ _ Hs Ho)) as (c & n & t & G & Hid & He & (s & Hsec & Hseal) & Ht & Hh & Hu & Ha).
    destruct (token_key_in _ _ (sh_cascade _ _ _ Hs o t Ho Ht Hh)) as (t' & Ht' & E). unfold token_key in E. simplify_eq.
    exists c, n, t'. split_and!; try congruence.
    + exists s. by rewrite (sh_secrets _ _ _ Hs o Ho).
    + intros a Ea. apply Ha. congruence.
Qed.

(** The operations of a token that is bound to an agent are of that agent. *)
Lemma bound_agent h st a o : tables h st → o ∈ operations st → bound_to st a o → eo_agent_id o = a ∧ a ≠ "".
Proof.
  intros Htb Ho (t2 & Ht2 & Hb & Hh2). destruct (tb_operations _ _ Htb o Ho) as (c & n & t & _ & _ & _ & _ & Ht & Hh & _ & Ha).
  assert (t2 = t) as -> by (eapply (nodup_key_eq tk_hash); [apply (tb_hashes _ _ Htb)|done|done|congruence]).
  split; [symmetry; by apply Ha|]. intros ->. by apply (tb_targets _ _ Htb t Ht).
Qed.

(** A repeatable grant of another agent survives, unless its operation is removed for the
    reason [E]. *)
Lemma shrink_repeatable P E h st st' hash op rq c n :
  tables h st → consistent h → shrink P st st' → Granted hash op rq c n ∈ h →
  (∀ o, o ∈ operations st → P o → E o ∨ eo_agent_id o ≠ ac_id c) → repeatable h st hash n →
  repeatable h st' hash n ∨ ∃ o, E o ∧ eo_expires_at o = rfc3339nano (n + agentEnrollmentReplayLifetime).
Proof.
  intros Htb Hc [_ (keep & Hk & HPk) _ _] G HP [(o & Ho & Eh)|Hx]; [|left; by right].
  destruct (keep o) eqn:Ek; [left; left; exists o; split; [rewrite Hk; by apply in_filter|done]|].
  destruct (tb_operations _ _ Htb o Ho) as (c' & n' & t & G' & Hid & He & _). rewrite Eh in G'.
  destruct (cs_once _ Hc _ _ _ _ _ _ _ _ _ G G') as (_ & _ & -> & ->).
  destruct (HP o Ho (HPk o Ho Ek)) as [HE|Hne]; [right; by exists o|congruence].
Qed.

Lemma fences_ledger a h st st' : fences a st st' → ledger h st → ledger (Fenced a :: h) st'.
Proof.
  intros [F1 F2 F3] [Hl Ht [Hi Ha]]. split; [by apply consistent_cons|by eapply tables_cons, shrink_tables|]. split.
  - by eapply sublist_NoDup.
  - intros r' Hr' Ho. destruct (F2 r' Hr') as [[Hne Hr]|[_ Hn]]; [|done].
    destruct (Ha r' Hr Ho) as [Hcur (hash & op & rq & c & n & G & Hid & Hcr & Hrep)]. split.
    + rewrite current_cons; [done|done|congruence].
    + exists hash, op, rq, c, n. split_and!; [by right|done|done|]. apply repeatable_cons.
      destruct (shrink_repeatable _ (λ _, False) _ _ _ _ _ _ _ _ Ht Hl F1 G) as [Hx|(? & [] & _)]; [|done|done].
      intros o Hin Hb. right. destruct Hb as [[Eo _]%(bound_agent _ _ _ _ Ht Hin)|Eo]; congruence.
Qed.

Lemma unrelated_ledger h st st' : unrelated st st' → ledger h st → ledger h st'.
Proof.
  intros (E1 & E2 & E3 & E4) [Hl [T1 T2 T3 T4 T5] [Hi Ha]]. split; [done| |].
  - split; rewrite ?E1, ?E2; [done..|]. intros o Ho. destruct (T5 o Ho) as (c & n & t & H). destruct_and! H.
    exists c, n, t. unfold keeps_reply in *. rewrite E1, (E3 o Ho). split_and!; done.
  - assert (map ag_id (agents st') = map ag_id (agents st)) as Eid.
    { by rewrite !map_id_key, E4. }
    split; [by rewrite Eid|]. intros r' Hr' Ho.
    assert (identity_of r' ∈ map identity_of (agents st)) as Hin by (rewrite <- E4; apply list_elem_of_In, in_map, list_elem_of_In, Hr').
    apply list_elem_of_In, in_map_iff in Hin as (r & E & Hr%list_elem_of_In). unfold identity_of in E. simplify_eq.
    assert (open_agent r) as Hor by (destruct Ho; split; congruence).
    destruct (Ha r Hr Hor) as [Hc (hash & op & rq & c & n & G & G1 & G2 & G3)].
    split; [congruence|]. exists hash, op, rq, c, n. unfold repeatable in *. rewrite E2. split_and!; congruence || done.
Qed.

(** ** A new token *)
Lemma issue_tables h st1 st' t n :
  tables h st1 → consistent h → tokens st' = tokens st1 ++ [t] → operations st' = operations st1 →
  (∀ o s, o ∈ operations st1 → response_secret o st1 = Some s → response_secret o st' = Some s) →
  tk_used_at t = None → tk_target_agent_id t ≠ Some "" → (∀ x, x ∈ tokens st1 → tk_hash x ≠ tk_hash t) →
  (∀ m, Issued (tk_hash t) m ∉ h) → tables (Issued (tk_hash t) n :: h) st'.
Proof.
  intros [T1 T2 T3 T4 T5] Hc Et Eo Hsec Hu Htar Hnew Hfresh. split; rewrite ?Et, ?Eo.
  - rewrite map_app. apply NoDup_app. split_and!; [done| |apply NoDup_singleton].
    intros x Hx Hx2%list_elem_of_singleton. apply list_elem_of_In, in_map_iff in Hx as (y & E & Hy%list_elem_of_In).
    apply (Hnew y Hy). congruence.
  - intros y [Hy| ->%list_elem_of_singleton]%elem_of_app; [|exists n; by left].
    destruct (T2 y Hy) as [m Hm]. exists m. by right.
  - intros y [Hy| ->%list_elem_of_singleton]%elem_of_app; auto.
  - intros hash op rq c m y G Hy Eh. apply granted_cons in G; [|done].
    apply elem_of_app in Hy as [Hy| ->%list_elem_of_singleton]; [by eapply T4|].
    exfalso. destruct (cs_granted _ Hc _ _ _ _ _ G) as [_ [k Hk]]. apply (Hfresh k). congruence.
  - intros o Ho. destruct (T5 o Ho) as (c & m & y & G & H2 & H3 & (s & Hs & Hseal) & H5 & H6 & H7 & H8).
    apply operation_ok_cons. exists c, m, y. rewrite Et. split_and!; try done; [|apply elem_of_app; by left].
    exists s. split; [by apply Hsec|done].
Qed.

Lemma elem_of_fenced a stamp l r : stamp ≠ "" → r ∈ fenced_for a stamp l → open_agent r → r ∈ l ∧ (a = "" ∨ ag_id r ≠ a).
Proof.
  intros Hs. unfold fenced_for. destruct (a =?s "") eqn:E; [bool_prop; by auto|].
  unfold fenced_agents. rewrite elem_of_sql_update. intros (x & Hx & ->). case_match; bool_prop.
  - intros Ho. by destruct (not_open_revoked x stamp (ag_status x) Hs).
  - auto.
Qed.

Lemma fenced_ids a stamp l : map ag_id (fenced_for a stamp l) = map ag_id l.
Proof. unfold fenced_for, fenced_agents. case_match; [done|]. by apply sql_update_key. Qed.

Lemma issued_ledger h st target i st' :
  issued st target i st' → (∀ n, Issued (token_hash (is_token i)) n ∉ h) → ledger h st →
  ledger (Issued (token_hash (is_token i)) (is_now i) :: (if target =?s "" then h else Fenced target :: h)) st'.
Proof.
  intros (st1 & t & Hs & Et & Eo & Hsec & Hh & Hu & Htar & Hnew & Ea) Hfresh [Hl Ht [Hi Ha]].
  set (h0 := if target =?s "" then h else Fenced target :: h).
  assert (consistent h0 ∧ tables h0 st1 ∧ ∀ m, Issued (token_hash (is_token i)) m ∉ h0) as (Hl0 & Ht0 & Hf0).
  { pose proof (shrink_tables _ _ _ _ Hs Ht) as Ht1. unfold h0. destruct (target =?s ""); [done|].
    split_and!; [by apply consistent_cons|by apply tables_cons|]. intros m [|]%elem_of_cons; [done|]. by eapply Hfresh. }
  split.
  - by apply consistent_cons.
  - rewrite <- Hh. eapply issue_tables; try done. intros m. rewrite Hh. apply Hf0.
  - split; [by rewrite Ea, fenced_ids|]. intros r Hr Ho. rewrite Ea in Hr.
    destruct (elem_of_fenced _ _ _ _ (rfc3339nano_nonempty _) Hr Ho) as [Hin Hne].
    destruct (Ha r Hin Ho) as [Hcur (hash & op & rq & c & n & G & Hid & Hcr & Hrep)].
    assert (∀ e, e ∈ h → e ∈ h0) as Hsub by (intros e He; unfold h0; case_match; [done|by right]). split.
    + rewrite current_cons by done. unfold h0. destruct (target =?s "") eqn:E; [done|]. bool_prop.
      rewrite current_cons; [done|done|]. intros [= ->]. destruct Hne; congruence.
    + exists hash, op, rq, c, n. split_and!; [right; by apply Hsub|done|done|].
      destruct (shrink_repeatable _ (λ o, (eo_expires_at o <=?s rfc3339nano (is_now i)) = true) _ _ _ _ _ _ _ _ Ht Hl Hs G)
        as [[(o & Ho1 & Ho2)|(x & m & Hx & Em)]|(o & E1 & E2)]; [|done|left; exists o; by rewrite Eo|right|right].
      * intros o Hin' [|Hb]; [by left|right]. apply (bound_agent _ _ _ _ Ht Hin') in Hb as [-> Hb].
        rewrite Hid. destruct Hne; congruence.
      * exists x, m. split; [right; by apply Hsub|done].
      * exists (token_hash (is_token i)), (is_now i). split; [by left|congruence].
Qed.

(** ** The first exchange of a token *)
Lemma grant_consistent h st t op rq c n :
  tables h st → consistent h → t ∈ tokens st → tk_used_at t = None → ac_credential c ≠ "" →
  (∀ hash op rq c' n, Granted hash op rq c' n ∈ h → token_hash (ac_credential c') ≠ token_hash (ac_credential c)) →
  consistent (Granted (tk_hash t) op rq c n :: h).
Proof.
  intros Htb [H1 H2 H3 H4] Ht Hu Hc Hnew.
  assert (∀ op rq c n, Granted (tk_hash t) op rq c n ∉ h) as Hno.
  { intros op' rq' c' n' G. by apply (tb_spent _ _ Htb _ _ _ _ _ t G Ht eq_refl). }
  split.
  - intros * [E1|G1]%elem_of_cons [E2|G2]%elem_of_cons; simplify_eq; [done| | |by eapply H1]; by (exfalso; eapply Hno).
  - intros * [E1|G1]%elem_of_cons [E2|G2]%elem_of_cons E; simplify_eq; [done| | |by eapply H2].
    + by destruct (Hnew _ _ _ _ _ G2).
    + by destruct (Hnew _ _ _ _ _ G1).
  - intros hash op' rq' c' [E|Hin]%elem_of_cons; [done|]. destruct (H3 _ _ _ _ Hin) as [m Hm]. exists m. by right.
  - intros * [E|G]%elem_of_cons; simplify_eq.
    + split; [done|]. destruct (tb_issued _ _ Htb t Ht) as [m Hm]. exists m. by right.
    + destruct (H4 _ _ _ _ _ G) as [? [m Hm]]. split; [done|]. exists m. by right.
Qed.

(** The tokens after a use. *)
Lemma used_token st st' hash stamp t' :
  map token_key (tokens st') = map (used_key hash stamp) (map token_key (tokens st)) → t' ∈ tokens st' →
  ∃ t0, t0 ∈ tokens st ∧ tk_hash t' = tk_hash t0 ∧ tk_target_agent_id t' = tk_target_agent_id t0 ∧
    (tk_used_at t0 ≠ None ∨ tk_hash t0 = hash → tk_used_at t' ≠ None).
Proof.
  intros E Ht. assert (token_key t' ∈ map token_key (tokens st')) as Hin by (apply list_elem_of_In, in_map, list_elem_of_In, Ht).
  rewrite E, map_map in Hin. apply list_elem_of_In, in_map_iff in Hin as (t0 & Ek & Ht0%list_elem_of_In).
  exists t0. unfold token_key, used_key in Ek. simplify_eq. split_and!; [done|done|done|].
  intros Hc. destruct (tk_used_at t0) as [u|] eqn:Eu; cbn in *.
  - rewrite andb_false_r in *. congruence.
  - destruct Hc as [|Hc]; [done|]. rewrite Hc, eqb_refl_s in *. cbn in *. congruence.
Qed.

Lemma used_token_of st st' hash stamp t0 :
  map token_key (tokens st') = map (used_key hash stamp) (map token_key (tokens st)) → t0 ∈ tokens st →
  ∃ t', t' ∈ tokens st' ∧ tk_hash t' = tk_hash t0 ∧ tk_target_agent_id t' = tk_target_agent_id t0.
Proof.
  intros E Ht. assert (used_key hash stamp (token_key t0) ∈ map token_key (tokens st')) as Hin.
  { rewrite E, map_map. apply list_elem_of_In, in_map_iff. exists t0. by rewrite <- list_elem_of_In. }
  apply list_elem_of_In, in_map_iff in Hin as (t' & Ek & Ht'%list_elem_of_In). exists t'.
  unfold token_key, used_key in Ek. by simplify_eq.
Qed.

Lemma used_hashes st st' hash stamp :
  map token_key (tokens st') = map (used_key hash stamp) (map token_key (tokens st)) → map tk_hash (tokens st') = map tk_hash (tokens st).
Proof. intros E. rewrite !map_hash_key, E, !map_map. by apply map_ext. Qed.

Lemma grant_tables h st t op rq x c st' :
  granted st t op rq x c st' → t ∈ tokens st → tables h st → tables (Granted (tk_hash t) op rq c (ex_now x) :: h) st'.
Proof.
  intros (keep & o & Eo & Hk & (R1 & R2 & R3 & R4 & R5) & Hrep & Hsec & Etok & Hcr & Hid & _) Ht [T1 T2 T3 T4 T5]. split.
  - by rewrite (used_hashes _ _ _ _ Etok).
  - intros t' Ht'. destruct (used_token _ _ _ _ _ Etok Ht') as (t0 & Ht0 & -> & _). destruct (T2 t0 Ht0) as [m Hm]. exists m. by right.
  - intros t' Ht'. destruct (used_token _ _ _ _ _ Etok Ht') as (t0 & Ht0 & _ & -> & _). by apply T3.
  - intros hash op' rq' c' n' t' G Ht' Eh. destruct (used_token _ _ _ _ _ Etok Ht') as (t0 & Ht0 & Eh0 & _ & Hu). apply Hu.
    apply elem_of_cons in G as [G|G]; [right|left; eapply T4; [done|done|congruence]]. simplify_eq. congruence.
  - intros o' Ho'. rewrite Eo in Ho'. apply elem_of_app in Ho' as [[Hin Hkeep]%in_filter| ->%list_elem_of_singleton].
    + destruct (T5 o' Hin) as (c0 & n0 & t0 & G & G2 & G3 & (s & Hs & Hseal) & G5 & G6 & G7 & G8).
      destruct (used_token_of _ _ _ _ t0 Etok G5) as (t' & Ht' & E1 & E2).
      destruct (used_token _ _ _ _ _ Etok Ht') as (t1 & Ht1 & F1 & F2 & Hu).
      assert (t1 = t0) as -> by (eapply (nodup_key_eq tk_hash); [exact T1|done|done|congruence]).
      exists c0, n0, t'. split_and!; try congruence; [by right|exists s; auto|by apply Hu; left|]. intros a Ea. apply G8. congruence.
    + destruct (used_token_of _ _ _ _ t Etok Ht) as (t' & Ht' & E1 & E2).
      destruct (used_token _ _ _ _ _ Etok Ht') as (t1 & Ht1 & F1 & F2 & Hu).
      exists c, (ex_now x), t'. rewrite R1, R2, R3, R4, R5. split_and!; try done; [by left|apply Hu; right; congruence|].
      intros a Ea. rewrite E2 in Ea. specialize (T3 t Ht). rewrite Hid. unfold target_of. rewrite Ea. cbn.
      destruct (a =?s "") eqn:E; [|done]. bool_prop. congruence.
Qed.

(** The rows that an exchange leaves: what is written is new, the rest is as before. *)
Lemma identified_rows st st' target id hash r :
  NoDup (map ag_id (agents st)) → identified st st' target id hash → (target ≠ "" → id = target) → r ∈ agents st' →
  (ag_id r = id ∧ ag_credential_hash r = hash) ∨
  (ag_id r ≠ id ∧ ∃ r0, r0 ∈ agents st ∧ identity_of r0 = identity_of r).
Proof.
  intros Hnd Hi Hid Hr. unfold identified in Hi. destruct (target =?s "") eqn:E.
  - destruct Hi as (a & Ea & Ha1 & Ha2 & Hn). rewrite Ea in Hr. apply elem_of_app in Hr as [Hr| ->%list_elem_of_singleton]; [right|by left].
    split; [by apply Hn|by exists r].
  - bool_prop. rewrite (Hid E) in *. destruct Hi as (f & Ea & Haff & Hf). rewrite Ea in Hr.
    apply elem_of_sql_update in Hr as (r1 & Hr1 & ->). destruct (replaceable st target r1) eqn:Er.
    + left. unfold replaceable in Er. bool_prop. destruct (Hf r1) as [-> ->]. done.
    + right. unfold egress_cleared in Hr1. pose proof Hr1 as Hr2. apply elem_of_sql_update in Hr1 as (r0 & Hr0 & E0). split.
      * intros Eid. apply sql_affected_1 in Haff as (r3 & Hr3 & E3).
        assert (r3 = r1) as ->; [|congruence].
        eapply (nodup_key_eq ag_id); [|exact Hr3|exact Hr2|unfold replaceable in E3; bool_prop; congruence].
        unfold egress_cleared. by rewrite (sql_update_key ag_id).
      * exists r0. split; [done|]. rewrite E0. by case_match.
Qed.

Lemma identified_ids st st' target id hash :
  NoDup (map ag_id (agents st)) → identified st st' target id hash → NoDup (map ag_id (agents st')).
Proof.
  intros Hnd Hi. unfold identified in Hi. case_match.
  - destruct Hi as (a & -> & <- & _ & Hn). rewrite map_app. apply NoDup_app. split_and!; [done| |apply NoDup_singleton].
    intros y Hy E%list_elem_of_singleton. apply list_elem_of_In, in_map_iff in Hy as (r & Er & Hr%list_elem_of_In).
    apply (Hn r Hr). congruence.
  - destruct Hi as (f & -> & _ & Hf). unfold egress_cleared. rewrite !(sql_update_key ag_id); [done|done|]. intros r. apply Hf.
Qed.

Lemma grant_ledger h st t op rq x c st' :
  granted st t op rq x c st' → t ∈ tokens st → tk_used_at t = None → unseen h x → ledger h st →
  ledger (Granted (tk_hash t) op rq c (ex_now x) :: h) st'.
Proof.
  intros Hg Hin Hu [Hne Hun] [Hl Ht [Hi Ha]]. pose proof Hg as (keep & o & Eo & Hk & (R1 & _) & _ & _ & _ & Hcr & Hid & Hident).
  assert (target_of t ≠ "" → ac_id c = target_of t) as Hidt by (intros Ht0%String.eqb_neq; by rewrite Hid, Ht0).
  split.
  - eapply grant_consistent; [done|done|done|done|congruence|]. intros * G. rewrite Hcr. by eapply Hun.
  - by eapply grant_tables.
  - split; [by eapply identified_ids|]. intros r Hr Ho.
    destruct (identified_rows _ _ _ _ _ r Hi Hident Hidt Hr) as [[E1 E2]|[E1 (r0 & Hr0 & E)]].
    + split; [cbn; by rewrite E1, E2, Hcr, eqb_refl_s|]. exists (tk_hash t), op, rq, c, (ex_now x).
      split_and!; [by left|done|by rewrite E2, Hcr|]. left. exists o. rewrite Eo. split; [apply elem_of_app; right; by left|done].
    + unfold identity_of in E. simplify_eq. assert (open_agent r0) as Ho0 by (destruct Ho; split; congruence).
      destruct (Ha r0 Hr0 Ho0) as [Hcur (hash & op0 & rq0 & c0 & n0 & G & G1 & G2 & Hrep)]. split.
      { cbn. apply not_eq_sym, String.eqb_neq in E1. rewrite E1. congruence. }
      exists hash, op0, rq0, c0, n0. split_and!; [by right|congruence|congruence|]. apply repeatable_cons.
      destruct Hrep as [(o0 & Ho1 & Ho2)|]; [|by right]. left. exists o0. split; [|done]. rewrite Eo. apply elem_of_app. left.
      apply in_filter. split; [done|]. destruct (keep o0) eqn:Ek; [done|]. destruct (Hk o0 Ho1 Ek) as [Ht1 Ht2].
      destruct (tb_operations _ _ Ht o0 Ho1) as (c1 & n1 & t1 & G3 & G4 & _). rewrite Ho2 in G3.
      destruct (cs_once _ Hl _ _ _ _ _ _ _ _ _ G G3) as (_ & _ & -> & _). exfalso. apply E1. rewrite (Hidt Ht2). congruence.
Qed.

(** A repetition answers what was granted. *)
Lemma replay_repeats h st hash op rq n c :
  tables h st → replayAgentEnrollment hash op rq n st = Ok c → ∃ m, Granted hash op rq c m ∈ h.
Proof.
  intros Ht H. unfold replayAgentEnrollment in H. destruct (sql_row _ (operations st)) as [o|] eqn:Eo; [|discriminate].
  apply sql_row_spec in Eo as [Ho Eh]. apply String.eqb_eq in Eh.
  destruct (tb_operations _ _ Ht o Ho) as (c0 & n0 & t0 & G & _ & _ & (s & Hs & Hseal) & _). rewrite Eh in G, Hseal.
  unfold response_secret in Hs. rewrite Hs in H. unfold guard_err, rbind in H.
  destruct (negb (eo_operation_id o =?s op) || negb (eo_request_hash o =?s rq)) eqn:E1; [discriminate|]. bool_prop. subst.
  rewrite Hseal, unseal_seal, credential_round_trip in H. repeat (step_match H; try discriminate H). simplify_eq. by exists n0.
Qed.

Lemma history_ledger h st : history h st → ledger h st.
Proof.
  induction 1.
  - split; [split; intros; set_solver| |].
    + split; rewrite ?H0, ?H1; [constructor|..]; intros; set_solver.
    + split; rewrite ?H; [constructor|]. intros; set_solver.
  - eapply issued_ledger; [by eapply issue_wp|done|done].
  - destruct IHhistory as [Hl Ht Hr]. eapply enroll_wp in H1 as (t & Et & Hc).
    2:{ intros o Ho. destruct (tb_operations _ _ Ht o Ho) as (? & ? & ? & _ & _ & _ & (s & Hs & _) & _). eauto. }
    unfold exchanged. rewrite Et. apply sql_row_spec in Et as [Hin Eh]. apply String.eqb_eq in Eh.
    destruct (tk_used_at t) eqn:Eu; cbn [is_Some_b].
    + destruct Hc as [-> Hc]. destruct (replay_repeats _ _ _ _ _ _ _ Ht Hc) as [m Hm]. split.
      * apply consistent_cons; [done| |done]. intros * [= <- <- <- <-]. eauto.
      * by apply tables_cons.
      * destruct Hr as [Hi Ha]. split; [done|]. intros a Ha1 Ho. destruct (Ha a Ha1 Ho) as [Hcur (hash & op0 & rq0 & c0 & n0 & G & G1 & G2 & G3)].
        split; [by rewrite current_cons|]. exists hash, op0, rq0, c0, n0. split_and!; [by right|done|done|by apply repeatable_cons].
    + rewrite <- Eh. by eapply grant_ledger.
  - eapply fences_ledger; [|done]. by eapply (begin_fences _ _ _ _ _ _ _ _ _ None).
  - eapply fences_ledger; [|done]. by eapply revoke_fences.
  - eapply fences_ledger; [|done]. by eapply disable_fences.
  - eapply (removal_fences _ _ _ _ _ _ _ _ _ H0) in H1. case_bool_decide; [by eapply unrelated_ledger|by eapply fences_ledger].
  - eapply fences_ledger; [|done]. by eapply delete_fences.
  - by eapply unrelated_ledger.
Qed.

(** ** What a machine may rely on *)

(** The exchange of a token was answered with [c]. *)
Definition answered (h : list event) (hash op rq : string) (c : AgentCredential) : Prop :=
  Repeated hash op rq c ∈ h ∨ ∃ n, Granted hash op rq c n ∈ h.

(** C17 -- A token is exchanged for one identity: in every run of the Center, whatever
    happens between them, all successful exchanges of a token come from the same operation
    with the same request and are answered with the same agent and credential, and the
    token was issued. *)
Theorem tokens_are_exchanged_once h st hash op rq c op' rq' c' :
  history h st → answered h hash op rq c → answered h hash op' rq' c' →
  op' = op ∧ rq' = rq ∧ c' = c ∧ ∃ m, Issued hash m ∈ h.
Proof.
  intros [Hc _ _]%history_ledger A1 A2.
  assert (∀ op rq c, answered h hash op rq c → ∃ n, Granted hash op rq c n ∈ h) as Hg.
  { intros * [G|G]; [|done]. by apply (cs_repeated _ Hc). }
  destruct (Hg _ _ _ A1) as [n G1], (Hg _ _ _ A2) as [n' G2].
  destruct (cs_once _ Hc _ _ _ _ _ _ _ _ _ G1 G2) as (-> & -> & -> & _). split_and!; [done..|]. by eapply cs_granted.
Qed.

(** The row that lets a credential in. *)
Lemma authenticated_agent a cr st st' :
  authenticateAgent a cr st = (st', Ok tt) →
  ∃ r, r ∈ agents st ∧ ag_id r = a ∧ open_agent r ∧ ag_credential_hash r = token_hash cr.
Proof.
  unfold authenticateAgent, bindM, query. destruct (sql_row _ _) as [r|] eqn:E; [|discriminate].
  apply sql_row_spec in E as [Hr E]. bool_prop. unfold fail_if. destruct (negb _) eqn:En; [discriminate|]. bool_prop.
  intros _. by exists r.
Qed.

(** C18 -- An agent is let in with the credential of its latest enrolment only: in every
    run, a credential that authenticates was handed out by the last exchange for that
    agent, and the agent was not fenced since, by a revocation, a reconnect command, a
    replacement, its deactivation, removal or deletion. *)
Theorem latest_credential_only h st st' a cr :
  history h st → authenticateAgent a cr st = (st', Ok tt) → current h a = Some (token_hash cr).
Proof.
  intros [_ _ [_ Ha]]%history_ledger (r & Hr & <- & Ho & <-)%authenticated_agent. by destruct (Ha r Hr Ho).
Qed.

(** The guards of an exchange on its arguments. *)
Definition acceptable (op version os arch key : string) : bool :=
  validAgentEnrollmentOperationID (trim_space op)
  && negb ((trim_space version =?s "") || (128 <? str_len (trim_space version)))
  && is_ok (ValidatePublicKey key) && is_ok (platform_Parse os arch).

Lemma enroll_repeats token op version os arch key x st t u c :
  acceptable op version os arch key = true → sql_row (λ t, tk_hash t =?s token_hash token) (tokens st) = Some t →
  tk_used_at t = Some u →
  replayAgentEnrollment (token_hash token) (trim_space op) (request_of version os arch key) (ex_check_now x) st = Ok c →
  EnrollAgentOperation token op version os arch key x st = (st, Ok c).
Proof.
  intros Ha Ht Hu Hr. unfold acceptable in Ha. apply andb_prop in Ha as [[[H1 H2%negb_true_iff]%andb_prop H3]%andb_prop H4].
  unfold EnrollAgentOperation. cbv zeta. rewrite H1, H2, H3. cbn [negb fail_if].
  destruct (platform_Parse os arch) as [p|] eqn:Ep; [|discriminate].
  assert (p = (trim_space os, trim_space arch)) as -> by (unfold platform_Parse in Ep; by run_ok Ep).
  unfold bindM at 1 2 3 4. cbn [ok lift fst snd]. fold (request_of version os arch key).
  unfold transaction, bindM, query, lift. by rewrite Ht, Hu, Hr.
Qed.

Lemma repeatable_operation h st hash n :
  tables h st → repeatable h st hash n → representable (n + agentEnrollmentReplayLifetime) →
  (∀ y m, Issued y m ∈ h → representable m ∧ m + second <= n + agentEnrollmentReplayLifetime) →
  ∃ o, sql_row (λ o, eo_token_hash o =?s hash) (operations st) = Some o ∧ o ∈ operations st ∧ eo_token_hash o = hash.
Proof.
  intros Ht [(o & Ho & E)|(y & m & Hy & Hle)] Hn Hm.
  - destruct (sql_row _ _) as [o'|] eqn:Eo.
    + exists o'. apply sql_row_spec in Eo as [? ?%String.eqb_eq]. done.
    + pose proof (sql_row_none _ _ Eo o Ho) as Hx. cbn in Hx. by rewrite E, eqb_refl_s in Hx.
  - destruct (Hm y m Hy) as [Hr Hlt]. pose proof (rfc3339nano_lt m _ Hr Hn (second_div_lt _ _ Hlt)) as Hlt'.
    by rewrite leb_ltb_s, Hlt' in Hle.
Qed.

(** C21 -- A lost reply can be repeated: when a machine was enrolled and the reply did not
    reach it, the same operation with the same request is answered with the same
    credential, without changing anything, for twenty-four hours (sharp to a second) and
    for as long as the credential is the one with which the agent may authenticate. *)
Theorem lost_replies_are_repeated h st token op version os arch key x c n :
  history h st → Granted (token_hash token) (trim_space op) (request_of version os arch key) c n ∈ h →
  acceptable op version os arch key = true → authenticateAgent (ac_id c) (ac_credential c) st = (st, Ok tt) →
  representable (n + agentEnrollmentReplayLifetime) →
  (∀ y m, Issued y m ∈ h → representable m ∧ m + second <= n + agentEnrollmentReplayLifetime) →
  ex_check_now x < n + agentEnrollmentReplayLifetime →
  EnrollAgentOperation token op version os arch key x st = (st, Ok c).
Proof.
  intros [Hc Ht [Hi Ha]]%history_ledger G Hacc (r & Hr & Eid & Ho & Ecr)%authenticated_agent Hn Hm Hx.
  destruct (Ha r Hr Ho) as [_ (hash & op1 & rq1 & c1 & n1 & G1 & _ & Ecr1 & Hrep)].
  assert (hash = token_hash token) as -> by (symmetry; eapply (cs_credentials _ Hc); [exact G1|exact G|congruence]).
  destruct (cs_once _ Hc _ _ _ _ _ _ _ _ _ G G1) as (-> & -> & -> & ->).
  destruct (repeatable_operation _ _ _ _ Ht Hrep Hn Hm) as (o & Eo & Hin & Eh).
  destruct (tb_operations _ _ Ht o Hin) as (c2 & n2 & t & G2 & Hid & He & (s & Hs & Hseal) & Htok & Hh & Hu & _).
  rewrite Eh in G2, Hseal, Hh. destruct (cs_once _ Hc _ _ _ _ _ _ _ _ _ G G2) as (E1 & E2 & -> & ->).
  destruct (sql_row (λ t, tk_hash t =?s token_hash token) (tokens st)) as [t'|] eqn:Et.
  2:{ pose proof (sql_row_none _ _ Et t Htok) as Hno. cbn in Hno. by rewrite Hh, eqb_refl_s in Hno. }
  pose proof (sql_row_spec _ _ _ Et) as [Ht' Eh'%String.eqb_eq].
  destruct (tk_used_at t') as [u|] eqn:Eu; [|by destruct (tb_spent _ _ Ht _ _ _ _ _ t' G Ht' Eh')].
  eapply enroll_repeats; [done|done|exact Eu|]. unfold replayAgentEnrollment. rewrite Eo, E1, E2, !eqb_refl_s. cbn [negb orb guard_err rbind].
  rewrite He, (parse_rfc3339nano _ Hn). apply Z.ltb_lt in Hx. rewrite Hx. cbn [negb guard_err rbind].
  unfold response_secret in Hs. rewrite Hs, Hseal, E1, unseal_seal, credential_round_trip, Hid, eqb_refl_s.
  destruct (cs_granted _ Hc _ _ _ _ _ G) as [Hne%String.eqb_neq _]. rewrite Hne. cbn [negb orb guard_err rbind].
  rewrite (sql_affected_unique ag_id _ _ r Hi Hr); [done| |].
  - destruct Ho as [-> ->]. by rewrite Eid, Ecr, Hid, !eqb_refl_s.
  - intros y Hy. cbn beta in Hy. bool_prop. congruence.
Qed.
End History.

(** ** A machine enrols, loses the reply and asks again *)
Module Newcomer.
#[local] Existing Instance Channel.crypto.

Definition write_capabilities (c : NodeCapabilities) : string :=
  write_fields [write_bool (nc_docker c); write_bool (nc_landing_only c); write_bool (nc_native_egress c); write_bool (nc_gateway c);
                write_bool (nc_tunnel c); write_bool (nc_metrics c); write_bool (nc_logs c); nc_other c].
Definition read_capabilities (s : string) : option NodeCapabilities :=
  match read_fields "" s with
  | Some [a; b; c; d; e; f; g; o] =>
      Some (mk_capabilities (read_bool a) (read_bool b) (read_bool c) (read_bool d) (read_bool e) (read_bool f) (read_bool g) o)
  | _ => None
  end.
Definition write_credential (c : AgentCredential) : string :=
  write_fields [ac_id c; ac_credential c; ac_name c; write_fields (ac_roles c); write_capabilities (ac_capabilities c)].
Definition read_credential (s : string) : option AgentCredential :=
  match read_fields "" s with
  | Some [i; c; n; r; k] => match read_fields "" r, read_capabilities k with
                            | Some roles, Some caps => Some (mk_credential i c n roles caps)
                            | _, _ => None
                            end
  | _ => None
  end.
Definition write_enrollment (e : AgentEnrollment) : string :=
  write_fields [en_token e; en_site_id e; en_center_url e; en_installer_url e; en_ca_certificate e; write_int (en_expires_at e)].
Definition read_enrollment (s : string) : option AgentEnrollment :=
  match read_fields "" s with
  | Some [a; b; c; d; e; f] => Some (mk_enrollment a b c d e (read_int f))
  | _ => None
  end.
Definition write_identity (i : reinstallPrivateIdentity) : string :=
  write_fields [pv_ownership i; pv_endpoint i; pv_id i; pv_node_key i; pv_address i].
Definition read_identity (s : string) : option reinstallPrivateIdentity :=
  match read_fields "" s with
  | Some [a; b; c; d; e] => Some (mk_private_identity a b c d e)
  | _ => None
  end.

Lemma read_write_capabilities c : read_capabilities (write_capabilities c) = Some c.
Proof.
  destruct c. unfold read_capabilities, write_capabilities. rewrite read_write_fields. cbn -[read_bool write_bool].
  by rewrite !read_write_bool.
Qed.

#[global] Program Instance codec : EnrollmentCodec := {|
  parse_url s := if has_prefix "https://" s then Some (mk_url "https" s s false "" "" "" "" "") else None;
  pem_decode _ := None; pem_certificate s := s; parse_certificate _ := None;
  roles_json := write_fields; roles_of_json := read_fields "";
  capabilities_json := write_capabilities; capabilities_of_json := read_capabilities;
  credential_json := write_credential; credential_of_json := read_credential;
  enrollment_json := write_enrollment; enrollment_of_json := read_enrollment;
  identity_json := write_identity; identity_of_json := read_identity;
  request_json v o a k := write_fields [v; o; a; k];
  url_base64 s := s; url_base64_decode s := Some s
|}.
Next Obligation.
  intros [i c n r k]. unfold read_credential, write_credential. rewrite read_write_fields. cbn -[read_fields write_fields].
  by rewrite read_write_fields, read_write_capabilities.
Qed.
Next Obligation.
  intros [a b c d e f]. unfold read_enrollment, write_enrollment. rewrite read_write_fields. cbn -[read_int write_int].
  by rewrite read_write_int.
Qed.
Next Obligation. intros [a b c d e]. unfold read_identity, write_identity. by rewrite read_write_fields. Qed.

Definition empty : Store :=
  with_registry (mk_registry [] [] [] {[ "site-1" ]} ∅ [] ∅ ∅ ∅) (with_agents [] sample_store).

Definition spec : AgentEnrollmentSpec := mk_spec false "site-1" "node" "https://center" false false false "" "".
Definition roles : string := roles_json ["worker"].
Definition capabilities : string := capabilities_json (mk_capabilities true false false false false false false "").
Definition issue_1 : issue := mk_issue "token-1" "" (Ok "") None sample_time sample_time sample_time.
Definition enrollment : AgentEnrollment :=
  mk_enrollment "token-1" "site-1" "https://center" "https://center" "" (sample_time + enrollmentLifetime).

Definition issued_store : Store := fst (issue_enrollment spec roles capabilities "" "" "" enrollment issue_1 empty).

Definition enroll (x : exchange) : M AgentCredential :=
  EnrollAgentOperation "token-1" "operation-0000001" "1.0.0" "linux" "amd64" Channel.private_key x.
Definition first : exchange := mk_exchange "agent-7" "credential-7" "secret-7" (sample_time + minute) (sample_time + minute).
Definition again : exchange := mk_exchange "agent-8" "credential-8" "secret-8" (sample_time + hour) (sample_time + hour).

Definition enrolled_store : Store := fst (enroll first issued_store).
Definition reply : AgentCredential :=
  mk_credential "agent-7" "credential-7" "node" ["worker"] (mk_capabilities true false false false false false false "").
Definition request : string := request_of "1.0.0" "linux" "amd64" Channel.private_key.

(** The handler of the Center issues this token. *)
Example created : CreateAgentEnrollment spec issue_1 empty = (issued_store, Ok enrollment).
Proof. vm_compute. reflexivity. Qed.

Lemma issued_run : history [Issued "hash-token-1" sample_time] issued_store.
Proof.
  change (history (Issued (token_hash (is_token issue_1)) (is_now issue_1) :: (if "" =?s "" then [] else [Fenced ""])) issued_store).
  eapply (h_issue [] empty spec roles capabilities "" "" "" enrollment issue_1); [by apply h_start|set_solver|].
  vm_compute. reflexivity.
Qed.

Lemma enrolled_run :
  history [Granted "hash-token-1" "operation-0000001" request reply (sample_time + minute); Issued "hash-token-1" sample_time]
    enrolled_store.
Proof.
  assert (exchanged issued_store "token-1" (trim_space "operation-0000001") request reply first =
          Granted "hash-token-1" "operation-0000001" request reply (sample_time + minute)) as <- by (vm_compute; reflexivity).
  eapply (h_enroll _ issued_store "token-1" "operation-0000001" "1.0.0" "linux" "amd64" Channel.private_key first enrolled_store reply).
  - apply issued_run.
  - split; [done|]. set_solver.
  - vm_compute. reflexivity.
Qed.

Lemma repeated_run :
  history [Repeated "hash-token-1" "operation-0000001" request reply;
           Granted "hash-token-1" "operation-0000001" request reply (sample_time + minute); Issued "hash-token-1" sample_time]
    enrolled_store.
Proof.
  assert (exchanged enrolled_store "token-1" (trim_space "operation-0000001") request reply again =
          Repeated "hash-token-1" "operation-0000001" request reply) as <- by (vm_compute; reflexivity).
  eapply (h_enroll _ enrolled_store "token-1" "operation-0000001" "1.0.0" "linux" "amd64" Channel.private_key again enrolled_store reply).
  - apply enrolled_run.
  - split; [done|]. intros hash op rq c n. rewrite !elem_of_cons. intros [[= -> -> -> -> ->]|[[=]|[]%elem_of_nil]]. done.
  - vm_compute. reflexivity.
Qed.

Lemma tokens_are_exchanged_once_witness :
  "operation-0000001" = "operation-0000001" ∧ request = request ∧ reply = reply ∧
  ∃ m, Issued "hash-token-1" m ∈ [Repeated "hash-token-1" "operation-0000001" request reply;
           Granted "hash-token-1" "operation-0000001" request reply (sample_time + minute); Issued "hash-token-1" sample_time].
Proof.
  eapply (tokens_are_exchanged_once _ enrolled_store); [exact repeated_run|left; left|right; exists (sample_time + minute); right; left].
Defined.

Lemma latest_credential_only_witness :
  current [Granted "hash-token-1" "operation-0000001" request reply (sample_time + minute); Issued "hash-token-1" sample_time]
    "agent-7" = Some (token_hash "credential-7").
Proof.
  eapply (latest_credential_only _ enrolled_store enrolled_store); [exact enrolled_run|]. vm_compute. reflexivity.
Defined.

Lemma lost_replies_are_repeated_witness : enroll again enrolled_store = (enrolled_store, Ok reply).
Proof.
  eapply (lost_replies_are_repeated _ enrolled_store "token-1" "operation-0000001" "1.0.0" "linux" "amd64" Channel.private_key
            again reply (sample_time + minute)); [exact enrolled_run|left|vm_compute; reflexivity|vm_compute; reflexivity| | |].
  - vm_compute. split; congruence.
  - intros y m. rewrite !elem_of_cons. intros [[=]|[[= -> ->]|[]%elem_of_nil]].
    split; [vm_compute; split; congruence|vm_compute; congruence].
  - vm_compute. reflexivity.
Defined.
End Newcomer.
