(* ===== verification/AuditTrail.v ===== *)
(** * The audit trail in the life of a Center

    [Protocol.step] has the operations of the execution protocol and everything that leaves
    the executions alone.  One operation deletes executions: when a node is deleted, its
    executions and their events go with it (execution.go, the foreign keys of the two
    tables).  Here a history may contain both. *)
From S2P Require Import Prelude GoText GoTime TaskIds Store Hoare Execution Guards Claims Handoff.
From S2P Require Import Disposition Confirmation Workflows Updates Legacy Leases Lifecycle Evolution.
From S2P Require Import Protocol Samples Traces Safety GoNet Envelope Enrollment EnrollmentSpec.

Section Audit.
Context {L : Libraries} {C : ControlCodec} {RC : ReceiptCodec}.

(** One step of a Center that does not delete the nodes [kept]. *)
Inductive life (kept : string → Prop) (st : Store) : Store → Prop :=
| life_step st' : step st st' → life kept st st'
| life_delete in_use id : ¬ kept id → life kept st (fst (DeleteAgent in_use id st)).

(** The databases of a Center, whatever nodes were deleted. *)
Definition lived (st : Store) : Prop := ∃ st0, initial st0 ∧ rtc (life (λ _, False)) st0 st.

(** ** What a deletion leaves *)
Definition without_agent (id : string) (st : Store) : list task_execution :=
  List.filter (λ r, negb (te_agent_id r =?s id)) (executions st).

Record deleted (id : string) (st st' : Store) : Prop := mk_deleted {
  dl_executions : executions st' = without_agent id st;
  dl_events : execution_events st' =
    List.filter (λ e, negb (str_in (ev_execution_id e) (map te_id (List.filter (λ r, te_agent_id r =?s id) (executions st)))))
      (execution_events st);
  dl_sessions : sessions st' = delete id (sessions st);
  dl_history : session_history st' = filter (λ p, p.1 ≠ id) (session_history st)
}.

Definition registry_only (st st' : Store) : Prop := executions st' = executions st ∧ execution_events st' = execution_events st ∧
  sessions st' = sessions st ∧ session_history st' = session_history st.

Lemma delete_operations_only wh st : wp (delete_operations wh) st (λ st' _, registry_only st st').
Proof. unfold delete_operations, delete_secrets. repeat en_step. done. Qed.
Lemma delete_tokens_only wh st : wp (delete_tokens wh) st (λ st' _, registry_only st st').
Proof. unfold delete_tokens. do 2 en_step. eapply wp_mono; [apply delete_operations_only|]. by intros st' []. Qed.

Lemma delete_deletes in_use id st : wp (DeleteAgent in_use id) st (λ st' _, deleted id st st').
Proof.
  unfold DeleteAgent. do 2 en_step. destruct (agent_by_id id st) as [g|]; [|en_step]. do 7 en_step.
  apply wp_bind. eapply wp_mono; [apply delete_tokens_only|]. intros st1 [] (H1 & H2 & H3 & H4).
  eapply wp_mono; [apply delete_operations_only|]. intros st2 [] (H5 & H6 & H7 & H8).
  split; [rewrite H5, H1|rewrite H6, H2|rewrite H7, H3|rewrite H8, H4]; done.
Qed.

Lemma deletion_cases in_use id st :
  deleted id st (fst (DeleteAgent in_use id st)) ∨ fst (DeleteAgent in_use id st) = st.
Proof.
  destruct (DeleteAgent in_use id st) as [st' [[]|e]] eqn:E; [left; exact (delete_deletes in_use id st st' tt E)|right].
  assert (unchanged (DeleteAgent in_use id) st) as Hu by (unfold DeleteAgent; apply unchanged_transaction). by eapply Hu.
Qed.

(** The events of an execution of another node stay. *)
Lemma deleted_events id st st' r :
  NoDup (map te_id (executions st)) → deleted id st st' → r ∈ executions st → te_agent_id r ≠ id →
  events_of (te_id r) (execution_events st') = events_of (te_id r) (execution_events st).
Proof.
  intros Hnd [_ He _ _] Hr Ha. rewrite He. clear He. unfold events_of. induction (execution_events st) as [|e l IH]; [done|]. cbn.
  destruct (ev_execution_id e =?s te_id r) eqn:E.
  - apply String.eqb_eq in E. rewrite E. destruct (str_in (te_id r) _) eqn:Ein; cbn; [exfalso|].
    + apply str_in_spec, list_elem_of_fmap in Ein as (x & Hx & [Hxin Hxa]%in_filter).
      apply Ha. apply String.eqb_eq in Hxa. rewrite <-Hxa. f_equal. by apply (nodup_key_eq te_id (executions st)).
    + rewrite E, String.eqb_refl. f_equal. exact IH.
  - destruct (negb _); cbn; [by rewrite E|done].
Qed.

Lemma in_without id st r : r ∈ without_agent id st ↔ r ∈ executions st ∧ te_agent_id r ≠ id.
Proof. unfold without_agent. rewrite in_filter, negb_true_iff, String.eqb_neq. done. Qed.

Lemma nodup_without {A} (k : task_execution → A) id st : NoDup (map k (executions st)) → NoDup (map k (without_agent id st)).
Proof. intros H. eapply sublist_NoDup; [exact H|]. apply sublist_filter. Qed.

(** Every invariant of the protocol survives a deletion. *)
Lemma deleted_inv id st st' : deleted id st st' → inv st → inv st'.
Proof.
  intros Hd [[Hi Hk Hau Hre Hse] Hex]. pose proof Hd as [E1 _ E3 E4].
  assert (∀ r, r ∈ executions st' → r ∈ executions st ∧ te_agent_id r ≠ id) as Hin by (intros r; rewrite E1; apply in_without).
  split; [split|].
  - rewrite E1. by apply nodup_without.
  - rewrite E1. by apply nodup_without.
  - apply Forall_forall. intros r [Hr Ha]%Hin. rewrite Forall_forall in Hau. specialize (Hau r Hr).
    unfold row_audited in *. by rewrite (deleted_events id st st' r Hi Hd Hr Ha).
  - apply Forall_forall. intros r [Hr _]%Hin. rewrite Forall_forall in Hre. by apply Hre.
  - intros a s. rewrite E3, E4. intros [Hne Hs]%lookup_delete_Some. apply elem_of_filter. split; [done|]. by apply Hse.
  - intros r1 r2 [H1 _]%Hin [H2 _]%Hin. by apply Hex.
Qed.

Lemma life_inv kept st st' : life kept st st' → inv st → inv st'.
Proof.
  intros [st1 Hs|in_use id _]; [by apply step_preserves|].
  destruct (deletion_cases in_use id st) as [Hd| ->]; [by apply (deleted_inv id)|done].
Qed.

Lemma lived_inv st : lived st → inv st.
Proof.
  intros (st0 & H0 & Hs). apply initial_inv in H0. induction Hs as [|st1 st2 st3 H _ IH]; [done|]. by eapply IH, life_inv.
Qed.

(** ** The trail *)
Lemma life_row (kept : string → Prop) st st' r :
  inv st → life kept st st' → r ∈ executions st → kept (te_agent_id r) →
  ∃ r', r' ∈ executions st' ∧ te_id r' = te_id r ∧ te_agent_id r' = te_agent_id r ∧
    ∃ extra, events_of (te_id r) (execution_events st') = events_of (te_id r) (execution_events st) ++ extra.
Proof.
  intros Hi [st1 Hs|in_use id Hk] Hr Hkept.
  - apply step_preserves in Hs as [Hl _]. destruct (later_row _ _ _ Hl Hr) as (r' & Hr' & S1). destruct Hl as [_ _ _ [extra ->]].
    exists r'. split; [done|]. split; [apply S1|]. split; [apply S1|]. exists (events_of (te_id r) extra). apply events_of_app.
  - exists r. destruct (deletion_cases in_use id st) as [Hd| ->]; [|split_and!; [done..|]; exists []; by rewrite app_nil_r].
    assert (te_agent_id r ≠ id) as Hne by congruence. split; [rewrite (dl_executions _ _ _ Hd); by apply in_without|].
    split; [done|]. split; [done|]. exists []. rewrite app_nil_r. apply (deleted_events id st); [apply Hi|done..].
Qed.

Lemma no_rows {A} (f : A → bool) l : (∀ x, x ∈ l → f x = false) → List.filter f l = [].
Proof. induction l as [|x l IH]; intros H; [done|]. cbn. rewrite H by left. apply IH. intros y Hy. apply H. by right. Qed.

(** C30 -- The audit trail is complete, and it is extended as long as the node exists: in
    the life of a Center, deletions of nodes included, the last event of every execution
    shows its current state and phase; while the node of an execution is not deleted, the
    execution and its events are kept and new events are only appended.  When a node is
    deleted, no event of its executions is left. *)
Theorem audit_trail_is_complete (kept : string → Prop) st st' :
  lived st → rtc (life kept) st st' →
  (∀ r, r ∈ executions st' → ∃ e, last (events_of (te_id r) (execution_events st')) = Some e ∧
     ev_state e = te_state r ∧ ev_phase e = te_phase r) ∧
  (∀ r, r ∈ executions st → kept (te_agent_id r) →
     (∃ r', r' ∈ executions st' ∧ te_id r' = te_id r) ∧
     ∃ extra, events_of (te_id r) (execution_events st') = events_of (te_id r) (execution_events st) ++ extra) ∧
  (∀ in_use id st2 r, DeleteAgent in_use id st' = (st2, Ok tt) → r ∈ executions st' → te_agent_id r = id →
     (r ∉ executions st2) ∧ events_of (te_id r) (execution_events st2) = []).
Proof.
  intros Hl%lived_inv Hs. assert (inv st') as Hi by (clear -Hl Hs; induction Hs; [done|]; eauto using life_inv).
  split; [|split].
  - pose proof (wf_audited _ (inv_well_formed _ Hi)) as H. rewrite Forall_forall in H. exact H.
  - clear Hi. induction Hs as [st|st1 st2 st3 H12 _ IH]; intros r Hr Hk.
    + split; [by exists r|]. exists []. by rewrite app_nil_r.
    + destruct (life_row kept st1 st2 r Hl H12 Hr Hk) as (r2 & Hr2 & Ei & Ea & x & Hx).
      destruct (IH ltac:(by eapply life_inv) r2 Hr2) as [(r3 & Hr3 & E3) (y & Hy)]; [by rewrite Ea|].
      rewrite Ei in *. split; [by exists r3|]. exists (x ++ y). by rewrite Hy, Hx, app_assoc.
  - intros in_use id st2 r Hd Hr Ha. apply (delete_deletes in_use id st' st2 tt) in Hd as [E1 E2 _ _]. split.
    + rewrite E1. by intros [_ ?]%in_without.
    + rewrite E2. unfold events_of. apply no_rows. intros e [He Hn]%in_filter. apply String.eqb_neq. intros E. rewrite E in Hn. apply negb_true_iff, not_true_iff_false in Hn. apply Hn, str_in_spec, list_elem_of_fmap. exists r.
      split; [done|]. apply in_filter. split; [done|]. by apply String.eqb_eq.
Qed.

Lemma reachable_lived st : reachable st → lived st.
Proof.
  intros (st0 & H0 & Hs). exists st0. split; [done|]. clear H0. induction Hs; [done|]. eapply rtc_l; [by apply life_step|done].
Qed.
End Audit.

(** ** The trail of a run, and the deletion of its node *)
Lemma audit_trail_is_complete_witness :
  (∃ e, last (events_of (te_id (Run.row Run.closed)) (execution_events Run.closed)) = Some e ∧
     ev_state e = te_state (Run.row Run.closed) ∧ ev_phase e = te_phase (Run.row Run.closed)) ∧
  ∃ extra, events_of (te_id (Run.row Run.received)) (execution_events Run.closed) =
           events_of (te_id (Run.row Run.received)) (execution_events Run.received) ++ extra.
Proof.
  assert (rtc (life (λ _, True)) Run.received Run.closed) as Hs
    by (eapply (rtc_subrel step); [intros x y; apply life_step|apply Run.step_closed]).
  pose proof (audit_trail_is_complete (λ _, True) Run.received Run.closed (reachable_lived _ Run.reach_received) Hs) as (H1 & H2 & _).
  split.
  - apply H1. apply Run.row_in. vm_compute. discriminate.
  - apply H2; [|exact I]. apply Run.row_in. vm_compute. discriminate.
Defined.
