(* ===== verification/Replacement.v ===== *)
(** * Replacing the machine of an agent

    What the operations of Enrollment.v promise about a replacement: the private identity
    of the old machine is gone before a command is issued, the new machine brings another
    key and inherits no recorded address, peer, profile or public egress of the old one, and
    a preparation that stopped after the isolation is never resumed. *)
From S2P Require Import Prelude GoText GoTime Store Hoare Guards Execution Handoff Workflows Envelope GoNet Enrollment EnrollmentSpec.
From S2P Require Import Samples WireSpec EnrollmentHistory.

Section Replacement.
Context {L : Libraries} {K : Crypto} {EC : EnrollmentCodec}.

(** ** The private identity *)

(** A node of the controller that shares the key or the address of the old machine. *)
Definition shares (i : reinstallPrivateIdentity) (n : headscale_node) : bool := key_matches i n || address_matches i n.

(** The node of the old machine: it has its key, its address and the tag of an Agent, and
    the saved identifier, when there is one. *)
Definition is_old (i : reinstallPrivateIdentity) (n : headscale_node) : Prop :=
  key_matches i n = true ∧ address_matches i n = true ∧ "tag:vastora-agent" ∈ hn_tags n ∧
  (pv_id i = "" ∨ pv_id i = hn_id n).

(** Searching changes the identifier only, to that of the one node of the old machine, and
    finds nothing only where nothing is. *)
Lemma find_identity_ok i found l i' found' :
  find_identity i found l = Ok (i', found') →
  pv_node_key i' = pv_node_key i ∧ pv_address i' = pv_address i ∧
  (found = true → found' = true ∧ pv_id i' = pv_id i) ∧
  (found = false → found' = true → ∃ m, m ∈ l ∧ is_old i m ∧ pv_id i' = hn_id m) ∧
  (found' = false → ∀ n, n ∈ l → shares i n = false ∧ hn_id n ≠ pv_id i).
Proof.
  revert i found. induction l as [|n l IH]; intros i found H.
  - cbn in H. simplify_eq. split_and!; [done..|congruence|]. intros _ n Hn. set_solver.
  - cbn [find_identity] in H. cbv zeta in H.
    destruct (negb (key_matches i n) && negb (address_matches i n) && negb (hn_id n =?s pv_id i)) eqn:E.
    + apply IH in H as (H1 & H2 & H3 & H4 & H5). split_and!; [done..| |].
      * intros F F'. destruct (H4 F F') as (m & Hm & Ho). exists m. split; [by right|done].
      * intros Hf x [->|Hx]%elem_of_cons; [|by apply H5].
        bool_prop. unfold shares. split; [|done]. apply orb_false_iff. auto.
    + unfold guard_err, rbind in H. match type of H with context [if ?b then _ else _] => destruct b eqn:Eg end; [discriminate H|].
      apply IH in H as (H1 & H2 & H3 & _). destruct (H3 eq_refl) as [Hf Hid]. cbn in H1, H2, Hid. bool_prop.
      split_and!; [done|done|congruence| |congruence]. intros _ _. exists n. split; [by left|]. split; [|done].
      unfold is_old. split_and!; [done|done|by apply str_in_spec|].
      match goal with H : (negb _ && negb _)%bool = false |- _ => apply andb_false_iff in H as [H|H]; bool_prop; auto end.
Qed.

(** The controller no longer knows the old machine: it knew none, or the node it had of it
    was deleted and its next list of nodes holds none with the key, the address or the
    identifier of that node. *)
Definition forgotten (c : controller) (i : reinstallPrivateIdentity) : Prop :=
  (∃ nodes, ct_before c = Some nodes ∧ ∀ n, n ∈ nodes → shares i n = false ∧ hn_id n ≠ pv_id i) ∨
  ∃ before nodes old, ct_before c = Some before ∧ old ∈ before ∧ is_old i old ∧ ct_deleted c (hn_id old) = true ∧
    ct_after c = Some nodes ∧ ∀ n, n ∈ nodes → shares i n = false ∧ hn_id n ≠ hn_id old.

Definition no_identity (i : reinstallPrivateIdentity) : Prop := pv_ownership i = "" ∧ pv_address i = "" ∧ pv_node_key i = "".

Lemma absent_after i i' nodes :
  pv_node_key i' = pv_node_key i → pv_address i' = pv_address i →
  existsb (identity_present i') nodes = false → ∀ n, n ∈ nodes → shares i n = false ∧ hn_id n ≠ pv_id i'.
Proof.
  intros Hk Ha He n Hn.
  assert (identity_present i' n = false) as Hp.
  { destruct (identity_present i' n) eqn:E; [|done]. exfalso. apply not_true_iff_false in He. apply He, existsb_exists.
    exists n. by rewrite <- list_elem_of_In. }
  unfold identity_present in Hp. unfold shares. bool_prop. unfold key_matches, address_matches in *. rewrite Hk, Ha in *.
  split; [|done]. by apply orb_false_iff.
Qed.

Lemma isolation_wp agentID op shared c st :
  wp (isolateReinstallPrivateIdentity agentID op shared c) st (λ _ _,
    ∃ r i, r ∈ reinstall_operations st ∧ ro_id r = op ∧ ro_agent_id r = agentID ∧ ro_state r = "preparing" ∧
      identity_of_json (ro_private_identity_json r) = Some i ∧
      (no_identity i ∨ pv_ownership i = "managed" ∧ pv_address i ≠ "" ∧ shared = false ∧
         ct_base_url c = Some (pv_endpoint i) ∧ forgotten c i)).
Proof.
  unfold isolateReinstallPrivateIdentity. en_step. destruct (sql_row _ _) as [r|] eqn:Er; [|en_step].
  apply sql_row_spec in Er as [Hr Eid]. en_step. bool_prop. destruct (identity_of_json _) as [i|] eqn:Ei; [|en_step].
  eapply (wp_mono _ _ (λ _ _, no_identity i ∨ pv_ownership i = "managed" ∧ pv_address i ≠ "" ∧ shared = false ∧
    ct_base_url c = Some (pv_endpoint i) ∧ forgotten c i)); [|intros; by exists r, i].
  destruct (_ && _ && _) eqn:Eno; [intros ? ? _; left; unfold no_identity; by bool_prop|]. do 4 en_step. do 3 en_step.
  match goal with H : find_identity _ _ _ = Ok ?x |- _ => destruct x as [i' found]; destruct (find_identity_ok _ _ _ _ _ H) as (K1 & K2 & _ & K3 & K4) end.
  destruct (ct_base_url c) as [u|]; [|discriminate]. destruct (ct_before c) as [l|] eqn:Eb; [|discriminate]. simplify_eq. bool_prop. subst.
  eapply (wp_mono _ _ (λ _ _, forgotten c i)); [|intros; right; by split_and!]. cbn [fst snd]. destruct found.
  - apply wp_bind. en_step. do 3 en_step. en_step. intros _ _ _.
    destruct (ct_after c) as [l2|] eqn:Ea; [|discriminate]. simplify_eq. bool_prop.
    destruct (K3 eq_refl eq_refl) as (m & Hm & Ho & Hid). right. eexists _, _, m. split_and!; [done|done|done|by rewrite <- Hid|done|].
    rewrite <- Hid. by apply absent_after.
  - intros _ _ _. left. eexists. split; [done|]. by apply K4.
Qed.

(** C20 -- The private identity of the old machine is gone before its replacement may be
    prepared: when the isolation of an operation succeeds, either the old machine had no
    private identity at all, or it was a managed one of the controller that was recorded,
    at an address of no other node; and either the controller lists no node with its key,
    its address or its saved identifier, or it listed one node with its key, its address
    and the tag of an Agent, confirmed the deletion of exactly that node, and afterwards
    listed no node with the key, the address or the identifier of that node. *)
Theorem withdrawal_is_verified agentID op shared c st st' :
  isolateReinstallPrivateIdentity agentID op shared c st = (st', Ok tt) →
  ∃ r i, r ∈ reinstall_operations st ∧ ro_id r = op ∧ ro_agent_id r = agentID ∧ ro_state r = "preparing" ∧
    identity_of_json (ro_private_identity_json r) = Some i ∧
    (no_identity i ∨ pv_ownership i = "managed" ∧ pv_address i ≠ "" ∧ shared = false ∧
       ct_base_url c = Some (pv_endpoint i) ∧ forgotten c i).
Proof. apply isolation_wp. Qed.

(** ** The new machine *)

(** The operation that authorised a replacement, with a key that is not the one of the
    replaced machine. *)
Definition authorises (r : reinstall_row) (agentID hash key : string) : Prop :=
  ro_agent_id r = agentID ∧ ro_enrollment_token_hash r = Some hash ∧ ro_state r = "awaiting_enrollment" ∧
  ro_previous_fingerprint r ≠ sha256_hex key.

(** The addresses, the private peer and the network profile recorded for the old machine
    are gone ([agents.landing_egress_addresses_json] is not among them: it stays until the
    next heartbeat). *)
Definition unobserved (st : Store) (agentID : string) : Prop :=
  (∀ p, p ∈ rg_candidates (registry st) → p.1 ≠ agentID) ∧ rg_peers (registry st) !! agentID = None ∧
  rg_profiles (registry st) !! agentID = None.

Definition taken_over (st st' : Store) (agentID hash key : string) : Prop :=
  (∃ r, r ∈ reinstall_operations st ∧ authorises r agentID hash key) ∧
  (∃ a, a ∈ agents st ∧ ag_id a = agentID ∧ ag_credential_revoked_at a ≠ "") ∧ decommissioning agentID st = false ∧
  (∀ r, r ∈ reinstall_operations st' → ro_agent_id r = agentID → ro_enrollment_token_hash r = Some hash →
     ro_state r ≠ "awaiting_enrollment" ∨ ro_previous_fingerprint r = sha256_hex key) ∧
  unobserved st' agentID ∧ ∀ a, a ∈ agents st' → ag_id a = agentID → ag_public_egress a = [""; ""; ""; ""].

Lemma accept_authorises a hash key stamp st :
  wp (acceptAgentReinstallIdentity a hash key stamp) st (λ st' _,
    (∃ r, r ∈ reinstall_operations st ∧ authorises r a hash key) ∧ unobserved st' a ∧
    (∀ r, r ∈ reinstall_operations st' → ro_agent_id r = a → ro_enrollment_token_hash r = Some hash →
       ro_state r ≠ "awaiting_enrollment" ∨ ro_previous_fingerprint r = sha256_hex key)).
Proof.
  unfold acceptAgentReinstallIdentity. cbv zeta. do 2 en_step. bool_prop.
  match goal with H : sql_affected _ _ = 1 |- _ => apply sql_affected_1 in H as (r & Hr & Ew) end. bool_prop.
  do 3 en_step. set (l := sql_update _ _ (reinstall_operations st)).
  assert (∀ r, r ∈ l → ro_agent_id r = a → ro_enrollment_token_hash r = Some hash →
    ro_state r ≠ "awaiting_enrollment" ∨ ro_previous_fingerprint r = sha256_hex key) as Hl.
  { intros r'. unfold l. rewrite elem_of_sql_update. intros (r0 & Hr0 & ->). case_match eqn:E; [by left|]. intros E1 E2.
    rewrite E1, E2, eqb_refl_s, bool_decide_true in E by done. cbn [andb] in E.
    destruct (ro_state r0 =?s "awaiting_enrollment") eqn:Es; cbn [andb] in E; bool_prop; auto. }
  assert (∀ p, p ∈ List.filter (λ c, negb (fst c =?s a)) (rg_candidates (registry st)) → p.1 ≠ a) as Hc.
  { intros p [_ E%negb_true_iff]%in_filter. by apply String.eqb_neq. }
  cbn. destruct (rg_profiles _ !! a) as [[p|]|] eqn:Ep; [|en_step|]; en_step.
  all: split; [exists r; by unfold authorises|]; split; [|exact Hl]; split_and!; cbn; [exact Hc|apply lookup_delete_eq|].
  - apply lookup_delete_eq.
  - exact Ep.
Qed.

Lemma replace_takes_over a hash key version os arch th stamp st :
  wp (replace_machine a hash key version os arch th stamp) st (λ st' _, taken_over st st' a th key).
Proof.
  unfold replace_machine. apply wp_bind. eapply wp_mono; [apply wp_and; [apply accept_authorises|apply accept_wp]|].
  intros st1 [] ((Hr & Hun & Hl) & _ & _ & _ & A1 & D1). do 2 en_step. cbv zeta. do 4 en_step. bool_prop.
  match goal with H : sql_affected _ _ = 1 |- _ => apply sql_affected_1 in H as (g & Hg & Ew) end. bool_prop.
  rewrite A1 in Hg. unfold egress_cleared in Hg. apply elem_of_sql_update in Hg as (g0 & Hg0 & Eg).
  apply wp_bind. intros st2 n E2. unfold update_tasks in E2. simplify_eq. apply wp_bind. intros st3 [] E3.
  unfold update_applications in E3. simplify_eq. eapply wp_mono; [apply delete_operations_rest|]. intros st' [] (R1 & R2 & R3 & R4 & R5).
  cbn in R1, R2, R3, R4, R5. split_and!; [done| |congruence|by rewrite R1| |].
  - exists g0. split; [done|]. case_match; simplify_eq; done.
  - unfold unobserved. rewrite R2, R3, R4. exact Hun.
  - intros x. rewrite R5, A1. unfold egress_cleared. rewrite elem_of_sql_update.
    intros (y & (z & _ & ->)%elem_of_sql_update & ->). repeat case_match; cbn; try done; intros Ha; bool_prop; congruence.
Qed.

Lemma consume_takes_over t op version os arch key rq x st :
  target_of t ≠ "" →
  wp (consume_token t op version os arch key rq x) st (λ st' c,
    taken_over st st' (target_of t) (tk_hash t) key ∧ ac_id c = target_of t).
Proof.
  intros Ht. apply String.eqb_neq in Ht. unfold consume_token. cbv zeta. fold (target_of t). rewrite Ht. do 2 en_step.
  apply wp_bind. eapply wp_mono; [apply put_secret_wp|]. intros st0 sid (-> & -> & _). apply wp_bind.
  eapply wp_mono; [apply replace_takes_over|]. intros st1 [] H1. apply wp_bind.
  eapply wp_mono; [apply insert_operation_wp|]. intros st2 [] ->. apply wp_bind. intros st3 n E3. simplify_eq. en_step.
  apply wp_bind. destruct (tk_bootstrap_secret_id t); unfold delete_secrets; repeat en_step; (split; [exact H1|done]).
Qed.

(** C19 -- The machine of an agent is replaced only as authorised: a token that is bound to
    an agent is exchanged only while an operation for exactly that token awaits it, with a
    key other than that of the replaced machine, for an agent whose credential is revoked
    and that is not being removed; afterwards no such operation awaits it, and the
    addresses, the private peer, the network profile and the public egress recorded for
    the old machine are gone. *)
Theorem replacement_is_authorised token op version os arch key x st st' c t :
  EnrollAgentOperation token op version os arch key x st = (st', Ok c) →
  sql_row (λ t, tk_hash t =?s token_hash token) (tokens st) = Some t → tk_used_at t = None → target_of t ≠ "" →
  taken_over st st' (target_of t) (token_hash token) key ∧ ac_id c = target_of t.
Proof.
  intros E Et Hu Ht. revert st' c E. unfold EnrollAgentOperation. cbv zeta.
  assert (tk_hash t = token_hash token) as Hh by (by apply sql_row_spec in Et as [_ ?%String.eqb_eq]).
  match goal with |- ∀ st' c, ?m st = _ → _ => enough (wp m st (λ st' c,
    taken_over st st' (target_of t) (token_hash token) key ∧ ac_id c = target_of t)) as H by exact H end.
  do 6 en_step. rewrite Et, Hu, <- Hh. by apply consume_takes_over.
Qed.

(** ** A preparation that stopped *)

(** The recovery of an agent failed after the isolation, and it is the one that is open. *)
Definition stopped (st : Store) (r : reinstall_row) : Prop :=
  r ∈ reinstall_operations st ∧ ro_state r = "failed" ∧ ro_private_isolation r ≠ "pending" ∧
  NoDup (map ro_id (reinstall_operations st)) ∧
  ∀ r', r' ∈ reinstall_operations st → ro_agent_id r' = ro_agent_id r →
    str_in (ro_state r') ["superseded"; "completed"] = false → r' = r.

(** No administrator can begin the recovery of the agent again. *)
Lemma stopped_not_restarted r admin input plan endpoint n1 n2 st :
  stopped st r → ∃ e, beginAgentReinstall (ro_agent_id r) admin input plan endpoint n1 n2 st = (st, Err e).
Proof.
  intros (Hr & Hs & Hp & Hn & Hu).
  assert (unchanged (beginAgentReinstall (ro_agent_id r) admin input plan endpoint n1 n2) st) as Hun
    by (unfold beginAgentReinstall; repeat unchanged_step).
  destruct (beginAgentReinstall _ _ _ _ _ _ _ st) as [st' [v|e]] eqn:E; [|rewrite (Hun _ _ E); by exists e].
  exfalso. revert st' v E. match goal with |- ∀ st' c, ?m st = _ → _ => enough (wp m st (λ _ _, False)) as H by exact H end.
  unfold beginAgentReinstall. do 5 en_step. destruct (sql_row _ _) as [r'|] eqn:Er.
  - apply sql_row_spec in Er as [Hr' _]. repeat en_step.
    match goal with H : issued_command _ _ _ _ _ _ = Ok _ |- _ => unfold issued_command in H; run_ok H end.
    repeat match goal with H : (if _ then _ else _) = Ok _ |- _ => step_match H; [discriminate H|] end. bool_prop.
    assert (r' = r) as ->; [|congruence]. apply Hu; [done|done|]. match goal with H : ro_state r' = _ |- _ => by rewrite H end.
  - en_step. destruct (agent_by_id _ _); [|en_step]. do 7 en_step.
    destruct (readAgentReinstallOperation (ro_agent_id r) st) as [r'|] eqn:Eo.
    + unfold readAgentReinstallOperation in Eo. apply sql_row_spec in Eo as [Hr' Ew]. bool_prop.
      assert (r' = r) as -> by (by apply Hu). match goal with H : ro_state r = "awaiting_enrollment" |- _ => congruence end.
    + pose proof (sql_row_none _ _ Eo r Hr) as Hno. cbn in Hno. by rewrite eqb_refl_s, Hs in Hno.
Qed.

(** Nor can it be continued. *)
Lemma stopped_not_continued r a admin attempt confirm n p st :
  stopped st r → ∃ e, ContinueAgentReinstallIsolation a admin (ro_id r) attempt confirm n p st = (st, Err e).
Proof.
  intros (Hr & Hs & Hp & Hn & Hu). unfold ContinueAgentReinstallIsolation, fail_if. destruct (_ || _); [by eexists|].
  unfold bindM, query, update_reinstalls. cbn [ok]. match goal with |- context [sql_affected ?w _] => set (wh := w) end.
  assert (∀ x, x ∈ reinstall_operations st → wh x = false) as Hw.
  { intros x Hx. destruct (wh x) eqn:E; [|done]. exfalso. unfold wh in E. bool_prop.
    assert (x = r) as -> by (eapply (nodup_key_eq ro_id); done). congruence. }
  rewrite (proj2 (sql_affected_0 _ _) Hw), sql_update_none by done. eexists. by destruct st.
Qed.

(** Revoking the credential does not help: the operation stays as it is. *)
Lemma stopped_not_revoked r a n st : stopped st r → wp (RevokeAgentCredential a n) st (λ st' _, r ∈ reinstall_operations st').
Proof.
  intros (Hr & Hs & _). unfold RevokeAgentCredential, revokeAgentReconnectGrants. cbv zeta. do 4 en_step.
  apply wp_block. eapply wp_mono; [apply delete_for_target_wp|]. intros st1 [] [_ (_ & R1 & _)].
  eapply wp_mono; [apply delete_operations_wp|]. intros st2 [] (_ & (_ & R2 & _) & _). rewrite R2, R1. cbn.
  apply elem_of_sql_update. exists r. split; [done|]. by rewrite Hs, andb_false_r.
Qed.
End Replacement.

(** ** The machine of agent-7 is replaced *)
Module Successor.
#[local] Existing Instance Channel.crypto.
Import Newcomer.

Definition revision : string := "0123456789abcdef0123456789abcdef0123456789abcdef0123456789abcdef".
Definition input : AgentReinstallInput := mk_reinstall_input "recovery-0000000001" revision true.
Definition plan : res plan_reads := Ok (mk_plan revision "managed" "100.64.0.7" "plan").

(** The old machine, with its address and peer as they were observed. *)
Definition observed_store : Store :=
  with_network [("agent-7", "10.0.0.7")] {[ "agent-7" := ("nodekey:old", "100.64.0.7") ]} ∅ ∅ enrolled_store.

Definition begun : Store * res (option AgentEnrollment) :=
  beginAgentReinstall "agent-7" "admin-1" input plan (Some "https://headscale") (sample_time + hour) (sample_time + hour) observed_store.

Definition node : headscale_node := mk_node "7" "nodekey:old" ["100.64.0.7"] ["tag:vastora-agent"].
Definition answers : controller := mk_controller (Some "https://headscale") (Some [node]) (String.eqb "7") (Some []).
Definition isolated : Store * res unit := isolateReinstallPrivateIdentity "agent-7" "recovery-0000000001" false answers (fst begun).

Definition issue_2 : issue :=
  mk_issue "token-2" "" (Ok "") None (sample_time + hour) (sample_time + hour) (sample_time + hour).
Definition preparation_2 (address : string) : preparation :=
  mk_preparation false answers "lan" address (sample_time + hour) issue_2 (sample_time + hour).
Definition prepared : Store * res AgentEnrollment :=
  prepareAgentReinstallEnrollment "agent-7" "recovery-0000000001" (preparation_2 "https://center") (fst begun).

Definition new_key : string := "abcdefghijklmnopqrstuvwxyz012345".
Definition third : exchange :=
  mk_exchange "agent-9" "credential-9" "secret-9" (sample_time + hour + minute) (sample_time + hour + minute).
Definition replaced : Store * res AgentCredential :=
  EnrollAgentOperation "token-2" "operation-0000002" "1.0.0" "linux" "amd64" new_key third (fst prepared).

Example old_machine_is_out : snd (authenticateAgent "agent-7" "credential-7" (fst begun)) = Err "center: agent authentication failed".
Proof. vm_compute. reflexivity. Qed.

Example same_machine_is_refused :
  snd (EnrollAgentOperation "token-2" "operation-0000002" "1.0.0" "linux" "amd64" Channel.private_key third (fst prepared)) =
  Err "center: replacement requires an authorized recovery command and a new machine key".
Proof. vm_compute. reflexivity. Qed.

Lemma withdrawal_is_verified_witness :
  ∃ r i, r ∈ reinstall_operations (fst begun) ∧ ro_id r = "recovery-0000000001" ∧ ro_agent_id r = "agent-7" ∧
    ro_state r = "preparing" ∧ identity_of_json (ro_private_identity_json r) = Some i ∧
    (no_identity i ∨ pv_ownership i = "managed" ∧ pv_address i ≠ "" ∧ false = false ∧
       ct_base_url answers = Some (pv_endpoint i) ∧ forgotten answers i).
Proof. apply (withdrawal_is_verified "agent-7" "recovery-0000000001" false answers (fst begun) (fst isolated)). vm_compute. reflexivity. Defined.

Definition token_2 : token_row :=
  match tokens (fst prepared) with
  | _ :: t :: _ => t
  | _ => mk_token "" "" "" "" "" "" None "" "" None "" None
  end.
Definition reply_2 : AgentCredential :=
  mk_credential "agent-7" "credential-9" "node" ["worker"] (mk_capabilities true false false false false false false "").

Lemma replacement_is_authorised_witness :
  taken_over (fst prepared) (fst replaced) "agent-7" (token_hash "token-2") new_key ∧ ac_id reply_2 = "agent-7".
Proof.
  apply (replacement_is_authorised "token-2" "operation-0000002" "1.0.0" "linux" "amd64" new_key third (fst prepared)
           (fst replaced) reply_2 token_2); [vm_compute; reflexivity..|]. vm_compute. congruence.
Defined.

(** An address that the Center does not accept stops the preparation after the isolation,
    and the recovery of the agent can be neither begun again nor continued, whoever asks. *)
Definition stopped_store : Store :=
  fst (prepareAgentReinstallEnrollment "agent-7" "recovery-0000000001" (preparation_2 "http://center") (fst begun)).

Definition stopped_row : reinstall_row :=
  match reinstall_operations stopped_store with
  | r :: _ => r
  | [] => mk_reinstall "" "" "" "" "" "" "" "" "" 0 "" None None "" "" ""
  end.

Lemma stopped_after_isolation : stopped stopped_store stopped_row ∧ ro_agent_id stopped_row = "agent-7" ∧
  ro_last_error stopped_row = "center: command preparation stopped; inspect recovery before continuing".
Proof.
  assert (reinstall_operations stopped_store = [stopped_row]) as E by (vm_compute; reflexivity).
  split; [|split; vm_compute; reflexivity]. unfold stopped. rewrite E. split_and!.
  - left.
  - vm_compute. reflexivity.
  - vm_compute. congruence.
  - apply NoDup_singleton.
  - intros r' Hr%list_elem_of_singleton _ _. exact Hr.
Qed.

Lemma stopped_preparation_is_final :
  (∀ admin request p endpoint n1 n2, ∃ e,
     beginAgentReinstall "agent-7" admin request p endpoint n1 n2 stopped_store = (stopped_store, Err e)) ∧
  (∀ a admin attempt confirm n p, ∃ e,
     ContinueAgentReinstallIsolation a admin "recovery-0000000001" attempt confirm n p stopped_store = (stopped_store, Err e)).
Proof.
  destruct stopped_after_isolation as (Hs & Ha & _).
  assert (ro_id stopped_row = "recovery-0000000001") as Hi by (vm_compute; reflexivity).
  generalize dependent stopped_row. generalize stopped_store. intros st r Hs Ha Hi. split; intros.
  - rewrite <- Ha. by apply stopped_not_restarted.
  - rewrite <- Hi. by apply stopped_not_continued.
Qed.

(** Blanks around the identifier of the agent are ignored when its replacement begins, and
    not when it is prepared: the machine is fenced and the preparation finds no operation. *)
Example blanks_stop_the_preparation :
  let run := CreateAgentReconnectEnrollment " agent-7" "admin-1" input plan (Some "https://headscale") (sample_time + hour)
               (sample_time + hour) (preparation_2 "https://center") observed_store in
  snd run = Err errNoRows ∧ map ro_state (reinstall_operations (fst run)) = ["failed"] ∧
  snd (authenticateAgent "agent-7" "credential-7" (fst run)) = Err "center: agent authentication failed".
Proof. cbv zeta. split; [|split]; vm_compute; reflexivity. Qed.
End Successor.
