(* ===== verification/Tailscale.v ===== *)
(** * Updates of Tailscale on the nodes

    internal/center/tailscale_update_tasks.go and tailscalehost: an administrator asks for
    the update of one node on the evidence the node reported; the task is claimed, handed
    to a helper of the host, and settled by what the node reports afterwards.  The claim
    is in [TaskClaims], the handoff in [Handoff], the other transitions in [Workflows],
    the leases in [Leases] and the decisions in [Disposition]; this file adds the versions,
    the queue and the restart of an Agent, and proves what they do together. *)
From Stdlib Require Import Ascii.
From S2P Require Import Prelude GoText GoTime TaskIds Store Hoare Execution Guards Claims Handoff.
From S2P Require Import Disposition Confirmation Workflows Leases Updates TaskClaims Rollout.

(** ** Release versions *)
Definition char_in (lo hi : nat) (c : ascii) : bool := Nat.leb lo (nat_of_ascii c) && Nat.leb (nat_of_ascii c) hi.
Definition version_digit : ascii → bool := char_in 48 57.
Definition stamp_char (c : ascii) : bool := char_in 48 57 c || char_in 97 102 c.
Definition build_char (c : ascii) : bool :=
  char_in 48 57 c || char_in 65 90 c || char_in 97 122 c || Nat.eqb (nat_of_ascii c) 46 || Nat.eqb (nat_of_ascii c) 45.

(** The longest prefix of characters of a class, and the rest. *)
Fixpoint span (p : ascii → bool) (l : list ascii) : list ascii * list ascii :=
  match l with
  | c :: l' => if p c then let '(a, r) := span p l' in (c :: a, r) else ([], l)
  | [] => ([], [])
  end.

(** [[0-9]+]. *)
Definition take_number (l : list ascii) : option (list ascii * list ascii) :=
  match span version_digit l with ([], _) => None | r => Some r end.

Definition take_dot (l : list ascii) : option (list ascii) :=
  match l with c :: l' => if Nat.eqb (nat_of_ascii c) 46 then Some l' else None | [] => None end.

(** [-t[0-9a-f]{7,40}] or [-g[0-9a-f]{7,40}], when it is there. *)
Definition skip_stamp (letter : ascii) (l : list ascii) : list ascii :=
  match l with
  | c :: d :: l' =>
      if Nat.eqb (nat_of_ascii c) 45 && Ascii.eqb d letter then
        let '(h, r) := span stamp_char l' in
        if Nat.leb 7 (length h) && Nat.leb (length h) 40 then r else l
      else l
  | _ => l
  end.

(** [(\+[0-9A-Za-z.-]+)?$]: the build, with its sign. *)
Definition take_build (l : list ascii) : option (list ascii) :=
  match l with
  | [] => Some []
  | c :: l' =>
      if Nat.eqb (nat_of_ascii c) 43 then
        match span build_char l' with
        | (_ :: _, []) => Some l
        | _ => None
        end
      else None
  end.

Record release_parts := mk_release { rl_major : string; rl_minor : string; rl_number : string; rl_build : string }.

(** [releaseVersionPattern.FindStringSubmatch]. *)
Definition releaseVersionPattern (value : string) : option release_parts :=
  let text := String.string_of_list_ascii in
  '(major, l) ← take_number (String.list_ascii_of_string value);
  l ← take_dot l;
  '(minor, l) ← take_number l;
  l ← take_dot l;
  '(patch, l) ← take_number l;
  let stamped := skip_stamp "t"%char l in
  let l := if Nat.eqb (length stamped) (length l) then l else skip_stamp "g"%char stamped in
  build ← take_build l;
  Some (mk_release (text major) (text minor) (text major +:+ "." +:+ text minor +:+ "." +:+ text patch) (text build)).

Definition MinimumCompatibleVersion : string := "1.102.3".
Definition UpdateTaskPrefix : string := "tailscale-update-".

Section Versions.
Context {L : Libraries}.

Definition CompatibleVersion (value : string) : res string :=
  guard_err (160 <? str_len value) "version output is too long" ;;!
  match releaseVersionPattern (trim_space value) with
  | None => Err "not a supported stable release version"
  | Some r =>
      guard_err (negb (semver_valid ("v" +:+ rl_number r +:+ rl_build r))) "not a supported stable release version" ;;!
      guard_err (negb (rl_major r =?s "1")
                 || match parse_unsigned (rl_minor r) with
                    | Some minor => negb (minor <? 2 ^ 32) || negb (Z.even minor)
                    | None => true
                    end) "only the stable Tailscale 1.x release branch is supported" ;;!
      guard_err (semver_compare ("v" +:+ rl_number r) ("v" +:+ MinimumCompatibleVersion) <? 0)
        "version is below the compatibility floor" ;;!
      Ok (rl_number r)
  end.

(** [UpdateTask.Validate]. *)
Definition valid_target (target : string) : bool :=
  match CompatibleVersion target with Ok value => value =?s target | Err _ => false end.

(** [UpdateUnitName(taskID) != ""]. *)
Definition names_unit (taskID : string) : bool := has_prefix UpdateTaskPrefix taskID && negb (128 <? str_len taskID).

(** ** Queueing *)
Record UpdateStatus := mk_update_status {
  us_installed_version : string; us_running_version : string; us_latest_version : string; us_checked_at : string;
  us_error : string; us_update_available : bool; us_upgrade_ready : bool
}.

Record TailscaleUpdateView := mk_tailscale_view {
  tv_id : string; tv_target_version : string; tv_state : string; tv_error : string; tv_updated_at : string
}.

Definition is_tailscale (t : task_row) : bool := in_table tailscale_update_tasks t.

(** Pending, running or with its helper. *)
Definition in_progress (t : task_row) : bool :=
  is_tailscale t && str_in (tr_state t) ["pending"; "running"; "awaiting_decision"].

(** The first value of [ORDER BY .. DESC LIMIT 1]. *)
Fixpoint newest (l : list string) : option string :=
  match l with
  | [] => None
  | s :: l' => match newest l' with Some m => Some (if s <?s m then m else s) | None => Some s end
  end.

(** The evidence admits the update at the instants [future] and [past] of the clock. *)
Definition fresh_evidence (s : UpdateStatus) (checked future past : Z) : bool :=
  negb (future + 5 * minute <? checked) && negb (checked <? past - 48 * hour) && (us_error s =?s "")
  && us_upgrade_ready s && us_update_available s && valid_target (us_latest_version s)
  && (us_installed_version s =?s us_running_version s) && semver_valid ("v" +:+ us_installed_version s)
  && (semver_compare ("v" +:+ us_installed_version s) ("v" +:+ us_latest_version s) <? 0).

Definition tailscale_task_row (id agentID target stamp : string) : task_row :=
  mk_task_row tailscale_update_tasks id agentID 1 0 0 "pending" "" "" stamp false false "" "" "" target "" "" ""
    "" "" "" "" stamp.

(** The insertion, with the primary key and the reference to the administrator. *)
Definition insert_tailscale (row : task_row) (adminID : string) : M unit :=
  do! taken := query (λ st, sql_exists (λ t, is_tailscale t && (tr_id t =?s tr_id row)) (tasks st)) in
  do! admin := query (λ st, is_admin st adminID) in
  fail_if (taken || negb admin) "constraint failed" ;;;
  λ st, (with_tasks (tasks st ++ [row]) st, Ok tt).

(** [decode] reads the status out of the capabilities ([json.Unmarshal]); [seen_now],
    [future_now], [past_now] and [now] are the readings of the clock. *)
Definition queueTailscaleUpdate (decode : string → option (option UpdateStatus)) (agentID adminID token : string)
    (seen_now future_now past_now now : Z) : M TailscaleUpdateView :=
  transaction (
    do! row := query (λ st, sql_row (λ a, ag_id a =?s agentID) (agents st)) in
    match row with
    | None => fail "center: node is unavailable"
    | Some a =>
        fail_if (negb (recently_seen (ag_last_seen_at a) seen_now) || negb (ag_status a =?s "active")
                 || negb (ag_credential_revoked_at a =?s "")) "center: node must be online" ;;;
        match decode (ag_capabilities_json a) with
        | Some (Some observed) =>
            let target := us_latest_version observed in
            do! checked := lift (match parse_rfc3339 (us_checked_at observed) with
              | Some checked =>
                  guard_err (negb (fresh_evidence observed checked future_now past_now))
                    "center: fresh supported Tailscale version evidence is required" ;;!
                  Ok checked
              | None => Err "center: fresh supported Tailscale version evidence is required"
              end) in
            do! last := query (λ st, newest (map tr_updated_at (sql_select (λ t, is_tailscale t
                && (tr_agent_id t =?s agentID) && (tr_state t =?s "succeeded")) (tasks st)))) in
            fail_if (match last with
                     | None => false
                     | Some at_ => match parse_rfc3339 at_ with
                                   | Some completed => negb (completed <? checked)
                                   | None => true
                                   end
                     end) "center: refresh the Tailscale version after the previous update" ;;;
            do! paused := query executionClaimsPaused in
            fail_if paused errExecutionBlocked ;;;
            do! blocked := query (λ st, agentReinstallBlocked st agentID) in
            fail_if blocked errExecutionBlocked ;;;
            do! busy := query (λ st, sql_exists in_progress (tasks st)
              || sql_exists (λ t, is_tailscale t && (tr_agent_id t =?s agentID) && (tr_state t =?s "failed")) (tasks st)
              || sql_exists (λ r, (te_agent_id r =?s agentID) && (te_disposition r =?s "")
                                  && negb (state_eqb (te_state r) Succeeded)) (executions st)) in
            fail_if busy "center: another update or unresolved execution requires attention" ;;;
            let stamp := rfc3339nano now in
            let id := UpdateTaskPrefix +:+ token in
            insert_tailscale (tailscale_task_row id agentID target stamp) adminID ;;;
            recordTaskEvent id agentID "tailscale.update" 1 "queued" "Administrator requested a Tailscale update" now ;;;
            ok (mk_tailscale_view id target "pending" "" stamp)
        | _ => fail "center: node has not reported a Tailscale check"
        end
    end).

(** The task a heartbeat is asked about: [ORDER BY created_at DESC LIMIT 1]. *)
Definition activeTailscaleUpdateTask (agentID : string) (st : Store) : string :=
  let active := sql_select (λ t, is_tailscale t && (tr_agent_id t =?s agentID)
                                 && str_in (tr_state t) ["running"; "awaiting_decision"]) (tasks st) in
  match newest (map tr_created_at active) with
  | Some created => match sql_row (λ t, tr_created_at t =?s created) active with Some t => tr_id t | None => "" end
  | None => ""
  end.

(** ** The restart of an Agent *)

(** One statement that ends the leases of a table. *)
Definition end_leases (agentID : string) (table : business_table) (state stamp : string) : M unit :=
  do! _ := update_tasks (λ t, in_table table t && (tr_agent_id t =?s agentID) && (tr_state t =?s state))
             (set_tr_lease stamp) in
  ok tt.

Definition expireAgentProcessTaskLeases (agentID : string) (now : Z) : M unit :=
  let stamp := rfc3339nano now in
  update_tasks (λ t, is_tailscale t && (tr_agent_id t =?s agentID) && (tr_state t =?s "running"))
    (close_task "failed" "Agent restarted during dispatch; inspect the host before retrying" stamp) ;;;
  end_leases agentID deployments "running" stamp ;;;
  end_leases agentID application_commands "running" stamp ;;;
  end_leases agentID gateway_components "applying" stamp ;;;
  end_leases agentID gateway_states "applying" stamp ;;;
  end_leases agentID node_listener_states "applying" stamp ;;;
  end_leases agentID landing_server_states "applying" stamp ;;;
  end_leases agentID landing_proxy_states "applying" stamp ;;;
  end_leases agentID cloudflare_tunnels "applying" stamp.
End Versions.
