(* ===== verification/TailscaleSpec.v ===== *)
(** * Tailscale updates: one in the fleet, upwards, and observed

    What the operations on [tailscale_update_tasks] do together: any interleaving of
    requests, claims, releases, renewals, handoffs, results, heartbeats, restarts, expired
    leases, reviews and decisions, with anything else happening to the other tables. *)
From S2P Require Import Prelude GoText GoTime TaskIds Store Hoare Execution Guards Claims Handoff.
From S2P Require Import Disposition Confirmation Workflows Leases LeaseSafety Updates TaskClaims Rollout Tailscale.
From S2P Require Import Protocol Samples.

(** ** Operations that start nothing *)

(** What an operation may do to a row of the table: it does not start an update, leaves
    what the update is, and completes only updates in progress that [P] admits. *)
Definition mild (P : string → string → Prop) (t t' : task_row) : Prop :=
  tr_table t' = tr_table t ∧
  (is_tailscale t = true → tr_id t' = tr_id t ∧ tr_agent_id t' = tr_agent_id t ∧
     tr_target_version t' = tr_target_version t ∧ (in_progress t' = true → in_progress t = true) ∧
     (tr_state t' = "succeeded" →
      tr_state t = "succeeded" ∨ in_progress t = true ∧ P (tr_id t) (tr_agent_id t))).

Definition calm (P : string → string → Prop) {A} (m : M A) : Prop :=
  ∀ st, Forall2 (mild P) (tasks st) (tasks (fst (m st))).

Lemma tailscale_eq t t' : tr_table t' = tr_table t → is_tailscale t' = is_tailscale t.
Proof. unfold is_tailscale, in_table. by intros ->. Qed.

Section Calm.
Context {L : Libraries} (P : string → string → Prop).
Abbreviation mild := (mild P).
Abbreviation calm := (calm P).

#[global] Instance mild_preorder : PreOrder mild.
Proof.
  split; [intros t; split; [done|]; auto 10|]. intros t t1 t2 [E1 H1] [E2 H2]. split; [congruence|]. intros Ht.
  destruct (H1 Ht) as (? & ? & ? & P1 & S1). destruct (H2 (eq_trans (tailscale_eq _ _ E1) Ht)) as (Ei & Ea & ? & P2 & S2).
  split_and!; [congruence..|auto|]. intros [Hs|[Hp HP]]%S2; [auto|]. right. split; [auto|]. congruence.
Qed.

Lemma mild_all_refl l : Forall2 mild l l.
Proof. induction l; constructor; [reflexivity|done]. Qed.

Lemma mild_all_trans l1 l2 l3 : Forall2 mild l1 l2 → Forall2 mild l2 l3 → Forall2 mild l1 l3.
Proof.
  intros H. revert l3. induction H as [|x y l1 l2 Hxy _ IH]; intros l3 H'; inversion H'; subst; constructor.
  - by etrans.
  - by apply IH.
Qed.

Section Rules.
Context {A B : Type}.

Lemma calm_frame (m : M A) : (∀ st, tasks (fst (m st)) = tasks st) → calm m.
Proof. intros H st. rewrite H. apply mild_all_refl. Qed.

Lemma calm_reads (m : M A) : reads m → calm m.
Proof. intros H. apply calm_frame. intros st. by rewrite H. Qed.

Lemma calm_bind (m : M A) (k : A → M B) : calm m → (∀ a, calm (k a)) → calm (bindM m k).
Proof.
  intros Hm Hk st. specialize (Hm st). unfold bindM. destruct (m st) as [st1 [a|]]; cbn in *; [|done].
  eapply mild_all_trans; [exact Hm|apply Hk].
Qed.

Lemma calm_lift (r : res A) (k : A → M B) : (∀ a, r = Ok a → calm (k a)) → calm (bindM (lift r) k).
Proof. intros H st. unfold bindM, lift. destruct r; [by apply H|]. apply mild_all_refl. Qed.

Lemma calm_transaction (m : M A) : calm m → calm (transaction m).
Proof. intros Hm st. specialize (Hm st). unfold transaction. destruct (m st) as [st1 [a|]]; [done|]. apply mild_all_refl. Qed.
End Rules.

Lemma mild_update wh f l : (∀ t, wh t = true → mild t (f t)) → Forall2 mild l (sql_update wh f l).
Proof.
  intros H. unfold sql_update. induction l as [|t l IH]; cbn [map]; constructor; [|done].
  destruct (wh t) eqn:E; [by apply H|reflexivity].
Qed.

Lemma calm_update_tasks wh f : (∀ t, wh t = true → mild t (f t)) → calm (update_tasks wh f).
Proof. intros H st. by apply mild_update. Qed.

Lemma calm_statement s : (∀ st t, sm_where s st t = true → mild t (sm_set s t)) → calm (run_statement s).
Proof. intros H st. apply mild_update. apply H. Qed.

Lemma calm_guarded wh f e : calm (guarded wh f e).
Proof.
  apply calm_frame. intros st. unfold guarded, bindM, expect_one, fail_if.
  destruct (update_executions _ _ st) as [st1 [n|]] eqn:E; unfold update_executions in E; simplify_eq. by case_match.
Qed.

Lemma calm_update_executions wh f : calm (update_executions wh f).
Proof. by apply calm_frame. Qed.

Lemma calm_update_side wh f : calm (update_side wh f).
Proof. by apply calm_frame. Qed.

(** A row of another table. *)
Lemma mild_other t t' : tr_table t' = tr_table t → tr_table t ≠ tailscale_update_tasks → mild t t'.
Proof.
  intros E H. split; [done|]. unfold is_tailscale, in_table. intros Ht%bool_decide_eq_true. done.
Qed.

(** A row that stops. *)
Lemma mild_stop t t' : tr_table t' = tr_table t → tr_id t' = tr_id t → tr_agent_id t' = tr_agent_id t →
  tr_target_version t' = tr_target_version t →
  str_in (tr_state t') ["pending"; "running"; "awaiting_decision"; "succeeded"] = false → mild t t'.
Proof.
  intros E Ei Ea Et Hs. split; [done|]. intros _. unfold in_progress, str_in in *. cbn [existsb] in *.
  rewrite !orb_false_iff in Hs. destruct Hs as (H1 & H2 & H3 & H4 & _). split_and!; [done..| |].
  - rewrite H1, H2, H3. cbn. by rewrite andb_false_r.
  - intros Es. by rewrite Es in H4.
Qed.

(** A row that goes on. *)
Lemma mild_go t t' : tr_table t' = tr_table t → tr_id t' = tr_id t → tr_agent_id t' = tr_agent_id t →
  tr_target_version t' = tr_target_version t → in_progress t = true ∨ tr_state t' = tr_state t →
  tr_state t' ≠ "succeeded" ∨ tr_state t' = tr_state t → mild t t'.
Proof.
  intros E Ei Ea Et Hp Hs. split; [done|]. intros Ht. split_and!; [done..| |].
  - destruct Hp as [Hp|Hp]; [done|]. unfold in_progress. by rewrite (tailscale_eq _ _ E), Hp.
  - destruct Hs as [Hs| ->]; [done|]. by left.
Qed.

Lemma tailscale_in_progress t s : tr_table t = tailscale_update_tasks → tr_state t = s →
  str_in s ["pending"; "running"; "awaiting_decision"] = true → in_progress t = true.
Proof. intros Ht Hs H. unfold in_progress, is_tailscale, in_table. rewrite Hs, H, bool_decide_eq_true_2 by done. done. Qed.

Ltac calm_step :=
  lazymatch goal with
  | |- calm (bindM (lift _) _) => apply calm_lift; intros ? ?
  | |- calm (bindM _ _) => apply calm_bind; [|intros ?]
  | |- calm (transaction _) => apply calm_transaction
  | |- calm (update_tasks _ _) => apply calm_update_tasks; intros ? ?
  | |- calm (guarded _ _ _) => apply calm_guarded
  | |- calm (update_executions _ _) => apply calm_update_executions
  | |- calm (update_side _ _) => apply calm_update_side
  | |- calm (recordTaskEvent _ _ _ _ _ _ _) => by apply calm_frame
  | |- calm (if ?b then _ else _) => destruct b eqn:?
  | |- calm (match ?x with _ => _ end) => destruct x eqn:?
  | |- calm (expect_one _ _) => apply calm_reads, reads_fail_if
  | |- calm _ => first [by auto with vastora | apply calm_reads; solve [auto with vastora]]
  end.

Lemma calm_claim rd a n : calm (claimTailscaleUpdate rd a n).
Proof.
  unfold claimTailscaleUpdate, take_row. repeat calm_step. unfold in_table in *. bool_prop.
  apply mild_go; try done; [|by left]. left. by eapply tailscale_in_progress.
Qed.

Lemma calm_begin a c t e s k n : calm (beginTailscaleUpdate a c t e s k n).
Proof.
  unfold beginTailscaleUpdate. repeat calm_step.
  - by apply calm_reads, reads_authenticate.
  - bool_prop. apply mild_go; try done; [|by left]. left. by eapply tailscale_in_progress.
Qed.

Lemma calm_complete commit a i k b e u n :
  (∀ st, tasks (fst (commit st)) = tasks st) → calm (completeTailscaleUpdate commit a i k b e u n).
Proof.
  intros Hc%calm_frame. unfold completeTailscaleUpdate. cbv zeta. repeat calm_step. by apply mild_stop.
Qed.

Lemma calm_acknowledge a t d c n m : calm (acknowledgeTailscaleUpdate a t d c n m).
Proof. unfold acknowledgeTailscaleUpdate. cbv zeta. repeat calm_step. by apply mild_stop. Qed.

Lemma calm_renew a c t k n : calm (RenewTaskLease a c t k n).
Proof.
  unfold RenewTaskLease. repeat calm_step.
  - by apply calm_reads, reads_authenticate.
  - apply mild_go; try done; by right.
Qed.

Lemma calm_restart a n : calm (expireAgentProcessTaskLeases a n).
Proof.
  unfold expireAgentProcessTaskLeases, end_leases. cbv zeta. repeat calm_step; try (apply mild_go; try done; by right).
  by apply mild_stop.
Qed.

(** The tables of the desired states are others. *)
Lemma status_table_other k table : status_table k = Some table → table ≠ tailscale_update_tasks.
Proof. unfold status_table. repeat case_match; intros [= <-]; done. Qed.

(** A statement on another table. *)
Definition elsewhere (s : statement) : Prop :=
  ∀ st t, sm_where s st t = true → tr_table t ≠ tailscale_update_tasks ∧ tr_table (sm_set s t) = tr_table t.

Lemma elsewhere_mild s st t : elsewhere s → sm_where s st t = true → mild t (sm_set s t).
Proof. intros H [H1 H2]%H. by apply mild_other. Qed.

Lemma task_statement_elsewhere table task a state error now :
  table ≠ tailscale_update_tasks → elsewhere (task_statement table task a state error now).
Proof. intros H st t Hw. cbn in *. unfold by_id in Hw. bool_prop. split; [congruence|done]. Qed.

Lemma status_statement_elsewhere k table task a status now :
  status_table k = Some table → elsewhere (status_statement table task a status now).
Proof.
  intros H%status_table_other st t Hw. cbn in *. unfold by_revision in Hw. bool_prop. split; [congruence|done].
Qed.

Lemma clear_elsewhere s : elsewhere s → elsewhere (clear_reconciliation s) ∧ elsewhere (clear_required s).
Proof. intros H. split; intros st t Hw; apply (H st t Hw). Qed.

Lemma abandon_mild task a now s st t :
  executionAbandonStatement task a now = Ok s → sm_where s st t = true → mild t (sm_set s t).
Proof.
  unfold executionAbandonStatement. cbv zeta. repeat case_match; intros [= <-] Hw; try discriminate.
  all: try (eapply elsewhere_mild; [|exact Hw]; first
    [by eapply status_statement_elsewhere | by apply task_statement_elsewhere
    | apply clear_elsewhere; by apply task_statement_elsewhere]).
  - cbn in *. bool_prop. apply mild_other; [done|congruence].
  - by apply mild_stop.
Qed.

Lemma requeue_mild task a now s st t :
  executionRequeueStatement task a now = Ok s → sm_where s st t = true → mild t (sm_set s t).
Proof.
  unfold executionRequeueStatement. cbv zeta. repeat case_match; intros [= <-] Hw; try discriminate.
  all: try (eapply elsewhere_mild; [|exact Hw]; first
    [by eapply status_statement_elsewhere | by apply task_statement_elsewhere
    | apply clear_elsewhere; by apply task_statement_elsewhere]).
  all: cbn in *; unfold by_id, is_decommission_row in Hw; bool_prop; apply mild_other; [done|congruence].
Qed.

Lemma release_mild a task now s st t :
  releaseStatement a task now = Ok s → sm_where s st t = true → mild t (sm_set s t).
Proof.
  unfold releaseStatement. cbv zeta. repeat case_match; intros [= <-] Hw; try discriminate; cbn in *.
  - bool_prop. apply mild_other; [done|congruence].
  - unfold is_decommission_row in Hw. bool_prop. apply mild_other; [done|congruence].
  - unfold by_id in Hw. bool_prop. destruct (decide (tr_table t = tailscale_update_tasks)) as [Ht|Ht]; [|by apply mild_other].
    apply mild_go; try done; [|by left]. left. eapply tailscale_in_progress; [done|reflexivity|].
    match goal with H : str_in (tr_state t) _ = true |- _ => unfold str_in in *; cbn in *; rewrite orb_false_r in H; rewrite H end.
    by rewrite orb_true_r.
  - match goal with H : status_table _ = Some _ |- _ => apply status_table_other in H end. unfold by_revision in Hw. bool_prop.
    apply mild_other; [done|congruence].
Qed.

Lemma calm_followup k x i n : calm (disposition_followup k x i n).
Proof. unfold disposition_followup. apply calm_frame. intros st. by repeat case_match. Qed.

Lemma calm_dispose i ad d b n : calm (disposeTaskExecution i ad d b n).
Proof.
  unfold disposeTaskExecution, record_disposition. cbv zeta. repeat calm_step; try apply calm_followup.
  apply calm_statement. intros st x Hw. case_match; [by eapply abandon_mild|by eapply requeue_mild].
Qed.

Lemma calm_release a task n : calm (releaseClaimedTask a task n).
Proof.
  unfold releaseClaimedTask, release_mirror. cbv zeta. repeat calm_step.
  - apply calm_statement. intros st x Hw. by eapply release_mild.
  - by apply calm_frame.
Qed.

Lemma calm_interrupt a n table states state message b :
  str_in state ["pending"; "running"; "awaiting_decision"; "succeeded"] = false →
  calm (interrupt a n table states state message b).
Proof. intros Hs. unfold interrupt. repeat calm_step. by apply mild_stop; destruct b. Qed.

Lemma calm_recover a mirror n : (∀ st, tasks (fst (mirror st)) = tasks st) → calm (recoverExpiredTasks a mirror n).
Proof.
  intros Hm%calm_frame. unfold recoverExpiredTasks. cbv zeta. repeat calm_step.
  all: first [by apply calm_interrupt | by apply calm_frame | apply calm_frame, interrupt_executions_tasks].
Qed.

(** A heartbeat completes the update it names, and only when it does not report a failure. *)
Lemma calm_reconcile a ob n d f :
  (ob_state ob ≠ "failed" → P (ob_task_id ob) a) → calm (reconcileTailscaleUpdate a (Some ob) n d f).
Proof.
  intros HP. unfold reconcileTailscaleUpdate, commit_projection, finalizeExecution. cbv zeta. repeat calm_step.
  all: unfold tailscale_row in *; bool_prop; subst. destruct (ob_state ob =?s "failed") eqn:Ef; [by apply mild_stop|].
  bool_prop. split; [done|]. intros _. split_and!; [done..| |].
  - intros _. by eapply tailscale_in_progress.
  - intros _. right. split; [by eapply tailscale_in_progress|]. cbn. rewrite H3. by apply HP.
Qed.
End Calm.

(** Without an update of the node that the report decides, a heartbeat changes no task. *)
Lemma reconcile_decides {L : Libraries} a ob n d f st :
  tasks (fst (reconcileTailscaleUpdate a (Some ob) n d f st)) = tasks st ∨ ob_state ob = "failed" ∨
  ∃ t, t ∈ tasks st ∧ in_progress t = true ∧ tr_id t = ob_task_id ob ∧ tr_agent_id t = a ∧ ob_state ob = "succeeded" ∧
    ob_installed_version ob = tr_target_version t ∧ ob_running_version ob = tr_target_version t.
Proof.
  unfold reconcileTailscaleUpdate. destruct (negb _); [by left|]. unfold bindM at 1. cbn [query].
  destruct (sql_row _ (tasks st)) as [t|] eqn:E; [|by left]. apply sql_row_spec in E as [Ht E].
  destruct (ob_state ob =?s "failed") eqn:Ef; [right; left; by bool_prop|]. cbv zeta.
  destruct (_ && _ && _) eqn:Ed; [|by left]. right; right. exists t. unfold tailscale_row in E. bool_prop.
  split_and!; try done. by eapply tailscale_in_progress.
Qed.

(** ** Runs *)

(** A request that was granted, with the evidence of the node; a report of a node. *)
Inductive fleet_event :=
| Queued (id agent : string) (evidence : UpdateStatus)
| Observed (agent : string) (ob : UpdateObservation).

Section Fleet.
Context {L : Libraries}.

(** The evidence a node reported. *)
Definition evidence_of (decode : string → option (option UpdateStatus)) (a : string) (st : Store) : option UpdateStatus :=
  match sql_row (λ x, ag_id x =?s a) (agents st) with
  | Some x => match decode (ag_capabilities_json x) with Some (Some s) => Some s | _ => None end
  | None => None
  end.

(** An operation of the Center on the table, the request and the heartbeat apart. *)
Inductive fleet_operation : Store → Store → Prop :=
| fo_claim rd a n st : fleet_operation st (fst (claimTailscaleUpdate rd a n st))
| fo_release a task n st : fleet_operation st (fst (releaseClaimedTask a task n st))
| fo_renew a c t k n st : fleet_operation st (fst (RenewTaskLease a c t k n st))
| fo_begin a c t e s k n st : fleet_operation st (fst (beginTailscaleUpdate a c t e s k n st))
| fo_complete commit a i k b e u n st : (∀ st, tasks (fst (commit st)) = tasks st) →
    fleet_operation st (fst (completeTailscaleUpdate commit a i k b e u n st))
| fo_acknowledge a t d c n m st : fleet_operation st (fst (acknowledgeTailscaleUpdate a t d c n m st))
| fo_restart a n st : fleet_operation st (fst (expireAgentProcessTaskLeases a n st))
| fo_recover a mirror n st : (∀ st, tasks (fst (mirror st)) = tasks st) →
    fleet_operation st (fst (recoverExpiredTasks a mirror n st))
| fo_dispose i ad d b n st : fleet_operation st (fst (disposeTaskExecution i ad d b n st)).

(** Runs, latest event first, with anything else happening to the other tables in between;
    the updates of a node disappear with it. *)
Inductive fleet_run : list fleet_event → Store → Prop :=
| fr_start st : sql_select is_tailscale (tasks st) = [] → fleet_run [] st
| fr_other h st st' : fleet_run h st →
    sublist (sql_select is_tailscale (tasks st')) (sql_select is_tailscale (tasks st)) → fleet_run h st'
| fr_operation h st st' : fleet_run h st → fleet_operation st st' → fleet_run h st'
| fr_queue decode a ad k n1 n2 n3 n4 h st st' v s : fleet_run h st → evidence_of decode a st = Some s →
    queueTailscaleUpdate decode a ad k n1 n2 n3 n4 st = (st', Ok v) → fleet_run (Queued (tv_id v) a s :: h) st'
| fr_observe a ob n d f h st : fleet_run h st →
    fleet_run (Observed a ob :: h) (fst (transaction (reconcileTailscaleUpdate a (Some ob) n d f) st)).

Lemma operation_mild st st' : fleet_operation st st' → Forall2 (mild (λ _ _, False)) (tasks st) (tasks st').
Proof.
  destruct 1; [apply calm_claim|apply calm_release|apply calm_renew|apply calm_begin|by apply calm_complete
    |apply calm_acknowledge|apply calm_restart|by apply calm_recover|apply calm_dispose].
Qed.

(** ** The invariant *)

(** The update was requested on evidence that admits it. *)
Definition requested (h : list fleet_event) (t : task_row) : Prop :=
  ∃ s, Queued (tr_id t) (tr_agent_id t) s ∈ h ∧ us_latest_version s = tr_target_version t ∧
    valid_target (tr_target_version t) = true ∧ us_installed_version s = us_running_version s ∧
    semver_compare ("v" +:+ us_installed_version s) ("v" +:+ tr_target_version t) < 0.

(** The node was seen with the target of the update. *)
Definition confirmed (h : list fleet_event) (t : task_row) : Prop :=
  ∃ ob, Observed (tr_agent_id t) ob ∈ h ∧ ob_task_id ob = tr_id t ∧ ob_state ob = "succeeded" ∧
    ob_installed_version ob = tr_target_version t ∧ ob_running_version ob = tr_target_version t.

Record orderly (h : list fleet_event) (l : list task_row) : Prop := mk_orderly {
  or_one : sql_affected in_progress l <= 1;
  or_row : ∀ t, t ∈ l → is_tailscale t = true →
    requested h t ∧ (tr_state t = "succeeded" → confirmed h t)
}.

Lemma in_progress_tailscale t : in_progress t = true → is_tailscale t = true.
Proof. unfold in_progress. intros H. by bool_prop. Qed.

Lemma orderly_rows h l : orderly h l ↔ orderly h (sql_select is_tailscale l).
Proof.
  assert (sql_affected in_progress (sql_select is_tailscale l) = sql_affected in_progress l) as E.
  { unfold sql_affected, sql_select. induction l as [|t l IH]; [done|]. cbn [List.filter].
    destruct (is_tailscale t) eqn:Et; cbn [List.filter].
    - destruct (in_progress t); cbn [length] in *; lia.
    - destruct (in_progress t) eqn:Ep; [|done]. apply in_progress_tailscale in Ep. congruence. }
  split; intros [H1 H2]; split; try lia; intros t Ht Hts; apply H2; try done.
  - unfold sql_select in Ht. rewrite !list_elem_of_In in *. by apply filter_In in Ht as [Ht _].
  - unfold sql_select. rewrite list_elem_of_In in *. by apply filter_In.
Qed.

Lemma orderly_sublist h l l' : sublist l' l → orderly h l → orderly h l'.
Proof.
  intros Hs [H1 H2]. split.
  - etrans; [|exact H1]. clear H1 H2. unfold sql_affected, sql_select. induction Hs; cbn [List.filter]; [lia| |].
    + destruct (in_progress x); cbn [length]; lia.
    + destruct (in_progress x); cbn [length]; lia.
  - intros t Ht. apply H2. by eapply elem_of_sublist.
Qed.

Lemma orderly_later e h l : orderly h l → orderly (e :: h) l.
Proof.
  intros [H1 H2]. split; [done|]. intros t Ht Hts. destruct (H2 t Ht Hts) as [(s & Hs & R) Hc]. split.
  - exists s. split; [by right|done].
  - intros Es. destruct (Hc Es) as (ob & Ho & R'). exists ob. split; [by right|done].
Qed.

(** Rows with one key are one. *)
Lemma one_in_progress l t t' : sql_affected in_progress l <= 1 → t ∈ l → t' ∈ l →
  in_progress t = true → in_progress t' = true → t = t'.
Proof.
  unfold sql_affected, sql_select. intros H Ht Ht' P P'.
  assert (t ∈ List.filter in_progress l ∧ t' ∈ List.filter in_progress l) as [F F']
    by (rewrite !list_elem_of_In in *; rewrite !filter_In; auto).
  destruct (List.filter in_progress l) as [|x [|y r]]; [set_solver| |cbn [length] in H; lia].
  apply list_elem_of_singleton in F, F'. congruence.
Qed.

Lemma mild_orderly (P : string → string → Prop) h l l' :
  Forall2 (mild P) l l' → orderly h l →
  (∀ t, t ∈ l → in_progress t = true → P (tr_id t) (tr_agent_id t) → confirmed h t) → orderly h l'.
Proof.
  intros Hm [H1 H2] HP. split.
  - etrans; [|exact H1]. clear H1 H2 HP. unfold sql_affected, sql_select. induction Hm as [|t t' l l' [Et Hm] _ IH]; [done|].
    cbn [List.filter]. destruct (in_progress t') eqn:Ep; [|destruct (in_progress t); cbn [length]; lia].
    pose proof (in_progress_tailscale _ Ep) as Hts. rewrite (tailscale_eq _ _ Et) in Hts.
    destruct (Hm Hts) as (_ & _ & _ & Hp & _). rewrite (Hp eq_refl). cbn [length]. lia.
  - intros t' Ht' Hts. apply list_elem_of_lookup in Ht' as [i Hi].
    destruct (Forall2_lookup_r _ _ _ _ _ Hm Hi) as (t & Hl & Et & Hm'). apply list_elem_of_lookup_2 in Hl.
    rewrite (tailscale_eq _ _ Et) in Hts. destruct (Hm' Hts) as (Ei & Ea & Ev & _ & Hs). destruct (H2 t Hl Hts) as [Hr Hc].
    unfold requested, confirmed in *. rewrite Ei, Ea, Ev. split; [done|]. intros [Es|[Hp HPt]]%Hs; [by apply Hc|by apply HP].
Qed.

(** A granted request adds one row, when no update is in progress anywhere. *)
Lemma queue_tailscale_wp decode a ad k n1 n2 n3 n4 st :
  wp (queueTailscaleUpdate decode a ad k n1 n2 n3 n4) st (λ st' v, ∃ s c, evidence_of decode a st = Some s ∧
    fresh_evidence s c n2 n3 = true ∧ sql_affected in_progress (tasks st) = 0 ∧
    tasks st' = tasks st ++ [tailscale_task_row (tv_id v) a (us_latest_version s) (rfc3339nano n4)]).
Proof.
  unfold queueTailscaleUpdate, evidence_of. cbv zeta. do 3 wp_step; [|wp_step]. wp_step.
  destruct (decode _) as [[s|]|]; [|apply wp_fail..]. apply wp_lift. intros c Hc.
  destruct (parse_rfc3339 _) as [c'|]; [|discriminate]. unfold rbind, guard_err in Hc.
  destruct (negb (fresh_evidence _ _ _ _)) eqn:Ef; [discriminate|]. simplify_eq.
  do 8 wp_step. unfold insert_tailscale. wp_step. do 3 wp_step. intros st1 [] E1. simplify_eq.
  apply wp_bind. intros st2 [] E2. unfold recordTaskEvent in E2. simplify_eq. wp_step. exists s, c. bool_prop.
  split_and!; try done. apply sql_affected_0. by apply sql_exists_false.
Qed.

Lemma queue_orderly h decode a ad k n1 n2 n3 n4 st st' v s :
  orderly h (tasks st) → evidence_of decode a st = Some s →
  queueTailscaleUpdate decode a ad k n1 n2 n3 n4 st = (st', Ok v) → orderly (Queued (tv_id v) a s :: h) (tasks st').
Proof.
  intros Ho Es (s' & c & Es' & Hf & H0 & ->)%queue_tailscale_wp. assert (s' = s) as -> by congruence.
  apply (orderly_later (Queued (tv_id v) a s)) in Ho as [_ H2]. split.
  - rewrite affected_app, H0. case_match; lia.
  - intros t [Ht| ->%list_elem_of_singleton]%elem_of_app Hts; [by apply H2|]. split; [|done].
    unfold fresh_evidence in Hf. bool_prop. exists s. split_and!; try done. left.
Qed.

Lemma observe_orderly h a ob n d f st :
  orderly h (tasks st) →
  orderly (Observed a ob :: h) (tasks (fst (transaction (reconcileTailscaleUpdate a (Some ob) n d f) st))).
Proof.
  intros Ho%(orderly_later (Observed a ob)). unfold transaction.
  destruct (reconcileTailscaleUpdate a (Some ob) n d f st) as [st' [[]|e]] eqn:E; [|done]. cbn [fst].
  destruct (reconcile_decides a ob n d f st) as [Hd|Hd]; [by rewrite E in Hd; cbn in Hd; rewrite Hd|].
  pose proof (calm_reconcile (λ i x, i = ob_task_id ob ∧ x = a ∧ ob_state ob ≠ "failed") a ob n d f (λ H, conj eq_refl (conj eq_refl H)) st) as Hm.
  rewrite E in Hm. eapply mild_orderly; [exact Hm|done|]. intros t Ht Hp (Ei & Ea & Hf).
  destruct Hd as [Hd|(t0 & Ht0 & Hp0 & Ei0 & Ea0 & Hs & Hi & Hr)]; [done|].
  rewrite (one_in_progress _ t t0 (or_one _ _ Ho) Ht Ht0 Hp Hp0). exists ob. rewrite Ea0. split_and!; try done. left.
Qed.

Lemma fleet_orderly h st : fleet_run h st → orderly h (tasks st).
Proof.
  induction 1 as [st E|h st st' _ IH Hs|h st st' _ IH Ho|decode a ad k n1 n2 n3 n4 h st st' v s _ IH Es E|a ob n d f h st _ IH].
  - rewrite orderly_rows, E. split; [done|]. set_solver.
  - rewrite orderly_rows in *. by eapply orderly_sublist.
  - eapply mild_orderly; [by apply operation_mild|done|]. done.
  - by eapply queue_orderly.
  - by apply observe_orderly.
Qed.

(** C22 -- Tailscale is updated on one node at a time, upwards, and is believed only when
    seen: in every run of the Center at most one update of the whole fleet is in progress;
    every update goes to a supported stable release that is newer than the version the node
    had reported as installed and running; and an update has succeeded only when the node
    itself reported the target as installed and running for this very task. *)
Theorem tailscale_updates_are_orderly h st : fleet_run h st →
  sql_affected in_progress (tasks st) <= 1 ∧
  ∀ t, t ∈ tasks st → is_tailscale t = true → requested h t ∧ (tr_state t = "succeeded" → confirmed h t).
Proof. intros [H1 H2]%fleet_orderly. by split. Qed.
End Fleet.

(** ** The node agent-1 is updated *)
Module Fleet.
Definition status : UpdateStatus :=
  mk_update_status "1.102.4" "1.102.4" "1.104.0" (rfc3339nano sample_time) "" true true.
Definition decode (_ : string) : option (option UpdateStatus) := Some (Some status).
Definition queue_1 : Store * res TailscaleUpdateView :=
  queueTailscaleUpdate decode "agent-1" "admin-1" "1" sample_time sample_time sample_time sample_time sample_store.
Definition update_id : string := "tailscale-update-1".
Definition view_1 : TailscaleUpdateView := mk_tailscale_view update_id "1.104.0" "pending" "" (rfc3339nano sample_time).

Definition reads_1 : ClaimReads :=
  mk_claim_reads (λ _, true) 0 (λ _, "[]") (λ _, Ok "1.104.0") (λ _, false) (λ _, Err "none") (Err "none")
    false false false false (λ _, Err "none") (ok tt) (λ _, false) (λ _, Err "none") (λ _, None).
Definition claimed : Store := fst (claimTailscaleUpdate reads_1 "agent-1" sample_time (fst queue_1)).

(** Its execution, started and about to be handed over. *)
Definition execution : task_execution :=
  mk_execution "execution-1" "agent-1" update_id "tailscale.update" 1 sample_session "digest"
    (seal "execution-task:execution-1" (task_json (plain_task update_id "tailscale.update" 1 1 "1.104.0"))) "" Running "handoff" ""
    (rfc3339nano (sample_time + minute)) (rfc3339nano sample_time) (rfc3339nano sample_time) "" "" "" "" "".
Definition started_store : Store := with_sessions {[ "agent-1" := sample_session ]} (with_executions [execution] [] claimed).
Definition handed : Store :=
  fst (beginTailscaleUpdate "agent-1" "credential" update_id "execution-1" sample_session 1 sample_time started_store).

Definition report : UpdateObservation := mk_observation update_id true "succeeded" "1.104.0" "1.104.0".
Definition settled : Store :=
  fst (transaction (reconcileTailscaleUpdate "agent-1" (Some report) sample_time sample_time sample_time) handed).
Definition events : list fleet_event := [Observed "agent-1" report; Queued update_id "agent-1" status].

Example second_update_waits :
  snd (queueTailscaleUpdate decode "agent-1" "admin-1" "2" sample_time sample_time sample_time sample_time handed) =
  Err "center: another update or unresolved execution requires attention".
Proof. vm_compute. reflexivity. Qed.

Lemma settled_run : fleet_run events settled.
Proof.
  apply fr_observe. eapply fr_operation; [|apply fo_begin]. apply (fr_other _ claimed); [|vm_compute; reflexivity].
  eapply fr_operation; [|apply fo_claim].
  apply (fr_queue decode "agent-1" "admin-1" "1" sample_time sample_time sample_time sample_time [] sample_store (fst queue_1) view_1);
    [by apply fr_start|vm_compute; reflexivity..].
Qed.

Definition update_row : task_row := match tasks settled with t :: _ => t | [] => tailscale_task_row "" "" "" "" end.

Lemma tailscale_updates_are_orderly_witness : tr_state update_row = "succeeded" ∧ confirmed events update_row.
Proof.
  split; [vm_compute; reflexivity|].
  refine (proj2 (proj2 (tailscale_updates_are_orderly events settled settled_run) update_row _ _) _);
    [|vm_compute; reflexivity..]. vm_compute. apply list_elem_of_here.
Defined.
End Fleet.
