(* ===== verification/Teardown.v ===== *)
(** * Taking a Center down

    internal/center/decommission.go, and the queue, the refusal and the wait of
    agent_decommission_tasks.go: every reachable application is uninstalled, workers and
    plugins before the rest and controllers last; then the gateways, tunnels and commands
    must come to rest; then every reachable node but the host of the Center is asked to
    clean itself, and the teardown waits until each one has acknowledged.

    The statements on [agent_decommissions] are operations on the store.  The teardown
    itself runs beside everything else, with waits of any length: it is a step function
    over the answers to its statements, so a theorem about all sequences of answers holds
    for whatever happens to the database between two statements. *)
From S2P Require Import Prelude GoText GoTime Store Execution Handoff Disposition Vault Ingress.

(** ** The rows of [agent_decommissions] *)
Section Rows.
Context {L : Libraries}.

Definition decommission_task_row (agentID state error stamp : string) : task_row :=
  mk_task_row agent_decommissions agentID agentID 1 0 0 state "" error stamp false false "" "" "" "" "" "" ""
    "" "" "" "" stamp.

(** [INSERT .. ON CONFLICT(agent_id) DO UPDATE], with the reference to the agent. *)
Definition upsert_decommission (agentID : string) (row : task_row) (set_row : task_row → task_row) (message : string) : M unit :=
  do! known := query (λ st, sql_exists (λ a, ag_id a =?s agentID) (agents st)) in
  fail_if (negb known) message ;;;
  λ st, if sql_exists (is_decommission_row agentID) (tasks st)
        then (with_tasks (sql_update (is_decommission_row agentID) set_row (tasks st)) st, Ok tt)
        else (with_tasks (tasks st ++ [row]) st, Ok tt).

(** A cleanup that runs on the host or is done is kept. *)
Definition requeue_decommission (stamp : string) (t : task_row) : task_row :=
  let kept := str_in (tr_state t) ["cleaning"; "succeeded"] in
  set_tr_updated stamp (set_tr_error "" (set_tr_lease ""
    (set_tr_callback (if kept then tr_callback_token_hash t else "") (set_tr_state (if kept then tr_state t else "pending") t)))).

(** [queueAgentDecommission]; the choice to delete data is not a column of the model. *)
Definition queueAgentDecommission (agentID : string) (now event_now : Z) : M unit :=
  let stamp := rfc3339nano now in
  upsert_decommission agentID (decommission_task_row agentID "pending" "" stamp) (requeue_decommission stamp)
    "center: queue Agent host cleanup" ;;;
  transaction (recordTaskEvent (agentDecommissionTaskID agentID) agentID "agent.decommission" 1 "queued" "host cleanup queued" event_now).

(** The record of a node that could not be reached. *)
Definition abandonOfflineAgent (agentID : string) (now : Z) : M unit :=
  let stamp := rfc3339nano now in
  let message := "manual cleanup required because Agent was offline" in
  upsert_decommission agentID (decommission_task_row agentID "abandoned" message stamp)
    (λ t, set_tr_updated stamp (set_tr_error message (set_tr_lease "" (set_tr_state "abandoned" t))))
    "center: record incomplete cleanup for offline Agent".

Definition failAgentDecommissionClaim (commit : M unit) (agentID : string) (expectedAttempt : Z) (taskError : string)
    (now event_now : Z) : M unit :=
  let taskError := trim_space taskError in
  let taskError := if taskError =?s "" then "Agent could not start its persistent host cleanup helper" else taskError in
  let taskError := if 1024 <? str_len taskError then String.substring 0 1024 taskError else taskError in
  transaction (
    do! changed := update_tasks (λ t, is_decommission_row agentID t && (tr_state t =?s "running") && (tr_attempt t =? expectedAttempt))
      (λ t, set_tr_updated (rfc3339nano now) (set_tr_error taskError (set_tr_lease "" (set_tr_callback "" (set_tr_state "failed" t))))) in
    if negb (changed =? 1) then
      do! row := query (λ st, sql_row (is_decommission_row agentID) (tasks st)) in
      fail_if (match row with
               | Some t => negb (tr_attempt t =? expectedAttempt) || negb (tr_state t =?s "failed")
               | None => true
               end) errStaleTaskLease ;;;
      commit
    else
      recordTaskEvent (agentDecommissionTaskID agentID) agentID "agent.decommission" 1 "failed" taskError event_now ;;;
      commit).
End Rows.

(** ** The teardown *)
Record application := mk_app { av_id : string; av_name : string; av_node_id : string; av_app_key : string; av_role : string; av_status : string }.
Record node := mk_node_view { nv_id : string; nv_name : string; nv_connected : bool }.

#[global] Instance application_eq_dec : EqDecision application.
Proof. solve_decision. Defined.

Definition decommissionPriority (a : application) : nat :=
  if (av_app_key a =?s threeXUIAppKey) && (av_role a =?s threeXUIRoleWorker) || (av_app_key a =?s "vastora-official/keeper") then 0
  else if (av_app_key a =?s threeXUIAppKey) && (av_role a =?s threeXUIRoleMaster) then 2
  else 1.

Definition app_less (left right : application) : bool :=
  if av_node_id left =?s av_node_id right then av_app_key left <?s av_app_key right else av_node_id left <?s av_node_id right.

(** The groups that are left, with their priorities. *)
Abbreviation groups := (list (nat * list application)).

(** The statement the teardown is at. *)
Inductive phase :=
| ListApplications
| ListAgents
| ListOffline
| SelectTask (todo : list application)           (* activeDecommissionTask of the first *)
| SelectInstalled (todo : list application)      (* activeDeployment of the first *)
| Join (todo : list application) (p : nat) (rest : groups)     (* activeDecommissionTask *)
| Create (todo : list application) (p : nat) (rest : groups)   (* CreateDeployment *)
| AwaitRemovals (round : list string) (p : nat) (rest : groups)
| PauseRemovals (p : nat) (rest : groups)
| Workers (rest : groups)
| PauseWorkers (rest : groups)
| CommandFailure | PublicationCleanup | GatewaysPending | TunnelsPending (gateways : Z) | CommandsPending (gateways tunnels : Z)
| ComponentFailure | PauseInfrastructure
| Nodes (todo : list node)
| AwaitNodes (round : list string)
| PauseNodes
| Finished (r : res unit).

Record teardown := mk_teardown {
  td_phase : phase;
  td_apps : list application;
  td_nodes : list node;
  td_selected : list application;
  td_pending : list (string * application);      (* deployments that are waited for *)
  td_cleaning : list node;                       (* nodes that were asked *)
  td_uncleaned : list string                     (* nodes that are waited for *)
}.

Inductive answer :=
| Applications (l : list application)
| Agents (l : list node)
| ActiveTask (row : option (string * string * bool))   (* id, operation, delete_data *)
| Text (s : string)
| Flag (b : bool)
| Count (n : Z)
| DeploymentRow (id state : string) (reconciliationRequired : bool) (error : string)
| NodeRow (id state error : string)
| Found (o : option string)
| Done
| Ticked
| Cancelled
| Failure (e : string).

Section Teardown.
Context {S : SliceSorter} (deleteData forceOffline : bool) (deferredAgentID : string).

Definition start : teardown := mk_teardown ListApplications [] [] [] [] [] [].

Definition goto (p : phase) (s : teardown) : teardown :=
  mk_teardown p (td_apps s) (td_nodes s) (td_selected s) (td_pending s) (td_cleaning s) (td_uncleaned s).
Definition finish (r : res unit) (s : teardown) : teardown := goto (Finished r) s.
Definition with_pending (l : list (string * application)) (s : teardown) : teardown :=
  mk_teardown (td_phase s) (td_apps s) (td_nodes s) (td_selected s) l (td_cleaning s) (td_uncleaned s).
Definition with_nodes (l : list node) (s : teardown) : teardown :=
  mk_teardown (td_phase s) (td_apps s) l (td_selected s) (td_pending s) (td_cleaning s) (td_uncleaned s).
Definition with_apps (l : list application) (s : teardown) : teardown :=
  mk_teardown (td_phase s) l (td_nodes s) (td_selected s) (td_pending s) (td_cleaning s) (td_uncleaned s).
Definition with_cleaning (l : list node) (s : teardown) : teardown :=
  mk_teardown (td_phase s) (td_apps s) (td_nodes s) (td_selected s) (td_pending s) l (td_uncleaned s).
Definition with_uncleaned (l : list string) (s : teardown) : teardown :=
  mk_teardown (td_phase s) (td_apps s) (td_nodes s) (td_selected s) (td_pending s) (td_cleaning s) l.

(** [connectedAgents[id]]: of nodes with one identifier the last one counts. *)
Definition connected (id : string) (l : list node) : bool :=
  match List.find (λ n, nv_id n =?s id) (rev l) with Some n => nv_connected n | None => false end.

Definition OfflineAgentCleanups (l : list node) : list node :=
  List.filter (λ n, negb (nv_id n =?s deferredAgentID) && negb (nv_connected n)) l.

(** [activeDecommissionTask]: the uninstall that is already active, or none. *)
Definition activeDecommissionTask (row : option (string * string * bool)) : res string :=
  match row with
  | None => Ok ""
  | Some (id, operation, activeDeleteData) =>
      guard_err (negb (operation =?s "uninstall"))
        "center: active operation; wait for it before uninstalling Center" ;;!
      guard_err (negb (Bool.eqb activeDeleteData deleteData))
        "center: already has an uninstall with a different data-retention choice; wait for it to finish" ;;!
      Ok id
  end.

(** The next group that has applications; after the first group the workers are waited for. *)
Fixpoint enter (rest : groups) : phase :=
  match rest with
  | [] => CommandFailure
  | (p, []) :: rest' => if Nat.eqb p 0 then Workers rest' else enter rest'
  | (p, l) :: rest' => Join l p rest'
  end.
Definition leave (p : nat) (rest : groups) : phase := if Nat.eqb p 0 then Workers rest else enter rest.

Definition app_group (p : nat) (l : list application) : list application :=
  slice_sort app_less (List.filter (λ a, Nat.eqb (decommissionPriority a) p) l).
Definition grouped (l : list application) : groups := [(0%nat, app_group 0 l); (1%nat, app_group 1 l); (2%nat, app_group 2 l)].

(** The selection skips applications that are stopped. *)
Fixpoint select (todo : list application) (s : teardown) : teardown :=
  match todo with
  | [] => goto (enter (grouped (td_selected s))) s
  | a :: todo' => if av_status a =?s "stopped" then select todo' s else goto (SelectTask todo) s
  end.

(** An application is selected when its node is connected. *)
Definition choose (a : application) (todo : list application) (s : teardown) : teardown :=
  if negb (connected (av_node_id a) (td_nodes s)) then select todo s
  else select todo (mk_teardown (td_phase s) (td_apps s) (td_nodes s) (td_selected s ++ [a]) (td_pending s) (td_cleaning s) (td_uncleaned s)).

(** [deployments[id] = application]. *)
Definition put (id : string) (a : application) (l : list (string * application)) : list (string * application) :=
  List.filter (λ x, negb (fst x =?s id)) l ++ [(id, a)].

Definition await_removals (p : nat) (rest : groups) (s : teardown) : teardown :=
  match td_pending s with
  | [] => goto (leave p rest) s
  | l => goto (AwaitRemovals (map fst l) p rest) s
  end.

Definition start_uninstall (id : string) (a : application) (todo : list application) (p : nat) (rest : groups) (s : teardown) : teardown :=
  let s := with_pending (put id a (td_pending s)) s in
  match todo with
  | [] => await_removals p rest s
  | _ => goto (Join todo p rest) s
  end.

(** The end of a round over the deployments or the nodes. *)
Definition end_removals (round : list string) (p : nat) (rest : groups) (s : teardown) : teardown :=
  match round, td_pending s with
  | [], [] => goto (leave p rest) s
  | [], _ => goto (PauseRemovals p rest) s
  | _, _ => goto (AwaitRemovals round p rest) s
  end.
Definition end_nodes (round : list string) (s : teardown) : teardown :=
  match round, td_uncleaned s with
  | [], [] => finish (Ok tt) s
  | [], _ => goto PauseNodes s
  | _, _ => goto (AwaitNodes round) s
  end.

Definition without (id : string) (l : list string) : list string := List.filter (λ x, negb (x =?s id)) l.

(** The nodes in turn: the host of the Center is left to itself. *)
Fixpoint visit (todo : list node) (s : teardown) : teardown :=
  match todo with
  | [] => let ids := remove_dups (map nv_id (td_cleaning s)) in end_nodes ids (with_uncleaned ids s)
  | n :: todo' => if nv_id n =?s deferredAgentID then visit todo' s else goto (Nodes todo) s
  end.

Definition at_rest (gateways tunnels commands : Z) : bool := (gateways =? 0) && (tunnels =? 0) && (commands =? 0).

(** A row of a round over the deployments. *)
Definition removals_step (round : list string) (p : nat) (rest : groups) (ans : answer) (s : teardown) : option teardown :=
  match ans with
  | DeploymentRow id state reconciliation _ =>
      if negb (str_in id round) then None else
      if state =?s "succeeded" then
        Some (end_removals (without id round) p rest
                (with_pending (List.filter (λ x, negb (fst x =?s id)) (td_pending s)) s))
      else if (state =?s "failed") || reconciliation then Some (finish (Err "center: uninstall failed") s)
      else Some (end_removals (without id round) p rest s)
  | _ => None
  end.

(** The workers that are not gone. *)
Definition workers_step (rest : groups) (ans : answer) (s : teardown) : option teardown :=
  match ans with
  | Count n => Some (if n =? 0 then goto (enter rest) s else goto (PauseWorkers rest) s)
  | _ => None
  end.

(** The statements of [waitForDecommissionInfrastructure]. *)
Definition infrastructure_step (ans : answer) (s : teardown) : option teardown :=
  match td_phase s, ans with
  | CommandFailure, Found (Some _) => Some (finish (Err "center: application cleanup command failed") s)
  | CommandFailure, Found None => Some (goto PublicationCleanup s)
  | PublicationCleanup, Count n =>
      Some (if negb (n =? 0) then finish (Err "center: publication cleanup is incomplete; explicit review is required") s
            else goto GatewaysPending s)
  | GatewaysPending, Count n => Some (goto (TunnelsPending n) s)
  | TunnelsPending gateways, Count n => Some (goto (CommandsPending gateways n) s)
  | CommandsPending gateways tunnels, Count n =>
      Some (if at_rest gateways tunnels n then goto ComponentFailure s else goto PauseInfrastructure s)
  | ComponentFailure, Found (Some _) => Some (finish (Err "center: component cleanup failed") s)
  | ComponentFailure, Found None => Some (visit (td_nodes s) s)
  | _, _ => None
  end.

(** A row of a round over the nodes. *)
Definition nodes_step (round : list string) (ans : answer) (s : teardown) : option teardown :=
  match ans with
  | NodeRow id state _ =>
      if negb (str_in id round) then None else
      if state =?s "succeeded" then Some (end_nodes (without id round) (with_uncleaned (without id (td_uncleaned s)) s))
      else if state =?s "failed" then Some (finish (Err "center: Agent host cleanup failed") s)
      else Some (end_nodes (without id round) s)
  | _ => None
  end.

(** One statement.  The order in which a Go map is traversed is not specified: the
    answer names the entry of the round that is inspected. *)
Definition teardown_step (s : teardown) (ans : answer) : option teardown :=
  match td_phase s, ans with
  | Finished _, _ => None
  | PauseRemovals p rest, Ticked => Some (goto (AwaitRemovals (map fst (td_pending s)) p rest) s)
  | PauseWorkers rest, Ticked => Some (goto (Workers rest) s)
  | PauseInfrastructure, Ticked => Some (goto CommandFailure s)
  | PauseNodes, Ticked => Some (goto (AwaitNodes (td_uncleaned s)) s)
  | PauseRemovals _ _, Cancelled => Some (finish (Err "center: application cleanup did not finish") s)
  | PauseWorkers _, Cancelled => Some (finish (Err "center: 3x-ui node cleanup did not finish") s)
  | PauseInfrastructure, Cancelled => Some (finish (Err "center: gateway, tunnel, or DNS cleanup did not finish") s)
  | PauseNodes, Cancelled => Some (finish (Err "center: Agent host cleanup did not finish") s)
  | PauseRemovals _ _, _ | PauseWorkers _, _ | PauseInfrastructure, _ | PauseNodes, _ => None
  | _, Failure e => Some (finish (Err e) s)
  | ListApplications, Applications l => Some (goto ListAgents (with_apps l s))
  | ListAgents, Agents l => Some (goto ListOffline (with_nodes l s))
  | ListOffline, Agents l =>
      Some (if negb (Nat.eqb (length (OfflineAgentCleanups l)) 0) && negb forceOffline
            then finish (Err "center: Agent(s) are offline; run their displayed manual cleanup commands or explicitly force teardown") s
            else select (td_apps s) s)
  | SelectTask (a :: todo), ActiveTask row =>
      Some (match activeDecommissionTask row with
            | Err e => finish (Err e) s
            | Ok id => if id =?s "" then goto (SelectInstalled (a :: todo)) s else choose a todo s
            end)
  | SelectInstalled (a :: todo), Flag installed =>
      Some (if negb installed then select todo s else choose a todo s)
  | Join (a :: todo) p rest, ActiveTask row =>
      Some (match activeDecommissionTask row with
            | Err e => finish (Err e) s
            | Ok id => if id =?s "" then goto (Create (a :: todo) p rest) s else start_uninstall id a todo p rest s
            end)
  | Create (a :: todo) p rest, Text id => Some (start_uninstall id a todo p rest s)
  | AwaitRemovals round p rest, _ => removals_step round p rest ans s
  | Workers rest, _ => workers_step rest ans s
  | CommandFailure, _ | PublicationCleanup, _ | GatewaysPending, _ | TunnelsPending _, _ | CommandsPending _ _, _
  | ComponentFailure, _ => infrastructure_step ans s
  | Nodes (n :: todo), Done =>
      Some (if nv_connected n then visit todo (with_cleaning (td_cleaning s ++ [n]) s) else visit todo s)
  | AwaitNodes round, _ => nodes_step round ans s
  | _, _ => None
  end.

(** The statements that were made, with their answers: the latest is the first. *)
Inductive teardown_run : list (phase * answer) → teardown → Prop :=
| tr_start : teardown_run [] start
| tr_step h s ans s' : teardown_run h s → teardown_step s ans = Some s' → teardown_run ((td_phase s, ans) :: h) s'.

(** The same as a function of the answers. *)
Fixpoint teardown_after (answers : list answer) (h : list (phase * answer)) (s : teardown) : option (list (phase * answer) * teardown) :=
  match answers with
  | [] => Some (h, s)
  | ans :: rest => teardown_step s ans ≫= teardown_after rest ((td_phase s, ans) :: h)
  end.
End Teardown.
