(* ===== verification/TeardownSpec.v ===== *)
(** * The order of a teardown

    What has happened when a teardown is at a given statement, and what it means that it
    ended without an error. *)
From S2P Require Import Prelude GoText GoTime Store Hoare Execution Handoff Teardown Samples.

(** ** The rows of the nodes *)

(** Asking a node again neither repeats a cleanup that runs on it or is done, nor takes
    the token of its report away. *)
Lemma requeue_keeps_cleanup {L : Libraries} a n m st t :
  t ∈ tasks st → is_decommission_row a t = true → str_in (tr_state t) ["cleaning"; "succeeded"] = true →
  wp (queueAgentDecommission a n m) st (λ st' _, ∃ t', t' ∈ tasks st' ∧ is_decommission_row a t' = true ∧
    tr_state t' = tr_state t ∧ tr_attempt t' = tr_attempt t ∧ tr_callback_token_hash t' = tr_callback_token_hash t).
Proof.
  intros Ht Hr Hs. unfold queueAgentDecommission, upsert_decommission. cbv zeta. wp_step. wp_step. wp_step.
  intros st1 [] E1. assert (sql_exists (is_decommission_row a) (tasks st) = true) as Hex by (apply sql_exists_spec; by exists t).
  rewrite Hex in E1. simplify_eq. wp_step. intros st2 [] E2. unfold recordTaskEvent in E2. simplify_eq. cbn.
  exists (requeue_decommission (rfc3339nano n) t). split.
  - apply elem_of_sql_update. exists t. by rewrite Hr.
  - unfold requeue_decommission. rewrite Hs. by destruct t.
Qed.

(** Giving up a node that is out of reach overwrites both: a node that has cleaned itself,
    and is gone for that reason, is recorded for a manual cleanup by the next teardown. *)
Example acknowledged_cleanup_is_overwritten :
  let row := decommission_task_row "agent-1" "succeeded" "" (rfc3339nano sample_time) in
  map tr_state (tasks (fst (abandonOfflineAgent "agent-1" sample_time (with_tasks [row] sample_store)))) = ["abandoned"].
Proof. vm_compute. reflexivity. Qed.

(** ** What the answers show *)
Abbreviation history := (list (phase * answer)).

Inductive fact :=
| Absent (a : application)                       (* neither installed nor being uninstalled *)
| Uninstalling (a : application) (id : string)   (* its deployment, new or already active *)
| Removed (id : string)                          (* the row of the deployment says "succeeded" *)
| WorkersGone                                    (* no worker is counted *)
| Quiet                                          (* nothing failed, nothing is pending *)
| Cleaning (n : string)                          (* the node was asked *)
| Manual (n : string)                            (* the node was recorded for a manual cleanup *)
| Cleaned (n : string).                          (* the row of the node says "succeeded" *)

Section Facts.
Variable deleteData : bool.

(** The last five exchanges: no failed command, no publication that is not cleaned up, no
    pending gateway, tunnel or command. *)
Definition found_nothing (h : history) : bool :=
  match h with
  | (CommandsPending _ _, Count commands) :: (TunnelsPending _, Count tunnels) :: (GatewaysPending, Count gateways) ::
    (PublicationCleanup, Count publications) :: (CommandFailure, Found None) :: _ =>
      (commands =? 0) && (tunnels =? 0) && (gateways =? 0) && (publications =? 0)
  | _ => false
  end.

(** What the answer to a statement shows, after the exchanges [h].  The infrastructure is
    at rest when its six statements in a row found nothing. *)
Definition shown (e : phase * answer) (h : history) : list fact :=
  match e with
  | (SelectInstalled (a :: _), Flag false) => [Absent a]
  | (Join (a :: _) _ _, ActiveTask (Some (id, operation, withData))) =>
      if (operation =?s "uninstall") && Bool.eqb withData deleteData && negb (id =?s "") then [Uninstalling a id] else []
  | (Create (a :: _) _ _, Text id) => [Uninstalling a id]
  | (AwaitRemovals _ _ _, DeploymentRow id state _ _) => if state =?s "succeeded" then [Removed id] else []
  | (Workers _, Count n) => if n =? 0 then [WorkersGone] else []
  | (ComponentFailure, Found None) => if found_nothing h then [Quiet] else []
  | (Nodes (n :: _), Done) => if nv_connected n then [Cleaning (nv_id n)] else [Manual (nv_id n)]
  | (AwaitNodes _, NodeRow id state _) => if state =?s "succeeded" then [Cleaned id] else []
  | _ => []
  end.

Fixpoint facts (h : history) : list fact :=
  match h with
  | [] => []
  | e :: h' => shown e h' ++ facts h'
  end.
End Facts.

(** The applications and the nodes the teardown has read. *)
Definition listed (h : history) (apps : list application) (nodes : list node) : Prop :=
  (ListApplications, Applications apps) ∈ h ∧ (ListAgents, Agents nodes) ∈ h.

(** ** The order *)

(** The first fact was followed by the second one. *)
Definition followed (log : list fact) (first second : fact) : Prop := ∃ l1 l2, log = l1 ++ second :: l2 ∧ first ∈ l2.

(** The uninstall of [b] was started, and then its deployment was seen to succeed. *)
Definition handled (log : list fact) (b : application) : Prop := ∃ i, followed log (Uninstalling b i) (Removed i).

(** An application that need not be uninstalled: it is stopped, nothing of it is
    installed, or its node is out of reach. *)
Definition excused (nodes : list node) (log : list fact) (b : application) : Prop :=
  av_status b = "stopped" ∨ Absent b ∈ log ∨ connected (av_node_id b) nodes = false.
Definition settled (nodes : list node) (log : list fact) (b : application) : Prop := excused nodes log b ∨ handled log b.

(** Applications of a lower priority are gone before an uninstall is started, and no worker
    is counted before anything but a worker or a plugin is uninstalled.  All of them are
    gone before the rest of the infrastructure is found at rest, and that comes before a
    node is asked or given up. *)
Fixpoint well_ordered (apps : list application) (nodes : list node) (log : list fact) : Prop :=
  match log with
  | [] => True
  | f :: log' =>
      match f with
      | Uninstalling a _ =>
          a ∈ apps ∧ (decommissionPriority a ≠ 0%nat → WorkersGone ∈ log') ∧
          ∀ b, b ∈ apps → (decommissionPriority b < decommissionPriority a)%nat → settled nodes log' b
      | Quiet => WorkersGone ∈ log' ∧ ∀ b, b ∈ apps → settled nodes log' b
      | Cleaning _ | Manual _ => Quiet ∈ log' ∧ ∀ b, b ∈ apps → settled nodes log' b
      | _ => True
      end ∧ well_ordered apps nodes log'
  end.

(** What an end without an error means. *)
Definition torn_down (deferredAgentID : string) (apps : list application) (nodes : list node) (log : list fact) : Prop :=
  (∀ b, b ∈ apps → settled nodes log b) ∧ Quiet ∈ log ∧
  ∀ n, n ∈ nodes → nv_id n = deferredAgentID ∨
    (if nv_connected n then followed log (Cleaning (nv_id n)) (Cleaned (nv_id n)) else Manual (nv_id n) ∈ log).

Lemma followed_later f log x y : followed log x y → followed (f :: log) x y.
Proof. intros (l1 & l2 & -> & H). by exists (f :: l1), l2. Qed.
Lemma followed_now log x y : x ∈ log → followed (y :: log) x y.
Proof. intros H. by exists [], log. Qed.
Lemma handled_later f log b : handled log b → handled (f :: log) b.
Proof. intros [i H]. exists i. by apply followed_later. Qed.

Section Order.
Context {S : SliceSorter} (deleteData forceOffline : bool) (deferredAgentID : string).
Abbreviation run := (teardown_run deleteData forceOffline deferredAgentID).
Abbreviation tstep := (teardown_step deleteData forceOffline deferredAgentID).
Abbreviation shows := (facts deleteData).

(** Why an application of the list is not, or is, uninstalled. *)
Definition considered (log : list fact) (s : teardown) (a : application) : Prop :=
  excused (td_nodes s) log a ∨ a ∈ td_selected s.
Definition covered (log : list fact) (s : teardown) : Prop :=
  (∀ a, a ∈ td_apps s → considered log s a) ∧ (∀ a, a ∈ td_selected s → a ∈ td_apps s) ∧
  (∀ n, n ∈ td_cleaning s → Cleaning (nv_id n) ∈ log).

(** ** Groups *)
Definition underway (log : list fact) (pending : list (string * application)) (b : application) : Prop :=
  ∃ i, Uninstalling b i ∈ log ∧ i ∈ map fst pending.
Definition within (b : application) (rest : groups) : Prop := ∃ l, (decommissionPriority b, l) ∈ rest ∧ b ∈ l.

Definition above (p : nat) (rest : groups) : Prop := ∀ q l, (q, l) ∈ rest → (p < q)%nat.
Record queue (sel : list application) (rest : groups) : Prop := mk_queue {
  qu_sorted : StronglySorted (λ x y, (fst x < fst y)%nat) rest;
  qu_sound : ∀ q l b, (q, l) ∈ rest → b ∈ l → b ∈ sel ∧ decommissionPriority b = q
}.

(** Every selected application is done, in the current group, or in a later one. *)
Record progress_of (sel : list application) (log : list fact) (pending : list (string * application))
    (todo : list application) (p : nat) (rest : groups) : Prop := mk_progress {
  pr_queue : queue sel rest;
  pr_above : above p rest;
  pr_todo : ∀ b, b ∈ todo → b ∈ sel ∧ decommissionPriority b = p;
  pr_all : ∀ b, b ∈ sel →
    handled log b ∨ (decommissionPriority b = p ∧ (b ∈ todo ∨ underway log pending b)) ∨ within b rest;
  pr_workers : p ≠ 0%nat → WorkersGone ∈ log
}.
Definition progress (log : list fact) (s : teardown) := progress_of (td_selected s) log (td_pending s).
Record ahead_of (sel : list application) (log : list fact) (pending : list (string * application)) (rest : groups) : Prop :=
  mk_ahead {
  ah_queue : queue sel rest;
  ah_all : ∀ b, b ∈ sel → handled log b ∨ within b rest;
  ah_pending : pending = []
}.
Definition ahead (log : list fact) (s : teardown) := ahead_of (td_selected s) log (td_pending s).

(** The workers were counted, or the group of the workers is still ahead. *)
Definition workers_counted (log : list fact) (rest : groups) : Prop := WorkersGone ∈ log ∨ ∃ l, (0%nat, l) ∈ rest.

(** ** Nodes *)
Definition visited (log : list fact) (s : teardown) (n : node) : Prop :=
  nv_id n = deferredAgentID ∨ (if nv_connected n then n ∈ td_cleaning s else Manual (nv_id n) ∈ log).
Definition cleared (log : list fact) (s : teardown) : Prop :=
  covered log s ∧ WorkersGone ∈ log ∧ ∀ b, b ∈ td_selected s → handled log b.
Definition visiting (log : list fact) (s : teardown) (todo : list node) : Prop :=
  cleared log s ∧ Quiet ∈ log ∧ ∀ n, n ∈ td_nodes s → n ∈ todo ∨ visited log s n.
Definition cleaning (log : list fact) (s : teardown) : Prop :=
  visiting log s [] ∧
  ∀ n, n ∈ td_cleaning s → followed log (Cleaning (nv_id n)) (Cleaned (nv_id n)) ∨ nv_id n ∈ td_uncleaned s.

(** Nothing but absences was noted. *)
Definition early (log : list fact) (s : teardown) : Prop :=
  (∀ f, f ∈ log → ∃ a, f = Absent a) ∧ td_pending s = [] ∧ td_cleaning s = [].
Definition selecting (log : list fact) (s : teardown) (todo : list application) : Prop :=
  early log s ∧ (∀ a, a ∈ td_apps s → a ∈ todo ∨ considered log s a) ∧
  (∀ a, a ∈ todo ∨ a ∈ td_selected s → a ∈ td_apps s).

Definition phase_ok (log : list fact) (s : teardown) : Prop :=
  match td_phase s with
  | ListApplications | ListAgents | ListOffline => log = [] ∧ td_pending s = [] ∧ td_cleaning s = [] ∧ td_selected s = []
  | SelectTask todo | SelectInstalled todo => selecting log s todo
  | Join todo p rest | Create todo p rest => covered log s ∧ progress log s todo p rest
  | AwaitRemovals _ p rest | PauseRemovals p rest => covered log s ∧ progress log s [] p rest
  | Workers rest | PauseWorkers rest => covered log s ∧ ahead log s rest
  | CommandFailure | PublicationCleanup | GatewaysPending | TunnelsPending _ | CommandsPending _ _ | ComponentFailure
  | PauseInfrastructure => cleared log s
  | Nodes todo => visiting log s todo
  | AwaitNodes _ | PauseNodes => cleaning log s
  | Finished (Ok _) => torn_down deferredAgentID (td_apps s) (td_nodes s) log
  | Finished (Err _) => True
  end.

Definition ordered (log : list fact) (s : teardown) : Prop := well_ordered (td_apps s) (td_nodes s) log.

Lemma early_ordered log s : early log s → ordered log s.
Proof.
  intros [H _]. unfold ordered. induction log as [|f l IH]; [done|]. cbn.
  destruct (H f (list_elem_of_here _ _)) as [a ->]. split; [done|]. apply IH. intros g Hg. apply H. by right.
Qed.

Lemma excused_later f nodes log b : excused nodes log b → excused nodes (f :: log) b.
Proof. intros [?|[?|?]]; [by left|right; left; by right|by right; right]. Qed.
Lemma covered_later f log s : covered log s → covered (f :: log) s.
Proof.
  intros (H1 & H2 & H3). split; [|split; [done|intros n Hn; right; by apply H3]].
  intros a Ha. destruct (H1 a Ha) as [?|?]; [left; by apply excused_later|by right].
Qed.
Lemma cleared_later f log s : cleared log s → cleared (f :: log) s.
Proof. intros (Hc & Hw & Hh). split; [by apply covered_later|]. split; [by right|]. intros b Hb. by apply handled_later, Hh. Qed.
Lemma cleared_settled log s b : cleared log s → b ∈ td_apps s → settled (td_nodes s) log b.
Proof. intros (Hc & _ & Hh) Hb. destruct (proj1 Hc b Hb) as [?|?]; [by left|right; by apply Hh]. Qed.

(** ** Entering a group *)
Lemma enter_ok log s rest : covered log s → ahead log s rest → workers_counted log rest → phase_ok log (goto (enter rest) s).
Proof.
  intros Hc. induction rest as [|[p l] rest IH]; intros [[Hs Hn] Ha Hp] Hw.
  - split; [done|]. split; [destruct Hw as [?|[? ?]]; [done|set_solver]|].
    intros b Hb. destruct (Ha b Hb) as [?|(l & Hl & _)]; [done|set_solver].
  - inversion Hs as [|? ? Hs' Hall]; subst. rewrite Forall_forall in Hall.
    assert (queue (td_selected s) rest) as Hq.
    { split; [done|]. intros q m b Hm. apply Hn. by right. }
    assert (above p rest) as Hab by (intros q m Hm; apply (Hall (q, m) Hm)).
    assert (p ≠ 0%nat → WorkersGone ∈ log) as Hg.
    { intros Hne. destruct Hw as [?|(m & [E|Hm]%elem_of_cons)]; [done|by simplify_eq|]. apply Hab in Hm. lia. }
    destruct l as [|a l].
    + assert (ahead log s rest) as Hah.
      { split; [done| |done]. intros b Hb. destruct (Ha b Hb) as [?|(m & [E|Hm]%elem_of_cons & Hbm)]; [by left| |].
        - simplify_eq. set_solver.
        - right. by exists m. }
      cbn [enter]. destruct (Nat.eqb p 0) eqn:E; [by split|]. apply Nat.eqb_neq in E. apply IH; [done|]. left. by apply Hg.
    + split; [done|]. split; [done|done| | |done].
      * intros b Hb. apply (Hn p (a :: l)); [left|done].
      * intros b Hb. destruct (Ha b Hb) as [?|(m & [E|Hm]%elem_of_cons & Hbm)]; [by left| |].
        -- simplify_eq. right; left. by split; [|left].
        -- right; right. by exists m.
Qed.

(** Without a pending deployment a group is done. *)
Lemma progress_done log s p rest : progress log s [] p rest → td_pending s = [] → ahead log s rest.
Proof.
  intros [Hq Hab Ht Ha Hw] Hp. split; [done| |done]. intros b Hb.
  destruct (Ha b Hb) as [?|[[_ [?|(i & _ & Hi)]]|?]]; [by left|set_solver| |by right]. rewrite Hp in Hi. set_solver.
Qed.

Lemma leaving_ok log s p rest : covered log s → progress log s [] p rest → td_pending s = [] → phase_ok log (goto (leave p rest) s).
Proof.
  intros Hc Hp E. pose proof (progress_done _ _ _ _ Hp E). unfold leave. destruct (Nat.eqb p 0) eqn:E0; [by split|].
  apply enter_ok; [done|done|]. left. apply (pr_workers _ _ _ _ _ _ Hp). by apply Nat.eqb_neq.
Qed.

Lemma grouped_ahead log s : early log s → ahead log s (grouped (td_selected s)).
Proof.
  intros (_ & Hp & _). assert (∀ p b, b ∈ app_group p (td_selected s) ↔ b ∈ td_selected s ∧ decommissionPriority b = p) as Hg.
  { intros p b. unfold app_group. rewrite slice_sort_perm, !list_elem_of_In, filter_In, Nat.eqb_eq. done. }
  split; [split| |done].
  - unfold grouped. repeat (constructor; [|repeat constructor]); cbn; try lia. all: repeat constructor; cbn; lia.
  - intros q l b Hql Hb. unfold grouped in Hql. set_unfold in Hql.
    destruct Hql as [?|[?|[?|[]]]]; simplify_eq; by apply Hg.
  - intros b Hb. right. exists (app_group (decommissionPriority b) (td_selected s)). split; [|by apply Hg].
    unfold grouped, decommissionPriority. repeat case_match; set_solver.
Qed.

(** ** Steps *)
Definition sound (log : list fact) (s : teardown) : Prop := ordered log s ∧ phase_ok log s.

Lemma select_ok log todo s : selecting log s todo → sound log (select todo s).
Proof.
  intros (He & Ha & Hin). induction todo as [|a todo IH]; cbn [select].
  - split; [by apply (early_ordered log s)|]. apply enter_ok; [|by apply grouped_ahead|right; eexists; left].
    split; [|split; [intros b Hb; apply Hin; by right|destruct He as (_ & _ & ->); set_solver]]. intros a H. destruct (Ha a H) as [?|?]; [set_solver|done].
  - destruct (_ =?s _) eqn:E; [|by split; [apply (early_ordered log s)|]]. apply IH; bool_prop.
    + intros b Hb. destruct (Ha b Hb) as [[->|?]%elem_of_cons|?]; [right; left; by left|by left|by right].
    + intros b [Hb|Hb]; apply Hin; [left; by right|by right].
Qed.

Lemma choose_ok log a todo s : selecting log s (a :: todo) → sound log (choose a todo s).
Proof.
  intros (He & Ha & Hin). unfold choose. destruct (negb _) eqn:E; bool_prop; apply select_ok; (split; [done|split]); intros b Hb.
  - destruct (Ha b Hb) as [[->|?]%elem_of_cons|?]; [right; left; by right; right|by left|by right].
  - destruct Hb; apply Hin; [left; by right|by right].
  - unfold considered. cbn. rewrite elem_of_app.
    destruct (Ha b Hb) as [[->|?]%elem_of_cons|[?|?]]; [right; right; right; by left|by left|right; by left|right; right; by left].
  - cbn in Hb. rewrite elem_of_app, elem_of_cons in Hb. apply Hin. destruct Hb as [?|[?|[->|?]]]; [left; by right|by right|left; by left|set_solver].
Qed.

Lemma absent_ok log a todo s : selecting log s (a :: todo) → sound (Absent a :: log) (select todo s).
Proof.
  intros ((He & Hp) & Ha & Hin). apply select_ok. split; [split; [|done]|split].
  - intros f [->|Hf]%elem_of_cons; [by exists a|by apply He].
  - intros b Hb. destruct (Ha b Hb) as [[->|?]%elem_of_cons|[?|?]]; [right; left; right; left; by left|by left| |by right; right].
    right; left. by apply excused_later.
  - intros b [Hb|Hb]; apply Hin; [left; by right|by right].
Qed.

Lemma put_pending id a l x : x = id ∨ x ∈ map fst l → x ∈ map fst (put id a l).
Proof.
  unfold put. rewrite map_app, elem_of_app. cbn. intros H. destruct (decide (x = id)) as [->|Hn]; [right; by left|].
  destruct H as [?|(y & -> & Hy)%list_elem_of_fmap]; [done|]. left. apply list_elem_of_fmap. exists y. split; [done|].
  rewrite list_elem_of_In in *. apply filter_In. split; [done|]. by apply negb_true_iff, String.eqb_neq.
Qed.

Lemma end_removals_ok log round p rest s :
  covered log s → ordered log s → progress log s [] p rest → sound log (end_removals round p rest s).
Proof.
  intros Hc Ho Hp. unfold end_removals. destruct round; [|by split]. destruct (td_pending s) eqn:E; [|by split].
  split; [done|]. by apply leaving_ok.
Qed.

Lemma start_uninstall_ok log id a todo p rest s :
  covered log s → ordered log s → progress log s (a :: todo) p rest →
  sound (Uninstalling a id :: log) (start_uninstall id a todo p rest s).
Proof.
  intros Hc Ho [Hq Hab Ht Ha Hw]. unfold start_uninstall. destruct (Ht a ltac:(by left)) as [Hsel Hpa].
  set (s1 := with_pending _ _). set (log1 := _ :: log). assert (ordered log1 s1) as Ho1.
  { split; [|done]. split; [by apply (proj1 (proj2 Hc))|]. split; [by rewrite Hpa|]. intros b Hb Hlt. rewrite Hpa in Hlt.
    destruct (proj1 Hc b Hb) as [?|Hsb]; [by left|right].
    destruct (Ha b Hsb) as [?|[[E _]|(l & Hl & _)]]; [done|lia|]. apply Hab in Hl. lia. }
  assert (covered log1 s1) as Hc1 by (by apply (covered_later _ log s)).
  assert (progress log1 s1 todo p rest) as Hp1.
  { split; [done|done|intros b Hb; apply Ht; by right| |intros; right; by apply Hw].
    intros b Hb. destruct (Ha b Hb) as [?|[[E [Hin|(i & H1 & H2)]]|?]].
    - left. by apply handled_later.
    - right; left. split; [done|]. apply elem_of_cons in Hin as [->|?]; [right|by left]. exists id. split; [left|].
      apply put_pending. by left.
    - right; left. split; [done|]. right. exists i. split; [by right|]. apply put_pending. by right.
    - by right; right. }
  destruct todo; [|by split]. unfold await_removals. destruct (td_pending s1) eqn:E; [|by split].
  split; [done|]. by apply leaving_ok.
Qed.

Lemma removed_ok log id p rest s :
  progress log s [] p rest →
  progress (Removed id :: log) (with_pending (List.filter (λ x, negb (fst x =?s id)) (td_pending s)) s) [] p rest.
Proof.
  intros [Hq Hab Ht Ha Hw]. split; [done|done|done| |intros; right; by apply Hw].
  intros b Hb. destruct (Ha b Hb) as [?|[[E [Hin|(i & H1 & H2)]]|?]].
  - left. by apply handled_later.
  - set_solver.
  - destruct (decide (i = id)) as [->|Hn]; [left; exists id; by apply followed_now|]. right; left. split; [done|]. right.
    exists i. split; [by right|]. cbn. apply list_elem_of_fmap in H2 as (y & -> & Hy). apply list_elem_of_fmap. exists y.
    split; [done|]. rewrite list_elem_of_In in *. apply filter_In. split; [done|]. by apply negb_true_iff, String.eqb_neq.
  - by right; right.
Qed.

Lemma end_nodes_ok log round s : ordered log s → cleaning log s → sound log (end_nodes round s).
Proof.
  intros Ho Hc. unfold end_nodes. destruct round; [|by split]. destruct (td_uncleaned s) eqn:E; [|by split].
  split; [done|]. destruct Hc as [(Hcl & Hq & Hn) Hu]. split; [intros b Hb; by apply (cleared_settled log s)|]. split; [done|]. intros n Hin.
  destruct (Hn n Hin) as [?|[?|Hv]]; [set_solver|by left|]. right. cbn. destruct (nv_connected n); [|done].
  destruct (Hu n Hv) as [?|Hx]; [done|]. rewrite E in Hx. set_solver.
Qed.

Lemma visit_ok log todo s : ordered log s → visiting log s todo → sound log (visit deferredAgentID todo s).
Proof.
  intros Ho. induction todo as [|n todo IH]; intros (Hcl & Hq & Hn); cbn [visit].
  - apply end_nodes_ok; [done|]. split; [done|]. intros n Hin. right. cbn. apply elem_of_remove_dups.
    apply list_elem_of_fmap. by exists n.
  - destruct (_ =?s _) eqn:E; [|by split]. bool_prop. apply IH. split; [done|]. split; [done|]. intros m Hm.
    destruct (Hn m Hm) as [[->|?]%elem_of_cons|?]; [right; by left|by left|by right].
Qed.

(** A node that was asked or given up. *)
Lemma visited_later f log s n : visited log s n → visited (f :: log) s n.
Proof. intros [?|H]; [by left|]. right. destruct (nv_connected n); [done|by right]. Qed.

Lemma asked_ok log n todo s : nv_connected n = true → ordered log s → visiting log s (n :: todo) →
  sound (Cleaning (nv_id n) :: log) (visit deferredAgentID todo (with_cleaning (td_cleaning s ++ [n]) s)).
Proof.
  intros E Ho (Hcl & Hq & Hn). apply visit_ok; [split; [split; [done|]|done]; intros b Hb; by apply (cleared_settled log s)|].
  destruct Hcl as ((H1 & H2 & H3) & Hw & Hh). split; [split; [split; [|split]|split]|split; [by right|]].
  - intros b Hb. destruct (H1 b Hb) as [?|?]; [left; by apply excused_later|by right].
  - done.
  - intros m Hm. apply elem_of_app in Hm as [Hm|Hm]; [right; by apply H3|]. apply list_elem_of_singleton in Hm as ->. left.
  - by right.
  - intros b Hb. by apply handled_later, Hh.
  - intros m Hm. destruct (Hn m Hm) as [[->|?]%elem_of_cons|[?|Hv]]; [right; right|by left|right; by left|right; right].
    + rewrite E. apply elem_of_app. right. by left.
    + destruct (nv_connected m); [apply elem_of_app; by left|by right].
Qed.

Lemma given_up_ok log n todo s : nv_connected n = false → ordered log s → visiting log s (n :: todo) →
  sound (Manual (nv_id n) :: log) (visit deferredAgentID todo s).
Proof.
  intros E Ho (Hcl & Hq & Hn). apply visit_ok; [split; [split; [done|]|done]; intros b Hb; by apply (cleared_settled log s)|].
  split; [by apply cleared_later|]. split; [by right|]. intros m Hm.
  destruct (Hn m Hm) as [[->|?]%elem_of_cons|Hv]; [right; right; rewrite E; left|by left|right; by apply visited_later].
Qed.

Lemma cleaned_ok log id s : cleaning log s →
  cleaning (Cleaned id :: log) (with_uncleaned (without id (td_uncleaned s)) s).
Proof.
  intros [(Hcl & Hq & Hn) Hu]. split; [split; [|split]|].
  - by apply (cleared_later _ log s).
  - by right.
  - intros n Hin. destruct (Hn n Hin) as [?|Hv]; [by left|right]. by apply (visited_later _ log s).
  - intros n Hin. destruct (decide (nv_id n = id)) as [<-|Hne].
    { left. apply followed_now. by apply (proj2 (proj2 (proj1 Hcl))). }
    destruct (Hu n Hin) as [?|Hx]; [left; by apply followed_later|].
    right. cbn. unfold without. rewrite list_elem_of_In in *. apply filter_In. split; [done|]. by apply negb_true_iff, String.eqb_neq.
Qed.

Lemma at_rest_ok log s : ordered log s → cleared log s → sound (Quiet :: log) (visit deferredAgentID (td_nodes s) s).
Proof.
  intros Ho Hc. apply visit_ok; [split; [split; [by apply Hc|]|done]; intros b Hb; by apply (cleared_settled log s)|].
  split; [by apply cleared_later|]. split; [left|by left].
Qed.

Lemma workers_ok log rest s : ordered log s → covered log s → ahead log s rest → sound (WorkersGone :: log) (goto (enter rest) s).
Proof.
  intros Ho Hc [Hq Ha Hp]. split; [by split|]. apply enter_ok; [by apply covered_later| |left; left]. split; [done| |done].
  intros b Hb. destruct (Ha b Hb) as [?|?]; [left; by apply handled_later|by right].
Qed.

(** ** The history *)

(** The statements on the infrastructure that have just been answered. *)
Definition resting (p : phase) (h : history) : Prop :=
  match p with
  | PublicationCleanup => ∃ h', h = (CommandFailure, Found None) :: h'
  | GatewaysPending => ∃ h', h = (PublicationCleanup, Count 0) :: (CommandFailure, Found None) :: h'
  | TunnelsPending g => ∃ h', h = (GatewaysPending, Count g) :: (PublicationCleanup, Count 0) :: (CommandFailure, Found None) :: h'
  | CommandsPending g t => ∃ h', h = (TunnelsPending g, Count t) :: (GatewaysPending, Count g) :: (PublicationCleanup, Count 0) ::
                                     (CommandFailure, Found None) :: h'
  | ComponentFailure => ∃ h', h = (CommandsPending 0 0, Count 0) :: (TunnelsPending 0, Count 0) :: (GatewaysPending, Count 0) ::
                                  (PublicationCleanup, Count 0) :: (CommandFailure, Found None) :: h'
  | _ => True
  end.

(** The lists were read before anything was done. *)
Definition reading (p : phase) (h : history) (s : teardown) : Prop :=
  match p with
  | ListApplications => True
  | ListAgents => (ListApplications, Applications (td_apps s)) ∈ h
  | Finished (Err _) => shows h = [] ∨ listed h (td_apps s) (td_nodes s)
  | _ => listed h (td_apps s) (td_nodes s)
  end.

Lemma listed_later e h apps nodes : listed h apps nodes → listed (e :: h) apps nodes.
Proof. intros [? ?]. split; by right. Qed.

Record right_so (h : history) (s : teardown) : Prop := mk_right_so {
  rs_sound : sound (shows h) s;
  rs_resting : resting (td_phase s) h;
  rs_reading : reading (td_phase s) h s
}.

Lemma active_shown log row a todo p rest h :
  shown deleteData (Join (a :: todo) p rest, ActiveTask row) h ++ log =
  match activeDecommissionTask deleteData row with
  | Ok id => if id =?s "" then log else Uninstalling a id :: log
  | Err _ => log
  end.
Proof.
  destruct row as [[[id operation] withData]|]; [|done]. cbn. unfold guard_err.
  destruct (operation =?s "uninstall"); [|done]. cbn. destruct (eqb withData deleteData); [|done]. cbn. by destruct (id =?s "").
Qed.

Lemma resting_quiet h : resting ComponentFailure h → found_nothing h = true.
Proof. by intros [h' ->]. Qed.

Lemma step_sound h s ans s' : right_so h s → tstep s ans = Some s' → sound (shows ((td_phase s, ans) :: h)) s'.
Proof.
  intros [[Ho Hp] Hr _] Hs. cbn [facts]. remember (shows h) as log eqn:Hlog. clear Hlog.
  unfold teardown_step, removals_step, workers_step, infrastructure_step, nodes_step, phase_ok in *.
  destruct (td_phase s) as [| | |[|a todo]|[|a todo]|[|a todo] p rest|[|a todo] p rest|round p rest|p rest|rest|rest| | | | | | |
    |[|n todo]|round| |r] eqn:Eph; destruct ans; try discriminate Hs; try (injection Hs as <-; by split).
  all: rewrite ?active_shown; try rewrite (resting_quiet h Hr); cbn [shown app].
  all: repeat match type of Hs with
       | (if ?b then _ else _) = _ => destruct b eqn:?; try discriminate Hs
       | Some (match ?x with _ => _ end) = _ => destruct x eqn:?
       | match ?x with _ => _ end = _ => destruct x eqn:?; try discriminate Hs
       end; try (injection Hs as <-); try (by split).
  all: cbn [app]; try (by apply choose_ok); try (by apply given_up_ok); try (by apply asked_ok); try (by apply absent_ok).
  all: try (by destruct Hp; apply start_uninstall_ok).
  - destruct Hp as (-> & Hp). by split.
  - destruct Hp as (-> & Hp). by split.
  - destruct Hp as (-> & H1 & H2 & H3). apply select_ok. split; [by split; [set_solver|]|]. split; [by left|].
    intros a. rewrite H3. set_solver.
  - bool_prop. subst b. by apply absent_ok.
  - bool_prop. subst b. by apply choose_ok.
  - destruct Hp. apply end_removals_ok; [by apply (covered_later _ log s)|by split|by apply removed_ok].
  - destruct Hp. by apply end_removals_ok.
  - destruct Hp. by apply workers_ok.
  - rewrite (resting_quiet h Hr). by apply at_rest_ok.
  - apply end_nodes_ok; [by split|]. by apply cleaned_ok.
  - by apply end_nodes_ok.
Qed.

(** Most statements lead to one that asks nothing of the history but the lists. *)
Definition plain (p : phase) : bool :=
  match p with
  | ListApplications | ListAgents | PublicationCleanup | GatewaysPending | TunnelsPending _ | CommandsPending _ _ | ComponentFailure
  | Finished (Err _) => false
  | _ => true
  end.
Definition onward (s s' : teardown) : Prop := plain (td_phase s') = true ∧ td_apps s' = td_apps s ∧ td_nodes s' = td_nodes s.

Lemma onward_ok h s s' e : onward s s' → listed h (td_apps s) (td_nodes s) →
  resting (td_phase s') (e :: h) ∧ reading (td_phase s') (e :: h) s'.
Proof.
  intros (Hp & Ha & Hn) Hl%(listed_later e). rewrite <-Ha, <-Hn in Hl. destruct (td_phase s') as [| | | | | | | | | | | | | | | | | | | | |[]]; by try discriminate Hp.
Qed.

Lemma enter_onward rest s : onward s (goto (enter rest) s).
Proof. split; [|done]. cbn. induction rest as [|[p [|a l]] rest IH]; cbn; [done| |done]. by destruct (Nat.eqb p 0). Qed.
Lemma leave_onward p rest s : onward s (goto (leave p rest) s).
Proof. unfold leave. destruct (Nat.eqb p 0); [done|apply enter_onward]. Qed.
Lemma select_onward todo s : onward s (select todo s).
Proof. induction todo as [|a todo IH]; cbn [select]; [apply enter_onward|]. by destruct (_ =?s _). Qed.
Lemma choose_onward a todo s : onward s (choose a todo s).
Proof. unfold choose. destruct (negb _); [apply select_onward|]. apply (select_onward todo (mk_teardown _ _ _ _ _ _ _)). Qed.
Lemma start_onward id a todo p rest s : onward s (start_uninstall id a todo p rest s).
Proof.
  unfold start_uninstall, await_removals. destruct todo; [|done]. destruct (td_pending _); [|done].
  exact (leave_onward p rest (with_pending (put id a (td_pending s)) s)).
Qed.
Lemma end_removals_onward round p rest s : onward s (end_removals round p rest s).
Proof. unfold end_removals. destruct round; [|done]. destruct (td_pending s); [apply leave_onward|done]. Qed.
Lemma end_nodes_onward round s : onward s (end_nodes round s).
Proof. unfold end_nodes. destruct round; [|done]. by destruct (td_uncleaned s). Qed.
Lemma visit_onward todo s : onward s (visit deferredAgentID todo s).
Proof.
  induction todo as [|n todo IH]; cbn [visit]; [apply (end_nodes_onward _ (with_uncleaned _ s))|]. by destruct (_ =?s _).
Qed.

Lemma step_read h s ans s' : right_so h s → tstep s ans = Some s' →
  resting (td_phase s') ((td_phase s, ans) :: h) ∧ reading (td_phase s') ((td_phase s, ans) :: h) s'.
Proof.
  intros [[_ Hp] Hr Hl] Hs. remember (td_phase s) as ph eqn:Eph.
  unfold teardown_step, removals_step, workers_step, infrastructure_step, nodes_step, phase_ok in *. rewrite <-Eph in *.
  destruct ph as [| | |[|a todo]|[|a todo]|[|a todo] p rest|[|a todo] p rest|round p rest|p rest|rest|rest| | | | | | |
    |[|n todo]|round| |r]; destruct ans; try discriminate Hs.
  all: repeat match type of Hs with
       | (if ?b then _ else _) = _ => destruct b eqn:?; try discriminate Hs
       | Some (match ?x with _ => _ end) = _ => destruct x eqn:?
       | match ?x with _ => _ end = _ => destruct x eqn:?; try discriminate Hs
       end; injection Hs as <-.
  all: cbn [reading resting] in *.
  all: try (first [refine (onward_ok h _ _ _ (choose_onward _ _ _) _)|refine (onward_ok h _ _ _ (select_onward _ _) _)
    |refine (onward_ok h _ _ _ (start_onward _ _ _ _ _ _) _)|refine (onward_ok h _ _ _ (end_removals_onward _ _ _ _) _)
    |refine (onward_ok h _ _ _ (end_nodes_onward _ _) _)|refine (onward_ok h _ _ _ (visit_onward _ _) _)
    |refine (onward_ok h _ _ _ (enter_onward _ _) _)|apply (onward_ok h s); [done|]]; exact Hl).
  all: try (split; [exact I|right; by apply listed_later]).
  all: try (split; [exact I|left; by destruct Hp as [-> _]]).
  - split; [exact I|]. left. destruct Hp as [E _]. exact E.
  - split; [exact I|]. split; [by right|left].
  - split; [exact I|]. left. destruct Hp as [E _]. exact E.
  - split; [by exists h|by apply listed_later].
  - bool_prop. subst n. destruct Hr as [h' ->]. split; [by exists h'|by apply listed_later].
  - destruct Hr as [h' ->]. split; [by exists h'|by apply listed_later].
  - destruct Hr as [h' ->]. split; [by exists h'|by apply listed_later].
  - unfold at_rest in *. bool_prop. destruct_and?. bool_prop. subst. destruct Hr as [h' ->]. split; [by exists h'|by apply listed_later].
Qed.

Lemma run_right h s : run h s → right_so h s.
Proof.
  induction 1 as [|h s ans s' _ IH E].
  - split; [|done|done]. split; [done|by repeat split].
  - destruct (step_read h s ans s' IH E). split; [by eapply step_sound|done|done].
Qed.

(** C23 -- A teardown keeps its order and does not pretend.  Its facts are read off the
    answers its statements got: a deployment is removed when its row said "succeeded", the
    infrastructure is at rest when six statements in a row found no failure and counted
    nothing.  Whatever the statements are answered and whatever happens between them: the
    applications and nodes are those it has read; an uninstall is started only after every
    application of a lower priority (workers and plugins before the others, controllers
    last) is stopped, absent, on a node out of reach, or uninstalled with success, and
    only a worker or a plugin before the workers were counted and none was left; a node is asked
    to clean itself, or given up, only after all applications are and everything was at
    rest.  When it ends without an error, all applications are, and every node but the
    host of the Center was asked and then acknowledged its cleanup, or is recorded for a
    manual one. *)
Theorem teardown_is_ordered h s : run h s →
  (facts deleteData h ≠ [] ∨ td_phase s = Finished (Ok tt) → listed h (td_apps s) (td_nodes s)) ∧
  well_ordered (td_apps s) (td_nodes s) (facts deleteData h) ∧
  (td_phase s = Finished (Ok tt) → torn_down deferredAgentID (td_apps s) (td_nodes s) (facts deleteData h)).
Proof.
  intros [[Ho Hp] _ Hr]%run_right. split; [|split; [done|]].
  - unfold phase_ok, reading in *. destruct (td_phase s) as [| | | | | | | | | | | | | | | | | | | | |[]]; try done.
    all: intros [H|H]; [|discriminate H]; try by destruct Hp. destruct Hr; [done|done].
  - intros E. unfold phase_ok in Hp. by rewrite E in Hp.
Qed.

(** The runs of the step function. *)
Lemma run_after answers h s h' s' :
  run h s → teardown_after deleteData forceOffline deferredAgentID answers h s = Some (h', s') → run h' s'.
Proof.
  revert h s. induction answers as [|ans l IH]; intros h s Hr E; cbn in E; [by simplify_eq|].
  destruct (tstep s ans) as [s1|] eqn:E1; [|discriminate]. eapply IH; [|done]. by eapply tr_step.
Qed.
End Order.

(** ** Two nodes are taken down *)
Module Teardown.
Definition worker : application := mk_app "app-1" "worker" "node-1" "vastora-official/3x-ui" "worker" "running".
Definition master : application := mk_app "app-2" "master" "node-2" "vastora-official/3x-ui" "master" "running".
Definition nodes : list node := [mk_node_view "node-1" "one" true; mk_node_view "node-2" "two" true; mk_node_view "center" "center" true].
Definition answers : list answer :=
  [Applications [master; worker]; Agents nodes; Agents nodes;
   ActiveTask None; Flag true; ActiveTask (Some ("uninstall-1", "uninstall", true));
   ActiveTask (Some ("uninstall-1", "uninstall", true)); DeploymentRow "uninstall-1" "running" false ""; Ticked;
   DeploymentRow "uninstall-1" "succeeded" false ""; Count 0;
   ActiveTask None; Text "uninstall-2"; DeploymentRow "uninstall-2" "succeeded" false "";
   Found None; Count 0; Count 0; Count 0; Count 1; Ticked;
   Found None; Count 0; Count 0; Count 0; Count 0; Found None;
   Done; Done; NodeRow "node-2" "succeeded" ""; NodeRow "node-1" "cleaning" ""; Ticked; NodeRow "node-1" "succeeded" ""].
Definition result : list (phase * answer) * teardown := default ([], start) (teardown_after true false "center" answers [] start).

Example result_is_clean :
  td_phase (snd result) = Finished (Ok tt) ∧
  facts true (fst result) =
    [Cleaned "node-1"; Cleaned "node-2"; Cleaning "node-2"; Cleaning "node-1"; Quiet; Removed "uninstall-2";
     Uninstalling master "uninstall-2"; WorkersGone; Removed "uninstall-1"; Uninstalling worker "uninstall-1"].
Proof. split; vm_compute; reflexivity. Qed.

Lemma teardown_is_ordered_witness : torn_down "center" [master; worker] nodes (facts true (fst result)).
Proof.
  refine (proj2 (proj2 (teardown_is_ordered true false "center" (fst result) (snd result) _)) _); [|vm_compute; reflexivity].
  apply (run_after true false "center" answers [] start); [apply tr_start|vm_compute; reflexivity].
Defined.

(** A node that is offline in the first list of nodes and back in the second one is given
    up although the teardown was not forced. *)
Definition back : list answer :=
  [Applications []; Agents [mk_node_view "node-1" "one" false]; Agents [mk_node_view "node-1" "one" true];
   Count 0; Found None; Count 0; Count 0; Count 0; Count 0; Found None; Done].

Example returning_node_is_given_up :
  option_map (λ x, (td_phase (snd x), facts true (fst x))) (teardown_after true false "center" back [] start) =
  Some (Finished (Ok tt), [Manual "node-1"; Quiet; WorkersGone]).
Proof. vm_compute. reflexivity. Qed.
End Teardown.
